(* ===== verification/_CoqProject ===== *)
-Q . S2P
Prelude.v
Memory.v
Fid.v
SeqRange.v
SeqAlloc.v
SeqSystem.v
SeqCrash.v
FldCache.v
LovOffset.v
IntervalTree.v
IntervalErase.v
IntervalWalk.v
LdlmLock.v
LdlmExtent.v
LdlmIndex.v
LdlmPolicy.v
LdlmSafe.v
LdlmSystem.v
LdlmProcess.v
LdlmServer.v
LdlmReach.v
LdlmProps.v
LdlmKms.v
FlockRange.v
LdlmFlock.v
FlockMerge.v
FlockWait.v
FlockSystem.v
FlockPass.v
FlockProcess.v
FlockReach.v
FlockOps.v
FlockProps.v
BinHeap.v
BinHeapTable.v
BinHeapOrder.v
BinHeapOps.v
BinHeapProps.v
NrsOrder.v
NrsCrr.v
NrsCrrInv.v
NrsCrrProps.v
SkipLock.v
SkipRing.v
SkipShape.v
SkipScan.v
SkipPlain.v
SkipSystem.v
SkipCheck.v
SkipGrant.v
SkipDecide.v
SkipServer.v
SkipProps.v
LinkEa.v
LinkEaProps.v
PtlMsg.v
PtlMsgInv.v
PtlMsgOps.v
PtlMsgWire.v
PtlMsgProps.v
PtlBody.v
PtlBodyProps.v
LustreErrno.v
PtlProps.v
WireStructs.v
WireSwab.v
WireSwabProps.v
