(* ===== verification/Prelude.v ===== *)
(** * Verification of the Lustre file system

    Lustre is a parallel file system: clients talk to metadata and object storage servers,
    files are known by FIDs and striped over objects, and a distributed lock manager keeps
    the clients' caches coherent.  This library models parts of its kernel code (C, under
    src/) and proves what makes them correct.  It is a shallow embedding: functions of the
    source are functions here, structures are records, and definitions keep the names of the
    source.  This first file has the documentation and what all parts share.

    ** How code is modelled

    - A failed [LASSERT], [LBUG()] or the use of a missing object is the result [LBUG] of the
      type [run] below; every other result is [Ret].  That a function returns is a theorem.
    - Machine integers are [Z]; what can leave its width wraps, by [u64], [u32], [s64], ...
    - Objects that are shared (locks, cache entries, heap nodes) live in a store and are known
      by number, as the code knows them by address; lists and trees refer to the numbers.
    - A definition is what happens between taking a lock and releasing it.  Operations that
      interleave are steps of a relation ([..._reachable]); what is said about all reachable
      states is proved by induction on it.  When a step may be taken is part of the relation
      ([..._can]) and says what the callers guarantee.
    - Code outside src/ and results of the environment (allocations, storage, the network)
      are arguments.

    ** File identifiers and sequences (lustre/fid, lustre/include/lustre_fid.h)

    A FID is a sequence, an object number in it and a version.  Sequences are handed out in
    ranges, by one controller to servers and by servers to clients.

    - Fid: [struct lu_fid], OST ids and their conversions, DLM resource names, inode numbers.
      Theorems: conversions lead back where they came from, names of objects do not collide.
    - SeqRange: [struct lu_seq_range] (include/seq_range.h) and its disk format.
    - SeqAlloc: server, controller, store and client (fid_handler.c, fid_store.c,
      fid_request.c), one definition for each function.
    - SeqSystem: any number of servers and clients, threads that interleave, lost replies and
      failed updates.  Theorems: all FIDs handed out are different; requests of remote
      clients fail no assertion.  The client's supplier is an interface, the class [Supplier],
      that the server's code satisfies.
    - SeqCrash: crashes of a server.  Theorem: it never hands out a sequence twice while the
      storage accepts its updates, and a run that shows what happens when it does not.

    ** Location of sequences (lustre/fld/fld_cache.c)

    - FldCache: the sorted list of ranges with its LRU.  Theorems: an insertion changes the
      map of sequences to servers on the inserted range only and keeps the list well formed,
      but for two cases that are told exactly: a range at the end of an entry of another
      server fails an assertion, and one inside such an entry is left out if memory is short.
      The fuel of a pass over the list is two more than its length.

    ** Striping (lustre/lov/lov_offset.c, lov_merge.c)

    - LovOffset: file offsets to object offsets and back, sizes of files from those of their
      objects.  Theorems: round trips and exact intersections.

    ** Lock manager (lustre/ldlm)

    A resource has granted and waiting locks.  A request that conflicts waits, and the
    conflicting locks get blocking callbacks; after a cancel the waiting locks are looked at
    again.  There are extent, POSIX (flock), inodebits and plain locks.

    - IntervalTree, IntervalErase, IntervalWalk: the red-black interval tree
      (interval_tree.c).  A pointer into the tree is a zipper.  Theorems: insertion and
      removal keep it well formed, a search finds just what overlaps, the expansion of an
      extent is as large as possible.  The fuel of a search is one more than the size of the
      tree.
    - LdlmLock, LdlmExtent: locks, work lists, resources (lustre_dlm.h, ldlm_lock.c,
      ldlm_resource.c) and extent locks (ldlm_extent.c).
    - LdlmIndex, LdlmPolicy, LdlmSafe, LdlmSystem, LdlmProcess: the laws of the index of
      granted locks, how far locks grow, the invariant and the decision on a request.
    - LdlmServer, LdlmReach, LdlmProps: enqueue, conflicts, reprocessing, cancels and
      callbacks (ldlm_lockd.c, ldlm_lock.c) in any order.  Theorems: granted locks do not
      conflict, the trees have just the granted locks, a rescan leaves no lock waiting without
      a reason, and no assertion fails but for one case: a group lock that is tried again
      from behind other waiting locks; a run shows it.  Requests are aligned to pages; with
      smaller ones two granted locks can overlap.
    - LdlmKms: the known minimum size after a cancel.
    - FlockRange, LdlmFlock, FlockMerge, FlockWait, FlockSystem, FlockPass, FlockProcess,
      FlockReach, FlockOps, FlockProps: POSIX locks (ldlm_flock.c).  An enqueue refines what
      POSIX says, byte by byte; no byte has two owners in conflict; the search for deadlocks
      is exact for the waits that are recorded, and a run shows that a record can be out of
      date and hide a deadlock.  The fuel of that search is one more than the number of
      blocked locks, which is enough while no process waits for itself; two passes are enough for a request.
    - SkipLock: plain and inodebits locks (ldlm_plain.c, ldlm_inodebits.c), the skip lists of
      granted locks (ldlm_lock.c), converting (ldlm_lockd.c), downgrading, cancelling.
      SkipRing, SkipShape: rings, and the shape of the granted list.  SkipScan, SkipPlain:
      walks that skip groups are scans of single locks.  SkipSystem, SkipCheck, SkipGrant,
      SkipDecide, SkipServer, SkipProps: the invariant, and that all operations in any order
      return and keep it.  The fuel of a walk is the length of the list.

    ** Request scheduling (libcfs/libcfs/heap.c, lustre/ptlrpc/nrs_crr.c)

    - BinHeap, BinHeapTable, BinHeapOrder, BinHeapOps, BinHeapProps: the binary heap with its
      chunks of pointers.  Theorem: it refines a priority queue, for every comparison that
      satisfies the class [CompareOrder].  The fuel of moving a node is one more than the
      number of nodes; the heap holds up to 512 + 512^2 + 512^3 nodes.
    - NrsOrder: the comparisons of the policies are instances of that class.
    - NrsCrr, NrsCrrInv, NrsCrrProps: client round robin.  Theorems: assertions hold, batches
      are within the quantum, a request is overtaken by boundedly many others.  Rounds and
      sequences are 64 bit; up to 2^62 calls they do not wrap.

    ** Link attribute (lustre/obdclass/linkea.c, buffers of lustre/obdclass/lu_object.c)

    - LinkEa: the names of a file with the FIDs of their parents in one extended attribute.
      The buffer is a list of bytes, a pointer into it an offset; an access outside is LBUG.
    - LinkEaProps: the attribute refines a list of links.  Theorem: every operation returns
      and does on the bytes what it should do on the list, on hosts of either byte order.
      The loops run over the number of records in the header, so they need no fuel.

    ** Messages (lustre/ptlrpc/pack_generic.c, errno.c)

    A message is a header with the lengths of its buffers and the buffers, each rounded to 8
    bytes; the first buffer is the body, which all requests and replies have.  Hosts send in
    their own byte order, and the receiver converts.

    - Memory: bytes, and integers of either byte order in them.  LinkEa uses it, too.
    - PtlMsg: [struct lustre_msg_v2] and the functions on it, as bytes in memory.  Its loops
      run over the number of buffers, so they need no fuel.
    - PtlMsgInv, PtlMsgOps, PtlMsgWire: the layout of a message, what each operation keeps of
      it, and unpacking what a host of either order has sent.
    - PtlMsgProps: messages refine lists of buffers; what is unpacked lies within what was
      received, if the lengths do not overflow, and a number of buffers that overflows makes the
      receiver read outside.
    - PtlBody, PtlBodyProps: [struct ptlrpc_body] with its accessors, the masks of converted
      buffers, packing and unpacking of requests.  Theorems: a getter reads what the setter
      wrote and nothing else changed; a body crosses to a host of the other order.
    - LustreErrno, PtlProps: error numbers on the wire, for hosts with any numbers (the class
      [Numbering]).  Theorems: errors cross hosts; a forged message whose lengths overflow is
      accepted.
    - WireStructs, WireSwab, WireSwabProps: structures of lustre_idl.h and lustre_user.h as
      declared, and the functions [lustre_swab_...] that convert them.  Theorems: all integers
      of a structure have the value of the sender and all other bytes are untouched, but for
      a list of members that the code converts twice or not at all.

    ** Not modelled

    - Reference counts, memory, debug output, statistics, failure injection, timers, lock
      pools and LRUs of locks.
    - In messages: reply states (lustre_pack_reply, emergency replies), which belong to the
      service threads; the conversion of structures that arrays follow (striping, directory
      layouts, extent maps, updates) and of llog records; the formats of layout.c.
    - In the lock manager: intents, resent and replayed requests other than those of flock
      and extent enqueue, the client's request side (ldlm_request.c), the threads of
      ldlm_lockd.c, ldlm_lib.c, ldlm_pool.c, ldlm_reclaim.c.
    - In the scheduler: its core (nrs.c) and the policies but CRR-N; of ORR, TBF and delay
      only the comparison.
    - LNet, ptlrpc's transport, security and recovery, the metadata stack (mdt, mdd, lod,
      osp, lfsck, ...), object storage (ofd, osd-ldiskfs, osd-zfs), the clients' VFS and page
      cache (llite, osc, mdc, lmv, rest of lov), configuration (mgs, mgc), quotas, the
      utilities and the tests.  Most of it moves data between kernel interfaces and the
      network; its behaviour is in these interfaces, which are not part of the source. *)

From Stdlib Require Export ZArith Lia.
From stdpp Require Export base numbers list option relations.

#[export] Set Default Goal Selector "!".

Declare Scope lustre_scope.
Delimit Scope lustre_scope with lustre.

(** ** C runs and assertions

    Kernel code stops in [LBUG()] when an [LASSERT] fails.  A model of a
    function with assertions returns [Ret v], or [LBUG] when one of them is
    violated; proving that a function never ends in [LBUG] is a theorem. *)

Inductive run (A : Type) : Type :=
| Ret (a : A)
| LBUG.
Arguments Ret {A} a.
Arguments LBUG {A}.

#[export] Instance run_ret : MRet run := @Ret.
#[export] Instance run_bind : MBind run := fun A B k m =>
  match m with Ret a => k a | LBUG => LBUG end.

Definition LASSERT {A : Type} (b : bool) (k : run A) : run A :=
  if b then k else LBUG.

Notation "'lassert' b ; k" := (LASSERT b k)
  (at level 100, b at level 99, k at level 200, right associativity,
   format "'lassert'  b ;  '/' k") : lustre_scope.

Open Scope Z_scope.
Open Scope lustre_scope.

(** ** Machine integers

    A [w]-bit unsigned value is a [Z] in [[0, 2^w)]; every operation of the
    source that can leave the range wraps explicitly. *)

Definition wrap (w x : Z) : Z := x mod 2 ^ w.
Definition swrap (w x : Z) : Z := (x + 2 ^ (w - 1)) mod 2 ^ w - 2 ^ (w - 1).

Abbreviation u64 := (wrap 64).
Abbreviation u32 := (wrap 32).
Abbreviation s64 := (swrap 64).
Abbreviation s32 := (swrap 32).

Definition in_u (w x : Z) : Prop := 0 <= x < 2 ^ w.
Abbreviation in_u64 := (in_u 64).
Abbreviation in_u32 := (in_u 32).

Definition U64_MAX : Z := 2 ^ 64 - 1.

(** The end of an object, also of a whole-file extent. *)
Definition OBD_OBJECT_EOF : Z := 0xffffffffffffffff.

#[export] Instance in_u_dec w x : Decision (in_u w x).
Proof. unfold in_u. apply _. Defined.

(** Associates appends to the right, through the conses. *)
Ltac norm_app := repeat (progress (simpl; rewrite <-?app_assoc)).

(** [unsigned_lia]: linear arithmetic after the wrap-arounds of the goal and the
    hypotheses are turned into quotients and remainders. *)
Ltac unfold_ints :=
  unfold wrap, swrap, in_u, U64_MAX in *;
  change (2 ^ 64) with 18446744073709551616 in *;
  change (2 ^ 63) with 9223372036854775808 in *;
  change (2 ^ (64 - 1)) with 9223372036854775808 in *;
  change (2 ^ (32 - 1)) with 2147483648 in *;
  change (2 ^ 48) with 281474976710656 in *;
  change (2 ^ 32) with 4294967296 in *;
  change (2 ^ 16) with 65536 in *.

Ltac int_lia := unfold_ints; Z.to_euclidean_division_equations; lia.

Create HintDb lustre.

Lemma wrap_small w x : in_u w x -> wrap w x = x.
Proof. intros H. apply Z.mod_small, H. Qed.

Lemma wrap_in_u w x : 0 <= w -> in_u w (wrap w x).
Proof. intros Hw. apply Z.mod_pos_bound. lia. Qed.

Lemma swrap_small w x :
  0 < w -> - 2 ^ (w - 1) <= x < 2 ^ (w - 1) -> swrap w x = x.
Proof.
  intros Hw Hx. unfold swrap.
  assert (2 ^ w = 2 * 2 ^ (w - 1)) as Hp.
  { replace w with (Z.succ (w - 1)) at 1 by lia. apply Z.pow_succ_r. lia. }
  rewrite Z.mod_small; lia.
Qed.

Lemma wrap_swrap w x : 0 < w -> wrap w (swrap w x) = wrap w x.
Proof.
  intros Hw. unfold swrap, wrap. rewrite Zminus_mod_idemp_l. f_equal. lia.
Qed.

Lemma wrap_idemp w x : 0 <= w -> wrap w (wrap w x) = wrap w x.
Proof. intros Hw. apply wrap_small, wrap_in_u, Hw. Qed.

#[export] Hint Resolve wrap_in_u : lustre.

(** ** Bit fields *)

Lemma land_mask a w : 0 <= w -> Z.land a (2 ^ w - 1) = a mod 2 ^ w.
Proof. intros Hw. rewrite <- Z.land_ones by done. f_equal. rewrite Z.ones_equiv. lia. Qed.

Lemma testbit_above a w i : 0 <= a < 2 ^ w -> w <= i -> Z.testbit a i = false.
Proof.
  intros Ha Hi. destruct (decide (a = 0)) as [->|]; [apply Z.bits_0|].
  apply Z.bits_above_log2; [lia|].
  apply Z.log2_lt_pow2; [lia|].
  apply Z.lt_le_trans with (2 ^ w); [lia|apply Z.pow_le_mono_r; lia].
Qed.

(** A field that lies above another one is added to it. *)
Lemma lor_shiftl_add a b w :
  0 <= w -> 0 <= a < 2 ^ w -> Z.lor (Z.shiftl b w) a = b * 2 ^ w + a.
Proof.
  intros Hw Ha. rewrite <- Z.shiftl_mul_pow2 by done.
  assert (Z.land (Z.shiftl b w) a = 0) as H0.
  { apply Z.bits_inj'. intros i Hi. rewrite Z.land_spec, Z.bits_0.
    destruct (Z.ltb_spec i w).
    - by rewrite Z.shiftl_spec_low by lia.
    - by rewrite (testbit_above a w i), andb_false_r by lia. }
  by rewrite Z.add_nocarry_lxor, Z.lxor_lor.
Qed.

Lemma lor_add_shiftl a b w :
  0 <= w -> 0 <= a < 2 ^ w -> Z.lor a (Z.shiftl b w) = a + b * 2 ^ w.
Proof. intros. rewrite Z.lor_comm, lor_shiftl_add by done. lia. Qed.

Lemma shiftr_div a w : 0 <= w -> Z.shiftr a w = a / 2 ^ w.
Proof. apply Z.shiftr_div_pow2. Qed.

Lemma lor_bound w x y : 0 <= w -> 0 <= x < 2 ^ w -> 0 <= y < 2 ^ w -> 0 <= Z.lor x y < 2 ^ w.
Proof.
  intros Hw Hx Hy. assert (Hn : 0 <= Z.lor x y) by (apply Z.lor_nonneg; lia). split; [done|].
  replace (Z.lor x y) with (Z.lor x y mod 2 ^ w); [apply Z.mod_pos_bound; lia|].
  apply Z.bits_inj'. intros n Hi. destruct (Z.lt_ge_cases n w).
  - by rewrite Z.mod_pow2_bits_low.
  - rewrite Z.mod_pow2_bits_high, Z.lor_spec by lia.
    by rewrite (testbit_above x w n), (testbit_above y w n).
Qed.

(** Rounding to a multiple of a power of two with masks. *)
Lemma lor_low_mask x w : 0 <= w -> Z.lor x (2 ^ w - 1) = x / 2 ^ w * 2 ^ w + (2 ^ w - 1).
Proof.
  intros Hw. rewrite <-(lor_shiftl_add (2 ^ w - 1) (x / 2 ^ w) w) by lia.
  apply Z.bits_inj'. intros n Hn. rewrite !Z.lor_spec.
  destruct (Z.lt_ge_cases n w).
  - replace (2 ^ w - 1) with (Z.ones w) by (rewrite Z.ones_equiv; lia).
    rewrite (Z.ones_spec_low w n) by lia. by rewrite !orb_true_r.
  - f_equal. rewrite Z.shiftl_spec, Z.div_pow2_bits by lia. f_equal. lia.
Qed.

Lemma land_high_mask x w v :
  0 <= w <= v -> 0 <= x < 2 ^ v -> Z.land x (wrap v (Z.lnot (2 ^ w - 1))) = x / 2 ^ w * 2 ^ w.
Proof.
  intros Hw Hx. rewrite <-Z.shiftl_mul_pow2 by lia.
  apply Z.bits_inj'. intros n Hn. rewrite Z.land_spec, Z.shiftl_spec by lia. unfold wrap.
  replace (2 ^ w - 1) with (Z.ones w) by (rewrite Z.ones_equiv; lia).
  destruct (Z.lt_ge_cases n v).
  - rewrite Z.mod_pow2_bits_low, Z.lnot_spec by lia. destruct (Z.lt_ge_cases n w).
    + rewrite Z.ones_spec_low, andb_false_r, (Z.testbit_neg_r _ (n - w)) by lia. done.
    + rewrite Z.ones_spec_high, andb_true_r, Z.div_pow2_bits by lia. f_equal. lia.
  - rewrite (testbit_above x v n) by lia. rewrite Z.div_pow2_bits by lia. simpl.
    rewrite (testbit_above x v) by lia. done.
Qed.

Lemma land_mask16 x : Z.land x 0xffff = x mod 2 ^ 16.
Proof. apply (land_mask x 16). lia. Qed.
Lemma land_mask32 x : Z.land x 0xffffffff = x mod 2 ^ 32.
Proof. apply (land_mask x 32). lia. Qed.
Lemma land_mask48 x : Z.land x (Z.shiftl 1 48 - 1) = x mod 2 ^ 48.
Proof. apply (land_mask x 48). lia. Qed.

(** Joining and splitting two bit fields. *)
Lemma join_field_hi w hi lo :
  0 <= w -> 0 <= lo < 2 ^ w -> Z.shiftr (Z.lor (Z.shiftl hi w) lo) w = hi.
Proof.
  intros Hw Hlo. rewrite lor_shiftl_add, shiftr_div by done.
  rewrite Z.div_add_l, Z.div_small by lia. lia.
Qed.

Lemma join_field_lo w hi lo :
  0 <= w -> 0 <= lo < 2 ^ w -> Z.lor (Z.shiftl hi w) lo mod 2 ^ w = lo.
Proof.
  intros Hw Hlo. rewrite lor_shiftl_add by done.
  rewrite Z.add_comm, Z.mod_add by lia. by apply Z.mod_small.
Qed.

Lemma join_split_field w x : 0 <= w -> Z.lor (Z.shiftl (x / 2 ^ w) w) (x mod 2 ^ w) = x.
Proof.
  intros Hw. rewrite lor_shiftl_add by (done || apply Z.mod_pos_bound; lia).
  pose proof (Z.div_mod x (2 ^ w)). lia.
Qed.

(** ** Byte order

    The wire and disk formats are byte swapped on hosts of the other byte
    order. *)

Inductive byte_order := LittleEndian | BigEndian.
Existing Class byte_order.

Fixpoint bytes_of (n : nat) (x : Z) : list Z :=
  match n with
  | O => []
  | S n' => x mod 256 :: bytes_of n' (x / 256)
  end.

Fixpoint of_bytes (l : list Z) : Z :=
  match l with
  | [] => 0
  | b :: l' => b + 256 * of_bytes l'
  end.

Definition swab (n : nat) (x : Z) : Z := of_bytes (rev (bytes_of n x)).

Definition is_byte (b : Z) : Prop := 0 <= b < 256.

Lemma length_bytes_of n x : length (bytes_of n x) = n.
Proof. revert x. induction n as [|n IH]; intros x; simpl; [done|by rewrite IH]. Qed.

Lemma bytes_of_bytes n x : Forall is_byte (bytes_of n x).
Proof.
  revert x. induction n as [|n IH]; intros x; simpl; constructor; [|apply IH].
  apply Z.mod_pos_bound. lia.
Qed.

Lemma bytes_of_of_bytes l : Forall is_byte l -> bytes_of (length l) (of_bytes l) = l.
Proof.
  induction 1 as [|b l Hb Hl IH]; simpl; [done|].
  unfold is_byte in Hb. rewrite (Z.mul_comm 256). f_equal.
  - rewrite Z.mod_add by lia. apply Z.mod_small. lia.
  - rewrite Z.div_add by lia. rewrite Z.div_small by lia. apply IH.
Qed.

Lemma of_bytes_of_bytes n x :
  0 <= x < 256 ^ Z.of_nat n -> of_bytes (bytes_of n x) = x.
Proof.
  revert x. induction n as [|n IH]; intros x Hx; simpl; [simpl in Hx; lia|].
  rewrite Nat2Z.inj_succ, Z.pow_succ_r in Hx by lia.
  rewrite IH; [pose proof (Z.div_mod x 256); lia|].
  split; [apply Z.div_pos; lia|apply Z.div_lt_upper_bound; lia].
Qed.

Lemma of_bytes_bound l :
  Forall is_byte l -> 0 <= of_bytes l < 256 ^ Z.of_nat (length l).
Proof.
  unfold is_byte. induction 1 as [|b l Hb Hl IH]; simpl; [lia|].
  rewrite Nat2Z.inj_succ, Z.pow_succ_r by lia. lia.
Qed.

(** Swapping the bytes twice is the identity. *)
Lemma swab_swab n x : 0 <= x < 256 ^ Z.of_nat n -> swab n (swab n x) = x.
Proof.
  intros Hx. unfold swab.
  rewrite <- (length_bytes_of n x) at 1. rewrite <- length_rev.
  rewrite bytes_of_of_bytes by apply Forall_rev, bytes_of_bytes.
  rewrite rev_involutive. by apply of_bytes_of_bytes.
Qed.

Lemma swab_bound n x : 0 <= swab n x < 256 ^ Z.of_nat n.
Proof.
  unfold swab. rewrite <- (length_bytes_of n x) at 3. rewrite <- length_rev.
  apply of_bytes_bound, Forall_rev, bytes_of_bytes.
Qed.

(** [cpu_to_le64] and its relatives: the host order is an implicit parameter. *)
Definition cpu_to_le {bo : byte_order} (n : nat) (x : Z) : Z :=
  match bo with LittleEndian => x | BigEndian => swab n x end.
Definition cpu_to_be {bo : byte_order} (n : nat) (x : Z) : Z :=
  match bo with LittleEndian => swab n x | BigEndian => x end.

Abbreviation cpu_to_le64 := (cpu_to_le 8).
Abbreviation cpu_to_le32 := (cpu_to_le 4).
Abbreviation cpu_to_be64 := (cpu_to_be 8).
Abbreviation cpu_to_be32 := (cpu_to_be 4).

Lemma cpu_to_le64_inv {bo : byte_order} x : in_u64 x -> cpu_to_le64 (cpu_to_le64 x) = x.
Proof. intros Hx. destruct bo; [done|]. apply swab_swab, Hx. Qed.
Lemma cpu_to_le32_inv {bo : byte_order} x : in_u32 x -> cpu_to_le32 (cpu_to_le32 x) = x.
Proof. intros Hx. destruct bo; [done|]. apply swab_swab, Hx. Qed.
Lemma cpu_to_be64_inv {bo : byte_order} x : in_u64 x -> cpu_to_be64 (cpu_to_be64 x) = x.
Proof. intros Hx. destruct bo; [|done]. apply swab_swab, Hx. Qed.
Lemma cpu_to_be32_inv {bo : byte_order} x : in_u32 x -> cpu_to_be32 (cpu_to_be32 x) = x.
Proof. intros Hx. destruct bo; [|done]. apply swab_swab, Hx. Qed.

Create Rewrite HintDb byteorder.
#[export] Hint Rewrite @cpu_to_le64_inv @cpu_to_le32_inv
  @cpu_to_be64_inv @cpu_to_be32_inv using done : byteorder.

(** ** Lists *)

(** Replacing one element changes a sum by the difference. *)
Lemma sum_list_with_insert {A} (f : A -> nat) (l : list A) (i : nat) (x y : A) :
  l !! i = Some x ->
  (sum_list_with f (<[i:=y]> l) + f x = sum_list_with f l + f y)%nat.
Proof.
  revert i. induction l as [|a l IH]; intros [|i] H; simplify_eq/=; [lia|].
  specialize (IH i H). lia.
Qed.

Lemma sum_list_with_lookup {A} (f : A -> nat) (l : list A) (i : nat) (x : A) :
  l !! i = Some x -> (f x <= sum_list_with f l)%nat.
Proof. intros H. apply list_elem_of_lookup_2 in H. by apply sum_list_with_in. Qed.

Lemma sum_list_with_lookup2 {A} (f : A -> nat) (l : list A) (i j : nat) (x y : A) :
  i <> j -> l !! i = Some x -> l !! j = Some y -> (f x + f y <= sum_list_with f l)%nat.
Proof.
  revert i j. induction l as [|a l IH]; intros [|i] [|j] Hne Hi Hj; simplify_eq/=.
  - pose proof (sum_list_with_lookup f l j y Hj). lia.
  - pose proof (sum_list_with_lookup f l i x Hi). lia.
  - specialize (IH i j ltac:(lia) Hi Hj). lia.
Qed.

(** Two elements of a list that are at different places, or one of them twice. *)
Lemma NoDup_join_lookup {A} (ls : list (list A)) :
  (forall i l, ls !! i = Some l -> NoDup l) ->
  (forall i j l1 l2 x, i <> j -> ls !! i = Some l1 -> ls !! j = Some l2 ->
     x ∈ l1 -> x ∈ l2 -> False) ->
  NoDup (mjoin ls).
Proof.
  induction ls as [|l ls IH]; intros Hnd Hdis; simpl; [constructor|].
  apply list.NoDup_app. split_and!.
  - by apply (Hnd 0%nat).
  - intros x Hx Hin. apply list_elem_of_join in Hin as (l2 & Hx2 & Hl2).
    apply list_elem_of_lookup_1 in Hl2 as [j Hj].
    by apply (Hdis 0%nat (S j) l l2 x).
  - apply IH.
    + intros i l' Hi. by apply (Hnd (S i)).
    + intros i j l1 l2 x Hne Hi Hj. apply (Hdis (S i) (S j)); [lia|done|done].
Qed.

Lemma filter_ne_id {A} `{EqDecision A} (id : A) (l : list A) :
  id ∉ l -> base.filter (fun i => i <> id) l = l.
Proof.
  induction l as [|a l IH]; intros Hn; [done|]. rewrite not_elem_of_cons in Hn.
  destruct Hn as [Hne Hn]. rewrite filter_cons_True by congruence. by rewrite IH.
Qed.

Lemma filter_ne_middle {A} `{EqDecision A} (id : A) (P Q : list A) :
  NoDup (P ++ id :: Q) -> base.filter (fun i => i <> id) (P ++ id :: Q) = P ++ Q.
Proof.
  intros (_ & Hd & Hnd)%list.NoDup_app. inversion Hnd as [|? ? Hq _]; subst.
  rewrite filter_app, filter_cons_False by (intros Hne; by apply Hne).
  rewrite !filter_ne_id; [done|done|]. intros Hp. apply (Hd id Hp). by left.
Qed.

(** ** Error numbers *)

Definition EPERM : Z := 1.
Definition ENOENT : Z := 2.
Definition EBADF : Z := 9.
Definition EAGAIN : Z := 11.
Definition EWOULDBLOCK : Z := 11.
Definition ENOMEM : Z := 12.
Definition EFAULT : Z := 14.
Definition EEXIST : Z := 17.
Definition ENODEV : Z := 19.
Definition EINVAL : Z := 22.
Definition ENOSPC : Z := 28.
Definition EROFS : Z := 30.
Definition ERANGE : Z := 34.
Definition ENODATA : Z := 61.
Definition EIO : Z := 5.
Definition EPROTO : Z := 71.
Definition E2BIG : Z := 7.
Definition EUSERS : Z := 87.
Definition EINPROGRESS : Z := 115.
