(* ===== verification/Memory.v ===== *)
(** * Bytes in memory

    Buffers are lists of bytes.  What is read or written outside of one is LBUG, so that a
    function that returns has stayed inside. *)

From stdpp Require Import list.
From S2P Require Import Prelude.

Abbreviation zlen l := (Z.of_nat (length l)).

Definition load (mem : list Z) (off n : Z) : run (list Z) :=
  if (0 <=? off) && (0 <=? n) && (off + n <=? Z.of_nat (length mem))
  then Ret (take (Z.to_nat n) (drop (Z.to_nat off) mem)) else LBUG.

Definition store (mem : list Z) (off : Z) (bs : list Z) : run (list Z) :=
  if (0 <=? off) && (off + Z.of_nat (length bs) <=? Z.of_nat (length mem))
  then Ret (take (Z.to_nat off) mem ++ bs ++ drop (Z.to_nat off + length bs) mem) else LBUG.

(** An integer of [n] bytes in memory. *)
Definition host_bytes {bo : byte_order} (n : nat) (x : Z) : list Z :=
  match bo with LittleEndian => bytes_of n x | BigEndian => rev (bytes_of n x) end.
Definition host_int {bo : byte_order} (bs : list Z) : Z :=
  match bo with LittleEndian => of_bytes bs | BigEndian => of_bytes (rev bs) end.

Definition get_int {bo : byte_order} (n : nat) (mem : list Z) (off : Z) : run Z :=
  bs ← load mem off (Z.of_nat n); Ret (host_int bs).
Definition put_int {bo : byte_order} (n : nat) (mem : list Z) (off x : Z) : run (list Z) :=
  store mem off (host_bytes n x).

(** [__swab16s] and its relatives. *)
Definition swab_int {bo : byte_order} (n : nat) (mem : list Z) (off : Z) : run (list Z) :=
  x ← get_int n mem off; put_int n mem off (swab n x).

(** Fields of a structure, each with its offset and its length, swapped one after the other. *)
Fixpoint swab_fields {bo : byte_order} (mem : list Z) (base : Z) (fields : list (Z * nat)) : run (list Z) :=
  match fields with
  | [] => Ret mem
  | (off, n) :: fields' => mem ← swab_int n mem (base + off); swab_fields mem base fields'
  end.

#[export] Instance byte_order_eq_dec : EqDecision byte_order.
Proof. intros [] []; (by left) || (by right). Defined.

(** ** Memory in parts *)

Lemma zlen_snoc {A} (l : list A) x : zlen (l ++ [x]) = zlen l + 1.
Proof. rewrite length_app. cbn. lia. Qed.

Lemma load_mid (A B C : list Z) off n : off = zlen A -> n = zlen B -> load (A ++ B ++ C) off n = Ret B.
Proof.
  intros -> ->. unfold load. rewrite !length_app, !(proj2 (Z.leb_le _ _)) by lia. cbn [andb].
  by rewrite !Nat2Z.id, drop_app_length, take_app_length.
Qed.

Lemma store_mid (A B B' C : list Z) off : off = zlen A -> length B' = length B -> store (A ++ B ++ C) off B' = Ret (A ++ B' ++ C).
Proof.
  intros -> Hl. unfold store. rewrite !length_app, !(proj2 (Z.leb_le _ _)) by lia. cbn [andb].
  rewrite !Nat2Z.id, take_app_length. repeat f_equal. rewrite Hl, app_assoc, <-length_app. apply drop_app_length.
Qed.

Lemma load_head (B C : list Z) n : n = zlen B -> load (B ++ C) 0 n = Ret B.
Proof. by apply (load_mid []). Qed.

Lemma load_all (B : list Z) : load B 0 (zlen B) = Ret B.
Proof. pose proof (load_head B [] (zlen B) eq_refl) as H. by rewrite app_nil_r in H. Qed.

Lemma store_head (B B' C : list Z) : length B' = length B -> store (B ++ C) 0 B' = Ret (B' ++ C).
Proof. by apply (store_mid []). Qed.

(** ** Memory as ranges *)

Lemma load_Ret mem off n :
  0 <= off -> 0 <= n -> off + n <= zlen mem -> load mem off n = Ret (take (Z.to_nat n) (drop (Z.to_nat off) mem)).
Proof. intros H1 H2 H3. unfold load. by rewrite !(proj2 (Z.leb_le _ _)) by done. Qed.

Lemma load_inv mem off n bs :
  load mem off n = Ret bs -> 0 <= off /\ off + n <= zlen mem /\ zlen bs = n /\ bs = take (Z.to_nat n) (drop (Z.to_nat off) mem).
Proof.
  unfold load. destruct (Z.leb_spec 0 off), (Z.leb_spec 0 n), (Z.leb_spec (off + n) (zlen mem)); cbn; try done.
  intros [= <-]. rewrite length_take, length_drop. split_and!; try done; lia.
Qed.

Lemma load_bound mem off n : 0 <= off -> 0 <= n -> off + n <= zlen mem -> exists bs, load mem off n = Ret bs /\ zlen bs = n.
Proof. intros H1 H2 H3. eexists. split; [by apply load_Ret|]. rewrite length_take, length_drop. lia. Qed.

Lemma load_fails mem off n : zlen mem < off + n -> load mem off n = LBUG.
Proof. intros H. unfold load. by rewrite (proj2 (Z.leb_gt (off + n) _)), andb_false_r by lia. Qed.

Lemma store_Ret mem off bs : 0 <= off -> off + zlen bs <= zlen mem -> exists mem', store mem off bs = Ret mem'.
Proof. intros H1 H2. unfold store. rewrite !(proj2 (Z.leb_le _ _)) by done. by eexists. Qed.

Lemma store_inv mem off bs mem' :
  store mem off bs = Ret mem' ->
  0 <= off /\ off + zlen bs <= zlen mem /\ length mem' = length mem
  /\ forall i, mem' !! i = if decide (Z.to_nat off <= i < Z.to_nat off + length bs)%nat then bs !! (i - Z.to_nat off)%nat else mem !! i.
Proof.
  unfold store. destruct (Z.leb_spec 0 off), (Z.leb_spec (off + zlen bs) (zlen mem)); cbn; try done. intros [= <-].
  split_and!; try done. { rewrite !length_app, length_take, length_drop. lia. }
  intros i. destruct (decide (i < Z.to_nat off)%nat).
  - rewrite decide_False by lia. rewrite lookup_app_l by (rewrite length_take; lia). apply lookup_take_lt. lia.
  - rewrite lookup_app_r by (rewrite length_take; lia). rewrite length_take, Nat.min_l by lia. case_decide.
    + apply lookup_app_l. lia.
    + rewrite lookup_app_r, lookup_drop by lia. f_equal. lia.
Qed.

Lemma store_length mem off bs mem' : store mem off bs = Ret mem' -> length mem' = length mem.
Proof. intros H. by apply store_inv in H as (_ & _ & ? & _). Qed.

(** Reading what was written, and what was not. *)
Lemma load_store_same mem off bs mem' : store mem off bs = Ret mem' -> load mem' off (zlen bs) = Ret bs.
Proof.
  intros H. apply store_inv in H as (H1 & H2 & H3 & H4). rewrite load_Ret by lia. f_equal. apply list_eq. intros i.
  destruct (decide (i < length bs)%nat).
  - rewrite lookup_take_lt, lookup_drop, H4, decide_True by lia. f_equal. lia.
  - by rewrite lookup_take_ge, lookup_ge_None_2 by lia.
Qed.

Lemma load_store_other mem off bs mem' o n :
  store mem off bs = Ret mem' -> o + n <= off \/ off + zlen bs <= o -> load mem' o n = load mem o n.
Proof.
  intros H Hd. apply store_inv in H as (H1 & H2 & H3 & H4). unfold load. rewrite H3. case_match eqn:Hb; [|done].
  apply andb_true_iff in Hb as [[Hb1%Z.leb_le Hb2%Z.leb_le]%andb_true_iff Hb3%Z.leb_le]. f_equal. apply list_eq. intros i.
  destruct (decide (i < Z.to_nat n)%nat); [|by rewrite !lookup_take_ge by lia].
  rewrite !lookup_take_lt, !lookup_drop, H4, decide_False by lia. done.
Qed.

(** Ranges of ranges. *)
Lemma load_sub mem off n bs o k :
  load mem off n = Ret bs -> 0 <= o -> o + k <= n -> load mem (off + o) k = load bs o k.
Proof.
  intros H Ho Hk. apply load_inv in H as (H1 & H2 & H3 & ->). unfold load. rewrite H3.
  destruct (Z.leb_spec 0 (off + o)), (Z.leb_spec 0 o), (Z.leb_spec 0 k), (Z.leb_spec (o + k) n), (Z.leb_spec (off + o + k) (zlen mem));
    try lia; cbn; [|done..].
  f_equal. apply list_eq. intros i. destruct (decide (i < Z.to_nat k)%nat); [|by rewrite !lookup_take_ge by lia].
  rewrite !lookup_take_lt, !lookup_drop, lookup_take_lt, lookup_drop by lia. f_equal. lia.
Qed.

Lemma store_sub mem off n bs o cs bs' :
  load mem off n = Ret bs -> store bs o cs = Ret bs' -> exists mem', store mem (off + o) cs = Ret mem' /\ load mem' off n = Ret bs'.
Proof.
  intros Hl Hs. pose proof Hl as (H1 & H2 & H3 & ->)%load_inv. pose proof Hs as (S1 & S2 & S3 & S4)%store_inv.
  destruct (store_Ret mem (off + o) cs) as [mem' E]; [lia..|]. exists mem'. split; [done|].
  apply store_inv in E as (E1 & E2 & E3 & E4). rewrite load_Ret by lia. f_equal. apply list_eq. intros i.
  destruct (decide (i < Z.to_nat n)%nat).
  - rewrite lookup_take_lt, lookup_drop, E4, S4, lookup_take_lt, lookup_drop by lia.
    destruct (decide (Z.to_nat o <= i < Z.to_nat o + length cs)%nat).
    + rewrite decide_True by lia. f_equal. lia.
    + by rewrite decide_False by lia.
  - rewrite lookup_take_ge, lookup_ge_None_2 by lia. done.
Qed.

Lemma load_bytes mem off n bs : load mem off n = Ret bs -> Forall is_byte mem -> Forall is_byte bs.
Proof. intros (_ & _ & _ & ->)%load_inv H. by apply Forall_take, Forall_drop. Qed.

Lemma store_bytes mem off bs mem' : store mem off bs = Ret mem' -> Forall is_byte mem -> Forall is_byte bs -> Forall is_byte mem'.
Proof.
  intros (_ & _ & _ & H)%store_inv Hm Hb. rewrite Forall_lookup in *. intros i x Hi. rewrite H in Hi. case_decide; eauto.
Qed.

(** ** Integers *)

Lemma bytes_of_mod n : forall x, bytes_of n (x mod 256 ^ Z.of_nat n) = bytes_of n x.
Proof.
  induction n as [|n IH]; intros x; [done|]. rewrite Nat2Z.inj_succ, Z.pow_succ_r by lia. cbn [bytes_of]. f_equal.
  - rewrite Z.rem_mul_r by lia. rewrite Z.mul_comm, Z.mod_add by lia. apply Z.mod_mod. lia.
  - rewrite <-IH, <-(IH (x / 256)). f_equal. rewrite Z.rem_mul_r, (Z.mul_comm 256), Z.div_add by lia.
    rewrite (Z.div_small (x mod 256)) by (apply Z.mod_pos_bound; lia). rewrite Z.add_0_l. apply Z.mod_mod. lia.
Qed.

Section Host.
Context {bo : byte_order}.

Lemma length_host n x : length (host_bytes n x) = n.
Proof. unfold host_bytes. destruct bo; rewrite ?length_rev; apply length_bytes_of. Qed.

(** What does not fit is cut off. *)
Lemma put_int_mod n mem off x : put_int n mem off (x mod 256 ^ Z.of_nat n) = put_int n mem off x.
Proof. unfold put_int, host_bytes. by rewrite bytes_of_mod. Qed.

Lemma host_is_byte n x : Forall is_byte (host_bytes n x).
Proof. unfold host_bytes. destruct bo; [|apply Forall_rev]; apply bytes_of_bytes. Qed.

Lemma host_int_bytes n x : 0 <= x < 256 ^ Z.of_nat n -> host_int (host_bytes n x) = x.
Proof. intros H. unfold host_int, host_bytes. destruct bo; rewrite ?rev_involutive; by apply of_bytes_of_bytes. Qed.

Lemma host_bytes_int bs : Forall is_byte bs -> host_bytes (length bs) (host_int bs) = bs.
Proof.
  intros H. unfold host_int, host_bytes. destruct bo; [by apply bytes_of_of_bytes|].
  rewrite <-length_rev, bytes_of_of_bytes by (by apply Forall_rev). apply rev_involutive.
Qed.

Lemma host_int_bound bs : Forall is_byte bs -> 0 <= host_int bs < 256 ^ zlen bs.
Proof.
  intros H. unfold host_int. destruct bo; [by apply of_bytes_bound|]. rewrite <-length_rev. by apply of_bytes_bound, Forall_rev.
Qed.

(** Numbers that are swapped first are in big endian on each host. *)
Lemma host_bytes_be n x : 0 <= x < 256 ^ Z.of_nat n -> host_bytes n (cpu_to_be n x) = rev (bytes_of n x).
Proof.
  intros H. unfold host_bytes, cpu_to_be. destruct bo; [|done]. unfold swab.
  rewrite <-(length_bytes_of n x) at 1. rewrite <-length_rev. apply bytes_of_of_bytes, Forall_rev, bytes_of_bytes.
Qed.

Lemma get_put_same n mem off x mem' :
  put_int n mem off x = Ret mem' -> 0 <= x < 256 ^ Z.of_nat n -> get_int n mem' off = Ret x.
Proof.
  intros H Hx. apply load_store_same in H. rewrite length_host in H. unfold get_int. rewrite H. cbn. by rewrite host_int_bytes.
Qed.

Lemma get_put_other n mem off x mem' m o :
  put_int n mem off x = Ret mem' -> o + Z.of_nat m <= off \/ off + Z.of_nat n <= o -> get_int m mem' o = get_int m mem o.
Proof. intros H Hd. unfold get_int. erewrite load_store_other; [done|done|]. by rewrite length_host. Qed.

Lemma put_length n mem off x mem' : put_int n mem off x = Ret mem' -> length mem' = length mem.
Proof. apply store_length. Qed.

Lemma load_put_other n mem off x mem' o m :
  put_int n mem off x = Ret mem' -> o + m <= off \/ off + Z.of_nat n <= o -> load mem' o m = load mem o m.
Proof. intros H Hd. eapply load_store_other; [done|]. by rewrite length_host. Qed.

Lemma put_Ret n mem off x : 0 <= off -> off + Z.of_nat n <= zlen mem -> exists mem', put_int n mem off x = Ret mem'.
Proof. intros H1 H2. apply store_Ret; [done|]. by rewrite length_host. Qed.

Lemma get_bound n mem off : 0 <= off -> off + Z.of_nat n <= zlen mem -> Forall is_byte mem ->
  exists x, get_int n mem off = Ret x /\ 0 <= x < 256 ^ Z.of_nat n.
Proof.
  intros H1 H2 Hb. destruct (load_bound mem off (Z.of_nat n)) as (bs & E & Hl); [lia..|]. unfold get_int. rewrite E. cbn.
  eexists. split; [done|]. rewrite <-Hl. by eapply host_int_bound, load_bytes.
Qed.

Lemma get_fails n mem off : zlen mem < off + Z.of_nat n -> get_int n mem off = LBUG.
Proof. intros H. unfold get_int. by rewrite load_fails. Qed.
End Host.

(** Bytes of a host of the other order. *)
Lemma host_int_other b1 b2 n x :
  0 <= x < 256 ^ Z.of_nat n ->
  @host_int b2 (@host_bytes b1 n x) = if decide (b1 = b2) then x else swab n x.
Proof.
  intros H. destruct (decide (b1 = b2)) as [->|Hne]; [by apply host_int_bytes|].
  unfold host_int, host_bytes, swab. destruct b1, b2; try done.
Qed.
