(* ===== verification/Fid.v ===== *)
(** * File identifiers

    The FID of [lustre/include/uapi/linux/lustre/lustre_fid.h], the OST object
    identifier of [lustre_ostid.h] (a union that overlays a legacy id/group pair
    and a FID), the DLM resource names built from them and the inode numbers
    they are flattened to ([lustre/include/lustre_fid.h]). *)

From S2P Require Import Prelude.

(** ** Data *)

Record lu_fid := LuFid { f_seq : Z; f_oid : Z; f_ver : Z }.

#[export] Instance lu_fid_eq_dec : EqDecision lu_fid.
Proof. solve_decision. Defined.

(** A FID whose fields fit their machine types. *)
Definition lu_fid_wf (f : lu_fid) : Prop :=
  in_u64 (f_seq f) /\ in_u32 (f_oid f) /\ in_u32 (f_ver f).

(** [enum fid_seq]. *)
Definition FID_SEQ_OST_MDT0 : Z := 0.
Definition FID_SEQ_LLOG : Z := 1.
Definition FID_SEQ_ECHO : Z := 2.
Definition FID_SEQ_LLOG_NAME : Z := 10.
Definition FID_SEQ_RSVD : Z := 11.
Definition FID_SEQ_IGIF : Z := 12.
Definition FID_SEQ_IGIF_MAX : Z := 0x0ffffffff.
Definition FID_SEQ_IDIF : Z := 0x100000000.
Definition FID_SEQ_IDIF_MAX : Z := 0x1ffffffff.
Definition FID_SEQ_START : Z := 0x200000000.
Definition FID_SEQ_LOCAL_FILE : Z := 0x200000001.
Definition FID_SEQ_DOT_LUSTRE : Z := 0x200000002.
Definition FID_SEQ_LOCAL_NAME : Z := 0x200000003.
Definition FID_SEQ_SPECIAL : Z := 0x200000004.
Definition FID_SEQ_QUOTA : Z := 0x200000005.
Definition FID_SEQ_QUOTA_GLB : Z := 0x200000006.
Definition FID_SEQ_ROOT : Z := 0x200000007.
Definition FID_SEQ_LAYOUT_RBTREE : Z := 0x200000008.
Definition FID_SEQ_UPDATE_LOG : Z := 0x200000009.
Definition FID_SEQ_UPDATE_LOG_DIR : Z := 0x20000000a.
Definition FID_SEQ_NORMAL : Z := 0x200000400.
Definition FID_SEQ_LOV_DEFAULT : Z := 0xffffffffffffffff.

Definition LUSTRE_FID_INIT_OID : Z := 1.
Definition FID_OID_ROOT : Z := 1.
Definition FID_OID_ECHO_ROOT : Z := 2.
Definition FID_OID_DOT_LUSTRE : Z := 1.
Definition FID_OID_DOT_LUSTRE_OBF : Z := 2.
Definition OTABLE_IT_OID : Z := 18.
Definition ACCT_USER_OID : Z := 15.
Definition ACCT_GROUP_OID : Z := 16.
Definition ACCT_PROJECT_OID : Z := 22.

Definition OBIF_MAX_OID : Z := Z.shiftl 1 32.
Definition IDIF_MAX_OID : Z := Z.shiftl 1 48.
Definition IDIF_OID_MASK : Z := Z.shiftl 1 48 - 1.

(** ** Accessors and classification of sequences *)

Definition fid_seq (fid : lu_fid) : Z := f_seq fid.
Definition fid_oid (fid : lu_fid) : Z := f_oid fid.
Definition fid_ver (fid : lu_fid) : Z := f_ver fid.
Definition fid_zero : lu_fid := LuFid 0 0 0.
Definition fid_is_zero (fid : lu_fid) : bool := (f_seq fid =? 0) && (f_oid fid =? 0).
Definition fid_ver_oid (fid : lu_fid) : Z :=
  Z.lor (u64 (Z.shiftl (fid_ver fid) 32)) (fid_oid fid).

Definition fid_seq_is_mdt0 (seq : Z) : bool := seq =? FID_SEQ_OST_MDT0.
Definition fid_seq_is_mdt (seq : Z) : bool :=
  (seq =? FID_SEQ_OST_MDT0) || (FID_SEQ_NORMAL <=? seq).
Definition fid_seq_is_echo (seq : Z) : bool := seq =? FID_SEQ_ECHO.
Definition fid_is_echo (fid : lu_fid) : bool := fid_seq_is_echo (fid_seq fid).
Definition fid_seq_is_llog (seq : Z) : bool := seq =? FID_SEQ_LLOG.
Definition fid_is_llog (fid : lu_fid) : bool :=
  fid_seq_is_llog (fid_seq fid) && (0 <? fid_oid fid).
Definition fid_seq_is_rsvd (seq : Z) : bool :=
  (FID_SEQ_OST_MDT0 <? seq) && (seq <=? FID_SEQ_RSVD).
Definition fid_seq_is_special (seq : Z) : bool := seq =? FID_SEQ_SPECIAL.
Definition fid_seq_is_local_file (seq : Z) : bool :=
  (seq =? FID_SEQ_LOCAL_FILE) || (seq =? FID_SEQ_LOCAL_NAME).
Definition fid_seq_is_root (seq : Z) : bool := seq =? FID_SEQ_ROOT.
Definition fid_seq_is_dot (seq : Z) : bool := seq =? FID_SEQ_DOT_LUSTRE.
Definition fid_seq_is_default (seq : Z) : bool := seq =? FID_SEQ_LOV_DEFAULT.
Definition fid_is_mdt0 (fid : lu_fid) : bool := fid_seq_is_mdt0 (fid_seq fid).

Definition lu_root_fid : lu_fid := LuFid FID_SEQ_ROOT FID_OID_ROOT 0.
Definition lu_echo_root_fid : lu_fid := LuFid FID_SEQ_ROOT FID_OID_ECHO_ROOT 0.
Definition lu_update_log_fid (index : Z) : lu_fid := LuFid FID_SEQ_UPDATE_LOG index 0.
Definition lu_update_log_dir_fid (index : Z) : lu_fid :=
  LuFid FID_SEQ_UPDATE_LOG_DIR index 0.

Definition fid_seq_is_igif (seq : Z) : bool :=
  (FID_SEQ_IGIF <=? seq) && (seq <=? FID_SEQ_IGIF_MAX).
Definition fid_is_igif (fid : lu_fid) : bool := fid_seq_is_igif (fid_seq fid).
Definition fid_seq_is_idif (seq : Z) : bool :=
  (FID_SEQ_IDIF <=? seq) && (seq <=? FID_SEQ_IDIF_MAX).
Definition fid_is_idif (fid : lu_fid) : bool := fid_seq_is_idif (fid_seq fid).
Definition fid_is_local_file (fid : lu_fid) : bool :=
  fid_seq_is_local_file (fid_seq fid).
Definition fid_seq_is_norm (seq : Z) : bool := FID_SEQ_NORMAL <=? seq.
Definition fid_is_norm (fid : lu_fid) : bool := fid_seq_is_norm (fid_seq fid).
Definition fid_is_layout_rbtree (fid : lu_fid) : bool :=
  fid_seq fid =? FID_SEQ_LAYOUT_RBTREE.
Definition fid_seq_is_update_log (seq : Z) : bool := seq =? FID_SEQ_UPDATE_LOG.
Definition fid_is_update_log (fid : lu_fid) : bool :=
  fid_seq_is_update_log (fid_seq fid).
Definition fid_seq_is_update_log_dir (seq : Z) : bool := seq =? FID_SEQ_UPDATE_LOG_DIR.
Definition fid_is_update_log_dir (fid : lu_fid) : bool :=
  fid_seq_is_update_log_dir (fid_seq fid).

(** ** IDIF: a legacy OST object id inside a FID *)

(** [ost_idx << 16] is a 32-bit shift. *)
Definition fid_idif_seq (id ost_idx : Z) : Z :=
  Z.lor (Z.lor FID_SEQ_IDIF (u32 (Z.shiftl ost_idx 16)))
        (Z.land (Z.shiftr id 32) 0xffff).

Definition fid_idif_id (seq oid ver : Z) : Z :=
  Z.lor (Z.lor (u64 (Z.shiftl ver 48)) (Z.shiftl (Z.land seq 0xffff) 32)) oid.

Definition idif_ost_idx (seq : Z) : Z := u32 (Z.land (Z.shiftr seq 16) 0xffff).
Definition fid_idif_ost_idx (fid : lu_fid) : Z := idif_ost_idx (fid_seq fid).

Definition fid_is_last_id (fid : lu_fid) : bool :=
  if negb (fid_oid fid =? 0) then false
  else if fid_is_idif fid && negb (Z.land (fid_seq fid) 0xFFFF =? 0) then false
  else if (fid_seq fid =? FID_SEQ_UPDATE_LOG)
          || (fid_seq fid =? FID_SEQ_UPDATE_LOG_DIR)
          || fid_seq_is_igif (fid_seq fid) then false
  else true.

Definition lu_igif_ino (fid : lu_fid) : Z := fid_seq fid.
Definition lu_igif_gen (fid : lu_fid) : Z := fid_oid fid.
Definition lu_igif_build (ino gen : Z) : lu_fid := LuFid ino gen 0.

(** The argument is [None] for a NULL pointer. *)
Definition fid_is_sane (fid : option lu_fid) : bool :=
  match fid with
  | None => false
  | Some fid =>
      ((FID_SEQ_START <=? fid_seq fid) && (fid_ver fid =? 0))
      || fid_is_igif fid || fid_is_idif fid || fid_seq_is_rsvd (fid_seq fid)
  end.

(** [memcmp] of two FIDs, which have no padding. *)
Definition lu_fid_eq (f0 f1 : lu_fid) : bool :=
  (f_seq f0 =? f_seq f1) && (f_oid f0 =? f_oid f1) && (f_ver f0 =? f_ver f1).

Definition lu_fid_cmp (f0 f1 : lu_fid) : Z :=
  if negb (fid_seq f0 =? fid_seq f1) then
    (if fid_seq f1 <? fid_seq f0 then 1 else -1)
  else if negb (fid_oid f0 =? fid_oid f1) then
    (if fid_oid f1 <? fid_oid f0 then 1 else -1)
  else if negb (fid_ver f0 =? fid_ver f1) then
    (if fid_ver f1 <? fid_ver f0 then 1 else -1)
  else 0.

Definition fid_is_root (fid : lu_fid) : bool :=
  (fid_seq fid =? FID_SEQ_ROOT) && (fid_oid fid =? FID_OID_ROOT).
Definition fid_is_dot_lustre (fid : lu_fid) : bool :=
  (fid_seq fid =? FID_SEQ_DOT_LUSTRE) && (fid_oid fid =? FID_OID_DOT_LUSTRE).
Definition fid_is_obf (fid : lu_fid) : bool :=
  (fid_seq fid =? FID_SEQ_DOT_LUSTRE) && (fid_oid fid =? FID_OID_DOT_LUSTRE_OBF).
Definition fid_is_otable_it (fid : lu_fid) : bool :=
  (fid_seq fid =? FID_SEQ_LOCAL_FILE) && (fid_oid fid =? OTABLE_IT_OID).
Definition fid_oid_is_quota (fid : lu_fid) : bool :=
  (fid_oid fid =? ACCT_USER_OID) || (fid_oid fid =? ACCT_GROUP_OID)
  || (fid_oid fid =? ACCT_PROJECT_OID).
Definition fid_is_acct (fid : lu_fid) : bool :=
  (fid_seq fid =? FID_SEQ_LOCAL_FILE) && fid_oid_is_quota fid.
Definition fid_is_quota (fid : lu_fid) : bool :=
  (fid_seq fid =? FID_SEQ_QUOTA) || (fid_seq fid =? FID_SEQ_QUOTA_GLB).
Definition fid_is_name_llog (fid : lu_fid) : bool := fid_seq fid =? FID_SEQ_LLOG_NAME.
Definition fid_is_namespace_visible (fid : lu_fid) : bool :=
  let seq := fid_seq fid in
  (negb (fid_is_last_id fid) && (fid_seq_is_norm seq || fid_seq_is_igif seq))
  || fid_is_root fid || fid_seq_is_dot seq.
Definition fid_seq_in_fldb (seq : Z) : bool :=
  fid_seq_is_igif seq || fid_seq_is_norm seq || fid_seq_is_root seq
  || fid_seq_is_dot seq.
Definition lu_local_obj_fid (oid : Z) : lu_fid := LuFid FID_SEQ_LOCAL_FILE oid 0.
Definition lu_local_name_obj_fid (oid : Z) : lu_fid := LuFid FID_SEQ_LOCAL_NAME oid 0.
Definition lu_last_id_fid (seq ost_idx : Z) : run lu_fid :=
  if fid_seq_is_mdt0 seq then Ret (LuFid (fid_idif_seq 0 ost_idx) 0 0)
  else lassert (fid_seq_is_norm seq || fid_seq_is_echo seq || fid_seq_is_idif seq);
       Ret (LuFid seq 0 0).
Definition fid_is_md_operative (fid : lu_fid) : bool :=
  fid_is_mdt0 fid || fid_is_igif fid || fid_is_norm fid || fid_is_root fid.

(** ** Byte order of FIDs on the wire and on disk *)

Section ByteOrder.
Context {bo : byte_order}.

Definition fid_cpu_to_le (src : lu_fid) : lu_fid :=
  LuFid (cpu_to_le64 (fid_seq src)) (cpu_to_le32 (fid_oid src)) (cpu_to_le32 (fid_ver src)).
Definition fid_le_to_cpu (src : lu_fid) : lu_fid :=
  LuFid (cpu_to_le64 (fid_seq src)) (cpu_to_le32 (fid_oid src)) (cpu_to_le32 (fid_ver src)).
Definition fid_cpu_to_be (src : lu_fid) : lu_fid :=
  LuFid (cpu_to_be64 (fid_seq src)) (cpu_to_be32 (fid_oid src)) (cpu_to_be32 (fid_ver src)).
Definition fid_be_to_cpu (src : lu_fid) : lu_fid :=
  LuFid (cpu_to_be64 (fid_seq src)) (cpu_to_be32 (fid_oid src)) (cpu_to_be32 (fid_ver src)).

(** ** OST object identifiers

    [struct ost_id] is a union of [{oi_id; oi_seq}] and a FID.  The record holds
    the two 64-bit words; the FID view reads [f_oid] and [f_ver] out of the second
    word, [f_oid] being the half at the lower address. *)

Record ost_id := OstId { oi_id : Z; oi_seq : Z }.

Definition ost_id_wf (o : ost_id) : Prop := in_u64 (oi_id o) /\ in_u64 (oi_seq o).

Definition lo32 (w : Z) : Z := Z.land w 0xffffffff.
Definition hi32 (w : Z) : Z := Z.shiftr w 32.
Definition join32 (hi lo : Z) : Z := Z.lor (Z.shiftl hi 32) lo.

Definition oi_fid (o : ost_id) : lu_fid :=
  match bo with
  | LittleEndian => LuFid (oi_id o) (lo32 (oi_seq o)) (hi32 (oi_seq o))
  | BigEndian => LuFid (oi_id o) (hi32 (oi_seq o)) (lo32 (oi_seq o))
  end.

Definition oi_of_fid (f : lu_fid) : ost_id :=
  match bo with
  | LittleEndian => OstId (f_seq f) (join32 (f_ver f) (f_oid f))
  | BigEndian => OstId (f_seq f) (join32 (f_oid f) (f_ver f))
  end.

Definition lmm_oi_id (oi : ost_id) : Z := oi_id oi.
Definition lmm_oi_seq (oi : ost_id) : Z := oi_seq oi.
Definition lmm_oi_set_seq (oi : ost_id) (seq : Z) : ost_id := OstId (oi_id oi) seq.
Definition lmm_oi_set_id (oi : ost_id) (oid : Z) : ost_id := OstId oid (oi_seq oi).
Definition lmm_oi_le_to_cpu (src_oi : ost_id) : ost_id :=
  OstId (cpu_to_le64 (oi_id src_oi)) (cpu_to_le64 (oi_seq src_oi)).
Definition lmm_oi_cpu_to_le (src_oi : ost_id) : ost_id :=
  OstId (cpu_to_le64 (oi_id src_oi)) (cpu_to_le64 (oi_seq src_oi)).

Definition ostid_seq (ostid : ost_id) : Z :=
  if fid_seq_is_mdt0 (oi_seq ostid) then FID_SEQ_OST_MDT0
  else if fid_seq_is_default (oi_seq ostid) then FID_SEQ_LOV_DEFAULT
  else if fid_is_idif (oi_fid ostid) then FID_SEQ_OST_MDT0
  else fid_seq (oi_fid ostid).

Definition ostid_id (ostid : ost_id) : Z :=
  if fid_seq_is_mdt0 (oi_seq ostid) then Z.land (oi_id ostid) IDIF_OID_MASK
  else if fid_seq_is_default (oi_seq ostid) then oi_id ostid
  else if fid_is_idif (oi_fid ostid) then
    fid_idif_id (fid_seq (oi_fid ostid)) (fid_oid (oi_fid ostid)) 0
  else fid_oid (oi_fid ostid).

Definition ostid_set_seq (oi : ost_id) (seq : Z) : ost_id :=
  if fid_seq_is_mdt0 seq || fid_seq_is_default seq then OstId (oi_id oi) seq
  else
    let oi1 := oi_of_fid (LuFid seq (f_oid (oi_fid oi)) (f_ver (oi_fid oi))) in
    if (f_oid (oi_fid oi1) =? 0) && (f_ver (oi_fid oi1) =? 0)
    then oi_of_fid (LuFid (f_seq (oi_fid oi1)) LUSTRE_FID_INIT_OID (f_ver (oi_fid oi1)))
    else oi1.

Definition ostid_set_seq_mdt0 (oi : ost_id) : ost_id := ostid_set_seq oi FID_SEQ_OST_MDT0.
Definition ostid_set_seq_echo (oi : ost_id) : ost_id := ostid_set_seq oi FID_SEQ_ECHO.
Definition ostid_set_seq_llog (oi : ost_id) : ost_id := ostid_set_seq oi FID_SEQ_LLOG.

(** [dst_oi] is written whole in both branches. *)
Definition ostid_cpu_to_le (src_oi : ost_id) : ost_id :=
  if fid_seq_is_mdt0 (oi_seq src_oi) then
    OstId (cpu_to_le64 (oi_id src_oi)) (cpu_to_le64 (oi_seq src_oi))
  else oi_of_fid (fid_cpu_to_le (oi_fid src_oi)).
Definition ostid_le_to_cpu (src_oi : ost_id) : ost_id :=
  if fid_seq_is_mdt0 (oi_seq src_oi) then
    OstId (cpu_to_le64 (oi_id src_oi)) (cpu_to_le64 (oi_seq src_oi))
  else oi_of_fid (fid_le_to_cpu (oi_fid src_oi)).

Definition fid_to_lmm_oi (fid : lu_fid) : ost_id := OstId (fid_oid fid) (fid_seq fid).

(** The result is the return code with the value left in [*fid]. *)
Definition ostid_to_fid (fid : lu_fid) (ostid : ost_id) (ost_idx : Z) : Z * lu_fid :=
  let seq := ostid_seq ostid in
  if 0xffff <? ost_idx then (- EBADF, fid)
  else if fid_seq_is_mdt0 seq then
    let oid := ostid_id ostid in
    if IDIF_MAX_OID <=? oid then (- EBADF, fid)
    else (0, LuFid (fid_idif_seq oid ost_idx) (u32 oid) (u32 (Z.shiftr oid 48)))
  else if negb (fid_seq_is_default seq) then
    if negb (f_ver (oi_fid ostid) =? 0) then (- EBADF, fid)
    else (0, oi_fid ostid)
  else (0, fid).

Definition ostid_set_id (oi : ost_id) (oid : Z) : Z * ost_id :=
  if fid_seq_is_mdt0 (oi_seq oi) then
    if IDIF_MAX_OID <=? oid then (- E2BIG, oi)
    else (0, OstId oid (oi_seq oi))
  else if fid_is_idif (oi_fid oi) then
    if IDIF_MAX_OID <=? oid then (- E2BIG, oi)
    else (0, oi_of_fid (LuFid (fid_idif_seq oid (fid_idif_ost_idx (oi_fid oi)))
                              (u32 oid) (u32 (Z.shiftr oid 48))))
  else
    if OBIF_MAX_OID <=? oid then (- E2BIG, oi)
    else (0, oi_of_fid (LuFid (f_seq (oi_fid oi)) (u32 oid) (f_ver (oi_fid oi)))).

Definition fid_to_ostid (fid : lu_fid) (ostid : ost_id) : Z * ost_id :=
  if fid_seq_is_igif (f_seq fid) then (- EBADF, ostid)
  else if fid_is_idif fid then
    ostid_set_id (ostid_set_seq_mdt0 ostid)
                 (fid_idif_id (fid_seq fid) (fid_oid fid) (fid_ver fid))
  else (0, oi_of_fid fid).

(** ** DLM resource names: [struct ldlm_res_id], four 64-bit words *)

Definition ldlm_res_id := list Z.
Definition LUSTRE_RES_ID_SEQ_OFF : nat := 0.
Definition LUSTRE_RES_ID_VER_OID_OFF : nat := 1.
Definition LUSTRE_RES_ID_QUOTA_SEQ_OFF : nat := 2.
Definition LUSTRE_RES_ID_QUOTA_VER_OID_OFF : nat := 3.
Definition LUSTRE_RES_ID_HSH_OFF : nat := 3.
Definition res_zero : ldlm_res_id := [0; 0; 0; 0].
Definition res_name (res : ldlm_res_id) (i : nat) : Z := default 0 (res !! i).

Definition fid_build_reg_res_name (fid : lu_fid) : ldlm_res_id :=
  <[LUSTRE_RES_ID_VER_OID_OFF := fid_ver_oid fid]>
    (<[LUSTRE_RES_ID_SEQ_OFF := fid_seq fid]> res_zero).

Definition fid_res_name_eq (fid : lu_fid) (res : ldlm_res_id) : bool :=
  (res_name res LUSTRE_RES_ID_SEQ_OFF =? fid_seq fid)
  && (res_name res LUSTRE_RES_ID_VER_OID_OFF =? fid_ver_oid fid).

Definition fid_extract_from_res_name (res : ldlm_res_id) : run lu_fid :=
  let fid := LuFid (res_name res LUSTRE_RES_ID_SEQ_OFF)
                   (u32 (res_name res LUSTRE_RES_ID_VER_OID_OFF))
                   (u32 (Z.shiftr (res_name res LUSTRE_RES_ID_VER_OID_OFF) 32)) in
  lassert (fid_res_name_eq fid res); Ret fid.

(** [union lquota_id] is read through its FID member. *)
Definition fid_build_quota_res_name (glb_fid qid_fid : lu_fid) : ldlm_res_id :=
  <[LUSTRE_RES_ID_QUOTA_VER_OID_OFF := fid_ver_oid qid_fid]>
    (<[LUSTRE_RES_ID_QUOTA_SEQ_OFF := fid_seq qid_fid]>
       (fid_build_reg_res_name glb_fid)).

Definition fid_extract_from_quota_res (res : ldlm_res_id) : run (lu_fid * lu_fid) :=
  glb_fid ← fid_extract_from_res_name res;
  Ret (glb_fid,
       LuFid (res_name res LUSTRE_RES_ID_QUOTA_SEQ_OFF)
             (u32 (res_name res LUSTRE_RES_ID_QUOTA_VER_OID_OFF))
             (u32 (Z.shiftr (res_name res LUSTRE_RES_ID_QUOTA_VER_OID_OFF) 32))).

Definition fid_build_pdo_res_name (fid : lu_fid) (hash : Z) : ldlm_res_id :=
  <[LUSTRE_RES_ID_HSH_OFF := hash]> (fid_build_reg_res_name fid).

Definition ostid_build_res_name (oi : ost_id) : ldlm_res_id :=
  if fid_seq_is_mdt0 (ostid_seq oi) then
    <[LUSTRE_RES_ID_VER_OID_OFF := ostid_seq oi]>
      (<[LUSTRE_RES_ID_SEQ_OFF := ostid_id oi]> res_zero)
  else fid_build_reg_res_name (oi_fid oi).

Definition ostid_res_name_eq (oi : ost_id) (name : ldlm_res_id) : bool :=
  if fid_seq_is_mdt0 (ostid_seq oi) then
    (res_name name LUSTRE_RES_ID_SEQ_OFF =? ostid_id oi)
    && (res_name name LUSTRE_RES_ID_VER_OID_OFF =? ostid_seq oi)
  else
    (res_name name LUSTRE_RES_ID_SEQ_OFF =? ostid_seq oi)
    && (res_name name LUSTRE_RES_ID_VER_OID_OFF =? ostid_id oi).

(** [junk] is the uninitialised second word of the local [struct ost_id]. *)
Definition ost_fid_build_resid (junk : Z) (fid : lu_fid) (resname : ldlm_res_id)
    : ldlm_res_id :=
  if fid_is_mdt0 fid || fid_is_idif fid then
    let '(rc, oi) := fid_to_ostid fid (OstId 0 junk) in
    if negb (rc =? 0) then resname else ostid_build_res_name oi
  else fid_build_reg_res_name fid.

(** A failing [ostid_set_id] is only logged; the code goes on with [oi]. *)
Definition ost_fid_from_resid (fid : lu_fid) (name : ldlm_res_id) (ost_idx : Z)
    : run lu_fid :=
  if fid_seq_is_mdt0 (res_name name LUSTRE_RES_ID_VER_OID_OFF) then
    let oi := ostid_set_seq (OstId 0 0) (res_name name LUSTRE_RES_ID_VER_OID_OFF) in
    let '(_, oi) := ostid_set_id oi (res_name name LUSTRE_RES_ID_SEQ_OFF) in
    Ret (ostid_to_fid fid oi ost_idx).2
  else fid_extract_from_res_name name.

End ByteOrder.

(** ** Inode numbers *)

Definition fid_flatten (fid : lu_fid) : Z :=
  if fid_is_igif fid then lu_igif_ino fid
  else
    let seq := fid_seq fid in
    let ino := u64 (u64 (Z.shiftl seq 24)
                    + Z.land (Z.shiftr seq 24) 0xffffff0000 + fid_oid fid) in
    if ino =? 0 then fid_oid fid else ino.

(** [ino] is a [__u32]: the sum is truncated by the assignment.  The last shift
    is by [64 - (40 - 8) = 32]. *)
Definition fid_flatten32 (fid : lu_fid) : Z :=
  if fid_is_igif fid then u32 (lu_igif_ino fid)
  else
    let seq := u64 (fid_seq fid - FID_SEQ_START) in
    let ino := u32 (Z.shiftl (Z.land seq 0x000fffff) 12
                    + Z.land (Z.shiftr seq 8) 0xfffff000
                    + Z.land (Z.shiftr seq 32) 0xffffff00
                    + Z.land (fid_oid fid) 0xff000fff
                    + u32 (Z.shiftl (Z.land (fid_oid fid) 0x00fff000) 8)) in
    if ino =? 0 then fid_oid fid else ino.

(** The difference is returned as an [int]. *)
Definition lu_fid_diff (fid1 fid2 : lu_fid) : run Z :=
  lassert (fid_seq fid1 =? fid_seq fid2);
  if fid_is_idif fid1 && fid_is_idif fid2 then
    Ret (s32 (u64 (fid_idif_id (f_seq fid1) (f_oid fid1) (f_ver fid1)
                   - fid_idif_id (f_seq fid2) (f_oid fid2) (f_ver fid2))))
  else Ret (s32 (u32 (fid_oid fid1 - fid_oid fid2))).

Definition fid_set_id (fid : lu_fid) (oid : Z) : Z * lu_fid :=
  if fid_seq_is_igif (f_seq fid) then (- EBADF, fid)
  else if fid_is_idif fid then
    if IDIF_MAX_OID <=? oid then (- EBADF, fid)
    else (0, LuFid (fid_idif_seq oid (fid_idif_ost_idx fid))
                   (u32 oid) (u32 (Z.shiftr oid 48)))
  else
    if OBIF_MAX_OID <? oid then (- EBADF, fid)
    else (0, LuFid (f_seq fid) (u32 oid) (f_ver fid)).

(** ** Lemmas *)

Lemma fid_idif_seq_add id idx :
  0 <= id < 2 ^ 48 -> 0 <= idx < 2 ^ 16 ->
  fid_idif_seq id idx = 2 ^ 32 + idx * 2 ^ 16 + id / 2 ^ 32.
Proof.
  intros Hid Hidx. unfold fid_idif_seq, FID_SEQ_IDIF.
  assert (0 <= id / 2 ^ 32 < 2 ^ 16) as Hq by int_lia.
  rewrite land_mask16, shiftr_div, (Z.mod_small (id / 2 ^ 32)) by lia.
  rewrite wrap_small by (rewrite Z.shiftl_mul_pow2 by lia; int_lia).
  change 0x100000000 with (Z.shiftl 1 32).
  rewrite <- Z.lor_assoc, (lor_shiftl_add _ idx 16) by lia.
  rewrite lor_shiftl_add by int_lia. lia.
Qed.

Lemma fid_idif_id_add seq oid ver :
  in_u64 seq -> in_u32 oid -> 0 <= ver < 2 ^ 16 ->
  fid_idif_id seq oid ver = ver * 2 ^ 48 + (seq mod 2 ^ 16) * 2 ^ 32 + oid.
Proof.
  intros Hseq Hoid Hver. unfold fid_idif_id.
  rewrite land_mask16, wrap_small by (rewrite Z.shiftl_mul_pow2 by lia; int_lia).
  rewrite <- Z.lor_assoc, (lor_shiftl_add _ (seq mod 2 ^ 16) 32) by int_lia.
  rewrite lor_shiftl_add by int_lia. lia.
Qed.

Lemma idif_ost_idx_div seq : idif_ost_idx seq = (seq / 2 ^ 16) mod 2 ^ 16.
Proof.
  unfold idif_ost_idx. rewrite land_mask16, shiftr_div by lia. int_lia.
Qed.

(** The IDIF sequence of an object id carries the OST index and the high bits. *)
Lemma fid_idif_seq_fields id idx :
  0 <= id < 2 ^ 48 -> 0 <= idx < 2 ^ 16 ->
  fid_seq_is_idif (fid_idif_seq id idx) = true
  /\ idif_ost_idx (fid_idif_seq id idx) = idx
  /\ fid_idif_seq id idx mod 2 ^ 16 = id / 2 ^ 32.
Proof.
  intros Hid Hidx. rewrite idif_ost_idx_div, fid_idif_seq_add by done.
  unfold fid_seq_is_idif, FID_SEQ_IDIF, FID_SEQ_IDIF_MAX.
  assert (0 <= id / 2 ^ 32 < 2 ^ 16) as Hq by int_lia.
  set (q := id / 2 ^ 32) in *. clearbody q. split_and!.
  - apply andb_true_intro; split; apply Z.leb_le; int_lia.
  - int_lia.
  - int_lia.
Qed.

Lemma fid_ver_oid_lo f : lu_fid_wf f -> u32 (fid_ver_oid f) = f_oid f.
Proof.
  intros (_ & Ho & Hv). unfold fid_ver_oid, fid_ver, fid_oid.
  rewrite (wrap_small 64) by (rewrite Z.shiftl_mul_pow2 by lia; int_lia).
  apply join_field_lo; [lia|apply Ho].
Qed.

Lemma fid_ver_oid_hi f : lu_fid_wf f -> u32 (Z.shiftr (fid_ver_oid f) 32) = f_ver f.
Proof.
  intros (_ & Ho & Hv). unfold fid_ver_oid, fid_ver, fid_oid.
  rewrite (wrap_small 64) by (rewrite Z.shiftl_mul_pow2 by lia; int_lia).
  rewrite join_field_hi by (lia || apply Ho). by apply wrap_small.
Qed.

Lemma oi_fid_of_fid {bo : byte_order} f : lu_fid_wf f -> oi_fid (oi_of_fid f) = f.
Proof.
  intros (Hs & Ho & Hv). destruct f as [s o v]; simpl in *.
  destruct bo; unfold oi_fid, oi_of_fid; simpl; unfold lo32, hi32, join32;
    rewrite land_mask32, join_field_lo, join_field_hi by (lia || done); done.
Qed.

Lemma fid_extract_build f res :
  lu_fid_wf f ->
  res_name res LUSTRE_RES_ID_SEQ_OFF = fid_seq f ->
  res_name res LUSTRE_RES_ID_VER_OID_OFF = fid_ver_oid f ->
  fid_extract_from_res_name res = Ret f.
Proof.
  intros Hwf Hs Hv. unfold fid_extract_from_res_name.
  rewrite Hs, Hv, fid_ver_oid_lo, fid_ver_oid_hi by done.
  destruct f as [s o v]; simpl. unfold LASSERT, fid_res_name_eq.
  by rewrite Hs, Hv, !Z.eqb_refl.
Qed.

(** ** Properties *)

(** C33: A legacy object id below 2^48 on OST [ost_idx] becomes a sane IDIF FID
    of that OST with version 0, and packing the FID again gives the same id in
    group 0, whatever the destination held. *)
Theorem ostid_fid_roundtrip {bo : byte_order} (id idx : Z) (f0 : lu_fid) (o' : ost_id)
    (Hid : 0 <= id < 2 ^ 48) (Hidx : 0 <= idx <= 0xffff) :
  exists f, ostid_to_fid f0 (OstId id FID_SEQ_OST_MDT0) idx = (0, f)
    /\ fid_is_idif f = true /\ fid_is_sane (Some f) = true
    /\ fid_idif_ost_idx f = idx /\ f_ver f = 0
    /\ fid_to_ostid f o' = (0, OstId id FID_SEQ_OST_MDT0).
Proof.
  assert (0 <= idx < 2 ^ 16) as Hidx' by int_lia.
  destruct (fid_idif_seq_fields id idx Hid Hidx') as (Hidif & Hix & Hmod).
  exists (LuFid (fid_idif_seq id idx) (u32 id) 0). unfold ostid_to_fid, ostid_id, ostid_seq.
  cbn [oi_seq oi_id]. change (fid_seq_is_mdt0 FID_SEQ_OST_MDT0) with true. cbn iota.
  rewrite (proj2 (Z.ltb_ge 0xffff idx)) by lia.
  unfold IDIF_OID_MASK. rewrite land_mask48, (Z.mod_small id) by done.
  change IDIF_MAX_OID with (2 ^ 48). rewrite (proj2 (Z.leb_gt (2 ^ 48) id)) by lia.
  split_and!; try done.
  - change (fid_seq_is_mdt0 FID_SEQ_OST_MDT0) with true. cbn iota.
    rewrite shiftr_div by lia. do 2 f_equal. int_lia.
  - unfold fid_is_sane, fid_is_idif. cbn [fid_seq f_seq]. rewrite Hidif. by rewrite !orb_true_r.
  - unfold fid_to_ostid, fid_is_idif. cbn [fid_seq f_seq fid_oid f_oid fid_ver f_ver].
    assert (fid_seq_is_igif (fid_idif_seq id idx) = false) as ->.
    { unfold fid_seq_is_igif, fid_seq_is_idif, FID_SEQ_IDIF, FID_SEQ_IGIF_MAX in *. lia. }
    rewrite Hidif. rewrite fid_idif_id_add, Hmod; [| |int_lia|lia].
    2: { unfold fid_seq_is_idif, FID_SEQ_IDIF, FID_SEQ_IDIF_MAX in Hidif. int_lia. }
    replace (0 * 2 ^ 48 + id / 2 ^ 32 * 2 ^ 32 + u32 id) with id by int_lia.
    unfold ostid_set_id, ostid_set_seq_mdt0, ostid_set_seq.
    change (fid_seq_is_mdt0 FID_SEQ_OST_MDT0) with true. cbn.
    change IDIF_MAX_OID with (2 ^ 48). by rewrite (proj2 (Z.leb_gt (2 ^ 48) id)) by lia.
Qed.

Lemma ostid_fid_roundtrip_witness :
  0 <= 0x123456789abc < 2 ^ 48 /\ 0 <= 7 <= 0xffff /\
  exists f, ostid_to_fid (bo := LittleEndian) fid_zero
              (OstId 0x123456789abc FID_SEQ_OST_MDT0) 7 = (0, f)
    /\ fid_is_idif f = true /\ fid_is_sane (Some f) = true
    /\ fid_idif_ost_idx f = 7 /\ f_ver f = 0
    /\ fid_to_ostid (bo := LittleEndian) f (OstId 5 6)
       = (0, OstId 0x123456789abc FID_SEQ_OST_MDT0).
Proof.
  split; [lia|]. split; [lia|].
  apply (ostid_fid_roundtrip (bo := LittleEndian)); lia.
Defined.

(** IDIF FIDs with version 0 are determined by their object id and OST index. *)
Lemma idif_fid_id f :
  lu_fid_wf f -> fid_is_idif f = true -> f_ver f = 0 ->
  let id := fid_idif_id (f_seq f) (f_oid f) 0 in
  0 <= id < 2 ^ 48
  /\ f = LuFid (fid_idif_seq id (fid_idif_ost_idx f)) (u32 id) (u32 (Z.shiftr id 48)).
Proof.
  destruct f as [s o v]; simpl. intros (Hs & Ho & Hv) Hidif Hver. simpl in *. subst v.
  unfold fid_is_idif, fid_seq_is_idif, FID_SEQ_IDIF, FID_SEQ_IDIF_MAX in Hidif.
  cbn [fid_seq f_seq] in Hidif.
  apply andb_true_iff in Hidif as [H1 H2].
  apply Z.leb_le in H1. apply Z.leb_le in H2.
  rewrite fid_idif_id_add by (done || lia).
  set (id := 0 * 2 ^ 48 + s mod 2 ^ 16 * 2 ^ 32 + o).
  assert (0 <= id < 2 ^ 48) as Hid by (subst id; int_lia).
  split; [done|]. unfold fid_idif_ost_idx. cbn [fid_seq f_seq].
  rewrite idif_ost_idx_div, fid_idif_seq_add, shiftr_div by int_lia.
  f_equal; subst id; int_lia.
Qed.

Lemma ost_fid_build_resid_idif {bo : byte_order} junk f r :
  lu_fid_wf f -> fid_is_idif f = true -> f_ver f = 0 ->
  ost_fid_build_resid junk f r = [fid_idif_id (f_seq f) (f_oid f) 0; 0; 0; 0].
Proof.
  intros Hwf Hidif Hver. destruct (idif_fid_id f Hwf Hidif Hver) as [Hid _].
  unfold ost_fid_build_resid, fid_to_ostid. rewrite Hidif, orb_true_r.
  assert (fid_seq_is_igif (f_seq f) = false) as ->.
  { unfold fid_is_idif, fid_seq, fid_seq_is_igif, fid_seq_is_idif, FID_SEQ_IDIF,
      FID_SEQ_IGIF_MAX in *. lia. }
  unfold fid_seq, fid_oid, fid_ver. rewrite Hver.
  set (id := fid_idif_id (f_seq f) (f_oid f) 0) in *. clearbody id.
  unfold ostid_set_id, ostid_set_seq_mdt0, ostid_set_seq.
  change (fid_seq_is_mdt0 FID_SEQ_OST_MDT0) with true. cbn -[IDIF_MAX_OID].
  change IDIF_MAX_OID with (2 ^ 48). rewrite (proj2 (Z.leb_gt (2 ^ 48) id)) by lia. cbn.
  unfold ostid_build_res_name, ostid_seq, ostid_id. cbn.
  change (Z.pos _) with IDIF_OID_MASK.
  unfold IDIF_OID_MASK. by rewrite land_mask48, Z.mod_small.
Qed.

(** The DLM resource name built for an OST object determines its FID: for an
    IDIF FID of OST [ost_idx], and for every other FID with a non-zero sequence
    and object id, [ost_fid_from_resid] inverts [ost_fid_build_resid] and its
    assertion holds. *)
Lemma ost_resid_roundtrip {bo : byte_order} (junk : Z) (f f0 : lu_fid)
    (r : ldlm_res_id) (ost_idx : Z)
    (Hwf : lu_fid_wf f) (Hver : f_ver f = 0) (Hseq : f_seq f <> 0) (Hoid : f_oid f <> 0)
    (Hidx : fid_is_idif f = true -> ost_idx = fid_idif_ost_idx f) :
  ost_fid_from_resid f0 (ost_fid_build_resid junk f r) ost_idx = Ret f.
Proof.
  destruct (fid_is_idif f) eqn:Hidif.
  - specialize (Hidx eq_refl) as ->.
    rewrite ost_fid_build_resid_idif by done.
    destruct (idif_fid_id f Hwf Hidif Hver) as [Hid Hf].
    set (id := fid_idif_id (f_seq f) (f_oid f) 0) in *. clearbody id.
    assert (fid_idif_ost_idx f <= 0xffff) as Hix.
    { unfold fid_idif_ost_idx. rewrite idif_ost_idx_div. int_lia. }
    unfold ost_fid_from_resid, ostid_set_id, ostid_set_seq. cbn -[IDIF_MAX_OID].
    change (fid_seq_is_mdt0 0) with true. cbn -[IDIF_MAX_OID].
    change IDIF_MAX_OID with (2 ^ 48). rewrite (proj2 (Z.leb_gt (2 ^ 48) id)) by lia. cbn.
    unfold ostid_to_fid, ostid_seq, ostid_id. cbn -[IDIF_MAX_OID IDIF_OID_MASK].
    rewrite (proj2 (Z.ltb_ge 0xffff _)) by done.
    unfold IDIF_OID_MASK. rewrite land_mask48, Z.mod_small by done.
    change IDIF_MAX_OID with (2 ^ 48). rewrite (proj2 (Z.leb_gt (2 ^ 48) id)) by lia. cbn.
    by rewrite <- Hf.
  - unfold ost_fid_build_resid. rewrite Hidif, orb_false_r.
    unfold fid_is_mdt0, fid_seq_is_mdt0, FID_SEQ_OST_MDT0, fid_seq.
    rewrite (proj2 (Z.eqb_neq _ _)) by done.
    unfold ost_fid_from_resid. cbn [fid_build_reg_res_name res_name].
    assert (fid_ver_oid f <> 0) as Hne.
    { intros H0. apply Hoid. rewrite <- (fid_ver_oid_lo f Hwf), H0. done. }
    unfold fid_seq_is_mdt0, FID_SEQ_OST_MDT0. cbn. rewrite (proj2 (Z.eqb_neq _ _)) by done.
    by apply fid_extract_build.
Qed.

Lemma ost_resid_roundtrip_witness :
  ost_fid_from_resid (bo := BigEndian) fid_zero
    (ost_fid_build_resid (bo := BigEndian) 99 (LuFid 0x10007abcd 12 0) res_zero) 7
  = Ret (LuFid 0x10007abcd 12 0)
  /\ ost_fid_from_resid (bo := LittleEndian) fid_zero
    (ost_fid_build_resid (bo := LittleEndian) 99 (LuFid 0x200000401 12 0) res_zero) 3
  = Ret (LuFid 0x200000401 12 0).
Proof.
  split; apply ost_resid_roundtrip; try done; simpl; try lia;
    unfold lu_fid_wf; simpl; split_and!; unfold in_u; lia.
Defined.

(** Every sequence number belongs to exactly one class of the FID name
    space: legacy group 0, reserved, IGIF, IDIF, system ([FID_SEQ_START] up to
    [FID_SEQ_NORMAL]) or normal. *)
Theorem fid_seq_classes (seq : Z) (Hseq : in_u64 seq) :
  let classes :=
    [fid_seq_is_mdt0 seq; fid_seq_is_rsvd seq; fid_seq_is_igif seq; fid_seq_is_idif seq;
     (FID_SEQ_START <=? seq) && negb (fid_seq_is_norm seq); fid_seq_is_norm seq] in
  length (base.filter (fun b : bool => b = true) classes) = 1%nat.
Proof.
  unfold in_u in Hseq.
  unfold fid_seq_is_mdt0, fid_seq_is_rsvd, fid_seq_is_igif, fid_seq_is_idif,
    fid_seq_is_norm, FID_SEQ_OST_MDT0, FID_SEQ_RSVD, FID_SEQ_IGIF, FID_SEQ_IGIF_MAX,
    FID_SEQ_IDIF, FID_SEQ_IDIF_MAX, FID_SEQ_START, FID_SEQ_NORMAL.
  repeat match goal with
         | |- context [Z.eqb ?a ?b] => destruct (Z.eqb_spec a b)
         | |- context [Z.ltb ?a ?b] => destruct (Z.ltb_spec a b)
         | |- context [Z.leb ?a ?b] => destruct (Z.leb_spec a b)
         end; try lia; reflexivity.
Qed.

Lemma fid_seq_classes_witness :
  in_u64 0x200000401 /\
  let seq := 0x200000401 in
  length (base.filter (fun b : bool => b = true)
    [fid_seq_is_mdt0 seq; fid_seq_is_rsvd seq; fid_seq_is_igif seq; fid_seq_is_idif seq;
     (FID_SEQ_START <=? seq) && negb (fid_seq_is_norm seq); fid_seq_is_norm seq]) = 1%nat.
Proof. split; [unfold in_u; lia|]. apply (fid_seq_classes 0x200000401). unfold in_u; lia. Defined.

(** Below 2^40 sequences the inode number is the sequence followed by 24 bits of
    object id. *)
Lemma fid_flatten_norm f :
  fid_is_igif f = false -> FID_SEQ_START <= f_seq f < 2 ^ 40 -> 0 <= f_oid f < 2 ^ 24 ->
  fid_flatten f = f_seq f * 2 ^ 24 + f_oid f.
Proof.
  unfold fid_flatten, FID_SEQ_START, fid_seq, fid_oid. intros -> Hs Ho.
  assert (Z.land (Z.shiftr (f_seq f) 24) 0xffffff0000 = 0) as ->.
  { change 0xffffff0000 with (Z.shiftl 0xffffff 16). rewrite shiftr_div by lia.
    apply Z.bits_inj'. intros i Hi. rewrite Z.land_spec, Z.bits_0.
    destruct (Z.ltb_spec i 16).
    - by rewrite Z.shiftl_spec_low, andb_false_r by lia.
    - rewrite (testbit_above _ 16 i); [done| |lia].
      split; [apply Z.div_pos; lia|apply Z.div_lt_upper_bound; lia]. }
  rewrite (wrap_small 64 (Z.shiftl _ _))
    by (rewrite Z.shiftl_mul_pow2 by lia; unfold in_u; lia).
  rewrite Z.shiftl_mul_pow2, Z.add_0_r by lia.
  rewrite wrap_small by (unfold in_u; lia).
  by rewrite (proj2 (Z.eqb_neq _ _)) by lia.
Qed.

(** Inode numbers do not collide: two FIDs that are IGIFs, or have a sequence
    in [FID_SEQ_START, 2^40) and an object id below 2^24, flatten to the same
    inode number only if they are the same object (for IGIFs, the same inode). *)
Lemma fid_flatten_inj (f g : lu_fid)
    (Hf : fid_is_igif f = true
          \/ (FID_SEQ_START <= f_seq f < 2 ^ 40 /\ 0 <= f_oid f < 2 ^ 24))
    (Hg : fid_is_igif g = true
          \/ (FID_SEQ_START <= f_seq g < 2 ^ 40 /\ 0 <= f_oid g < 2 ^ 24))
    (Heq : fid_flatten f = fid_flatten g) :
  f_seq f = f_seq g /\ (fid_is_igif f = false -> f_oid f = f_oid g).
Proof.
  assert (forall h, fid_is_igif h = true -> fid_flatten h = f_seq h /\ f_seq h < 2 ^ 32) as Hi.
  { intros h Hh. unfold fid_flatten. rewrite Hh. split; [done|].
    unfold fid_is_igif, fid_seq_is_igif, fid_seq, FID_SEQ_IGIF_MAX in Hh. lia. }
  assert (forall h, FID_SEQ_START <= f_seq h < 2 ^ 40 /\ 0 <= f_oid h < 2 ^ 24 ->
     fid_is_igif h = false /\ fid_flatten h = f_seq h * 2 ^ 24 + f_oid h) as Hn.
  { intros h [H1 H2]. assert (fid_is_igif h = false) as Hh.
    { unfold fid_is_igif, fid_seq_is_igif, fid_seq, FID_SEQ_IGIF_MAX, FID_SEQ_START in *. lia. }
    split; [done|]. by apply fid_flatten_norm. }
  destruct Hf as [Hf|Hf], Hg as [Hg|Hg].
  - destruct (Hi _ Hf), (Hi _ Hg). split; [lia|congruence].
  - destruct (Hi _ Hf), (Hn _ Hg). unfold FID_SEQ_START in *. lia.
  - destruct (Hn _ Hf), (Hi _ Hg). unfold FID_SEQ_START in *. lia.
  - destruct (Hn _ Hf), (Hn _ Hg). unfold FID_SEQ_START in *. lia.
Qed.

Lemma fid_flatten_inj_witness :
  let f := LuFid 0x200000401 77 0 in
  f_seq f = f_seq f /\ (fid_is_igif f = false -> f_oid f = f_oid f).
Proof.
  apply (fid_flatten_inj (LuFid 0x200000401 77 0) (LuFid 0x200000401 77 0));
    try (right; unfold FID_SEQ_START; simpl; lia). reflexivity.
Defined.

(** [fid_set_id] on a normal FID stores every object id below 2^32 and, for
    the id 2^32, reports success although the stored object id is 0: the bound
    test is [oid > OBIF_MAX_OID] where [ostid_set_id] has [oid >= OBIF_MAX_OID]. *)
Lemma fid_set_id_norm (f : lu_fid) (oid : Z) (Hn : fid_is_norm f = true) :
  (in_u32 oid -> fid_set_id f oid = (0, LuFid (f_seq f) oid (f_ver f)))
  /\ fid_set_id f OBIF_MAX_OID = (0, LuFid (f_seq f) 0 (f_ver f))
  /\ (OBIF_MAX_OID < oid -> fid_set_id f oid = (- EBADF, f)).
Proof.
  unfold fid_is_norm, fid_seq_is_norm, FID_SEQ_NORMAL, fid_seq in Hn.
  assert (fid_seq_is_igif (f_seq f) = false) as Hig
    by (unfold fid_seq_is_igif, FID_SEQ_IGIF_MAX; lia).
  assert (fid_is_idif f = false) as Hid
    by (unfold fid_is_idif, fid_seq_is_idif, fid_seq, FID_SEQ_IDIF_MAX; lia).
  unfold fid_set_id. rewrite Hig, Hid. change OBIF_MAX_OID with (2 ^ 32). split_and!.
  - intros Ho. rewrite (proj2 (Z.ltb_ge _ _)) by (unfold in_u in Ho; lia).
    by rewrite wrap_small.
  - done.
  - intros Ho. by rewrite (proj2 (Z.ltb_lt _ _)) by lia.
Qed.

Lemma fid_set_id_norm_witness :
  fid_set_id (LuFid 0x200000401 1 0) OBIF_MAX_OID = (0, LuFid 0x200000401 0 0).
Proof. apply (fid_set_id_norm (LuFid 0x200000401 1 0) 1 eq_refl). Defined.
