(* ===== verification/SeqRange.v ===== *)
(** * Sequence ranges

    [struct lu_seq_range] and the inline functions of
    [lustre/include/seq_range.h]: the half-open intervals of FID sequences that
    the sequence service hands out and the FID location database maps to
    servers, with their disk and wire format ([lustre/include/lustre_fid.h]). *)

From S2P Require Import Prelude.

Record lu_seq_range := SeqRange {
  lsr_start : Z;
  lsr_end : Z;
  lsr_index : Z;
  lsr_flags : Z
}.

#[export] Instance lu_seq_range_eq_dec : EqDecision lu_seq_range.
Proof. solve_decision. Defined.

Definition range_wf (r : lu_seq_range) : Prop :=
  in_u64 (lsr_start r) /\ in_u64 (lsr_end r)
  /\ in_u32 (lsr_index r) /\ in_u32 (lsr_flags r).

Definition LU_SEQ_RANGE_MDT : Z := 0.
Definition LU_SEQ_RANGE_OST : Z := 1.
Definition LU_SEQ_RANGE_ANY : Z := 3.
Definition LU_SEQ_RANGE_MASK : Z := 3.

Definition set_start (r : lu_seq_range) (s : Z) : lu_seq_range :=
  SeqRange s (lsr_end r) (lsr_index r) (lsr_flags r).
Definition set_end (r : lu_seq_range) (e : Z) : lu_seq_range :=
  SeqRange (lsr_start r) e (lsr_index r) (lsr_flags r).
Definition set_index (r : lu_seq_range) (i : Z) : lu_seq_range :=
  SeqRange (lsr_start r) (lsr_end r) i (lsr_flags r).

Definition fld_range_type (range : lu_seq_range) : Z :=
  Z.land (lsr_flags range) LU_SEQ_RANGE_MASK.
Definition fld_range_is_ost (range : lu_seq_range) : bool :=
  fld_range_type range =? LU_SEQ_RANGE_OST.
Definition fld_range_is_mdt (range : lu_seq_range) : bool :=
  fld_range_type range =? LU_SEQ_RANGE_MDT.
Definition fld_range_is_any (range : lu_seq_range) : bool :=
  fld_range_type range =? LU_SEQ_RANGE_ANY.
Definition fld_range_set_type (range : lu_seq_range) (flags : Z) : lu_seq_range :=
  SeqRange (lsr_start range) (lsr_end range) (lsr_index range)
           (Z.lor (lsr_flags range) flags).
Definition fld_range_set_mdt (range : lu_seq_range) : lu_seq_range :=
  fld_range_set_type range LU_SEQ_RANGE_MDT.
Definition fld_range_set_ost (range : lu_seq_range) : lu_seq_range :=
  fld_range_set_type range LU_SEQ_RANGE_OST.
Definition fld_range_set_any (range : lu_seq_range) : lu_seq_range :=
  fld_range_set_type range LU_SEQ_RANGE_ANY.

Definition lu_seq_range_space (range : lu_seq_range) : Z :=
  u64 (lsr_end range - lsr_start range).
Definition lu_seq_range_init : lu_seq_range := SeqRange 0 0 0 0.
Definition lu_seq_range_within (range : lu_seq_range) (seq : Z) : bool :=
  (lsr_start range <=? seq) && (seq <? lsr_end range).
Definition lu_seq_range_is_sane (range : lu_seq_range) : bool :=
  lsr_start range <=? lsr_end range.
Definition lu_seq_range_is_zero (range : lu_seq_range) : bool :=
  (lsr_start range =? 0) && (lsr_end range =? 0).
Definition lu_seq_range_is_exhausted (range : lu_seq_range) : bool :=
  lu_seq_range_space range =? 0.
Definition lu_seq_range_compare_loc (r1 r2 : lu_seq_range) : bool :=
  negb (lsr_index r1 =? lsr_index r2) || negb (lsr_flags r1 =? lsr_flags r2).

Section ByteOrder.
Context {bo : byte_order}.

Definition range_cpu_to_le (src : lu_seq_range) : lu_seq_range :=
  SeqRange (cpu_to_le64 (lsr_start src)) (cpu_to_le64 (lsr_end src))
           (cpu_to_le32 (lsr_index src)) (cpu_to_le32 (lsr_flags src)).
Definition range_le_to_cpu (src : lu_seq_range) : lu_seq_range :=
  SeqRange (cpu_to_le64 (lsr_start src)) (cpu_to_le64 (lsr_end src))
           (cpu_to_le32 (lsr_index src)) (cpu_to_le32 (lsr_flags src)).
Definition range_cpu_to_be (src : lu_seq_range) : lu_seq_range :=
  SeqRange (cpu_to_be64 (lsr_start src)) (cpu_to_be64 (lsr_end src))
           (cpu_to_be32 (lsr_index src)) (cpu_to_be32 (lsr_flags src)).
Definition range_be_to_cpu (src : lu_seq_range) : lu_seq_range :=
  SeqRange (cpu_to_be64 (lsr_start src)) (cpu_to_be64 (lsr_end src))
           (cpu_to_be32 (lsr_index src)) (cpu_to_be32 (lsr_flags src)).

(** Both on-media formats lose nothing. *)
Lemma range_le_roundtrip r : range_wf r -> range_le_to_cpu (range_cpu_to_le r) = r.
Proof.
  destruct r as [s e i f]. intros (? & ? & ? & ?). simpl in *.
  unfold range_le_to_cpu, range_cpu_to_le. simpl. by autorewrite with byteorder.
Qed.

Lemma range_be_roundtrip r : range_wf r -> range_be_to_cpu (range_cpu_to_be r) = r.
Proof.
  destruct r as [s e i f]. intros (? & ? & ? & ?). simpl in *.
  unfold range_be_to_cpu, range_cpu_to_be. simpl. by autorewrite with byteorder.
Qed.
End ByteOrder.

(** ** Lemmas on ranges as sets of sequences *)

Lemma range_within_spec r s :
  lu_seq_range_within r s = true <-> lsr_start r <= s < lsr_end r.
Proof. unfold lu_seq_range_within. lia. Qed.

Lemma range_space_sane r :
  range_wf r -> lu_seq_range_is_sane r = true ->
  lu_seq_range_space r = lsr_end r - lsr_start r.
Proof.
  intros (Hs & He & _) Hsane. unfold lu_seq_range_is_sane in Hsane.
  unfold lu_seq_range_space. apply wrap_small. unfold in_u in *. lia.
Qed.

Lemma range_exhausted_sane r :
  range_wf r -> lu_seq_range_is_sane r = true ->
  lu_seq_range_is_exhausted r = true <-> lsr_start r = lsr_end r.
Proof.
  intros Hwf Hs. unfold lu_seq_range_is_exhausted.
  rewrite range_space_sane by done. lia.
Qed.

Definition disjoint_ranges (r1 r2 : lu_seq_range) : Prop :=
  forall s, lu_seq_range_within r1 s = true -> lu_seq_range_within r2 s = true -> False.

(** A range that fits its machine types and does not end before it starts. *)
Definition range_ok (r : lu_seq_range) : Prop :=
  range_wf r /\ lu_seq_range_is_sane r = true.

(** How many times the range holds a sequence: 0 or 1. *)
Definition owns (r : lu_seq_range) (s : Z) : nat :=
  if lu_seq_range_within r s then 1 else 0.

Lemma owns_exhausted r s :
  range_ok r -> lu_seq_range_is_exhausted r = true -> owns r s = 0%nat.
Proof.
  intros [Hwf Hs] He. apply range_exhausted_sane in He; [|done..].
  unfold owns. destruct (lu_seq_range_within r s) eqn:E; [|done].
  apply range_within_spec in E. lia.
Qed.

Lemma range_ok_init : range_ok lu_seq_range_init.
Proof. by repeat split. Qed.

Lemma owns_init s : owns lu_seq_range_init s = 0%nat.
Proof. apply owns_exhausted; [apply range_ok_init|done]. Qed.

Lemma range_ok_set_index r i : range_ok r -> in_u32 i -> range_ok (set_index r i).
Proof. by intros [(? & ? & ? & ?) ?] ?. Qed.
