(* ===== verification/SeqAlloc.v ===== *)
(** * Allocation of FID sequences

    The sequence server and controller of [lustre/fid/fid_handler.c], their
    backing store [lustre/fid/fid_store.c] and the sequence client of
    [lustre/fid/fid_request.c].  Locks are not modelled here: each definition is
    the code between taking and releasing the mutex of its object; the
    interleaving of the client's threads is in [SeqSystem]. *)

From S2P Require Import Prelude Fid SeqRange.

(** ** Data *)

Inductive lu_cli_type := LUSTRE_SEQ_METADATA | LUSTRE_SEQ_DATA.
Inductive lu_mgr_type := LUSTRE_SEQ_SERVER | LUSTRE_SEQ_CONTROLLER.

Definition LUSTRE_METADATA_SEQ_MAX_WIDTH : Z := 0x20000.
Definition LUSTRE_DATA_SEQ_MAX_WIDTH : Z := 0xFFFFFFFF.
Definition LUSTRE_SEQ_META_WIDTH : Z := 1.
Definition LUSTRE_SEQ_BATCH_WIDTH : Z := LUSTRE_SEQ_META_WIDTH * 1000.
Definition LUSTRE_SEQ_SUPER_WIDTH : Z := Z.shiftl 1 30 * LUSTRE_SEQ_META_WIDTH.

Definition LUSTRE_SEQ_SPACE_RANGE : lu_seq_range := SeqRange FID_SEQ_NORMAL U64_MAX 0 0.
Definition LUSTRE_SEQ_ZERO_RANGE : lu_seq_range := SeqRange 0 0 0 0.

(** [lcs_exp] and [lcs_srv] say whether the pointer is set. *)
Record lu_client_seq := ClientSeq {
  lcs_exp : bool;
  lcs_space : lu_seq_range;
  lcs_fid : lu_fid;
  lcs_type : lu_cli_type;
  lcs_width : Z;
  lcs_srv : bool;
  lcs_update : Z
}.

Definition set_lcs_space (c : lu_client_seq) (r : lu_seq_range) : lu_client_seq :=
  ClientSeq (lcs_exp c) r (lcs_fid c) (lcs_type c) (lcs_width c) (lcs_srv c) (lcs_update c).
Definition set_lcs_fid (c : lu_client_seq) (f : lu_fid) : lu_client_seq :=
  ClientSeq (lcs_exp c) (lcs_space c) f (lcs_type c) (lcs_width c) (lcs_srv c) (lcs_update c).
Definition set_lcs_update (c : lu_client_seq) (u : Z) : lu_client_seq :=
  ClientSeq (lcs_exp c) (lcs_space c) (lcs_fid c) (lcs_type c) (lcs_width c) (lcs_srv c) u.

(** The object behind [lss_obj]: the record that survives a crash, the record
    written by a transaction that has not committed, and the ranges recorded in
    the FID location database along with them. *)
Record seq_store := SeqStore {
  sto_disk : option lu_seq_range;
  sto_dirty : option lu_seq_range;
  sto_fldb : list lu_seq_range
}.

Record lu_server_seq := ServerSeq {
  lss_space : lu_seq_range;
  lss_lowater_set : lu_seq_range;
  lss_hiwater_set : lu_seq_range;
  lss_type : lu_mgr_type;
  lss_cli : option lu_client_seq;
  lss_width : Z;
  lss_set_width : Z;
  lss_need_sync : bool;
  lss_node_id : Z;
  lss_sto : seq_store
}.

Definition set_space (s : lu_server_seq) (r : lu_seq_range) : lu_server_seq :=
  ServerSeq r (lss_lowater_set s) (lss_hiwater_set s) (lss_type s) (lss_cli s)
    (lss_width s) (lss_set_width s) (lss_need_sync s) (lss_node_id s) (lss_sto s).
Definition set_loset (s : lu_server_seq) (r : lu_seq_range) : lu_server_seq :=
  ServerSeq (lss_space s) r (lss_hiwater_set s) (lss_type s) (lss_cli s)
    (lss_width s) (lss_set_width s) (lss_need_sync s) (lss_node_id s) (lss_sto s).
Definition set_hiset (s : lu_server_seq) (r : lu_seq_range) : lu_server_seq :=
  ServerSeq (lss_space s) (lss_lowater_set s) r (lss_type s) (lss_cli s)
    (lss_width s) (lss_set_width s) (lss_need_sync s) (lss_node_id s) (lss_sto s).
Definition set_cli (s : lu_server_seq) (c : option lu_client_seq) : lu_server_seq :=
  ServerSeq (lss_space s) (lss_lowater_set s) (lss_hiwater_set s) (lss_type s) c
    (lss_width s) (lss_set_width s) (lss_need_sync s) (lss_node_id s) (lss_sto s).
Definition set_need_sync (s : lu_server_seq) (b : bool) : lu_server_seq :=
  ServerSeq (lss_space s) (lss_lowater_set s) (lss_hiwater_set s) (lss_type s) (lss_cli s)
    (lss_width s) (lss_set_width s) b (lss_node_id s) (lss_sto s).
Definition set_sto (s : lu_server_seq) (t : seq_store) : lu_server_seq :=
  ServerSeq (lss_space s) (lss_lowater_set s) (lss_hiwater_set s) (lss_type s) (lss_cli s)
    (lss_width s) (lss_set_width s) (lss_need_sync s) (lss_node_id s) t.

(** What the storage layer answers to the calls of one [seq_store_update]: the
    return codes of the [dt_*] and [fld_*] calls, and whether the callback
    structure could be allocated. *)
Record dt_env := DtEnv {
  dd_rdonly : bool;
  rc_trans_create : Z;
  rc_declare_write : Z;
  rc_fld_declare : Z;
  rc_trans_start : Z;
  rc_record_write : Z;
  rc_fld_create : Z;
  cb_alloc : bool;
  rc_cb_add : Z
}.

Definition dt_ok : dt_env := DtEnv false 0 0 0 0 0 0 true 0.

(** ** The backing store *)

Section Store.
Context {bo : byte_order}.

(** The commit callback. *)
Definition seq_update_cb (seq : lu_server_seq) : lu_server_seq := set_need_sync seq false.

Definition seq_update_cb_add (e : dt_env) (seq : lu_server_seq) : Z * lu_server_seq :=
  if negb (cb_alloc e) then (- ENOMEM, seq)
  else (rc_cb_add e, set_need_sync seq true).

(** A synchronous transaction is on disk when [dt_trans_stop] returns. *)
Definition dt_trans_stop (th_sync : bool) (seq : lu_server_seq) : lu_server_seq :=
  let t := lss_sto seq in
  if th_sync then
    set_sto seq (SeqStore (match sto_dirty t with Some b => Some b | None => sto_disk t end)
                          None (sto_fldb t))
  else seq.

Definition seq_store_update (e : dt_env) (seq : lu_server_seq)
    (out : option lu_seq_range) (sync : bool) : Z * lu_server_seq :=
  if dd_rdonly e then (0, seq)
  else if negb (rc_trans_create e =? 0) then (rc_trans_create e, seq)
  else
    let sti_space := range_cpu_to_le (lss_space seq) in
    if negb (rc_declare_write e =? 0) then (rc_declare_write e, dt_trans_stop false seq)
    else if bool_decide (out <> None) && negb (rc_fld_declare e =? 0) then
      (rc_fld_declare e, dt_trans_stop false seq)
    else if negb (rc_trans_start e =? 0) then (rc_trans_start e, dt_trans_stop false seq)
    else if negb (rc_record_write e =? 0) then (rc_record_write e, dt_trans_stop false seq)
    else
      let t := lss_sto seq in
      let seq1 := set_sto seq (SeqStore (sto_disk t) (Some sti_space) (sto_fldb t)) in
      if bool_decide (out <> None) && negb (rc_fld_create e =? 0) then
        (rc_fld_create e, dt_trans_stop false seq1)
      else
        let t1 := lss_sto seq1 in
        let seq2 := set_sto seq1 (SeqStore (sto_disk t1) (sto_dirty t1)
                                           (sto_fldb t1 ++ option_list out)) in
        let '(sync', seq3) :=
          if sync then (true, seq2)
          else let '(rcb, s) := seq_update_cb_add e seq2 in (negb (rcb =? 0), s) in
        (0, dt_trans_stop sync' seq3).

Definition SIZEOF_LU_SEQ_RANGE : Z := 24.

(** [rd] is the return value of [dt_read]. *)
Definition seq_store_read (rd : Z) (seq : lu_server_seq) : Z * lu_server_seq :=
  if rd =? SIZEOF_LU_SEQ_RANGE then
    (0, set_space seq (range_le_to_cpu (default lu_seq_range_init (sto_disk (lss_sto seq)))))
  else if rd =? 0 then (- ENODATA, seq)
  else if 0 <? rd then (- EIO, seq)
  else (rd, seq).

(** ** The server *)

Definition seq_server_set_cli (seq : lu_server_seq) (cli : option lu_client_seq)
    : Z * lu_server_seq :=
  match cli with
  | None => (0, set_cli seq None)
  | Some c =>
      match lss_cli seq with
      | Some _ => (- EEXIST, seq)
      | None =>
          (0, set_cli seq (Some (set_lcs_space c (set_index (lcs_space c) (lss_node_id seq)))))
      end
  end.

(** [range_alloc to from width]: the new values of [*to] and [*from]. *)
Definition range_alloc (to from : lu_seq_range) (width : Z) : lu_seq_range * lu_seq_range :=
  let width := Z.min (lu_seq_range_space from) width in
  let e := u64 (lsr_start from + width) in
  (SeqRange (lsr_start from) e (lsr_index to) (lsr_flags to), set_start from e).

Definition __seq_server_alloc_super (e : dt_env) (seq : lu_server_seq)
    (out : lu_seq_range) : run (Z * lu_seq_range * lu_server_seq) :=
  let space := lss_space seq in
  lassert (lu_seq_range_is_sane space);
  if lu_seq_range_is_exhausted space then Ret (- ENOSPC, out, seq)
  else
    let '(out', space') := range_alloc out space (lss_width seq) in
    let '(rc, seq') := seq_store_update e (set_space seq space') (Some out') true in
    Ret (rc, out', seq').

Definition seq_server_alloc_super (e : dt_env) (seq : lu_server_seq) (out : lu_seq_range)
    : run (Z * lu_seq_range * lu_server_seq) :=
  __seq_server_alloc_super e seq out.

Definition seq_server_alloc_spec (e : dt_env) (seq : lu_server_seq) (spec : lu_seq_range)
    : Z * lu_server_seq :=
  if lsr_end spec <=? lsr_start spec then (- EINVAL, seq)
  else if negb (lsr_flags spec =? LU_SEQ_RANGE_MDT)
          && negb (lsr_flags spec =? LU_SEQ_RANGE_OST) then (- EINVAL, seq)
  else if lsr_start (lss_space seq) <=? lsr_start spec then
    seq_store_update e (set_space seq (set_start (lss_space seq) (lsr_end spec)))
                     (Some spec) true
  else (- ENOSPC, seq).

Definition __seq_set_init (e : dt_env) (seq : lu_server_seq) : Z * lu_server_seq :=
  let '(lo, sp1) := range_alloc (lss_lowater_set seq) (lss_space seq) (lss_set_width seq) in
  let '(hi, sp2) := range_alloc (lss_hiwater_set seq) sp1 (lss_set_width seq) in
  seq_store_update e (set_hiset (set_loset (set_space seq sp2) lo) hi) None true.

(** [fail_alloc] is the fault injection check, [obd_num_exports] the number of
    exports of the device; [e1] and [e2] answer the two possible store updates. *)
Definition range_alloc_set (e1 e2 : dt_env) (fail_alloc : bool) (obd_num_exports : Z)
    (out : lu_seq_range) (seq : lu_server_seq)
    : run (Z * lu_seq_range * lu_server_seq) :=
  let seq1 := if lu_seq_range_is_zero (lss_lowater_set seq)
              then (__seq_set_init e1 seq).2 else seq in
  let seq2 := if fail_alloc
              then set_loset seq1 (set_start (lss_lowater_set seq1)
                                             (lsr_end (lss_lowater_set seq1)))
              else seq1 in
  let '(rc, seq3) :=
    if lu_seq_range_is_exhausted (lss_lowater_set seq2) then
      let set_sz := Z.max (lss_set_width seq2) (u64 (obd_num_exports * lss_width seq2)) in
      let set_sz := Z.min (lu_seq_range_space (lss_space seq2)) set_sz in
      let seq2' := set_loset seq2 (lss_hiwater_set seq2) in
      let '(hi, sp) := range_alloc (lss_hiwater_set seq2') (lss_space seq2') set_sz in
      seq_store_update e2 (set_hiset (set_space seq2' sp) hi) None (lss_need_sync seq2')
    else (0, seq2) in
  lassert (negb (lu_seq_range_is_exhausted (lss_lowater_set seq3))
           || lu_seq_range_is_sane (lss_lowater_set seq3));
  if rc =? 0 then
    let '(out', lo) := range_alloc out (lss_lowater_set seq3) (lss_width seq3) in
    Ret (rc, out', set_loset seq3 lo)
  else Ret (rc, out, seq3).

(** ** Server and client calling each other

    [C] is the state of the node on the other side of a call: the controller for
    a server, the server for a client.  [call opc in c] runs the remote handler
    (or fails on the way) and returns what [ptlrpc_queue_wait] and the reply
    buffer give. *)

Definition SEQ_ALLOC_SUPER : Z := 0.
Definition SEQ_ALLOC_META : Z := 1.

Definition rpc_fun (C : Type) : Type :=
  Z -> lu_seq_range -> C -> run (Z * lu_seq_range * C).
Definition local_fun (C : Type) : Type :=
  lu_seq_range -> C -> run (Z * lu_seq_range * C).

(** The range sent with the request. *)
Definition seq_client_rpc_in (seq : lu_client_seq) : lu_seq_range :=
  let in_ := set_index lu_seq_range_init (lsr_index (lcs_space seq)) in
  match lcs_type seq with
  | LUSTRE_SEQ_METADATA => fld_range_set_mdt in_
  | LUSTRE_SEQ_DATA => fld_range_set_ost in_
  end.

(** [*output] is [&seq->lcs_space] at every call; [req_alloc] says whether the
    request could be allocated. *)
Definition seq_client_rpc {C} (req_alloc : bool) (call : rpc_fun C) (seq : lu_client_seq)
    (opc : Z) (c : C) : run (Z * lu_client_seq * C) :=
  lassert (lcs_exp seq);
  if negb req_alloc then Ret (- ENOMEM, seq, c)
  else
    '(rc, out, c') ← call opc (seq_client_rpc_in seq) c;
    if negb (rc =? 0) then Ret (rc, seq, c')
    else
      let seq' := set_lcs_space seq out in
      if negb (lu_seq_range_is_sane out) then Ret (- EINVAL, seq', c')
      else if lu_seq_range_is_exhausted out then Ret (- EINVAL, seq', c')
      else Ret (0, seq', c').

Definition seq_client_alloc_super {C} (req_alloc : bool) (srv_super : local_fun C)
    (call : rpc_fun C) (seq : lu_client_seq) (c : C) : run (Z * lu_client_seq * C) :=
  if lcs_srv seq then
    '(rc, out, c') ← srv_super (lcs_space seq) c;
    Ret (rc, set_lcs_space seq out, c')
  else if negb (lcs_exp seq) then Ret (- EINPROGRESS, seq, c)
  else seq_client_rpc req_alloc call seq SEQ_ALLOC_SUPER c.

(** [fld_rc] is the result of [fld_insert_entry], which records the new space in
    the local FID location database when it succeeds. *)
Definition fld_insert_entry (fld_rc : Z) (seq : lu_server_seq) : Z * lu_server_seq :=
  let t := lss_sto seq in
  if fld_rc =? 0
  then (0, set_sto seq (SeqStore (sto_disk t) (sto_dirty t) (sto_fldb t ++ [lss_space seq])))
  else (fld_rc, seq).

Definition seq_server_check_and_alloc_super {C} (e : dt_env) (fld_rc : Z)
    (super : lu_client_seq -> C -> run (Z * lu_client_seq * C))
    (seq : lu_server_seq) (c : C) : run (Z * lu_server_seq * C) :=
  let finish (rc : Z) (seq : lu_server_seq) (c : C) :=
    Ret (rc, if lu_seq_range_is_zero (lss_lowater_set seq)
             then (__seq_set_init e seq).2 else seq, c) in
  if lu_seq_range_is_exhausted (lss_space seq) then
    match lss_cli seq with
    | None => Ret (- ENODEV, seq, c)
    | Some cli =>
        '(rc, cli', c') ← super cli c;
        let seq1 := set_cli seq (Some cli') in
        if negb (rc =? 0) then Ret (rc, seq1, c')
        else
          let seq2 := set_space seq1 (lcs_space cli') in
          lassert (lu_seq_range_is_sane (lss_space seq2));
          let '(rc, seq3) :=
            if negb (lcs_srv cli') then fld_insert_entry fld_rc seq2 else (0, seq2) in
          finish rc seq3 c'
    end
  else finish 0 seq c.

(** The answers of the environment to one allocation of a meta sequence. *)
Record meta_env := MetaEnv {
  me_super : dt_env;
  me_fld_rc : Z;
  me_init : dt_env;
  me_update : dt_env;
  me_fail_alloc : bool;
  me_num_exports : Z
}.

Definition __seq_server_alloc_meta {C} (me : meta_env)
    (super : lu_client_seq -> C -> run (Z * lu_client_seq * C))
    (seq : lu_server_seq) (out : lu_seq_range) (c : C)
    : run (Z * lu_seq_range * lu_server_seq * C) :=
  lassert (lu_seq_range_is_sane (lss_space seq));
  '(rc, seq1, c1) ← seq_server_check_and_alloc_super (me_super me) (me_fld_rc me) super seq c;
  if rc <? 0 then Ret (rc, out, seq1, c1)
  else
    '(rc, out', seq2) ← range_alloc_set (me_init me) (me_update me) (me_fail_alloc me)
                                        (me_num_exports me) out seq1;
    Ret (rc, out', seq2, c1).

Definition seq_server_alloc_meta {C} (me : meta_env)
    (super : lu_client_seq -> C -> run (Z * lu_client_seq * C))
    (seq : lu_server_seq) (out : lu_seq_range) (c : C)
    : run (Z * lu_seq_range * lu_server_seq * C) :=
  __seq_server_alloc_meta me super seq out c.

(** The two managers of a node; [ss_rdonly] is [dd_rdonly] of the device. *)
Record seq_server_site := SeqSite {
  ss_server_seq : option lu_server_seq;
  ss_control_seq : option lu_server_seq;
  ss_rdonly : bool
}.

Definition seq_server_handle {C} (me : meta_env) (e : dt_env)
    (super : lu_client_seq -> C -> run (Z * lu_client_seq * C))
    (site : seq_server_site) (opc : Z) (out : lu_seq_range) (c : C)
    : run (Z * lu_seq_range * seq_server_site * C) :=
  if opc =? SEQ_ALLOC_META then
    match ss_server_seq site with
    | None => Ret (- EINVAL, out, site, c)
    | Some seq =>
        if ss_rdonly site then Ret (- EROFS, out, site, c)
        else
          '(rc, out', seq', c') ← seq_server_alloc_meta me super seq out c;
          Ret (rc, out', SeqSite (Some seq') (ss_control_seq site) (ss_rdonly site), c')
    end
  else if opc =? SEQ_ALLOC_SUPER then
    match ss_control_seq site with
    | None => Ret (- EINVAL, out, site, c)
    | Some seq =>
        if ss_rdonly site then Ret (- EROFS, out, site, c)
        else
          '(rc, out', seq') ← seq_server_alloc_super e seq out;
          Ret (rc, out', SeqSite (ss_server_seq site) (Some seq') (ss_rdonly site), c)
    end
  else Ret (- EINVAL, out, site, c).

(** [opc] and [tmp] are read from the request, [out] is the reply buffer; [None]
    stands for a field missing from the message. *)
Definition seq_handler {C} (me : meta_env) (e : dt_env)
    (super : lu_client_seq -> C -> run (Z * lu_client_seq * C))
    (site : seq_server_site) (opc : option Z) (out : option lu_seq_range)
    (tmp : lu_seq_range) (c : C) : run (Z * option lu_seq_range * seq_server_site * C) :=
  match opc, out with
  | Some opc, Some out =>
      let out1 := SeqRange (lsr_start out) (lsr_end out) (lsr_index tmp) (lsr_flags tmp) in
      '(rc, out', site', c') ← seq_server_handle me e super site opc out1 c;
      Ret (rc, Some out', site', c')
  | Some _, None => Ret (- EPROTO, None, site, c)
  | None, _ => Ret (- EPROTO, out, site, c)
  end.

(** [rd] answers [dt_read], [rc_store] is the result of [seq_store_init] and
    [rc_debugfs] that of [seq_server_debugfs_init]. *)
Definition seq_server_init (e : dt_env) (rc_store rd rc_debugfs : Z)
    (type : lu_mgr_type) (node_id : Z) (sto : seq_store) : run (Z * lu_server_seq) :=
  let is_srv := match type with LUSTRE_SEQ_SERVER => true | _ => false end in
  let seq0 := ServerSeq lu_seq_range_init lu_seq_range_init lu_seq_range_init type None
                (if is_srv then LUSTRE_SEQ_META_WIDTH else LUSTRE_SEQ_SUPER_WIDTH)
                LUSTRE_SEQ_BATCH_WIDTH false node_id sto in
  if negb (rc_store =? 0) then Ret (rc_store, seq0)
  else
    let '(rc, seq1) := seq_store_read rd seq0 in
    let '(rc, seq2) :=
      if rc =? - ENODATA then
        let sp := if is_srv then LUSTRE_SEQ_ZERO_RANGE else LUSTRE_SEQ_SPACE_RANGE in
        let '(_, s) := seq_store_update e (set_space seq1 (set_index sp node_id)) None false in
        (0, s)
      else (rc, seq1) in
    if negb (rc =? 0) then Ret (rc, seq2)
    else
      lassert (if is_srv then lu_seq_range_is_sane (lss_space seq2)
               else negb (lu_seq_range_is_zero (lss_space seq2))
                    && lu_seq_range_is_sane (lss_space seq2));
      Ret (rc_debugfs, seq2).

End Store.

(** ** The client *)

(** The server is not ready to allocate: wait and ask again. *)
Definition seq_rpc_retry (rc : Z) : bool := (rc =? - EINPROGRESS) || (rc =? - EAGAIN).

(** The retry loop: one element of [attempts] per turn, saying whether the request
    could be allocated; the return code is [None] when the loop is still waiting
    after the last. *)
Fixpoint seq_client_alloc_meta_loop {C} (attempts : list bool) (call : rpc_fun C)
    (seq : lu_client_seq) (c : C) : run (option Z * lu_client_seq * C) :=
  match attempts with
  | [] => Ret (None, seq, c)
  | req_alloc :: attempts' =>
      '(rc, seq', c') ← seq_client_rpc req_alloc call seq SEQ_ALLOC_META c;
      if seq_rpc_retry rc then seq_client_alloc_meta_loop attempts' call seq' c'
      else Ret (Some rc, seq', c')
  end.

Definition seq_client_alloc_meta {C} (attempts : list bool) (srv_meta : local_fun C)
    (call : rpc_fun C) (seq : lu_client_seq) (c : C)
    : run (option Z * lu_client_seq * C) :=
  if lcs_srv seq then
    '(rc, out, c') ← srv_meta (lcs_space seq) c;
    Ret (Some rc, set_lcs_space seq out, c')
  else seq_client_alloc_meta_loop attempts call seq c.

(** The sequence number is 0 when the return code is not. *)
Definition seq_client_alloc_seq {C} (attempts : list bool) (srv_meta : local_fun C)
    (call : rpc_fun C) (seq : lu_client_seq) (c : C)
    : run (option Z * Z * lu_client_seq * C) :=
  lassert (lu_seq_range_is_sane (lcs_space seq));
  let take (seq : lu_client_seq) (c : C) :=
    lassert (negb (lu_seq_range_is_exhausted (lcs_space seq)));
    let sp := lcs_space seq in
    Ret (Some 0, lsr_start sp, set_lcs_space seq (set_start sp (u64 (lsr_start sp + 1))), c) in
  if lu_seq_range_is_exhausted (lcs_space seq) then
    '(rc, seq', c') ← seq_client_alloc_meta attempts srv_meta call seq c;
    match rc with
    | Some rc => if negb (rc =? 0) then Ret (Some rc, 0, seq', c') else take seq' c'
    | None => Ret (None, 0, seq', c')
    end
  else take seq c.

(** Called with the mutex held.  When an update is in progress the thread sleeps
    and is told to look again. *)
Definition seq_fid_alloc_prep (seq : lu_client_seq) : Z * lu_client_seq :=
  if negb (lcs_update seq =? 0) then (- EAGAIN, seq)
  else (0, set_lcs_update seq (lcs_update seq + 1)).

Definition seq_fid_alloc_fini (seq : lu_client_seq) (seqnr : Z) (whole : bool)
    : run lu_client_seq :=
  lassert (lcs_update seq =? 1);
  let seq1 :=
    if negb (seqnr =? 0) then
      let oid := if whole then
                   match lcs_type seq with
                   | LUSTRE_SEQ_METADATA => LUSTRE_METADATA_SEQ_MAX_WIDTH
                   | LUSTRE_SEQ_DATA => LUSTRE_DATA_SEQ_MAX_WIDTH
                   end
                 else LUSTRE_FID_INIT_OID in
      set_lcs_fid seq (LuFid seqnr oid 0)
    else seq in
  Ret (set_lcs_update seq1 (lcs_update seq1 - 1)).

(** The head of the loop of [seq_client_alloc_fid]: bump the last FID while the
    current sequence has object ids left. *)
Definition seq_client_next_fid (seq : lu_client_seq) : option lu_client_seq :=
  if negb (fid_is_zero (lcs_fid seq)) && (fid_oid (lcs_fid seq) <? lcs_width seq)
  then let f := lcs_fid seq in
       Some (set_lcs_fid seq (LuFid (f_seq f) (u32 (f_oid f + 1)) (f_ver f)))
  else None.

(** One call when no other thread is in the allocator.  The return code is [None]
    when another thread is updating the sequence or the server has not answered;
    the FID is returned when the return code is not negative. *)
Definition seq_client_alloc_fid {C} (exhaust : bool) (attempts : list bool)
    (srv_meta : local_fun C) (call : rpc_fun C) (seq : lu_client_seq) (c : C)
    : run (option Z * option lu_fid * lu_client_seq * C) :=
  let seq := if exhaust
             then set_lcs_fid seq (LuFid (f_seq (lcs_fid seq)) (u32 (lcs_width seq))
                                         (f_ver (lcs_fid seq)))
             else seq in
  match seq_client_next_fid seq with
  | Some seq' => Ret (Some 0, Some (lcs_fid seq'), seq', c)
  | None =>
      let '(rc, seq1) := seq_fid_alloc_prep seq in
      if negb (rc =? 0) then Ret (None, None, seq1, c)
      else
        '(rc, seqnr, seq2, c') ← seq_client_alloc_seq attempts srv_meta call seq1 c;
        match rc with
        | None => Ret (None, None, seq2, c')
        | Some rc =>
            if negb (rc =? 0) then
              seq3 ← seq_fid_alloc_fini seq2 0 false;
              Ret (Some rc, None, seq3, c')
            else
              seq3 ← seq_fid_alloc_fini seq2 seqnr false;
              Ret (Some 1, Some (lcs_fid seq3), seq3, c')
        end
  end.

Definition seq_client_get_seq {C} (attempts : list bool)
    (srv_meta : local_fun C) (call : rpc_fun C) (seq : lu_client_seq) (c : C)
    : run (option Z * option Z * lu_client_seq * C) :=
  let '(rc, seq1) := seq_fid_alloc_prep seq in
  if negb (rc =? 0) then Ret (None, None, seq1, c)
  else
    '(rc, seqnr, seq2, c') ← seq_client_alloc_seq attempts srv_meta call seq1 c;
    match rc with
    | None => Ret (None, None, seq2, c')
    | Some rc =>
        seq3 ← seq_fid_alloc_fini seq2 (if negb (rc =? 0) then 0 else seqnr) true;
        Ret (Some rc, if rc =? 0 then Some seqnr else None, seq3, c')
    end.

(** Once no update is in progress: the index is set to -1 and the whole range is
    cleared right after. *)
Definition seq_client_flush (seq : lu_client_seq) : lu_client_seq :=
  let seq1 := set_lcs_fid seq fid_zero in
  let seq2 := set_lcs_space seq1 (set_index (lcs_space seq1) (u32 (-1))) in
  set_lcs_space seq2 lu_seq_range_init.

Definition seq_client_init (exp : bool) (type : lu_cli_type) (srv : bool) : lu_client_seq :=
  let width := match type with
               | LUSTRE_SEQ_METADATA => LUSTRE_METADATA_SEQ_MAX_WIDTH
               | LUSTRE_SEQ_DATA => LUSTRE_DATA_SEQ_MAX_WIDTH
               end in
  let seq0 := ClientSeq false lu_seq_range_init fid_zero type width srv 0 in
  let seq1 := seq_client_flush seq0 in
  ClientSeq exp (lcs_space seq1) (lcs_fid seq1) type width srv (lcs_update seq1).

Definition seq_client_fini (seq : lu_client_seq) : lu_client_seq :=
  ClientSeq false (lcs_space seq) (lcs_fid seq) (lcs_type seq) (lcs_width seq) false
            (lcs_update seq).

(** The widths can be tuned through debugfs; [val] is the result of
    [kstrtoull_from_user], an error or a 64-bit number. *)
Definition ldebugfs_client_fid_width_seq_write (seq : lu_client_seq) (count : Z)
    (val : Z + Z) : Z * lu_client_seq :=
  match val with
  | inl rc => (rc, seq)
  | inr val =>
      let max := match lcs_type seq with
                 | LUSTRE_SEQ_DATA => LUSTRE_DATA_SEQ_MAX_WIDTH
                 | LUSTRE_SEQ_METADATA => LUSTRE_METADATA_SEQ_MAX_WIDTH
                 end in
      if val <=? max then
        (count, ClientSeq (lcs_exp seq) (lcs_space seq) (lcs_fid seq) (lcs_type seq) val
                          (lcs_srv seq) (lcs_update seq))
      else (- ERANGE, seq)
  end.

Definition ldebugfs_server_fid_width_seq_write (seq : lu_server_seq) (count : Z)
    (val : Z + Z) : Z * lu_server_seq :=
  match val with
  | inl rc => (rc, seq)
  | inr val =>
      (count, ServerSeq (lss_space seq) (lss_lowater_set seq) (lss_hiwater_set seq)
                (lss_type seq) (lss_cli seq) val (lss_set_width seq) (lss_need_sync seq)
                (lss_node_id seq) (lss_sto seq))
  end.

(** ** Lemmas *)


(** [range_alloc] cuts a prefix off the range it allocates from. *)
Lemma range_alloc_spec to from width :
  range_ok from -> range_wf to -> 0 <= width ->
  let '(o, f) := range_alloc to from width in
  range_ok o /\ range_ok f
  /\ lsr_start o = lsr_start from /\ lsr_end o = lsr_start f /\ lsr_end f = lsr_end from
  /\ lsr_start f = lsr_start from + Z.min (lsr_end from - lsr_start from) width
  /\ lsr_index o = lsr_index to /\ lsr_flags o = lsr_flags to
  /\ lsr_index f = lsr_index from /\ lsr_flags f = lsr_flags from.
Proof.
  intros [Hwf Hs] (_ & _ & Hti & Htf) Hw. unfold range_alloc.
  rewrite range_space_sane by done.
  destruct Hwf as (H1 & H2 & H3 & H4).
  unfold lu_seq_range_is_sane in Hs. unfold range_ok, range_wf, lu_seq_range_is_sane. simpl.
  rewrite wrap_small by (unfold in_u in *; lia). unfold in_u in *. split_and!; try done; lia.
Qed.

Lemma range_alloc_owns to from width s :
  range_ok from -> range_wf to -> 0 <= width ->
  (owns (range_alloc to from width).1 s + owns (range_alloc to from width).2 s
   = owns from s)%nat.
Proof.
  intros Hf Ht Hw. pose proof (range_alloc_spec to from width Hf Ht Hw) as H.
  destruct (range_alloc to from width) as [o f]. simpl.
  destruct H as (_ & _ & H1 & H2 & H3 & H4 & _).
  destruct Hf as [_ Hs]. unfold lu_seq_range_is_sane in Hs.
  unfold owns, lu_seq_range_within.
  destruct ((lsr_start o <=? s) && (s <? lsr_end o)) eqn:E1,
    ((lsr_start f <=? s) && (s <? lsr_end f)) eqn:E2,
    ((lsr_start from <=? s) && (s <? lsr_end from)) eqn:E3; lia.
Qed.

(** The ranges of a server in memory. *)
Definition server_ok (s : lu_server_seq) : Prop :=
  range_ok (lss_space s) /\ range_ok (lss_lowater_set s) /\ range_ok (lss_hiwater_set s)
  /\ 0 <= lss_width s /\ 0 <= lss_set_width s
  /\ match lss_cli s with Some c => range_wf (lcs_space c) | None => True end.

Definition server_owns (s : lu_server_seq) (q : Z) : nat :=
  owns (lss_space s) q + owns (lss_lowater_set s) q + owns (lss_hiwater_set s) q.

(** Two servers that differ in their store and sync flag only. *)
Definition same_ranges (s s' : lu_server_seq) : Prop :=
  lss_space s' = lss_space s /\ lss_lowater_set s' = lss_lowater_set s
  /\ lss_hiwater_set s' = lss_hiwater_set s /\ lss_type s' = lss_type s
  /\ lss_cli s' = lss_cli s /\ lss_width s' = lss_width s
  /\ lss_set_width s' = lss_set_width s /\ lss_node_id s' = lss_node_id s.

Lemma same_ranges_refl s : same_ranges s s.
Proof. by repeat split. Qed.

Lemma same_ranges_ok s s' : same_ranges s s' -> server_ok s -> server_ok s'.
Proof.
  intros (H1 & H2 & H3 & _ & H4 & H5 & H6 & _). unfold server_ok.
  by rewrite H1, H2, H3, H4, H5, H6.
Qed.

Lemma same_ranges_owns s s' q : same_ranges s s' -> server_owns s' q = server_owns s q.
Proof. unfold server_owns. by intros (H1 & H2 & H3 & _); rewrite H1, H2, H3. Qed.

Lemma seq_store_update_frame {bo : byte_order} e s out sync :
  same_ranges s (seq_store_update e s out sync).2.
Proof.
  unfold seq_store_update, seq_update_cb_add, dt_trans_stop.
  repeat case_match; simplify_eq/=; by repeat split.
Qed.

Lemma range_wf_of_ok r : range_ok r -> range_wf r.
Proof. by intros [? _]. Qed.
#[export] Hint Resolve range_wf_of_ok : lustre.


(** A step from [s] to [s'] that keeps the server well formed and makes it own
    nothing it did not. *)
Definition server_shrinks (s s' : lu_server_seq) : Prop :=
  server_ok s' /\ forall q, (server_owns s' q <= server_owns s q)%nat.

Lemma server_shrinks_frame s s' s'' :
  server_shrinks s s' -> same_ranges s' s'' -> server_shrinks s s''.
Proof.
  intros [Hok Ho] Hs. split; [by eapply same_ranges_ok|].
  intros q. by rewrite (same_ranges_owns _ _ _ Hs).
Qed.

Lemma server_shrinks_trans s s' s'' :
  server_shrinks s s' -> server_shrinks s' s'' -> server_shrinks s s''.
Proof. intros [_ H1] [? H2]. split; [done|]. intros q. specialize (H1 q). specialize (H2 q). lia. Qed.

Lemma server_shrinks_refl s : server_ok s -> server_shrinks s s.
Proof. by split. Qed.
#[export] Hint Resolve server_shrinks_refl : lustre.

Lemma range_alloc_cut to from width :
  range_ok from -> range_wf to -> 0 <= width ->
  exists o f, range_alloc to from width = (o, f) /\ range_ok o /\ range_ok f
    /\ forall q, (owns o q + owns f q = owns from q)%nat.
Proof.
  intros Hf Ht Hw. pose proof (range_alloc_spec to from width Hf Ht Hw) as H.
  pose proof (fun q => range_alloc_owns to from width q Hf Ht Hw) as Ho.
  destruct (range_alloc to from width) as [o f]. exists o, f.
  by destruct H as (? & ? & _).
Qed.

#[global] Opaque range_alloc seq_store_update.

Lemma server_ok_ranges s sp lo hi :
  server_ok s -> range_ok sp -> range_ok lo -> range_ok hi ->
  server_ok (set_hiset (set_loset (set_space s sp) lo) hi).
Proof. intros (_ & _ & _ & ? & ? & ?) ???. by split_and!. Qed.

Lemma server_ok_space s : server_ok s -> range_ok (lss_space s).
Proof. by intros (? & _). Qed.
Lemma server_ok_loset s : server_ok s -> range_ok (lss_lowater_set s).
Proof. by intros (_ & ? & _). Qed.
Lemma server_ok_hiset s : server_ok s -> range_ok (lss_hiwater_set s).
Proof. by intros (_ & _ & ? & _). Qed.
Lemma server_ok_width s : server_ok s -> 0 <= lss_width s.
Proof. by intros (_ & _ & _ & ? & _). Qed.
Lemma server_ok_set_width s : server_ok s -> 0 <= lss_set_width s.
Proof. by intros (_ & _ & _ & _ & ? & _). Qed.
#[export] Hint Resolve server_ok_space server_ok_loset server_ok_hiset server_ok_width
  server_ok_set_width : lustre.

Lemma __seq_set_init_shrinks {bo : byte_order} e s :
  server_ok s -> server_shrinks s (__seq_set_init e s).2.
Proof.
  intros Hok. unfold __seq_set_init.
  destruct (range_alloc_cut (lss_lowater_set s) (lss_space s) (lss_set_width s))
    as (lo & sp1 & -> & Hlo & Hsp1 & Ho1); [auto with lustre..|].
  destruct (range_alloc_cut (lss_hiwater_set s) sp1 (lss_set_width s))
    as (hi & sp2 & -> & Hhi & Hsp2 & Ho2); [auto with lustre..|].
  eapply server_shrinks_frame; [|apply seq_store_update_frame].
  split; [by apply server_ok_ranges|].
  intros q. unfold server_owns. simpl. specialize (Ho1 q). specialize (Ho2 q). lia.
Qed.

Lemma skip_loset_shrinks s :
  server_ok s ->
  server_shrinks s (set_loset s (set_start (lss_lowater_set s) (lsr_end (lss_lowater_set s)))).
Proof.
  intros Hok. pose proof (server_ok_loset s Hok) as [(? & ? & ? & ?) _].
  assert (Hlo : range_ok (set_start (lss_lowater_set s) (lsr_end (lss_lowater_set s)))).
  { split; [done|]. unfold lu_seq_range_is_sane. simpl. lia. }
  split; [by destruct Hok as (? & ? & ? & ? & ? & ?); split_and!|].
  assert (Hx : forall q, owns (set_start (lss_lowater_set s) (lsr_end (lss_lowater_set s))) q = 0%nat).
  { intros q. apply owns_exhausted; [done|]. by apply range_exhausted_sane; [apply Hlo..|]. }
  intros q. unfold server_owns. simpl. rewrite Hx. lia.
Qed.

Lemma refill_shrinks {bo : byte_order} e s sz sync :
  server_ok s -> lu_seq_range_is_exhausted (lss_lowater_set s) = true -> 0 <= sz ->
  server_shrinks s
    (let s' := set_loset s (lss_hiwater_set s) in
     let '(hi, sp) := range_alloc (lss_hiwater_set s') (lss_space s') sz in
     seq_store_update e (set_hiset (set_space s' sp) hi) None sync).2.
Proof.
  intros Hok Hx Hsz. cbv zeta.
  change (lss_hiwater_set (set_loset s (lss_hiwater_set s))) with (lss_hiwater_set s).
  change (lss_space (set_loset s (lss_hiwater_set s))) with (lss_space s).
  destruct (range_alloc_cut (lss_hiwater_set s) (lss_space s) sz)
    as (hi & sp & -> & Hhi & Hsp & Ho); [auto with lustre..|].
  eapply server_shrinks_frame; [|apply seq_store_update_frame].
  split; [apply (server_ok_ranges s sp (lss_hiwater_set s) hi); auto with lustre|].
  intros q. unfold server_owns. simpl. specialize (Ho q). lia.
Qed.

Lemma u_nonneg w x : 0 <= w -> 0 <= wrap w x.
Proof. intros. apply Z.mod_pos_bound. lia. Qed.

(** What an allocation promises when it moves the ownership of sequences from
    [own] to [own']: on success the caller gets a well-formed range, and no
    sequence is owned once more than before. *)
Definition gives (own own' : Z -> nat) (rc : Z) (out : lu_seq_range) : Prop :=
  (rc = 0 -> range_ok out)
  /\ forall q, (own' q + (if decide (rc = 0%Z) then owns out q else 0) <= own q)%nat.

Lemma gives_none own own' rc out :
  rc <> 0 -> (forall q, (own' q <= own q)%nat) -> gives own own' rc out.
Proof. intros Hrc Ho. split; [done|]. intros q. rewrite decide_False by done. specialize (Ho q). lia. Qed.

Lemma gives_weaken own own1 own' rc out :
  (forall q, (own1 q <= own q)%nat) -> gives own1 own' rc out -> gives own own' rc out.
Proof. intros Ho [? Hg]. split; [done|]. intros q. specialize (Ho q). specialize (Hg q). lia. Qed.

Lemma gives_le own own' rc out q : gives own own' rc out -> (own' q <= own q)%nat.
Proof. intros [_ H]. specialize (H q). lia. Qed.

Lemma range_alloc_set_spec {bo : byte_order} e1 e2 fail n out s :
  server_ok s -> range_wf out ->
  exists rc out' s', range_alloc_set e1 e2 fail n out s = Ret (rc, out', s')
    /\ server_ok s' /\ range_wf out' /\ (rc <> 0 -> out' = out)
    /\ gives (server_owns s) (server_owns s') rc out'.
Proof.
  intros Hok Hout. unfold range_alloc_set.
  match goal with |- context [if fail then ?a else ?b] => set (s2 := if fail then a else b) end.
  assert (server_shrinks s s2) as [Hok2 Ho2].
  { assert (H1 : server_shrinks s (if lu_seq_range_is_zero (lss_lowater_set s)
                                   then (__seq_set_init e1 s).2 else s)).
    { case_match; auto using __seq_set_init_shrinks with lustre. }
    unfold s2. destruct fail; [|done].
    eapply server_shrinks_trans; [done|]. apply skip_loset_shrinks, H1. }
  match goal with |- context [let '(rc, seq3) := ?x in _] =>
    assert (server_shrinks s2 x.2) as [Hok3 Ho3]; [|destruct x as [rc s3]] end.
  { destruct (lu_seq_range_is_exhausted (lss_lowater_set s2)) eqn:Hx; [|auto with lustre].
    apply refill_shrinks; [done..|].
    pose proof (server_ok_set_width s2 Hok2).
    pose proof (u_nonneg 64 (lsr_end (lss_space s2) - lsr_start (lss_space s2))).
    unfold lu_seq_range_space. lia. }
  simpl in *. pose proof (server_ok_loset s3 Hok3) as Hlo3.
  rewrite (proj2 Hlo3), orb_true_r. simpl.
  destruct (Z.eqb_spec rc 0) as [->|Hrc].
  - destruct (range_alloc_cut out (lss_lowater_set s3) (lss_width s3))
      as (o & lo & -> & Ho & Hlo & Ho4); [auto with lustre..|].
    eexists _, _, _. split; [done|]. split; [by destruct Hok3 as (? & ? & ? & ? & ? & ?)|].
    split_and!; [by apply Ho|done|]. split; [done|]. intros q. unfold server_owns in *. simpl.
    specialize (Ho2 q). specialize (Ho3 q). specialize (Ho4 q). lia.
  - eexists _, _, _. split_and!; [done..|]. apply gives_none; [done|].
    intros q. specialize (Ho2 q). specialize (Ho3 q). lia.
Qed.

Lemma __seq_server_alloc_super_spec {bo : byte_order} e s out :
  server_ok s -> range_wf out ->
  exists rc out' s', __seq_server_alloc_super e s out = Ret (rc, out', s')
    /\ server_ok s' /\ range_wf out' /\ gives (server_owns s) (server_owns s') rc out'.
Proof.
  intros Hok Hout. unfold __seq_server_alloc_super.
  rewrite (proj2 (server_ok_space s Hok)). simpl. case_match.
  - eexists _, _, _. split_and!; [done..|]. by apply gives_none.
  - destruct (range_alloc_cut out (lss_space s) (lss_width s))
      as (o & sp & -> & Ho & Hsp & Hcut); [auto with lustre..|].
    pose proof (seq_store_update_frame e (set_space s sp) (Some o) true) as Hf.
    destruct (seq_store_update e (set_space s sp) (Some o) true) as [rc s'].
    eexists _, _, _. split_and!; [done|..|by apply Ho|].
    + eapply same_ranges_ok; [done|].
      by destruct Hok as (? & ? & ? & ? & ? & ?); split_and!.
    + split; [done|]. intros q. rewrite (same_ranges_owns _ _ _ Hf).
      unfold server_owns. simpl. specialize (Hcut q). case_decide; lia.
Qed.
