(* ===== verification/SeqSystem.v ===== *)
(** * The sequence service as a distributed system

    The ownership of FID sequences as ranges move from the sequence controller to
    the servers and from the servers to the clients, through calls that can fail
    or lose their reply ([lustre/fid]).  First what one allocation does for any
    supplier that satisfies the interface below, then the whole system: a
    controller, servers and clients whose threads interleave at the points where
    the client drops its mutex. *)

From S2P Require Import Prelude Fid SeqRange SeqAlloc.

(** ** The interface between a node and the one that supplies its sequences *)

Class Supplier (C : Type) := {
  sup_ok : C -> Prop;
  sup_owns : C -> Z -> nat
}.

#[export] Instance server_supplier : Supplier lu_server_seq :=
  {| sup_ok := server_ok; sup_owns := server_owns |}.

#[export] Instance pair_supplier {A B} `{Supplier A, Supplier B} : Supplier (A * B) :=
  {| sup_ok c := sup_ok c.1 /\ sup_ok c.2;
     sup_owns c q := (sup_owns c.1 q + sup_owns c.2 q)%nat |}.

Section Supplier.
Context {C : Type} `{Supplier C} {bo : byte_order}.

(** A local call never hits an assertion and moves what it returns out of the
    supplier. *)
Definition local_spec (f : local_fun C) : Prop :=
  forall out c, sup_ok c -> range_wf out ->
  exists rc out' c', f out c = Ret (rc, out', c') /\ sup_ok c' /\ range_wf out'
    /\ gives (sup_owns c) (sup_owns c') rc out'.

(** The same for a remote call, whose output is only used on success. *)
Definition rpc_spec (call : rpc_fun C) : Prop :=
  forall opc in_ c, sup_ok c -> range_wf in_ ->
  exists rc out c', call opc in_ c = Ret (rc, out, c') /\ sup_ok c'
    /\ gives (sup_owns c) (sup_owns c') rc out.

(** A client refilled from the supplier. *)
Definition refill_spec (f : lu_client_seq -> C -> run (Z * lu_client_seq * C)) : Prop :=
  forall cli c, sup_ok c -> range_wf (lcs_space cli) ->
  exists rc sp' c', f cli c = Ret (rc, set_lcs_space cli sp', c') /\ sup_ok c'
    /\ range_wf sp' /\ gives (sup_owns c) (sup_owns c') rc sp'.

Lemma seq_client_rpc_in_wf seq : range_wf (lcs_space seq) -> range_wf (seq_client_rpc_in seq).
Proof.
  intros (_ & _ & ? & _). unfold seq_client_rpc_in, range_wf. by case_match; split_and!.
Qed.

Lemma set_lcs_space_id seq : set_lcs_space seq (lcs_space seq) = seq.
Proof. by destruct seq. Qed.

(** The reply is stored in [lcs_space] before it is checked, so an empty one
    replaces the (exhausted) range of the client: nothing is lost. *)
Lemma seq_client_rpc_spec req call opc :
  rpc_spec call ->
  forall cli c, sup_ok c -> range_wf (lcs_space cli) -> lcs_exp cli = true ->
  exists rc sp' c', seq_client_rpc req call cli opc c = Ret (rc, set_lcs_space cli sp', c')
    /\ sup_ok c' /\ range_wf sp'
    /\ (rc <> 0 -> sp' = lcs_space cli \/ range_ok sp' /\ lu_seq_range_is_exhausted sp' = true)
    /\ (rc = 0 -> lu_seq_range_is_exhausted sp' = false)
    /\ gives (sup_owns c) (sup_owns c') rc sp'.
Proof.
  intros Hcall cli c Hc Hwf Hexp. unfold seq_client_rpc. rewrite Hexp. simpl.
  destruct req; simpl.
  2:{ exists (- ENOMEM), (lcs_space cli), c. rewrite set_lcs_space_id. 
      split_and!; [done..|by left|done|by apply gives_none]. }
  destruct (Hcall opc (seq_client_rpc_in cli) c) as (rc & out & c' & -> & Hc' & Hg);
    [done|by apply seq_client_rpc_in_wf|]. simpl.
  destruct (Z.eqb_spec rc 0) as [->|Hrc]; simpl.
  - destruct (proj1 Hg) as [Hwf' Hsane]; [done|]. rewrite Hsane. simpl.
    destruct (lu_seq_range_is_exhausted out) eqn:Hx; eexists _, out, c'; split_and!;
      try done; [by right|]. apply gives_none; [done|]. intros q. by eapply gives_le.
  - exists rc, (lcs_space cli), c'. rewrite set_lcs_space_id. split_and!; [done..|by left|done|].
    apply gives_none; [done|]. intros q. by eapply gives_le.
Qed.

Lemma seq_client_alloc_super_spec req srv_super call :
  local_spec srv_super -> rpc_spec call ->
  refill_spec (seq_client_alloc_super req srv_super call).
Proof.
  intros Hl Hr cli c Hc Hwf. unfold seq_client_alloc_super.
  destruct (lcs_srv cli) eqn:Es.
  - destruct (Hl (lcs_space cli) c) as (rc & out & c' & -> & ? & ? & ?); [done..|].
    by exists rc, out, c'.
  - destruct (lcs_exp cli) eqn:Ee; simpl.
    + destruct (seq_client_rpc_spec req call SEQ_ALLOC_SUPER Hr cli c) as
        (rc & sp & c' & -> & ? & ? & _ & _ & ?); [done..|]. by exists rc, sp, c'.
    + exists (- EINPROGRESS), (lcs_space cli), c. rewrite set_lcs_space_id.
      split_and!; [done..|]. by apply gives_none.
Qed.

Lemma fld_insert_entry_frame rc s : same_ranges s (fld_insert_entry rc s).2.
Proof. unfold fld_insert_entry. case_match; by repeat split. Qed.

Lemma server_ok_cli s cli :
  server_ok s -> range_wf (lcs_space cli) -> server_ok (set_cli s (Some cli)).
Proof. intros (? & ? & ? & ? & ? & _) ?. by split_and!. Qed.

Lemma server_ok_cli_wf s cli : server_ok s -> lss_cli s = Some cli -> range_wf (lcs_space cli).
Proof. intros (_ & _ & _ & _ & _ & Hc) Hs. by rewrite Hs in Hc. Qed.

Lemma maybe_set_init_shrinks e s :
  server_ok s ->
  server_shrinks s (if lu_seq_range_is_zero (lss_lowater_set s) then (__seq_set_init e s).2 else s).
Proof. intros. case_match; auto using __seq_set_init_shrinks with lustre. Qed.

Lemma seq_server_check_and_alloc_super_spec e fld_rc super s c :
  refill_spec super -> server_ok s -> sup_ok c ->
  exists rc s' c', seq_server_check_and_alloc_super e fld_rc super s c = Ret (rc, s', c')
    /\ server_ok s' /\ sup_ok c'
    /\ forall q, (server_owns s' q + sup_owns c' q <= server_owns s q + sup_owns c q)%nat.
Proof.
  intros Hsup Hok Hc. unfold seq_server_check_and_alloc_super.
  destruct (lu_seq_range_is_exhausted (lss_space s)) eqn:Hx.
  2:{ eexists _, _, _. split; [done|]. destruct (maybe_set_init_shrinks e s Hok) as [? Ho].
      split_and!; [done..|]. intros q. specialize (Ho q). lia. }
  destruct (lss_cli s) as [cli|] eqn:Hcli; [|by eexists _, _, _].
  destruct (Hsup cli c) as (rc & sp & c' & -> & Hc' & Hwf & Hg);
    [done|by eapply server_ok_cli_wf|]. simpl.
  assert (Hok1 : server_ok (set_cli s (Some (set_lcs_space cli sp)))) by by apply server_ok_cli.
  destruct (Z.eqb_spec rc 0) as [->|Hrc]; simpl.
  2:{ eexists _, _, _. split; [done|]. split_and!; [done..|]. intros q.
      unfold server_owns. simpl. pose proof (gives_le _ _ _ _ q Hg). lia. }
  destruct Hg as [Hsp Ho]. specialize (Hsp eq_refl). rewrite (proj2 Hsp). simpl.
  set (s2 := set_space _ sp).
  assert (Hok2 : server_ok s2) by by destruct Hok1 as (? & ? & ? & ? & ? & ?); split_and!.
  assert (Ho2 : forall q, (server_owns s2 q + sup_owns c' q <= server_owns s q + sup_owns c q)%nat).
  { intros q. specialize (Ho q). simpl in Ho.
    pose proof (owns_exhausted (lss_space s) q (server_ok_space s Hok) Hx).
    unfold server_owns. simpl. lia. }
  match goal with |- context [let '(rc, seq3) := ?x in _] =>
    assert (same_ranges s2 x.2) as Hf; [|destruct x as [rc s3]] end.
  { destruct (lcs_srv cli); [apply same_ranges_refl|apply fld_insert_entry_frame]. }
  simpl in Hf. destruct (maybe_set_init_shrinks e s3) as [Hok3 Ho3];
    [by eapply same_ranges_ok|].
  eexists _, _, _. split; [done|]. split_and!; [done..|]. intros q.
  specialize (Ho2 q). specialize (Ho3 q). rewrite (same_ranges_owns _ _ _ Hf) in Ho3. lia.
Qed.

Lemma seq_server_alloc_meta_spec me super s out c :
  refill_spec super -> server_ok s -> sup_ok c -> range_wf out ->
  exists rc out' s' c', seq_server_alloc_meta me super s out c = Ret (rc, out', s', c')
    /\ server_ok s' /\ sup_ok c' /\ range_wf out' /\ (rc <> 0 -> out' = out)
    /\ gives (sup_owns (s, c)) (sup_owns (s', c')) rc out'.
Proof.
  intros Hsup Hok Hc Hout. unfold seq_server_alloc_meta, __seq_server_alloc_meta.
  rewrite (proj2 (server_ok_space s Hok)). simpl.
  destruct (seq_server_check_and_alloc_super_spec (me_super me) (me_fld_rc me) super s c)
    as (rc & s1 & c1 & -> & Hok1 & Hc1 & Ho1); [done..|]. simpl.
  destruct (Z.ltb_spec rc 0).
  { eexists _, _, _, _. split; [done|]. split_and!; [done..|]. apply gives_none; [lia|]. apply Ho1. }
  destruct (range_alloc_set_spec (me_init me) (me_update me) (me_fail_alloc me)
              (me_num_exports me) out s1) as (rc2 & out' & s2 & -> & Hok2 & Hwf & Hn & Hg); [done..|].
  simpl. eexists _, _, _, _. split; [done|]. split_and!; [done..|].
  destruct Hg as [? Ho2]. split; [done|]. intros q. simpl. specialize (Ho1 q). specialize (Ho2 q). lia.
Qed.
End Supplier.

(** ** The calls of the system *)

(** What happens to a request: it is answered, it is lost on the way (nothing
    runs and the caller sees [rc]), or its reply is lost (the handler runs and
    the caller sees [rc]). *)
Inductive net := NetOk | NetLostRequest (rc : Z) | NetLostReply (rc : Z).

Definition net_ok (n : net) : Prop :=
  match n with NetOk => True | NetLostRequest rc | NetLostReply rc => rc <> 0 end.

Definition deliver {C} (n : net) (in_ : lu_seq_range) (handler : C -> run (Z * lu_seq_range * C))
    (c : C) : run (Z * lu_seq_range * C) :=
  match n with
  | NetOk => handler c
  | NetLostRequest rc => Ret (rc, in_, c)
  | NetLostReply rc => '(_, _, c') ← handler c; Ret (rc, in_, c')
  end.

Section Calls.
Context {bo : byte_order}.

(** The choices of the environment for one request to the controller and for one
    request to a server. *)
Record ctl_env := CtlEnv {
  ce_req_alloc : bool;
  ce_net : net;
  ce_rdonly : bool;
  ce_dt : dt_env
}.

Record srv_env := SrvEnv {
  se_req_alloc : bool;
  se_net : net;
  se_rdonly : bool;
  se_me : meta_env;
  se_ctl : ctl_env
}.

Definition no_super (cli : lu_client_seq) (c : unit) : run (Z * lu_client_seq * unit) :=
  Ret (- ENODEV, cli, c).

(** The controller as the site of [seq_handler]. *)
Definition ctl_call (ce : ctl_env) (me : meta_env) : rpc_fun lu_server_seq :=
  fun opc in_ => deliver (ce_net ce) in_ (fun ctl =>
    '(rc, out, site, _) ← seq_handler me (ce_dt ce) no_super
                            (SeqSite None (Some ctl) (ce_rdonly ce))
                            (Some opc) (Some lu_seq_range_init) in_ tt;
    Ret (rc, default in_ out, default ctl (ss_control_seq site))).

Definition srv_super (se : srv_env) (cli : lu_client_seq) (ctl : lu_server_seq)
    : run (Z * lu_client_seq * lu_server_seq) :=
  seq_client_alloc_super (ce_req_alloc (se_ctl se))
    (fun out ctl => seq_server_alloc_super (ce_dt (se_ctl se)) ctl out)
    (ctl_call (se_ctl se) (se_me se)) cli ctl.

Definition srv_meta (se : srv_env) : local_fun (lu_server_seq * lu_server_seq) :=
  fun out c =>
    '(rc, out', srv, ctl) ← seq_server_alloc_meta (se_me se) (srv_super se) c.1 out c.2;
    Ret (rc, out', (srv, ctl)).

Definition srv_call (se : srv_env) : rpc_fun (lu_server_seq * lu_server_seq) :=
  fun opc in_ => deliver (se_net se) in_ (fun c =>
    '(rc, out, site, ctl) ← seq_handler (se_me se) (me_super (se_me se)) (srv_super se)
                              (SeqSite (Some c.1) None (se_rdonly se))
                              (Some opc) (Some lu_seq_range_init) in_ c.2;
    Ret (rc, default in_ out, (default c.1 (ss_server_seq site), ctl))).

Lemma deliver_spec {C} `{Supplier C} n in_ handler c :
  net_ok n -> sup_ok c ->
  (exists rc out c', handler c = Ret (rc, out, c') /\ sup_ok c'
    /\ gives (sup_owns c) (sup_owns c') rc out) ->
  exists rc out c', deliver n in_ handler c = Ret (rc, out, c') /\ sup_ok c'
    /\ gives (sup_owns c) (sup_owns c') rc out.
Proof.
  intros Hn Hc (rc & out & c' & Hh & Hc' & Hg). destruct n as [|r|r]; simpl in *.
  - by eexists _, _, _.
  - eexists _, _, _. split_and!; [done..|]. by apply gives_none.
  - rewrite Hh. simpl. eexists _, _, _. split_and!; [done..|].
    apply gives_none; [done|]. intros q. by eapply gives_le.
Qed.

Lemma reply_wf in_ : range_wf in_ -> range_wf (SeqRange 0 0 (lsr_index in_) (lsr_flags in_)).
Proof. intros (_ & _ & ? & ?). unfold range_wf. by split_and!. Qed.

Lemma ctl_call_spec ce me : net_ok (ce_net ce) -> rpc_spec (ctl_call ce me).
Proof.
  intros Hn opc in_ ctl Hctl Hwf. apply deliver_spec; [done..|].
  unfold seq_handler, seq_server_handle. cbn [ss_server_seq ss_control_seq ss_rdonly].
  repeat case_match; simpl; try by eexists _, _, _; split_and!; [done..|apply gives_none].
  destruct (__seq_server_alloc_super_spec (ce_dt ce) ctl _ Hctl (reply_wf in_ Hwf))
    as (rc & out & ctl' & Heq & ? & ? & ?).
  unfold seq_server_alloc_super. rewrite Heq. simpl. by eexists _, _, _.
Qed.

Lemma srv_super_spec se : net_ok (ce_net (se_ctl se)) -> refill_spec (srv_super se).
Proof.
  intros Hn. apply seq_client_alloc_super_spec; [|by apply ctl_call_spec].
  intros out ctl Hctl Hwf. by apply __seq_server_alloc_super_spec.
Qed.

Definition env_ok (se : srv_env) : Prop := net_ok (se_net se) /\ net_ok (ce_net (se_ctl se)).

Lemma srv_call_spec se : env_ok se -> rpc_spec (srv_call se).
Proof.
  intros [Hn Hn2] opc in_ [srv ctl] [Hs Hctl] Hwf. apply deliver_spec; [done..|].
  unfold seq_handler, seq_server_handle. cbn [ss_server_seq ss_control_seq ss_rdonly fst snd].
  repeat case_match; simpl; try by eexists _, _, _; split_and!; [done..|apply gives_none].
  destruct (seq_server_alloc_meta_spec (se_me se) (srv_super se) srv _ ctl
              (srv_super_spec se Hn2) Hs Hctl (reply_wf in_ Hwf))
    as (rc & out & srv' & ctl' & Heq & ? & ? & ? & _ & ?).
  simpl in Heq. rewrite Heq. simpl. by eexists _, _, _.
Qed.

Lemma srv_meta_spec se out c :
  env_ok se -> sup_ok c -> range_wf out ->
  exists rc out' c', srv_meta se out c = Ret (rc, out', c') /\ sup_ok c' /\ range_wf out'
    /\ (rc <> 0 -> out' = out) /\ gives (sup_owns c) (sup_owns c') rc out'.
Proof.
  intros [_ Hn] Hc Hwf. destruct c as [srv ctl], Hc as [Hs Hctl]. unfold srv_meta.
  destruct (seq_server_alloc_meta_spec (se_me se) (srv_super se) srv out ctl
              (srv_super_spec se Hn) Hs Hctl Hwf)
    as (rc & out' & srv' & ctl' & Heq & ? & ? & ? & ? & ?).
  simpl in *. rewrite Heq. simpl. by eexists _, _, (srv', ctl').
Qed.
End Calls.

(** ** The client *)

(** One sequence taken: [q] is [n]. *)
Definition one (n q : Z) : nat := if decide (n = q) then 1 else 0.

Lemma take_seq sp :
  range_ok sp -> lu_seq_range_is_exhausted sp = false ->
  range_ok (set_start sp (u64 (lsr_start sp + 1)))
  /\ in_u64 (lsr_start sp)
  /\ forall q, (one (lsr_start sp) q + owns (set_start sp (u64 (lsr_start sp + 1))) q
                = owns sp q)%nat.
Proof.
  intros [Hwf Hs] Hx.
  assert (Hlt : lsr_start sp < lsr_end sp).
  { pose proof (range_exhausted_sane sp Hwf Hs). unfold lu_seq_range_is_sane in Hs.
    rewrite Hx in *. lia. }
  destruct Hwf as (H1 & H2 & H3 & H4).
  rewrite (wrap_small 64 (lsr_start sp + 1)) by (unfold in_u in *; lia).
  split_and!; [|done|].
  - unfold range_ok, range_wf, in_u, lu_seq_range_is_sane in *. simpl. lia.
  - intros q. unfold one, owns, lu_seq_range_within. simpl.
    case_decide; repeat case_match; lia.
Qed.

Section Client.
Context {C : Type} `{Supplier C}.

(** What [seq_client_alloc_meta] does with the range of a client. *)
Definition meta_post (cli : lu_client_seq) (c : C) (rc : option Z) (sp : lu_seq_range) (c' : C)
    : Prop :=
  sup_ok c' /\ range_ok sp
  /\ (rc <> Some 0 -> lu_seq_range_is_exhausted sp = true)
  /\ forall q, (sup_owns c' q + owns sp q <= sup_owns c q)%nat.

Lemma seq_client_alloc_meta_loop_spec call :
  rpc_spec call -> forall attempts cli c,
  sup_ok c -> range_ok (lcs_space cli) -> lcs_exp cli = true ->
  lu_seq_range_is_exhausted (lcs_space cli) = true ->
  exists rc sp c', seq_client_alloc_meta_loop attempts call cli c
                   = Ret (rc, set_lcs_space cli sp, c')
    /\ meta_post cli c rc sp c'
    /\ (rc = Some 0 -> lu_seq_range_is_exhausted sp = false).
Proof.
  intros Hcall attempts. unfold meta_post.
  induction attempts as [|req l IH]; intros cli c Hc Hok He Hx; simpl.
  { exists None, (lcs_space cli), c. rewrite set_lcs_space_id. split_and!; try done.
    intros q. rewrite owns_exhausted by done. lia. }
  destruct (seq_client_rpc_spec req call SEQ_ALLOC_META Hcall cli c)
    as (rc & sp & c' & -> & Hc' & Hwf & Hn & Hz & Hg); [done|apply Hok|done|]. simpl.
  destruct (decide (rc = 0)) as [->|Hrc]; simpl.
  { exists (Some 0), sp, c'. destruct Hg as [Hsp Ho]. by split_and!; auto. }
  assert (range_ok sp /\ lu_seq_range_is_exhausted sp = true) as [Hok' Hx'].
  { by destruct (Hn Hrc) as [->|?]. }
  assert (Ho : forall q, (sup_owns c' q + owns sp q <= sup_owns c q)%nat).
  { intros q. rewrite owns_exhausted by done. pose proof (gives_le _ _ _ _ q Hg). lia. }
  destruct (seq_rpc_retry rc).
  - destruct (IH (set_lcs_space cli sp) c') as (rc2 & sp2 & c2 & -> & (? & ? & ? & Ho2) & ?);
      [done..|].
    exists rc2, sp2, c2. split_and!; try done. intros q. specialize (Ho q). specialize (Ho2 q). lia.
  - exists (Some rc), sp, c'. split_and!; try done. congruence.
Qed.

(** A local call that leaves the range alone when it fails. *)
Definition local_keeps (f : local_fun C) : Prop :=
  forall out c, sup_ok c -> range_wf out ->
  exists rc out' c', f out c = Ret (rc, out', c') /\ sup_ok c' /\ range_wf out'
    /\ (rc <> 0 -> out' = out) /\ gives (sup_owns c) (sup_owns c') rc out'.

Definition alloc_seq_post (cli : lu_client_seq) (c : C)
    (r : run (option Z * Z * lu_client_seq * C)) : Prop :=
  match r with
  | LBUG => lcs_srv cli = true
  | Ret (rc, seqnr, cli', c') =>
      exists sp, cli' = set_lcs_space cli sp /\ sup_ok c' /\ range_ok sp
      /\ (rc = Some 0 -> in_u64 seqnr)
      /\ forall q, (sup_owns c' q + owns sp q
                    + (if decide (rc = Some 0%Z) then one seqnr q else 0)
                    <= sup_owns c q + owns (lcs_space cli) q)%nat
  end.

Lemma seq_client_alloc_seq_spec attempts srv_meta call cli c :
  local_keeps srv_meta -> rpc_spec call ->
  sup_ok c -> range_ok (lcs_space cli) -> lcs_srv cli || lcs_exp cli = true ->
  alloc_seq_post cli c (seq_client_alloc_seq attempts srv_meta call cli c).
Proof.
  intros Hl Hr Hc Hok He. unfold seq_client_alloc_seq. rewrite (proj2 Hok). simpl.
  destruct (lu_seq_range_is_exhausted (lcs_space cli)) eqn:Hx; simpl.
  2:{ destruct (take_seq _ Hok Hx) as (? & ? & Ho). eexists. split_and!; [done..|].
      intros q. specialize (Ho q). lia. }
  assert (Hx0 : forall q, owns (lcs_space cli) q = 0%nat) by (intros; by apply owns_exhausted).
  unfold seq_client_alloc_meta. destruct (lcs_srv cli) eqn:Hsrv; simpl in He.
  - destruct (Hl (lcs_space cli) c) as (rc & sp & c' & -> & Hc' & Hwf & Hn & Hg); [done|apply Hok|].
    simpl. destruct (Z.eqb_spec rc 0) as [->|Hrc]; simpl.
    + destruct Hg as [Hsp Ho]. specialize (Hsp eq_refl).
      destruct (lu_seq_range_is_exhausted sp) eqn:Hx2; simpl; [done|].
      destruct (take_seq sp Hsp Hx2) as (? & ? & Ho2). eexists. split_and!; [done..|].
      intros q. specialize (Ho q). specialize (Ho2 q). simpl in *. lia.
    + rewrite (Hn Hrc), set_lcs_space_id. exists (lcs_space cli).
      rewrite set_lcs_space_id. split_and!; try done.
      intros q. rewrite decide_False by congruence. pose proof (gives_le _ _ _ _ q Hg). lia.
  - destruct (seq_client_alloc_meta_loop_spec call Hr attempts cli c)
      as (rc & sp & c' & -> & (Hc' & Hsp & Hn & Ho) & Hz); [done..|].
    destruct rc as [rc|]; simpl.
    2:{ eexists. split_and!; try done. intros q. specialize (Ho q). lia. }
    destruct (Z.eqb_spec rc 0) as [->|Hrc]; simpl.
    + rewrite (Hz eq_refl). simpl. destruct (take_seq sp Hsp (Hz eq_refl)) as (? & ? & Ho2).
      eexists. split_and!; [done..|].
      intros q. specialize (Ho q). specialize (Ho2 q). simpl in *. lia.
    + eexists. split_and!; try done. intros q. specialize (Ho q).
      rewrite decide_False by congruence. lia.
Qed.
End Client.

(** ** The whole system *)

(** The thread of a client that got past [seq_fid_alloc_prep]; [whole] says
    whether it is in [seq_client_get_seq] or in [seq_client_alloc_fid]. *)
Inductive thread :=
  | Idle
  | Updating (whole : bool)
  | Finishing (whole : bool) (rc seqnr : Z).

(** [cl_used], [cl_whole] and [cl_fids] record what has been handed to the callers:
    the sequences taken, those returned by [seq_client_get_seq], and the FIDs
    returned by [seq_client_alloc_fid]. *)
Record client := Client {
  cl_seq : lu_client_seq;
  cl_node : nat;
  cl_thread : thread;
  cl_used : list Z;
  cl_whole : list Z;
  cl_fids : list lu_fid
}.

Record system := System {
  sys_ctl : lu_server_seq;
  sys_srvs : list lu_server_seq;
  sys_clis : list client
}.

Definition sys_fids (sys : system) : list lu_fid := mjoin (cl_fids <$> sys_clis sys).
Definition sys_whole (sys : system) : list Z := mjoin (cl_whole <$> sys_clis sys).

(** The steps a client takes on its own. *)
Inductive client_step : client -> client -> Prop :=
  | client_bump cl seq' :
      seq_client_next_fid (cl_seq cl) = Some seq' ->
      client_step cl (Client seq' (cl_node cl) (cl_thread cl) (cl_used cl) (cl_whole cl)
                             (lcs_fid seq' :: cl_fids cl))
  | client_prep cl whole seq' :
      cl_thread cl = Idle ->
      (whole = false -> seq_client_next_fid (cl_seq cl) = None) ->
      seq_fid_alloc_prep (cl_seq cl) = (0, seq') ->
      client_step cl (Client seq' (cl_node cl) (Updating whole) (cl_used cl) (cl_whole cl)
                             (cl_fids cl))
  | client_fini_error cl whole rc n seq' :
      cl_thread cl = Finishing whole rc n -> rc <> 0 ->
      seq_fid_alloc_fini (cl_seq cl) 0 whole = Ret seq' ->
      client_step cl (Client seq' (cl_node cl) Idle (cl_used cl) (cl_whole cl) (cl_fids cl))
  | client_fini_fid cl n seq' :
      cl_thread cl = Finishing false 0 n ->
      seq_fid_alloc_fini (cl_seq cl) n false = Ret seq' ->
      client_step cl (Client seq' (cl_node cl) Idle (n :: cl_used cl) (cl_whole cl)
                             (lcs_fid seq' :: cl_fids cl))
  | client_fini_whole cl n seq' :
      cl_thread cl = Finishing true 0 n ->
      seq_fid_alloc_fini (cl_seq cl) n true = Ret seq' ->
      client_step cl (Client seq' (cl_node cl) Idle (n :: cl_used cl) (n :: cl_whole cl)
                             (cl_fids cl))
  | client_flush cl :
      lcs_update (cl_seq cl) = 0 ->
      client_step cl (Client (seq_client_flush (cl_seq cl)) (cl_node cl) (cl_thread cl)
                             (cl_used cl) (cl_whole cl) (cl_fids cl))
  | client_width cl count val :
      0 <= val ->
      client_step cl (Client (ldebugfs_client_fid_width_seq_write (cl_seq cl) count (inr val)).2
                             (cl_node cl) (cl_thread cl) (cl_used cl) (cl_whole cl) (cl_fids cl)).

Definition new_client (exp : bool) (type : lu_cli_type) (srv : bool) (node : nat) : client :=
  Client (seq_client_init exp type srv) node Idle [] [] [].

Inductive sys_step {bo : byte_order} : system -> system -> Prop :=
  | step_client sys i cl cl' :
      sys_clis sys !! i = Some cl -> client_step cl cl' ->
      sys_step sys (System (sys_ctl sys) (sys_srvs sys) (<[i := cl']> (sys_clis sys)))
  | step_alloc sys i cl whole srv se attempts rc n seq' srv' ctl' :
      sys_clis sys !! i = Some cl -> cl_thread cl = Updating whole ->
      sys_srvs sys !! cl_node cl = Some srv -> env_ok se ->
      seq_client_alloc_seq attempts (srv_meta se) (srv_call se) (cl_seq cl) (srv, sys_ctl sys)
        = Ret (rc, n, seq', (srv', ctl')) ->
      sys_step sys
        (System ctl' (<[cl_node cl := srv']> (sys_srvs sys))
           (<[i := Client seq' (cl_node cl)
                     (match rc with Some rc => Finishing whole rc n | None => Updating whole end)
                     (cl_used cl) (cl_whole cl) (cl_fids cl)]> (sys_clis sys)))
  | step_connect sys exp type srv node :
      srv || exp = true ->
      sys_step sys (System (sys_ctl sys) (sys_srvs sys)
                           (sys_clis sys ++ [new_client exp type srv node]))
  | step_srv_width sys i srv count val :
      sys_srvs sys !! i = Some srv -> 0 <= val ->
      sys_step sys
        (System (sys_ctl sys)
           (<[i := (ldebugfs_server_fid_width_seq_write srv count (inr val)).2]> (sys_srvs sys))
           (sys_clis sys))
  | step_ctl_width sys count val :
      0 <= val ->
      sys_step sys (System (ldebugfs_server_fid_width_seq_write (sys_ctl sys) count (inr val)).2
                           (sys_srvs sys) (sys_clis sys)).

(** A freshly formatted file system without clients: the controller and the
    servers as [seq_server_init] leaves them when their object is empty, each
    server connected to the controller by [seq_server_set_cli]. *)
Inductive fresh_server {bo : byte_order} : lu_server_seq -> Prop :=
  | fresh_server_intro e node sto srv0 srv exp local :
      in_u32 node ->
      seq_server_init e 0 0 0 LUSTRE_SEQ_SERVER node sto = Ret (0, srv0) ->
      seq_server_set_cli srv0 (Some (seq_client_init exp LUSTRE_SEQ_METADATA local)) = (0, srv) ->
      fresh_server srv.

Inductive sys_init {bo : byte_order} : system -> Prop :=
  | sys_init_intro e node sto ctl srvs :
      in_u32 node ->
      seq_server_init e 0 0 0 LUSTRE_SEQ_CONTROLLER node sto = Ret (0, ctl) ->
      Forall fresh_server srvs ->
      sys_init (System ctl srvs []).

Definition sys_reachable {bo : byte_order} (sys : system) : Prop :=
  exists sys0, sys_init sys0 /\ rtc sys_step sys0 sys.

(** ** The invariant *)

Definition seen (l : list Z) (q : Z) : nat := sum_list_with (fun n => one n q) l.

Definition pending (t : thread) (q : Z) : nat :=
  match t with
  | Finishing _ rc n => if decide (rc = 0%Z) then one n q else 0
  | _ => 0
  end.

Definition client_owns (cl : client) (q : Z) : nat :=
  owns (lcs_space (cl_seq cl)) q + pending (cl_thread cl) q + seen (cl_used cl) q.

Definition total (sys : system) (q : Z) : nat :=
  server_owns (sys_ctl sys) q + sum_list_with (fun s => server_owns s q) (sys_srvs sys)
  + sum_list_with (fun c => client_owns c q) (sys_clis sys).

Definition max_width (type : lu_cli_type) : Z :=
  match type with
  | LUSTRE_SEQ_METADATA => LUSTRE_METADATA_SEQ_MAX_WIDTH
  | LUSTRE_SEQ_DATA => LUSTRE_DATA_SEQ_MAX_WIDTH
  end.

(** What a client has handed out, and where its allocator stands. *)
Record client_ok (cl : client) : Prop := {
  co_space : range_ok (lcs_space (cl_seq cl));
  co_link : lcs_srv (cl_seq cl) || lcs_exp (cl_seq cl) = true;
  co_width : 0 <= lcs_width (cl_seq cl) <= max_width (lcs_type (cl_seq cl));
  co_oid : 0 <= f_oid (lcs_fid (cl_seq cl));
  co_update : lcs_update (cl_seq cl)
              = match cl_thread cl with Idle => 0 | _ => 1 end;
  co_fid : fid_is_zero (lcs_fid (cl_seq cl)) = true \/ f_seq (lcs_fid (cl_seq cl)) ∈ cl_used cl;
  co_whole_fid : f_seq (lcs_fid (cl_seq cl)) ∈ cl_whole cl ->
                 fid_is_zero (lcs_fid (cl_seq cl)) = true
                 \/ max_width (lcs_type (cl_seq cl)) <= f_oid (lcs_fid (cl_seq cl));
  co_fids : forall f, f ∈ cl_fids cl ->
              f_seq f ∈ cl_used cl /\ (f_seq f ∉ cl_whole cl)
              /\ (f_seq f = f_seq (lcs_fid (cl_seq cl)) ->
                  fid_is_zero (lcs_fid (cl_seq cl)) = true
                  \/ f_oid f <= f_oid (lcs_fid (cl_seq cl)));
  co_whole : forall q, q ∈ cl_whole cl -> q ∈ cl_used cl;
  co_nodup : NoDup (cl_fids cl);
  co_nodup_whole : NoDup (cl_whole cl)
}.

Record sys_inv (sys : system) : Prop := {
  si_ctl : server_ok (sys_ctl sys);
  si_srvs : Forall server_ok (sys_srvs sys);
  si_clis : Forall client_ok (sys_clis sys);
  si_total : forall q, (total sys q <= 1)%nat;
  si_zero : total sys 0 = 0%nat
}.

Ltac solve_cons := rewrite elem_of_cons; tauto.

Lemma seen_elem l q : (0 < seen l q)%nat <-> q ∈ l.
Proof.
  unfold seen, one. induction l as [|n l IH]; simpl.
  - split; [lia|]. by rewrite elem_of_nil.
  - rewrite elem_of_cons, <-IH. case_decide; split; intros; try lia; naive_solver lia.
Qed.

(** The part of the invariant a client needs of the rest of the system. *)
Definition client_exclusive (cl : client) : Prop :=
  (forall q, (client_owns cl q <= 1)%nat) /\ client_owns cl 0 = 0%nat.

(** The sequence a thread is about to install is new to the client. *)
Lemma pending_fresh cl whole n :
  client_exclusive cl -> cl_thread cl = Finishing whole 0 n -> (n ∉ cl_used cl) /\ n <> 0.
Proof.
  intros [H1 H0] Ht. unfold client_owns in *. rewrite Ht in *. simpl in *. split.
  - intros Hn%seen_elem. specialize (H1 n). unfold one in H1. rewrite decide_True in H1 by done. lia.
  - intros ->. unfold one in H0. rewrite decide_True in H0 by done. lia.
Qed.

Lemma fini_seq seq n whole seq' :
  n <> 0 -> seq_fid_alloc_fini seq n whole = Ret seq' ->
  seq' = ClientSeq (lcs_exp seq) (lcs_space seq)
           (LuFid n (if whole then max_width (lcs_type seq) else LUSTRE_FID_INIT_OID) 0)
           (lcs_type seq) (lcs_width seq) (lcs_srv seq) 0.
Proof.
  intros Hn. unfold seq_fid_alloc_fini. destruct (Z.eqb_spec (lcs_update seq) 1) as [Hu|]; simpl; [|done].
  rewrite (proj2 (Z.eqb_neq n 0) Hn). simpl. intros [= <-]. unfold set_lcs_update. simpl.
  rewrite Hu. by destruct whole.
Qed.

Lemma not_zero_fid n oid ver : n <> 0 -> fid_is_zero (LuFid n oid ver) = false.
Proof. intros. unfold fid_is_zero. simpl. lia. Qed.

Lemma fini_fid_ok cl n seq' :
  client_ok cl -> client_exclusive cl -> cl_thread cl = Finishing false 0 n ->
  seq_fid_alloc_fini (cl_seq cl) n false = Ret seq' ->
  client_ok (Client seq' (cl_node cl) Idle (n :: cl_used cl) (cl_whole cl)
                    (lcs_fid seq' :: cl_fids cl)).
Proof.
  intros [] Hx Ht Hf. destruct (pending_fresh _ _ _ Hx Ht) as [Hn Hn0].
  apply fini_seq in Hf as ->; [|done]. split; simpl; try done.
  - right. solve_cons.
  - intros Hw. by apply co_whole0 in Hw.
  - intros f [->|Hin]%elem_of_cons; simpl.
    + split_and!; [solve_cons|by intros Hw%co_whole0|]. by right.
    + destruct (co_fids0 f Hin) as (Hu & Hw & _). split_and!; [solve_cons|done|].
      intros <-. done.
  - intros q Hq. apply co_whole0 in Hq. solve_cons.
  - constructor; [|done]. intros Hin. by destruct (co_fids0 _ Hin) as (Hu & _).
Qed.

Lemma fini_whole_ok cl n seq' :
  client_ok cl -> client_exclusive cl -> cl_thread cl = Finishing true 0 n ->
  seq_fid_alloc_fini (cl_seq cl) n true = Ret seq' ->
  client_ok (Client seq' (cl_node cl) Idle (n :: cl_used cl) (n :: cl_whole cl) (cl_fids cl)).
Proof.
  intros [] Hx Ht Hf. destruct (pending_fresh _ _ _ Hx Ht) as [Hn Hn0].
  apply fini_seq in Hf as ->; [|done]. split; simpl; try done.
  - by destruct (lcs_type (cl_seq cl)).
  - right. solve_cons.
  - intros _. by right.
  - intros f Hin. destruct (co_fids0 f Hin) as (Hu & Hw & _). split_and!; [solve_cons| |].
    + intros [Heq|?]%elem_of_cons; [|done]. by rewrite Heq in Hu.
    + intros <-. done.
  - intros q [->|Hq]%elem_of_cons; [|apply co_whole0 in Hq]; solve_cons.
  - constructor; [|done]. by intros Hw%co_whole0.
Qed.

Lemma bump_ok cl seq' :
  client_ok cl -> seq_client_next_fid (cl_seq cl) = Some seq' ->
  client_ok (Client seq' (cl_node cl) (cl_thread cl) (cl_used cl) (cl_whole cl)
                    (lcs_fid seq' :: cl_fids cl)).
Proof.
  intros [] Hf. unfold seq_client_next_fid, fid_oid in Hf.
  destruct (fid_is_zero (lcs_fid (cl_seq cl))) eqn:Hz; simpl in Hf; [done|].
  destruct (Z.ltb_spec (f_oid (lcs_fid (cl_seq cl))) (lcs_width (cl_seq cl))) as [Hlt|]; [|done].
  injection Hf as <-.
  assert (Hmax : max_width (lcs_type (cl_seq cl)) < 2 ^ 32).
  { by destruct (lcs_type (cl_seq cl)). }
  assert (Hoid : u32 (f_oid (lcs_fid (cl_seq cl)) + 1) = f_oid (lcs_fid (cl_seq cl)) + 1).
  { apply wrap_small. unfold in_u. lia. }
  rewrite Hoid.
  assert (Hcur : f_seq (lcs_fid (cl_seq cl)) ∈ cl_used cl).
  { destruct co_fid0; [congruence|done]. }
  assert (Hnw : f_seq (lcs_fid (cl_seq cl)) ∉ cl_whole cl).
  { intros Hw. destruct (co_whole_fid0 Hw) as [?|?]; [congruence|lia]. }
  split; simpl; try done; [lia|by right| |].
  - intros f [->|Hin]%elem_of_cons; simpl; [split_and!; [done..|]; by right|].
    destruct (co_fids0 f Hin) as (Hu & Hw & Hle). split_and!; [done..|].
    intros Heq. right. destruct (Hle Heq) as [?|?]; [congruence|lia].
  - constructor; [|done]. intros Hin. destruct (co_fids0 _ Hin) as (_ & _ & Hle).
    simpl in Hle. destruct (Hle eq_refl) as [?|?]; [congruence|lia].
Qed.

Lemma client_width_write seq count val :
  (ldebugfs_client_fid_width_seq_write seq count (inr val)).2
  = if val <=? max_width (lcs_type seq)
    then ClientSeq (lcs_exp seq) (lcs_space seq) (lcs_fid seq) (lcs_type seq) val
                   (lcs_srv seq) (lcs_update seq)
    else seq.
Proof.
  unfold ldebugfs_client_fid_width_seq_write, max_width. by destruct (lcs_type seq); case_match.
Qed.

Lemma client_step_ok cl cl' :
  client_ok cl -> client_exclusive cl -> client_step cl cl' -> client_ok cl'.
Proof.
  intros Hok Hx Hs. destruct Hs as [cl seq' Hf|cl w seq' Ht _ Hp|cl w rc n seq' Ht Hrc Hf
    |cl n seq' Ht Hf|cl n seq' Ht Hf|cl Hu|cl count val Hv].
  - by apply bump_ok.
  - destruct Hok. rewrite Ht in co_update0. unfold seq_fid_alloc_prep in Hp.
    rewrite co_update0 in Hp. simpl in Hp. injection Hp as <-. by split.
  - destruct Hok. rewrite Ht in co_update0. unfold seq_fid_alloc_fini in Hf.
    rewrite co_update0 in Hf. simpl in Hf. injection Hf as <-. split; try done.
    simpl. by rewrite co_update0.
  - by apply fini_fid_ok.
  - by apply fini_whole_ok.
  - destruct Hok. split; simpl; try done; [by left|intros _; by left|].
    intros f Hf. destruct (co_fids0 f Hf) as (? & ? & _). split_and!; [done..|]. by left.
  - rewrite client_width_write. destruct Hok.
    destruct (Z.leb_spec val (max_width (lcs_type (cl_seq cl)))); by split.
Qed.

Lemma client_step_owns cl cl' q :
  client_ok cl -> client_exclusive cl -> client_step cl cl' ->
  (client_owns cl' q <= client_owns cl q)%nat.
Proof.
  intros Hok Hx Hs. destruct Hs as [cl seq' Hf|cl w seq' Ht _ Hp|cl w rc n seq' Ht Hrc Hf
    |cl n seq' Ht Hf|cl n seq' Ht Hf|cl Hu|cl count val Hv]; unfold client_owns;
    cbn [cl_seq cl_thread cl_used].
  - unfold seq_client_next_fid in Hf. case_match; [|done]. injection Hf as <-. simpl. lia.
  - unfold seq_fid_alloc_prep in Hp. case_match; [done|]. injection Hp as <-. simpl. lia.
  - unfold seq_fid_alloc_fini in Hf. destruct (lcs_update (cl_seq cl) =? 1); [|done].
    injection Hf as <-. simpl. lia.
  - destruct (pending_fresh _ _ _ Hx Ht). apply fini_seq in Hf as ->; [|done].
    rewrite Ht. simpl. unfold seen. simpl. lia.
  - destruct (pending_fresh _ _ _ Hx Ht). apply fini_seq in Hf as ->; [|done].
    rewrite Ht. simpl. unfold seen. simpl. lia.
  - simpl. rewrite owns_init. lia.
  - rewrite client_width_write. by case_match.
Qed.

Lemma new_client_ok exp type srv node :
  srv || exp = true -> client_ok (new_client exp type srv node).
Proof.
  intros Hl. split; simpl; try done; try (by intros ? ?%elem_of_nil); try constructor; by destruct type.
Qed.

Lemma client_exclusive_of sys i cl :
  sys_inv sys -> sys_clis sys !! i = Some cl -> client_exclusive cl.
Proof.
  intros [_ _ _ Ht Hz] Hi. unfold total in *. split.
  - intros q. specialize (Ht q).
    pose proof (sum_list_with_lookup (fun c => client_owns c q) _ _ _ Hi). simpl in *. lia.
  - pose proof (sum_list_with_lookup (fun c => client_owns c 0) _ _ _ Hi). simpl in *. lia.
Qed.

(** An invariant part: what never grows. *)
Lemma sys_inv_total sys sys' :
  sys_inv sys -> (forall q, (total sys' q <= total sys q)%nat) ->
  (forall q, (total sys' q <= 1)%nat) /\ total sys' 0 = 0%nat.
Proof.
  intros [_ _ _ Ht Hz] Hle. split.
  - intros q. specialize (Ht q). specialize (Hle q). lia.
  - specialize (Hle 0). lia.
Qed.

Lemma width_write_frame srv count val :
  0 <= val -> server_ok srv ->
  server_shrinks srv (ldebugfs_server_fid_width_seq_write srv count (inr val)).2.
Proof. intros ? (? & ? & ? & ? & ? & ?). split; [by split_and!|done]. Qed.

Section Preservation.
Context {bo : byte_order}.

Lemma step_alloc_inv sys i cl whole srv se attempts rc n seq' srv' ctl' :
  sys_inv sys ->
  sys_clis sys !! i = Some cl -> cl_thread cl = Updating whole ->
  sys_srvs sys !! cl_node cl = Some srv -> env_ok se ->
  seq_client_alloc_seq attempts (srv_meta se) (srv_call se) (cl_seq cl) (srv, sys_ctl sys)
    = Ret (rc, n, seq', (srv', ctl')) ->
  sys_inv (System ctl' (<[cl_node cl := srv']> (sys_srvs sys))
             (<[i := Client seq' (cl_node cl)
                       (match rc with Some rc => Finishing whole rc n | None => Updating whole end)
                       (cl_used cl) (cl_whole cl) (cl_fids cl)]> (sys_clis sys))).
Proof.
  intros Hinv Hi Ht Hs He Hrun. pose proof Hinv as [Hctl Hsrvs Hclis _ _].
  pose proof (Forall_lookup_1 _ _ _ _ Hclis Hi) as Hcl.
  pose proof (Forall_lookup_1 _ _ _ _ Hsrvs Hs) as Hsrv.
  pose proof (seq_client_alloc_seq_spec attempts (srv_meta se) (srv_call se) (cl_seq cl)
                (srv, sys_ctl sys)) as Hspec.
  rewrite Hrun in Hspec. destruct Hspec as (sp & -> & [Hsrv' Hctl'] & Hsp & _ & Ho).
  { intros out c ? ?. by apply srv_meta_spec. }
  { by apply srv_call_spec. }
  { done. }
  { apply Hcl. }
  { apply Hcl. }
  set (cl' := Client _ _ _ _ _ _).
  assert (Hcl' : client_ok cl').
  { destruct Hcl. split; simpl; try done. rewrite co_update0, Ht. by destruct rc. }
  destruct (sys_inv_total sys (System ctl' (<[cl_node cl := srv']> (sys_srvs sys))
                                 (<[i := cl']> (sys_clis sys)))) as [H1 H0]; [done| |].
  - intros q. unfold total. simpl. specialize (Ho q). simpl in Ho.
    pose proof (sum_list_with_insert (fun s => server_owns s q) _ _ _ srv' Hs).
    pose proof (sum_list_with_insert (fun c => client_owns c q) _ _ _ cl' Hi).
    assert ((client_owns cl' q + owns (lcs_space (cl_seq cl)) q
             = client_owns cl q + owns sp q
               + (if decide (rc = Some 0%Z) then one n q else 0))%nat).
    { unfold client_owns, cl'. simpl. rewrite Ht. destruct rc as [rc|]; simpl; [|lia].
      repeat case_decide; simplify_eq; lia. }
    simpl in *. lia.
  - split; simpl; try done; by apply Forall_insert.
Qed.

Lemma sys_step_inv sys sys' : sys_inv sys -> sys_step sys sys' -> sys_inv sys'.
Proof.
  intros Hinv Hstep. destruct Hstep as [sys i cl cl' Hi Hs|sys i cl whole srv se attempts rc n seq'
    srv' ctl' Hi Ht Hs He Hrun|sys exp type srv node Hl|sys i srv count val Hi Hv|sys count val Hv].
  - pose proof (client_exclusive_of _ _ _ Hinv Hi) as Hx.
    pose proof Hinv as [? ? Hclis _ _]. pose proof (Forall_lookup_1 _ _ _ _ Hclis Hi) as Hcl.
    destruct (sys_inv_total sys (System (sys_ctl sys) (sys_srvs sys) (<[i := cl']> (sys_clis sys))));
      [done| |split; simpl; try done; apply Forall_insert; [done|by eapply client_step_ok]].
    intros q. unfold total. simpl.
    pose proof (sum_list_with_insert (fun c => client_owns c q) _ _ _ cl' Hi).
    pose proof (client_step_owns cl cl' q Hcl Hx Hs). simpl in *. lia.
  - by eapply step_alloc_inv.
  - pose proof Hinv as [? ? Hclis _ _].
    destruct (sys_inv_total sys (System (sys_ctl sys) (sys_srvs sys)
                                   (sys_clis sys ++ [new_client exp type srv node])));
      [done| |split; simpl; try done; apply Forall_app; split; [done|]].
    + intros q. unfold total. simpl. rewrite sum_list_with_app. simpl.
      unfold client_owns. simpl. unfold seen. simpl. pose proof (owns_init q). lia.
    + constructor; [|done]. by apply new_client_ok.
  - pose proof Hinv as [? Hsrvs ? _ _]. pose proof (Forall_lookup_1 _ _ _ _ Hsrvs Hi) as Hs.
    destruct (width_write_frame srv count val Hv Hs) as [Hok Ho].
    destruct (sys_inv_total sys (System (sys_ctl sys)
      (<[i := (ldebugfs_server_fid_width_seq_write srv count (inr val)).2]> (sys_srvs sys))
      (sys_clis sys))); [done| |split; simpl; try done; by apply Forall_insert].
    intros q. unfold total. simpl. specialize (Ho q).
    pose proof (sum_list_with_insert (fun s => server_owns s q) _ _ _
      (ldebugfs_server_fid_width_seq_write srv count (inr val)).2 Hi). simpl in *. lia.
  - pose proof Hinv as [Hc ? ? _ _]. destruct (width_write_frame _ count val Hv Hc) as [Hok Ho].
    destruct (sys_inv_total sys (System
      (ldebugfs_server_fid_width_seq_write (sys_ctl sys) count (inr val)).2
      (sys_srvs sys) (sys_clis sys))); [done| |by split].
    intros q. unfold total. simpl. specialize (Ho q). simpl in *. lia.
Qed.

Lemma seq_server_init_ranges e type node sto s :
  in_u32 node -> seq_server_init e 0 0 0 type node sto = Ret (0, s) ->
  server_ok s /\ lss_cli s = None /\ lss_node_id s = node
  /\ forall q, server_owns s q
     = owns (match type with
             | LUSTRE_SEQ_SERVER => LUSTRE_SEQ_ZERO_RANGE
             | LUSTRE_SEQ_CONTROLLER => LUSTRE_SEQ_SPACE_RANGE
             end) q.
Proof.
  intros Hn. unfold seq_server_init, seq_store_read. simpl.
  match goal with |- context [seq_store_update e ?s0 None false] =>
    pose proof (seq_store_update_frame e s0 None false) as Hf;
    destruct (seq_store_update e s0 None false) as [rc s1] end.
  simpl in *. intros Hrun.
  assert (s1 = s) as -> by (destruct (lu_seq_range_is_zero _), (lu_seq_range_is_sane _), type;
    simpl in Hrun; congruence).
  split_and!.
  - eapply same_ranges_ok; [exact Hf|]. unfold server_ok, range_ok, range_wf.
    destruct type; simpl; by split_and!.
  - by destruct Hf as (_ & _ & _ & _ & -> & _).
  - by destruct Hf as (_ & _ & _ & _ & _ & _ & _ & ->).
  - intros q. rewrite (same_ranges_owns _ _ _ Hf). unfold server_owns. simpl.
    rewrite owns_init. destruct type; unfold owns, lu_seq_range_within; simpl; lia.
Qed.

Lemma fresh_server_ok s : fresh_server s -> server_ok s /\ forall q, server_owns s q = 0%nat.
Proof.
  intros [e node sto srv0 srv exp local Hn Hi Hc].
  destruct (seq_server_init_ranges _ _ _ _ _ Hn Hi) as (Hok & Hcli & Hnode & Ho).
  unfold seq_server_set_cli in Hc. rewrite Hcli in Hc. injection Hc as <-. split.
  - apply server_ok_cli; [done|]. rewrite Hnode. by repeat split; try apply Hn.
  - intros q. rewrite <-(owns_init q), <-Ho. done.
Qed.

Lemma sys_init_inv sys : sys_init sys -> sys_inv sys.
Proof.
  intros [e node sto ctl srvs Hn Hc Hs].
  destruct (seq_server_init_ranges _ _ _ _ _ Hn Hc) as (Hok & _ & _ & Ho).
  assert (Hz : forall q, sum_list_with (fun s => server_owns s q) srvs = 0%nat).
  { intros q. induction Hs as [|s l H1 _ IH]; simpl; [done|].
    destruct (fresh_server_ok s H1) as [_ ->]. done. }
  split; simpl; try done.
  - eapply Forall_impl; [done|]. intros s H1. by apply fresh_server_ok.
  - intros q. unfold total. simpl. rewrite Hz, Ho. unfold owns. case_match; lia.
  - unfold total. simpl. by rewrite Hz, Ho.
Qed.

Lemma sys_reachable_inv sys : sys_reachable sys -> sys_inv sys.
Proof.
  intros (sys0 & Hi & Hs). apply sys_init_inv in Hi.
  induction Hs as [|? ? ? Hst _ IH]; [done|]. by eapply IH, sys_step_inv.
Qed.

(** Clients of a reachable system use different sequences. *)
Lemma used_disjoint sys i j c1 c2 q :
  sys_inv sys -> i <> j -> sys_clis sys !! i = Some c1 -> sys_clis sys !! j = Some c2 ->
  q ∈ cl_used c1 -> q ∈ cl_used c2 -> False.
Proof.
  intros Hinv Hne H1 H2 Hq1%seen_elem Hq2%seen_elem.
  pose proof (si_total _ Hinv q) as Ht. unfold total in Ht.
  pose proof (sum_list_with_lookup2 (fun c => client_owns c q) _ _ _ _ _ Hne H1 H2).
  unfold client_owns in *. simpl in *. lia.
Qed.

(** C1: FIDs are unique across the whole file system.  In every state the sequence
    service can reach from a freshly formatted system, however many clients and
    servers there are, however their threads interleave, and whichever requests,
    replies or store updates fail, the FIDs returned to all callers of
    [seq_client_alloc_fid] are pairwise different, so are the sequences returned
    by [seq_client_get_seq], and no FID lies in one of the latter. *)
Theorem fids_unique sys :
  sys_reachable sys ->
  NoDup (sys_fids sys) /\ NoDup (sys_whole sys)
  /\ forall f, f ∈ sys_fids sys -> f_seq f ∉ sys_whole sys.
Proof.
  intros Hr%sys_reachable_inv. pose proof (si_clis _ Hr) as Hc. rewrite Forall_lookup in Hc.
  split_and!.
  - apply NoDup_join_lookup.
    + intros i l. rewrite list_lookup_fmap. destruct (sys_clis sys !! i) eqn:Hi; [|done].
      intros [= <-]. by apply (co_nodup _ (Hc _ _ Hi)).
    + intros i j l1 l2 f Hne. rewrite !list_lookup_fmap.
      destruct (sys_clis sys !! i) eqn:Hi, (sys_clis sys !! j) eqn:Hj; try done.
      intros [= <-] [= <-] H1%(co_fids _ (Hc _ _ Hi)) H2%(co_fids _ (Hc _ _ Hj)).
      by eapply (used_disjoint sys i j); [..|apply H1|apply H2].
  - apply NoDup_join_lookup.
    + intros i l. rewrite list_lookup_fmap. destruct (sys_clis sys !! i) eqn:Hi; [|done].
      intros [= <-]. by apply (co_nodup_whole _ (Hc _ _ Hi)).
    + intros i j l1 l2 q Hne. rewrite !list_lookup_fmap.
      destruct (sys_clis sys !! i) eqn:Hi, (sys_clis sys !! j) eqn:Hj; try done.
      intros [= <-] [= <-] H1%(co_whole _ (Hc _ _ Hi)) H2%(co_whole _ (Hc _ _ Hj)).
      by eapply (used_disjoint sys i j).
  - intros f (l1 & Hf & (c1 & -> & (i & Hi)%list_elem_of_lookup)%list_elem_of_fmap)%list_elem_of_join
      (l2 & Hq & (c2 & -> & (j & Hj)%list_elem_of_lookup)%list_elem_of_fmap)%list_elem_of_join.
    destruct (co_fids _ (Hc _ _ Hi) f Hf) as (Hu & Hw & _).
    destruct (decide (i = j)) as [->|Hne]; [congruence|].
    eapply (used_disjoint sys i j); [done..|]. by apply (co_whole _ (Hc _ _ Hj)).
Qed.

(** C34: no assertion of the sequence service fails for a remote client: in every
    reachable system, whatever the network and the storage answer, a request of a
    client that reaches its server over the network returns. *)
Theorem remote_alloc_never_bugs sys i cl whole srv se attempts :
  sys_reachable sys ->
  sys_clis sys !! i = Some cl -> cl_thread cl = Updating whole ->
  sys_srvs sys !! cl_node cl = Some srv -> env_ok se -> lcs_srv (cl_seq cl) = false ->
  seq_client_alloc_seq attempts (srv_meta se) (srv_call se) (cl_seq cl) (srv, sys_ctl sys)
    <> LBUG.
Proof.
  intros Hr%sys_reachable_inv Hi _ Hs He Hloc Hbug. destruct Hr as [Hctl Hsrvs Hclis _ _].
  pose proof (Forall_lookup_1 _ _ _ _ Hclis Hi) as Hcl.
  pose proof (Forall_lookup_1 _ _ _ _ Hsrvs Hs) as Hsrv.
  pose proof (seq_client_alloc_seq_spec attempts (srv_meta se) (srv_call se) (cl_seq cl)
                (srv, sys_ctl sys)) as Hspec.
  rewrite Hbug in Hspec. simpl in Hspec. rewrite Hloc in Hspec. discriminate Hspec.
  - intros out c ? ?. by apply srv_meta_spec.
  - by apply srv_call_spec.
  - done.
  - apply Hcl.
  - pose proof (co_link _ Hcl) as H. by rewrite Hloc in H.
Qed.
End Preservation.

(** ** Running the system

    The steps as a function of the action taken, to evaluate concrete runs. *)

Inductive action :=
  | ABump (i : nat)
  | APrep (i : nat) (whole : bool)
  | AFini (i : nat)
  | AFlush (i : nat)
  | AAlloc (i : nat) (attempts : list bool) (se : srv_env)
  | AConnect (exp : bool) (type : lu_cli_type) (srv : bool) (node : nat).

Definition client_do (a : action) (cl : client) : option client :=
  match a with
  | ABump _ =>
      seq' ← seq_client_next_fid (cl_seq cl);
      Some (Client seq' (cl_node cl) (cl_thread cl) (cl_used cl) (cl_whole cl)
                   (lcs_fid seq' :: cl_fids cl))
  | APrep _ whole =>
      match cl_thread cl, seq_fid_alloc_prep (cl_seq cl) with
      | Idle, (0, seq') =>
          if negb whole && bool_decide (is_Some (seq_client_next_fid (cl_seq cl))) then None
          else Some (Client seq' (cl_node cl) (Updating whole) (cl_used cl) (cl_whole cl)
                            (cl_fids cl))
      | _, _ => None
      end
  | AFini _ =>
      match cl_thread cl with
      | Finishing whole rc n =>
          match seq_fid_alloc_fini (cl_seq cl) (if rc =? 0 then n else 0) whole with
          | Ret seq' =>
              Some (if negb (rc =? 0)
                    then Client seq' (cl_node cl) Idle (cl_used cl) (cl_whole cl) (cl_fids cl)
                    else if whole
                    then Client seq' (cl_node cl) Idle (n :: cl_used cl) (n :: cl_whole cl)
                                (cl_fids cl)
                    else Client seq' (cl_node cl) Idle (n :: cl_used cl) (cl_whole cl)
                                (lcs_fid seq' :: cl_fids cl))
          | LBUG => None
          end
      | _ => None
      end
  | AFlush _ =>
      if lcs_update (cl_seq cl) =? 0 then
        Some (Client (seq_client_flush (cl_seq cl)) (cl_node cl) (cl_thread cl)
                     (cl_used cl) (cl_whole cl) (cl_fids cl))
      else None
  | _ => None
  end.

Lemma client_do_sound a cl cl' : client_do a cl = Some cl' -> client_step cl cl'.
Proof.
  intros Ha. destruct a as [i|i w|i|i| |]; simpl in Ha; [..|done|done].
  - destruct (seq_client_next_fid (cl_seq cl)) eqn:E; [|done]. injection Ha as <-. by constructor.
  - destruct (cl_thread cl) eqn:Et; [|done..].
    destruct (seq_fid_alloc_prep (cl_seq cl)) as [[] seq'] eqn:Ep; [|done..].
    case_match eqn:Ew; [done|]. injection Ha as <-. eapply client_prep; [done| |done].
    intros ->. simpl in Ew. by destruct (seq_client_next_fid (cl_seq cl)).
  - destruct (cl_thread cl) as [| |w rc n] eqn:Et; [done..|].
    destruct (seq_fid_alloc_fini _ _ _) as [seq'|] eqn:Ef; [|done]. injection Ha as <-.
    destruct (Z.eqb_spec rc 0) as [->|Hrc]; simpl; [|by eapply client_fini_error].
    by destruct w; [eapply client_fini_whole|eapply client_fini_fid].
  - case_match eqn:Eu; [|done]. injection Ha as <-. constructor. lia.
Qed.

Section Running.
Context {bo : byte_order}.

Definition sys_do (a : action) (sys : system) : option system :=
  match a with
  | ABump i | APrep i _ | AFini i | AFlush i =>
      cl ← sys_clis sys !! i;
      cl' ← client_do a cl;
      Some (System (sys_ctl sys) (sys_srvs sys) (<[i := cl']> (sys_clis sys)))
  | AAlloc i attempts se =>
      cl ← sys_clis sys !! i;
      srv ← sys_srvs sys !! cl_node cl;
      match cl_thread cl,
            seq_client_alloc_seq attempts (srv_meta se) (srv_call se) (cl_seq cl)
              (srv, sys_ctl sys) with
      | Updating whole, Ret (rc, n, seq', (srv', ctl')) =>
          Some (System ctl' (<[cl_node cl := srv']> (sys_srvs sys))
             (<[i := Client seq' (cl_node cl)
                     (match rc with Some rc => Finishing whole rc n | None => Updating whole end)
                     (cl_used cl) (cl_whole cl) (cl_fids cl)]> (sys_clis sys)))
      | _, _ => None
      end
  | AConnect exp type srv node =>
      Some (System (sys_ctl sys) (sys_srvs sys) (sys_clis sys ++ [new_client exp type srv node]))
  end.

Definition action_ok (a : action) : Prop :=
  match a with
  | AAlloc _ _ se => env_ok se
  | AConnect exp _ srv _ => srv || exp = true
  | _ => True
  end.

Fixpoint sys_run (l : list action) (sys : system) : option system :=
  match l with [] => Some sys | a :: l' => sys' ← sys_do a sys; sys_run l' sys' end.

Lemma sys_do_sound a sys sys' : action_ok a -> sys_do a sys = Some sys' -> sys_step sys sys'.
Proof.
  intros Hok Ha. destruct a as [i|i w|i|i|i att se|exp type srv node]; cbn [sys_do] in Ha.
  1-4: destruct (sys_clis sys !! i) as [cl|] eqn:Hi; [|done]; cbn [mbind option_bind] in Ha;
    match type of Ha with context [client_do ?a cl] =>
      destruct (client_do a cl) as [cl'|] eqn:Hc; [|done] end;
    injection Ha as <-; eapply step_client; [done|]; by eapply client_do_sound.
  - destruct (sys_clis sys !! i) as [cl|] eqn:Hi; simpl in Ha; [|done].
    destruct (sys_srvs sys !! cl_node cl) as [srv|] eqn:Hs; simpl in Ha; [|done].
    destruct (cl_thread cl) as [|w|] eqn:Ht; [done| |done].
    destruct (seq_client_alloc_seq _ _ _ _ _) as [[[[rc n] seq'] [srv' ctl']]|] eqn:Hr; [|done].
    injection Ha as <-. by eapply step_alloc.
  - injection Ha as <-. by constructor.
Qed.

Lemma sys_run_sound l sys sys' :
  Forall action_ok l -> sys_run l sys = Some sys' -> rtc sys_step sys sys'.
Proof.
  intros Hok. revert sys. induction Hok as [|a l Ha _ IH]; intros sys Hr; simpl in Hr.
  { by injection Hr as ->. }
  destruct (sys_do a sys) as [sys1|] eqn:Hd; simpl in Hr; [|done].
  eapply rtc_l; [by eapply sys_do_sound|]. by apply IH.
Qed.
End Running.

(** ** A concrete run

    A file system with a controller and one metadata server.  The server's first
    client takes a sequence and allocates two FIDs in it, losing one reply on the
    way; then it takes a whole sequence. *)

Module Run.
#[export] Existing Instance LittleEndian.

Definition me : meta_env := MetaEnv dt_ok 0 dt_ok dt_ok false 1.
Definition se (n : net) : srv_env := SrvEnv true n false me (CtlEnv true NetOk false dt_ok).
Definition sto : seq_store := SeqStore None None [].

Definition ctl : lu_server_seq :=
  match seq_server_init dt_ok 0 0 0 LUSTRE_SEQ_CONTROLLER 0 sto with
  | Ret (_, s) => s
  | LBUG => ServerSeq lu_seq_range_init lu_seq_range_init lu_seq_range_init
              LUSTRE_SEQ_CONTROLLER None 0 0 false 0 sto
  end.
Definition srv : lu_server_seq :=
  match seq_server_init dt_ok 0 0 0 LUSTRE_SEQ_SERVER 0 sto with
  | Ret (_, s) =>
      (seq_server_set_cli s (Some (seq_client_init false LUSTRE_SEQ_METADATA true))).2
  | LBUG => ctl
  end.

Lemma init : sys_init (System ctl [srv] []).
Proof.
  apply (sys_init_intro dt_ok 0 sto); [by split|by vm_compute|].
  constructor; [|done].
  eapply (fresh_server_intro dt_ok 0 sto _ _ false true); [by split|by vm_compute|].
  by vm_compute.
Qed.

Lemma reach l sys :
  Forall action_ok l -> sys_run l (System ctl [srv] []) = Some sys -> sys_reachable sys.
Proof. intros Hok Hr. eexists. split; [apply init|]. by eapply sys_run_sound. Qed.

Definition script : list action :=
  [AConnect true LUSTRE_SEQ_METADATA false 0; APrep 0 false;
   AAlloc 0 [true] (se (NetLostReply (- EIO))); AFini 0; APrep 0 false;
   AAlloc 0 [true] (se NetOk); AFini 0; ABump 0; APrep 0 true].

Definition script_whole : list action :=
  script ++ [AAlloc 0 [true] (se NetOk); AFini 0].

Lemma script_ok : Forall action_ok script.
Proof. by repeat constructor. Qed.

Lemma script_whole_ok : Forall action_ok script_whole.
Proof. by repeat constructor. Qed.

Definition final : system := default (System ctl [srv] []) (sys_run script_whole (System ctl [srv] [])).
Definition before : system := default (System ctl [srv] []) (sys_run script (System ctl [srv] [])).

Lemma fids_unique_witness :
  sys_fids final = [LuFid 0x200000401 2 0; LuFid 0x200000401 1 0]
  /\ sys_whole final = [0x200000402] /\ NoDup (sys_fids final).
Proof.
  split; [by vm_compute|]. split; [by vm_compute|].
  apply (fids_unique final). apply (reach script_whole); [apply script_whole_ok|].
  by vm_compute.
Defined.

Lemma remote_alloc_never_bugs_witness :
  match sys_clis before !! 0%nat with
  | Some cl => seq_client_alloc_seq [true] (srv_meta (se NetOk)) (srv_call (se NetOk)) (cl_seq cl)
                 (default srv (sys_srvs before !! 0%nat), sys_ctl before) <> LBUG
  | None => False
  end.
Proof.
  destruct (sys_clis before !! 0%nat) as [cl|] eqn:Hcl; [|by vm_compute in Hcl].
  assert (Ht : cl = default (new_client true LUSTRE_SEQ_METADATA false 0%nat)
                            (sys_clis before !! 0%nat)) by by rewrite Hcl.
  apply (remote_alloc_never_bugs before 0%nat cl true
           (default srv (sys_srvs before !! 0%nat)) (se NetOk) [true]).
  - apply (reach script); [apply script_ok|]. by vm_compute.
  - done.
  - rewrite Ht. by vm_compute.
  - rewrite Ht. by vm_compute.
  - exact (conj I I).
  - rewrite Ht. by vm_compute.
Defined.
End Run.
