(* ===== verification/SeqCrash.v ===== *)
(** * Crash safety of a sequence server

    The server hands out sequences of its low-water set while the store still
    holds the range they came from; [lss_need_sync] and the commit callback of
    [lustre/fid/fid_store.c] make sure that a set is only used once the record
    that excludes it is on disk.  The state of the server here is the one of
    [SeqAlloc] together with its store; a crash loses what is not on disk and
    restarts the server with [seq_server_init]. *)

From S2P Require Import Prelude Fid SeqRange SeqAlloc SeqSystem.

Section Crash.
Context {bo : byte_order}.

(** The storage layer accepts the update; the commit callback may still fail to
    be registered, which makes the update synchronous. *)
Definition dt_good (e : dt_env) : Prop :=
  dd_rdonly e = false /\ rc_trans_create e = 0 /\ rc_declare_write e = 0
  /\ rc_fld_declare e = 0 /\ rc_trans_start e = 0 /\ rc_record_write e = 0
  /\ rc_fld_create e = 0.

Definition me_good (me : meta_env) : Prop :=
  dt_good (me_super me) /\ dt_good (me_init me) /\ dt_good (me_update me).

Definition record (b : option lu_seq_range) : lu_seq_range :=
  range_le_to_cpu (default lu_seq_range_init b).

Lemma record_none : record None = lu_seq_range_init.
Proof. unfold record. simpl. by case bo. Qed.

(** The range a restart would read, and the one it would read if everything
    written so far had been committed. *)
Definition on_disk (s : lu_server_seq) : lu_seq_range := record (sto_disk (lss_sto s)).
Definition written (s : lu_server_seq) : lu_seq_range :=
  record (match sto_dirty (lss_sto s) with Some b => Some b | None => sto_disk (lss_sto s) end).

Record crash_state := CrashState {
  cs_srv : lu_server_seq;
  cs_ctl : lu_server_seq;
  cs_given : list lu_seq_range
}.

(** The journal commits. *)
Definition commit (s : lu_server_seq) : lu_server_seq := dt_trans_stop true s.

(** Only one commit callback is ever outstanding (an asynchronous update needs
    [lss_need_sync] to be clear), and it runs after its transaction committed. *)
Inductive crash_step : crash_state -> crash_state -> Prop :=
  | crash_alloc s ctl given me super out rc out' s' ctl' :
      me_good me -> refill_spec super -> range_wf out ->
      seq_server_alloc_meta me super s out ctl = Ret (rc, out', s', ctl') ->
      crash_step (CrashState s ctl given)
                 (CrashState s' ctl' (if rc =? 0 then out' :: given else given))
  | crash_commit s ctl given :
      crash_step (CrashState s ctl given) (CrashState (commit s) ctl given)
  | crash_callback s ctl given :
      sto_dirty (lss_sto s) = None ->
      crash_step (CrashState s ctl given) (CrashState (seq_update_cb s) ctl given)
  | crash_restart s ctl given e cli s0 s1 :
      dt_good e ->
      seq_server_init e 0 (if decide (sto_disk (lss_sto s) = None) then 0 else SIZEOF_LU_SEQ_RANGE)
        0 LUSTRE_SEQ_SERVER (lss_node_id s)
        (SeqStore (sto_disk (lss_sto s)) None (sto_fldb (lss_sto s))) = Ret (0, s0) ->
      range_wf (lcs_space cli) ->
      seq_server_set_cli s0 (Some cli) = (0, s1) ->
      crash_step (CrashState s ctl given) (CrashState s1 ctl given).

Definition given_owns (l : list lu_seq_range) (q : Z) : nat :=
  sum_list_with (fun r => owns r q) l.

(** [own] counts what the rest of the world holds.  The five ranges below never
    overlap it, whatever part of the state survives. *)
Record crash_ok (s : lu_server_seq) (own : Z -> nat) : Prop := {
  ck_server : server_ok s;
  ck_node : in_u32 (lss_node_id s);
  ck_disk_ok : range_ok (on_disk s);
  ck_written_ok : range_ok (written s);
  ck_memory : forall q, (server_owns s q + own q <= 1)%nat;
  ck_disk : forall q, (owns (on_disk s) q + owns (lss_lowater_set s) q + own q <= 1)%nat;
  ck_written : forall q, (owns (written s) q + owns (lss_lowater_set s) q
                          + owns (lss_hiwater_set s) q + own q <= 1)%nat;
  ck_synced : lss_need_sync s = false -> forall q,
              (owns (on_disk s) q + owns (lss_lowater_set s) q
               + owns (lss_hiwater_set s) q + own q <= 1)%nat
}.

#[local] Transparent seq_store_update.

(** What a successful update leaves in the store. *)
Lemma seq_store_update_good e s out sync :
  dt_good e -> range_ok (lss_space s) ->
  let s' := (seq_store_update e s out sync).2 in
  (seq_store_update e s out sync).1 = 0 /\ written s' = lss_space s
  /\ (on_disk s' = lss_space s
      \/ sync = false /\ on_disk s' = on_disk s /\ lss_need_sync s' = true).
Proof.
  intros (H1 & H2 & H3 & H4 & H5 & H6 & H7) [Hwf _]. unfold seq_store_update.
  rewrite H1, H2, H3, H4, H5, H6, H7. simpl. rewrite !andb_false_r.
  unfold seq_update_cb_add, dt_trans_stop, written, on_disk, record.
  destruct sync; simpl; [rewrite range_le_roundtrip by done; auto|].
  destruct (cb_alloc e); simpl; [|rewrite range_le_roundtrip by done; auto].
  destruct (rc_cb_add e =? 0); simpl; rewrite range_le_roundtrip by done; auto 10.
Qed.
#[local] Opaque seq_store_update.

Lemma crash_ok_weaken s own own' :
  crash_ok s own -> (forall q, (own' q <= own q)%nat) -> crash_ok s own'.
Proof.
  intros [] Hle. split; try done; intros; specialize (Hle q).
  - specialize (ck_memory0 q). lia.
  - specialize (ck_disk0 q). lia.
  - specialize (ck_written0 q). lia.
  - specialize (ck_synced0 H q). lia.
Qed.

(** An update of the store after the ranges moved from the old state [s] to [s1]:
    the new low-water set must be clear of what is on disk, unless the update is
    synchronous. *)
Lemma update_crash_ok e s s1 own out sync :
  dt_good e -> crash_ok s own -> server_ok s1 -> lss_node_id s1 = lss_node_id s ->
  lss_sto s1 = lss_sto s ->
  (forall q, (server_owns s1 q <= server_owns s q)%nat) ->
  (sync = false -> forall q,
     (owns (on_disk s) q + owns (lss_lowater_set s1) q + own q <= 1)%nat) ->
  crash_ok (seq_store_update e s1 out sync).2 own.
Proof.
  intros He Hck Hok1 Hnode Hsto Hle Hasync.
  pose proof (seq_store_update_frame e s1 out sync) as Hf.
  destruct (seq_store_update_good e s1 out sync) as (_ & Hw & Hd); [done|auto with lustre|].
  set (s2 := (seq_store_update e s1 out sync).2) in *.
  assert (Hsp : range_ok (lss_space s1)) by auto with lustre.
  assert (Hdisk1 : on_disk s1 = on_disk s) by (unfold on_disk; by rewrite Hsto).
  pose proof Hf as (Hf1 & Hf2 & Hf3 & _ & _ & _ & _ & Hfn).
  assert (Hmem : forall q, (owns (lss_space s1) q + owns (lss_lowater_set s1) q
                            + owns (lss_hiwater_set s1) q + own q <= 1)%nat).
  { intros q. specialize (Hle q). pose proof (ck_memory _ _ Hck q). unfold server_owns in *. lia. }
  split.
  - by eapply same_ranges_ok.
  - rewrite Hfn, Hnode. apply Hck.
  - destruct Hd as [->|(_ & -> & _)]; [done|]. rewrite Hdisk1. apply Hck.
  - by rewrite Hw.
  - intros q. rewrite (same_ranges_owns _ _ _ Hf). unfold server_owns. apply Hmem.
  - intros q. rewrite Hf2. specialize (Hmem q). destruct Hd as [->|(Hs & -> & _)]; [lia|].
    rewrite Hdisk1. by apply Hasync.
  - intros q. rewrite Hw, Hf2, Hf3. apply Hmem.
  - intros Hns q. rewrite Hf2, Hf3. destruct Hd as [->|(_ & _ & Hd)]; [apply Hmem|congruence].
Qed.

Lemma set_init_crash_ok e s own :
  dt_good e -> crash_ok s own -> crash_ok (__seq_set_init e s).2 own.
Proof.
  intros He Hck. pose proof (ck_server _ _ Hck) as Hok. unfold __seq_set_init.
  destruct (range_alloc_cut (lss_lowater_set s) (lss_space s) (lss_set_width s))
    as (lo & sp1 & -> & Hlo & Hsp1 & Ho1); [auto with lustre..|].
  destruct (range_alloc_cut (lss_hiwater_set s) sp1 (lss_set_width s))
    as (hi & sp2 & -> & Hhi & Hsp2 & Ho2); [auto with lustre..|].
  eapply update_crash_ok; [done..| | | | |done]; [by apply server_ok_ranges|done|done|].
  intros q. unfold server_owns. simpl. specialize (Ho1 q). specialize (Ho2 q). lia.
Qed.

Lemma skip_loset_crash_ok s own :
  crash_ok s own ->
  crash_ok (set_loset s (set_start (lss_lowater_set s) (lsr_end (lss_lowater_set s)))) own.
Proof.
  intros []. destruct (skip_loset_shrinks s ck_server0) as [Hok Ho].
  set (s1 := set_loset _ _) in *.
  assert (Hlo : forall q, owns (lss_lowater_set s1) q = 0%nat).
  { intros q. apply owns_exhausted; [by apply server_ok_loset|].
    pose proof (server_ok_loset s1 Hok) as [? ?]. by apply range_exhausted_sane. }
  split; try done.
  - intros q. specialize (ck_memory0 q). specialize (Ho q). lia.
  - intros q. rewrite Hlo. specialize (ck_disk0 q). simpl. unfold on_disk in *. simpl in *. lia.
  - intros q. rewrite Hlo. specialize (ck_written0 q). unfold written in *. simpl in *. lia.
  - intros Hs q. rewrite Hlo. specialize (ck_synced0 Hs q). unfold on_disk in *. simpl in *. lia.
Qed.

Lemma refill_crash_ok e s sz own :
  dt_good e -> crash_ok s own -> lu_seq_range_is_exhausted (lss_lowater_set s) = true -> 0 <= sz ->
  crash_ok
    (let s' := set_loset s (lss_hiwater_set s) in
     let '(hi, sp) := range_alloc (lss_hiwater_set s') (lss_space s') sz in
     seq_store_update e (set_hiset (set_space s' sp) hi) None (lss_need_sync s')).2 own.
Proof.
  intros He Hck Hx Hsz. pose proof (ck_server _ _ Hck) as Hok. cbv zeta.
  change (lss_hiwater_set (set_loset s (lss_hiwater_set s))) with (lss_hiwater_set s).
  change (lss_space (set_loset s (lss_hiwater_set s))) with (lss_space s).
  destruct (range_alloc_cut (lss_hiwater_set s) (lss_space s) sz)
    as (hi & sp & -> & Hhi & Hsp & Ho); [auto with lustre..|].
  eapply (update_crash_ok e s); [done..| | | | |].
  - apply (server_ok_ranges s sp (lss_hiwater_set s) hi); auto with lustre.
  - done.
  - done.
  - intros q. unfold server_owns. simpl. specialize (Ho q). lia.
  - simpl. intros Hns q. pose proof (ck_synced _ _ Hck Hns q). lia.
Qed.

Lemma take_crash_ok s own o lo :
  crash_ok s own -> range_ok lo ->
  (forall q, (owns o q + owns lo q = owns (lss_lowater_set s) q)%nat) ->
  crash_ok (set_loset s lo) (fun q => (owns o q + own q)%nat).
Proof.
  intros [] Hlo Ho. split; try done.
  - by destruct ck_server0 as (? & ? & ? & ? & ? & ?); split_and!.
  - intros q. specialize (ck_memory0 q). specialize (Ho q). unfold server_owns in *. simpl. lia.
  - intros q. specialize (ck_disk0 q). specialize (Ho q). unfold on_disk in *. simpl. lia.
  - intros q. specialize (ck_written0 q). specialize (Ho q). unfold written in *. simpl. lia.
  - intros Hs q. specialize (ck_synced0 Hs q). specialize (Ho q). unfold on_disk in *. simpl. lia.
Qed.

Lemma range_alloc_set_crash_ok e1 e2 fail n out s own rc out' s' :
  dt_good e1 -> dt_good e2 -> crash_ok s own -> range_wf out ->
  range_alloc_set e1 e2 fail n out s = Ret (rc, out', s') ->
  crash_ok s' (fun q => ((if (rc =? 0)%Z then owns out' q else 0) + own q)%nat).
Proof.
  intros He1 He2 Hck Hout. unfold range_alloc_set.
  match goal with |- context [if fail then ?a else ?b] => set (s2 := if fail then a else b) end.
  assert (Hck2 : crash_ok s2 own).
  { assert (H1 : crash_ok (if lu_seq_range_is_zero (lss_lowater_set s)
                           then (__seq_set_init e1 s).2 else s) own).
    { case_match; [by apply set_init_crash_ok|done]. }
    unfold s2. destruct fail; [by apply skip_loset_crash_ok|done]. }
  match goal with |- context [let '(rc, seq3) := ?x in _] =>
    assert (Hck3 : crash_ok x.2 own); [|destruct x as [rc3 s3]] end.
  { destruct (lu_seq_range_is_exhausted (lss_lowater_set s2)) eqn:Hx; [|done].
    apply refill_crash_ok; [done..|].
    pose proof (server_ok_set_width s2 (ck_server _ _ Hck2)).
    pose proof (u_nonneg 64 (lsr_end (lss_space s2) - lsr_start (lss_space s2))).
    unfold lu_seq_range_space. lia. }
  simpl in Hck3. pose proof (ck_server _ _ Hck3) as Hok3.
  rewrite (proj2 (server_ok_loset s3 Hok3)), orb_true_r. simpl.
  destruct (Z.eqb_spec rc3 0) as [->|Hrc].
  - destruct (range_alloc_cut out (lss_lowater_set s3) (lss_width s3))
      as (o & lo & -> & Ho & Hlo & Hcut); [auto with lustre..|].
    intros [= <- <- <-]. by apply take_crash_ok.
  - intros [= <- <- <-]. by rewrite (proj2 (Z.eqb_neq rc3 0) Hrc).
Qed.

(** A new super-sequence moves from the rest of the world into memory only. *)
Lemma super_crash_ok s cli sp own own' :
  crash_ok s own -> lu_seq_range_is_exhausted (lss_space s) = true -> range_ok sp ->
  range_wf (lcs_space cli) ->
  (forall q, (own' q + owns sp q <= own q)%nat) ->
  crash_ok (set_space (set_cli s (Some cli)) sp) own'.
Proof.
  intros [] Hx Hsp Hcli Ho.
  assert (Hx0 : forall q, owns (lss_space s) q = 0%nat).
  { intros q. apply owns_exhausted; [by apply server_ok_space|done]. }
  split; try done.
  - by destruct ck_server0 as (? & ? & ? & ? & ? & ?); split_and!.
  - intros q. specialize (ck_memory0 q). specialize (Ho q). unfold server_owns in *. simpl. lia.
  - intros q. specialize (ck_disk0 q). specialize (Ho q). unfold on_disk in *. simpl. lia.
  - intros q. specialize (ck_written0 q). specialize (Ho q). unfold written in *. simpl. lia.
  - intros Hs q. specialize (ck_synced0 Hs q). specialize (Ho q). unfold on_disk in *. simpl. lia.
Qed.

Lemma fld_insert_crash_ok rc s own : crash_ok s own -> crash_ok (fld_insert_entry rc s).2 own.
Proof. intros Hck. unfold fld_insert_entry. case_match; [|done]. by destruct Hck; split. Qed.

Lemma maybe_set_init_crash_ok e s own :
  dt_good e -> crash_ok s own ->
  crash_ok (if lu_seq_range_is_zero (lss_lowater_set s) then (__seq_set_init e s).2 else s) own.
Proof. intros. case_match; [by apply set_init_crash_ok|done]. Qed.

Lemma check_and_alloc_super_crash_ok {C} `{Supplier C} e fld_rc super s c own rc s' c' :
  dt_good e -> refill_spec super -> sup_ok c ->
  crash_ok s (fun q => (own q + sup_owns c q)%nat) ->
  seq_server_check_and_alloc_super e fld_rc super s c = Ret (rc, s', c') ->
  sup_ok c' /\ crash_ok s' (fun q => (own q + sup_owns c' q)%nat).
Proof.
  intros He Hsup Hc Hck. unfold seq_server_check_and_alloc_super.
  destruct (lu_seq_range_is_exhausted (lss_space s)) eqn:Hx.
  2:{ intros [= <- <- <-]. split; [done|]. by apply maybe_set_init_crash_ok. }
  destruct (lss_cli s) as [cli|] eqn:Hcli; [|by intros [= <- <- <-]].
  destruct (Hsup cli c) as (rc1 & sp & c1 & -> & Hc1 & Hwf & Hg);
    [done|eapply server_ok_cli_wf; [apply Hck|done]|]. simpl.
  destruct (Z.eqb_spec rc1 0) as [->|Hrc]; simpl.
  2:{ intros [= <- <- <-]. split; [done|].
      apply (crash_ok_weaken _ (fun q => (own q + sup_owns c q)%nat));
        [|intros q; pose proof (gives_le _ _ _ _ q Hg); simpl; lia].
      destruct Hck. split; try done. by apply server_ok_cli. }
  destruct Hg as [Hsp Ho]. specialize (Hsp eq_refl). rewrite (proj2 Hsp). simpl.
  assert (Hck2 : crash_ok (set_space (set_cli s (Some (set_lcs_space cli sp))) sp)
                          (fun q => (own q + sup_owns c1 q)%nat)).
  { eapply super_crash_ok; [done..|]. intros q. specialize (Ho q). simpl in *. lia. }
  match goal with |- context [let '(rc, seq3) := ?x in _] =>
    assert (Hck3 : crash_ok x.2 (fun q => (own q + sup_owns c1 q)%nat)); [|destruct x as [rc2 s3]] end.
  { destruct (lcs_srv cli); [done|by apply fld_insert_crash_ok]. }
  intros [= <- <- <-]. split; [done|]. by apply maybe_set_init_crash_ok.
Qed.

Lemma alloc_meta_crash_ok {C} `{Supplier C} me super s out c own rc out' s' c' :
  me_good me -> refill_spec super -> sup_ok c -> range_wf out ->
  crash_ok s (fun q => (own q + sup_owns c q)%nat) ->
  seq_server_alloc_meta me super s out c = Ret (rc, out', s', c') ->
  sup_ok c' /\ crash_ok s' (fun q => ((if (rc =? 0)%Z then owns out' q else 0)
                                      + (own q + sup_owns c' q))%nat).
Proof.
  intros (Hg1 & Hg2 & Hg3) Hsup Hc Hout Hck.
  unfold seq_server_alloc_meta, __seq_server_alloc_meta.
  rewrite (proj2 (server_ok_space s (ck_server _ _ Hck))). simpl.
  destruct (seq_server_check_and_alloc_super _ _ _ _ _) as [[[rc1 s1] c1]|] eqn:E; simpl; [|done].
  eapply check_and_alloc_super_crash_ok in E as [Hc1 Hck1]; [|done..].
  destruct (Z.ltb_spec rc1 0).
  { intros [= <- <- <- <-]. split; [done|]. by rewrite (proj2 (Z.eqb_neq rc1 0)) by lia. }
  destruct (range_alloc_set _ _ _ _ _ _) as [[[rc2 o] s2]|] eqn:E2; simpl; [|done].
  intros [= <- <- <- <-]. split; [done|].
  exact (range_alloc_set_crash_ok _ _ _ _ _ _ _ _ _ _ Hg2 Hg3 Hck1 Hout E2).
Qed.

Lemma set_cli_fresh s cli s' :
  seq_server_set_cli s (Some cli) = (0, s') -> server_ok s -> in_u32 (lss_node_id s) ->
  range_wf (lcs_space cli) ->
  exists cli', s' = set_cli s (Some cli') /\ range_wf (lcs_space cli').
Proof.
  intros Hs Hok Hn Hwf. unfold seq_server_set_cli in Hs. destruct (lss_cli s); [done|].
  injection Hs as <-. eexists. split; [done|]. destruct Hwf as (? & ? & ? & ?).
  unfold range_wf. by split_and!.
Qed.

(** The state after a restart: the range on disk, empty sets, and a store with
    nothing uncommitted but, when the object was empty, its first record. *)
Lemma restart_ranges e s s0 own :
  dt_good e -> crash_ok s own ->
  seq_server_init e 0 (if decide (sto_disk (lss_sto s) = None) then 0 else SIZEOF_LU_SEQ_RANGE)
    0 LUSTRE_SEQ_SERVER (lss_node_id s)
    (SeqStore (sto_disk (lss_sto s)) None (sto_fldb (lss_sto s))) = Ret (0, s0) ->
  crash_ok s0 own.
Proof.
  intros He Hck. pose proof Hck as [_ Hnode Hdisk _ _ Hd _ _]. unfold seq_server_init, seq_store_read.
  destruct (sto_disk (lss_sto s)) as [b|] eqn:Eb.
  - assert (Hon : on_disk s = record (Some b)) by (unfold on_disk; by rewrite Eb).
    rewrite Hon in *. simpl. intros Hrun.
    assert (range_ok (range_le_to_cpu b)) as Hb by done. rewrite (proj2 Hb) in Hrun. simpl in Hrun.
    injection Hrun as <-.
    assert (Ho : forall q, (owns (range_le_to_cpu b) q + own q <= 1)%nat).
    { intros q. specialize (Hd q). unfold record in Hd. simpl in Hd. lia. }
    split; try done; simpl.
    + intros q. unfold server_owns. simpl. rewrite owns_init. specialize (Ho q). lia.
    + intros q. rewrite owns_init. specialize (Ho q). unfold on_disk, record. simpl. lia.
    + intros q. rewrite owns_init. specialize (Ho q). unfold written, record. simpl. lia.
    + intros _ q. rewrite owns_init. specialize (Ho q). unfold on_disk, record. simpl. lia.
  - simpl. set (s1 := set_space _ _).
    assert (Hz : forall q, owns (lss_space s1) q = 0%nat)
      by (intros q; unfold owns, lu_seq_range_within; simpl; case_match; lia).
    assert (Ho : forall q, (own q <= 1)%nat) by (intros q; specialize (Hd q); lia).
    assert (Hck1 : crash_ok s1 own).
    { split; unfold on_disk, written; simpl; rewrite ?record_none; try done.
      all: intros; unfold server_owns; simpl; rewrite ?owns_init; pose proof (Ho q).
      1: pose proof (Hz q). all: simpl in *; lia. }
    pose proof (update_crash_ok e s1 s1 own None false) as Hu.
    destruct (seq_store_update e s1 None false) as [rc s2].
    intros Hrun. assert (s2 = s0) as <- by (simpl in Hrun; destruct (lu_seq_range_is_sane _);
      simpl in Hrun; congruence).
    apply Hu; try done. intros _. apply Hck1.
Qed.

Lemma commit_crash_ok s own : crash_ok s own -> crash_ok (commit s) own.
Proof.
  intros []. unfold commit, dt_trans_stop.
  split; unfold on_disk, written in *; simpl in *; try done.
  all: destruct (sto_dirty (lss_sto s)); simpl; try done.
  all: intros; specialize (ck_written0 q); lia.
Qed.

Definition crash_inv (st : crash_state) : Prop :=
  sup_ok (cs_ctl st)
  /\ crash_ok (cs_srv st) (fun q => (given_owns (cs_given st) q + sup_owns (cs_ctl st) q)%nat).

Lemma crash_step_inv st st' : crash_inv st -> crash_step st st' -> crash_inv st'.
Proof.
  intros [Hc Hck] Hs. destruct Hs as [s ctl given me super out rc out' s' ctl' Hme Hsup Hout Hrun
    |s ctl given|s ctl given Hd|s ctl given e cli s0 s1 He Hi Hcli Hset]; simpl in *.
  - eapply alloc_meta_crash_ok in Hrun as [Hc' Hck']; [|done..]. split; [done|]. simpl.
    eapply crash_ok_weaken; [done|]. intros q. case_match; unfold given_owns; simpl; lia.
  - split; [done|]. by apply commit_crash_ok.
  - split; [done|]. destruct Hck. split; try done.
    intros _ q. specialize (ck_written0 q). unfold written, on_disk in *. simpl. by rewrite Hd in *.
  - split; [done|]. simpl. eapply restart_ranges in Hi; [|done..].
    pose proof Hi as [Hok Hn _ _ _ _ _ _].
    apply set_cli_fresh in Hset as (cli' & -> & Hwf); [|done..].
    destruct Hi. split; try done. by apply server_ok_cli.
Qed.

(** A freshly formatted server and controller. *)
Inductive crash_init : crash_state -> Prop :=
  | crash_init_intro e node sto ctl cnode e2 sto2 s0 srv cli :
      in_u32 cnode -> in_u32 node -> dt_good e -> sto_disk sto = None -> sto_dirty sto = None ->
      seq_server_init e2 0 0 0 LUSTRE_SEQ_CONTROLLER cnode sto2 = Ret (0, ctl) ->
      seq_server_init e 0 0 0 LUSTRE_SEQ_SERVER node sto = Ret (0, s0) ->
      range_wf (lcs_space cli) ->
      seq_server_set_cli s0 (Some cli) = (0, srv) ->
      crash_init (CrashState srv ctl []).

Definition blank_server (node : Z) (sto : seq_store) : lu_server_seq :=
  ServerSeq lu_seq_range_init lu_seq_range_init lu_seq_range_init
            LUSTRE_SEQ_SERVER None 0 0 false node sto.

Lemma blank_crash_ok node sto own :
  in_u32 node -> sto_disk sto = None -> sto_dirty sto = None -> (forall q, (own q <= 1)%nat) ->
  crash_ok (blank_server node sto) own.
Proof.
  intros Hn Hd Hy Hle.
  split; unfold on_disk, written; simpl; rewrite ?Hd, ?Hy, ?record_none; try done;
    intros; specialize (Hle q); unfold server_owns; simpl; rewrite ?owns_init; lia.
Qed.

Lemma crash_init_inv st : crash_init st -> crash_inv st.
Proof.
  intros [e node sto ctl cnode e2 sto2 s0 srv cli Hcn Hn He Hsd Hsy Hc Hi Hwf Hset].
  destruct (seq_server_init_ranges _ _ _ _ _ Hcn Hc) as (Hok & _ & _ & Ho).
  split; [done|]. simpl.
  set (blank := blank_server node sto).
  assert (Hblank : crash_ok blank (fun q => (given_owns [] q + server_owns ctl q)%nat)).
  { apply blank_crash_ok; [done..|]. intros q. rewrite Ho. unfold given_owns, owns. simpl.
    case_match; lia. }
  apply (restart_ranges e blank s0) in Hblank; [|done|].
  - pose proof Hblank as [Hok0 Hn0 _ _ _ _ _ _].
    apply set_cli_fresh in Hset as (cli' & -> & Hwf'); [|done..].
    destruct Hblank. split; try done. by apply server_ok_cli.
  - simpl. rewrite Hsd. simpl. destruct sto as [d y f]. simpl in *. by subst.
Qed.

Lemma crash_steps_inv st st' : crash_inv st -> rtc crash_step st st' -> crash_inv st'.
Proof. intros Hi Hr. induction Hr as [|? ? ? Hs _ IH]; [done|]. by eapply IH, crash_step_inv. Qed.

(** C6: no sequence is handed out twice, across any number of crashes: from a
    freshly formatted server, however allocations, journal commits, commit
    callbacks and crashes interleave, the ranges returned by all successful
    [seq_server_alloc_meta] calls are pairwise disjoint, provided the storage
    layer accepts the updates. *)
Theorem crash_never_reallocates st0 st i j r1 r2 q :
  crash_init st0 -> rtc crash_step st0 st -> i <> j ->
  cs_given st !! i = Some r1 -> cs_given st !! j = Some r2 ->
  lu_seq_range_within r1 q = true -> lu_seq_range_within r2 q = true -> False.
Proof.
  intros Hi Hr Hne H1 H2 Hq1 Hq2. apply crash_init_inv in Hi.
  destruct (crash_steps_inv _ _ Hi Hr) as [_ Hck]. pose proof (ck_memory _ _ Hck q) as Hm. simpl in Hm.
  pose proof (sum_list_with_lookup2 (fun r => owns r q) _ _ _ _ _ Hne H1 H2) as H.
  simpl in H. unfold given_owns in Hm. unfold owns in H. rewrite Hq1, Hq2 in H.
  unfold owns in Hm. lia.
Qed.
End Crash.

(** ** A concrete run: two allocations around a crash *)

Module CrashRun.
Import Run.

Definition dead : lu_server_seq := blank_server 0 sto.
Definition alloc (s : lu_server_seq) (c : lu_server_seq) :
    Z * lu_seq_range * lu_server_seq * lu_server_seq :=
  match seq_server_alloc_meta me (srv_super (se NetOk)) s lu_seq_range_init c with
  | Ret x => x
  | LBUG => (- EIO, lu_seq_range_init, s, c)
  end.
Definition r1 : lu_seq_range := (alloc srv ctl).1.1.2.
Definition s1 : lu_server_seq := (alloc srv ctl).1.2.
Definition c1 : lu_server_seq := (alloc srv ctl).2.
Definition cli : lu_client_seq := seq_client_init false LUSTRE_SEQ_METADATA true.
Definition s2 : lu_server_seq :=
  match seq_server_init dt_ok 0 SIZEOF_LU_SEQ_RANGE 0 LUSTRE_SEQ_SERVER 0
          (SeqStore (sto_disk (lss_sto s1)) None (sto_fldb (lss_sto s1))) with
  | Ret (_, s) => (seq_server_set_cli s (Some cli)).2
  | LBUG => dead
  end.
Definition r2 : lu_seq_range := (alloc s2 c1).1.1.2.
Definition s3 : lu_server_seq := (alloc s2 c1).1.2.
Definition c3 : lu_server_seq := (alloc s2 c1).2.

Lemma good : me_good me.
Proof. by repeat split. Qed.

Lemma run : rtc crash_step (CrashState srv ctl []) (CrashState s3 c3 [r2; r1]).
Proof.
  assert (Hsup : refill_spec (srv_super (se NetOk))) by by apply srv_super_spec.
  eapply rtc_l; [|eapply rtc_l; [|eapply rtc_l; [|apply rtc_refl]]].
  - apply (crash_alloc srv ctl [] me (srv_super (se NetOk)) lu_seq_range_init 0 r1 s1 c1); [apply good|done|by repeat split|].
    by vm_compute.
  - eapply (crash_restart s1 c1 _ dt_ok cli _ s2); [by repeat split|by vm_compute|by repeat split|].
    by vm_compute.
  - apply (crash_alloc s2 c1 [r1] me (srv_super (se NetOk)) lu_seq_range_init 0 r2 s3 c3);
      [apply good|done|by repeat split|]. by vm_compute.
Qed.

Lemma crash_never_reallocates_witness :
  r1 = SeqRange 0x200000400 0x200000401 0 0 /\ r2 = SeqRange 0x200000bd0 0x200000bd1 0 0
  /\ (lu_seq_range_within r1 0x200000400 = true -> lu_seq_range_within r2 0x200000400 = true -> False).
Proof.
  split; [by vm_compute|]. split; [by vm_compute|].
  apply (crash_never_reallocates (CrashState srv ctl []) (CrashState s3 c3 [r2; r1]) 1%nat 0%nat).
  - eapply (crash_init_intro dt_ok 0 sto ctl 0 dt_ok sto _ srv cli);
      [by split|by split|by repeat split|done|done|by vm_compute|by vm_compute|by repeat split|].
    by vm_compute.
  - apply run.
  - done.
  - done.
  - done.
Defined.

(** A server that hands out its sets in one piece ([lss_width] is the set width);
    its third allocation meets a full device, the fourth succeeds, and then it
    crashes. *)
Definition dt_full : dt_env := DtEnv false (- ENOSPC) 0 0 0 0 0 true 0.
Definition wide : lu_server_seq :=
  (ldebugfs_server_fid_width_seq_write (seq_update_cb (commit srv)) 4
     (inr LUSTRE_SEQ_BATCH_WIDTH)).2.
Definition alloc_env (e : dt_env) (x : Z * lu_seq_range * lu_server_seq * lu_server_seq) :
    Z * lu_seq_range * lu_server_seq * lu_server_seq :=
  match seq_server_alloc_meta (MetaEnv e 0 e e false 1) (srv_super (se NetOk)) x.1.2
          lu_seq_range_init x.2 with
  | Ret y => y
  | LBUG => x
  end.
Definition a2 : Z * lu_seq_range * lu_server_seq * lu_server_seq :=
  alloc_env dt_ok (alloc_env dt_ok (0, lu_seq_range_init, wide, ctl)).
Definition a3 : Z * lu_seq_range * lu_server_seq * lu_server_seq := alloc_env dt_full a2.
Definition a4 : Z * lu_seq_range * lu_server_seq * lu_server_seq := alloc_env dt_ok a3.
Definition restarted : lu_server_seq :=
  match seq_server_init dt_ok 0 SIZEOF_LU_SEQ_RANGE 0 LUSTRE_SEQ_SERVER 0
          (SeqStore (sto_disk (lss_sto a4.1.2)) None (sto_fldb (lss_sto a4.1.2))) with
  | Ret (_, s) => (seq_server_set_cli s (Some cli)).2
  | LBUG => dead
  end.
Definition a5 : Z * lu_seq_range * lu_server_seq * lu_server_seq :=
  alloc_env dt_ok (0, lu_seq_range_init, restarted, a4.2).

(** the storage hypothesis of [crash_never_reallocates] is needed.  When one
    update of the store fails, [range_alloc_set] has already switched to the
    high-water set and the next request is served from it without a new update:
    in the run above the allocation after the restart returns a sequence that the
    allocation after the failed one had already returned. *)
Lemma failed_update_reallocates :
  a3.1.1.1 = - ENOSPC /\ a4.1.1.1 = 0 /\ a5.1.1.1 = 0
  /\ lu_seq_range_within a4.1.1.2 (lsr_start a5.1.1.2) = true.
Proof. by vm_compute. Qed.
End CrashRun.
