(* ===== verification/FldCache.v ===== *)
(** * The cache of the FID location database

    [lustre/fld/fld_cache.c]: a list of sequence ranges sorted by their start,
    each mapped to the index of a server, with insertion that splits, trims and
    merges ranges, and an LRU list that bounds the number of entries.

    The nodes of the list are records with an identity, which stands for their
    address; [fci_entries_head] is the list in order and [fci_lru] the identities
    in LRU order (most recently added first). *)

From S2P Require Import Prelude SeqRange.

(** ** Data *)

Record fld_cache_entry := FldEntry {
  fce_id : nat;
  fce_range : lu_seq_range
}.

Record fld_stats := FldStats {
  fst_count : Z;
  fst_cache : Z
}.

Record fld_cache := FldCache {
  fci_threshold : Z;
  fci_cache_size : Z;
  fci_cache_count : Z;
  fci_lru : list nat;
  fci_entries_head : list fld_cache_entry;
  fci_stat : fld_stats;
  fci_no_shrink : bool
}.

Definition set_fce_range (e : fld_cache_entry) (r : lu_seq_range) : fld_cache_entry :=
  FldEntry (fce_id e) r.

Definition with_entries (c : fld_cache) (l : list fld_cache_entry) : fld_cache :=
  FldCache (fci_threshold c) (fci_cache_size c) (fci_cache_count c) (fci_lru c) l
           (fci_stat c) (fci_no_shrink c).
Definition with_links (c : fld_cache) (lru : list nat) (count : Z) : fld_cache :=
  FldCache (fci_threshold c) (fci_cache_size c) count lru (fci_entries_head c)
           (fci_stat c) (fci_no_shrink c).

(** The LRU list and the counter, which every unlink updates. *)
Definition links : Type := list nat * Z.
Definition unlink (id : nat) (k : links) : links :=
  (base.filter (fun i => i <> id) k.1, k.2 - 1).

(** ** Operations *)

Definition fld_cache_init (cache_size cache_threshold : Z) : run fld_cache :=
  lassert (cache_threshold <? cache_size);
  Ret (FldCache cache_threshold cache_size 0 [] [] (FldStats 0 0) false).

Definition fld_cache_entry_delete (cache : fld_cache) (id : nat) : fld_cache :=
  let k := unlink id (fci_lru cache, fci_cache_count cache) in
  with_links (with_entries cache (base.filter (fun e => fce_id e <> id) (fci_entries_head cache)))
             k.1 k.2.

(** One walk over the list, from the entry [c] whose successors are [rest]: the
    list it leaves, and whether it asks for another walk. *)
Fixpoint fix_pass (c : fld_cache_entry) (rest : list fld_cache_entry) (k : links)
    : run (bool * list fld_cache_entry * links) :=
  let c_range := fce_range c in
  lassert (lu_seq_range_is_sane c_range);
  match rest with
  | [] => Ret (false, [c], k)
  | n :: rest' =>
      let n_range := fce_range n in
      let keep := '(again, l, k') ← fix_pass n rest' k; Ret (again, c :: l, k') in
      if negb (lsr_flags c_range =? lsr_flags n_range) then keep
      else
        lassert (lsr_start c_range <=? lsr_start n_range);
        if lsr_end c_range =? lsr_start n_range then
          if negb (lsr_index c_range =? lsr_index n_range) then keep
          else fix_pass (set_fce_range n (set_start n_range (lsr_start c_range))) rest'
                        (unlink (fce_id c) k)
        else if lsr_start n_range <? lsr_end c_range then
          if lsr_index c_range =? lsr_index n_range then
            let r := set_end (set_start n_range (lsr_start c_range))
                             (Z.max (lsr_end c_range) (lsr_end n_range)) in
            Ret (true, set_fce_range n r :: rest', unlink (fce_id c) k)
          else if lsr_end n_range <=? lsr_end c_range then
            Ret (true, set_fce_range n c_range :: rest', unlink (fce_id c) k)
          else
            Ret (true, c :: set_fce_range n (set_start n_range (lsr_end c_range)) :: rest', k)
        else if (lsr_start c_range =? lsr_start n_range) && (lsr_end c_range =? lsr_end n_range)
        then fix_pass n rest' (unlink (fce_id c) k)
        else keep
  end.

Fixpoint fix_loop (fuel : nat) (l : list fld_cache_entry) (k : links)
    : option (run (list fld_cache_entry * links)) :=
  match fuel with
  | O => None
  | S fuel =>
      match l with
      | [] => Some (Ret ([], k))
      | c :: rest =>
          match fix_pass c rest k with
          | LBUG => Some LBUG
          | Ret (true, l', k') => fix_loop fuel l' k'
          | Ret (false, l', k') => Some (Ret (l', k'))
          end
      end
  end.

(** Every restart but the last removes an entry, so two walks more than there are
    entries are enough ([fix_loop_spec]); a loop that needed more would be
    reported as [LBUG]. *)
Definition fld_fix_new_list (cache : fld_cache) : run fld_cache :=
  let l := fci_entries_head cache in
  '(l', k') ← default LBUG (fix_loop (length l + 2) l (fci_lru cache, fci_cache_count cache));
  Ret (with_links (with_entries cache l') k'.1 k'.2).

(** [pre] and [post] are the entries before and after the position. *)
Definition fld_cache_entry_add (cache : fld_cache) (f_new : fld_cache_entry)
    (pre post : list fld_cache_entry) : run fld_cache :=
  fld_fix_new_list
    (with_links (with_entries cache (pre ++ f_new :: post))
                (fce_id f_new :: fci_lru cache) (fci_cache_count cache + 1)).

(** [back] is the LRU list from its tail. *)
Fixpoint shrink_loop (back : list nat) (cache : fld_cache) : fld_cache :=
  match back with
  | [] => cache
  | id :: back' =>
      if fci_cache_size cache <? fci_cache_count cache + fci_threshold cache
      then shrink_loop back' (fld_cache_entry_delete cache id)
      else cache
  end.

Definition fld_cache_shrink (cache : fld_cache) : fld_cache :=
  if fci_cache_count cache <? fci_cache_size cache then cache
  else shrink_loop (reverse (fci_lru cache)) cache.

Definition fld_cache_flush (cache : fld_cache) : fld_cache :=
  fld_cache_shrink
    (FldCache (fci_threshold cache) 0 (fci_cache_count cache) (fci_lru cache)
              (fci_entries_head cache) (fci_stat cache) (fci_no_shrink cache)).

(** [fldt] is the identity of the new node, [None] when it cannot be allocated;
    its flags are those of zeroed memory.  [pre] and [post] surround [f_curr]. *)
Definition fld_cache_punch_hole (fldt : option nat) (cache : fld_cache)
    (pre : list fld_cache_entry) (f_curr : fld_cache_entry) (post : list fld_cache_entry)
    (f_new : fld_cache_entry) : run fld_cache :=
  let range := fce_range f_new in
  match fldt with
  | None => Ret cache
  | Some id =>
      let cr := fce_range f_curr in
      let t := FldEntry id (SeqRange (lsr_end range) (lsr_end cr) (lsr_index cr) 0) in
      let f_curr' := set_fce_range f_curr (set_end cr (lsr_start range)) in
      cache1 ← fld_cache_entry_add cache f_new (pre ++ [f_curr']) post;
      let l := fci_entries_head cache1 in
      (* the position after [f_new] in the list the first insertion left *)
      match list_find (fun e => fce_id e = fce_id f_new) l with
      | Some (i, _) => fld_cache_entry_add cache1 t (take (S i) l) (drop (S i) l)
      | None => LBUG
      end
  end.

Definition fld_cache_overlap_handle (fldt : option nat) (cache : fld_cache)
    (pre : list fld_cache_entry) (f_curr : fld_cache_entry) (post : list fld_cache_entry)
    (f_new : fld_cache_entry) : run fld_cache :=
  let range := fce_range f_new in
  let new_start := lsr_start range in
  let new_end := lsr_end range in
  let mdt := lsr_index range in
  let cr := fce_range f_curr in
  if lsr_index cr =? mdt then
    let cr' := set_end (set_start cr (Z.min (lsr_start cr) new_start))
                       (Z.max (lsr_end cr) new_end) in
    fld_fix_new_list (with_entries cache (pre ++ set_fce_range f_curr cr' :: post))
  else if (new_start <=? lsr_start cr) && (lsr_end cr <=? new_end) then
    fld_fix_new_list (with_entries cache (pre ++ set_fce_range f_curr range :: post))
  else if (lsr_start cr <? new_start) && (new_end <? lsr_end cr) then
    fld_cache_punch_hole fldt cache pre f_curr post f_new
  else if new_end <=? lsr_end cr then
    lassert (new_start <=? lsr_start cr);
    fld_cache_entry_add cache f_new pre (set_fce_range f_curr (set_start cr new_end) :: post)
  else if lsr_start cr <=? new_start then
    lassert (lsr_end cr <=? new_end);
    fld_cache_entry_add cache f_new (pre ++ [set_fce_range f_curr (set_end cr new_start)]) post
  else Ret cache.

(** [id] is the identity of the new node, [None] when it cannot be allocated. *)
Definition fld_cache_entry_create (id : option nat) (range : lu_seq_range)
    : run (Z + fld_cache_entry) :=
  lassert (lu_seq_range_is_sane range);
  match id with
  | None => Ret (inl (- ENOMEM))
  | Some id => Ret (inr (FldEntry id range))
  end.

(** The walk of the insertion; [pre] holds the entries already passed. *)
Fixpoint insert_loop (fldt : option nat) (cache : fld_cache) (f_new : fld_cache_entry)
    (pre l : list fld_cache_entry) : run fld_cache :=
  match l with
  | [] => fld_cache_entry_add cache f_new pre []
  | f_curr :: post =>
      let new := fce_range f_new in
      let cr := fce_range f_curr in
      if (lsr_end new <? lsr_start cr)
         || ((lsr_end new =? lsr_start cr) && negb (lsr_flags new =? lsr_flags cr))
      then fld_cache_entry_add cache f_new pre (f_curr :: post)
      else if (lsr_start new <? lsr_end cr) && (lsr_flags new =? lsr_flags cr)
      then fld_cache_overlap_handle fldt cache pre f_curr post f_new
      else insert_loop fldt cache f_new (pre ++ [f_curr]) post
  end.

Definition fld_cache_insert_nolock (fldt : option nat) (cache : fld_cache)
    (f_new : fld_cache_entry) : run (Z * fld_cache) :=
  let cache1 := if negb (fci_no_shrink cache) then fld_cache_shrink cache else cache in
  cache2 ← insert_loop fldt cache1 f_new [] (fci_entries_head cache1);
  Ret (0, cache2).

Definition fld_cache_insert (id fldt : option nat) (cache : fld_cache) (range : lu_seq_range)
    : run (Z * fld_cache) :=
  flde ← fld_cache_entry_create id range;
  match flde with
  | inl rc => Ret (rc, cache)
  | inr f_new => fld_cache_insert_nolock fldt cache f_new
  end.

Definition entry_matches (range : lu_seq_range) (e : fld_cache_entry) : bool :=
  (lsr_start range =? lsr_start (fce_range e))
  || ((lsr_end range =? lsr_end (fce_range e)) && (lsr_flags range =? lsr_flags (fce_range e))).

Definition fld_cache_entry_lookup_nolock (cache : fld_cache) (range : lu_seq_range)
    : option fld_cache_entry :=
  snd <$> list_find (fun e => entry_matches range e = true) (fci_entries_head cache).

Definition fld_cache_entry_lookup (cache : fld_cache) (range : lu_seq_range)
    : option fld_cache_entry := fld_cache_entry_lookup_nolock cache range.

Definition fld_cache_delete_nolock (cache : fld_cache) (range : lu_seq_range) : fld_cache :=
  match fld_cache_entry_lookup_nolock cache range with
  | Some e => fld_cache_entry_delete cache (fce_id e)
  | None => cache
  end.

Definition fld_cache_delete (cache : fld_cache) (range : lu_seq_range) : fld_cache :=
  fld_cache_delete_nolock cache range.

(** The walk of the lookup: the return code, the value of [*range] and whether
    the cache was hit. *)
Fixpoint lookup_loop (seq : Z) (prev : option fld_cache_entry) (range : lu_seq_range)
    (l : list fld_cache_entry) : Z * lu_seq_range * bool :=
  match l with
  | [] => (- ENOENT, range, false)
  | flde :: l' =>
      if seq <? lsr_start (fce_range flde) then
        (- ENOENT, match prev with Some p => fce_range p | None => range end, false)
      else if lu_seq_range_within (fce_range flde) seq then (0, fce_range flde, true)
      else lookup_loop seq (Some flde) range l'
  end.

Definition fld_cache_lookup (cache : fld_cache) (seq : Z) (range : lu_seq_range)
    : Z * lu_seq_range * fld_cache :=
  let st := fci_stat cache in
  let '(rc, range', hit) := lookup_loop seq None range (fci_entries_head cache) in
  let st' := FldStats (u64 (fst_count st + 1))
                      (if hit then u64 (fst_cache st + 1) else fst_cache st) in
  (rc, range', FldCache (fci_threshold cache) (fci_cache_size cache) (fci_cache_count cache)
                 (fci_lru cache) (fci_entries_head cache) st' (fci_no_shrink cache)).

Definition fld_cache_fini (cache : fld_cache) : fld_cache := fld_cache_flush cache.

(** ** What a list of entries means *)

Abbreviation est e := (lsr_start (fce_range e)).
Abbreviation een e := (lsr_end (fce_range e)).
Abbreviation eix e := (lsr_index (fce_range e)).

(** The server of a sequence: the first entry that holds it wins. *)
Fixpoint location (l : list fld_cache_entry) (s : Z) : option Z :=
  match l with
  | [] => None
  | e :: l' => if lu_seq_range_within (fce_range e) s then Some (eix e) else location l' s
  end.

(** A non-empty range with the flags [LU_SEQ_RANGE_MDT] of zeroed memory. The theorems are
    about a cache of the sequences of metadata servers; with other flags the tail of a
    split entry gets the wrong ones (see [punch_hole_drops_flags]). *)
Definition entry_ok (e : fld_cache_entry) : Prop :=
  est e < een e /\ lsr_flags (fce_range e) = LU_SEQ_RANGE_MDT.

(** Three shapes of the list that starts with [c]: in the normal form no two
    entries overlap and neighbours that could be merged have been; [disj] only
    asks for disjoint entries; in a [near] list one entry may reach into those
    that follow it. *)
Fixpoint norm (c : fld_cache_entry) (rest : list fld_cache_entry) : Prop :=
  entry_ok c /\
  match rest with
  | [] => True
  | n :: rest' => (een c < est n \/ een c = est n /\ eix c <> eix n) /\ norm n rest'
  end.

Fixpoint disj (c : fld_cache_entry) (rest : list fld_cache_entry) : Prop :=
  entry_ok c /\ match rest with [] => True | n :: rest' => een c <= est n /\ disj n rest' end.

Fixpoint near (c : fld_cache_entry) (rest : list fld_cache_entry) : Prop :=
  entry_ok c /\
  match rest with
  | [] => True
  | n :: rest' => een c <= est n /\ near n rest' \/ est c <= est n /\ disj n rest'
  end.

Definition norm_list (l : list fld_cache_entry) : Prop :=
  match l with [] => True | c :: rest => norm c rest end.

Definition ids (l : list fld_cache_entry) : list nat := fce_id <$> l.

(** The LRU list holds the nodes [P ++ ids l], each once, and the counter counts
    them. *)
Definition links_ok (P : list nat) (l : list fld_cache_entry) (k : links) : Prop :=
  k.1 ≡ₚ P ++ ids l /\ NoDup (P ++ ids l) /\ k.2 = Z.of_nat (length (P ++ ids l)).

Definition cache_ok (c : fld_cache) : Prop :=
  norm_list (fci_entries_head c)
  /\ links_ok [] (fci_entries_head c) (fci_lru c, fci_cache_count c).

(** ** Lemmas on the links *)

Lemma unlink_ok P e l k : links_ok P (e :: l) k -> links_ok P l (unlink (fce_id e) k).
Proof.
  intros (Hp & Hnd & Hc). unfold links_ok, unlink. cbn [fst snd].
  change (ids (e :: l)) with (fce_id e :: ids l) in *.
  rewrite (filter_Permutation _ _ _ Hp), filter_ne_middle by done. split_and!; [done| |].
  - apply list.NoDup_app in Hnd as (H1 & H2 & H3). inversion H3; subst.
    apply list.NoDup_app. split_and!; [done| |done]. intros x Hx Hl. apply (H2 x Hx). by right.
  - rewrite Hc, !length_app. cbn [length]. lia.
Qed.

(** Only the identities matter. *)
Lemma links_ok_ids P l l' k : ids l = ids l' -> links_ok P l k -> links_ok P l' k.
Proof. unfold links_ok. by intros ->. Qed.

Lemma links_ok_cons P e l k : links_ok P (e :: l) k <-> links_ok (P ++ [fce_id e]) l k.
Proof.
  unfold links_ok. change (ids (e :: l)) with ([fce_id e] ++ ids l). by rewrite app_assoc.
Qed.

(** ** Lemmas on the shapes *)

Lemma norm_disj c rest : norm c rest -> disj c rest.
Proof.
  revert c. induction rest as [|n rest IH]; intros c [Hc Hr]; split; try done.
  destruct Hr as [? ?]. split; [lia|]. by apply IH.
Qed.

Lemma disj_near c rest : disj c rest -> near c rest.
Proof.
  revert c. induction rest as [|n rest IH]; intros c [Hc Hr]; split; try done.
  destruct Hr as [? ?]. left. split; [lia|]. by apply IH.
Qed.

(** The head can be replaced by an entry that ends where it did, or earlier. *)
Lemma disj_head c c' rest : disj c rest -> entry_ok c' -> een c' <= een c -> disj c' rest.
Proof.
  intros Hd Hc He. destruct rest as [|n rest]; split; try done.
  destruct Hd as [_ [? ?]]. split; [lia|done].
Qed.

(** Any entry may be put in front of entries it starts before. *)
Lemma near_cons c n rest : entry_ok c -> est c <= est n -> disj n rest -> near c (n :: rest).
Proof. intros. split; [done|]. right. done. Qed.

Lemma near_head c c' rest :
  near c rest -> entry_ok c' -> est c' <= est c -> een c' = een c -> near c' rest.
Proof.
  intros Hn Hc Hs He. destruct rest as [|n rest]; split; try done.
  destruct Hn as [_ [[? ?]|[? ?]]]; [left|right]; split; try done; lia.
Qed.

Lemma near_ok c rest : near c rest -> entry_ok c.
Proof. destruct rest; by intros [? _]. Qed.
Lemma disj_ok c rest : disj c rest -> entry_ok c.
Proof. destruct rest; by intros [? _]. Qed.

(** The links of a list whose first entry was merged into the second. *)
Lemma unlink_merge P c n r rest k :
  links_ok P (c :: n :: rest) k ->
  links_ok P (set_fce_range n r :: rest) (unlink (fce_id c) k).
Proof. intros Hk. by apply (links_ok_ids P (n :: rest)), unlink_ok. Qed.

(** What one walk promises. *)
Definition pass_post (P : list nat) (c : fld_cache_entry) (rest : list fld_cache_entry)
    (again : bool) (h : fld_cache_entry) (t : list fld_cache_entry) (k : links) : Prop :=
  est h = est c /\ eix h = eix c /\ links_ok P (h :: t) k
  /\ (forall s, location (h :: t) s = location (c :: rest) s)
  /\ if again
     then near h t /\ ((length t < length rest)%nat \/ disj h t) /\ ~ disj c rest
     else norm h t.

(** Keeping [c] in front of what a walk from [n] leaves. *)
Lemma pass_post_keep P c n rest again h t k :
  entry_ok c -> een c < est n \/ een c = est n /\ eix c <> eix n ->
  pass_post (P ++ [fce_id c]) n rest again h t k ->
  pass_post P c (n :: rest) again c (h :: t) k.
Proof.
  intros Hc Hg (Hs & Hi & Hk & Hl & Hshape). split_and!; [done..| | |].
  - by apply links_ok_cons.
  - intros s. simpl. specialize (Hl s). simpl in Hl. by rewrite Hl.
  - destruct again.
    + destruct Hshape as (Hn & Hd & Hnd). split_and!.
      * split; [done|]. left. split; [lia|done].
      * simpl. destruct Hd as [?|?]; [left; lia|right]. split; [done|]. split; [lia|done].
      * by intros (_ & _ & ?).
    + split; [done|]. split; [|done]. rewrite Hs, Hi. done.
Qed.

Lemma within_iff r s b :
  lu_seq_range_within r s = b -> if b then lsr_start r <= s < lsr_end r
                                 else ~ (lsr_start r <= s < lsr_end r).
Proof. intros <-. unfold lu_seq_range_within. case_match; lia. Qed.

(** Proves that two lists of entries give every sequence the same server. *)
Ltac solve_location :=
  intros; simpl in *;
  repeat match goal with
  | |- context [lu_seq_range_within ?r ?s] =>
      let E := fresh "E" in destruct (lu_seq_range_within r s) eqn:E;
      apply within_iff in E; simpl in E
  end; try (exfalso; lia); congruence.

Lemma near_tail c n rest : near c (n :: rest) -> near n rest.
Proof. intros [_ [[_ ?]|[_ ?]]]; [done|by apply disj_near]. Qed.

(** Two touching neighbours of one server, merged. *)
Lemma merge_near c n rest :
  near c (n :: rest) -> een c = est n ->
  near (set_fce_range n (set_start (fce_range n) (est c))) rest.
Proof.
  intros Hnear He. pose proof (near_tail _ _ _ Hnear) as Hn.
  pose proof (near_ok _ _ Hn) as [? ?]. destruct Hnear as [[? ?] _].
  eapply near_head; [exact Hn|split; simpl; [lia|done]|simpl; lia|done].
Qed.

(** The three ways to resolve an overlap. *)
Lemma overlap_disj c n rest : near c (n :: rest) -> est n < een c -> disj n rest.
Proof. intros [_ [[? _]|[_ ?]]] ?; [lia|done]. Qed.

Lemma join_near c n rest :
  near c (n :: rest) -> est n < een c ->
  near (set_fce_range n (set_end (set_start (fce_range n) (est c)) (Z.max (een c) (een n)))) rest.
Proof.
  intros Hnear Ho. pose proof (overlap_disj _ _ _ Hnear Ho) as Hd.
  pose proof (disj_ok _ _ Hd) as [? ?]. destruct Hnear as [[? ?] Hsh].
  assert (est c <= est n) by (destruct Hsh as [[? _]|[? _]]; lia).
  assert (Hok : entry_ok (set_fce_range n
    (set_end (set_start (fce_range n) (est c)) (Z.max (een c) (een n))))) by (split; simpl; [lia|done]).
  destruct rest as [|m rest]; [by split|]. destruct Hd as [_ [? ?]].
  apply near_cons; [done|simpl; lia|done].
Qed.

Lemma cover_near c n rest :
  near c (n :: rest) -> est n < een c -> near (set_fce_range n (fce_range c)) rest.
Proof.
  intros Hnear Ho. pose proof (overlap_disj _ _ _ Hnear Ho) as Hd.
  pose proof (disj_ok _ _ Hd) as [? ?]. destruct Hnear as [Hc Hsh].
  assert (est c <= est n) by (destruct Hsh as [[? _]|[? _]]; lia).
  destruct rest as [|m rest]; [by split|]. destruct Hd as [_ [? ?]].
  apply near_cons; [done|simpl; lia|done].
Qed.

Lemma trim_disj c n rest :
  near c (n :: rest) -> est n < een c -> een c < een n ->
  disj c (set_fce_range n (set_start (fce_range n) (een c)) :: rest).
Proof.
  intros Hnear Ho He. pose proof (overlap_disj _ _ _ Hnear Ho) as Hd.
  pose proof (disj_ok _ _ Hd) as [? ?]. destruct Hnear as [Hc _].
  split; [done|]. split; [simpl; lia|]. eapply disj_head; [done|by split|simpl; lia].
Qed.

Lemma fix_pass_spec P c rest k :
  near c rest -> links_ok P (c :: rest) k ->
  exists again h t k', fix_pass c rest k = Ret (again, h :: t, k')
    /\ pass_post P c rest again h t k'.
Proof.
  revert P c k. induction rest as [|n rest IH]; intros P c k Hnear Hk.
  { destruct Hnear as [[Hc Hf] _]. simpl. unfold lu_seq_range_is_sane.
    rewrite (proj2 (Z.leb_le _ _)) by lia. simpl. eexists _, _, _, _. split; [done|].
    by split_and!. }
  pose proof (near_tail _ _ _ Hnear) as Hnt. pose proof (near_ok _ _ Hnt) as Hn.
  pose proof Hnear as [Hc Hsh]. pose proof Hc as [Hce Hcf]. pose proof Hn as [Hne Hnf].
  assert (Hst : est c <= est n) by (destruct Hsh as [[? _]|[? _]]; lia).
  assert (Hkeep : een c < est n \/ een c = est n /\ eix c <> eix n ->
    exists again h t k', ('(again, l, k') ← fix_pass n rest k; Ret (again, c :: l, k'))
                         = Ret (again, h :: t, k')
      /\ pass_post P c (n :: rest) again h t k').
  { intros Hg. destruct (IH (P ++ [fce_id c]) n k Hnt) as (again & h & t & k' & -> & Hpost).
    { by apply (proj1 (links_ok_cons P c (n :: rest) k)). }
    simpl. eexists _, _, _, _. split; [done|]. by eapply pass_post_keep. }
  cbn [fix_pass]. unfold lu_seq_range_is_sane. rewrite (proj2 (Z.leb_le _ _)) by lia.
  unfold LASSERT at 1. rewrite Hcf, Hnf. change (negb (_ =? _)) with false at 1.
  cbv iota. rewrite (proj2 (Z.leb_le _ _)) by lia. unfold LASSERT at 1. cbv iota.
  destruct (Z.eqb_spec (een c) (est n)) as [Het|Het].
  { destruct (Z.eqb_spec (eix c) (eix n)) as [Hix|Hix]; [|by apply Hkeep; right].
    cbv iota. cbn [negb].
    destruct (IH P (set_fce_range n (set_start (fce_range n) (est c))) (unlink (fce_id c) k))
      as (again & h & t & k' & -> & (H1 & H2 & H3 & H4 & H5)).
    { by apply merge_near. }
    { by apply unlink_merge. }
    eexists _, _, _, _. split; [done|]. split_and!; [done|by rewrite H2|done| |].
    - intros s. rewrite H4. solve_location.
    - destruct again; [|done]. destruct H5 as (? & Hd & Hnd). split_and!; [done| |].
      + destruct Hd; [left; simpl; lia|by right].
      + intros (_ & _ & Hdn). apply Hnd. eapply disj_head; [exact Hdn| |done].
        by eapply near_ok, merge_near. }
  destruct (Z.ltb_spec (est n) (een c)) as [Ho|Ho].
  2:{ destruct (Z.eqb_spec (est c) (est n)); [lia|]. cbn [andb]. apply Hkeep. left. lia. }
  destruct (Z.eqb_spec (eix c) (eix n)) as [Hix|Hix];
    [|destruct (Z.leb_spec (een n) (een c)) as [Hcv|Hcv]]; eexists _, _, _, _; (split; [done|]);
    split_and!; try done; try (by intros (_ & ? & _); lia); try solve_location.
  - by apply unlink_merge.
  - by apply join_near.
  - left. simpl. lia.
  - by apply unlink_merge.
  - by apply cover_near.
  - left. simpl. lia.
  - by apply disj_near, trim_disj.
  - right. by apply trim_disj.
Qed.

Definition near_list (l : list fld_cache_entry) : Prop :=
  match l with [] => True | c :: rest => near c rest end.

(** The walks end: one suffices for disjoint entries, and every restart removes an
    entry or leaves disjoint ones. *)
Lemma fix_loop_spec fuel l k :
  near_list l -> links_ok [] l k ->
  match l with
  | [] => (1 <= fuel)%nat
  | c :: rest => (length rest + 2 <= fuel)%nat \/ disj c rest /\ (1 <= fuel)%nat
  end ->
  exists l' k', fix_loop fuel l k = Some (Ret (l', k')) /\ norm_list l' /\ links_ok [] l' k'
    /\ forall s, location l' s = location l s.
Proof.
  revert l k. induction fuel as [|fuel IH]; intros l k Hn Hk Hf.
  { destruct l; simpl in Hf; lia. }
  destruct l as [|c rest]; [by eexists _, _|].
  destruct (fix_pass_spec [] c rest k Hn Hk) as (again & h & t & k' & Hrun & (_ & _ & Hk' & Hl & Hsh)).
  cbn [fix_loop]. rewrite Hrun. destruct again; [|by eexists _, _].
  destruct Hsh as (Hnear & Hlt & Hnd).
  destruct (IH (h :: t) k') as (l' & k'' & Hr & ? & ? & Hl'); [done..| |].
  - destruct Hf as [Hf|[? _]]; [|done]. destruct Hlt as [?|?]; [left|right]; [|split; [done|]]; lia.
  - exists l', k''. split_and!; try done. intros s. by rewrite Hl'.
Qed.

Lemma fld_fix_new_list_spec cache :
  near_list (fci_entries_head cache) ->
  links_ok [] (fci_entries_head cache) (fci_lru cache, fci_cache_count cache) ->
  exists l' k', fld_fix_new_list cache = Ret (with_links (with_entries cache l') k'.1 k'.2)
    /\ norm_list l' /\ links_ok [] l' k'
    /\ forall s, location l' s = location (fci_entries_head cache) s.
Proof.
  intros Hn Hk. unfold fld_fix_new_list.
  destruct (fix_loop_spec (length (fci_entries_head cache) + 2) _ _ Hn Hk)
    as (l' & k' & -> & ?); [|by exists l', k'].
  destruct (fci_entries_head cache); simpl; lia.
Qed.

(** A list in normal form is left alone. *)
Lemma fix_pass_norm c rest k : norm c rest -> fix_pass c rest k = Ret (false, c :: rest, k).
Proof.
  revert c. induction rest as [|n rest IH]; intros c [[Hc Hf] Hr].
  { simpl. unfold lu_seq_range_is_sane. by rewrite (proj2 (Z.leb_le _ _)) by lia. }
  destruct Hr as [Hg Hn]. assert (Hok : entry_ok n) by (destruct rest; by destruct Hn).
  destruct Hok as [? Hfn]. cbn [fix_pass]. unfold lu_seq_range_is_sane.
  rewrite (proj2 (Z.leb_le _ _)) by lia. rewrite (IH n Hn), Hf, Hfn. simpl.
  rewrite (proj2 (Z.leb_le _ _)) by lia. simpl.
  destruct (Z.eqb_spec (een c) (est n)).
  - destruct (Z.eqb_spec (eix c) (eix n)); [lia|done].
  - rewrite (proj2 (Z.ltb_ge _ _)) by lia. destruct (Z.eqb_spec (est c) (est n)); [lia|done].
Qed.

Lemma with_links_id cache :
  with_links (with_entries cache (fci_entries_head cache)) (fci_lru cache) (fci_cache_count cache)
  = cache.
Proof. by destruct cache. Qed.

Lemma fld_fix_new_list_norm cache :
  norm_list (fci_entries_head cache) -> fld_fix_new_list cache = Ret cache.
Proof.
  intros Hn. unfold fld_fix_new_list. destruct (fci_entries_head cache) as [|c rest] eqn:E.
  - simpl. rewrite <-E. by rewrite with_links_id.
  - rewrite Nat.add_comm. cbn [fix_loop Nat.add]. rewrite fix_pass_norm by done. simpl.
    rewrite <-E. by rewrite with_links_id.
Qed.

(** ** Insertion *)

Lemma location_app l1 l2 s :
  location (l1 ++ l2) s
  = match location l1 s with Some i => Some i | None => location l2 s end.
Proof. induction l1 as [|e l1 IH]; simpl; [done|]. rewrite IH. by destruct (lu_seq_range_within _ _). Qed.

Lemma norm_ok c rest : norm c rest -> entry_ok c.
Proof. destruct rest; by intros [? _]. Qed.

Lemma norm_list_cons c l : norm_list (c :: l) -> norm_list l.
Proof. destruct l; [done|]. by intros (_ & _ & ?). Qed.

Lemma norm_list_app_r pre l : norm_list (pre ++ l) -> norm_list l.
Proof. induction pre as [|a pre IH]; [done|]. intros H. by apply IH, (norm_list_cons a). Qed.

(** The entries already passed by the walk of the insertion. *)
Definition passed (lo : Z) (pre : list fld_cache_entry) : Prop :=
  Forall (fun e => een e <= lo) pre.

Lemma location_passed lo pre s : passed lo pre -> lo <= s -> location pre s = None.
Proof.
  intros Hp Hs. induction Hp as [|e pre He _ IH]; simpl; [done|].
  destruct (lu_seq_range_within (fce_range e) s) eqn:E; [|done].
  apply within_iff in E. lia.
Qed.

(** Replacing what follows the passed entries. *)
Lemma near_app pre l h t lo :
  norm_list (pre ++ l) -> passed lo pre -> near h t -> lo <= est h -> near_list (pre ++ h :: t).
Proof.
  intros Hn Hp Hht Hlo. induction pre as [|a pre IH]; [done|].
  inversion Hp as [|? ? Ha Hp']; subst.
  pose proof (norm_ok _ _ Hn) as Hok.
  specialize (IH (norm_list_cons _ _ Hn) Hp').
  destruct pre as [|b pre]; simpl in *; split; try done; left; (split; [|done]); [lia|].
  destruct Hn as (_ & Hg & _). lia.
Qed.

Lemma norm_app pre l h t :
  norm_list (pre ++ l) -> norm h t ->
  match last pre with
  | Some a => een a < est h \/ een a = est h /\ eix a <> eix h
  | None => True
  end -> norm_list (pre ++ h :: t).
Proof.
  intros Hn Hht Hg. induction pre as [|a pre IH]; [done|].
  pose proof (norm_ok _ _ Hn) as Hok.
  specialize (IH (norm_list_cons _ _ Hn)).
  destruct pre as [|b pre]; [by split|]. simpl in *. destruct Hn as (_ & Hg' & _).
  split; [done|]. split; [done|]. by apply IH.
Qed.

(** The map from sequences to servers after an insertion. *)
Definition inserted (range : lu_seq_range) (l l' : list fld_cache_entry) : Prop :=
  forall s, location l' s = if lu_seq_range_within range s then Some (lsr_index range)
                            else location l s.

Lemma inserted_app range pre l l' :
  passed (lsr_start range) pre -> inserted range l l' -> inserted range (pre ++ l) (pre ++ l').
Proof.
  intros Hp Hi s. rewrite !location_app, (Hi s).
  destruct (lu_seq_range_within range s) eqn:E; [|done].
  apply within_iff in E. by rewrite (location_passed (lsr_start range)) by (done || lia).
Qed.

(** [cache_ok] of a cache and its links, the form the fix-up works on. *)
Definition insert_post (cache : fld_cache) (range : lu_seq_range) (r : run fld_cache) : Prop :=
  exists l' k', r = Ret (with_links (with_entries cache l') k'.1 k'.2)
    /\ norm_list l' /\ links_ok [] l' k' /\ inserted range (fci_entries_head cache) l'.

(** The fix-up after a change of the tail of the list. *)
Lemma fixup_post cache range pre l h t lru count :
  fci_entries_head cache = pre ++ l -> norm_list (pre ++ l) ->
  passed (lsr_start range) pre -> passed (est h) pre -> near h t -> inserted range l (h :: t) ->
  links_ok [] (pre ++ h :: t) (lru, count) ->
  insert_post cache range
    (fld_fix_new_list (with_links (with_entries cache (pre ++ h :: t)) lru count)).
Proof.
  intros He Hn Hp Hp2 Hht Hi Hk.
  destruct (fld_fix_new_list_spec (with_links (with_entries cache (pre ++ h :: t)) lru count))
    as (l' & k' & Hr & Hn' & Hk' & Hl); [by eapply near_app|done|].
  exists l', k'. split_and!; [by rewrite Hr|done..|].
  intros s. rewrite (Hl s), He. simpl. by apply inserted_app.
Qed.

Lemma passed_before pre c post : norm_list (pre ++ c :: post) -> passed (est c) pre.
Proof.
  induction pre as [|a pre IH]; intros Hn; constructor.
  - destruct pre as [|b pre]; simpl in Hn.
    + destruct Hn as (_ & Hg & _). lia.
    + destruct Hn as (_ & Hg & Hb'). pose proof (IH Hb') as Hp. inversion Hp as [|? ? Hb _]; subst.
      destruct (norm_ok _ _ Hb') as [? _]. lia.
  - by apply IH, (norm_list_cons a).
Qed.

Lemma passed_min lo1 lo2 pre : passed lo1 pre -> passed lo2 pre -> passed (Z.min lo1 lo2) pre.
Proof. intros H1 H2. induction H1; inversion H2; subst; constructor; [lia|by apply IHForall]. Qed.

Lemma links_ok_replace pre c c' post k :
  fce_id c' = fce_id c -> links_ok [] (pre ++ c :: post) k -> links_ok [] (pre ++ c' :: post) k.
Proof.
  intros Hid. apply links_ok_ids. unfold ids. rewrite !fmap_app. simpl. by rewrite Hid.
Qed.

Lemma links_ok_add pre e post lru count :
  links_ok [] (pre ++ post) (lru, count) -> fce_id e ∉ lru ->
  links_ok [] (pre ++ e :: post) (fce_id e :: lru, count + 1).
Proof.
  unfold links_ok, ids. intros (Hp & Hnd & Hc) Hf. cbn [fst snd app] in *.
  rewrite fmap_app in *. rewrite fmap_cons.
  assert (Hf' : fce_id e ∉ (fce_id <$> pre) ++ (fce_id <$> post)) by by rewrite <-Hp.
  split_and!.
  - rewrite Hp. apply Permutation_middle.
  - rewrite <-Permutation_middle. by constructor.
  - rewrite Hc, !length_app. cbn [length]. lia.
Qed.

(** An entry that starts before the end of [c] may reach into what follows it. *)
Lemma reach_near c post e : norm c post -> entry_ok e -> est e < een c -> near e post.
Proof.
  intros Hn He Hs. destruct post as [|n rest]; [by split|]. destruct Hn as (_ & Hg & Hn).
  apply near_cons; [done|lia|by apply norm_disj].
Qed.

(** The tail of the list when the new range touches or overlaps its first entry. *)
Section Overlap.
Context (c f_new : fld_cache_entry) (post : list fld_cache_entry).
Hypothesis (Hle : est c <= een f_new) (Hlt : est f_new < een c).

Lemma extend_inserted c' :
  eix c = eix f_new -> eix c' = eix c -> est c' = Z.min (est c) (est f_new) ->
  een c' = Z.max (een c) (een f_new) -> inserted (fce_range f_new) (c :: post) (c' :: post).
Proof.
  intros Hix H1 H2 H3 s. simpl. destruct (lu_seq_range_within (fce_range f_new) s) eqn:E1,
    (lu_seq_range_within (fce_range c) s) eqn:E2, (lu_seq_range_within (fce_range c') s) eqn:E3;
    apply within_iff in E1, E2, E3; try (exfalso; lia); congruence.
Qed.

Lemma cover_inserted c' :
  est f_new <= est c -> een c <= een f_new -> fce_range c' = fce_range f_new ->
  inserted (fce_range f_new) (c :: post) (c' :: post).
Proof.
  intros H1 H2 H3 s. simpl. rewrite H3.
  destruct (lu_seq_range_within (fce_range f_new) s) eqn:E1; [done|].
  destruct (lu_seq_range_within (fce_range c) s) eqn:E2; [|done].
  apply within_iff in E1, E2. lia.
Qed.

Lemma before_inserted :
  est f_new <= est c -> een f_new <= een c ->
  inserted (fce_range f_new) (c :: post)
    (f_new :: set_fce_range c (set_start (fce_range c) (een f_new)) :: post).
Proof. intros H1 H2. unfold inserted. solve_location. Qed.

Lemma after_inserted :
  est c <= est f_new -> een c <= een f_new ->
  inserted (fce_range f_new) (c :: post)
    (set_fce_range c (set_end (fce_range c) (est f_new)) :: f_new :: post).
Proof. intros H1 H2. unfold inserted. solve_location. Qed.

Lemma hole_inserted t :
  est c < est f_new -> een f_new < een c ->
  fce_range t = SeqRange (een f_new) (een c) (eix c) 0 ->
  inserted (fce_range f_new) (c :: post)
    (set_fce_range c (set_end (fce_range c) (est f_new)) :: f_new :: t :: post).
Proof. intros H1 H2 H3. unfold inserted. simpl. rewrite H3. solve_location. Qed.
End Overlap.

Lemma insert_post_trans cache range l1 k1 r :
  inserted range (fci_entries_head cache) l1 ->
  r = Ret (with_links (with_entries cache l1) k1.1 k1.2) -> norm_list l1 -> links_ok [] l1 k1 ->
  insert_post cache range r.
Proof. intros. by exists l1, k1. Qed.

Lemma list_find_id pre e post :
  NoDup (ids (pre ++ e :: post)) ->
  list_find (fun x => fce_id x = fce_id e) (pre ++ e :: post) = Some (length pre, e).
Proof.
  intros Hnd. apply list_find_Some. split_and!; [|done|].
  - by rewrite list_lookup_middle.
  - intros j y Hj Hlt Heq. rewrite lookup_app_l in Hj by done.
    unfold ids in Hnd. rewrite fmap_app in Hnd. apply list.NoDup_app in Hnd as (_ & Hd & _).
    apply (Hd (fce_id y)); [apply list_elem_of_fmap; exists y; split; [done|]|].
    + by apply list_elem_of_lookup_2 in Hj.
    + rewrite Heq. by left.
Qed.

Lemma punch_hole_post cache pre c post f_new t :
  fci_entries_head cache = pre ++ c :: post -> norm_list (pre ++ c :: post) ->
  links_ok [] (pre ++ c :: post) (fci_lru cache, fci_cache_count cache) ->
  passed (est f_new) pre -> entry_ok f_new ->
  fce_id f_new ∉ fci_lru cache -> t ∉ fci_lru cache -> t <> fce_id f_new ->
  est c < est f_new -> een f_new < een c -> eix c <> eix f_new ->
  insert_post cache (fce_range f_new) (fld_cache_punch_hole (Some t) cache pre c post f_new).
Proof.
  intros He Hn Hk Hp Hnew Hid Ht Hne H1 H2 Hix.
  pose proof (norm_list_app_r _ _ Hn) as Hc. simpl in Hc.
  pose proof (norm_ok _ _ Hc) as [Hce Hcf]. pose proof Hnew as [Hne1 Hnf].
  unfold fld_cache_punch_hole. set (c' := set_fce_range c _). set (tl := FldEntry t _).
  assert (Hlast : match last pre with Some a => een a < est c' \/ een a = est c' /\ eix a <> eix c'
                                 | None => True end).
  { clear -Hn. induction pre as [|a pre IH]; [done|]. destruct pre as [|b pre].
    - by destruct Hn as (_ & Hg & _).
    - simpl. apply IH. by apply (norm_list_cons a). }
  assert (Hpost : forall e, een e = een c -> eix e = eix c -> entry_ok e -> norm e post).
  { intros e ? ? ?. destruct post as [|n rest]; [by split|]. destruct Hc as (_ & Hg & ?).
    split; [done|]. split; [lia|done]. }
  assert (Hok' : entry_ok c') by (split; simpl; [lia|done]).
  assert (Hokt : entry_ok tl) by (split; simpl; [lia|done]).
  assert (Hn1 : norm_list (pre ++ c' :: f_new :: post)).
  { eapply norm_app; [exact Hn| |done]. split; [done|]. split; [right; done|].
    destruct post as [|n rest]; [by split|]. destruct Hc as (_ & Hg & ?).
    split; [done|]. split; [lia|done]. }
  assert (Hn2 : norm_list (pre ++ c' :: f_new :: tl :: post)).
  { eapply norm_app; [exact Hn| |done]. split; [done|]. split; [right; done|].
    split; [done|]. split; [right; split; [done|]; simpl; congruence|]. by apply Hpost. }
  assert (Hk1 : links_ok [] (pre ++ c' :: f_new :: post)
                  (fce_id f_new :: fci_lru cache, fci_cache_count cache + 1)).
  { rewrite cons_middle, app_assoc. apply links_ok_add; [|done].
    rewrite <-app_assoc. by eapply links_ok_replace; [|done]. }
  unfold fld_cache_entry_add.
  replace ((pre ++ [c']) ++ f_new :: post) with (pre ++ c' :: f_new :: post)
    by by rewrite <-app_assoc.
  rewrite fld_fix_new_list_norm by done. cbn [mbind run_bind fci_entries_head with_links with_entries].
  assert (Hl : pre ++ c' :: f_new :: post = (pre ++ [c']) ++ f_new :: post)
    by by rewrite <-app_assoc.
  assert (Hl2 : pre ++ c' :: f_new :: post = (pre ++ [c'; f_new]) ++ post)
    by by rewrite <-app_assoc.
  assert (Hlen : S (length (pre ++ [c'])) = length (pre ++ [c'; f_new]))
    by (rewrite !length_app; simpl; lia).
  rewrite Hl at 1. rewrite (list_find_id (pre ++ [c']) f_new post) by (rewrite <-Hl; apply Hk1).
  rewrite Hlen, Hl2, take_app_length, drop_app_length.
  replace ((pre ++ [c'; f_new]) ++ tl :: post) with (pre ++ c' :: f_new :: tl :: post)
    by by rewrite <-app_assoc.
  rewrite fld_fix_new_list_norm by exact Hn2.
  eapply (insert_post_trans cache _ (pre ++ c' :: f_new :: tl :: post)
            (t :: fce_id f_new :: fci_lru cache, fci_cache_count cache + 1 + 1)); [|done|done|].
  - rewrite He. apply inserted_app; [done|]. apply hole_inserted; (done || lia).
  - replace (pre ++ c' :: f_new :: tl :: post) with ((pre ++ [c'; f_new]) ++ tl :: post)
      by by rewrite <-app_assoc.
    apply (links_ok_add _ tl); [by rewrite <-Hl2|]. by apply not_elem_of_cons.
Qed.

(** [fld_cache_overlap_handle] on the first entry the new range does not lie
    behind.  The new range must not be a proper suffix of that entry with another
    server (see [insert_loop_suffix]). *)
Lemma overlap_handle_post cache pre c post f_new t :
  fci_entries_head cache = pre ++ c :: post -> norm_list (pre ++ c :: post) ->
  links_ok [] (pre ++ c :: post) (fci_lru cache, fci_cache_count cache) ->
  passed (est f_new) pre -> entry_ok f_new ->
  fce_id f_new ∉ fci_lru cache -> t ∉ fci_lru cache -> t <> fce_id f_new ->
  est c <= een f_new -> est f_new < een c ->
  (est c < est f_new -> een c = een f_new -> eix c = eix f_new) ->
  insert_post cache (fce_range f_new)
    (fld_cache_overlap_handle (Some t) cache pre c post f_new).
Proof.
  intros He Hn Hk Hp Hnew Hid Ht Hne Hle Hlt Hsuf.
  pose proof (passed_before _ _ _ Hn) as Hpc.
  pose proof (norm_list_app_r _ _ Hn) as Hc. simpl in Hc.
  pose proof (norm_ok _ _ Hc) as [Hce Hcf]. pose proof Hnew as [Hne1 Hnf].
  unfold fld_cache_overlap_handle.
  destruct (Z.eqb_spec (eix c) (eix f_new)) as [Hix|Hix].
  { set (c' := set_fce_range c _).
    change (with_entries cache (pre ++ c' :: post))
      with (with_links (with_entries cache (pre ++ c' :: post)) (fci_lru cache)
                       (fci_cache_count cache)).
    eapply fixup_post; [done..|by apply passed_min| |by apply extend_inserted|
                        by eapply links_ok_replace; [|done]].
    eapply reach_near; [done|split; simpl; [lia|done]|simpl; lia]. }
  destruct ((est f_new <=? est c) && (een c <=? een f_new)) eqn:E1.
  { set (c' := set_fce_range c _).
    change (with_entries cache (pre ++ c' :: post))
      with (with_links (with_entries cache (pre ++ c' :: post)) (fci_lru cache)
                       (fci_cache_count cache)).
    eapply fixup_post; [done..| |by apply cover_inserted; (done || lia)|by eapply links_ok_replace; [|done]].
    eapply reach_near; [done..|simpl; lia]. }
  destruct ((est c <? est f_new) && (een f_new <? een c)) eqn:E2.
  { by apply punch_hole_post; [..|lia|lia|]. }
  destruct (Z.leb_spec (een f_new) (een c)) as [H3|H3].
  { assert (est f_new <= est c) by (destruct (Z.le_gt_cases (est f_new) (est c)); [done|];
      exfalso; apply Hix, Hsuf; lia).
    rewrite (proj2 (Z.leb_le _ _)) by lia. unfold LASSERT, fld_cache_entry_add.
    eapply fixup_post; [done..| |by apply before_inserted|apply links_ok_add; [|done]].
    - split; [done|]. right. split; [simpl; lia|].
      eapply disj_head; [by apply norm_disj|split; simpl; [lia|done]|done].
    - by eapply links_ok_replace; [|done]. }
  rewrite !(proj2 (Z.leb_le _ _)) by lia. unfold LASSERT, fld_cache_entry_add.
  rewrite <-app_assoc. cbn [app].
  eapply fixup_post; [done..| |by apply after_inserted; lia|].
  - split; [split; simpl; [lia|done]|]. left. split; [simpl; lia|].
    eapply reach_near; [done..|lia].
  - rewrite cons_middle, app_assoc. apply links_ok_add; [|done].
    rewrite <-app_assoc. by eapply links_ok_replace; [|done].
Qed.

Lemma insert_loop_post cache f_new t pre l :
  fci_entries_head cache = pre ++ l -> norm_list (pre ++ l) ->
  links_ok [] (pre ++ l) (fci_lru cache, fci_cache_count cache) ->
  passed (est f_new) pre -> entry_ok f_new ->
  fce_id f_new ∉ fci_lru cache -> t ∉ fci_lru cache -> t <> fce_id f_new ->
  (forall e, e ∈ l -> est e < est f_new -> een e = een f_new -> eix e = eix f_new) ->
  insert_post cache (fce_range f_new) (insert_loop (Some t) cache f_new pre l).
Proof.
  revert pre. induction l as [|c post IH]; intros pre He Hn Hk Hp Hnew Hid Ht Hne Hsuf; simpl.
  - unfold fld_cache_entry_add. eapply fixup_post; [done..| | |by apply links_ok_add].
    + by split.
    + by intros s.
  - pose proof (norm_list_app_r _ _ Hn) as Hc. pose proof (norm_ok _ _ Hc) as [? Hcf].
    pose proof Hnew as [? Hnf]. rewrite Hcf, Hnf, !andb_true_r, andb_false_r, orb_false_r.
    destruct (Z.ltb_spec (een f_new) (est c)).
    { unfold fld_cache_entry_add. eapply fixup_post; [done..| | |by apply links_ok_add].
      - apply near_cons; [done|lia|]. by apply norm_disj.
      - unfold inserted. intros s. done. }
    destruct (Z.ltb_spec (est f_new) (een c)).
    { apply overlap_handle_post; try done. apply Hsuf. by left. }
    assert (Hassoc : pre ++ c :: post = (pre ++ [c]) ++ post) by by rewrite <-app_assoc.
    rewrite Hassoc in *. apply IH; try done.
    + apply Forall_app. split; [done|]. constructor; [lia|done].
    + intros e He'. apply Hsuf. by right.
Qed.

(** The walk stops at the entry the new range starts in. *)
Lemma insert_loop_reaches fldt cache f_new e l : forall pre,
  norm_list l -> entry_ok f_new -> e ∈ l -> est e < est f_new < een e ->
  exists pre' post', l = pre' ++ e :: post'
    /\ insert_loop fldt cache f_new pre l = fld_cache_overlap_handle fldt cache (pre ++ pre') e post' f_new.
Proof.
  induction l as [|c l IH]; intros pre Hn Hnew He Hin; [by apply elem_of_nil in He|].
  pose proof (norm_ok _ _ Hn) as [Hc Hcf]. pose proof Hnew as [Hne Hnf]. cbn [insert_loop].
  rewrite Hcf, Hnf, !andb_true_r, andb_false_r, orb_false_r.
  apply elem_of_cons in He as [->|He].
  - exists [], l. rewrite (proj2 (Z.ltb_ge (een f_new) _)), (proj2 (Z.ltb_lt (est f_new) _)) by lia.
    by rewrite app_nil_r.
  - assert (Hle : een c <= est e).
    { clear IH. revert c Hn Hc Hcf. induction l as [|n l IHl]; intros c Hn Hc Hcf; [by apply elem_of_nil in He|].
      pose proof Hn as (_ & Hg & Hn'). pose proof (norm_ok _ _ Hn') as [Hn1 Hn2].
      apply elem_of_cons in He as [->|He]; [lia|]. specialize (IHl He n Hn' Hn1 Hn2). lia. }
    rewrite (proj2 (Z.ltb_ge (een f_new) _)), (proj2 (Z.ltb_ge (est f_new) _)) by lia.
    destruct (IH (pre ++ [c]) (norm_list_cons _ _ Hn) Hnew He Hin) as (pre' & post' & -> & ->).
    exists (c :: pre'), post'. by rewrite <-app_assoc.
Qed.

(** The new range is a proper suffix of an entry of another server, or lies inside of one. *)
Definition suffix_of (range : lu_seq_range) (e : fld_cache_entry) : Prop :=
  est e < lsr_start range /\ een e = lsr_end range /\ eix e <> lsr_index range.
Definition inside_of (range : lu_seq_range) (e : fld_cache_entry) : Prop :=
  est e < lsr_start range /\ lsr_end range < een e /\ eix e <> lsr_index range.

Lemma insert_loop_suffix fldt cache f_new e l :
  norm_list l -> entry_ok f_new -> e ∈ l -> suffix_of (fce_range f_new) e ->
  insert_loop fldt cache f_new [] l = LBUG.
Proof.
  intros Hn Hnew He (H1 & H2 & H3). pose proof Hnew as [? _].
  destruct (insert_loop_reaches fldt cache f_new e l [] Hn Hnew He) as (pre & post & _ & ->); [lia|].
  unfold fld_cache_overlap_handle. rewrite (proj2 (Z.eqb_neq _ _) H3).
  rewrite (proj2 (Z.leb_gt (est f_new) (est e))) by lia.
  rewrite (proj2 (Z.ltb_ge (een f_new) (een e))), andb_false_r by lia. cbn [andb].
  by rewrite (proj2 (Z.leb_le (een f_new) _)) by lia.
Qed.

Lemma insert_loop_inside cache f_new e l :
  norm_list l -> entry_ok f_new -> e ∈ l -> inside_of (fce_range f_new) e ->
  insert_loop None cache f_new [] l = Ret cache.
Proof.
  intros Hn Hnew He (H1 & H2 & H3). pose proof Hnew as [? _].
  destruct (insert_loop_reaches None cache f_new e l [] Hn Hnew He) as (pre & post & _ & ->); [lia|].
  unfold fld_cache_overlap_handle. rewrite (proj2 (Z.eqb_neq _ _) H3).
  rewrite (proj2 (Z.leb_gt (est f_new) (est e))) by lia. cbn [andb].
  by rewrite (proj2 (Z.ltb_lt (est e) _)), (proj2 (Z.ltb_lt (een f_new) _)) by lia.
Qed.

(** Only a split needs a second node. *)
Lemma insert_loop_alloc t cache f_new l : forall pre,
  Forall (fun e => ~ inside_of (fce_range f_new) e) l ->
  insert_loop None cache f_new pre l = insert_loop (Some t) cache f_new pre l.
Proof.
  induction l as [|c l IH]; intros pre Hl; [done|]. apply Forall_cons in Hl as [Hc Hl]. cbn [insert_loop].
  case_match; [done|]. case_match; [|by apply IH]. unfold fld_cache_overlap_handle.
  destruct (Z.eqb_spec (eix c) (eix f_new)); [done|]. case_match; [done|].
  destruct ((est c <? est f_new) && (een f_new <? een c)) eqn:E; [|done].
  destruct Hc. split_and!; (done || lia).
Qed.

(** ** Removal *)

Lemma location_before c rest s : norm c rest -> s < een c -> location rest s = None.
Proof.
  revert c. induction rest as [|n rest IH]; intros c Hn Hs; [done|]. simpl.
  destruct Hn as (_ & Hg & Hn). pose proof (norm_ok _ _ Hn) as [? _].
  destruct (lu_seq_range_within (fce_range n) s) eqn:E.
  - apply within_iff in E. lia.
  - apply (IH n); [done|lia].
Qed.

Lemma norm_skip c n rest : norm c (n :: rest) -> match rest with
  [] => True | m :: _ => een c < est m end.
Proof.
  intros (_ & Hg & Hn). destruct rest as [|m rest]; [done|].
  destruct Hn as ([? _] & Hg2 & _). lia.
Qed.

Lemma norm_remove pre e post :
  norm_list (pre ++ e :: post) -> norm_list (pre ++ post).
Proof.
  induction pre as [|a pre IH]; intros Hn; [by eapply norm_list_cons|].
  destruct pre as [|b pre]; simpl in *.
  - pose proof (norm_skip _ _ _ Hn) as Hs. destruct Hn as (Ha & _ & Hn).
    destruct post as [|m post]; [by split|]. destruct Hn as (_ & _ & ?).
    split; [done|]. split; [by left|done].
  - destruct Hn as (? & ? & Hn). split; [done|]. split; [done|]. by apply IH.
Qed.

(** Removing an entry forgets the servers of its sequences and nothing else. *)
Definition forgets (l l' : list fld_cache_entry) : Prop :=
  forall s, location l' s = None \/ location l' s = location l s.

Lemma forgets_remove pre e post :
  norm_list (pre ++ e :: post) -> forgets (pre ++ e :: post) (pre ++ post).
Proof.
  intros Hn s. rewrite !location_app. destruct (location pre s); [by right|]. simpl.
  destruct (lu_seq_range_within (fce_range e) s) eqn:E; [|by right].
  left. apply within_iff in E. apply (location_before e); [|lia].
  by apply norm_list_app_r in Hn.
Qed.

Lemma forgets_trans l1 l2 l3 : forgets l1 l2 -> forgets l2 l3 -> forgets l1 l3.
Proof. intros H1 H2 s. destruct (H1 s), (H2 s); intuition congruence. Qed.

Lemma delete_entries pre e post :
  NoDup (ids (pre ++ e :: post)) ->
  base.filter (fun x => fce_id x <> fce_id e) (pre ++ e :: post) = pre ++ post.
Proof.
  intros Hnd. assert (Hkeep : forall l, fce_id e ∉ ids l ->
    base.filter (fun x => fce_id x <> fce_id e) l = l).
  { induction l as [|a l IH]; intros Hl; [done|]. apply not_elem_of_cons in Hl as [? ?].
    rewrite filter_cons_True by congruence. by rewrite IH. }
  unfold ids in Hnd. rewrite fmap_app, fmap_cons in Hnd.
  apply list.NoDup_app in Hnd as (_ & Hd & Hp). inversion Hp; subst.
  rewrite filter_app, filter_cons_False by tauto. rewrite !Hkeep; [done|done|].
  intros Hin. apply (Hd _ Hin). by left.
Qed.

Lemma links_ok_remove pre e post k :
  links_ok [] (pre ++ e :: post) k -> links_ok [] (pre ++ post) (unlink (fce_id e) k).
Proof.
  intros Hk. unfold links_ok, ids in *. rewrite fmap_app in *. cbn [app] in *.
  by apply (unlink_ok (fce_id <$> pre) e post).
Qed.

(** [c'] is [c] without some of its entries. *)
Definition shrunk (c c' : fld_cache) : Prop :=
  cache_ok c' /\ forgets (fci_entries_head c) (fci_entries_head c')
  /\ fci_threshold c' = fci_threshold c /\ fci_cache_size c' = fci_cache_size c
  /\ (forall i, i ∈ fci_lru c' -> i ∈ fci_lru c)
  /\ (forall e, e ∈ fci_entries_head c' -> e ∈ fci_entries_head c).

Lemma shrunk_refl c : cache_ok c -> shrunk c c.
Proof. intros Hc. split_and!; try done. intros s. by right. Qed.

Lemma shrunk_trans c1 c2 c3 : shrunk c1 c2 -> shrunk c2 c3 -> shrunk c1 c3.
Proof.
  intros (_ & ? & ? & ? & ? & ?) (? & ? & ? & ? & ? & ?). 
  split_and!; [done|by eapply forgets_trans|congruence|congruence|auto|auto].
Qed.

Lemma fld_cache_entry_delete_spec cache id :
  cache_ok cache -> id ∈ fci_lru cache ->
  shrunk cache (fld_cache_entry_delete cache id)
  /\ fci_cache_count (fld_cache_entry_delete cache id) = fci_cache_count cache - 1
  /\ fci_lru (fld_cache_entry_delete cache id) = base.filter (fun i => i <> id) (fci_lru cache).
Proof.
  intros [Hn Hk] Hid. pose proof Hk as (Hp & Hnd & _). simpl in Hp. rewrite Hp in Hid.
  apply list_elem_of_fmap in Hid as (e & -> & He).
  apply list_elem_of_split in He as (pre & post & He). rewrite He in *.
  unfold fld_cache_entry_delete. rewrite He, delete_entries by done.
  split_and!; simpl; [|done|done]. unfold shrunk. simpl. rewrite He.
  split_and!; simpl; [|by apply forgets_remove|done|done| |].
  - split; simpl; [by eapply norm_remove|].
    apply (links_ok_remove _ _ _ (fci_lru cache, fci_cache_count cache)), Hk.
  - intros i Hi. by apply list_elem_of_filter in Hi as [_ ?].
  - intros x. rewrite !elem_of_app, elem_of_cons. tauto.
Qed.

Lemma shrink_loop_spec back cache :
  cache_ok cache -> NoDup back -> (forall i, i ∈ fci_lru cache <-> i ∈ back) ->
  shrunk cache (shrink_loop back cache)
  /\ (fci_lru (shrink_loop back cache) = []
      \/ fci_cache_count (shrink_loop back cache) + fci_threshold cache <= fci_cache_size cache).
Proof.
  revert cache. induction back as [|id back IH]; intros cache Hok Hnd Hl; simpl.
  - split; [by apply shrunk_refl|]. left. destruct (fci_lru cache) as [|x l]; [done|].
    destruct (proj1 (elem_of_nil x)). apply Hl. by left.
  - destruct (Z.ltb_spec (fci_cache_size cache) (fci_cache_count cache + fci_threshold cache)).
    2:{ split; [by apply shrunk_refl|by right]. }
    inversion Hnd as [|? ? Hni Hnd']; subst.
    destruct (fld_cache_entry_delete_spec cache id) as (Hsh & Hc & Hlru); [done|by apply Hl; left|].
    destruct (IH (fld_cache_entry_delete cache id)) as (? & Hb); [apply Hsh|done| |].
    { intros i. rewrite Hlru, list_elem_of_filter, Hl, elem_of_cons. split.
      - intros [? [?|?]]; done.
      - intros Hi. split; [|by right]. by intros ->. }
    split; [by eapply shrunk_trans|done].
Qed.

Lemma fld_cache_shrink_spec cache :
  cache_ok cache ->
  shrunk cache (fld_cache_shrink cache)
  /\ (fci_lru (fld_cache_shrink cache) = []
      \/ fci_cache_count (fld_cache_shrink cache) < fci_cache_size cache
      \/ fci_cache_count (fld_cache_shrink cache) + fci_threshold cache <= fci_cache_size cache).
Proof.
  intros Hok. unfold fld_cache_shrink.
  destruct (Z.ltb_spec (fci_cache_count cache) (fci_cache_size cache)).
  - split; [by apply shrunk_refl|]. right. by left.
  - pose proof Hok as [_ (Hp & Hnd & _)]. simpl in Hp.
    destruct (shrink_loop_spec (reverse (fci_lru cache)) cache) as (? & Hb); [done| | |].
    + by rewrite reverse_Permutation, Hp.
    + intros i. by rewrite elem_of_reverse.
    + split; [done|]. tauto.
Qed.

Lemma lru_nil_count cache : cache_ok cache -> fci_lru cache = [] ->
  fci_cache_count cache = 0 /\ fci_entries_head cache = [].
Proof.
  intros [_ (Hp & _ & Hc)] Hn. simpl in *. rewrite Hn in Hp. apply Permutation_nil_l in Hp.
  rewrite <-Hp in Hc. destruct (fci_entries_head cache); [done|done].
Qed.

(** ** Lookup *)

Lemma lookup_loop_spec s prev range c rest :
  norm c rest ->
  match location (c :: rest) s with
  | Some i => exists r, lookup_loop s prev range (c :: rest) = (0, r, true)
                        /\ lu_seq_range_within r s = true /\ lsr_index r = i
  | None => exists r, lookup_loop s prev range (c :: rest) = (- ENOENT, r, false)
  end.
Proof.
  revert prev c. induction rest as [|n rest IH]; intros prev c Hn.
  - simpl. destruct (lu_seq_range_within (fce_range c) s) eqn:E.
    + pose proof E as E'. apply within_iff in E'. rewrite (proj2 (Z.ltb_ge _ _)) by lia. eauto.
    + case_match; eauto.
  - specialize (IH (Some c) n (proj2 (proj2 Hn))). remember (n :: rest) as l eqn:Hl.
    simpl. destruct (Z.ltb_spec s (est c)).
    + pose proof (norm_ok _ _ Hn) as [? _]. rewrite (location_before c) by (done || lia).
      assert (lu_seq_range_within (fce_range c) s = false) as ->
        by (unfold lu_seq_range_within; lia). eauto.
    + destruct (lu_seq_range_within (fce_range c) s) eqn:E; eauto.
Qed.

(** The server [fld_cache_lookup] finds for a sequence. *)
Definition cached (cache : fld_cache) (s : Z) : option Z :=
  let '(rc, r, _) := fld_cache_lookup cache s lu_seq_range_init in
  if rc =? 0 then Some (lsr_index r) else None.

Lemma cached_location cache s : cache_ok cache -> cached cache s = location (fci_entries_head cache) s.
Proof.
  intros [Hn _]. unfold cached, fld_cache_lookup.
  destruct (fci_entries_head cache) as [|c rest]; [done|].
  pose proof (lookup_loop_spec s None lu_seq_range_init c rest Hn) as H.
  destruct (location (c :: rest) s) as [i|].
  - destruct H as (r & -> & _ & <-). done.
  - by destruct H as (r & ->).
Qed.

(** The cache an insertion starts from. *)
Definition make_room (cache : fld_cache) : fld_cache :=
  if fci_no_shrink cache then cache else fld_cache_shrink cache.

Lemma make_room_spec cache : cache_ok cache -> shrunk cache (make_room cache).
Proof.
  intros Hok. unfold make_room. case_match; [by apply shrunk_refl|].
  by apply fld_cache_shrink_spec.
Qed.

(** What an insertion that returns has done. *)
Definition insert_done (old : fld_cache) (range : lu_seq_range) (r : run fld_cache) : Prop :=
  exists cache', r = Ret cache' /\ cache_ok cache'
    /\ forall s, cached cache' s = if lu_seq_range_within range s then Some (lsr_index range) else cached old s.

Lemma insert_loop_done old f t :
  cache_ok old -> entry_ok f -> fce_id f ∉ fci_lru old -> t ∉ fci_lru old -> t <> fce_id f ->
  Forall (fun e => ~ suffix_of (fce_range f) e) (fci_entries_head old) ->
  insert_done old (fce_range f) (insert_loop (Some t) old f [] (fci_entries_head old)).
Proof.
  intros Hok Hf Hid Ht Hti Hs. pose proof Hok as [Hn Hk].
  destruct (insert_loop_post old f t [] (fci_entries_head old)) as (l' & k' & -> & Hn' & Hk' & Hi); try done; [constructor| |].
  - intros e He H1 H2. destruct (decide (eix e = eix f)); [done|]. rewrite Forall_forall in Hs. by destruct (Hs e He).
  - assert (Hok' : cache_ok (with_links (with_entries old l') k'.1 k'.2)) by (split; [done|by destruct k']).
    eexists. split_and!; [done|done|]. intros s. rewrite !cached_location by done. apply (Hi s).
Qed.

Lemma classify (P : lu_seq_range -> fld_cache_entry -> Prop) `{!forall r e, Decision (P r e)} range l :
  (exists e, e ∈ l /\ P range e) \/ Forall (fun e => ~ P range e) l.
Proof.
  destruct (decide (Exists (P range) l)) as [Hex%Exists_exists|Hno]; [by left|right].
  by apply Forall_Exists_neg.
Qed.

#[local] Instance suffix_of_dec r e : Decision (suffix_of r e).
Proof. unfold suffix_of. apply _. Defined.
#[local] Instance inside_of_dec r e : Decision (inside_of r e).
Proof. unfold inside_of. apply _. Defined.

(** C22: the FLD cache is a map from sequences to servers.  Inserting a range of metadata
    sequences into a well-formed cache ends in one of four ways.  Without memory for its
    entry it returns [-ENOMEM] and changes nothing.  If the range is a proper suffix of an
    entry of another server, an assertion fails.  If it lies inside an entry of another
    server and there is no memory for the second half of that one, it returns 0 and changes
    nothing but what the LRU dropped to make room.  Otherwise it returns 0; the cache is well
    formed again (entries sorted, disjoint and merged, LRU list and counter in step); and
    a lookup finds the new server for every sequence of the range and for the others what the
    cache held before, or nothing if the LRU dropped it to make room. *)
Theorem fld_cache_insert_lookup cache range oid ot :
  cache_ok cache -> lsr_start range < lsr_end range -> lsr_flags range = LU_SEQ_RANGE_MDT ->
  (forall id, oid = Some id -> id ∉ fci_lru cache) -> (forall t, ot = Some t -> (t ∉ fci_lru cache) /\ oid <> Some t) ->
  let old := make_room cache in
  let suffix := exists e, e ∈ fci_entries_head old /\ suffix_of range e in
  let inside := exists e, e ∈ fci_entries_head old /\ inside_of range e in
  let x := fld_cache_insert oid ot cache range in
  cache_ok old /\ (forall s, cached old s = None \/ cached old s = cached cache s)
  /\ (oid = None /\ x = Ret (- ENOMEM, cache)
      \/ oid <> None /\ suffix /\ x = LBUG
      \/ oid <> None /\ ~ suffix /\ ot = None /\ inside /\ x = Ret (0, old)
      \/ oid <> None /\ ~ suffix /\ (ot = None -> ~ inside)
          /\ exists cache', x = Ret (0, cache') /\ cache_ok cache'
               /\ forall s, cached cache' s = if lu_seq_range_within range s then Some (lsr_index range)
                                              else cached old s).
Proof.
  intros Hok Hlt Hf Hid Ht old suffix inside x.
  destruct (make_room_spec cache Hok) as (Hok1 & Hforget & _ & _ & Hlru & Hent). fold old in Hok1, Hforget, Hlru, Hent.
  split; [done|]. split; [intros s; rewrite !cached_location by done; apply Hforget|].
  assert (Hx : forall id, oid = Some id -> x = (c ← insert_loop ot old (FldEntry id range) [] (fci_entries_head old); Ret (0, c))).
  { intros id ->. unfold x, fld_cache_insert, fld_cache_entry_create, lu_seq_range_is_sane.
    rewrite (proj2 (Z.leb_le _ _)) by lia. cbn [LASSERT mbind run_bind]. unfold fld_cache_insert_nolock.
    replace (if negb (fci_no_shrink cache) then fld_cache_shrink cache else cache) with old
      by (unfold old, make_room; by destruct (fci_no_shrink cache)). done. }
  destruct oid as [id|]; [right|left].
  2:{ split; [done|]. unfold x, fld_cache_insert, fld_cache_entry_create, lu_seq_range_is_sane.
      by rewrite (proj2 (Z.leb_le _ _)) by lia. }
  specialize (Hx id eq_refl). pose proof Hok1 as [Hn1 Hk1]. set (f := FldEntry id range) in *.
  assert (Hnew : entry_ok f) by done.
  destruct (classify suffix_of range (fci_entries_head old)) as [Hs|Hs].
  { left. destruct Hs as (e & He & Hse). split_and!; [done|by exists e|]. rewrite Hx.
    by rewrite (insert_loop_suffix ot old f e). }
  right. assert (Hnos : ~ suffix) by (intros (e & He & K); rewrite Forall_forall in Hs; by apply (Hs e)).
  assert (Hpost : forall t, t ∉ fci_lru cache -> t <> id -> insert_done old range (insert_loop (Some t) old f [] (fci_entries_head old))).
  { intros t Htl Hti. apply insert_loop_done; try done; [intros K; by apply (Hid id eq_refl), Hlru|intros K; by apply Htl, Hlru]. }
  destruct ot as [t|].
  { right. split_and!; try done. destruct (Ht t eq_refl) as [Htl Hti].
    destruct (Hpost t) as (c' & E & K); [done|congruence|]. exists c'. by rewrite Hx, E. }
  destruct (classify inside_of range (fci_entries_head old)) as [Hi|Hi].
  { left. destruct Hi as (e & He & Hie). split_and!; try done; [by exists e|]. rewrite Hx.
    by rewrite (insert_loop_inside old f e). }
  right. split_and!; try done.
  { intros _ (e & He & K). rewrite Forall_forall in Hi. by apply (Hi e). }
  set (t := S (max_list (id :: fci_lru cache))).
  assert (Hfresh : t ∉ id :: fci_lru cache) by (intros K%max_list_elem_of_le; lia).
  apply not_elem_of_cons in Hfresh as [Hti Htl].
  destruct (Hpost t Htl Hti) as (c' & E & K). exists c'. by rewrite Hx, (insert_loop_alloc t), E by done.
Qed.

(** flushing empties the cache: no entry, no LRU node and a zero counter are
    left, and every later lookup misses. *)
Theorem fld_cache_flush_empties cache :
  cache_ok cache -> 0 <= fci_threshold cache ->
  cache_ok (fld_cache_flush cache) /\ fci_entries_head (fld_cache_flush cache) = []
  /\ fci_cache_count (fld_cache_flush cache) = 0 /\ fci_lru (fld_cache_flush cache) = []
  /\ forall s, cached (fld_cache_flush cache) s = None.
Proof.
  intros Hok Ht. unfold fld_cache_flush. set (c0 := FldCache _ 0 _ _ _ _ _).
  assert (Hok0 : cache_ok c0) by exact Hok.
  destruct (fld_cache_shrink_spec c0 Hok0) as ((Hok1 & _ & Ht1 & Hs1 & _ & _) & Hb).
  assert (Hcount : 0 <= fci_cache_count (fld_cache_shrink c0)) by
    (destruct Hok1 as [_ (_ & _ & Hc)]; simpl in Hc; lia).
  assert (Hnil : fci_lru (fld_cache_shrink c0) = []).
  { destruct Hb as [?|Hb]; [done|]. simpl in Hb.
    assert (Hz : fci_cache_count (fld_cache_shrink c0) = 0) by lia.
    destruct Hok1 as [_ (Hp & _ & Hc)]. simpl in *. rewrite Hz in Hc.
    destruct (ids (fci_entries_head (fld_cache_shrink c0))); simpl in Hc; [|lia].
    by apply Permutation_nil_r in Hp. }
  destruct (lru_nil_count _ Hok1 Hnil) as [Hc He]. split_and!; [done..|].
  intros s. rewrite cached_location, He by done. done.
Qed.

Module Run.
Definition entry (id : nat) (s e i : Z) : fld_cache_entry := FldEntry id (SeqRange s e i 0).
Definition cache : fld_cache :=
  FldCache 10 100 3 [2; 1; 0]%nat
    [entry 0 0 10 1; entry 1 10 20 2; entry 2 30 40 1] (FldStats 0 0) false.

Lemma cache_is_ok : cache_ok cache.
Proof.
  split; [simpl; unfold entry_ok, LU_SEQ_RANGE_MDT; simpl; lia|]. split_and!.
  - simpl. change [2; 1; 0]%nat with (reverse [0; 1; 2]%nat). apply reverse_Permutation.
  - by apply (bool_decide_unpack (NoDup [0; 1; 2]%nat)).
  - done.
Qed.

(** The new range overwrites the end of the first entry, all of the second, and
    the start of the third. *)
Lemma fld_cache_insert_lookup_witness :
  exists cache', fld_cache_insert (Some 3%nat) (Some 4%nat) cache (SeqRange 5 35 3 0) = Ret (0, cache')
    /\ cached cache' 4 = Some 1 /\ cached cache' 5 = Some 3 /\ cached cache' 34 = Some 3
    /\ cached cache' 35 = Some 1.
Proof.
  destruct (fld_cache_insert_lookup cache (SeqRange 5 35 3 0) (Some 3%nat) (Some 4%nat))
    as (_ & _ & [[? _]|[(_ & (e & He & _ & K & _) & _)|[(_ & _ & ? & _)|(_ & _ & _ & c' & Hr & _ & Hc)]]]).
  - apply cache_is_ok.
  - done.
  - done.
  - intros id [= <-]. by apply (bool_decide_unpack _).
  - intros t [= <-]. split; [by apply (bool_decide_unpack _)|done].
  - done.
  - exfalso. repeat (apply elem_of_cons in He as [->|He]; [done|]). by apply elem_of_nil in He.
  - done.
  - exists c'. rewrite !Hc. split_and!; [exact Hr|by vm_compute..].
Defined.

Lemma fld_cache_flush_empties_witness : fci_entries_head (fld_cache_flush cache) = [].
Proof. apply (fld_cache_flush_empties cache); [apply cache_is_ok|done]. Defined.

(** the tail of a range that is split loses its type: after the range [0, 10)
    of OST 1 is split by the range [3, 5) of OST 2, the sequence 2 is still found
    on an OST, and the sequence 7 is found on server 1 with the flags of an MDT. *)
Lemma punch_hole_drops_flags :
  exists cache', fld_cache_insert (Some 1%nat) (Some 2%nat)
      (FldCache 1 100 1 [0%nat] [FldEntry 0 (SeqRange 0 10 1 LU_SEQ_RANGE_OST)] (FldStats 0 0) false)
      (SeqRange 3 5 2 LU_SEQ_RANGE_OST) = Ret (0, cache')
    /\ (fld_cache_lookup cache' 2 lu_seq_range_init).1 = (0, SeqRange 0 3 1 LU_SEQ_RANGE_OST)
    /\ (fld_cache_lookup cache' 7 lu_seq_range_init).1 = (0, SeqRange 5 10 1 LU_SEQ_RANGE_MDT).
Proof. eexists. split; [by vm_compute|]. by vm_compute. Qed.
End Run.
