(* ===== verification/LovOffset.v ===== *)
(** * Striped file layout

    The address arithmetic of striped files: [lustre/lov/lov_offset.c], which
    maps offsets and sizes of a file to offsets and sizes of the objects it is
    striped over and back, and [lustre/lov/lov_merge.c], which computes the size
    of the file from those of its objects.

    The first argument of each definition is the layout component
    [lsm->lsm_entries[index]]. *)

From S2P Require Import Prelude.

Definition LOV_PATTERN_MDT : Z := 0x100.
Definition LOV_PATTERN_F_MASK : Z := 0xffff0000.

Record lu_extent := LuExtent {
  e_start : Z;
  e_end : Z
}.

Definition lu_extent_is_overlapped (e1 e2 : lu_extent) : bool :=
  (e_start e1 <? e_end e2) && (e_start e2 <? e_end e1).

Definition lu_extent_is_whole (e : lu_extent) : bool :=
  (e_start e =? 0) && (e_end e =? OBD_OBJECT_EOF).

Record ost_lvb := OstLvb {
  lvb_size : Z;
  lvb_mtime : Z;
  lvb_atime : Z;
  lvb_ctime : Z;
  lvb_blocks : Z
}.

(** The fields [lov_merge_lvb_kms] reads. *)
Record lov_oinfo := LovOinfo {
  loi_kms : Z;
  loi_lvb : ost_lvb
}.

Record lov_stripe_md_entry := LsmEntry {
  lsme_extent : lu_extent;
  lsme_pattern : Z;
  lsme_stripe_size : Z;
  lsme_stripe_count : Z;
  lsme_oinfo : list lov_oinfo
}.

Definition lov_pattern (pattern : Z) : Z := Z.land pattern (u32 (Z.lnot LOV_PATTERN_F_MASK)).

Definition lsme_is_dom (lsme : lov_stripe_md_entry) : bool :=
  lov_pattern (lsme_pattern lsme) =? LOV_PATTERN_MDT.

(** [lov_do_div64 n base]: the remainder and the new value of [n]. *)
Definition lov_do_div64 (n base : Z) : Z * Z :=
  (u64 n mod u64 base, u64 n / u64 base).

(** ** Offsets *)

Definition stripe_width (entry : lov_stripe_md_entry) : Z :=
  if lsme_is_dom entry then lsme_stripe_size entry
  else s64 (lsme_stripe_size entry * lsme_stripe_count entry).

Definition lov_stripe_size (entry : lov_stripe_md_entry) (ost_size stripeno : Z) : Z :=
  let ssize := lsme_stripe_size entry in
  if ost_size =? 0 then 0
  else
    let swidth := stripe_width entry in
    let '(stripe_size, ost_size) := lov_do_div64 ost_size ssize in
    if negb (stripe_size =? 0)
    then u64 (s64 (ost_size * swidth + stripeno * ssize + stripe_size))
    else u64 (s64 ((ost_size - 1) * swidth + (stripeno + 1) * ssize)).

Definition PAGE_SHIFT : Z := 12.

Definition lov_stripe_pgoff (entry : lov_stripe_md_entry) (stripe_index stripe : Z) : Z :=
  let offset := s64 (lov_stripe_size entry (u64 (Z.shiftl stripe_index PAGE_SHIFT + 1)) stripe) in
  u64 (Z.shiftr offset PAGE_SHIFT).

(** The return value and [*obdoff]. *)
Definition lov_stripe_offset (entry : lov_stripe_md_entry) (lov_off stripeno : Z) : Z * Z :=
  let ssize := lsme_stripe_size entry in
  if u64 lov_off =? OBD_OBJECT_EOF then (0, s64 OBD_OBJECT_EOF)
  else
    let swidth := stripe_width entry in
    let '(stripe_off, lov_off) := lov_do_div64 lov_off swidth in
    let this_stripe := s64 (stripeno * ssize) in
    let '(ret, stripe_off) :=
      if stripe_off <? this_stripe then (-1, 0)
      else
        let stripe_off := stripe_off - this_stripe in
        if ssize <=? stripe_off then (1, ssize) else (0, stripe_off) in
    (ret, s64 (lov_off * ssize + stripe_off)).

Definition lov_size_to_stripe (entry : lov_stripe_md_entry) (file_size stripeno : Z) : Z :=
  let ssize := lsme_stripe_size entry in
  if file_size =? OBD_OBJECT_EOF then s64 OBD_OBJECT_EOF
  else
    let swidth := stripe_width entry in
    let '(stripe_off, file_size) := lov_do_div64 file_size swidth in
    let this_stripe := s64 (stripeno * ssize) in
    let '(file_size, stripe_off) :=
      if stripe_off <? this_stripe then
        if 0 <? file_size then (file_size - 1, ssize) else (file_size, 0)
      else
        let stripe_off := stripe_off - this_stripe in
        (file_size, if ssize <=? stripe_off then ssize else stripe_off) in
    s64 (file_size * ssize + stripe_off).

(** The return value, [*obd_start] and [*obd_end]. *)
Definition lov_stripe_intersects (entry : lov_stripe_md_entry) (stripeno : Z) (ext : lu_extent)
    (obd_start0 obd_end0 : Z) : bool * Z * Z :=
  if negb (lu_extent_is_overlapped ext (lsme_extent entry)) then (false, obd_start0, obd_end0)
  else
    let start := Z.max (e_start ext) (e_start (lsme_extent entry)) in
    let end_ := Z.min (e_end ext) (e_end (lsme_extent entry)) in
    let end_ := if negb (end_ =? OBD_OBJECT_EOF) then end_ - 1 else end_ in
    let '(start_side, obd_start) := lov_stripe_offset entry (s64 start) stripeno in
    let '(end_side, obd_end) := lov_stripe_offset entry (s64 end_) stripeno in
    let obd_start := u64 obd_start in
    let obd_end := u64 obd_end in
    if negb (start_side =? 0) && negb (end_side =? 0) && (obd_start =? obd_end)
    then (false, obd_start, obd_end)
    else (true, obd_start, if negb (end_side =? 0) then u64 (obd_end - 1) else obd_end).

Definition lov_stripe_number (entry : lov_stripe_md_entry) (lov_off : Z) : Z :=
  let ssize := lsme_stripe_size entry in
  let swidth := stripe_width entry in
  let '(stripe_off, _) := lov_do_div64 lov_off swidth in
  let '(_, stripe_off) := lov_do_div64 stripe_off ssize in
  s32 stripe_off.

(** ** Merging the attributes of the objects *)

Definition OST_LVB_ERR_INIT : Z := 0xffbadbad80000000.
Definition OST_LVB_ERR_MASK : Z := 0xffbadbad00000000.
Definition OST_LVB_IS_ERR (blocks : Z) : bool :=
  Z.land blocks OST_LVB_ERR_MASK =? OST_LVB_ERR_MASK.
Definition OST_LVB_SET_ERR (rc : Z) : Z := u64 (OST_LVB_ERR_INIT + rc).
Definition OST_LVB_GET_ERR (blocks : Z) : Z := s32 (blocks - OST_LVB_ERR_INIT).

(** The locals of the loop: [kms] and the merged attributes. *)
Record merge_state := MergeState {
  mg_rc : Z;
  mg_kms : Z;
  mg_lvb : ost_lvb
}.

Definition merge_stripe (lse : lov_stripe_md_entry) (i : Z) (loi : lov_oinfo) (m : merge_state)
    : merge_state :=
  let l := loi_lvb loi in
  if OST_LVB_IS_ERR (lvb_blocks l) then
    MergeState (OST_LVB_GET_ERR (lvb_blocks l)) (mg_kms m) (mg_lvb m)
  else
    let tmpsize := loi_kms loi in
    let lov_size := lov_stripe_size lse tmpsize i in
    let kms := if mg_kms m <? lov_size then lov_size else mg_kms m in
    let tmpsize := if tmpsize <? lvb_size l then lvb_size l else tmpsize in
    let lov_size := lov_stripe_size lse tmpsize i in
    let g := mg_lvb m in
    MergeState (mg_rc m) kms
      (OstLvb (if lvb_size g <? lov_size then lov_size else lvb_size g)
              (if lvb_mtime g <? lvb_mtime l then lvb_mtime l else lvb_mtime g)
              (if lvb_atime g <? lvb_atime l then lvb_atime l else lvb_atime g)
              (if lvb_ctime g <? lvb_ctime l then lvb_ctime l else lvb_ctime g)
              (u64 (lvb_blocks g + lvb_blocks l))).

Fixpoint merge_loop (lse : lov_stripe_md_entry) (i : Z) (l : list lov_oinfo) (m : merge_state)
    : merge_state :=
  match l with
  | [] => m
  | loi :: l' => merge_loop lse (i + 1) l' (merge_stripe lse i loi m)
  end.

(** The return code, [*lvb] and [*kms_place]. *)
Definition lov_merge_lvb_kms (lse : lov_stripe_md_entry) (lvb : ost_lvb) : Z * ost_lvb * Z :=
  let m := merge_loop lse 0 (take (Z.to_nat (lsme_stripe_count lse)) (lsme_oinfo lse))
             (MergeState 0 0 (OstLvb 0 (lvb_mtime lvb) (lvb_atime lvb) (lvb_ctime lvb) 0)) in
  (mg_rc m, mg_lvb m, mg_kms m).

(** ** The layout *)

(** A component with [N] stripes of [S] bytes. *)
Record layout_ok (e : lov_stripe_md_entry) (S N : Z) : Prop := {
  lo_ssize : lsme_stripe_size e = S;
  lo_ssize_pos : 0 < S < 2 ^ 32;
  lo_count : N = if lsme_is_dom e then 1 else lsme_stripe_count e;
  lo_count_pos : 0 < N < 2 ^ 16
}.

(** Byte [x] of object [i] is this byte of the file. *)
Definition file_offset (S N i x : Z) : Z := x / S * (S * N) + i * S + x mod S.

Section Layout.
Context (e : lov_stripe_md_entry) (S N : Z) (Hlo : layout_ok e S N).

Lemma stripe_width_eq : stripe_width e = S * N.
Proof.
  destruct Hlo as [H1 H2 H3 H4]. unfold stripe_width. rewrite H1.
  destruct (lsme_is_dom e); subst N; [lia|]. apply swrap_small; nia.
Qed.

Lemma width_bound : 0 < S * N < 2 ^ 48.
Proof. destruct Hlo as [_ H2 _ H4]. nia. Qed.

(** The quotient, stripe and remainder of an offset. *)
Lemma offset_split o :
  0 <= o ->
  exists q i r, o = q * (S * N) + i * S + r /\ 0 <= q /\ 0 <= i < N /\ 0 <= r < S.
Proof.
  intros Ho. pose proof width_bound as Hw. destruct Hlo as [_ HS _ HN].
  exists (o / (S * N)), (o mod (S * N) / S), (o mod (S * N) mod S).
  pose proof (Z.div_mod o (S * N)). pose proof (Z.mod_pos_bound o (S * N)).
  pose proof (Z.div_mod (o mod (S * N)) S). pose proof (Z.mod_pos_bound (o mod (S * N)) S).
  split_and!; try lia.
  - apply Z.div_pos; lia.
  - apply Z.div_pos; lia.
  - apply Z.div_lt_upper_bound; lia.
Qed.

Lemma offset_parts q i r :
  0 <= i < N -> 0 <= r < S ->
  (q * (S * N) + i * S + r) / (S * N) = q /\ (q * (S * N) + i * S + r) mod (S * N) = i * S + r.
Proof.
  intros Hi Hr. destruct Hlo as [_ HS _ HN].
  assert (0 <= i * S + r < S * N) by nia. split; symmetry.
  - apply (Z.div_unique_pos _ _ _ (i * S + r)); lia.
  - apply (Z.mod_unique_pos _ _ q); lia.
Qed.

Lemma object_parts q r : 0 <= r < S -> (q * S + r) / S = q /\ (q * S + r) mod S = r.
Proof.
  intros Hr. split; symmetry.
  - apply (Z.div_unique_pos _ _ _ r); lia.
  - apply (Z.mod_unique_pos _ _ q); lia.
Qed.

Lemma file_offset_split q i r : 0 <= r < S -> file_offset S N i (q * S + r) = q * (S * N) + i * S + r.
Proof. intros Hr. unfold file_offset. by destruct (object_parts q r Hr) as [-> ->]. Qed.

(** ** The operations in these terms *)

Section Parts.
Context (q i r : Z) (Hq : 0 <= q) (Hi : 0 <= i < N) (Hr : 0 <= r < S).
Abbreviation o := (q * (S * N) + i * S + r).
Context (Hmax : o < 2 ^ 63).

Lemma lov_div_width : lov_do_div64 o (stripe_width e) = (i * S + r, q).
Proof.
  pose proof width_bound. destruct (offset_parts q i r Hi Hr) as [H1 H2].
  destruct Hlo as [_ HS _ HN]. unfold lov_do_div64. rewrite stripe_width_eq.
  rewrite !wrap_small by (unfold in_u; nia). by rewrite H1, H2.
Qed.

Lemma offset_not_eof : (u64 o =? OBD_OBJECT_EOF) = false /\ (o =? OBD_OBJECT_EOF) = false.
Proof.
  destruct Hlo as [_ HS _ HN]. unfold OBD_OBJECT_EOF. rewrite wrap_small by (unfold in_u; nia).
  assert (0 <= o) by nia. lia.
Qed.

Lemma lov_stripe_number_parts : lov_stripe_number e o = i.
Proof.
  unfold lov_stripe_number. rewrite lov_div_width. destruct (object_parts i r Hr) as [Hd _].
  destruct Hlo as [-> HS _ HN]. unfold lov_do_div64.
  rewrite !wrap_small by (unfold in_u; nia). rewrite Hd. apply swrap_small; nia.
Qed.

Lemma this_stripe_small j : 0 <= j < N -> s64 (j * lsme_stripe_size e) = j * S.
Proof. intros Hj. destruct Hlo as [-> HS _ HN]. apply swrap_small; nia. Qed.

Lemma lov_stripe_offset_parts j :
  0 <= j < N ->
  lov_stripe_offset e o j
  = if i <? j then (-1, q * S) else if i =? j then (0, q * S + r) else (1, q * S + S).
Proof.
  intros Hj. unfold lov_stripe_offset. rewrite (proj1 offset_not_eof), lov_div_width.
  rewrite this_stripe_small by done. destruct Hlo as [-> HS _ HN].
  destruct (Z.ltb_spec i j); [|destruct (Z.eqb_spec i j) as [->|]].
  - rewrite (proj2 (Z.ltb_lt _ _)) by nia. rewrite Z.add_0_r.
    by rewrite (swrap_small 64) by nia.
  - rewrite (proj2 (Z.ltb_ge _ _)) by nia. rewrite (proj2 (Z.leb_gt _ _)) by nia.
    replace (j * S + r - j * S) with r by lia. by rewrite (swrap_small 64) by nia.
  - rewrite (proj2 (Z.ltb_ge _ _)) by nia. rewrite (proj2 (Z.leb_le _ _)) by nia.
    by rewrite (swrap_small 64) by nia.
Qed.

Lemma lov_size_to_stripe_parts j :
  0 <= j < N ->
  lov_size_to_stripe e o j
  = if i <? j then q * S else if i =? j then q * S + r else q * S + S.
Proof.
  intros Hj. unfold lov_size_to_stripe. rewrite (proj2 offset_not_eof), lov_div_width.
  rewrite this_stripe_small by done. destruct Hlo as [-> HS _ HN].
  destruct (Z.ltb_spec i j); [|destruct (Z.eqb_spec i j) as [->|]].
  - rewrite (proj2 (Z.ltb_lt _ _)) by nia. destruct (Z.ltb_spec 0 q).
    + rewrite (swrap_small 64) by nia. lia.
    + rewrite (swrap_small 64) by nia. lia.
  - rewrite (proj2 (Z.ltb_ge _ _)) by nia. rewrite (proj2 (Z.leb_gt _ _)) by nia.
    rewrite (swrap_small 64) by nia. lia.
  - rewrite (proj2 (Z.ltb_ge _ _)) by nia. rewrite (proj2 (Z.leb_le _ _)) by nia.
    by rewrite (swrap_small 64) by nia.
Qed.

(** An object that ends right behind this byte ends the file right behind it. *)
Lemma lov_stripe_size_parts : lov_stripe_size e (q * S + r + 1) i = o + 1.
Proof.
  unfold lov_stripe_size. rewrite stripe_width_eq. pose proof Hlo as [-> HS _ HN].
  rewrite (proj2 (Z.eqb_neq _ _)) by nia. unfold lov_do_div64.
  rewrite (wrap_small 64 S) by (unfold in_u; nia). rewrite wrap_small by (unfold in_u; nia).
  destruct (Z.eq_dec (r + 1) S) as [He|He].
  - replace (q * S + r + 1) with ((q + 1) * S + 0) by lia.
    destruct (object_parts (q + 1) 0) as [-> ->]; [lia|]. simpl.
    rewrite wrap_swrap by lia. rewrite wrap_small by (unfold in_u; nia). nia.
  - replace (q * S + r + 1) with (q * S + (r + 1)) by lia.
    destruct (object_parts q (r + 1)) as [-> ->]; [lia|].
    rewrite (proj2 (Z.eqb_neq _ _)) by lia. simpl.
    rewrite wrap_swrap by lia. rewrite wrap_small by (unfold in_u; nia). lia.
Qed.
End Parts.
End Layout.

(** Comparing two offsets comes down to comparing their parts. *)
Lemma parts_lt S N q i r q' i' r' :
  0 < S -> 0 <= i < N -> 0 <= r < S -> 0 <= i' < N -> 0 <= r' < S ->
  q * (S * N) + i * S + r < q' * (S * N) + i' * S + r'
  <-> q < q' \/ q = q' /\ (i < i' \/ i = i' /\ r < r').
Proof.
  intros HS Hi Hr Hi' Hr'.
  assert (0 <= i * S + r < S * N) by nia. assert (0 <= i' * S + r' < S * N) by nia.
  assert (Hw : 0 < S * N) by nia.
  destruct (Z.lt_trichotomy q q') as [Hq|[->|Hq]].
  - assert (q * (S * N) + S * N <= q' * (S * N)) by nia. split; [lia|lia].
  - destruct (Z.lt_trichotomy i i') as [Hii|[->|Hii]].
    + assert (i * S + S <= i' * S) by nia. lia.
    + lia.
    + assert (i' * S + S <= i * S) by nia. lia.
  - assert (q' * (S * N) + S * N <= q * (S * N)) by nia. lia.
Qed.

Lemma object_lt S q r q' r' :
  0 <= r < S -> 0 <= r' <= S -> q * S + r < q' * S + r' <-> q < q' \/ q = q' /\ r < r'.
Proof.
  intros Hr Hr'. destruct (Z.lt_trichotomy q q') as [Hq|[->|Hq]].
  - assert (q * S + S <= q' * S) by nia. lia.
  - lia.
  - assert (q' * S + S <= q * S) by nia. lia.
Qed.

Section Theorems.
Context (e : lov_stripe_md_entry) (S N : Z) (Hlo : layout_ok e S N).

Lemma object_split x : 0 <= x -> exists q r, x = q * S + r /\ 0 <= q /\ 0 <= r < S.
Proof.
  intros Hx. destruct Hlo as [_ HS _ _]. exists (x / S), (x mod S).
  pose proof (Z.div_mod x S). pose proof (Z.mod_pos_bound x S).
  pose proof (Z.div_pos x S). lia.
Qed.

(** How many bytes of the object lie below a position of the file: the value both
    clamping functions compute. *)
Definition below (q i r j : Z) : Z :=
  if i <? j then q * S else if i =? j then q * S + r else q * S + S.

Lemma below_spec q i r j x :
  0 <= i < N -> 0 <= r < S -> 0 <= j < N -> 0 <= x ->
  x < below q i r j <-> file_offset S N j x < q * (S * N) + i * S + r.
Proof.
  intros Hi Hr Hj Hx. destruct (object_split x Hx) as (q' & r' & -> & Hq' & Hr').
  rewrite file_offset_split by done. pose proof Hlo as [_ HS _ HN].
  rewrite parts_lt by lia. unfold below.
  destruct (Z.ltb_spec i j); [|destruct (Z.eqb_spec i j)].
  - replace (q * S) with (q * S + 0) by lia. rewrite object_lt by lia. lia.
  - rewrite object_lt by lia. lia.
  - rewrite object_lt by lia. lia.
Qed.

(** C23: striping is a bijection.  Every byte of the file lives in exactly one
    place: [lov_stripe_number] and [lov_stripe_offset] give the stripe and the
    offset inside its object, and the object that ends right behind that byte
    makes [lov_stripe_size] put the end of the file right behind it. *)
Theorem striping_roundtrip o :
  0 <= o < 2 ^ 63 ->
  0 <= lov_stripe_number e o < N
  /\ exists x, lov_stripe_offset e o (lov_stripe_number e o) = (0, x) /\ 0 <= x <= o
     /\ file_offset S N (lov_stripe_number e o) x = o
     /\ lov_stripe_size e (x + 1) (lov_stripe_number e o) = o + 1.
Proof.
  intros [Ho Hmax]. destruct (offset_split e S N Hlo o Ho) as (q & i & r & -> & Hq & Hi & Hr).
  pose proof Hlo as [_ HS _ HN].
  rewrite (lov_stripe_number_parts e S N Hlo) by done. split; [done|]. exists (q * S + r).
  rewrite (lov_stripe_offset_parts e S N Hlo), Z.ltb_irrefl, Z.eqb_refl by done.
  split_and!; [done|nia|nia|by apply file_offset_split|by apply (lov_stripe_size_parts e S N Hlo)].
Qed.

(** and every byte of every object belongs to the file: the offset of byte [x]
    of object [i] is mapped back to [i] and [x]. *)
Theorem striping_inverse i x :
  0 <= i < N -> 0 <= x -> file_offset S N i x < 2 ^ 63 ->
  lov_stripe_number e (file_offset S N i x) = i
  /\ lov_stripe_offset e (file_offset S N i x) i = (0, x)
  /\ lov_stripe_size e (x + 1) i = file_offset S N i x + 1.
Proof.
  intros Hi Hx Hmax. destruct (object_split x Hx) as (q & r & -> & Hq & Hr).
  rewrite file_offset_split in * by done.
  rewrite (lov_stripe_number_parts e S N Hlo), (lov_stripe_offset_parts e S N Hlo) by done.
  rewrite Z.ltb_irrefl, Z.eqb_refl. split_and!; [done..|by apply (lov_stripe_size_parts e S N Hlo)].
Qed.

Lemma cut_below size i x :
  0 <= size < 2 ^ 63 -> 0 <= i < N -> 0 <= x ->
  x < lov_size_to_stripe e size i <-> file_offset S N i x < size.
Proof.
  intros [Hs Hmax] Hi Hx. destruct (offset_split e S N Hlo size Hs) as (q & j & r & -> & Hq & Hj & Hr).
  rewrite (lov_size_to_stripe_parts e S N Hlo) by done. by apply below_spec.
Qed.

Lemma size_to_stripe_nonneg size i :
  0 <= size < 2 ^ 63 -> 0 <= i < N -> 0 <= lov_size_to_stripe e size i.
Proof.
  intros [Hs Hmax] Hi. destruct (offset_split e S N Hlo size Hs) as (q & j & r & -> & Hq & Hj & Hr).
  rewrite (lov_size_to_stripe_parts e S N Hlo) by done. pose proof Hlo as [_ HS _ _].
  repeat case_match; nia.
Qed.

(** ** Merged sizes *)

(** The loop keeps the largest end of file over the objects it has seen. *)
Lemma merge_loop_kms l i m :
  Forall (fun loi => OST_LVB_IS_ERR (lvb_blocks (loi_lvb loi)) = false) l ->
  let m' := merge_loop e i l m in
  mg_rc m' = mg_rc m
  /\ mg_kms m <= mg_kms m'
  /\ (forall k loi, l !! k = Some loi ->
        lov_stripe_size e (loi_kms loi) (i + Z.of_nat k) <= mg_kms m')
  /\ (mg_kms m' = mg_kms m \/ exists k loi, l !! k = Some loi
        /\ mg_kms m' = lov_stripe_size e (loi_kms loi) (i + Z.of_nat k)).
Proof.
  intros Hl. revert i m. induction Hl as [|loi l Hloi _ IH]; intros i m; simpl.
  { split_and!; [done|lia|done|by left]. }
  destruct (IH (i + 1) (merge_stripe e i loi m)) as (Hrc & Hle & Hall & Hex).
  assert (Hrc1 : mg_rc (merge_stripe e i loi m) = mg_rc m)
    by (unfold merge_stripe; by rewrite Hloi).
  assert (Hk1 : mg_kms (merge_stripe e i loi m)
                = Z.max (mg_kms m) (lov_stripe_size e (loi_kms loi) i)).
  { unfold merge_stripe. rewrite Hloi. simpl. case_match; lia. }
  split_and!; [congruence|lia| |].
  - intros [|k] loi' Hk; simpl in Hk.
    + injection Hk as <-. rewrite Z.add_0_r. lia.
    + specialize (Hall k loi' Hk). by replace (i + Z.of_nat (Datatypes.S k))
        with (i + 1 + Z.of_nat k) by lia.
  - destruct Hex as [Heq|(k & loi' & Hk & Heq)].
    + destruct (Z.max_spec (mg_kms m) (lov_stripe_size e (loi_kms loi) i)) as [[? Hm]|[? Hm]].
      * right. exists 0%nat, loi. rewrite Z.add_0_r. split; [done|congruence].
      * left. congruence.
    + right. exists (Datatypes.S k), loi'. split; [done|]. rewrite Heq. f_equal. lia.
Qed.

(** When the sizes agree with the known minimum sizes, so does the merged size. *)
Lemma merge_loop_size l i m :
  Forall (fun loi => lvb_size (loi_lvb loi) = loi_kms loi) l ->
  lvb_size (mg_lvb m) = mg_kms m ->
  lvb_size (mg_lvb (merge_loop e i l m)) = mg_kms (merge_loop e i l m).
Proof.
  intros Hl. revert i m. induction Hl as [|loi l Hloi _ IH]; intros i m Hm; simpl; [done|].
  apply IH. unfold merge_stripe. case_match; simpl; [done|].
  rewrite Hloi, Z.ltb_irrefl, Hm. done.
Qed.

(** The end of file an object of the cut file accounts for. *)
Lemma cut_stripe_size size i :
  0 <= size < 2 ^ 63 -> 0 <= i < N ->
  lov_stripe_size e (lov_size_to_stripe e size i) i <= size.
Proof.
  intros Hs Hi. pose proof (size_to_stripe_nonneg size i Hs Hi) as Hnn.
  destruct (Z.eq_dec (lov_size_to_stripe e size i) 0) as [Hz|Hz].
  { rewrite Hz. change (lov_stripe_size e 0 i) with 0. lia. }
  remember (lov_size_to_stripe e size i - 1) as x eqn:Ex.
  assert (Hlt : file_offset S N i x < size).
  { apply cut_below; lia. }
  assert (Hx : 0 <= x) by lia.
  destruct (object_split x Hx) as (q & r & Hxs & Hq & Hr).
  replace (lov_size_to_stripe e size i) with (x + 1) by lia.
  rewrite Hxs, file_offset_split in * by done.
  rewrite (lov_stripe_size_parts e S N Hlo) by lia. lia.
Qed.

Lemma last_byte_stripe size :
  0 < size < 2 ^ 63 ->
  exists i, 0 <= i < N /\ lov_stripe_size e (lov_size_to_stripe e size i) i = size.
Proof.
  intros Hs. destruct (offset_split e S N Hlo (size - 1)) as (q & i & r & Ho & Hq & Hi & Hr); [lia|].
  exists i. split; [done|]. pose proof Hlo as [_ HS _ HN].
  assert (Hx : lov_size_to_stripe e size i = q * S + r + 1).
  { destruct (Z.eq_dec (r + 1) S) as [He|He].
    - destruct (Z.eq_dec (i + 1) N) as [Hi1|Hi1].
      + replace size with ((q + 1) * (S * N) + 0 * S + 0) by nia.
        rewrite (lov_size_to_stripe_parts e S N Hlo) by nia.
        destruct (Z.ltb_spec 0 i); [nia|]. rewrite (proj2 (Z.eqb_eq _ _)) by lia. nia.
      + replace size with (q * (S * N) + (i + 1) * S + 0) by nia.
        rewrite (lov_size_to_stripe_parts e S N Hlo) by nia.
        rewrite (proj2 (Z.ltb_ge _ _)), (proj2 (Z.eqb_neq _ _)) by lia. lia.
    - replace size with (q * (S * N) + i * S + (r + 1)) by lia.
      rewrite (lov_size_to_stripe_parts e S N Hlo), Z.ltb_irrefl, Z.eqb_refl by lia. lia. }
  rewrite Hx, (lov_stripe_size_parts e S N Hlo) by lia. lia.
Qed.

(** [lov_size_to_stripe] is exact: when the file is cut at [size], the object of
    stripe [i] keeps precisely its bytes that lie below [size], as many as the
    file has there. *)
Theorem size_to_stripe_exact size i :
  0 <= size < 2 ^ 63 -> 0 <= i < N ->
  0 <= lov_size_to_stripe e size i
  /\ forall x, 0 <= x -> x < lov_size_to_stripe e size i <-> file_offset S N i x < size.
Proof. intros Hs Hi. split; [by apply size_to_stripe_nonneg|]. intros x. by apply cut_below. Qed.

(** C25: cutting a file at [size] and merging the attributes of its objects gives the
    file size [size] back: with every object truncated to [lov_size_to_stripe],
    [lov_merge_lvb_kms] reports exactly [size], both as the size and as the known
    minimum size. *)
Theorem truncate_merge_size size lvb :
  0 <= size < 2 ^ 63 -> lsme_is_dom e = false -> length (lsme_oinfo e) = Z.to_nat N ->
  (forall k loi, lsme_oinfo e !! k = Some loi ->
     OST_LVB_IS_ERR (lvb_blocks (loi_lvb loi)) = false
     /\ loi_kms loi = lov_size_to_stripe e size (Z.of_nat k)
     /\ lvb_size (loi_lvb loi) = loi_kms loi) ->
  exists lvb', lov_merge_lvb_kms e lvb = (0, lvb', size) /\ lvb_size lvb' = size.
Proof.
  intros Hs Hdom Hlen Hobj. unfold lov_merge_lvb_kms.
  pose proof Hlo as [_ HS HNc HN]. rewrite Hdom in HNc. rewrite <-HNc, <-Hlen, take_ge by lia.
  set (m := merge_loop _ _ _ _).
  destruct (merge_loop_kms (lsme_oinfo e) 0 (MergeState 0 0 (OstLvb 0 (lvb_mtime lvb)
    (lvb_atime lvb) (lvb_ctime lvb) 0))) as (Hrc & Hle & Hall & Hex).
  { apply Forall_lookup. intros k loi Hk. by apply (Hobj k loi Hk). }
  assert (Hsize : lvb_size (mg_lvb m) = mg_kms m).
  { apply merge_loop_size; [|done]. apply Forall_lookup. intros k loi Hk. by apply (Hobj k loi Hk). }
  fold m in Hrc, Hle, Hall, Hex. simpl in Hrc, Hle, Hex.
  assert (Hkms : mg_kms m = size).
  { apply Z.le_antisymm.
    - destruct Hex as [->|(k & loi & Hk & ->)]; [lia|].
      destruct (Hobj k loi Hk) as (_ & -> & _). apply lookup_lt_Some in Hk.
      apply cut_stripe_size; [done|lia].
    - destruct (Z.eq_dec size 0) as [->|Hnz]; [done|].
      destruct (last_byte_stripe size) as (i & Hi & Hi2); [lia|].
      destruct (lookup_lt_is_Some_2 (lsme_oinfo e) (Z.to_nat i)) as [loi Hk]; [lia|].
      specialize (Hall _ _ Hk). destruct (Hobj _ _ Hk) as (_ & Heq & _).
      rewrite Heq, Z2Nat.id, Z.add_0_l, Hi2 in Hall by lia. done. }
  exists (mg_lvb m). rewrite Hrc, Hkms. split; [done|]. by rewrite Hsize.
Qed.

(** ** Intersection *)

(** The clamped offset counts the bytes of the object below the position, and the
    side is 0 when the position itself lies in the object. *)
Lemma stripe_offset_clamp o j :
  0 <= o < 2 ^ 63 -> 0 <= j < N ->
  exists side v, lov_stripe_offset e o j = (side, v) /\ 0 <= v < 2 ^ 63
    /\ (forall x, 0 <= x -> x < v <-> file_offset S N j x < o)
    /\ (side = 0 -> file_offset S N j v = o)
    /\ (side <> 0 -> forall x, 0 <= x -> file_offset S N j x <> o).
Proof.
  intros [Ho Hmax] Hj. destruct (offset_split e S N Hlo o Ho) as (q & i & r & -> & Hq & Hi & Hr).
  pose proof Hlo as [_ HS _ HN].
  rewrite (lov_stripe_offset_parts e S N Hlo) by done.
  exists (if i <? j then -1 else if i =? j then 0 else 1), (below q i r j).
  split; [unfold below; by repeat case_match|]. split; [unfold below; repeat case_match; nia|].
  split; [intros x Hx; by apply below_spec|]. split.
  - intros Hz. unfold below. destruct (Z.ltb_spec i j); [done|].
    destruct (Z.eqb_spec i j) as [->|]; [|done]. by apply file_offset_split.
  - intros Hz x Hx. destruct (object_split x Hx) as (q' & r' & -> & ? & ?).
    rewrite file_offset_split by done. intros Heq.
    assert (i <> j) by (intros ->; by rewrite Z.ltb_irrefl, Z.eqb_refl in Hz).
    pose proof (parts_lt S N q' j r' q i r). pose proof (parts_lt S N q i r q' j r'). lia.
Qed.

Lemma file_offset_mono j x y :
  0 <= j < N -> 0 <= x -> 0 <= y -> file_offset S N j x < file_offset S N j y <-> x < y.
Proof.
  intros Hj Hx Hy. destruct (object_split x Hx) as (q & r & -> & ? & ?).
  destruct (object_split y Hy) as (q' & r' & -> & ? & ?).
  rewrite !file_offset_split, object_lt, parts_lt by lia. lia.
Qed.

Lemma extent_cut ext :
  e_start ext < e_end ext -> e_start (lsme_extent e) < e_end (lsme_extent e) ->
  lu_extent_is_overlapped ext (lsme_extent e) = true ->
  Z.max (e_start ext) (e_start (lsme_extent e)) < Z.min (e_end ext) (e_end (lsme_extent e)).
Proof. unfold lu_extent_is_overlapped. lia. Qed.

(** The intersection with an extent that has an end. *)
Lemma intersects_bounded ext j s0 e0 :
  0 <= j < N -> 0 <= e_start ext < e_end ext ->
  0 <= e_start (lsme_extent e) < e_end (lsme_extent e) ->
  Z.min (e_end ext) (e_end (lsme_extent e)) <= 2 ^ 63 ->
  let inside x := lu_extent_is_overlapped ext (lsme_extent e) = true
                  /\ Z.max (e_start ext) (e_start (lsme_extent e)) <= file_offset S N j x
                     < Z.min (e_end ext) (e_end (lsme_extent e)) in
  match lov_stripe_intersects e j ext s0 e0 with
  | (true, a, b) => 0 <= a <= b /\ forall x, 0 <= x -> a <= x <= b <-> inside x
  | (false, _, _) => forall x, 0 <= x -> ~ inside x
  end.
Proof.
  intros Hj Hext Hcomp Hmax. cbv zeta. unfold lov_stripe_intersects.
  destruct (lu_extent_is_overlapped ext (lsme_extent e)) eqn:Hov; simpl; [|by intros x _ [? _]].
  pose proof (extent_cut ext ltac:(lia) ltac:(lia) Hov) as Hcut.
  remember (Z.max (e_start ext) (e_start (lsme_extent e))) as start eqn:Es.
  remember (Z.min (e_end ext) (e_end (lsme_extent e))) as end_ eqn:Ee.
  rewrite (proj2 (Z.eqb_neq end_ OBD_OBJECT_EOF)) by (unfold OBD_OBJECT_EOF; lia). simpl.
  rewrite !(swrap_small 64) by lia.
  destruct (stripe_offset_clamp start j) as (ss & a & -> & Ha & Ha1 & Ha2 & Ha3); [lia|done|].
  destruct (stripe_offset_clamp (end_ - 1) j) as (es & v & -> & Hv & Hv1 & Hv2 & Hv3); [lia|done|].
  rewrite !(wrap_small 64 a), !(wrap_small 64 v) by (unfold in_u; lia).
  assert (Hav : a <= v).
  { destruct (Z.le_gt_cases a v) as [|Hgt]; [done|]. apply Ha1 in Hgt; [|lia].
    assert (Hvv : ~ v < v) by lia. rewrite Hv1 in Hvv by lia. lia. }
  destruct (Z.eqb_spec es 0) as [Hes|Hes]; simpl.
  - rewrite andb_false_r. simpl. split; [lia|]. intros x Hx. specialize (Ha1 x Hx).
    pose proof (file_offset_mono j v x Hj ltac:(lia) Hx) as Hm. rewrite Hv2 in Hm by done.
    split; [intros; split; [done|]|intros [_ ?]]; lia.
  - destruct (Z.eqb_spec ss 0) as [Hss|Hss], (Z.eqb_spec a v) as [Heq|Hne]; simpl.
    + exfalso. apply (Hv3 Hes a); [lia|]. pose proof (Ha2 Hss) as Hs.
      assert (Hvv : ~ a < v) by lia. rewrite Hv1 in Hvv by lia. lia.
    + rewrite wrap_small by (unfold in_u; lia). split; [lia|]. intros x Hx.
      specialize (Ha1 x Hx). specialize (Hv1 x Hx). specialize (Hv3 Hes x Hx).
      split; [intros; split; [done|]|intros [_ ?]]; lia.
    + intros x Hx [_ ?]. specialize (Ha1 x Hx). specialize (Hv1 x Hx). specialize (Hv3 Hes x Hx). lia.
    + rewrite wrap_small by (unfold in_u; lia). split; [lia|]. intros x Hx.
      specialize (Ha1 x Hx). specialize (Hv1 x Hx). specialize (Hv3 Hes x Hx).
      split; [intros; split; [done|]|intros [_ ?]]; lia.
Qed.

(** C26: [lov_stripe_intersects] computes the intersection of an extent of the file
    with one object: it says no when no byte of the object lies in the extent and
    in the component, and otherwise returns the first and last such byte, with
    nothing but such bytes between them. Extents end below 2^63, or are without an end, as
    those of the last component and of requests up to the end of the file are: then
    the last byte is [OBD_OBJECT_EOF]. *)
Theorem stripe_intersects_exact ext j s0 e0 :
  0 <= j < N -> 0 <= e_start ext < e_end ext ->
  0 <= e_start (lsme_extent e) < e_end (lsme_extent e) ->
  let first := Z.max (e_start ext) (e_start (lsme_extent e)) in
  let stop := Z.min (e_end ext) (e_end (lsme_extent e)) in
  stop <= 2 ^ 63 \/ stop = OBD_OBJECT_EOF /\ first < 2 ^ 63 ->
  let inside x := lu_extent_is_overlapped ext (lsme_extent e) = true /\ first <= file_offset S N j x
                  /\ if stop =? OBD_OBJECT_EOF then x <= OBD_OBJECT_EOF else file_offset S N j x < stop in
  match lov_stripe_intersects e j ext s0 e0 with
  | (true, a, b) => 0 <= a <= b /\ forall x, 0 <= x -> a <= x <= b <-> inside x
  | (false, _, _) => forall x, 0 <= x -> ~ inside x
  end.
Proof.
  intros Hj Hext Hcomp first stop [Hmax|[Heof Hfirst]]; cbv zeta.
  - pose proof (intersects_bounded ext j s0 e0 Hj Hext Hcomp Hmax) as H. cbv zeta in H. fold first stop in H.
    rewrite (proj2 (Z.eqb_neq stop OBD_OBJECT_EOF)) by (unfold OBD_OBJECT_EOF; lia).
    by destruct (lov_stripe_intersects e j ext s0 e0) as [[[] a] b].
  - rewrite Heof, Z.eqb_refl. unfold lov_stripe_intersects. fold first stop.
    destruct (lu_extent_is_overlapped ext (lsme_extent e)) eqn:Hov; cbn [negb]; [|by intros x _ [? _]].
    rewrite Heof, Z.eqb_refl. cbn [negb]. rewrite (swrap_small 64 first) by lia.
    destruct (stripe_offset_clamp first j) as (ss & a & -> & Ha & Ha1 & _); [lia|done|].
    change (lov_stripe_offset e (s64 OBD_OBJECT_EOF) j) with (0, s64 OBD_OBJECT_EOF).
    cbn [Z.eqb negb]. rewrite andb_false_r. cbn [andb]. rewrite (wrap_small 64 a) by (unfold in_u; lia).
    change (u64 (s64 OBD_OBJECT_EOF)) with OBD_OBJECT_EOF. split; [unfold OBD_OBJECT_EOF; lia|].
    intros x Hx. specialize (Ha1 x Hx). split; [intros; split; [done|]|intros (_ & ? & ?)]; lia.
Qed.
End Theorems.

(** ** Examples: three stripes of 64 KiB *)

Module Example.
Definition ext : lu_extent := LuExtent 0 0x100000000.
Definition lvb (size : Z) : ost_lvb := OstLvb size 0 0 0 8.
Definition obj (size : Z) : lov_oinfo := LovOinfo size (lvb size).
Definition layout (sizes : list Z) : lov_stripe_md_entry :=
  LsmEntry ext 1 0x10000 3 (obj <$> sizes).

Lemma layout_is_ok sizes : layout_ok (layout sizes) 0x10000 3.
Proof. by split. Qed.

Lemma striping_roundtrip_witness :
  0 <= lov_stripe_number (layout []) 0x54321 < 3
  /\ lov_stripe_number (layout []) 0x54321 = 2
  /\ lov_stripe_offset (layout []) 0x54321 2 = (0, 0x14321).
Proof.
  split; [|by vm_compute].
  apply (striping_roundtrip (layout []) 0x10000 3 (layout_is_ok []) 0x54321). lia.
Defined.

Lemma striping_inverse_witness : lov_stripe_number (layout []) (file_offset 0x10000 3 1 0x14321) = 1.
Proof.
  apply (striping_inverse (layout []) 0x10000 3 (layout_is_ok []) 1 0x14321); [lia|lia|by vm_compute].
Defined.

Lemma size_to_stripe_exact_witness :
  0x14320 < lov_size_to_stripe (layout []) 0x54321 2 <-> file_offset 0x10000 3 2 0x14320 < 0x54321.
Proof.
  apply (size_to_stripe_exact (layout []) 0x10000 3 (layout_is_ok []) 0x54321 2); lia.
Defined.

Definition cut : lov_stripe_md_entry := layout [0x20000; 0x20000; 0x14321].

Lemma truncate_merge_size_witness :
  exists lvb', lov_merge_lvb_kms cut (lvb 0) = (0, lvb', 0x54321) /\ lvb_size lvb' = 0x54321.
Proof.
  apply (truncate_merge_size cut 0x10000 3 (layout_is_ok _) 0x54321 (lvb 0)).
  - lia.
  - done.
  - done.
  - intros [|[|[|k]]] loi Hk; simpl in Hk; [injection Hk as <-..|done]; by vm_compute.
Defined.

Lemma stripe_intersects_exact_witness :
  lov_stripe_intersects (layout []) 1 (LuExtent 0x18000 0x48000) 0 0 = (true, 0x8000, 0x17fff)
  /\ (0x8000 <= 0x17fff <= 0x17fff <->
      0x18000 <= file_offset 0x10000 3 1 0x17fff < 0x48000).
Proof.
  pose proof (stripe_intersects_exact (layout []) 0x10000 3 (layout_is_ok []) (LuExtent 0x18000 0x48000)
    1 0 0 ltac:(lia) ltac:(simpl; lia) ltac:(simpl; lia) ltac:(simpl; lia)) as H.
  assert (Hr : lov_stripe_intersects (layout []) 1 (LuExtent 0x18000 0x48000) 0 0
               = (true, 0x8000, 0x17fff)) by by vm_compute.
  cbv zeta in H. rewrite Hr in H. split; [done|]. destruct H as [_ H].
  rewrite (H 0x17fff) by lia. simpl. split; [intros (_ & ? & ?); lia|]. intros ?. split; [done|]. lia.
Defined.
End Example.
