(* ===== verification/IntervalTree.v ===== *)
(** * Interval trees

    [lustre/ldlm/interval_tree.c]: the red-black tree of extents, augmented with
    the largest end of every subtree, that the lock manager keeps for the granted
    extent locks of a resource.

    A tree with parent pointers is modelled by the inductive tree below; a pointer
    to a node inside it by a zipper, the subtree at the node together with the
    path that leads back to the root ([in_parent] is the head of the path).  The
    payload [A] stands for the structure the node is embedded in. *)

From Stdlib Require Import Sorted.
From S2P Require Import Prelude.

(** ** Data *)

Inductive color := INTERVAL_RED | INTERVAL_BLACK.
Inductive interval_iter := INTERVAL_ITER_CONT | INTERVAL_ITER_STOP.

Record interval_node_extent := Extent {
  ext_start : Z;
  ext_end : Z
}.

#[export] Instance extent_eq_dec : EqDecision interval_node_extent.
Proof. solve_decision. Defined.

Section Tree.
Context {A : Type}.

(** A node: colour, [in_max_high], extent, payload and children. *)
Inductive tree :=
  | Leaf
  | Node (in_color : color) (in_max_high : Z) (in_extent : interval_node_extent) (data : A)
         (in_left in_right : tree).

(** The way up from a node: the parent, on which side of it the node hangs, and
    the parent's other child. *)
Inductive frame :=
  | InLeft (in_color : color) (in_max_high : Z) (in_extent : interval_node_extent) (data : A)
           (in_right : tree)
  | InRight (in_color : color) (in_max_high : Z) (in_extent : interval_node_extent) (data : A)
            (in_left : tree).

Definition path : Type := list frame.

Definition plug1 (t : tree) (f : frame) : tree :=
  match f with
  | InLeft c m e a r => Node c m e a t r
  | InRight c m e a l => Node c m e a l t
  end.

Fixpoint plug (t : tree) (p : path) : tree :=
  match p with [] => t | f :: p' => plug (plug1 t f) p' end.

(** [node ? node->in_max_high : 0] *)
Definition max_high (t : tree) : Z := match t with Leaf => 0 | Node _ m _ _ _ _ => m end.

Definition node_is_red (t : tree) : bool :=
  match t with Node INTERVAL_RED _ _ _ _ _ => true | _ => false end.
Definition node_is_black_or_0 (t : tree) : bool := negb (node_is_red t).

Definition set_color (c : color) (t : tree) : tree :=
  match t with Leaf => Leaf | Node _ m e a l r => Node c m e a l r end.

(** ** Comparison of extents *)

Definition extent_compare (e1 e2 : interval_node_extent) : Z :=
  if ext_start e1 =? ext_start e2 then
    if ext_end e1 <? ext_end e2 then -1
    else if ext_end e2 <? ext_end e1 then 1
    else 0
  else if ext_start e1 <? ext_start e2 then -1 else 1.

Definition extent_equal (e1 e2 : interval_node_extent) : bool :=
  (ext_start e1 =? ext_start e2) && (ext_end e1 =? ext_end e2).

Definition extent_overlapped (e1 e2 : interval_node_extent) : bool :=
  (ext_start e1 <=? ext_end e2) && (ext_start e2 <=? ext_end e1).

Definition max_u64 (x y : Z) : Z := if y <? x then x else y.
Definition min_u64 (x y : Z) : Z := if x <? y then x else y.

(** A new node, or why its extent is refused. *)
Definition interval_set (start end_ : Z) : Z + (interval_node_extent * Z) :=
  if end_ <? start then inl (- ERANGE) else inr (Extent start end_, end_).

(** ** Walking over the tree *)

Fixpoint interval_find (walk : tree) (ex : interval_node_extent) : option A :=
  match walk with
  | Leaf => None
  | Node _ _ e a l r =>
      let rc := extent_compare ex e in
      if rc =? 0 then Some a else if rc <? 0 then interval_find l ex else interval_find r ex
  end.

(** A callback gets the node and its own data. *)
Definition interval_callback (S : Type) : Type :=
  interval_node_extent -> A -> S -> interval_iter * S.

(** The leftmost and the rightmost node of a subtree, as positions. *)
Fixpoint interval_first (t : tree) (p : path) : tree * path :=
  match t with
  | Node c m e a l r =>
      match l with Leaf => (t, p) | Node _ _ _ _ _ _ => interval_first l (InLeft c m e a r :: p) end
  | Leaf => (t, p)
  end.

Fixpoint interval_last (t : tree) (p : path) : tree * path :=
  match t with
  | Node c m e a l r =>
      match r with Leaf => (t, p) | Node _ _ _ _ _ _ => interval_last r (InRight c m e a l :: p) end
  | Leaf => (t, p)
  end.

(** The parent reached by climbing while the node is a right (left) child. *)
Fixpoint climb_right (t : tree) (p : path) : option (tree * path) :=
  match p with
  | [] => None
  | InRight _ _ _ _ _ as f :: p' => climb_right (plug1 t f) p'
  | InLeft _ _ _ _ _ as f :: p' => Some (plug1 t f, p')
  end.

Fixpoint climb_left (t : tree) (p : path) : option (tree * path) :=
  match p with
  | [] => None
  | InLeft _ _ _ _ _ as f :: p' => climb_left (plug1 t f) p'
  | InRight _ _ _ _ _ as f :: p' => Some (plug1 t f, p')
  end.

Definition interval_next (t : tree) (p : path) : option (tree * path) :=
  match t with
  | Node c m e a l (Node _ _ _ _ _ _ as r) => Some (interval_first r (InRight c m e a l :: p))
  | _ => climb_right t p
  end.

Definition interval_prev (t : tree) (p : path) : option (tree * path) :=
  match t with
  | Node c m e a (Node _ _ _ _ _ _ as l) r => Some (interval_last l (InLeft c m e a r :: p))
  | _ => climb_left t p
  end.

(** The loops of [interval_iterate] and [interval_iterate_reverse]; every turn
    visits another node, so the number of nodes is fuel enough. *)
Fixpoint iterate_loop {S} (next : tree -> path -> option (tree * path)) (fuel : nat)
    (func : interval_callback S) (pos : option (tree * path)) (rc : interval_iter) (data : S)
    : interval_iter * S :=
  match fuel, pos with
  | O, _ | _, None | _, Some (Leaf, _) => (rc, data)
  | S fuel, Some (Node _ _ e a _ _ as t, p) =>
      let '(rc, data) := func e a data in
      match rc with
      | INTERVAL_ITER_STOP => (rc, data)
      | INTERVAL_ITER_CONT => iterate_loop next fuel func (next t p) rc data
      end
  end.

Fixpoint size (t : tree) : nat :=
  match t with Leaf => 0 | Node _ _ _ _ l r => S (size l + size r) end.

Definition interval_iterate {S} (root : tree) (func : interval_callback S) (data : S)
    : interval_iter * S :=
  iterate_loop interval_next (size root) func (Some (interval_first root [])) INTERVAL_ITER_CONT data.

Definition interval_iterate_reverse {S} (root : tree) (func : interval_callback S) (data : S)
    : interval_iter * S :=
  iterate_loop interval_prev (size root) func (Some (interval_last root [])) INTERVAL_ITER_CONT data.

(** ** Rotations *)

Definition node_max (e : interval_node_extent) (l r : tree) : Z :=
  max_u64 (ext_end e) (max_u64 (max_high l) (max_high r)).

(** The subtree at the node after the rotation; a missing child would be a null
    pointer dereference. *)
Definition __rotate_left (t : tree) : run tree :=
  match t with
  | Node c m e a l (Node rc _ re ra rl rr) =>
      Ret (Node rc m re ra (Node c (node_max e l rl) e a l rl) rr)
  | _ => LBUG
  end.

Definition __rotate_right (t : tree) : run tree :=
  match t with
  | Node c m e a (Node lc _ le la ll lr) r =>
      Ret (Node lc m le la ll (Node c (node_max e lr r) e a lr r))
  | _ => LBUG
  end.

(** ** Insertion *)

(** The loop, at the node [t] with path [p]; the result is the tree it leaves,
    before the root is painted. *)
Fixpoint insert_color_loop (t : tree) (p : path) : run tree :=
  match p with
  | [] => Ret t
  | parent :: p' =>
      match parent with
      | InLeft INTERVAL_BLACK _ _ _ _ | InRight INTERVAL_BLACK _ _ _ _ => Ret (plug t p)
      | InLeft INTERVAL_RED _ _ _ _ | InRight INTERVAL_RED _ _ _ _ =>
          match p' with
          | [] => LBUG
          | InLeft _ gm ge ga uncle :: p'' =>
              if node_is_red uncle then
                insert_color_loop
                  (Node INTERVAL_RED gm ge ga (set_color INTERVAL_BLACK (plug1 t parent))
                        (set_color INTERVAL_BLACK uncle)) p''
              else
                par ← (match parent with
                       | InRight _ _ _ _ _ => __rotate_left (plug1 t parent)
                       | InLeft _ _ _ _ _ => Ret (plug1 t parent)
                       end);
                g ← __rotate_right (Node INTERVAL_RED gm ge ga (set_color INTERVAL_BLACK par) uncle);
                Ret (plug g p'')
          | InRight _ gm ge ga uncle :: p'' =>
              if node_is_red uncle then
                insert_color_loop
                  (Node INTERVAL_RED gm ge ga (set_color INTERVAL_BLACK uncle)
                        (set_color INTERVAL_BLACK (plug1 t parent))) p''
              else
                par ← (match parent with
                       | InLeft _ _ _ _ _ => __rotate_right (plug1 t parent)
                       | InRight _ _ _ _ _ => Ret (plug1 t parent)
                       end);
                g ← __rotate_left (Node INTERVAL_RED gm ge ga uncle (set_color INTERVAL_BLACK par));
                Ret (plug g p'')
          end
      end
  end.

Definition interval_insert_color (t : tree) (p : path) : run tree :=
  root ← insert_color_loop t p; Ret (set_color INTERVAL_BLACK root).

(** The walk down: the node that already has this extent, or the path of the empty
    place; [in_max_high] is raised on the way. *)
Fixpoint insert_descend (e : interval_node_extent) (t : tree) (p : path) : (A * tree) + path :=
  match t with
  | Leaf => inr p
  | Node c m pe pa l r =>
      if extent_equal pe e then inl (pa, plug t p)
      else
        let m' := if m <? ext_end e then ext_end e else m in
        if extent_compare e pe <? 0 then insert_descend e l (InLeft c m' pe pa r :: p)
        else insert_descend e r (InRight c m' pe pa l :: p)
  end.

(** The node found instead of an insertion, and the tree. *)
Definition interval_insert (e : interval_node_extent) (mh : Z) (a : A) (root : tree)
    : run (option A * tree) :=
  match insert_descend e root [] with
  | inl (pa, root') => Ret (Some pa, root')
  | inr p =>
      root' ← interval_insert_color (Node INTERVAL_RED mh e a Leaf Leaf) p;
      Ret (None, root')
  end.
End Tree.

Arguments tree : clear implicits.
Arguments frame : clear implicits.
Arguments path : clear implicits.

(** ** Removal *)

Section Erase.
Context {A : Type}.

(** One turn of [interval_erase_color] with a black sibling: the loop moves up to
    the parent, or it is done. *)
Inductive erase_step :=
  | EraseUp (parent : tree A)
  | EraseDone (subtree : tree A).

(** [node] is the left (right) child of the parent [c m e a]; [tmp] its sibling. *)
Definition erase_left (node : tree A) (c : color) (m : Z) (e : interval_node_extent) (a : A)
    (tmp : tree A) : run erase_step :=
  match tmp with
  | Leaf => LBUG
  | Node _ _ _ _ tl tr =>
      if node_is_black_or_0 tl && node_is_black_or_0 tr then
        Ret (EraseUp (Node c m e a node (set_color INTERVAL_RED tmp)))
      else
        tmp ← (if node_is_black_or_0 tr then
                 match tmp with
                 | Node _ tm te ta tl tr =>
                     __rotate_right (Node INTERVAL_RED tm te ta (set_color INTERVAL_BLACK tl) tr)
                 | Leaf => LBUG
                 end
               else Ret tmp);
        match tmp with
        | Leaf => LBUG
        | Node _ tm te ta tl tr =>
            t ← __rotate_left (Node INTERVAL_BLACK m e a node
                                    (Node c tm te ta tl (set_color INTERVAL_BLACK tr)));
            Ret (EraseDone t)
        end
  end.

Definition erase_right (node : tree A) (c : color) (m : Z) (e : interval_node_extent) (a : A)
    (tmp : tree A) : run erase_step :=
  match tmp with
  | Leaf => LBUG
  | Node _ _ _ _ tl tr =>
      if node_is_black_or_0 tl && node_is_black_or_0 tr then
        Ret (EraseUp (Node c m e a (set_color INTERVAL_RED tmp) node))
      else
        tmp ← (if node_is_black_or_0 tl then
                 match tmp with
                 | Node _ tm te ta tl tr =>
                     __rotate_left (Node INTERVAL_RED tm te ta tl (set_color INTERVAL_BLACK tr))
                 | Leaf => LBUG
                 end
               else Ret tmp);
        match tmp with
        | Leaf => LBUG
        | Node _ tm te ta tl tr =>
            t ← __rotate_right (Node INTERVAL_BLACK m e a
                                     (Node c tm te ta (set_color INTERVAL_BLACK tl) tr) node);
            Ret (EraseDone t)
        end
  end.

(** The end of [interval_erase_color]: with the loop broken off, [node] is the root;
    otherwise it is the node the loop stopped at. *)
Definition erase_finish (t : tree A) (p : path A) : tree A := plug (set_color INTERVAL_BLACK t) p.

(** The loop at [node] with path [p].  A red sibling is first rotated above the
    parent, which becomes red: when the loop then moves up to the parent it stops
    there. *)
Fixpoint interval_erase_color (node : tree A) (p : path A) : run (tree A) :=
  if negb (node_is_black_or_0 node) then Ret (erase_finish node p)
  else
    match p with
    | [] => Ret (erase_finish node [])
    | InLeft c m e a tmp :: p' =>
        if node_is_red tmp then
          match tmp with
          | Leaf => LBUG
          | Node _ _ te ta tl tr =>
              let m' := node_max e node tl in
              s ← erase_left node INTERVAL_RED m' e a tl;
              let up := InLeft INTERVAL_BLACK m te ta tr :: p' in
              match s with
              | EraseUp parent => Ret (erase_finish parent up)
              | EraseDone t => Ret (set_color INTERVAL_BLACK (plug t up))
              end
          end
        else
          s ← erase_left node c m e a tmp;
          match s with
          | EraseUp parent => interval_erase_color parent p'
          | EraseDone t => Ret (set_color INTERVAL_BLACK (plug t p'))
          end
    | InRight c m e a tmp :: p' =>
        if node_is_red tmp then
          match tmp with
          | Leaf => LBUG
          | Node _ _ te ta tl tr =>
              let m' := node_max e tr node in
              s ← erase_right node INTERVAL_RED m' e a tr;
              let up := InRight INTERVAL_BLACK m te ta tl :: p' in
              match s with
              | EraseUp parent => Ret (erase_finish parent up)
              | EraseDone t => Ret (set_color INTERVAL_BLACK (plug t up))
              end
          end
        else
          s ← erase_right node c m e a tmp;
          match s with
          | EraseUp parent => interval_erase_color parent p'
          | EraseDone t => Ret (set_color INTERVAL_BLACK (plug t p'))
          end
    end.

(** [update_maxhigh] on the nodes of a path whose child now has the maximum [cm]. *)
Fixpoint update_path (cm : Z) (p : path A) (old_maxhigh : Z) : path A :=
  match p with
  | [] => []
  | InLeft c _ e a r :: p' =>
      let m := max_u64 (ext_end e) (max_u64 cm (max_high r)) in
      InLeft c m e a r :: (if old_maxhigh <=? m then p' else update_path m p' old_maxhigh)
  | InRight c _ e a l :: p' =>
      let m := max_u64 (ext_end e) (max_u64 (max_high l) cm) in
      InRight c m e a l :: (if old_maxhigh <=? m then p' else update_path m p' old_maxhigh)
  end.

(** From the node [t], or from its parent when there is no node. *)
Definition update_maxhigh (t : tree A) (p : path A) (old_maxhigh : Z) : tree A * path A :=
  match t with
  | Leaf => (Leaf, update_path 0 p old_maxhigh)
  | Node c _ e a l r =>
      let m := node_max e l r in
      (Node c m e a l r, if old_maxhigh <=? m then p else update_path m p old_maxhigh)
  end.

(** The colour fix-up at the place the node was taken from. *)
Definition erase_color_of (c : color) (t : tree A) (p : path A) : run (tree A) :=
  match c with
  | INTERVAL_BLACK => interval_erase_color t p
  | INTERVAL_RED => Ret (plug t p)
  end.

(** Removal of the node [t] at the path [p].  With two children its successor
    takes its place.  The successor is the root of the right subtree ([parent ==
    old] in the code) or further down; in the first case, when it has no child,
    [update_maxhigh] runs on the unlinked node [old] and, if it goes on, on the
    nodes above it. *)
Definition interval_erase (t : tree A) (p : path A) : run (tree A) :=
  match t with
  | Leaf => LBUG
  | Node c m _ _ Leaf r =>
      let '(child, p') := update_maxhigh r p m in erase_color_of c child p'
  | Node c m _ _ l Leaf =>
      let '(child, p') := update_maxhigh l p m in erase_color_of c child p'
  | Node oc om oe _ l r =>
      match interval_first r [] with
      | (Node nc nm ne na _ child, []) =>
          (* the successor is the right child of [old] *)
          match child with
          | Leaf =>
              let old_max := node_max oe l Leaf in
              let p1 := if nm <=? old_max then p else update_path nm p nm in
              let m1 := node_max ne l Leaf in
              let p2 := if old_max <=? m1 then p1 else update_path m1 p1 old_max in
              erase_color_of nc Leaf (InRight oc m1 ne na l :: p2)
          | Node cc _ ce ca cl cr =>
              let cm := node_max ce cl cr in
              let child' := Node cc cm ce ca cl cr in
              let p1 := if nm <=? cm then InRight oc nm ne na l :: p
                        else update_path cm (InRight oc nm ne na l :: p) nm in
              match p1 with
              | InRight _ _ _ _ _ :: q =>
                  let m1 := node_max ne l child' in
                  let p2 := if om <=? m1 then q else update_path m1 q om in
                  erase_color_of nc child' (InRight oc m1 ne na l :: p2)
              | _ => LBUG
              end
          end
      | (Node nc nm ne na _ child, low) =>
          (* [low] leads from the successor up to the right child of [old] *)
          let '(child', up) := update_maxhigh child (low ++ InRight oc nm ne na l :: p) nm in
          let low' := take (length low) up in
          match drop (length low) up with
          | InRight _ _ _ _ _ :: q =>
              let r' := plug child' low' in
              let m1 := node_max ne l r' in
              let p2 := if om <=? m1 then q else update_path m1 q om in
              erase_color_of nc child' (low' ++ InRight oc m1 ne na l :: p2)
          | _ => LBUG
          end
      | (Leaf, _) => LBUG
      end
  end.

(** The position of the node with an extent. *)
Fixpoint find_pos (e : interval_node_extent) (t : tree A) (p : path A) : option (tree A * path A) :=
  match t with
  | Leaf => None
  | Node c m ne a l r =>
      let rc := extent_compare e ne in
      if rc =? 0 then Some (t, p)
      else if rc <? 0 then find_pos e l (InLeft c m ne a r :: p)
      else find_pos e r (InRight c m ne a l :: p)
  end.

(** ** Searching *)

Definition interval_may_overlap (low max : Z) (ext : interval_node_extent) : bool :=
  (ext_start ext <=? max) && (ext_end ext >=? low).

(** The next subtree to look at on the way up: the right sibling of the first node
    that is a left child and has one; [None] at the root.  The parent's start and
    maximum come with it. *)
Fixpoint search_ascend (t : tree A) (p : path A) : option (Z * Z * tree A * path A) :=
  match p with
  | [] => None
  | InLeft c m e a (Node _ _ _ _ _ _ as r) :: p' =>
      Some (ext_start e, m, r, InRight c m e a t :: p')
  | f :: p' => search_ascend (plug1 t f) p'
  end.

(** The loop of [interval_search]; the callback stops it with [None].  Every turn
    looks at another node. *)
Fixpoint search_loop {S} (fuel : nat) (ext : interval_node_extent) (func : interval_callback (A := A) S)
    (t : tree A) (p : path A) (rc : interval_iter) (data : S) : option (interval_iter * S) :=
  match fuel with
  | O => None
  | S fuel =>
      match t with
      | Leaf => Some (rc, data)
      | Node c m e a l r =>
          let ascend (rc : interval_iter) (data : S) :=
            match search_ascend t p with
            | None => Some (rc, data)
            | Some (low, max, t', p') =>
                if negb (interval_may_overlap low max ext) then Some (rc, data)
                else search_loop fuel ext func t' p' rc data
            end in
          if ext_end ext <? ext_start e then
            match l with
            | Node _ _ _ _ _ _ => search_loop fuel ext func l (InLeft c m e a r :: p) rc data
            | Leaf => ascend rc data
            end
          else if interval_may_overlap (ext_start e) m ext then
            let '(rc, data) :=
              if extent_overlapped ext e then func e a data else (rc, data) in
            match rc with
            | INTERVAL_ITER_STOP => Some (rc, data)
            | INTERVAL_ITER_CONT =>
                match l, r with
                | Node _ _ _ _ _ _, _ => search_loop fuel ext func l (InLeft c m e a r :: p) rc data
                | Leaf, Node _ _ _ _ _ _ => search_loop fuel ext func r (InRight c m e a l :: p) rc data
                | Leaf, Leaf => ascend rc data
                end
            end
          else ascend rc data
      end
  end.

Definition interval_search {S} (t : tree A) (ext : interval_node_extent)
    (func : interval_callback (A := A) S) (data : S) : option (interval_iter * S) :=
  search_loop (Datatypes.S (size t)) ext func t [] INTERVAL_ITER_CONT data.

Definition interval_overlap_cb : interval_callback (A := A) bool :=
  fun _ _ _ => (INTERVAL_ITER_STOP, true).

Definition interval_is_overlapped (root : tree A) (ext : interval_node_extent) : bool :=
  match interval_search root ext interval_overlap_cb false with
  | Some (_, has) => has
  | None => false
  end.

(** ** Expansion *)

Definition interval_expand_low (root : tree A) (low : Z) : Z :=
  match root with Leaf => 0 | Node _ _ _ _ _ _ => low end.

Fixpoint expand_high_loop (node : tree A) (high result : Z) : Z :=
  match node with
  | Leaf => result
  | Node _ m e _ l r =>
      if m <? high then result
      else if high <? ext_start e then expand_high_loop l high (ext_start e - 1)
      else expand_high_loop r high result
  end.

Definition interval_expand_high (node : tree A) (high : Z) : Z :=
  expand_high_loop node high U64_MAX.

(** The two conditional assignments of [interval_expand]. *)
Definition expand_start (root : tree A) (limiter : option interval_node_extent)
    (ext : interval_node_extent) : interval_node_extent :=
  if match limiter with None => true | Some l => ext_start l <? ext_start ext end
  then Extent (interval_expand_low root (ext_start ext)) (ext_end ext) else ext.

Definition expand_end (root : tree A) (limiter : option interval_node_extent)
    (ext : interval_node_extent) : interval_node_extent :=
  if match limiter with None => true | Some l => ext_end ext <? ext_end l end
  then Extent (ext_start ext) (interval_expand_high root (ext_end ext)) else ext.

Definition interval_expand (root : tree A) (ext : interval_node_extent)
    (limiter : option interval_node_extent) : run interval_node_extent :=
  lassert (negb (interval_is_overlapped root ext));
  let ext := expand_end root limiter (expand_start root limiter ext) in
  lassert (negb (interval_is_overlapped root ext));
  Ret ext.
End Erase.

(** ** Well-formed trees *)

Section Theory.
Context {A : Type}.
Implicit Types (t l r : tree A) (p : path A) (e ext : interval_node_extent).

Fixpoint elements t : list (interval_node_extent * A) :=
  match t with
  | Leaf => []
  | Node _ _ e a l r => elements l ++ (e, a) :: elements r
  end.

Definition ext_lt e1 e2 : Prop :=
  ext_start e1 < ext_start e2 \/ ext_start e1 = ext_start e2 /\ ext_end e1 < ext_end e2.

Definition ext_ok e : Prop := 0 <= ext_start e <= ext_end e.

(** Sorted, with distinct extents. *)
Fixpoint bst t : Prop :=
  match t with
  | Leaf => True
  | Node _ _ e _ l r =>
      Forall (fun x => ext_lt x.1 e) (elements l) /\ Forall (fun x => ext_lt e x.1) (elements r)
      /\ bst l /\ bst r
  end.

(** [in_max_high] is the largest end in the subtree. *)
Fixpoint max_ok t : Prop :=
  match t with
  | Leaf => True
  | Node _ m e _ l r => m = node_max e l r /\ max_ok l /\ max_ok r
  end.

Definition exts_ok t : Prop := Forall (fun x => ext_ok x.1) (elements t).

Lemma max_u64_eq x y : max_u64 x y = Z.max x y.
Proof. unfold max_u64. case_match; lia. Qed.

Lemma node_max_eq e l r : node_max e l r = Z.max (ext_end e) (Z.max (max_high l) (max_high r)).
Proof. unfold node_max. by rewrite !max_u64_eq. Qed.

Lemma extent_compare_lt e1 e2 : extent_compare e1 e2 < 0 <-> ext_lt e1 e2.
Proof. unfold extent_compare, ext_lt. repeat case_match; lia. Qed.

Lemma extent_compare_eq e1 e2 : extent_compare e1 e2 = 0 <-> e1 = e2.
Proof.
  unfold extent_compare. destruct e1 as [s1 n1], e2 as [s2 n2]; simpl.
  split; [|intros [= -> ->]]; repeat case_match; try lia; intros; f_equal; lia.
Qed.

Lemma extent_equal_eq e1 e2 : extent_equal e1 e2 = true <-> e1 = e2.
Proof.
  unfold extent_equal. destruct e1 as [s1 n1], e2 as [s2 n2]; simpl.
  split; [intros; f_equal; lia|intros [= -> ->]; lia].
Qed.

Lemma exts_ok_node c m e a l r :
  exts_ok (Node c m e a l r) <-> ext_ok e /\ exts_ok l /\ exts_ok r.
Proof. unfold exts_ok. simpl. rewrite Forall_app, Forall_cons. simpl. tauto. Qed.

Lemma max_high_bound t x :
  max_ok t -> x ∈ elements t -> ext_end x.1 <= max_high t.
Proof.
  induction t as [|c m e a l IHl r IHr]; simpl; [by intros _ ?%elem_of_nil|].
  intros (-> & Hl & Hr). rewrite node_max_eq, elem_of_app, elem_of_cons.
  intros [Hx|[->|Hx]]; [apply IHl in Hx; [|done]|simpl|apply IHr in Hx; [|done]]; lia.
Qed.

Lemma max_high_nonneg t : exts_ok t -> max_ok t -> 0 <= max_high t.
Proof.
  destruct t as [|c m e a l r]; simpl; [lia|]. rewrite exts_ok_node. intros ([? ?] & _) (-> & _).
  rewrite node_max_eq. lia.
Qed.

(** ** Searching *)

(** The nodes in the order the search visits them. *)
Fixpoint preorder t : list (interval_node_extent * A) :=
  match t with
  | Leaf => []
  | Node _ _ e a l r => (e, a) :: preorder l ++ preorder r
  end.

Lemma preorder_elements t : preorder t ≡ₚ elements t.
Proof.
  induction t as [|c m e a l IHl r IHr]; simpl; [done|].
  rewrite IHl, IHr. apply Permutation_middle.
Qed.

(** The nodes an extent overlaps. *)
Definition hits ext t : list (interval_node_extent * A) :=
  base.filter (fun x => extent_overlapped ext x.1 = true) (preorder t).

(** Calling back on one node after the other until one call stops. *)
Fixpoint run_calls {S} (func : interval_callback (A := A) S)
    (xs : list (interval_node_extent * A)) (rc : interval_iter) (data : S) : interval_iter * S :=
  match xs with
  | [] => (rc, data)
  | x :: xs' =>
      let '(rc, data) := func x.1 x.2 data in
      match rc with
      | INTERVAL_ITER_STOP => (rc, data)
      | INTERVAL_ITER_CONT => run_calls func xs' rc data
      end
  end.

Lemma filter_none {B} (P : B -> Prop) `{forall x, Decision (P x)} (l : list B) :
  (forall x, x ∈ l -> ~ P x) -> base.filter P l = [].
Proof.
  intros Hl. destruct (base.filter P l) as [|y ys] eqn:E; [done|].
  assert (Hy : y ∈ base.filter P l) by (rewrite E; by left).
  apply list_elem_of_filter in Hy as [? ?]. by destruct (Hl y).
Qed.

Lemma hits_none ext t :
  (forall x, x ∈ elements t -> extent_overlapped ext x.1 = false) -> hits ext t = [].
Proof.
  intros Ht. apply filter_none. intros x Hx. rewrite preorder_elements in Hx.
  by rewrite (Ht x Hx).
Qed.

Lemma hits_node ext c m e a l r :
  hits ext (Node c m e a l r)
  = (if extent_overlapped ext e then [(e, a)] else []) ++ hits ext l ++ hits ext r.
Proof.
  unfold hits. simpl. rewrite filter_cons. simpl. rewrite filter_app.
  destruct (extent_overlapped ext e); by simpl.
Qed.

(** Nothing to the right of a node that starts behind the extent overlaps it. *)
Lemma hits_right ext e r :
  Forall (fun x => ext_lt e x.1) (elements r) -> ext_end ext < ext_start e -> hits ext r = [].
Proof.
  intros Hr He. apply hits_none. intros x Hx. rewrite Forall_forall in Hr.
  specialize (Hr x Hx). unfold ext_lt in Hr. unfold extent_overlapped. lia.
Qed.

Lemma hits_before ext c m e a l r :
  bst (Node c m e a l r) -> ext_end ext < ext_start e ->
  hits ext (Node c m e a l r) = hits ext l.
Proof.
  intros (_ & Hr & _) He. rewrite hits_node, (hits_right ext e r), app_nil_r by done.
  assert (extent_overlapped ext e = false) as -> by (unfold extent_overlapped; lia). done.
Qed.

Lemma hits_pruned ext c m e a l r :
  max_ok (Node c m e a l r) -> ext_start e <= ext_end ext ->
  interval_may_overlap (ext_start e) m ext = false -> hits ext (Node c m e a l r) = [].
Proof.
  intros Hm He Hno. apply hits_none. intros x Hx.
  pose proof (max_high_bound _ x Hm Hx) as Hb. simpl in Hb.
  unfold interval_may_overlap in Hno. unfold extent_overlapped. lia.
Qed.

(** What is left to visit on the way up. *)
Fixpoint hits_above ext p : list (interval_node_extent * A) :=
  match p with
  | [] => []
  | InLeft _ _ _ _ r :: p' => hits ext r ++ hits_above ext p'
  | InRight _ _ _ _ _ :: p' => hits_above ext p'
  end.

Fixpoint size_above p : nat :=
  match p with
  | [] => 0
  | InLeft _ _ _ _ r :: p' => size r + size_above p'
  | InRight _ _ _ _ _ :: p' => size_above p'
  end.

(** The search only goes left below a node that may overlap the extent or that
    starts behind it. *)
Fixpoint search_path ext p : Prop :=
  match p with
  | [] => True
  | InLeft _ m e _ _ :: p' =>
      search_path ext p'
      /\ (interval_may_overlap (ext_start e) m ext = true \/ ext_end ext < ext_start e)
  | InRight _ _ _ _ _ :: p' => search_path ext p'
  end.

Lemma bst_plug t p : bst (plug t p) -> bst t.
Proof.
  revert t. induction p as [|f p IH]; intros t; simpl; [done|].
  intros Ht%IH. destruct f; by destruct Ht as (_ & _ & ? & ?).
Qed.

Lemma max_ok_plug t p : max_ok (plug t p) -> max_ok t.
Proof.
  revert t. induction p as [|f p IH]; intros t; simpl; [done|].
  intros Ht%IH. destruct f; by destruct Ht as (_ & ? & ?).
Qed.

(** Above a node that starts behind the extent there is nothing left to visit. *)
Lemma hits_above_none ext t p x :
  bst (plug t p) -> x ∈ elements t -> ext_end ext < ext_start x.1 -> hits_above ext p = [].
Proof.
  revert t. induction p as [|f p IH]; intros t Hb Hx He; [done|]. simpl in Hb.
  pose proof (bst_plug _ _ Hb) as Hf. destruct f as [c m e a r|c m e a l]; simpl in *.
  - destruct Hf as (Hl & Hr & _). rewrite Forall_forall in Hl. specialize (Hl x Hx).
    rewrite (hits_right ext e); [|done|unfold ext_lt in Hl; lia].
    apply (IH _ Hb); [|done]. simpl. apply elem_of_app. by left.
  - apply (IH _ Hb); [|done]. simpl. apply elem_of_app. right. by right.
Qed.

Lemma search_ascend_spec ext t p :
  bst (plug t p) -> search_path ext p ->
  match search_ascend t p with
  | None => hits_above ext p = []
  | Some (low, max, t', p') =>
      plug t' p' = plug t p /\ t' <> Leaf /\ search_path ext p'
      /\ (size t' + size_above p' <= size_above p)%nat
      /\ if interval_may_overlap low max ext
         then hits_above ext p = hits ext t' ++ hits_above ext p'
         else hits_above ext p = []
  end.
Proof.
  revert t. induction p as [|f p IH]; intros t Hb Hp; [done|].
  destruct f as [c m e a r|c m e a l]; cbn [search_ascend search_path] in *.
  - destruct Hp as (Hp & Hor). destruct r as [|rc rm re ra rl rr].
    + by apply (IH (plug1 t (InLeft c m e a Leaf))).
    + split_and!; [done..|]. destruct (interval_may_overlap (ext_start e) m ext) eqn:Hov; [done|].
      destruct Hor as [?|He]; [done|].
      pose proof (bst_plug (plug1 t (InLeft c m e a (Node rc rm re ra rl rr))) p Hb)
        as (_ & Hr & _). cbn [hits_above].
      rewrite (hits_right ext e) by done.
      apply (hits_above_none ext (plug1 t (InLeft c m e a (Node rc rm re ra rl rr))) p (e, a));
        [done| |done]. simpl. apply elem_of_app. right. by left.
  - by apply (IH (plug1 t (InRight c m e a l))).
Qed.

Lemma search_loop_spec {S} ext (func : interval_callback (A := A) S) fuel t p data :
  bst (plug t p) -> max_ok (plug t p) -> search_path ext p ->
  t <> Leaf -> (size t + size_above p < fuel)%nat ->
  search_loop fuel ext func t p INTERVAL_ITER_CONT data
  = Some (run_calls func (hits ext t ++ hits_above ext p) INTERVAL_ITER_CONT data).
Proof.
  revert t p data. induction fuel as [|fuel IH]; intros t p data Hb Hm Hp Ht Hf; [lia|].
  destruct t as [|c m e a l r]; [done|].
  pose proof (bst_plug _ _ Hb) as Hbt. pose proof (max_ok_plug _ _ Hm) as Hmt.
  assert (Hasc : forall d, match search_ascend (Node c m e a l r) p with
      | None => Some (INTERVAL_ITER_CONT, d)
      | Some (low, max, t', p') =>
          if negb (interval_may_overlap low max ext) then Some (INTERVAL_ITER_CONT, d)
          else search_loop fuel ext func t' p' INTERVAL_ITER_CONT d
      end = Some (run_calls func (hits_above ext p) INTERVAL_ITER_CONT d)).
  { intros d. pose proof (search_ascend_spec ext (Node c m e a l r) p Hb Hp) as Ha.
    destruct (search_ascend (Node c m e a l r) p) as [[[[low max] t'] p']|]; [|by rewrite Ha].
    destruct Ha as (Hpl & Hne & Hp' & Hs & Hh). destruct (interval_may_overlap low max ext); simpl;
      rewrite Hh; [|done]. apply IH; rewrite ?Hpl; try done. simpl in Hf. lia. }
  assert (Hleft : forall d, l <> Leaf ->
      (interval_may_overlap (ext_start e) m ext = true \/ ext_end ext < ext_start e) ->
      search_loop fuel ext func l (InLeft c m e a r :: p) INTERVAL_ITER_CONT d
      = Some (run_calls func (hits ext l ++ hits ext r ++ hits_above ext p) INTERVAL_ITER_CONT d)).
  { intros d Hl Hor. apply IH; try done. simpl in *. lia. }
  cbn [search_loop]. destruct (Z.ltb_spec (ext_end ext) (ext_start e)) as [He|He].
  { rewrite (hits_before _ _ _ _ _ _ _ Hbt He). destruct l as [|lc lm le la ll lr].
    - simpl. apply Hasc.
    - rewrite Hleft by auto. by rewrite (hits_right ext e r) by (done || apply Hbt). }
  destruct (interval_may_overlap (ext_start e) m ext) eqn:Hov.
  2:{ rewrite (hits_pruned _ _ _ _ _ _ _ Hmt) by done. apply Hasc. }
  rewrite hits_node, <-!app_assoc.
  assert (Hrest : forall d, match l, r with
      | Node _ _ _ _ _ _, _ => search_loop fuel ext func l (InLeft c m e a r :: p) INTERVAL_ITER_CONT d
      | Leaf, Node _ _ _ _ _ _ =>
          search_loop fuel ext func r (InRight c m e a l :: p) INTERVAL_ITER_CONT d
      | Leaf, Leaf =>
          match search_ascend (Node c m e a l r) p with
          | None => Some (INTERVAL_ITER_CONT, d)
          | Some (low, max, t', p') =>
              if negb (interval_may_overlap low max ext) then Some (INTERVAL_ITER_CONT, d)
              else search_loop fuel ext func t' p' INTERVAL_ITER_CONT d
          end
      end = Some (run_calls func (hits ext l ++ hits ext r ++ hits_above ext p) INTERVAL_ITER_CONT d)).
  { intros d. destruct l as [|lc lm le la ll lr]; [|by apply Hleft; auto].
    destruct r as [|rc rm re ra rl rr]; [apply Hasc|]. simpl hits at 1. cbn [app].
    apply IH; try done. simpl in *. lia. }
  destruct (extent_overlapped ext e); cbn [app run_calls fst snd]; [|apply Hrest].
  destruct (func e a data) as [[] d]; [apply Hrest|done].
Qed.

(** C19: [interval_search] calls back on exactly the nodes whose extents overlap
    the given one, each once, and stops when a call asks for it: the iterative
    search with parent pointers and pruning terminates and behaves as one pass over
    the overlapping nodes of the whole tree in preorder. *)
Theorem interval_search_exact {S} t ext (func : interval_callback (A := A) S) data :
  bst t -> max_ok t ->
  interval_search t ext func data
  = Some (run_calls func (base.filter (fun x => extent_overlapped ext x.1 = true) (preorder t))
            INTERVAL_ITER_CONT data).
Proof.
  intros Hb Hm. unfold interval_search. destruct t as [|c m e a l r]; [done|].
  rewrite (search_loop_spec ext func) by (done || simpl; lia).
  by rewrite app_nil_r.
Qed.

Lemma interval_search_hits {S} t ext (func : interval_callback (A := A) S) data :
  bst t -> max_ok t ->
  interval_search t ext func data = Some (run_calls func (hits ext t) INTERVAL_ITER_CONT data).
Proof.
  intros Hb Hm. unfold interval_search. destruct t as [|c m e a l r]; [done|].
  rewrite (search_loop_spec ext func) by (done || simpl; lia).
  by rewrite app_nil_r.
Qed.

Lemma interval_is_overlapped_spec t ext :
  bst t -> max_ok t ->
  interval_is_overlapped t ext = true
  <-> exists x, x ∈ elements t /\ extent_overlapped ext x.1 = true.
Proof.
  intros Hb Hm. unfold interval_is_overlapped. rewrite interval_search_hits by done.
  destruct (hits ext t) as [|x xs] eqn:E; simpl.
  - split; [done|]. intros (x & Hx & Hov). assert (Hin : x ∈ hits ext t).
    { apply list_elem_of_filter. split; [done|]. by rewrite preorder_elements. }
    rewrite E in Hin. by apply elem_of_nil in Hin.
  - split; [|done]. intros _. assert (Hin : x ∈ hits ext t) by (rewrite E; by left).
    apply list_elem_of_filter in Hin as [? Hx]. rewrite preorder_elements in Hx. by exists x.
Qed.

(** ** Expansion *)

(** The largest end an extent ending at [high] can be stretched to: just before the
    first node that starts behind it. *)
Lemma expand_high_loop_spec t high res :
  bst t -> max_ok t -> exts_ok t ->
  (forall x, x ∈ elements t -> high < ext_start x.1 -> ext_start x.1 - 1 <= res) -> high <= res ->
  high <= expand_high_loop t high res <= res
  /\ (forall x, x ∈ elements t -> high < ext_start x.1 -> expand_high_loop t high res < ext_start x.1)
  /\ (expand_high_loop t high res = res
      \/ exists x, x ∈ elements t /\ high < ext_start x.1
         /\ expand_high_loop t high res = ext_start x.1 - 1).
Proof.
  revert res. induction t as [|c m e a l IHl r IHr]; intros res Hb Hm Hx Hr Hle; simpl.
  { split_and!; [lia..| |by left]. by intros x ?%elem_of_nil. }
  pose proof Hx as (He & Hxl & Hxr)%exts_ok_node.
  destruct (Z.ltb_spec m high) as [Hlt|Hge].
  { split_and!; [lia..| |by left]. intros x Hin Hs. exfalso.
    pose proof (max_high_bound _ x Hm Hin) as Hmx. simpl in Hmx.
    unfold exts_ok in Hx. rewrite Forall_forall in Hx. destruct (Hx x Hin). lia. }
  destruct Hb as (Hl & Hrt & Hbl & Hbr). destruct Hm as (_ & Hml & Hmr).
  rewrite Forall_forall in Hl, Hrt.
  destruct (Z.ltb_spec high (ext_start e)) as [Hs|Hs].
  - assert (He1 : ext_start e - 1 <= res).
    { apply (Hr (e, a)); [|done]. apply elem_of_app. right. by left. }
    destruct (IHl (ext_start e - 1) Hbl Hml Hxl) as (H1 & H2 & H3); [|lia|].
    + intros x Hin _. specialize (Hl x Hin). unfold ext_lt in Hl. lia.
    + split_and!; [lia..| |].
      * intros x [Hin|[->|Hin]%elem_of_cons]%elem_of_app Hsx; [by apply H2|simpl; lia|].
        specialize (Hrt x Hin). unfold ext_lt in Hrt. lia.
      * right. destruct H3 as [H3|(x & Hin & Hsx & H3)].
        -- exists (e, a). split; [apply elem_of_app; right; by left|]. split; [done|]. done.
        -- exists x. split; [apply elem_of_app; by left|done].
  - destruct (IHr res Hbr Hmr Hxr) as (H1 & H2 & H3); [|done|].
    + intros x Hin. apply Hr. apply elem_of_app. right. by right.
    + split_and!; [lia..| |].
      * intros x [Hin|[->|Hin]%elem_of_cons]%elem_of_app Hsx; [|simpl in *; lia|by apply H2].
        specialize (Hl x Hin). unfold ext_lt in Hl. lia.
      * destruct H3 as [?|(x & Hin & ?)]; [by left|right]. exists x.
        split; [apply elem_of_app; right; by right|done].
Qed.

Lemma expand_high_spec t (high : Z) :
  bst t -> max_ok t -> exts_ok t -> 0 <= high <= U64_MAX ->
  (forall x, x ∈ elements t -> ext_end x.1 <= U64_MAX) ->
  high <= interval_expand_high t high <= U64_MAX
  /\ (forall x, x ∈ elements t -> high < ext_start x.1 -> interval_expand_high t high < ext_start x.1)
  /\ (interval_expand_high t high = U64_MAX
      \/ exists x, x ∈ elements t /\ high < ext_start x.1
         /\ interval_expand_high t high = ext_start x.1 - 1).
Proof.
  intros Hb Hm Hx Hh Hend. apply expand_high_loop_spec; try done; [|lia].
  intros x Hin _. unfold exts_ok in Hx. rewrite Forall_forall in Hx.
  destruct (Hx x Hin). specialize (Hend x Hin). lia.
Qed.

Lemma interval_expand_fits t ext limiter :
  bst t -> max_ok t -> exts_ok t -> ext_ok ext -> ext_end ext <= U64_MAX ->
  (forall x, x ∈ elements t -> extent_overlapped ext x.1 = false) ->
  (forall x, x ∈ elements t -> ext_end x.1 <= U64_MAX) ->
  let ext' := expand_end t limiter (expand_start t limiter ext) in
  interval_expand t ext limiter = Ret ext'
  /\ 0 <= ext_start ext' <= ext_start ext /\ ext_end ext <= ext_end ext' <= U64_MAX
  /\ (forall x, x ∈ elements t -> extent_overlapped ext' x.1 = false).
Proof.
  intros Hb Hm Hx [Hs0 He0] Hmax Hno Hend.
  assert (Hfalse : forall e', (forall x, x ∈ elements t -> extent_overlapped e' x.1 = false) ->
    interval_is_overlapped t e' = false).
  { intros e' H. apply not_true_is_false. rewrite interval_is_overlapped_spec by done.
    intros (x & Hin & Hov). by rewrite (H x Hin) in Hov. }
  destruct (expand_high_spec t (ext_end ext)) as (H1 & H2 & H3); [done..|lia|done|].
  assert (Hlow : t = Leaf \/ interval_expand_low t (ext_start ext) = ext_start ext)
    by (destruct t; auto).
  assert (Hlow0 : 0 <= interval_expand_low t (ext_start ext) <= ext_start ext)
    by (destruct t; simpl; lia).
  set (ext1 := expand_start t limiter ext). set (ext2 := expand_end t limiter ext1).
  assert (Hext1 : ext1 = ext \/ ext1 = Extent (interval_expand_low t (ext_start ext)) (ext_end ext))
    by (unfold ext1, expand_start; case_match; auto).
  assert (Hext2 : ext_start ext2 = ext_start ext1 /\ (t = Leaf \/ ext_start ext1 = ext_start ext)
    /\ 0 <= ext_start ext1 <= ext_start ext
    /\ (ext_end ext2 = ext_end ext \/ ext_end ext2 = interval_expand_high t (ext_end ext))).
  { unfold ext2, expand_end. destruct Hext1 as [-> | ->]; case_match; simpl; split_and!; auto; lia. }
  destruct Hext2 as (Hs2 & Hs1' & Hs1 & He2).
  assert (Hno2 : forall x, x ∈ elements t -> extent_overlapped ext2 x.1 = false).
  { intros x Hin. destruct Hs1' as [->|Hs1']; [by apply elem_of_nil in Hin|].
    specialize (Hno x Hin). specialize (H2 x Hin). unfold extent_overlapped in *. rewrite Hs2. lia. }
  intros ext'. change ext' with ext2. unfold interval_expand. fold ext1 ext2.
  rewrite (Hfalse ext Hno). cbn [negb LASSERT]. rewrite (Hfalse ext2 Hno2), Hs2.
  split_and!; try done; lia.
Qed.

(** Whether a limiter lets the start move down, and the end move up. *)
Definition lets_start (limiter : option interval_node_extent) (ext : interval_node_extent) : Prop :=
  match limiter with None => True | Some l => ext_start l < ext_start ext end.
Definition lets_end (limiter : option interval_node_extent) (ext : interval_node_extent) : Prop :=
  match limiter with None => True | Some l => ext_end ext < ext_end l end.

(** C27: expansion never runs into a granted extent. If an extent overlaps a node, the first
    assertion of [interval_expand] fails. If it overlaps none, expansion gives an extent that
    contains it and still overlaps none, so that no assertion fails. The start becomes 0 if
    the tree is empty and the limiter starts below, and stays otherwise; the end stays if the
    limiter ends there or before, and otherwise goes up as far as possible, to the end of the
    object or right in front of a node. *)
Theorem interval_expand_maximal t ext limiter :
  bst t -> max_ok t -> exts_ok t -> ext_ok ext -> ext_end ext <= U64_MAX ->
  (forall x, x ∈ elements t -> ext_end x.1 <= U64_MAX) ->
  (exists x, x ∈ elements t /\ extent_overlapped ext x.1 = true) /\ interval_expand t ext limiter = LBUG
  \/ (forall x, x ∈ elements t -> extent_overlapped ext x.1 = false)
     /\ exists ext', interval_expand t ext limiter = Ret ext'
       /\ 0 <= ext_start ext' <= ext_start ext /\ ext_end ext <= ext_end ext' <= U64_MAX
       /\ (forall x, x ∈ elements t -> extent_overlapped ext' x.1 = false)
       /\ (t = Leaf -> lets_start limiter ext -> ext_start ext' = 0)
       /\ (t <> Leaf \/ ~ lets_start limiter ext -> ext_start ext' = ext_start ext)
       /\ (~ lets_end limiter ext -> ext_end ext' = ext_end ext)
       /\ (lets_end limiter ext -> ext_end ext' = U64_MAX
            \/ exists x, x ∈ elements t /\ ext_start x.1 = ext_end ext' + 1).
Proof.
  intros Hb Hm Hx Hok Hmax Hend. destruct (interval_is_overlapped t ext) eqn:Hov.
  { left. apply interval_is_overlapped_spec in Hov as Hex; [|done..]. split; [done|]. unfold interval_expand. by rewrite Hov. }
  right. assert (Hno : forall x, x ∈ elements t -> extent_overlapped ext x.1 = false).
  { intros x Hin. apply not_true_is_false. intros K.
    by rewrite (proj2 (interval_is_overlapped_spec t ext Hb Hm)) in Hov by by exists x. }
  split; [done|]. destruct (interval_expand_fits t ext limiter) as (Hrun & Hs & He & Hno'); try done.
  destruct (expand_high_spec t (ext_end ext)) as (_ & _ & Hh); [done..|destruct Hok; lia|done|].
  assert (Hst : (match limiter with None => true | Some l => ext_start l <? ext_start ext end = true <-> lets_start limiter ext)
    /\ (match limiter with None => true | Some l => ext_end ext <? ext_end l end = true <-> lets_end limiter ext))
    by (destruct limiter; cbn; rewrite ?Z.ltb_lt; done).
  destruct Hst as [Hst Hen]. eexists. split; [exact Hrun|]. split; [done|]. split; [done|]. split; [done|].
  revert Hst Hen. unfold expand_end, expand_start.
  destruct (match limiter with None => true | Some l => ext_start l <? ext_start ext end) eqn:Es; cbn [ext_end ext_start];
    destruct (match limiter with None => true | Some l => ext_end ext <? ext_end l end) eqn:Ee; cbn [ext_end ext_start];
    intros Hst Hen; (split; [intros ->; cbn; intuition congruence|]);
    (split; [destruct t; cbn; intuition congruence|]); (split; [intuition congruence|]).
  all: intros K%Hen; try done; (destruct Hh as [Hh|(x & Hin & _ & Hh)]; [by left|right; exists x; split; [done|lia]]).
Qed.

(** ** Positions *)

Fixpoint before p : list (interval_node_extent * A) :=
  match p with
  | [] => []
  | InLeft _ _ _ _ _ :: p' => before p'
  | InRight _ _ e a l :: p' => before p' ++ elements l ++ [(e, a)]
  end.

Fixpoint after p : list (interval_node_extent * A) :=
  match p with
  | [] => []
  | InLeft _ _ e a r :: p' => (e, a) :: elements r ++ after p'
  | InRight _ _ _ _ _ :: p' => after p'
  end.

Lemma elements_plug t p : elements (plug t p) = before p ++ elements t ++ after p.
Proof.
  revert t. induction p as [|f p IH]; intros t; simpl; [by rewrite app_nil_r|].
  rewrite IH. destruct f as [c m e a r|c m e a l]; simpl; by rewrite <-!app_assoc.
Qed.

(** A tree is a search tree when its elements are sorted. *)
Definition sorted (xs : list (interval_node_extent * A)) : Prop :=
  StronglySorted (fun x y => ext_lt x.1 y.1) xs.

Lemma ext_lt_trans e1 e2 e3 : ext_lt e1 e2 -> ext_lt e2 e3 -> ext_lt e1 e3.
Proof. unfold ext_lt. lia. Qed.

Lemma sorted_app xs ys :
  sorted (xs ++ ys) <-> sorted xs /\ sorted ys
    /\ forall x y, x ∈ xs -> y ∈ ys -> ext_lt x.1 y.1.
Proof.
  unfold sorted. induction xs as [|x xs IH]; simpl.
  - split; [intros H; split_and!; [constructor|done|]|by intros (_ & ? & _)].
    by intros x y ?%elem_of_nil.
  - split.
    + inversion 1 as [|? ? Hs Hf]; subst. apply IH in Hs as (H1 & H2 & H3).
      rewrite Forall_app, !Forall_forall in Hf. destruct Hf as [Hf1 Hf2].
      split_and!; [constructor; [done|by apply Forall_forall]|done|].
      intros y z [->|Hy]%elem_of_cons Hz; auto.
    + intros (H1 & H2 & H3). inversion H1 as [|? ? Hs Hf]; subst. constructor.
      * apply IH. split_and!; [done..|]. intros; apply H3; [by right|done].
      * apply Forall_app. split; [done|]. apply Forall_forall. intros y Hy. apply H3; [by left|done].
Qed.

Lemma sorted_cons x xs : sorted (x :: xs) <-> Forall (fun y => ext_lt x.1 y.1) xs /\ sorted xs.
Proof. split; [by inversion 1|]. intros [? ?]. by constructor. Qed.

Lemma bst_sorted t : bst t <-> sorted (elements t).
Proof.
  induction t as [|c m e a l IHl r IHr]; simpl; [split; [constructor|done]|].
  rewrite sorted_app, sorted_cons, IHl, IHr, !Forall_forall. split.
  - intros (Hl & Hr & Hsl & Hsr). split_and!; [done..|].
    intros x y Hx [->|Hy]%elem_of_cons; [by apply Hl|].
    eapply ext_lt_trans; [by apply Hl|by apply (Hr y)].
  - intros (Hsl & [Hr Hsr] & Hlt). split_and!; [|done..].
    intros x Hx. apply (Hlt x (e, a) Hx). by left.
Qed.

(** ** The augmentation on a path *)

Fixpoint path_max p (cm : Z) : Prop :=
  match p with
  | [] => True
  | InLeft _ m e _ r :: p' =>
      m = Z.max (ext_end e) (Z.max cm (max_high r)) /\ max_ok r /\ path_max p' m
  | InRight _ m e _ l :: p' =>
      m = Z.max (ext_end e) (Z.max (max_high l) cm) /\ max_ok l /\ path_max p' m
  end.

Lemma max_ok_plug_iff t p : max_ok (plug t p) <-> max_ok t /\ path_max p (max_high t).
Proof.
  revert t. induction p as [|f p IH]; intros t; simpl; [tauto|]. rewrite IH.
  destruct f as [c m e a r|c m e a l]; simpl; rewrite node_max_eq; tauto.
Qed.

(** ** The red-black invariant *)

(** [rb t n]: every path from the root to a leaf has [n] black nodes, and no red
    node has a red child. *)
Fixpoint rb t (n : nat) : Prop :=
  match t with
  | Leaf => n = 0%nat
  | Node INTERVAL_RED _ _ _ l r =>
      rb l n /\ rb r n /\ node_is_red l = false /\ node_is_red r = false
  | Node INTERVAL_BLACK _ _ _ l r =>
      match n with O => False | S n' => rb l n' /\ rb r n' end
  end.

(** May the tree at the end of the path be red? *)
Definition red_ok p : bool :=
  match p with
  | InLeft INTERVAL_BLACK _ _ _ _ :: _ | InRight INTERVAL_BLACK _ _ _ _ :: _ => true
  | _ => false
  end.

(** A path that expects a tree of black height [n]. *)
Fixpoint path_rb p (n : nat) : Prop :=
  match p with
  | [] => True
  | InLeft INTERVAL_BLACK _ _ _ t :: p' | InRight INTERVAL_BLACK _ _ _ t :: p' =>
      rb t n /\ path_rb p' (S n)
  | InLeft INTERVAL_RED _ _ _ t :: p' | InRight INTERVAL_RED _ _ _ t :: p' =>
      rb t n /\ node_is_red t = false /\ path_rb p' n /\ red_ok p' = true
  end.

Lemma plug_rb t p n :
  rb t n -> path_rb p n -> (node_is_red t = true -> red_ok p = true) ->
  node_is_red (plug t p) = false /\ exists n', rb (plug t p) n'.
Proof.
  revert t n. induction p as [|f p IH]; intros t n Ht Hp Hr.
  { simpl in *. split; [|eauto]. apply not_true_is_false. intros H. by apply Hr in H. }
  destruct f as [[] m e a s|[] m e a s]; simpl in *.
  - destruct Hp as (Hs & Hsr & Hp & Hok). apply (IH _ n); [|done|done]. simpl.
    split_and!; try done. destruct (node_is_red t); [by specialize (Hr eq_refl)|done].
  - destruct Hp as (Hs & Hp). by apply (IH _ (S n)).
  - destruct Hp as (Hs & Hsr & Hp & Hok). apply (IH _ n); [|done|done]. simpl.
    split_and!; try done. destruct (node_is_red t); [by specialize (Hr eq_refl)|done].
  - destruct Hp as (Hs & Hp). by apply (IH _ (S n)).
Qed.

Lemma blacken_rb t n :
  rb t n -> node_is_red (set_color INTERVAL_BLACK t) = false
            /\ exists n', rb (set_color INTERVAL_BLACK t) n'.
Proof.
  destruct t as [|[] m e a l r]; simpl; [eauto| |].
  - intros (? & ? & _). split; [done|]. by exists (S n).
  - intros ?. split; [done|]. by exists n.
Qed.

Lemma elements_set_color c t : elements (set_color c t) = elements t.
Proof. by destruct t. Qed.
Lemma max_high_set_color c t : max_high (set_color c t) = max_high t.
Proof. by destruct t. Qed.
Lemma max_ok_set_color c t : max_ok (set_color c t) <-> max_ok t.
Proof. by destruct t. Qed.

(** A well-formed tree. *)
Record wf t : Prop := {
  wf_bst : bst t;
  wf_max : max_ok t;
  wf_exts : exts_ok t;
  wf_black : node_is_red t = false;
  wf_rb : exists n, rb t n
}.

(** ** Insertion *)

Lemma extent_compare_irrefl e : ext_lt e e -> False.
Proof. unfold ext_lt. lia. Qed.

Lemma ext_lt_total e1 e2 : ~ ext_lt e1 e2 -> e1 <> e2 -> ext_lt e2 e1.
Proof.
  destruct e1 as [s1 n1], e2 as [s2 n2]. unfold ext_lt. simpl. intros H Hne.
  destruct (Z.eq_dec s1 s2) as [->|]; [|lia]. destruct (Z.eq_dec n1 n2) as [->|]; [done|lia].
Qed.

Lemma insert_descend_found e a t p :
  bst t -> max_ok t -> (e, a) ∈ elements t -> insert_descend e t p = inl (a, plug t p).
Proof.
  revert p. induction t as [|c m pe pa l IHl r IHr]; intros p Hb Hm Hin; simpl.
  { by apply elem_of_nil in Hin. }
  pose proof (max_high_bound _ _ Hm Hin) as Hmax. simpl in Hmax, Hin.
  destruct Hb as (Hl & Hr & Hbl & Hbr). destruct Hm as (_ & Hml & Hmr).
  rewrite Forall_forall in Hl, Hr.
  rewrite (proj2 (Z.ltb_ge m _)) by lia.
  apply elem_of_app in Hin as [Hin|[[= -> ->]|Hin]%elem_of_cons].
  - specialize (Hl _ Hin). simpl in Hl.
    destruct (extent_equal pe e) eqn:E; [apply extent_equal_eq in E as ->; by apply extent_compare_irrefl in Hl|].
    rewrite (proj2 (Z.ltb_lt _ _)) by by apply extent_compare_lt.
    by rewrite IHl.
  - by rewrite (proj2 (extent_equal_eq pe pe)).
  - specialize (Hr _ Hin). simpl in Hr.
    destruct (extent_equal pe e) eqn:E; [apply extent_equal_eq in E as ->; by apply extent_compare_irrefl in Hr|].
    destruct (Z.ltb_spec (extent_compare e pe) 0) as [Hc|_].
    + apply extent_compare_lt in Hc. exfalso. eapply extent_compare_irrefl, ext_lt_trans; done.
    + by rewrite IHr.
Qed.

(** The empty place an extent that is not in the tree belongs to. *)
Record place e p : Prop := {
  pl_before : Forall (fun x => ext_lt x.1 e) (before p);
  pl_after : Forall (fun x => ext_lt e x.1) (after p)
}.

Lemma insert_descend_new e t p n :
  (forall a, (e, a) ∉ elements t) -> bst t -> max_ok t -> ext_ok e -> place e p ->
  path_max p (Z.max (max_high t) (ext_end e)) ->
  rb t n -> path_rb p n -> (node_is_red t = true -> red_ok p = true) ->
  exists q, insert_descend e t p = inr q /\ before q ++ after q = before p ++ elements t ++ after p
    /\ place e q /\ path_max q (ext_end e) /\ path_rb q 0.
Proof.
  revert p n. induction t as [|c m pe pa l IHl r IHr]; intros p n Hnew Hb Hm He Hpl Hpm Hrb Hpr Hro.
  { exists p. cbn [max_high rb] in *. subst n.
    rewrite Z.max_r in Hpm by (destruct He; lia). by split_and!. }
  destruct Hb as (Hl & Hr & Hbl & Hbr). destruct Hm as (Hmm & Hml & Hmr). rewrite node_max_eq in Hmm.
  simpl in *. destruct (extent_equal pe e) eqn:E.
  { apply extent_equal_eq in E as ->. destruct (Hnew pa). apply elem_of_app. right. by left. }
  assert (Hm' : (if m <? ext_end e then ext_end e else m) = Z.max m (ext_end e)) 
    by (destruct (Z.ltb_spec m (ext_end e)); lia).
  rewrite Hm'. destruct (Z.ltb_spec (extent_compare e pe) 0) as [Hc|Hc].
  - apply extent_compare_lt in Hc.
    assert (Hrb' : exists n', rb l n' /\ path_rb (InLeft c (Z.max m (ext_end e)) pe pa r :: p) n'
      /\ (node_is_red l = true -> red_ok (InLeft c (Z.max m (ext_end e)) pe pa r :: p) = true)).
    { destruct c; simpl.
      - destruct Hrb as (? & ? & Hlr & ?). exists n. split_and!; try done; [by apply Hro|congruence].
      - destruct n as [|n]; [done|]. destruct Hrb. exists n. by split_and!. }
    destruct Hrb' as (n' & H1 & H2 & H3).
    destruct (IHl (InLeft c (Z.max m (ext_end e)) pe pa r :: p) n') as (q & Hq & Hels & Hpl' & Hpm' & Hpr'); try done.
    + intros a' Hin. apply (Hnew a'). apply elem_of_app. by left.
    + destruct Hpl as [Hpb Hpa]. split; [done|]. simpl. constructor; [done|].
      apply Forall_app. split; [|done]. eapply Forall_impl; [exact Hr|]. simpl. intros x Hx.
      by eapply ext_lt_trans.
    + simpl. split_and!; [lia|done|done].
    + exists q. split_and!; try done. rewrite Hels. simpl. by rewrite <-!app_assoc.
  - assert (Hgt : ext_lt pe e).
    { assert (e <> pe) by (intros ->; by rewrite (proj2 (extent_equal_eq pe pe)) in E).
      apply ext_lt_total; [|done]. intros ?%extent_compare_lt. lia. }
    assert (Hrb' : exists n', rb r n' /\ path_rb (InRight c (Z.max m (ext_end e)) pe pa l :: p) n'
      /\ (node_is_red r = true -> red_ok (InRight c (Z.max m (ext_end e)) pe pa l :: p) = true)).
    { destruct c; simpl.
      - destruct Hrb as (? & ? & ? & Hrr). exists n. split_and!; try done; [by apply Hro|congruence].
      - destruct n as [|n]; [done|]. destruct Hrb. exists n. by split_and!. }
    destruct Hrb' as (n' & H1 & H2 & H3).
    destruct (IHr (InRight c (Z.max m (ext_end e)) pe pa l :: p) n') as (q & Hq & Hels & Hpl' & Hpm' & Hpr'); try done.
    + intros a' Hin. apply (Hnew a'). apply elem_of_app. right. by right.
    + destruct Hpl as [Hpb Hpa]. split; [|done]. simpl. rewrite !Forall_app. split_and!; [done| |].
      * eapply Forall_impl; [exact Hl|]. simpl. intros x Hx. by eapply ext_lt_trans.
      * by constructor.
    + simpl. split_and!; [lia|done|done].
    + exists q. split_and!; try done. rewrite Hels. simpl. by rewrite <-!app_assoc.
Qed.

(** What a fix-up promises of the tree it leaves: the elements of the position it
    started from, a correct augmentation and the red-black invariant. *)
Definition fixed (xs : list (interval_node_extent * A)) t : Prop :=
  elements t = xs /\ max_ok t /\ exists n, rb t n.

Lemma fixed_plug t p n xs :
  max_ok t -> path_max p (max_high t) -> rb t n -> path_rb p n ->
  (node_is_red t = true -> red_ok p = true) -> before p ++ elements t ++ after p = xs ->
  fixed xs (plug t p).
Proof.
  intros Hm Hpm Hr Hpr Hok Hxs. split_and!.
  - by rewrite elements_plug.
  - by apply max_ok_plug_iff.
  - by destruct (plug_rb t p n Hr Hpr Hok) as [_ ?].
Qed.

End Theory.

(** Closes the goals of a fix-up step on concrete nodes. *)
Ltac fix_nodes :=
  simpl in *;
  repeat match goal with
  | H : _ /\ _ |- _ => destruct H
  | H : _ && _ = true |- _ => apply andb_true_iff in H
  | H : node_is_red (Node ?c _ _ _ _ _) = _ |- _ => destruct c; simpl in H; try discriminate H
  end;
  simpl in *; rewrite ?node_max_eq in *; simpl in *; subst; try split_and!; try done; try lia;
  try match goal with
  | H : path_max ?p ?x |- path_max ?p ?y => replace y with x by lia; exact H
  end.

Section Insert.
Context {A : Type}.
Implicit Types t l r : tree A.
Implicit Types p : path A.
Implicit Types e ext : interval_node_extent.

Lemma insert_color_loop_spec k t p n :
  (length p <= k)%nat ->
  node_is_red t = true -> rb t n -> max_ok t -> path_rb p n -> path_max p (max_high t) ->
  exists root, insert_color_loop t p = Ret root
    /\ fixed (before p ++ elements t ++ after p) root.
Proof.
  revert t p n. induction k as [|k IH]; intros t p n Hk Hred Hrb Hm Hpr Hpm.
  { destruct p; [|simpl in Hk; lia]. exists t. split; [done|].
    split_and!; [simpl; by rewrite app_nil_r|done|eauto]. }
  destruct p as [|f p].
  { exists t. split; [done|]. split_and!; [simpl; by rewrite app_nil_r|done|eauto]. }
  destruct (red_ok (f :: p)) eqn:Hok.
  { exists (plug t (f :: p)). split; [by destruct f as [[]|[]]|]. by eapply fixed_plug. }
  destruct t as [|[] tm te ta tl tr]; try done.
  destruct f as [[] pm pe pa ps|[] pm pe pa ps]; try done;
    destruct Hpr as (Hs & Hsr & Hpr & Hrok); destruct p as [|[[] gm ge ga u|[] gm ge ga u] p]; try done;
    destruct Hpr as (Hu & Hpr); destruct Hpm as (Hpm1 & Hpm2 & Hgm1 & Hgm2 & Hpm);
    destruct Hrb as (Htl & Htr & Hltl & Hltr); destruct Hm as (Htm & Html & Htmr);
    cbn [insert_color_loop]; destruct (node_is_red u) eqn:Hur.
  all: try (destruct u as [|[] um ue ua ul ur]; [done| |done]).
  all: try match goal with |- context [insert_color_loop ?t' ?p'] =>
      destruct (IH t' p' (S n)) as (root & Hrun & Hels & Hf);
      [simpl in Hk; lia|done|fix_nodes|fix_nodes|done|fix_nodes|
       exists root; split; [exact Hrun|split; [|done]]; rewrite Hels; by norm_app]
    end.
  all: cbn [plug1 __rotate_left __rotate_right mbind run_bind set_color]; clear IH Hk; eexists; (split; [done|]);
    eapply (fixed_plug _ _ (S n)); try done; try (by norm_app); fix_nodes.
Qed.
Lemma fixed_blacken xs t :
  fixed xs t -> fixed xs (set_color INTERVAL_BLACK t)
    /\ node_is_red (set_color INTERVAL_BLACK t) = false.
Proof.
  intros (Hels & Hm & n & Hrb). destruct (blacken_rb t n Hrb) as [Hb [n' Hrb']].
  split; [|done]. split_and!; [by rewrite elements_set_color|by apply max_ok_set_color|eauto].
Qed.

Lemma fixed_wf xs t :
  fixed xs t -> node_is_red t = false -> sorted xs -> Forall (fun x => ext_ok x.1) xs -> wf t.
Proof.
  intros (Hels & Hm & Hrb) Hb Hs Hf. split; try done.
  - apply bst_sorted. by rewrite Hels.
  - unfold exts_ok. by rewrite Hels.
Qed.

Lemma place_sorted e (a : A) p :
  place e p -> sorted (before p ++ after p) -> sorted (before p ++ (e, a) :: after p).
Proof.
  intros [Hb Ha]. rewrite !sorted_app, sorted_cons. rewrite Forall_forall in Hb.
  intros (H1 & H2 & H3). split_and!; [done..|]. intros x y Hx [->|Hy]%elem_of_cons; auto.
Qed.

Lemma interval_insert_found e (mh : Z) (a a' : A) (root : tree A) :
  wf root -> (e, a') ∈ elements root -> interval_insert e mh a root = Ret (Some a', root).
Proof.
  intros [Hb Hm _ _ _] Hin. unfold interval_insert.
  by rewrite (insert_descend_found _ _ root [] Hb Hm Hin).
Qed.

Lemma interval_insert_new e (a : A) (root : tree A) :
  wf root -> ext_ok e -> (forall a', (e, a') ∉ elements root) ->
  exists root' xs ys, interval_insert e (ext_end e) a root = Ret (None, root') /\ wf root'
    /\ elements root = xs ++ ys /\ elements root' = xs ++ (e, a) :: ys.
Proof.
  intros [Hb Hm Hx Hbl [n Hrb]] He Hin. unfold interval_insert.
  destruct (insert_descend_new e root [] n) as (q & -> & Hels & Hpl & Hpm & Hpr); try done.
  { congruence. }
  simpl in Hels. rewrite app_nil_r in Hels.
  destruct (insert_color_loop_spec (length q) (Node INTERVAL_RED (ext_end e) e a Leaf Leaf) q 0)
    as (r & Hr & Hf); try done.
  { destruct He. simpl. unfold node_max, max_u64. simpl. repeat case_match; split_and!; lia. }
  unfold interval_insert_color. rewrite Hr. cbn [mbind run_bind].
  apply fixed_blacken in Hf as [Hf Hblack].
  exists (set_color INTERVAL_BLACK r), (before q), (after q). split_and!; try done; [|by destruct Hf].
  eapply fixed_wf; [exact Hf|done| |].
  - apply place_sorted; [done|]. rewrite Hels. by apply bst_sorted.
  - unfold exts_ok in Hx. rewrite <-Hels, Forall_app in Hx. destruct Hx.
    apply Forall_app. split; [done|]. by constructor.
Qed.

(** C17: [interval_insert] on a well-formed tree never dereferences a missing
    grandparent.  It returns the node that already has the extent and changes
    nothing, or it adds the new node at its sorted place; the tree it leaves is again
    a search tree with exact [in_max_high], a black root, no red node with a red child
    and the same number of black nodes on every path. *)
Theorem interval_insert_spec (start end_ : Z) e (mh : Z) (a : A) (root : tree A) :
  wf root -> 0 <= start -> interval_set start end_ = inr (e, mh) ->
  (forall a', (e, a') ∈ elements root -> interval_insert e mh a root = Ret (Some a', root))
  /\ ((forall a', (e, a') ∉ elements root) ->
      exists root' xs ys, interval_insert e mh a root = Ret (None, root') /\ wf root'
        /\ elements root = xs ++ ys /\ elements root' = xs ++ (e, a) :: ys).
Proof.
  intros Hwf Hs Hset. unfold interval_set in Hset. destruct (Z.ltb_spec end_ start); [done|].
  injection Hset as <- <-. split; [by intros; apply interval_insert_found|].
  intros Hnew. apply (interval_insert_new (Extent start end_) a root); [done| |done].
  unfold ext_ok. simpl. lia.
Qed.

End Insert.
