(* ===== verification/IntervalErase.v ===== *)
(** Removal from the interval tree (lustre/ldlm/interval_tree.c, [interval_erase],
    [interval_erase_color] and [update_maxhigh]).  The definitions are those of
    [IntervalTree]; this file shows that removal keeps the tree well formed. *)

From S2P Require Import Prelude IntervalTree.

Section Erase.
Context {A : Type}.
Implicit Types t l r : tree A.
Implicit Types p q : path A.
Implicit Types e : interval_node_extent.

(** ** The augmentation *)

(** Two paths with the same colours and siblings. *)
Record same_rb p q : Prop := {
  sr_rb : forall n, path_rb q n <-> path_rb p n;
  sr_red : red_ok q = red_ok p
}.

Definition frame_rb (f : frame A) : color * tree A :=
  match f with InLeft c _ _ _ s | InRight c _ _ _ s => (c, s) end.

Lemma same_rb_refl p : same_rb p p.
Proof. by split. Qed.

Lemma same_rb_cons f g p q : frame_rb f = frame_rb g -> same_rb p q -> same_rb (f :: p) (g :: q).
Proof.
  intros Hf [Hr Ho].
  destruct f as [[] ? ? ? s|[] ? ? ? s], g as [[] ? ? ? s'|[] ? ? ? s']; simplify_eq/=;
    split; simpl; try done; intros n; by rewrite ?Hr, ?Ho.
Qed.

Lemma same_rb_app p1 p2 q1 q2 :
  map frame_rb p1 = map frame_rb p2 -> same_rb q1 q2 -> same_rb (p1 ++ q1) (p2 ++ q2).
Proof.
  revert p2. induction p1 as [|f p1 IH]; intros [|g p2] Hf Hq; try done.
  injection Hf as Hfg Hf. by apply same_rb_cons; [|apply IH].
Qed.

(** Two paths that differ in [in_max_high] alone. *)
Record same_path p q : Prop := {
  sp_before : before q = before p;
  sp_after : after q = after p;
  sp_frames : map frame_rb q = map frame_rb p
}.

Lemma same_path_refl p : same_path p p.
Proof. by split. Qed.

Lemma same_path_trans p1 p2 p3 : same_path p1 p2 -> same_path p2 p3 -> same_path p1 p3.
Proof. intros [Hb Ha Hr] [Hb' Ha' Hr']. split; congruence. Qed.

Lemma same_path_rb p q : same_path p q -> same_rb p q.
Proof.
  intros [_ _ Hf]. rewrite <-(app_nil_r p), <-(app_nil_r q). by apply same_rb_app.
Qed.

Definition with_max (m : Z) (f : frame A) : frame A :=
  match f with
  | InLeft c _ e a r => InLeft c m e a r
  | InRight c _ e a l => InRight c m e a l
  end.

Lemma same_path_cons f m p q : same_path p q -> same_path (f :: p) (with_max m f :: q).
Proof. intros [Hb Ha Hr]. destruct f as [? ? e a s|? ? e a s]; split; simpl; congruence. Qed.

Lemma update_path_same cm p old : same_path p (update_path cm p old).
Proof.
  revert cm. induction p as [|f p IH]; intros cm; [done|].
  destruct f as [c m e a s|c m e a s]; simpl;
    match goal with |- same_path _ (InLeft _ ?m' _ _ _ :: _) => apply (same_path_cons (InLeft c m e a s) m')
               | |- same_path _ (InRight _ ?m' _ _ _ :: _) => apply (same_path_cons (InRight c m e a s) m') end;
    case_match; auto using same_path_refl.
Qed.

(** The walk up stops early only where nothing above can change. *)
Lemma update_path_max cm p old :
  path_max p old -> cm <= old -> path_max (update_path cm p old) cm.
Proof.
  revert cm. induction p as [|f p IH]; intros cm Hp Hle; [done|].
  destruct f as [c m e a s|c m e a s]; simpl in *; destruct Hp as (-> & Hs & Hp);
    rewrite !max_u64_eq; split_and!; try done;
    match goal with |- context [old <=? ?m'] => destruct (Z.leb_spec old m') end.
  all: try match goal with
    | Hp : path_max ?p ?x |- path_max ?p ?y => replace y with x by lia; exact Hp
    end.
  all: apply IH; [|lia];
    match goal with Hp : path_max ?p ?x |- path_max ?p ?y => replace y with x by lia; exact Hp end.
Qed.

Lemma update_maxhigh_spec t p old t' p' :
  update_maxhigh t p old = (t', p') ->
  max_ok t -> max_high t <= old -> path_max p old ->
  t' = t /\ same_path p p' /\ path_max p' (max_high t').
Proof.
  destruct t as [|c m e a l r]; simpl; intros [= <- <-] Hm Hle Hp.
  - split_and!; [done|apply update_path_same|by apply update_path_max].
  - destruct Hm as (<- & _ & _). split_and!; [done| |];
      destruct (Z.leb_spec old m) as [?|?]; auto using same_path_refl, update_path_same.
    + simpl. by rewrite <-(Z.le_antisymm _ _ H Hle).
    + apply update_path_max; [done|simpl; lia].
Qed.

(** ** The colours *)

Definition above (c : color) (n : nat) : nat :=
  match c with INTERVAL_BLACK => S n | INTERVAL_RED => n end.

(** A tree one black node short of [S n], or red and of that height once it is
    painted black. *)
Definition short t (n : nat) : Prop :=
  if node_is_red t then rb (set_color INTERVAL_BLACK t) (S n) else rb t n.

Lemma rb_short t n : rb t n -> short t n.
Proof.
  unfold short. destruct t as [|[] m e a l r]; simpl; [done| |done]. by intros (? & ? & _).
Qed.

Lemma path_rb_cons f p n :
  path_rb (f :: p) n ->
  match f with InLeft c _ _ _ s | InRight c _ _ _ s =>
    rb s n /\ path_rb p (above c n) /\ (c = INTERVAL_RED -> node_is_red s = false /\ red_ok p = true)
  end.
Proof. destruct f as [[] ? ? ? s|[] ? ? ? s]; simpl; [tauto| |tauto|]; intros [? ?]; by split_and!. Qed.

(** What one turn with a black sibling leaves in place of the parent's subtree. *)
Definition step_ok (c : color) (n : nat) (m : Z) (xs : list (interval_node_extent * A))
    (s : erase_step (A := A)) : Prop :=
  match s with
  | EraseUp t =>
      short t (above c n) /\ (c = INTERVAL_RED -> node_is_red t = true)
      /\ elements t = xs /\ max_ok t /\ max_high t = m
  | EraseDone t =>
      rb t (above c (S n)) /\ (node_is_red t = true -> c = INTERVAL_RED)
      /\ elements t = xs /\ max_ok t /\ max_high t = m
  end.
Lemma black_or_0 t : node_is_black_or_0 t = negb (node_is_red t).
Proof. by destruct t as [|[] ? ? ? ? ?]. Qed.

(** Closes the goals of a turn once the nodes it rotates are visible. *)
Ltac turn_nodes :=
  eexists; (split; [reflexivity|]); unfold short; simpl; split_and!;
  try (by norm_app); fix_nodes.

Lemma erase_left_spec t (c : color) (m : Z) e (a : A) (tmp : tree A) (n : nat) :
  rb t n -> rb tmp (S n) -> node_is_red tmp = false -> max_ok (Node c m e a t tmp) ->
  exists s, erase_left t c m e a tmp = Ret s
    /\ step_ok c n m (elements t ++ (e, a) :: elements tmp) s.
Proof.
  intros Ht Htmp Hblack (Hm & Hmt & Hmtmp). destruct tmp as [|[] tm te ta tl tr]; try done.
  destruct Htmp as [Hl Hr]. destruct Hmtmp as (Htm & Hml & Hmr). cbn [erase_left].
  rewrite !black_or_0. destruct (node_is_red tr) eqn:Hrr.
  - rewrite andb_false_r. destruct tr as [|[] rm re ra rl rr]; try done. destruct c; turn_nodes.
  - destruct (node_is_red tl) eqn:Hlr; cbn [negb andb].
    + destruct tl as [|[] lm le la ll lr]; try done. destruct c; turn_nodes.
    + destruct c; turn_nodes.
Qed.

Lemma erase_right_spec t (c : color) (m : Z) e (a : A) (tmp : tree A) (n : nat) :
  rb t n -> rb tmp (S n) -> node_is_red tmp = false -> max_ok (Node c m e a tmp t) ->
  exists s, erase_right t c m e a tmp = Ret s
    /\ step_ok c n m (elements tmp ++ (e, a) :: elements t) s.
Proof.
  intros Ht Htmp Hblack (Hm & Hmtmp & Hmt). destruct tmp as [|[] tm te ta tl tr]; try done.
  destruct Htmp as [Hl Hr]. destruct Hmtmp as (Htm & Hml & Hmr). cbn [erase_right].
  rewrite !black_or_0. destruct (node_is_red tl) eqn:Hlr.
  - destruct tl as [|[] lm le la ll lr]; try done. destruct c; turn_nodes.
  - destruct (node_is_red tr) eqn:Hrr; cbn [negb andb].
    + destruct tr as [|[] rm re ra rl rr]; try done. destruct c; turn_nodes.
    + destruct c; turn_nodes.
Qed.

Definition fixed_black (xs : list (interval_node_extent * A)) t : Prop :=
  fixed xs t /\ node_is_red t = false.

Lemma fixed_black_plug t p n xs :
  max_ok t -> path_max p (max_high t) -> rb t n -> path_rb p n ->
  (node_is_red t = true -> red_ok p = true) -> before p ++ elements t ++ after p = xs ->
  fixed_black xs (plug t p).
Proof.
  intros Hm Hpm Hr Hpr Hok Hxs. split; [by eapply fixed_plug|].
  by destruct (plug_rb t p n Hr Hpr Hok).
Qed.

(** The loop stops: at the root, or at a red node that is painted black. *)
Lemma erase_finish_spec t p n :
  short t n -> node_is_red t = true \/ p = [] -> max_ok t -> path_max p (max_high t) ->
  path_rb p (S n) ->
  fixed_black (before p ++ elements t ++ after p) (erase_finish t p).
Proof.
  intros Hs Hc Hm Hpm Hpr. unfold erase_finish, short in *.
  assert (Hb : exists n', rb (set_color INTERVAL_BLACK t) n' /\ path_rb p n').
  { destruct (node_is_red t) eqn:E; [by eexists|].
    destruct Hc as [?| ->]; [done|]. exists n. split; [|done].
    destruct t as [|[] ? ? ? ? ?]; done. }
  destruct Hb as (n' & Hrb & Hp). apply (fixed_black_plug _ _ n'); try done.
  - by apply max_ok_set_color.
  - by rewrite max_high_set_color.
  - by destruct t.
  - by rewrite elements_set_color.
Qed.

(** The rotated subtree is put back; the root is black already. *)
Lemma erase_done_spec t p n :
  rb t (S n) -> (node_is_red t = true -> red_ok p = true) -> max_ok t ->
  path_max p (max_high t) -> path_rb p (S n) ->
  fixed_black (before p ++ elements t ++ after p) (set_color INTERVAL_BLACK (plug t p)).
Proof.
  intros Hr Hok Hm Hpm Hp.
  destruct (fixed_black_plug t p (S n) _ Hm Hpm Hr Hp Hok eq_refl) as [Hf Hb].
  by apply fixed_blacken in Hf.
Qed.

Lemma above_S c n : above c (S n) = S (above c n).
Proof. by destruct c. Qed.

(** The two ways a turn goes on, at the place of the parent. *)
Lemma step_up s c n m xs p :
  step_ok c n m xs s -> path_max p m -> path_rb p (above c (S n)) ->
  (c = INTERVAL_RED -> red_ok p = true) ->
  (forall t, short t (above c n) -> max_ok t -> path_max p (max_high t) ->
     path_rb p (S (above c n)) ->
     exists root, interval_erase_color t p = Ret root
       /\ fixed_black (before p ++ elements t ++ after p) root) ->
  exists root,
    match s with
    | EraseUp parent => interval_erase_color parent p
    | EraseDone t => Ret (set_color INTERVAL_BLACK (plug t p))
    end = Ret root /\ fixed_black (before p ++ xs ++ after p) root.
Proof.
  rewrite above_S. intros Hs Hpm Hpr Hok IH. destruct s as [t|t].
  - destruct Hs as (Hs & _ & <- & Hm & <-). by apply IH.
  - destruct Hs as (Hs & Hc & <- & Hm & <-). rewrite above_S in Hs. eexists. split; [done|].
    eapply erase_done_spec; eauto.
Qed.

Lemma step_red s n m xs p :
  step_ok INTERVAL_RED n m xs s -> path_max p m -> path_rb p (S n) -> red_ok p = true ->
  exists root,
    match s with
    | EraseUp parent => Ret (erase_finish parent p)
    | EraseDone t => Ret (set_color INTERVAL_BLACK (plug t p))
    end = Ret root /\ fixed_black (before p ++ xs ++ after p) root.
Proof.
  intros Hs Hpm Hpr Hok. destruct s as [t|t].
  - destruct Hs as (Hs & Hred & <- & Hm & <-). eexists. split; [done|].
    eapply erase_finish_spec; eauto.
  - destruct Hs as (Hs & Hc & <- & Hm & <-). eexists. split; [done|].
    eapply erase_done_spec; eauto.
Qed.

Lemma interval_erase_color_spec t p n :
  short t n -> max_ok t -> path_max p (max_high t) -> path_rb p (S n) ->
  exists root, interval_erase_color t p = Ret root
    /\ fixed_black (before p ++ elements t ++ after p) root.
Proof.
  revert t n. induction p as [|f p IH]; intros t n Hs Hm Hpm Hpr.
  { simpl. rewrite black_or_0, negb_involutive. exists (erase_finish t []).
    split; [by destruct (node_is_red t)|]. apply (erase_finish_spec t [] n); auto. }
  simpl. rewrite black_or_0, negb_involutive. destruct (node_is_red t) eqn:Hred.
  { eexists. split; [done|]. apply (erase_finish_spec t (f :: p) n); auto. }
  unfold short in Hs. rewrite Hred in Hs. pose proof (path_rb_cons _ _ _ Hpr) as Hf.
  destruct f as [c m e a s|c m e a s]; destruct Hf as (Hsib & Hp & Hc);
    destruct Hpm as (Hmm & Hms & Hpm); destruct (node_is_red s) eqn:Hsr.
  - destruct c; [by destruct (Hc eq_refl)|]. destruct s as [|[] sm se sa sl sr]; try done.
    destruct Hsib as (Hl & Hr & Hlr & Hrr). destruct Hms as (Hsm & Hml & Hmr).
    destruct (erase_left_spec t INTERVAL_RED (node_max e t sl) e a sl n) as (st & -> & Hst); try done.
    rewrite node_max_eq in *. cbn [mbind run_bind].
    destruct (step_red _ _ _ _ (InLeft INTERVAL_BLACK m se sa sr :: p) Hst) as (root & Hrun & Hf); try done.
    { simpl in *. split_and!; [lia|done|done]. }
    exists root. split; [exact Hrun|]. revert Hf. by norm_app.
  - destruct (erase_left_spec t c m e a s n) as (st & -> & Hst); try done.
    { simpl. by rewrite node_max_eq. }
    cbn [mbind run_bind].
    destruct (step_up _ _ _ _ _ p Hst) as (root & Hrun & Hf); eauto.
    { intros E. by apply Hc. }
    exists root. split; [exact Hrun|]. revert Hf. by norm_app.
  - destruct c; [by destruct (Hc eq_refl)|]. destruct s as [|[] sm se sa sl sr]; try done.
    destruct Hsib as (Hl & Hr & Hlr & Hrr). destruct Hms as (Hsm & Hml & Hmr).
    destruct (erase_right_spec t INTERVAL_RED (node_max e sr t) e a sr n) as (st & -> & Hst); try done.
    rewrite node_max_eq in *. cbn [mbind run_bind].
    destruct (step_red _ _ _ _ (InRight INTERVAL_BLACK m se sa sl :: p) Hst) as (root & Hrun & Hf); try done.
    { simpl in *. split_and!; [lia|done|done]. }
    exists root. split; [exact Hrun|]. revert Hf. by norm_app.
  - destruct (erase_right_spec t c m e a s n) as (st & -> & Hst); try done.
    { simpl. by rewrite node_max_eq. }
    cbn [mbind run_bind].
    destruct (step_up _ _ _ _ _ p Hst) as (root & Hrun & Hf); eauto.
    { intros E. by apply Hc. }
    exists root. split; [exact Hrun|]. revert Hf. by norm_app.
Qed.

(** ** Positions in a tree *)

Lemma plug_app t p q : plug t (p ++ q) = plug (plug t p) q.
Proof. revert t. induction p as [|f p IH]; intros t; [done|]. apply IH. Qed.

Lemma before_app p q : before (p ++ q) = before q ++ before p.
Proof.
  induction p as [|f p IH]; simpl; [by rewrite app_nil_r|].
  destruct f; [done|]. by rewrite IH, !app_assoc.
Qed.

Lemma after_app p q : after (p ++ q) = after p ++ after q.
Proof. induction p as [|f p IH]; simpl; [done|]. destruct f; [|done]. rewrite IH. by norm_app. Qed.

(** The invariant of a whole tree, seen from a position in it. *)
Lemma plug_rb_inv t p n :
  rb (plug t p) n -> node_is_red (plug t p) = false ->
  exists k, rb t k /\ path_rb p k /\ (node_is_red t = true -> red_ok p = true).
Proof.
  revert t. induction p as [|f p IH]; intros t Hr Hb.
  { exists n. split_and!; [done|done|]. simpl in Hb. congruence. }
  destruct (IH _ Hr Hb) as (k & Hk & Hp & Hok).
  destruct f as [[] m e a s|[] m e a s]; simpl in Hk.
  - destruct Hk as (? & ? & Hl & ?). exists k. simpl. split_and!; auto. congruence.
  - destruct k as [|k]; [done|]. destruct Hk. by exists k.
  - destruct Hk as (? & ? & ? & Hl). exists k. simpl. split_and!; auto. congruence.
  - destruct k as [|k]; [done|]. destruct Hk. by exists k.
Qed.

(** The leftmost node of a subtree has no left child, and the way down to it has
    nothing on its left. *)
Lemma interval_first_spec t p :
  node_is_red t = true \/ t <> Leaf ->
  exists c m e a r low, interval_first t p = (Node c m e a Leaf r, low ++ p)
    /\ before low = [] /\ t = plug (Node c m e a Leaf r) low.
Proof.
  intros Ht. assert (Hn : t <> Leaf) by (intros ->; by destruct Ht). clear Ht.
  revert p. induction t as [|c m e a l IHl r _]; intros p; [done|].
  destruct l as [|lc lm le la ll lr].
  { by exists c, m, e, a, r, []. }
  destruct (IHl ltac:(done) (InLeft c m e a r :: p)) as (c' & m' & e' & a' & r' & low & Hf & Hb & Ht).
  exists c', m', e', a', r', (low ++ [InLeft c m e a r]). split_and!.
  - rewrite <-app_assoc. exact Hf.
  - by rewrite before_app, Hb.
  - by rewrite plug_app, <-Ht.
Qed.

Lemma max_high_le t b :
  max_ok t -> (forall x, x ∈ elements t -> ext_end x.1 <= b) -> 0 <= b -> max_high t <= b.
Proof.
  induction t as [|c m e a l IHl r IHr]; simpl; [done|]. intros (-> & Hl & Hr) Hin Hb.
  rewrite node_max_eq. specialize (IHl Hl). specialize (IHr Hr).
  setoid_rewrite elem_of_app in Hin. setoid_rewrite elem_of_cons in Hin.
  pose proof (Hin (e, a)) as He. simpl in He. 
  repeat apply Z.max_lub; auto.
Qed.

(** ** One node is taken out *)

Lemma erase_color_of_spec c t p n :
  rb t n -> (c = INTERVAL_RED -> node_is_red t = false) -> path_rb p (above c n) ->
  max_ok t -> path_max p (max_high t) ->
  exists root, erase_color_of c t p = Ret root /\ fixed_black (before p ++ elements t ++ after p) root.
Proof.
  intros Ht Hc Hp Hm Hpm. destruct c; simpl in *.
  - eexists. split; [done|]. apply (fixed_black_plug _ _ n); try done. rewrite Hc; done.
  - apply (interval_erase_color_spec t p n); auto using rb_short.
Qed.

Lemma length_update_path cm p old : length (update_path cm p old) = length p.
Proof.
  revert cm. induction p as [|f p IH]; intros cm; [done|].
  destruct f; simpl; case_match; simpl; by rewrite ?IH.
Qed.

(** The first walk up ends below the place of the removed node, or at the
    successor that took it. *)
Lemma update_path_stop cm low c m ne na l p nm :
  nm <= Z.max (ext_end ne) cm ->
  exists m', update_path cm (low ++ InRight c m ne na l :: p) nm
    = update_path cm low nm ++ InRight c m' ne na l :: p.
Proof.
  revert cm. induction low as [|f low IH]; intros cm Hle; simpl.
  { rewrite !max_u64_eq. rewrite (proj2 (Z.leb_le nm _)) by lia. by eexists. }
  destruct f; rewrite !max_u64_eq; case_match; try (by eexists);
    match goal with |- context [update_path ?cm' (low ++ _) _] =>
      destruct (IH cm') as [m' ->]; [lia|] end; by eexists.
Qed.

Lemma update_maxhigh_stop t low c m ne na l p nm :
  max_ok t -> nm <= Z.max (ext_end ne) (max_high t) ->
  exists low' m', update_maxhigh t (low ++ InRight c m ne na l :: p) nm
      = (t, low' ++ InRight c m' ne na l :: p)
    /\ update_maxhigh t low nm = (t, low') /\ length low' = length low.
Proof.
  intros Hm Hle. destruct t as [|tc tm te ta tl tr]; simpl.
  - destruct (update_path_stop 0 low c m ne na l p nm Hle) as [m' ->].
    eexists _, m'. split_and!; [done|done|apply length_update_path].
  - destruct Hm as (<- & _ & _). case_match; [by eexists _, _|].
    destruct (update_path_stop tm low c m ne na l p nm Hle) as [m' ->].
    eexists _, m'. split_and!; [done|done|apply length_update_path].
Qed.

(** The second walk up, from the successor in its new place. *)
Lemma second_update m om p :
  path_max p om -> m <= om ->
  let p2 := if om <=? m then p else update_path m p om in
  same_path p p2 /\ path_max p2 m.
Proof.
  intros Hp Hle p2. unfold p2. destruct (Z.leb_spec om m).
  - split; [apply same_path_refl|]. by replace m with om by lia.
  - split; [apply update_path_same|by apply update_path_max].
Qed.

(** A node without a child on one side: the other child takes its place. *)
Lemma erase_single_spec c m e (a : A) l r p n child :
  max_ok (plug (Node c m e a l r) p) -> rb (plug (Node c m e a l r) p) n ->
  node_is_red (plug (Node c m e a l r) p) = false ->
  (l = Leaf /\ child = r \/ r = Leaf /\ child = l) ->
  exists root', (let '(t', p') := update_maxhigh child p m in erase_color_of c t' p') = Ret root'
    /\ fixed_black (before p ++ elements l ++ elements r ++ after p) root'.
Proof.
  intros Hm Hr Hb Hch. apply max_ok_plug_iff in Hm as [(Hmm & Hml & Hmr) Hpm]. simpl in Hpm.
  destruct (plug_rb_inv _ _ _ Hr Hb) as (k & Hk & Hp & Hok). clear Hr Hb.
  rewrite node_max_eq in Hmm. destruct (update_maxhigh child p m) as [t' p'] eqn:Hu.
  apply update_maxhigh_spec in Hu as (-> & Hsp & Hpm'); try done.
  2, 3: destruct Hch as [[-> ->]|[-> ->]]; simpl in *; try done; lia.
  assert (Hc : exists j, rb child j /\ path_rb p (above c j)
    /\ (c = INTERVAL_RED -> node_is_red child = false)).
  { destruct c; simpl in Hk.
    - exists k. destruct Hk as (? & ? & ? & ?). by destruct Hch as [[-> ->]|[-> ->]].
    - destruct k as [|k]; [done|]. exists k. destruct Hk. by destruct Hch as [[-> ->]|[-> ->]]. }
  destruct Hc as (j & Hj & Hpj & Hc).
  destruct (erase_color_of_spec c child p' j) as (root' & -> & Hf); try done.
  { by apply (sr_rb _ _ (same_path_rb _ _ Hsp)). }
  { by destruct Hch as [[-> ->]|[-> ->]]. }
  exists root'. split; [done|]. destruct Hsp as [Hbf Haf _]. rewrite Hbf, Haf in Hf.
  destruct Hch as [[-> ->]|[-> ->]]; done.
Qed.

(** The successor takes the place of a node with two children. *)
Lemma erase_successor_spec oc om oe (oa : A) l p nc nm ne (na : A) child low low' m1 p2 n :
  let r := plug (Node nc nm ne na Leaf child) low in
  let root := plug (Node oc om oe oa l r) p in
  before low = [] -> max_ok root -> rb root n -> node_is_red root = false ->
  same_path low low' -> path_max low' (max_high child) -> m1 = node_max ne l (plug child low') ->
  same_path p p2 -> path_max p2 m1 ->
  exists root', erase_color_of nc child (low' ++ InRight oc m1 ne na l :: p2) = Ret root'
    /\ fixed_black (before p ++ elements l ++ elements r ++ after p) root'.
Proof.
  intros r root Hlow Hm Hr Hb [Hlb Hla Hlf] Hlm -> [Hpb Hpa Hpf] Hpm.
  apply max_ok_plug_iff in Hm as [(_ & Hml & Hmr) _].
  apply max_ok_plug_iff in Hmr as [(_ & _ & Hmc) _].
  assert (Hroot : root = plug child (InRight nc nm ne na Leaf :: low ++ InRight oc om oe oa l :: p))
    by (simpl; by rewrite plug_app).
  rewrite Hroot in Hr, Hb. destruct (plug_rb_inv _ _ _ Hr Hb) as (k & Hk & Hp & Hok).
  apply path_rb_cons in Hp as (_ & Hp & Hc).
  destruct (erase_color_of_spec nc child (low' ++ InRight oc (node_max ne l (plug child low')) ne na l :: p2) k)
    as (root' & -> & Hf); try done.
  - intros ->. destruct (node_is_red child); [by specialize (Hok eq_refl)|done].
  - eapply (sr_rb (low ++ InRight oc om oe oa l :: p)); [|exact Hp].
    apply same_rb_app; [done|]. apply same_rb_cons; [done|]. by apply same_path_rb.
  - assert (Hmax : max_ok (plug (plug child low') (InRight oc (node_max ne l (plug child low')) ne na l :: p2))).
    { apply max_ok_plug_iff. split; [by apply max_ok_plug_iff|]. simpl. by rewrite node_max_eq in *. }
    rewrite <-plug_app in Hmax. by apply max_ok_plug_iff in Hmax as [_ Hmax].
  - exists root'. split; [done|]. revert Hf. unfold r.
    rewrite before_app, after_app, elements_plug. simpl. rewrite Hlb, Hla, Hpb, Hpa, Hlow. by norm_app.
Qed.

Lemma fixed_black_wf xs x ys t :
  fixed_black (xs ++ ys) t -> sorted (xs ++ x :: ys) ->
  Forall (fun y => ext_ok y.1) (xs ++ x :: ys) -> wf t /\ elements t = xs ++ ys.
Proof.
  intros [Hf Hb] Hs Ho. split; [|by destruct Hf]. eapply fixed_wf; [exact Hf|done| |].
  - rewrite sorted_app, sorted_cons in *. destruct Hs as (? & [? ?] & Hlt). split_and!; try done.
    intros y z ? ?. apply Hlt; [done|]. by right.
  - rewrite Forall_app, Forall_cons in *. tauto.
Qed.

(** A node with two children, and its successor at the end of the path [low]. *)
Section TwoChildren.
Context (c : color) (m : Z) (e : interval_node_extent) (a : A) (l : tree A) (p : path A).
Context (nc : color) (nm : Z) (ne : interval_node_extent) (na : A) (child : tree A) (low : path A).
Let r : tree A := plug (Node nc nm ne na Leaf child) low.
Let root : tree A := plug (Node c m e a l r) p.
Hypothesis Hwf : wf root.
Hypothesis Hlow : before low = [].

Let goal (res : run (tree A)) : Prop :=
  exists root', res = Ret root' /\ fixed_black (before p ++ elements l ++ elements r ++ after p) root'.

Lemma successor_in_root x : x = (e, a) \/ x = (ne, na) \/ x ∈ elements r -> 0 <= ext_end x.1.
Proof.
  intros Hx. destruct Hwf as [_ _ Ho _ _]. unfold exts_ok in Ho.
  rewrite Forall_forall in Ho. destruct (Ho x) as [? ?]; [|lia].
  unfold root. rewrite elements_plug. simpl. rewrite !elem_of_app, elem_of_cons.
  destruct Hx as [->|[->|Hx]]; [by auto| |by auto]. right. left. right. right.
  unfold r. rewrite elements_plug, Hlow. by left.
Qed.

Lemma two_children_max :
  m = Z.max (ext_end e) (Z.max (max_high l) (max_high r)) /\ path_max p m
  /\ nm = Z.max (ext_end ne) (max_high child) /\ max_ok child /\ path_max low nm
  /\ 0 <= ext_end ne /\ 0 <= ext_end e /\ max_ok r.
Proof.
  pose proof (wf_max _ Hwf) as [(Hom & Hml & Hmr) Hpm]%max_ok_plug_iff.
  pose proof Hmr as [(Hnm & _ & Hmc) Hplow]%max_ok_plug_iff.
  pose proof (successor_in_root (ne, na) ltac:(auto)) as Hne. 
  pose proof (successor_in_root (e, a) ltac:(auto)) as He.
  rewrite node_max_eq in *. cbn [max_high fst] in *. split_and!; try done. lia.
Qed.

Lemma successor_done low' m1 p2 :
  same_path low low' -> path_max low' (max_high child) -> m1 = node_max ne l (plug child low') ->
  same_path p p2 -> path_max p2 m1 ->
  goal (erase_color_of nc child (low' ++ InRight c m1 ne na l :: p2)).
Proof. destruct Hwf as [_ Hm _ Hb [n Hr]]. by apply (erase_successor_spec c m e a l p nc nm ne na child low low' m1 p2 n). Qed.

(** The successor is the right child and has no child. *)
Lemma near_leaf :
  low = [] -> child = Leaf ->
  let old_max := node_max e l Leaf in
  let p1 := if nm <=? old_max then p else update_path nm p nm in
  let m1 := node_max ne l Leaf in
  let p2 := if old_max <=? m1 then p1 else update_path m1 p1 old_max in
  goal (erase_color_of nc Leaf (InRight c m1 ne na l :: p2)).
Proof.
  intros El Ec old_max p1 m1 p2. destruct two_children_max as (Hm & Hpm & Hnm & _ & _ & Hne & He & _).
  unfold r in Hm. rewrite El, Ec in Hm. rewrite Ec in Hnm. cbn [plug max_high] in Hm, Hnm.
  assert (Hp2 : same_path p p2 /\ path_max p2 m1).
  { unfold p2, p1, m1, old_max. rewrite !node_max_eq. cbn [max_high].
    destruct (Z.leb_spec nm (Z.max (ext_end e) (Z.max (max_high l) 0))).
    - replace (Z.max (ext_end e) _) with m by lia. apply second_update; [done|lia].
    - rewrite (proj2 (Z.leb_le _ _)) by lia. split; [apply update_path_same|].
      replace (Z.max _ _) with nm by lia. apply update_path_max; [|lia]. by replace nm with m by lia. }
  destruct Hp2. rewrite <-Ec. apply (successor_done []); try done; by rewrite ?El, ?Ec.
Qed.

(** Otherwise the second walk up starts from the successor's own maximum. *)
Lemma successor_second low' :
  same_path low low' -> path_max low' (max_high child) ->
  let m1 := node_max ne l (plug child low') in
  let p2 := if m <=? m1 then p else update_path m1 p m in
  goal (erase_color_of nc child (low' ++ InRight c m1 ne na l :: p2)).
Proof.
  intros Hsl Hpl m1 p2. destruct two_children_max as (Hm & Hpm & Hnm & Hmc & _ & Hne & He & Hmr).
  assert (Hin : forall x, x ∈ (ne, na) :: elements (plug child low') -> x ∈ elements r).
  { intros x. unfold r. rewrite !elements_plug, (sp_before _ _ Hsl), (sp_after _ _ Hsl), Hlow. done. }
  assert (Hm1 : m1 <= m).
  { unfold m1. rewrite node_max_eq.
    pose proof (max_high_bound _ _ Hmr (Hin (ne, na) ltac:(by left))) as Hb. simpl in Hb.
    assert (max_high (plug child low') <= max_high r); [|lia].
    apply max_high_le; [by apply max_ok_plug_iff| |lia].
    intros x Hx. apply max_high_bound; [done|]. apply Hin. by right. }
  destruct (second_update m1 m p Hpm Hm1). by apply successor_done.
Qed.

(** The first walk up stays below the place of the removed node. *)
Lemma first_update :
  exists low' m', update_maxhigh child (low ++ InRight c nm ne na l :: p) nm
      = (child, low' ++ InRight c m' ne na l :: p)
    /\ length low' = length low /\ same_path low low' /\ path_max low' (max_high child).
Proof.
  destruct two_children_max as (_ & _ & Hnm & Hmc & Hpl & _).
  destruct (update_maxhigh_stop child low c nm ne na l p nm) as (low' & m' & Hu & Hu' & Hlen);
    [done|lia|].
  apply update_maxhigh_spec in Hu' as (_ & Hsp & Hpm'); [|done|lia|done]. by exists low', m'.
Qed.
End TwoChildren.

Lemma interval_erase_fixed c m e (a : A) l r p :
  wf (plug (Node c m e a l r) p) ->
  exists root', interval_erase (Node c m e a l r) p = Ret root'
    /\ fixed_black (before p ++ elements l ++ elements r ++ after p) root'.
Proof.
  intros Hwf. pose proof Hwf as [_ Hm _ Hb [n Hr]].
  destruct l as [|lc lm le la ll lr]; [by eapply erase_single_spec; eauto|].
  destruct r as [|rc rm re ra rl rr]; [by eapply erase_single_spec; eauto|].
  destruct (interval_first_spec (Node rc rm re ra rl rr) [])
    as (nc & nm & ne & na & child & low & Hfirst & Hlow & Hrp); [by right|].
  rewrite app_nil_r in Hfirst. cbn [interval_erase]. rewrite Hfirst.
  remember (Node lc lm le la ll lr) as l eqn:El. rewrite Hrp in *.
  clear El Hrp Hfirst rc rm re ra rl rr lc lm le la ll lr Hm Hb Hr n.
  destruct (first_update _ _ _ _ _ _ _ _ _ _ _ _ Hwf Hlow) as (low' & m' & Hu & Hlen & Hsp & Hpm).
  pose proof (successor_second _ _ _ _ _ _ _ _ _ _ _ _ Hwf Hlow low' Hsp Hpm) as Hfin.
  destruct low as [|f low]; [destruct child as [|cc cm ce ca cl cr]|].
  - by apply (near_leaf c m e a l p nc nm ne na Leaf [] Hwf Hlow).
  - destruct low' as [|]; [|done].
    destruct (two_children_max _ _ _ _ _ _ _ _ _ _ _ _ Hwf Hlow) as (_ & _ & _ & (Hcm & _ & _) & _).
    cbn [update_maxhigh app] in Hu. rewrite <-Hcm in *. apply pair_equal_spec in Hu as [_ Hu].
    destruct (nm <=? cm); [exact Hfin|]. cbn [app] in Hu. rewrite Hu. exact Hfin.
  - rewrite Hu, <-Hlen, take_app_length, drop_app_length. exact Hfin.
Qed.

(** C18: [interval_erase] of any node of a well-formed tree never dereferences a
    missing sibling or successor.  It takes that node out of the sorted sequence and
    no other, and the tree it leaves is again a search tree with exact [in_max_high]
    (although [update_maxhigh] stops early on its way up), a black root, no red node
    with a red child and the same number of black nodes on every path. *)
Theorem interval_erase_spec c m e (a : A) l r p :
  wf (plug (Node c m e a l r) p) ->
  exists root' xs ys, interval_erase (Node c m e a l r) p = Ret root' /\ wf root'
    /\ elements (plug (Node c m e a l r) p) = xs ++ (e, a) :: ys /\ elements root' = xs ++ ys.
Proof.
  intros Hwf. destruct (interval_erase_fixed c m e a l r p Hwf) as (root' & Hrun & Hf).
  assert (Hels : elements (plug (Node c m e a l r) p)
    = (before p ++ elements l) ++ (e, a) :: elements r ++ after p) by (rewrite elements_plug; by norm_app).
  rewrite app_assoc in Hf.
  destruct (fixed_black_wf _ (e, a) _ root' Hf) as [Hwf' Hels'].
  - rewrite <-Hels. apply bst_sorted, Hwf.
  - rewrite <-Hels. apply Hwf.
  - exists root', (before p ++ elements l), (elements r ++ after p). by split_and!.
Qed.
End Erase.
