(* ===== verification/IntervalWalk.v ===== *)
(** Walks over the interval tree (lustre/ldlm/interval_tree.c, [interval_first],
    [interval_last], [interval_next], [interval_prev], [interval_iterate] and its
    reverse), the height of a well-formed tree, and runs of the operations on small
    trees. *)

From S2P Require Import Prelude IntervalTree IntervalErase.

Section Walk.
Context {A : Type}.
Implicit Types t l r : tree A.
Implicit Types p q : path A.
Implicit Types e : interval_node_extent.

(** A position, and the elements from it on (from it back). *)
Definition pos_rest (pos : option (tree A * path A)) : list (interval_node_extent * A) :=
  match pos with
  | Some (Node _ _ e a _ r, p) => (e, a) :: elements r ++ after p
  | _ => []
  end.

Definition pos_back (pos : option (tree A * path A)) : list (interval_node_extent * A) :=
  match pos with
  | Some (Node _ _ e a l _, p) => (e, a) :: rev (before p ++ elements l)
  | _ => []
  end.

Lemma climb_right_rest t p : pos_rest (climb_right t p) = after p.
Proof. revert t. induction p as [|[] p IH]; intros t; simpl; [done|done|apply IH]. Qed.

Lemma climb_left_back t p : pos_back (climb_left t p) = rev (before p).
Proof.
  revert t. induction p as [|[] p IH]; intros t; simpl; [done|apply IH|].
  rewrite !rev_app_distr. by norm_app.
Qed.

Lemma interval_first_rest t p : pos_rest (Some (interval_first t p)) = elements t ++
  match t with Leaf => [] | _ => after p end.
Proof.
  revert p. induction t as [|c m e a l IHl r _]; intros p; [done|].
  destruct l as [|lc lm le la ll lr]; [done|].
  etransitivity; [exact (IHl (InLeft c m e a r :: p))|]. by norm_app.
Qed.

Lemma interval_last_back t p : pos_back (Some (interval_last t p)) = rev (elements t) ++
  match t with Leaf => [] | _ => rev (before p) end.
Proof.
  revert p. induction t as [|c m e a l _ r IHr]; intros p; [done|].
  destruct r as [|rc rm re ra rl rr].
  { simpl. rewrite rev_app_distr. simpl. rewrite !rev_app_distr. by norm_app. }
  etransitivity; [exact (IHr (InRight c m e a l :: p))|]. simpl. rewrite !rev_app_distr. simpl. rewrite !rev_app_distr.
  simpl. by norm_app.
Qed.

Lemma interval_next_rest c m e a l r p :
  pos_rest (interval_next (Node c m e a l r) p) = elements r ++ after p.
Proof.
  destruct r as [|rc rm re ra rl rr]; [apply climb_right_rest|].
  exact (interval_first_rest (Node rc rm re ra rl rr) (InRight c m e a l :: p)).
Qed.

Lemma interval_prev_back c m e a l r p :
  pos_back (interval_prev (Node c m e a l r) p) = rev (before p ++ elements l).
Proof.
  destruct l as [|lc lm le la ll lr]; [simpl; rewrite app_nil_r; apply climb_left_back|].
  rewrite rev_app_distr. exact (interval_last_back (Node lc lm le la ll lr) (InLeft c m e a r :: p)).
Qed.

Lemma length_elements t : length (elements t) = size t.
Proof. induction t as [|c m e a l IHl r IHr]; simpl; [done|]. rewrite length_app. simpl. lia. Qed.

(** A loop over positions makes the calls on what is left of the walk. *)
Lemma iterate_loop_calls {S} next rest fuel (func : interval_callback (A := A) S) pos rc data :
  (forall t p, match t with Leaf => True | Node _ _ e a _ _ =>
     rest (Some (t, p)) = (e, a) :: rest (next t p) end) ->
  rest None = [] -> (forall p, rest (Some (Leaf, p)) = []) ->
  (length (rest pos) <= fuel)%nat ->
  iterate_loop next fuel func pos rc data = run_calls func (rest pos) rc data.
Proof.
  intros Hnext Hnone Hleaf. revert pos rc data.
  induction fuel as [|fuel IH]; intros [[[|c m e a l r] p]|] rc data Hk; simpl;
    rewrite ?Hnone, ?Hleaf in *; try done;
    pose proof (Hnext (Node c m e a l r) p) as Hn; simpl in Hn; rewrite Hn in *; simpl in *; [lia|].
  destruct (func e a data) as [[] data']; [|done]. apply IH. lia.
Qed.

Lemma interval_iterate_calls {S} t (func : interval_callback (A := A) S) data :
  interval_iterate t func data = run_calls func (elements t) INTERVAL_ITER_CONT data.
Proof.
  unfold interval_iterate. rewrite (iterate_loop_calls _ pos_rest); try done.
  - rewrite interval_first_rest. destruct t; by rewrite app_nil_r.
  - intros [|c m e a l r] p; [done|]. by rewrite interval_next_rest.
  - rewrite interval_first_rest, <-length_elements. destruct t; simpl; rewrite ?app_nil_r; done.
Qed.

Lemma interval_iterate_reverse_calls {S} t (func : interval_callback (A := A) S) data :
  interval_iterate_reverse t func data = run_calls func (rev (elements t)) INTERVAL_ITER_CONT data.
Proof.
  unfold interval_iterate_reverse. rewrite (iterate_loop_calls _ pos_back); try done.
  - rewrite interval_last_back. destruct t; by rewrite app_nil_r.
  - intros [|c m e a l r] p; [done|]. by rewrite interval_prev_back.
  - rewrite interval_last_back, <-length_elements.
    destruct t; rewrite app_nil_r, length_rev; done.
Qed.

(** [interval_iterate] calls back on every node in increasing order of extents,
    [interval_iterate_reverse] in decreasing order, each until a call asks to stop. *)
Theorem interval_iterate_in_order {S} t (func : @interval_callback A S) data :
  interval_iterate t func data = run_calls func (elements t) INTERVAL_ITER_CONT data
  /\ interval_iterate_reverse t func data = run_calls func (rev (elements t)) INTERVAL_ITER_CONT data.
Proof. split; [apply interval_iterate_calls|apply interval_iterate_reverse_calls]. Qed.

(** ** Height *)

Fixpoint height t : nat :=
  match t with Leaf => 0 | Node _ _ _ _ l r => S (max (height l) (height r)) end.

Lemma rb_size t n : rb t n -> (2 ^ n <= S (size t))%nat.
Proof.
  revert n. induction t as [|[] m e a l IHl r IHr]; intros n; simpl.
  - intros ->. done.
  - intros (Hl & Hr & _). specialize (IHl _ Hl). lia.
  - destruct n as [|n]; [done|]. intros [Hl Hr]. specialize (IHl _ Hl). specialize (IHr _ Hr).
    simpl. lia.
Qed.

Lemma rb_height t n : rb t n -> (height t <= 2 * n + if node_is_red t then 1 else 0)%nat.
Proof.
  revert n. induction t as [|[] m e a l IHl r IHr]; intros n; simpl; [lia| |].
  - intros (Hl & Hr & Hlr & Hrr). specialize (IHl _ Hl). specialize (IHr _ Hr).
    rewrite Hlr in IHl. rewrite Hrr in IHr. lia.
  - destruct n as [|n]; [done|]. intros [Hl Hr]. specialize (IHl _ Hl). specialize (IHr _ Hr).
    destruct (node_is_red l), (node_is_red r); lia.
Qed.

(** a well-formed tree with [k] nodes is at most [2 * log2 (k + 1)] deep, which
    bounds every walk from the root. *)
Theorem wf_height t : wf t -> (height t <= 2 * Nat.log2 (S (size t)))%nat.
Proof.
  intros [_ _ _ Hb [n Hr]]. pose proof (rb_height _ _ Hr) as Hh. rewrite Hb in Hh.
  pose proof (rb_size _ _ Hr) as Hs. apply Nat.log2_le_mono in Hs.
  rewrite Nat.log2_pow2 in Hs by lia. lia.
Qed.
End Walk.

(** ** Runs *)

Module Run.

(** Inserts extents one by one; the data is the order of arrival. *)
Fixpoint insert_all (xs : list (Z * Z)) (n : nat) (root : tree nat) : run (tree nat) :=
  match xs with
  | [] => Ret root
  | (s, e) :: xs' =>
      match interval_set s e with
      | inl _ => insert_all xs' (S n) root
      | inr (ext, mh) => res ← interval_insert ext mh n root; insert_all xs' (S n) res.2
      end
  end.

Definition root0 : tree nat :=
  match insert_all [(0, 9); (20, 29); (10, 45); (60, 69); (40, 44); (9, 3); (30, 34); (80, 80)] 0 Leaf with
  | Ret t => t
  | LBUG => Leaf
  end.

Lemma root0_elements : map fst (elements root0)
  = [Extent 0 9; Extent 10 45; Extent 20 29; Extent 30 34; Extent 40 44; Extent 60 69; Extent 80 80].
Proof. reflexivity. Qed.

(** Decides well-formedness of a concrete tree. *)
Ltac check_wf :=
  constructor;
  [ vm_compute; repeat split; repeat constructor; (by left) || (right; by split)
  | vm_compute; repeat split; reflexivity
  | vm_compute; repeat constructor; intros [=]
  | reflexivity
  | ].

Lemma wf_root0 : wf root0.
Proof. check_wf. exists 2%nat. vm_compute. by repeat split. Qed.

Lemma interval_search_exact_witness :
  interval_search root0 (Extent 25 42) (fun e a seen => (INTERVAL_ITER_CONT, a :: seen)) []
  = Some (INTERVAL_ITER_CONT, [6; 1; 4; 2]%nat).
Proof.
  rewrite interval_search_exact; [vm_compute; reflexivity|apply (wf_bst _ wf_root0)|apply (wf_max _ wf_root0)].
Defined.

Lemma interval_expand_maximal_witness :
  exists ext', interval_expand root0 (Extent 50 55) (Some (Extent 50 100)) = Ret ext' /\ ext_start ext' = 50
    /\ (ext_end ext' = U64_MAX \/ exists x, x ∈ elements root0 /\ ext_start x.1 = ext_end ext' + 1).
Proof.
  destruct (interval_expand_maximal root0 (Extent 50 55) (Some (Extent 50 100)) (wf_bst _ wf_root0) (wf_max _ wf_root0)
    (wf_exts _ wf_root0)) as [[_ K]|(_ & ext' & H1 & _ & _ & _ & _ & H2 & _ & H3)].
  - split; simpl; lia.
  - vm_compute. intros [=].
  - apply Forall_forall. set (xs := elements root0). vm_compute in xs. unfold xs. clear xs.
    repeat (constructor; [vm_compute; intros [=]|]). constructor.
  - vm_compute in K. discriminate K.
  - exists ext'. split; [exact H1|]. split; [apply H2; right; simpl; lia|]. apply H3. simpl. lia.
Defined.

(** The extent grows upwards to the next node; a tree that is not empty keeps the
    start. *)
Lemma expand_gap : interval_expand root0 (Extent 50 55) None = Ret (Extent 50 59).
Proof. vm_compute. reflexivity. Qed.

Lemma interval_insert_spec_witness :
  exists root' xs ys, interval_insert (Extent 15 90) 90 9%nat root0 = Ret (None, root') /\ wf root'
    /\ elements root0 = xs ++ ys /\ elements root' = xs ++ (Extent 15 90, 9%nat) :: ys.
Proof.
  apply (interval_insert_spec 15 90 (Extent 15 90) 90 9%nat root0); [apply wf_root0|lia|done|].
  intros a' Hin. apply (list_elem_of_fmap_2 fst) in Hin. revert Hin.
  change (fst <$> elements root0) with (map fst (elements root0)). rewrite root0_elements.
  rewrite !elem_of_cons, elem_of_nil. intros H. by repeat destruct H as [H|H].
Defined.

Lemma interval_erase_spec_witness :
  match find_pos (Extent 10 45) root0 [] with
  | Some (t, p) => exists root' xs ys, interval_erase t p = Ret root' /\ wf root'
      /\ elements (plug t p) = xs ++ (Extent 10 45, 2%nat) :: ys /\ elements root' = xs ++ ys
  | None => False
  end.
Proof.
  set (pos := find_pos _ _ _). vm_compute in pos. unfold pos. clear pos.
  apply interval_erase_spec. exact wf_root0.
Defined.

Lemma wf_height_witness : (height root0 <= 2 * Nat.log2 (S (size root0)))%nat.
Proof. apply wf_height, wf_root0. Defined.
End Run.
