(* ===== verification/LdlmLock.v ===== *)
(** Lock modes, flags and the lock records of the distributed lock manager
    (lustre/include/lustre_dlm.h, lustre_dlm_flags.h, uapi lustre_idl.h), the work
    lists of blocking and completion callbacks (lustre/ldlm/ldlm_lock.c) and the lists
    of a resource (lustre/ldlm/ldlm_resource.c).

    The locks of a resource live in one store; every list and every interval tree
    node refers to them by number, as the code refers to them by pointer. *)

From stdpp Require Import gmap.
From S2P Require Import Prelude IntervalTree.

(** ** Modes *)

Definition LCK_MINMODE : Z := 0.
Definition LCK_EX : Z := 1.
Definition LCK_PW : Z := 2.
Definition LCK_PR : Z := 4.
Definition LCK_CW : Z := 8.
Definition LCK_CR : Z := 16.
Definition LCK_NL : Z := 32.
Definition LCK_GROUP : Z := 64.
Definition LCK_COS : Z := 128.
Definition LCK_MAXMODE : Z := 129.
Definition LCK_MODE_NUM : Z := 8.

Definition LCK_COMPAT_EX : Z := LCK_NL.
Definition LCK_COMPAT_PW : Z := Z.lor LCK_COMPAT_EX LCK_CR.
Definition LCK_COMPAT_PR : Z := Z.lor LCK_COMPAT_PW LCK_PR.
Definition LCK_COMPAT_CW : Z := Z.lor LCK_COMPAT_PW LCK_CW.
Definition LCK_COMPAT_CR : Z := Z.lor (Z.lor LCK_COMPAT_CW LCK_PR) LCK_PW.
Definition LCK_COMPAT_NL : Z := Z.lor (Z.lor LCK_COMPAT_CR LCK_EX) LCK_GROUP.
Definition LCK_COMPAT_GROUP : Z := Z.lor LCK_GROUP LCK_NL.
Definition LCK_COMPAT_COS : Z := LCK_COS.

(** The slots of the array that are not initialised are zero. *)
Definition lck_compat_array (mode : Z) : Z :=
  if mode =? LCK_EX then LCK_COMPAT_EX
  else if mode =? LCK_PW then LCK_COMPAT_PW
  else if mode =? LCK_PR then LCK_COMPAT_PR
  else if mode =? LCK_CW then LCK_COMPAT_CW
  else if mode =? LCK_CR then LCK_COMPAT_CR
  else if mode =? LCK_NL then LCK_COMPAT_NL
  else if mode =? LCK_GROUP then LCK_COMPAT_GROUP
  else if mode =? LCK_COS then LCK_COMPAT_COS
  else 0.

Definition lockmode_verify (mode : Z) : bool := (LCK_MINMODE <? mode) && (mode <? LCK_MAXMODE).

Definition lockmode_compat (exist_mode new_mode : Z) : bool :=
  negb (Z.land (lck_compat_array exist_mode) new_mode =? 0).

(** ** Flags *)

Definition LDLM_FL_LOCK_CHANGED : Z := Z.shiftl 1 0.
Definition LDLM_FL_BLOCK_GRANTED : Z := Z.shiftl 1 1.
Definition LDLM_FL_SPECULATIVE : Z := Z.shiftl 1 4.
Definition LDLM_FL_AST_SENT : Z := Z.shiftl 1 5.
Definition LDLM_FL_DISCARD_DATA : Z := Z.shiftl 1 16.
Definition LDLM_FL_NO_TIMEOUT : Z := Z.shiftl 1 17.
Definition LDLM_FL_BLOCK_NOWAIT : Z := Z.shiftl 1 18.
Definition LDLM_FL_NO_EXPANSION : Z := Z.shiftl 1 29.
Definition LDLM_FL_DENY_ON_CONTENTION : Z := Z.shiftl 1 30.
Definition LDLM_FL_AST_DISCARD_DATA : Z := Z.shiftl 1 31.
Definition LDLM_FL_KMS_IGNORE : Z := Z.shiftl 1 42.
Definition LDLM_FL_CP_REQD : Z := Z.shiftl 1 43.
Definition LDLM_FL_DESTROYED : Z := Z.shiftl 1 50.

Definition LDLM_TEST_FLAG (flags b : Z) : bool := negb (Z.land flags b =? 0).
Definition LDLM_SET_FLAG (flags b : Z) : Z := Z.lor flags b.
Definition LDLM_CLEAR_FLAG (flags b : Z) : Z := Z.ldiff flags b.

(** ** Extents *)

Record ldlm_extent := LdlmExtent { start : Z; end_ : Z; gid : Z }.

Definition ldlm_extent_equal (ex1 ex2 : ldlm_extent) : bool :=
  (start ex1 =? start ex2) && (end_ ex1 =? end_ ex2).
Definition ldlm_extent_overlap (ex1 ex2 : ldlm_extent) : bool :=
  (start ex1 <=? end_ ex2) && (start ex2 <=? end_ ex1).
Definition ldlm_extent_contain (ex1 ex2 : ldlm_extent) : bool :=
  (start ex1 <=? start ex2) && (end_ ex2 <=? end_ ex1).

(** ** Locks *)

(** [l_tree_node]: no node, the lock's own node that is in no tree, or the node of
    the tree of its mode that has the given extent. *)
Inductive ldlm_interval :=
  | NoNode
  | OwnNode
  | InTree (ext : interval_node_extent).

(** The callbacks are present or not; [l_bl_ast] and [l_cp_ast] tell whether the lock
    is linked on a work list of that kind; [l_exp] is the export, [None] for a lock
    the server takes for itself. *)
Record ldlm_lock := LdlmLock {
  l_req_mode : Z;
  l_granted_mode : Z;
  l_req_extent : ldlm_extent;
  l_extent : ldlm_extent;
  l_export : option Z;
  l_flags : Z;
  l_blocking_ast : bool;
  l_completion_ast : bool;
  l_blocking_lock : option Z;
  l_bl_ast : bool;
  l_cp_ast : bool;
  l_tree_node : ldlm_interval;
  l_bl_ast_run : Z
}.

Definition set_granted_mode (l : ldlm_lock) (m : Z) : ldlm_lock :=
  LdlmLock (l_req_mode l) m (l_req_extent l) (l_extent l) (l_export l) (l_flags l)
    (l_blocking_ast l) (l_completion_ast l) (l_blocking_lock l) (l_bl_ast l) (l_cp_ast l)
    (l_tree_node l) (l_bl_ast_run l).
Definition set_extent (l : ldlm_lock) (e : ldlm_extent) : ldlm_lock :=
  LdlmLock (l_req_mode l) (l_granted_mode l) (l_req_extent l) e (l_export l) (l_flags l)
    (l_blocking_ast l) (l_completion_ast l) (l_blocking_lock l) (l_bl_ast l) (l_cp_ast l)
    (l_tree_node l) (l_bl_ast_run l).
Definition set_flags (l : ldlm_lock) (f : Z) : ldlm_lock :=
  LdlmLock (l_req_mode l) (l_granted_mode l) (l_req_extent l) (l_extent l) (l_export l) f
    (l_blocking_ast l) (l_completion_ast l) (l_blocking_lock l) (l_bl_ast l) (l_cp_ast l)
    (l_tree_node l) (l_bl_ast_run l).
Definition set_bl (l : ldlm_lock) (b : option Z) (on : bool) : ldlm_lock :=
  LdlmLock (l_req_mode l) (l_granted_mode l) (l_req_extent l) (l_extent l) (l_export l)
    (l_flags l) (l_blocking_ast l) (l_completion_ast l) b on (l_cp_ast l) (l_tree_node l) (l_bl_ast_run l).
Definition set_cp (l : ldlm_lock) (on : bool) : ldlm_lock :=
  LdlmLock (l_req_mode l) (l_granted_mode l) (l_req_extent l) (l_extent l) (l_export l)
    (l_flags l) (l_blocking_ast l) (l_completion_ast l) (l_blocking_lock l) (l_bl_ast l) on
    (l_tree_node l) (l_bl_ast_run l).
Definition set_tree_node (l : ldlm_lock) (n : ldlm_interval) : ldlm_lock :=
  LdlmLock (l_req_mode l) (l_granted_mode l) (l_req_extent l) (l_extent l) (l_export l)
    (l_flags l) (l_blocking_ast l) (l_completion_ast l) (l_blocking_lock l) (l_bl_ast l)
    (l_cp_ast l) n (l_bl_ast_run l).
Definition set_bl_ast_run (l : ldlm_lock) (n : Z) : ldlm_lock :=
  LdlmLock (l_req_mode l) (l_granted_mode l) (l_req_extent l) (l_extent l) (l_export l)
    (l_flags l) (l_blocking_ast l) (l_completion_ast l) (l_blocking_lock l) (l_bl_ast l)
    (l_cp_ast l) (l_tree_node l) n.

Definition ldlm_is_ast_sent (l : ldlm_lock) : bool := LDLM_TEST_FLAG (l_flags l) LDLM_FL_AST_SENT.
Definition ldlm_is_destroyed (l : ldlm_lock) : bool := LDLM_TEST_FLAG (l_flags l) LDLM_FL_DESTROYED.
Definition ldlm_is_cp_reqd (l : ldlm_lock) : bool := LDLM_TEST_FLAG (l_flags l) LDLM_FL_CP_REQD.
Definition ldlm_is_kms_ignore (l : ldlm_lock) : bool := LDLM_TEST_FLAG (l_flags l) LDLM_FL_KMS_IGNORE.
Definition ldlm_is_ast_discard_data (l : ldlm_lock) : bool :=
  LDLM_TEST_FLAG (l_flags l) LDLM_FL_AST_DISCARD_DATA.

(** ** Resources *)

(** A node of an interval tree carries its policy group [li_group]. *)
Record ldlm_interval_tree := LdlmIntervalTree {
  lit_size : Z;
  lit_mode : Z;
  lit_root : tree (list Z)
}.

Record ldlm_resource := LdlmResource {
  lr_locks : gmap Z ldlm_lock;
  lr_itree : list ldlm_interval_tree;
  lr_granted : list Z;
  lr_waiting : list Z;
  lr_contention_time : Z
}.

(** The settings of the namespace that matter here. *)
Record ldlm_namespace := LdlmNamespace {
  ns_contended_locks : Z;
  ns_contention_time : Z;
  ns_max_nolock_size : Z
}.

Definition set_locks (res : ldlm_resource) (m : gmap Z ldlm_lock) : ldlm_resource :=
  LdlmResource m (lr_itree res) (lr_granted res) (lr_waiting res) (lr_contention_time res).
Definition set_itree (res : ldlm_resource) (ts : list ldlm_interval_tree) : ldlm_resource :=
  LdlmResource (lr_locks res) ts (lr_granted res) (lr_waiting res) (lr_contention_time res).
Definition set_granted (res : ldlm_resource) (q : list Z) : ldlm_resource :=
  LdlmResource (lr_locks res) (lr_itree res) q (lr_waiting res) (lr_contention_time res).
Definition set_waiting (res : ldlm_resource) (q : list Z) : ldlm_resource :=
  LdlmResource (lr_locks res) (lr_itree res) (lr_granted res) q (lr_contention_time res).
Definition set_contention_time (res : ldlm_resource) (t : Z) : ldlm_resource :=
  LdlmResource (lr_locks res) (lr_itree res) (lr_granted res) (lr_waiting res) t.

(** Following a pointer to a lock. *)
Definition get_lock (res : ldlm_resource) (i : Z) : run ldlm_lock :=
  match lr_locks res !! i with Some l => Ret l | None => LBUG end.
Definition put_lock (res : ldlm_resource) (i : Z) (l : ldlm_lock) : ldlm_resource :=
  set_locks res (<[i := l]> (lr_locks res)).

(** An empty resource: one tree per mode. *)
Definition ldlm_resource_new : ldlm_resource :=
  LdlmResource ∅ (map (fun idx => LdlmIntervalTree 0 (Z.shiftl 1 idx) Leaf) (seqZ 0 LCK_MODE_NUM))
    [] [] 0.

(** [list_empty(&lock->l_res_link)] fails. *)
Definition on_resource (res : ldlm_resource) (i : Z) : bool :=
  bool_decide (i ∈ lr_granted res) || bool_decide (i ∈ lr_waiting res).

(** [list_del_init(&lock->l_res_link)]. *)
Definition list_del_res_link (res : ldlm_resource) (i : Z) : ldlm_resource :=
  set_waiting (set_granted res (base.filter (fun j => j <> i) (lr_granted res)))
    (base.filter (fun j => j <> i) (lr_waiting res)).

Inductive queue := Granted | Waiting.

Definition ldlm_resource_add_lock (res : ldlm_resource) (head : queue) (i : Z) : run ldlm_resource :=
  lock ← get_lock res i;
  if ldlm_is_destroyed lock then Ret res
  else
    lassert negb (on_resource res i);
    match head with
    | Granted => Ret (set_granted res (lr_granted res ++ [i]))
    | Waiting => Ret (set_waiting res (lr_waiting res ++ [i]))
    end.

(** [list_add(new, original)] on the list that has [original]. *)
Fixpoint list_add_after (original new : Z) (q : list Z) : list Z :=
  match q with
  | [] => []
  | j :: q' => if j =? original then j :: new :: q' else j :: list_add_after original new q'
  end.

Definition ldlm_resource_insert_lock_after (res : ldlm_resource) (original new : Z)
    : run ldlm_resource :=
  lock ← get_lock res new;
  if ldlm_is_destroyed lock then Ret res
  else
    lassert negb (on_resource res new);
    Ret (set_waiting (set_granted res (list_add_after original new (lr_granted res)))
           (list_add_after original new (lr_waiting res))).

(** ** Work items *)

Definition ldlm_add_bl_work_item (res : ldlm_resource) (i new : Z) (work_list : list Z)
    : run (ldlm_resource * list Z) :=
  lock ← get_lock res i;
  if ldlm_is_ast_sent lock then Ret (res, work_list)
  else
    nl ← get_lock res new;
    let flags := LDLM_SET_FLAG (l_flags lock) LDLM_FL_AST_SENT in
    let flags := if ldlm_is_ast_discard_data nl then LDLM_SET_FLAG flags LDLM_FL_DISCARD_DATA
                 else flags in
    lassert negb (l_bl_ast lock);
    lassert bool_decide (l_blocking_lock lock = None);
    Ret (put_lock res i (set_bl (set_flags lock flags) (Some new) true), i :: work_list).

Definition ldlm_add_cp_work_item (res : ldlm_resource) (i : Z) (work_list : list Z)
    : run (ldlm_resource * list Z) :=
  lock ← get_lock res i;
  if ldlm_is_cp_reqd lock then Ret (res, work_list)
  else
    let lock := set_flags lock (LDLM_SET_FLAG (l_flags lock) LDLM_FL_CP_REQD) in
    lassert negb (l_cp_ast lock);
    Ret (put_lock res i (set_cp lock true), i :: work_list).

Definition ldlm_add_ast_work_item (res : ldlm_resource) (i : Z) (new : option Z)
    (work_list : list Z) : run (ldlm_resource * list Z) :=
  match new with
  | Some new => ldlm_add_bl_work_item res i new work_list
  | None => ldlm_add_cp_work_item res i work_list
  end.

(** [ldlm_lock_destroy_internal]: the references, the export's hash and the LRU are
    not part of the model. *)
Definition ldlm_lock_destroy_nolock (res : ldlm_resource) (i : Z) : run ldlm_resource :=
  lock ← get_lock res i;
  lassert negb (on_resource res i);
  if ldlm_is_destroyed lock then Ret res
  else Ret (put_lock res i (set_flags lock (LDLM_SET_FLAG (l_flags lock) LDLM_FL_DESTROYED))).

(** ** Running the work items *)

(** The first part of [ldlm_work_bl_ast_lock], under the resource lock. *)
Definition bl_ast_start (res : ldlm_resource) (i : Z) : run ldlm_resource :=
  lock ← get_lock res i;
  let lock := set_bl lock (l_blocking_lock lock) false in
  lassert ldlm_is_ast_sent lock;
  lassert l_bl_ast_run lock =? 0;
  lassert negb (bool_decide (l_blocking_lock lock = None));
  Ret (put_lock res i (set_bl_ast_run lock (l_bl_ast_run lock + 1))).

(** Its end, behind the callback. *)
Definition bl_ast_finish (res : ldlm_resource) (i : Z) : run ldlm_resource :=
  lock ← get_lock res i;
  lassert negb (bool_decide (l_blocking_lock lock = None));
  Ret (put_lock res i (set_bl lock None (l_bl_ast lock))).

(** [ldlm_work_cp_ast_lock]: whether the completion callback is called, and the
    resource. *)
Definition ldlm_work_cp_ast_lock (res : ldlm_resource) (i : Z) : run (bool * ldlm_resource) :=
  lock ← get_lock res i;
  let lock := set_cp lock false in
  lassert ldlm_is_cp_reqd lock;
  Ret (l_completion_ast lock,
       put_lock res i (set_flags lock (LDLM_CLEAR_FLAG (l_flags lock) LDLM_FL_CP_REQD))).

Fixpoint ldlm_discard_bl_list (bl_list : list Z) (res : ldlm_resource) : run ldlm_resource :=
  match bl_list with
  | [] => Ret res
  | i :: bl_list' =>
      lock ← get_lock res i;
      let lock := set_bl lock (l_blocking_lock lock) false in
      lassert ldlm_is_ast_sent lock;
      let lock := set_flags lock (LDLM_CLEAR_FLAG (l_flags lock) LDLM_FL_AST_SENT) in
      lassert l_bl_ast_run lock =? 0;
      lassert negb (bool_decide (l_blocking_lock lock = None));
      ldlm_discard_bl_list bl_list' (put_lock res i (set_bl lock None (l_bl_ast lock)))
  end.
