(* ===== verification/LdlmExtent.v ===== *)
(** Extent locks (lustre/ldlm/ldlm_extent.c): growing a request to the largest extent
    it can have, the compatibility checks against granted and waiting locks, granting
    and unlinking, and the known minimum size of an object.

    Failure injection ([OBD_FAIL_CHECK]), debug output and reference counts are left
    out; so are the lock's readers and writers. *)

From stdpp Require Import gmap.
From S2P Require Import Prelude IntervalTree LdlmLock.

(** ** Growing a request *)

Section Policy.
(** The page size of the server. *)
Context (PAGE_SIZE : Z).

Definition LDLM_MAX_GROWN_EXTENT : Z := 32 * 1024 * 1024 - 1.

(** [while ((req_align & mask) == 0) mask <<= 1]; 64 turns shift every mask out. *)
Fixpoint mask_loop (fuel : nat) (req_align mask : Z) : run Z :=
  match fuel with
  | O => LBUG
  | S fuel =>
      if Z.land req_align mask =? 0 then mask_loop fuel req_align (u64 (Z.shiftl mask 1))
      else Ret mask
  end.

Definition fixup_mask (req_start req_end : Z) : run Z :=
  let mask := PAGE_SIZE in
  let req_align := Z.lor (u64 (req_end + 1)) req_start in
  mask ← (if negb (req_align =? 0) && (Z.land req_align (mask - 1) =? 0)
          then mask_loop 64 req_align mask else Ret mask);
  Ret (mask - 1).

(** Under contention a write lock grows by a limited amount. *)
Definition fixup_limit (req : ldlm_lock) (new_ex : ldlm_extent) (conflicting : Z) : ldlm_extent :=
  let req_mode := l_req_mode req in
  let req_start := start (l_req_extent req) in
  let req_end := end_ (l_req_extent req) in
  if (32 <? conflicting) && ((req_mode =? LCK_PW) || (req_mode =? LCK_CW)) then
    if req_end <? u64 (req_start + LDLM_MAX_GROWN_EXTENT) then
      LdlmExtent (start new_ex)
        (Z.min (u64 (req_start + LDLM_MAX_GROWN_EXTENT)) (end_ new_ex)) (gid new_ex)
    else new_ex
  else new_ex.

Definition ldlm_extent_internal_policy_fixup (req : ldlm_lock) (new_ex : ldlm_extent)
    (conflicting : Z) : run ldlm_extent :=
  let req_start := start (l_req_extent req) in
  let req_end := end_ (l_req_extent req) in
  let new_ex := fixup_limit req new_ex conflicting in
  if (start new_ex =? 0) && (end_ new_ex =? OBD_OBJECT_EOF) then Ret new_ex
  else
    mask ← fixup_mask req_start req_end;
    let new_ex :=
      LdlmExtent (u64 (Z.lor (u64 (start new_ex - 1)) mask + 1))
        (u64 (Z.land (u64 (end_ new_ex + 1)) (u64 (Z.lnot mask)) - 1)) (gid new_ex) in
    lassert start new_ex <=? req_start;
    lassert req_end <=? end_ new_ex;
    Ret new_ex.

(** The loop over the trees of the granted locks: the limiter and the number of
    conflicting locks. *)
Fixpoint policy_granted_loop (req_mode req_start req_end : Z) (trees : list ldlm_interval_tree)
    (limiter : interval_node_extent) (conflicting : Z) : run (interval_node_extent * Z) :=
  match trees with
  | [] => Ret (limiter, conflicting)
  | tree :: trees' =>
      if lockmode_compat (lit_mode tree) req_mode
      then policy_granted_loop req_mode req_start req_end trees' limiter conflicting
      else
        let conflicting := conflicting + lit_size tree in
        let limiter := if 4 <? conflicting then Extent req_start (ext_end limiter) else limiter in
        ext ← interval_expand (lit_root tree) (Extent req_start req_end) (Some limiter);
        let limiter := Extent (Z.max (ext_start limiter) (ext_start ext))
                              (Z.min (ext_end limiter) (ext_end ext)) in
        if (ext_start limiter =? req_start) && (ext_end limiter =? req_end)
        then Ret (limiter, conflicting)
        else policy_granted_loop req_mode req_start req_end trees' limiter conflicting
  end.

Definition ldlm_extent_internal_policy_granted (res : ldlm_resource) (req : ldlm_lock)
    (new_ex : ldlm_extent) : run ldlm_extent :=
  let req_start := start (l_req_extent req) in
  let req_end := end_ (l_req_extent req) in
  lassert lockmode_verify (l_req_mode req);
  lc ← policy_granted_loop (l_req_mode req) req_start req_end (lr_itree res)
         (Extent (start new_ex) (end_ new_ex)) 0;
  let '(limiter, conflicting) := lc in
  let new_ex := LdlmExtent (ext_start limiter) (ext_end limiter) (gid new_ex) in
  lassert start new_ex <=? req_start;
  lassert req_end <=? end_ new_ex;
  ldlm_extent_internal_policy_fixup req new_ex conflicting.

(** The loop over the waiting locks; [inl] is the early return without a fixup. *)
Fixpoint policy_waiting_loop (res : ldlm_resource) (i : Z) (req : ldlm_lock) (queue : list Z)
    (new_ex : ldlm_extent) (conflicting : Z) : run (ldlm_extent + ldlm_extent * Z) :=
  let req_start := start (l_req_extent req) in
  let req_end := end_ (l_req_extent req) in
  match queue with
  | [] => Ret (inr (new_ex, conflicting))
  | j :: queue' =>
      lock ← get_lock res j;
      let ex := l_extent lock in
      if (start new_ex =? req_start) && (end_ new_ex =? req_end) then Ret (inl new_ex)
      else if j =? i then policy_waiting_loop res i req queue' new_ex conflicting
      else if lockmode_compat (l_req_mode lock) (l_req_mode req)
              && negb (bool_decide (l_export lock = l_export req))
      then policy_waiting_loop res i req queue' new_ex conflicting
      else
        let conflicting := conflicting + 1 in
        let new_ex := if 4 <? conflicting then LdlmExtent req_start (end_ new_ex) (gid new_ex)
                      else new_ex in
        if negb (ldlm_extent_overlap ex new_ex)
        then policy_waiting_loop res i req queue' new_ex conflicting
        else if ldlm_extent_overlap (l_req_extent lock) (l_req_extent req)
        then policy_waiting_loop res i req queue' new_ex conflicting
        else
          let new_start :=
            if (start ex <? req_start) && negb (start new_ex =? req_start) then
              if req_start <=? end_ ex then req_start
              else Z.min (u64 (end_ ex + 1)) req_start
            else start new_ex in
          let new_end :=
            if req_end <? end_ ex then
              if start ex <=? req_end then Z.max (u64 (start (l_req_extent lock) - 1)) req_end
              else Z.max (u64 (start ex - 1)) req_end
            else end_ new_ex in
          policy_waiting_loop res i req queue' (LdlmExtent new_start new_end (gid new_ex)) conflicting
  end.

Definition ldlm_extent_internal_policy_waiting (res : ldlm_resource) (i : Z) (req : ldlm_lock)
    (new_ex : ldlm_extent) : run ldlm_extent :=
  lassert lockmode_verify (l_req_mode req);
  r ← policy_waiting_loop res i req (lr_waiting res) new_ex 0;
  match r with
  | inl new_ex => Ret new_ex
  | inr (new_ex, conflicting) => ldlm_extent_internal_policy_fixup req new_ex conflicting
  end.

(** The resource and [*flags]. *)
Definition ldlm_extent_policy (res : ldlm_resource) (i : Z) (flags : Z) : run (ldlm_resource * Z) :=
  lock ← get_lock res i;
  let ex := l_extent lock in
  if bool_decide (l_export lock = None) then Ret (res, flags)
  else if (start ex =? 0) && (end_ ex =? OBD_OBJECT_EOF) then Ret (res, flags)
  else
    new_ex ← (if negb (LDLM_TEST_FLAG (l_flags lock) LDLM_FL_NO_EXPANSION) then
                new_ex ← ldlm_extent_internal_policy_granted res lock (LdlmExtent 0 OBD_OBJECT_EOF 0);
                ldlm_extent_internal_policy_waiting res i lock new_ex
              else ldlm_extent_internal_policy_fixup lock (LdlmExtent (start ex) (end_ ex) 0) 0);
    if negb (ldlm_extent_equal new_ex ex)
    then Ret (put_lock res i (set_extent lock (LdlmExtent (start new_ex) (end_ new_ex) (gid ex))),
              Z.lor flags LDLM_FL_LOCK_CHANGED)
    else Ret (res, flags).
End Policy.

(** ** Compatibility *)

Definition ldlm_check_contention (ns : ldlm_namespace) (now : Z) (res : ldlm_resource)
    (contended_locks : Z) : bool * ldlm_resource :=
  let res := if ns_contended_locks ns <? contended_locks then set_contention_time res now else res in
  (now <? lr_contention_time res + ns_contention_time ns, res).

(** The state of a check: the resource, [*flags], the work list, [*contended_locks]
    and [compat]. *)
Record compat_state := CompatState {
  cs_res : ldlm_resource;
  cs_flags : Z;
  cs_work : option (list Z);
  cs_contended : Z;
  cs_compat : Z
}.

Definition set_res (s : compat_state) (r : ldlm_resource) : compat_state :=
  CompatState r (cs_flags s) (cs_work s) (cs_contended s) (cs_compat s).
Definition set_cflags (s : compat_state) (f : Z) : compat_state :=
  CompatState (cs_res s) f (cs_work s) (cs_contended s) (cs_compat s).
Definition set_work (s : compat_state) (w : option (list Z)) : compat_state :=
  CompatState (cs_res s) (cs_flags s) w (cs_contended s) (cs_compat s).
Definition set_contended (s : compat_state) (n : Z) : compat_state :=
  CompatState (cs_res s) (cs_flags s) (cs_work s) n (cs_compat s).
Definition set_compat (s : compat_state) (c : Z) : compat_state :=
  CompatState (cs_res s) (cs_flags s) (cs_work s) (cs_contended s) c.

(** How a loop of the check ends: by [RETURN(rc)], by [goto destroylock] with
    [compat] set, or by running to its end. *)
Inductive compat_end :=
  | CReturn (rc : Z)
  | CDestroy
  | CFall.

(** Adds a conflicting lock to the work list. *)
Definition add_conflict (s : compat_state) (j i : Z) : run compat_state :=
  match cs_work s with
  | None => LBUG
  | Some wl =>
      rw ← ldlm_add_ast_work_item (cs_res s) j (Some i) wl;
      Ret (set_work (set_res s rw.1) (Some rw.2))
  end.

(** The locks of a policy group: the state and [count]. *)
Fixpoint compat_group (mode i : Z) (group : list Z) (count : Z) (s : compat_state)
    : run (compat_state * Z) :=
  match group with
  | [] => Ret (s, count)
  | j :: group' =>
      lock ← get_lock (cs_res s) j;
      lassert mode =? l_granted_mode lock;
      s ← (if l_blocking_ast lock && negb (l_granted_mode lock =? LCK_GROUP)
           then add_conflict s j i else Ret s);
      compat_group mode i group' (count + 1) s
  end.

(** [ldlm_interval_extent]: the extent of the first lock of the group. *)
Definition ldlm_interval_extent (res : ldlm_resource) (group : list Z) : run ldlm_extent :=
  match group with
  | [] => LBUG
  | j :: _ => lock ← get_lock res j; Ret (l_extent lock)
  end.

Definition compat_node (mode i : Z) (group : list Z) (s : compat_state) : run compat_state :=
  lassert negb (bool_decide (group = []));
  sc ← compat_group mode i group 0 s;
  let '(s, count) := sc in
  extent ← ldlm_interval_extent (cs_res s) group;
  let s := if negb ((mode =? LCK_PR) && (start extent =? 0) && (end_ extent =? OBD_OBJECT_EOF))
           then set_contended s (cs_contended s + count) else s in
  Ret (set_compat s 0).

(** The callback of the walks over a tree; a failed assertion ends the walk. *)
Definition ldlm_extent_compat_cb (mode i : Z) (ext : interval_node_extent) (group : list Z)
    (s : run compat_state) : interval_iter * run compat_state :=
  match (s ← s; compat_node mode i group s) with
  | LBUG => (INTERVAL_ITER_STOP, LBUG)
  | Ret s => (INTERVAL_ITER_CONT, Ret s)
  end.

Definition would_block (flags : Z) : bool :=
  LDLM_TEST_FLAG flags (Z.lor LDLM_FL_BLOCK_NOWAIT LDLM_FL_SPECULATIVE).

(** The trees of the granted locks, one after the other. *)
Fixpoint compat_granted_loop (i : Z) (req : ldlm_lock) (trees : list ldlm_interval_tree)
    (s : compat_state) : run (compat_state * compat_end) :=
  let ex := Extent (start (l_req_extent req)) (end_ (l_req_extent req)) in
  match trees with
  | [] => Ret (s, CFall)
  | tree :: trees' =>
      match lit_root tree with
      | Leaf => compat_granted_loop i req trees' s
      | Node _ _ _ group _ _ =>
          if lockmode_compat (l_req_mode req) (lit_mode tree) && negb (l_req_mode req =? LCK_GROUP)
          then compat_granted_loop i req trees' s
          else
            same_gid ← (if lockmode_compat (l_req_mode req) (lit_mode tree) then
                          extent ← ldlm_interval_extent (cs_res s) group;
                          Ret (gid (l_extent req) =? gid extent)
                        else Ret false);
            if (same_gid : bool) then Ret (s, CReturn 2)
            else if lit_mode tree =? LCK_GROUP then
              if would_block (cs_flags s) then Ret (set_compat s (- EWOULDBLOCK), CDestroy)
              else
                let s := set_cflags s (Z.lor (cs_flags s) LDLM_FL_NO_TIMEOUT) in
                match cs_work s with
                | None => Ret (s, CReturn 0)
                | Some _ =>
                    s ← (interval_iterate (lit_root tree) (ldlm_extent_compat_cb (lit_mode tree) i)
                           (Ret (set_compat s 0))).2;
                    compat_granted_loop i req trees' s
                end
            else
              match cs_work s with
              | None =>
                  if interval_is_overlapped (lit_root tree) ex then Ret (s, CReturn 0)
                  else compat_granted_loop i req trees' s
              | Some _ =>
                  if LDLM_TEST_FLAG (cs_flags s) LDLM_FL_SPECULATIVE then
                    if interval_is_overlapped (lit_root tree) ex
                    then Ret (set_compat s (- EWOULDBLOCK), CDestroy)
                    else compat_granted_loop i req trees' s
                  else
                    match interval_search (lit_root tree) ex
                            (ldlm_extent_compat_cb (lit_mode tree) i) (Ret s) with
                    | None => LBUG
                    | Some r =>
                        s ← r.2;
                        let s := if negb (bool_decide (cs_work s = Some [])) && negb (cs_compat s =? 0)
                                 then set_compat s 0 else s in
                        compat_granted_loop i req trees' s
                    end
              end
      end
  end.

(** Puts a GROUP request in front of the waiting lock [j]. *)
Definition insert_before (res : ldlm_resource) (j i : Z) : run ldlm_resource :=
  res ← ldlm_resource_insert_lock_after res j i;
  ldlm_resource_insert_lock_after (list_del_res_link res j) i j.

(** The waiting locks, one after the other. *)
Fixpoint compat_waiting_loop (i : Z) (req : ldlm_lock) (queue : list Z) (scan : bool)
    (s : compat_state) : run (compat_state * compat_end) :=
  let req_start := start (l_req_extent req) in
  let req_end := end_ (l_req_extent req) in
  let req_mode := l_req_mode req in
  match queue with
  | [] => Ret (s, CFall)
  | j :: queue' =>
      lock ← get_lock (cs_res s) j;
      if j =? i then Ret (s, CFall)
      else if scan then
        if negb (l_req_mode lock =? LCK_GROUP) then
          res ← insert_before (cs_res s) j i;
          Ret (set_compat (set_res s res) 0, CFall)
        else if gid (l_extent req) =? gid (l_extent lock) then
          res ← ldlm_resource_insert_lock_after (cs_res s) j i;
          Ret (set_compat (set_res s res) 0, CFall)
        else compat_waiting_loop i req queue' scan s
      else if lockmode_compat (l_req_mode lock) req_mode
              && (req_mode =? LCK_PR)
              && (start (l_extent lock) <=? start (l_extent req))
              && (end_ (l_extent req) <=? end_ (l_extent lock))
              && negb (ldlm_is_ast_sent lock)
      then Ret (s, CReturn (cs_compat s))
      else if lockmode_compat (l_req_mode lock) req_mode && negb (req_mode =? LCK_GROUP)
      then compat_waiting_loop i req queue' scan s
      else if lockmode_compat (l_req_mode lock) req_mode
              && (gid (l_extent req) =? gid (l_extent lock)) then
        if l_req_mode lock =? l_granted_mode lock then Ret (s, CReturn 2)
        else if would_block (cs_flags s) then Ret (set_compat s (- EWOULDBLOCK), CDestroy)
        else
          res ← ldlm_resource_insert_lock_after (cs_res s) j i;
          Ret (set_res s res, CReturn 0)
      else if (req_mode =? LCK_GROUP) && negb (l_req_mode lock =? l_granted_mode lock) then
        let s := set_compat s 0 in
        if negb (l_req_mode lock =? LCK_GROUP) then
          res ← insert_before (cs_res s) j i;
          Ret (set_res s res, CFall)
        else if gid (l_extent req) =? gid (l_extent lock) then
          res ← ldlm_resource_insert_lock_after (cs_res s) j i;
          Ret (set_res s res, CFall)
        else compat_waiting_loop i req queue' true s
      else if (l_req_mode lock =? LCK_GROUP) && would_block (cs_flags s)
      then Ret (set_compat s (- EWOULDBLOCK), CDestroy)
      else if negb (l_req_mode lock =? LCK_GROUP)
              && ((end_ (l_extent lock) <? req_start) || (req_end <? start (l_extent lock)))
      then compat_waiting_loop i req queue' scan s
      else
        let s := if l_req_mode lock =? LCK_GROUP
                 then set_cflags s (Z.lor (cs_flags s) LDLM_FL_NO_TIMEOUT) else s in
        let false_contention :=
          negb (l_req_mode lock =? LCK_GROUP)
          && ((end_ (l_req_extent lock) <? req_start) || (req_end <? start (l_req_extent lock))) in
        match cs_work s with
        | None => Ret (s, CReturn 0)
        | Some _ =>
            if LDLM_TEST_FLAG (cs_flags s) LDLM_FL_SPECULATIVE
            then Ret (set_compat s (- EWOULDBLOCK), CDestroy)
            else
              let glimpse := (l_req_mode lock =? LCK_PR) && (start (l_extent lock) =? 0)
                             && (end_ (l_extent lock) =? OBD_OBJECT_EOF) in
              let s := set_contended s (cs_contended s + if false_contention || glimpse then 0 else 1) in
              let s := set_compat s 0 in
              s ← (if l_blocking_ast lock && negb (l_req_mode lock =? LCK_GROUP)
                   then add_conflict s j i else Ret s);
              compat_waiting_loop i req queue' scan s
        end
  end.

(** The end of a check, behind its loop. *)
Definition queue_end (ns : ldlm_namespace) (now i : Z) (req : ldlm_lock) (s : compat_state)
    (e : compat_end) : run (Z * option Z * compat_state) :=
  let destroy s :=
    res ← ldlm_lock_destroy_nolock (list_del_res_link (cs_res s) i) i;
    Ret (cs_compat s, Some (cs_compat s), set_res s res) in
  match e with
  | CReturn rc => Ret (rc, None, s)
  | CDestroy => destroy s
  | CFall =>
      let '(contended, res) := ldlm_check_contention ns now (cs_res s) (cs_contended s) in
      let s := set_res s res in
      if contended && (cs_compat s =? 0) && LDLM_TEST_FLAG (cs_flags s) LDLM_FL_DENY_ON_CONTENTION
         && negb (l_req_mode req =? LCK_GROUP)
         && (u64 (end_ (l_req_extent req) - start (l_req_extent req)) <=? ns_max_nolock_size ns)
      then destroy (set_compat s (- EUSERS))
      else Ret (cs_compat s, None, s)
  end.

(** The result, [*err] where it is set, and the state. *)
Definition ldlm_extent_compat_queue (ns : ldlm_namespace) (now : Z) (which : queue) (i : Z)
    (s : compat_state) : run (Z * option Z * compat_state) :=
  req ← get_lock (cs_res s) i;
  lassert lockmode_verify (l_req_mode req);
  let s := set_compat s 1 in
  se ← (match which with
        | Granted => compat_granted_loop i req (lr_itree (cs_res s)) s
        | Waiting => compat_waiting_loop i req (lr_waiting (cs_res s)) false s
        end);
  let '(s, e) := se in
  queue_end ns now i req s e.

(** ** Granted locks *)

(** [for (index = -1; mode != 0; index++, mode >>= 1)]. *)
Fixpoint mode_index_loop (fuel : nat) (index mode : Z) : Z :=
  match fuel with
  | O => index
  | S fuel => if mode =? 0 then index else mode_index_loop fuel (index + 1) (Z.shiftr mode 1)
  end.

Definition is_power_of_2 (n : Z) : bool := negb (n =? 0) && (Z.land n (n - 1) =? 0).

Definition ldlm_mode_to_index (mode : Z) : run Z :=
  lassert negb (mode =? 0);
  lassert is_power_of_2 mode;
  let index := mode_index_loop 32 (-1) mode in
  lassert index <? LCK_MODE_NUM;
  Ret index.

(** The tree of a mode. *)
Definition get_tree (res : ldlm_resource) (idx : Z) : run ldlm_interval_tree :=
  match lr_itree res !! Z.to_nat idx with Some t => Ret t | None => LBUG end.
Definition put_tree (res : ldlm_resource) (idx : Z) (t : ldlm_interval_tree) : ldlm_resource :=
  set_itree res (<[Z.to_nat idx := t]> (lr_itree res)).

(** [ldlm_interval_attach]: the lock joins the group of the node in the tree. *)
Definition ldlm_interval_attach (root : tree (list Z)) (ext : interval_node_extent) (i : Z)
    : run (tree (list Z)) :=
  match find_pos ext root [] with
  | Some (Node c m e group l r, p) => Ret (plug (Node c m e (group ++ [i]) l r) p)
  | _ => LBUG
  end.

(** [ldlm_interval_detach] of a lock whose node is in the tree; an empty node is
    erased and freed. *)
Definition detach_and_erase (root : tree (list Z)) (ext : interval_node_extent) (i : Z)
    : run (tree (list Z)) :=
  match find_pos ext root [] with
  | Some (Node c m e group l r as t, p) =>
      lassert negb (bool_decide (group = []));
      let group' := base.filter (fun j => j <> i) group in
      if bool_decide (group' = []) then interval_erase t p
      else Ret (plug (Node c m e group' l r) p)
  | _ => LBUG
  end.

Definition ldlm_extent_add_lock (res : ldlm_resource) (i : Z) : run ldlm_resource :=
  lock ← get_lock res i;
  lassert l_granted_mode lock =? l_req_mode lock;
  lassert (match l_tree_node lock with OwnNode => true | _ => false end);
  idx ← ldlm_mode_to_index (l_granted_mode lock);
  lassert l_granted_mode lock =? Z.shiftl 1 idx;
  tree ← get_tree res idx;
  lassert l_granted_mode lock =? lit_mode tree;
  match interval_set (start (l_extent lock)) (end_ (l_extent lock)) with
  | inl _ => LBUG
  | inr (ext, mh) =>
      found ← interval_insert ext mh [i] (lit_root tree);
      root ← (match found with
              | (Some _, root) => ldlm_interval_attach root ext i
              | (None, root) => Ret root
              end);
      let res := put_tree res idx (LdlmIntervalTree (lit_size tree + 1) (lit_mode tree) root) in
      let res := put_lock res i (set_tree_node lock (InTree ext)) in
      ldlm_resource_add_lock res Granted i
  end.

Definition ldlm_extent_unlink_lock (res : ldlm_resource) (i : Z) : run ldlm_resource :=
  lock ← get_lock res i;
  match l_tree_node lock with
  | InTree ext =>
      idx ← ldlm_mode_to_index (l_granted_mode lock);
      lassert l_granted_mode lock =? Z.shiftl 1 idx;
      tree ← get_tree res idx;
      root ← detach_and_erase (lit_root tree) ext i;
      let res := put_tree res idx (LdlmIntervalTree (lit_size tree - 1) (lit_mode tree) root) in
      Ret (put_lock res i (set_tree_node lock NoNode))
  | _ => Ret res
  end.

Definition ldlm_resource_unlink_lock (res : ldlm_resource) (i : Z) : run ldlm_resource :=
  res ← ldlm_extent_unlink_lock res i;
  Ret (list_del_res_link res i).

(** The completion callback goes on [work_list] when there is one. *)
Definition ldlm_grant_lock (res : ldlm_resource) (i : Z) (work_list : option (list Z))
    : run (ldlm_resource * option (list Z)) :=
  lock ← get_lock res i;
  let lock := set_granted_mode lock (l_req_mode lock) in
  let res := put_lock res i lock in
  rw ← (match work_list with
        | Some wl =>
            if l_completion_ast lock then
              rw ← ldlm_add_ast_work_item res i None wl; Ret (rw.1, Some rw.2)
            else Ret (res, work_list)
        | None => Ret (res, work_list)
        end);
  res ← ldlm_extent_add_lock rw.1 i;
  Ret (res, rw.2).

Inductive ldlm_process_intention := LDLM_PROCESS_RESCAN | LDLM_PROCESS_ENQUEUE | LDLM_PROCESS_RECOVERY.

Definition LDLM_ITER_CONTINUE : Z := 1.
Definition LDLM_ITER_STOP : Z := 2.
Definition ELDLM_OK : Z := 0.

Section Process.
Context (PAGE_SIZE : Z) (ns : ldlm_namespace) (now : Z).

(** A rescan of the waiting list: a lock that conflicts stays where it is. *)
Definition process_rescan (res : ldlm_resource) (i flags : Z) (work_list : list Z)
    : run (Z * Z * Z * ldlm_resource * list Z) :=
  lassert flags =? 0;
  r ← ldlm_extent_compat_queue ns now Granted i (CompatState res flags None 0 1);
  let '(rc, err, s) := r in
  r ← (if rc =? 1 then
         r ← ldlm_extent_compat_queue ns now Waiting i s;
         let '(rc, err', s) := r in
         Ret (rc, match err' with Some _ => err' | None => err end, s)
       else Ret (rc, err, s));
  let '(rc, err, s) := r in
  let err := default ELDLM_OK err in
  if rc =? 0 then Ret (LDLM_ITER_STOP, err, cs_flags s, cs_res s, work_list)
  else
    res ← ldlm_resource_unlink_lock (cs_res s) i;
    rf ← ldlm_extent_policy PAGE_SIZE res i (cs_flags s);
    rw ← ldlm_grant_lock rf.1 i (Some work_list);
    Ret (LDLM_ITER_CONTINUE, err, rf.2, rw.1, default work_list rw.2).

(** An enqueue or the end of recovery: conflicting locks go to the work list, and so
    does the granted lock when [grant_work] is set. *)
Definition process_conflicts (res : ldlm_resource) (i flags : Z) (grant_work : bool)
    (work_list : list Z) : run (Z * Z * Z * ldlm_resource * list Z) :=
  r ← ldlm_extent_compat_queue ns now Granted i (CompatState res flags (Some work_list) 0 1);
  let '(rc, err, s) := r in
  if rc <? 0 then Ret (rc, default ELDLM_OK err, cs_flags s, cs_res s, default [] (cs_work s))
  else
    r ← (if negb (rc =? 2) then ldlm_extent_compat_queue ns now Waiting i s
         else Ret (0, None, s));
    let '(rc2, err2, s) := r in
    if rc2 <? 0
    then Ret (rc2, default ELDLM_OK err2, cs_flags s, cs_res s, default [] (cs_work s))
    else
      let wl := default [] (cs_work s) in
      if rc + rc2 =? 2 then
        rf ← ldlm_extent_policy PAGE_SIZE (cs_res s) i (cs_flags s);
        res ← ldlm_resource_unlink_lock rf.1 i;
        rw ← ldlm_grant_lock res i (if grant_work then Some wl else None);
        Ret (LDLM_ITER_CONTINUE, ELDLM_OK, rf.2, rw.1, default wl rw.2)
      else Ret (LDLM_ITER_CONTINUE, ELDLM_OK, Z.lor (cs_flags s) LDLM_FL_NO_TIMEOUT, cs_res s, wl).

(** The result, [*err], [*flags], the resource and the work list. *)
Definition ldlm_process_extent_lock (res : ldlm_resource) (i flags : Z)
    (intention : ldlm_process_intention) (work_list : list Z)
    : run (Z * Z * Z * ldlm_resource * list Z) :=
  lock ← get_lock res i;
  lassert negb (l_granted_mode lock =? l_req_mode lock);
  lassert negb (LDLM_TEST_FLAG flags LDLM_FL_DENY_ON_CONTENTION) || negb (ldlm_is_ast_discard_data lock);
  match intention with
  | LDLM_PROCESS_RESCAN => process_rescan res i flags work_list
  | LDLM_PROCESS_RECOVERY => process_conflicts res i flags true work_list
  | LDLM_PROCESS_ENQUEUE => process_conflicts res i flags false work_list
  end.
End Process.

(** [ldlm_lock_cancel] under the resource lock: the callbacks it runs and the lock
    pool are not part of the model. *)
Definition ldlm_lock_cancel (res : ldlm_resource) (i : Z) : run ldlm_resource :=
  res ← ldlm_resource_unlink_lock res i;
  res ← ldlm_lock_destroy_nolock res i;
  lock ← get_lock res i;
  Ret (put_lock res i (set_granted_mode lock LCK_MINMODE)).

(** ** The known minimum size *)

Record ldlm_kms_shift_args := KmsArgs { old_kms : Z; kms : Z; complete : bool }.

(** The first lock of the group without [LDLM_FL_KMS_IGNORE]. *)
Fixpoint first_counted (res : ldlm_resource) (group : list Z) : run (option ldlm_lock) :=
  match group with
  | [] => Ret None
  | j :: group' =>
      lock ← get_lock res j;
      if ldlm_is_kms_ignore lock then first_counted res group' else Ret (Some lock)
  end.

Definition ldlm_kms_shift_cb (res : ldlm_resource) (ext : interval_node_extent) (group : list Z)
    (args : run ldlm_kms_shift_args) : interval_iter * run ldlm_kms_shift_args :=
  match args, first_counted res group with
  | Ret arg, Ret None => (INTERVAL_ITER_CONT, Ret arg)
  | Ret arg, Ret (Some lock) =>
      if old_kms arg <=? end_ (l_extent lock)
      then (INTERVAL_ITER_STOP, Ret (KmsArgs (old_kms arg) (old_kms arg) true))
      else
        let e1 := u64 (end_ (l_extent lock) + 1) in
        let arg := if kms arg <? e1 then KmsArgs (old_kms arg) e1 (complete arg) else arg in
        ((if l_granted_mode lock =? LCK_PW then INTERVAL_ITER_STOP else INTERVAL_ITER_CONT), Ret arg)
  | _, _ => (INTERVAL_ITER_STOP, LBUG)
  end.

Fixpoint shift_kms_loop (res : ldlm_resource) (trees : list ldlm_interval_tree)
    (args : ldlm_kms_shift_args) : run ldlm_kms_shift_args :=
  match trees with
  | [] => Ret args
  | tree :: trees' =>
      match lit_root tree with
      | Leaf => shift_kms_loop res trees' args
      | Node _ in_max_high _ _ _ _ =>
          if in_max_high <=? kms args then shift_kms_loop res trees' args
          else
            args ← (interval_iterate_reverse (lit_root tree) (ldlm_kms_shift_cb res) (Ret args)).2;
            if complete args then Ret args else shift_kms_loop res trees' args
      end
  end.

(** The new size and the resource. *)
Definition ldlm_extent_shift_kms (res : ldlm_resource) (i old : Z) : run (Z * ldlm_resource) :=
  lock ← get_lock res i;
  let res := put_lock res i (set_flags lock (LDLM_SET_FLAG (l_flags lock) LDLM_FL_KMS_IGNORE)) in
  args ← shift_kms_loop res (lr_itree res) (KmsArgs old 0 false);
  lassert kms args <=? old_kms args;
  Ret (kms args, res).
