(* ===== verification/LdlmIndex.v ===== *)
(** The index of granted extent locks: an interval tree whose nodes carry the groups
    of locks with one extent.  What the lock manager relies on when it adds a lock,
    takes one out and asks for overlaps is stated as laws about the locks of the tree;
    the proofs of the lock manager use these laws and not the tree. *)

From stdpp Require Import gmap.
From S2P Require Import Prelude IntervalTree IntervalErase LdlmLock LdlmExtent.

Implicit Types root : tree (list Z).
Implicit Types ext : interval_node_extent.

(** A lock and the extent it is filed under. *)
Definition members (xs : list (interval_node_extent * list Z)) ext (i : Z) : Prop :=
  exists group, (ext, group) ∈ xs /\ i ∈ group.
Definition member root ext (i : Z) : Prop := members (elements root) ext i.

(** A node of the index: a group that is not empty and has no lock twice. *)
Definition node_ok (x : interval_node_extent * list Z) : Prop :=
  x.2 <> [] /\ NoDup x.2 /\ ext_end x.1 <= U64_MAX.

Record index_ok root : Prop := {
  ix_wf : wf root;
  ix_nodes : Forall node_ok (elements root)
}.

Lemma members_middle xs ext group ys e i :
  members (xs ++ (ext, group) :: ys) e i <-> e = ext /\ i ∈ group \/ members (xs ++ ys) e i.
Proof.
  unfold members. setoid_rewrite elem_of_app. setoid_rewrite elem_of_cons. split.
  - intros (g & [Hin|[[= -> ->]|Hin]] & Hi); [|by left|]; right; exists g; auto.
  - intros [[-> Hi]|(g & [Hin|Hin] & Hi)]; [exists group|exists g|exists g]; auto.
Qed.

Lemma Forall_middle {B} (P : B -> Prop) xs x ys :
  Forall P (xs ++ x :: ys) <-> P x /\ Forall P (xs ++ ys).
Proof. rewrite !Forall_app, Forall_cons. tauto. Qed.

Lemma index_ok_leaf : index_ok Leaf.
Proof.
  split; [|by constructor]. split; simpl; [done|done|by constructor|done|by exists 0%nat].
Qed.

(** ** Positions *)

Lemma find_pos_spec ext group t (p : path (list Z)) :
  bst t -> (ext, group) ∈ elements t ->
  exists c m l r p', find_pos ext t p = Some (Node c m ext group l r, p')
    /\ plug (Node c m ext group l r) p' = plug t p.
Proof.
  revert p. induction t as [|c m e a l IHl r IHr]; intros p Hb Hin; simpl in *.
  { by apply elem_of_nil in Hin. }
  destruct Hb as (Hl & Hr & Hbl & Hbr). rewrite Forall_forall in Hl, Hr.
  apply elem_of_app in Hin as [Hin|[[= -> ->]|Hin]%elem_of_cons].
  - pose proof (proj2 (extent_compare_lt _ _) (Hl _ Hin)) as Hc. simpl in Hc.
    rewrite (proj2 (Z.eqb_neq _ 0)), (proj2 (Z.ltb_lt _ 0)) by lia.
    by apply (IHl (InLeft c m e a r :: p)).
  - rewrite (proj2 (extent_compare_eq e e) eq_refl). by exists c, m, l, r, p.
  - assert (Hc : ~ extent_compare ext e < 0 /\ extent_compare ext e <> 0).
    { specialize (Hr _ Hin). simpl in Hr. split.
      - intros Hc%extent_compare_lt. eapply extent_compare_irrefl, ext_lt_trans; done.
      - intros ->%extent_compare_eq. by eapply extent_compare_irrefl. }
    rewrite (proj2 (Z.eqb_neq _ 0)), (proj2 (Z.ltb_ge _ 0)) by lia.
    by apply (IHr (InRight c m e a l :: p)).
Qed.

(** The groups of one extent are one group. *)
Lemma elements_unique root ext g1 g2 :
  bst root -> (ext, g1) ∈ elements root -> (ext, g2) ∈ elements root -> g1 = g2.
Proof.
  intros Hb H1 H2. destruct (find_pos_spec ext g1 root [] Hb H1) as (c & m & l & r & p & Hf & _).
  destruct (find_pos_spec ext g2 root [] Hb H2) as (c' & m' & l' & r' & p' & Hf' & _).
  rewrite Hf in Hf'. by injection Hf'.
Qed.

Lemma elements_at c m ext (group : list Z) l r p :
  elements (plug (Node c m ext group l r) p)
  = (before p ++ elements l) ++ (ext, group) :: elements r ++ after p.
Proof. rewrite elements_plug. by norm_app. Qed.

(** Changing the group of a node keeps the tree well formed. *)
Lemma wf_set_group c m ext (g g' : list Z) l r p :
  wf (plug (Node c m ext g l r) p) -> wf (plug (Node c m ext g' l r) p).
Proof.
  intros [Hb Hm Hx Hblack [n Hrb]].
  assert (Hmap : map fst (elements (plug (Node c m ext g' l r) p))
    = map fst (elements (plug (Node c m ext g l r) p))).
  { rewrite !elements_plug. simpl. by rewrite !map_app. }
  destruct (plug_rb_inv _ _ _ Hrb Hblack) as (k & Hk & Hp & Hok).
  destruct (plug_rb (Node c m ext g' l r) p k) as [Hb' Hr']; try done.
  split; try done.
  - apply bst_sorted. apply bst_sorted in Hb. revert Hb Hmap. unfold sorted.
    generalize (elements (plug (Node c m ext g l r) p)) (elements (plug (Node c m ext g' l r) p)).
    intros xs ys. revert xs. induction ys as [|y ys IH]; intros [|x xs] Hs Heq; try done.
    simpl in Heq. injection Heq as Hyx Heq. inversion Hs as [|? ? Hs' Hf]; subst. constructor; [by eapply IH|].
    rewrite Forall_forall in *. intros z Hz. rewrite Hyx.
    assert (Hz' : z.1 ∈ map fst xs) by (rewrite <-Heq; by apply list_elem_of_fmap_2).
    apply list_elem_of_fmap in Hz' as (w & -> & Hw). by apply Hf.
  - by apply max_ok_plug_iff in Hm; apply max_ok_plug_iff.
  - unfold exts_ok in *. rewrite <-(Forall_map fst ext_ok) in *. by rewrite Hmap.
Qed.

(** ** Adding a lock *)

Definition index_add root ext (i : Z) : run (tree (list Z)) :=
  found ← interval_insert ext (ext_end ext) [i] root;
  match found with
  | (Some _, root) => ldlm_interval_attach root ext i
  | (None, root) => Ret root
  end.

Lemma index_attach_spec root ext group i :
  index_ok root -> (ext, group) ∈ elements root -> i ∉ group ->
  exists root', ldlm_interval_attach root ext i = Ret root' /\ index_ok root'
    /\ forall e j, member root' e j <-> member root e j \/ e = ext /\ j = i.
Proof.
  intros [Hwf Hn] Hin Hnew. unfold ldlm_interval_attach.
  destruct (find_pos_spec ext group root []) as (c & m & l & r & p & -> & Hp); [apply Hwf|done|].
  simpl in Hp. eexists. split; [done|].
  rewrite <-Hp in Hwf. pose proof (wf_set_group _ _ _ _ (group ++ [i]) _ _ _ Hwf) as Hwf'.
  unfold member. rewrite <-Hp in Hn |- *. clear Hp Hin.
  pose proof (elements_at c m ext group l r p) as Hels. rewrite Hels in *.
  pose proof (elements_at c m ext (group ++ [i]) l r p) as Hels'.
  apply Forall_middle in Hn as [(Hne & Hnd & Hend) Hn]. split; [split; [done|]|].
  - rewrite Hels'. apply Forall_middle. split; [|done]. split_and!; [by destruct group| |done].
    simpl. apply list.NoDup_app. split_and!; [done| |apply NoDup_singleton].
    intros x Hx ->%list_elem_of_singleton. done.
  - intros e j. rewrite Hels', !members_middle, elem_of_app, list_elem_of_singleton. tauto.
Qed.

Lemma index_insert_spec root ext i :
  index_ok root -> ext_ok ext -> ext_end ext <= U64_MAX -> (forall g, (ext, g) ∉ elements root) ->
  exists root', interval_insert ext (ext_end ext) [i] root = Ret (None, root') /\ index_ok root'
    /\ forall e j, member root' e j <-> member root e j \/ e = ext /\ j = i.
Proof.
  intros [Hwf Hn] Hok Hend Hnew.
  destruct (interval_insert_new ext [i] root) as (root' & xs & ys & -> & Hwf' & Hels & Hels'); [done..|].
  exists root'. unfold member. rewrite Hels, Hels' in *. split; [done|]. split; [split; [done|]|].
  - rewrite Hels'. apply Forall_middle. split; [|done]. split_and!; [done|apply NoDup_singleton|done].
  - intros e j. rewrite members_middle, list_elem_of_singleton. tauto.
Qed.

Lemma index_add_spec root ext i :
  index_ok root -> ext_ok ext -> ext_end ext <= U64_MAX -> ~ member root ext i ->
  exists root', index_add root ext i = Ret root' /\ index_ok root'
    /\ forall e j, member root' e j <-> member root e j \/ e = ext /\ j = i.
Proof.
  intros Hix Hok Hend Hnew. unfold index_add.
  destruct (decide (Exists (fun x => x.1 = ext) (elements root))) as [Hex|Hex].
  - apply Exists_exists in Hex as ([e0 g] & Hin & He0). simpl in He0. subst e0.
    rewrite (interval_insert_found _ _ _ _ _ (ix_wf _ Hix) Hin).
    apply (index_attach_spec root ext g); [done..|]. intros ?. apply Hnew. by exists g.
  - destruct (index_insert_spec root ext i) as (root' & -> & ? & ?); [done..| |by exists root'].
    intros g Hin. apply Hex, Exists_exists. by exists (ext, g).
Qed.

(** ** Taking a lock out *)

Lemma index_remove_spec root ext i :
  index_ok root -> member root ext i ->
  exists root', detach_and_erase root ext i = Ret root' /\ index_ok root'
    /\ forall e j, member root' e j <-> member root e j /\ ~ (e = ext /\ j = i).
Proof.
  intros [Hwf Hn] (group & Hin & Hi). unfold detach_and_erase.
  destruct (find_pos_spec ext group root []) as (c & m & l & r & p & -> & Hp); [apply Hwf|done|].
  simpl in Hp. pose proof (elements_at c m ext group l r p) as Hels. rewrite Hp in Hels.
  assert (Hother : forall e g, (e, g) ∈ (before p ++ elements l) ++ elements r ++ after p -> e <> ext).
  { intros e g Hg ->. pose proof (wf_bst _ Hwf) as Hb. apply bst_sorted in Hb. rewrite Hels in Hb.
    apply sorted_app in Hb as (_ & [Hr _]%sorted_cons & Hl). rewrite Forall_forall in Hr.
    apply elem_of_app in Hg as [Hg|Hg].
    - apply (extent_compare_irrefl ext). apply (Hl (ext, g) (ext, group)); [done|by left].
    - apply (extent_compare_irrefl ext). by apply (Hr (ext, g)). }
  unfold member. rewrite Hels in *. apply Forall_middle in Hn as [(Hne & Hnd & Hend) Hn].
  simpl in Hne. rewrite bool_decide_eq_false_2 by done. cbn [negb LASSERT].
  set (group' := base.filter (fun j => j <> i) group).
  assert (Hg' : forall j, j ∈ group' <-> j ∈ group /\ j <> i)
    by (intros j; unfold group'; rewrite list_elem_of_filter; tauto).
  assert (Hmem : forall e j, members ((before p ++ elements l) ++ elements r ++ after p) e j -> e <> ext)
    by (intros e j (g & Hg & _); by eapply Hother).
  destruct (bool_decide_reflect (group' = [])) as [Hnil|Hnil].
  - rewrite <-Hp in Hwf. destruct (interval_erase_fixed c m ext group l r p Hwf) as (root' & -> & Hf).
    rewrite app_assoc in Hf. destruct (fixed_black_wf _ (ext, group) _ root' Hf) as [Hwf' Hels'].
    { rewrite <-Hels, <-Hp. apply bst_sorted, Hwf. }
    { rewrite <-Hels, <-Hp. apply Hwf. }
    exists root'. rewrite Hels'. split; [done|]. split; [split; [done|by rewrite Hels']|].
    intros e j. rewrite members_middle. specialize (Hg' j). rewrite Hnil, elem_of_nil in Hg'.
    specialize (Hmem e j). destruct (decide (j = i)) as [->|]; tauto.
  - eexists. split; [done|]. rewrite <-Hp in Hwf. rewrite elements_at. split; [split|].
    + by eapply wf_set_group.
    + rewrite elements_at. apply Forall_middle. split; [|done]. split_and!; [done| |done].
      by apply NoDup_filter.
    + intros e j. rewrite !members_middle, Hg'. specialize (Hmem e j). tauto.
Qed.
