(* ===== verification/LdlmPolicy.v ===== *)
(** How far an extent lock grows (lustre/ldlm/ldlm_extent.c,
    [ldlm_extent_internal_policy_fixup], [_granted], [_waiting] and
    [ldlm_extent_policy]): with requests aligned to the page size of the server the
    granted extent contains the request, its assertions hold, and it runs into no
    conflicting granted lock. *)

From stdpp Require Import gmap.
From S2P Require Import Prelude IntervalTree LdlmLock LdlmExtent LdlmIndex.

(** ** Alignment *)

Lemma divide_testbit (x k : Z) :
  0 <= k -> ((2 ^ k | x) <-> forall n, 0 <= n < k -> Z.testbit x n = false).
Proof.
  intros Hk. split.
  - intros [q ->] n Hn. rewrite Z.mul_pow2_bits by lia. apply Z.testbit_neg_r. lia.
  - intros H. apply Z.mod_divide; [lia|]. apply Z.bits_inj'. intros n Hn. rewrite Z.bits_0.
    destruct (Z.lt_ge_cases n k); [|by apply Z.mod_pow2_bits_high].
    rewrite Z.mod_pow2_bits_low by lia. by apply H.
Qed.

Lemma divide_lor (x y k : Z) : 0 <= k -> ((2 ^ k | Z.lor x y) <-> (2 ^ k | x) /\ (2 ^ k | y)).
Proof.
  intros Hk. rewrite !divide_testbit by done. setoid_rewrite Z.lor_spec.
  setoid_rewrite orb_false_iff. split; [|intros [? ?]; auto].
  intros H. split; intros n Hn; by destruct (H n Hn).
Qed.

Lemma land_pow2 (x k : Z) : 0 <= k -> (Z.land x (2 ^ k) =? 0) = negb (Z.testbit x k).
Proof.
  intros Hk. assert (H : Z.land x (2 ^ k) = if Z.testbit x k then 2 ^ k else 0).
  { apply Z.bits_inj'. intros n Hn. rewrite Z.land_spec, Z.pow2_bits_eqb by lia.
    destruct (Z.eqb_spec k n) as [<-|Hne].
    - rewrite andb_true_r. destruct (Z.testbit x k); [by rewrite Z.pow2_bits_true|by rewrite Z.bits_0].
    - rewrite andb_false_r. destruct (Z.testbit x k); [|by rewrite Z.bits_0].
      by rewrite Z.pow2_bits_false. }
  rewrite H. destruct (Z.testbit x k); simpl; [|done]. apply Z.eqb_neq. lia.
Qed.

Lemma mask_loop_spec (fuel : nat) (a j : Z) :
  0 < a < 2 ^ 64 -> 0 <= j < 64 -> (2 ^ j | a) -> 64 - j <= Z.of_nat fuel ->
  exists k, j <= k < 64 /\ mask_loop fuel a (2 ^ j) = Ret (2 ^ k) /\ (2 ^ k | a).
Proof.
  revert j. induction fuel as [|fuel IH]; intros j Ha Hj Hdiv Hf; [lia|]. simpl.
  rewrite land_pow2 by lia. destruct (Z.testbit a j) eqn:Hb; simpl; [exists j; split_and!; (done || lia)|].
  assert (Hdiv' : (2 ^ (j + 1) | a)).
  { apply divide_testbit; [lia|]. intros n Hn. destruct (Z.eq_dec n j) as [->|]; [done|].
    apply (proj1 (divide_testbit a j ltac:(lia)) Hdiv). lia. }
  assert (Hj' : j + 1 < 64).
  { destruct (Z.eq_dec j 63) as [->|]; [|lia]. exfalso. destruct Hdiv' as [q Hq].
    change (63 + 1) with 64 in Hq. assert (q <= 0 \/ 1 <= q) as [?|?] by lia; nia. }
  rewrite Z.shiftl_mul_pow2 by lia. change (2 ^ 1) with 2.
  replace (2 ^ j * 2) with (2 ^ (j + 1)) by (rewrite Z.pow_add_r; lia).
  rewrite wrap_small by (split; [lia|apply Z.pow_lt_mono_r; lia]).
  destruct (IH (j + 1)) as (k & Hk & Hrun & Hd); [done|lia|done|lia|].
  exists k. split_and!; (done || lia).
Qed.

Section Fixup.
Context (PAGE_SIZE pk : Z).
Hypothesis Hpage : PAGE_SIZE = 2 ^ pk.
Hypothesis Hpk : 0 <= pk < 64.

(** An extent of whole pages. *)
Definition aligned (s e : Z) : Prop :=
  0 <= s <= e /\ e <= U64_MAX /\ (PAGE_SIZE | s) /\ (PAGE_SIZE | e + 1).

Lemma fixup_mask_spec s e :
  aligned s e ->
  exists k, pk <= k < 64 /\ fixup_mask PAGE_SIZE s e = Ret (2 ^ k - 1) /\ (2 ^ k | s) /\ (2 ^ k | e + 1).
Proof.
  intros (Hs & He & Hds & Hde). unfold fixup_mask. rewrite Hpage in *. unfold U64_MAX in He.
  assert (Hu : u64 (e + 1) = 0 /\ e + 1 = 2 ^ 64 \/ u64 (e + 1) = e + 1 /\ e + 1 < 2 ^ 64).
  { unfold wrap. destruct (Z.eq_dec (e + 1) (2 ^ 64)) as [->|]; [by left|right].
    rewrite Z.mod_small by lia. lia. }
  assert (Hd64 : forall k, 0 <= k < 64 -> (2 ^ k | 2 ^ 64)).
  { intros k Hk. exists (2 ^ (64 - k)). rewrite <-Z.pow_add_r by lia. f_equal. lia. }
  assert (Hue : forall k, 0 <= k < 64 -> ((2 ^ k | u64 (e + 1)) <-> (2 ^ k | e + 1))).
  { intros k Hk. destruct Hu as [[-> ->]|[-> _]]; [|done]. split; [auto|intros _; apply Z.divide_0_r]. }
  set (a := Z.lor (u64 (e + 1)) s).
  assert (Ha : 0 <= a < 2 ^ 64).
  { unfold a. apply (lor_bound 64); [lia|destruct Hu as [[-> _]|[-> ?]]; lia|lia]. }
  destruct (Z.eqb_spec a 0) as [Ha0|Ha0]; cbn [negb andb mbind run_bind].
  { exists pk. split_and!; (done || lia || constructor). }
  assert (Hda : (2 ^ pk | a)) by (apply divide_lor; [lia|]; split; [by apply Hue|done]).
  rewrite land_mask, (proj2 (Z.mod_divide a (2 ^ pk) ltac:(lia)) Hda) by lia. cbn [Z.eqb].
  destruct (mask_loop_spec 64 a pk) as (k & Hk & -> & Hdk); [lia|lia|done|lia|].
  exists k. apply divide_lor in Hdk as [Hdk1 Hdk2]; [|lia]. cbn [mbind run_bind].
  split_and!; try done; try lia. apply Hue; [lia|done].
Qed.

(** Rounding keeps between the request and the extent before it. *)
Lemma round_start (k st s : Z) :
  0 <= k < 64 -> (2 ^ k | s) -> 0 <= st <= s -> s <= U64_MAX ->
  st <= u64 (Z.lor (u64 (st - 1)) (2 ^ k - 1) + 1) <= s
  /\ (2 ^ k | u64 (Z.lor (u64 (st - 1)) (2 ^ k - 1) + 1)).
Proof.
  intros Hk [q ->] Hst Hs. unfold U64_MAX in Hs. rewrite lor_low_mask by lia. unfold wrap.
  assert (H0 : 0 < 2 ^ k) by lia.
  destruct (Z.eq_dec st 0) as [->|Hne].
  - assert (Hm : (0 - 1) mod 2 ^ 64 = 2 ^ (64 - k) * 2 ^ k - 1)
      by (rewrite <-Z.pow_add_r by lia; replace (64 - k + k) with 64 by lia; done).
    rewrite Hm. replace ((2 ^ (64 - k) * 2 ^ k - 1) / 2 ^ k) with (2 ^ (64 - k) - 1).
    + replace ((2 ^ (64 - k) - 1) * 2 ^ k + (2 ^ k - 1) + 1) with (2 ^ (64 - k) * 2 ^ k) by lia.
      rewrite <-Z.pow_add_r by lia. replace (64 - k + k) with 64 by lia. rewrite Z.mod_same by lia.
      split; [lia|apply Z.divide_0_r].
    + apply Z.div_unique with (2 ^ k - 1); lia.
  - rewrite (Z.mod_small (st - 1)) by lia.
    assert (Hq : (st - 1) / 2 ^ k < q) by (apply Z.div_lt_upper_bound; lia).
    pose proof (Z.div_mod (st - 1) (2 ^ k) ltac:(lia)) as Hdm.
    pose proof (Z.mod_pos_bound (st - 1) (2 ^ k) ltac:(lia)) as Hmod.
    pose proof (Z.div_pos (st - 1) (2 ^ k) ltac:(lia) ltac:(lia)) as Hpos.
    set (d := (st - 1) / 2 ^ k) in *.
    assert (Hd : (d + 1) * 2 ^ k <= q * 2 ^ k) by (apply Z.mul_le_mono_nonneg_r; lia).
    rewrite Z.mod_small by lia. split; [lia|]. exists (d + 1). lia.
Qed.

Lemma round_end (k en e : Z) :
  0 <= k < 64 -> (2 ^ k | e + 1) -> 0 <= e <= en -> en <= U64_MAX ->
  e <= u64 (Z.land (u64 (en + 1)) (u64 (Z.lnot (2 ^ k - 1))) - 1) <= en
  /\ (2 ^ k | u64 (Z.land (u64 (en + 1)) (u64 (Z.lnot (2 ^ k - 1))) - 1) + 1).
Proof.
  intros Hk [q Hq] He Hen. unfold U64_MAX in Hen.
  rewrite land_high_mask; [|lia|unfold wrap; apply Z.mod_pos_bound; lia]. unfold wrap.
  destruct (Z.eq_dec en (2 ^ 64 - 1)) as [->|Hne].
  - replace (2 ^ 64 - 1 + 1) with (2 ^ 64) by lia. rewrite Z.mod_same, Z.div_0_l, Z.mul_0_l by lia.
    change ((0 - 1) mod 2 ^ 64) with (2 ^ 64 - 1). split; [lia|].
    exists (2 ^ (64 - k)). rewrite <-Z.pow_add_r by lia. replace (64 - k + k) with 64 by lia. done.
  - rewrite (Z.mod_small (en + 1)) by lia. assert (H0 : 0 < 2 ^ k) by lia.
    assert (Hd : q <= (en + 1) / 2 ^ k) by (apply Z.div_le_lower_bound; lia).
    pose proof (Z.mul_div_le (en + 1) (2 ^ k) H0) as Hle. set (d := (en + 1) / 2 ^ k) in *.
    assert (Hqd : q * 2 ^ k <= d * 2 ^ k) by (apply Z.mul_le_mono_nonneg_r; lia).
    rewrite Z.mod_small by lia. split; [lia|]. exists d. lia.
Qed.

(** The ends of an extent are on page boundaries. *)
Definition paged (ex : ldlm_extent) : Prop := (PAGE_SIZE | start ex) /\ (PAGE_SIZE | end_ ex + 1).

Lemma paged_whole : paged (LdlmExtent 0 OBD_OBJECT_EOF 0).
Proof.
  split; simpl; [apply Z.divide_0_r|]. rewrite Hpage. exists (2 ^ (64 - pk)). rewrite <-Z.pow_add_r by lia.
  replace (64 - pk + pk) with 64 by lia. done.
Qed.

Lemma page_divide k x : pk <= k -> (2 ^ k | x) -> (PAGE_SIZE | x).
Proof.
  intros Hk [q ->]. rewrite Hpage. exists (q * 2 ^ (k - pk)). rewrite <-Z.mul_assoc, <-Z.pow_add_r by lia.
  by replace (k - pk + pk) with k by lia.
Qed.

(** The extents between a request and an extent that contains it. *)
Definition between (s e : Z) (outer ex : ldlm_extent) : Prop :=
  start outer <= start ex <= s /\ e <= end_ ex <= end_ outer.

Lemma fixup_spec (req : ldlm_lock) (ex : ldlm_extent) (conflicting : Z) :
  let s := start (l_req_extent req) in
  let e := end_ (l_req_extent req) in
  aligned s e -> 0 <= start ex <= s -> e <= end_ ex <= U64_MAX ->
  exists ex', ldlm_extent_internal_policy_fixup PAGE_SIZE req ex conflicting = Ret ex' /\ between s e ex ex'
    /\ paged ex'.
Proof.
  intros s e Hal Hst Hen. unfold ldlm_extent_internal_policy_fixup. fold s e.
  remember (fixup_limit req ex conflicting) as ex1 eqn:Hex1.
  assert (Hb1 : between s e ex ex1).
  { rewrite Hex1. unfold between, fixup_limit. fold s e. case_match; [|lia].
    destruct (Z.ltb_spec e (u64 (s + LDLM_MAX_GROWN_EXTENT))); cbn [start end_]; lia. }
  destruct Hb1 as [Hs1 He1]. clear Hex1.
  case_match eqn:Hwhole.
  { apply andb_true_iff in Hwhole as [E1%Z.eqb_eq E2%Z.eqb_eq]. exists ex1. split_and!; try done.
    unfold paged. rewrite E1, E2. apply paged_whole. }
  destruct (fixup_mask_spec s e Hal) as (k & Hk & -> & Hd1 & Hd2). cbn [mbind run_bind start end_].
  destruct Hal as (Hs & He & _).
  destruct (round_start k (start ex1) s ltac:(lia) Hd1 ltac:(lia) ltac:(lia)) as [Hr1 Hp1].
  destruct (round_end k (end_ ex1) e ltac:(lia) Hd2 ltac:(lia) ltac:(lia)) as [Hr2 Hp2].
  rewrite (proj2 (Z.leb_le _ s)), (proj2 (Z.leb_le e _)) by lia. cbn [LASSERT].
  eexists. split; [done|]. split; [unfold between; cbn [start end_]; lia|].
  split; (eapply page_divide; [|eassumption]; lia).
Qed.

(** An extent that ends below the first boundary of the server's pages is not shrunk. *)
Lemma fixup_low (req : ldlm_lock) (ex : ldlm_extent) (conflicting : Z) :
  let s := start (l_req_extent req) in
  let e := end_ (l_req_extent req) in
  0 <= start ex <= s -> s <= e <= end_ ex -> end_ ex + 1 < PAGE_SIZE ->
  ldlm_extent_internal_policy_fixup PAGE_SIZE req ex conflicting
  = if start ex =? 0 then Ret (LdlmExtent 0 OBD_OBJECT_EOF (gid ex)) else LBUG.
Proof.
  intros s e Hst Hen Hlow. assert (H64 : 2 ^ pk <= 2 ^ 63) by (apply Z.pow_le_mono_r; lia).
  unfold ldlm_extent_internal_policy_fixup. fold s e.
  assert (Hl : fixup_limit req ex conflicting = LdlmExtent (start ex) (end_ (fixup_limit req ex conflicting)) (gid ex)
               /\ e <= end_ (fixup_limit req ex conflicting) <= end_ ex).
  { unfold fixup_limit. fold s e. destruct ex as [st en g]. cbn [start end_ gid] in *. case_match; [|cbn [end_]; split; [done|lia]].
    destruct (Z.ltb_spec e (u64 (s + LDLM_MAX_GROWN_EXTENT))); cbn [start end_ gid]; split; try done; lia. }
  destruct Hl as [Hl Hen1]. rewrite Hl. clear Hl. set (en := end_ (fixup_limit req ex conflicting)) in *. cbn [start end_ gid].
  rewrite (proj2 (Z.eqb_neq en OBD_OBJECT_EOF)) by (unfold OBD_OBJECT_EOF, U64_MAX in *; lia). rewrite andb_false_r.
  assert (Hu : forall x, 0 <= x < 2 ^ 64 -> u64 x = x) by (intros; by apply Z.mod_small).
  assert (Hmask : fixup_mask PAGE_SIZE s e = Ret (2 ^ pk - 1)).
  { unfold fixup_mask. rewrite Hpage, Hu by lia. rewrite land_mask by lia.
    assert (Hlor : 0 <= Z.lor (e + 1) s < 2 ^ pk) by (apply (lor_bound pk); lia).
    rewrite Z.mod_small by lia. destruct (Z.eqb_spec (Z.lor (e + 1) s) 0) as [E|E]; [|done].
    apply Z.lor_eq_0_iff in E. lia. }
  rewrite Hmask. cbn [mbind run_bind].
  assert (Hend : u64 (Z.land (u64 (en + 1)) (u64 (Z.lnot (2 ^ pk - 1))) - 1) = OBD_OBJECT_EOF).
  { rewrite (Hu (en + 1)) by lia. assert (Z.land (en + 1) (u64 (Z.lnot (2 ^ pk - 1))) = 0) as ->; [|done].
    rewrite land_high_mask by lia. rewrite Z.div_small by lia. done. }
  rewrite Hend. destruct (Z.eqb_spec (start ex) 0) as [->|Hne].
  - destruct (round_start pk 0 0) as [K _]; [lia|apply Z.divide_0_r|lia|unfold U64_MAX; lia|].
    replace (u64 (Z.lor (u64 (0 - 1)) (2 ^ pk - 1) + 1)) with 0 by lia.
    rewrite (proj2 (Z.leb_le 0 s)), (proj2 (Z.leb_le e _)) by (unfold OBD_OBJECT_EOF, U64_MAX; lia). done.
  - rewrite (Hu (start ex - 1)) by lia. rewrite lor_low_mask by lia. rewrite Z.div_small by lia.
    rewrite Hu by lia. by rewrite (proj2 (Z.leb_gt _ s)) by lia.
Qed.
End Fixup.

(** ** Granted locks *)

Definition free_of (root : tree (list Z)) (s e : Z) : Prop :=
  forall x, x ∈ elements root -> extent_overlapped (Extent s e) x.1 = false.

Lemma free_of_sub root s e s' e' : free_of root s e -> s <= s' -> e' <= e -> free_of root s' e'.
Proof.
  intros Hf Hs He x Hin. specialize (Hf x Hin). unfold extent_overlapped in *. simpl in *. lia.
Qed.

(** The trees a request conflicts with leave an extent free. *)
Definition trees_free (mode s e : Z) (trees : list ldlm_interval_tree) : Prop :=
  Forall (fun t => lockmode_compat (lit_mode t) mode = false -> free_of (lit_root t) s e) trees.

Lemma trees_free_sub mode s e s' e' trees :
  trees_free mode s e trees -> s <= s' -> e' <= e -> trees_free mode s' e' trees.
Proof.
  intros Hf Hs He. eapply Forall_impl; [exact Hf|]. simpl. intros t Ht Hc. by eapply free_of_sub, He; [apply Ht|].
Qed.

Definition trees_ok (trees : list ldlm_interval_tree) : Prop :=
  Forall (fun t => index_ok (lit_root t)) trees.

Lemma expand_tree root s e lim :
  index_ok root -> 0 <= s <= e -> e <= U64_MAX -> free_of root s e ->
  exists ext, interval_expand root (Extent s e) lim = Ret ext
    /\ 0 <= ext_start ext <= s /\ e <= ext_end ext <= U64_MAX
    /\ free_of root (ext_start ext) (ext_end ext).
Proof.
  intros [Hwf Hn] Hse He Hf.
  destruct (interval_expand_fits root (Extent s e) lim) as (Hrun & H1 & H2 & H3);
    try done; try apply Hwf.
  - intros x Hin. rewrite Forall_forall in Hn. by apply Hn.
  - simpl in H1, H2. eexists. split; [exact Hrun|].
    split; [done|]. split; [done|]. intros x Hin. specialize (H3 x Hin). by destruct (expand_end _ _ _).
Qed.

Lemma policy_granted_loop_spec mode s e trees lim conflicting :
  0 <= s <= e -> e <= U64_MAX -> 0 <= ext_start lim <= s -> e <= ext_end lim <= U64_MAX ->
  trees_ok trees -> trees_free mode s e trees ->
  exists lim' c', policy_granted_loop mode s e trees lim conflicting = Ret (lim', c')
    /\ ext_start lim <= ext_start lim' <= s /\ e <= ext_end lim' <= ext_end lim
    /\ trees_free mode (ext_start lim') (ext_end lim') trees.
Proof.
  intros Hse He. revert lim conflicting. induction trees as [|t trees IH]; intros lim conf Hl1 Hl2 Hok Hf; simpl.
  { exists lim, conf. split_and!; (done || lia || constructor). }
  apply Forall_cons in Hok as [Hok1 Hok2]. apply Forall_cons in Hf as [Hf1 Hf2].
  destruct (lockmode_compat (lit_mode t) mode) eqn:Hc.
  { destruct (IH lim conf) as (lim' & c' & Hr & ? & ? & ?); try done.
    exists lim', c'. split_and!; try done; try lia. constructor; [congruence|done]. }
  set (lim1 := if 4 <? conf + lit_size t then Extent s (ext_end lim) else lim).
  assert (Hlim1 : ext_start lim <= ext_start lim1 <= s /\ ext_end lim1 = ext_end lim)
    by (unfold lim1; case_match; simpl; lia).
  destruct (expand_tree (lit_root t) s e (Some lim1)) as (ext & -> & Hx1 & Hx2 & Hx3); try done; [by apply Hf1|].
  cbn [mbind run_bind ext_start ext_end].
  set (lim2 := Extent (Z.max (ext_start lim1) (ext_start ext)) (Z.min (ext_end lim1) (ext_end ext))).
  assert (Hlim2 : ext_start lim <= ext_start lim2 <= s /\ e <= ext_end lim2 <= ext_end lim
    /\ ext_start ext <= ext_start lim2 /\ ext_end lim2 <= ext_end ext) by (unfold lim2; simpl; lia).
  case_match eqn:Hstop.
  - exists lim2, (conf + lit_size t). apply andb_true_iff in Hstop as [Hs1%Z.eqb_eq Hs2%Z.eqb_eq].
    unfold lim2. cbn [ext_start ext_end]. rewrite Hs1, Hs2. split_and!; try done; try lia.
    constructor; [|done]. auto.
  - destruct (IH lim2 (conf + lit_size t)) as (lim' & c' & -> & H1 & H2 & H3); try done; try lia.
    exists lim', c'. split_and!; try done; try lia. constructor; [|done]. intros _.
    eapply free_of_sub; [exact Hx3|lia|lia].
Qed.

(** ** Waiting locks *)

(** A waiting lock has not grown. *)
Definition not_grown (l : ldlm_lock) : Prop :=
  start (l_extent l) = start (l_req_extent l) /\ end_ (l_extent l) = end_ (l_req_extent l)
  /\ 0 <= start (l_req_extent l) <= end_ (l_req_extent l) /\ end_ (l_req_extent l) <= U64_MAX.

Definition waiting_ok (res : ldlm_resource) (queue : list Z) : Prop :=
  Forall (fun j => exists l, lr_locks res !! j = Some l /\ not_grown l) queue.

Lemma policy_waiting_loop_spec res i req queue ex conflicting :
  let s := start (l_req_extent req) in
  let e := end_ (l_req_extent req) in
  0 <= s <= e -> e <= U64_MAX -> 0 <= start ex <= s -> e <= end_ ex <= U64_MAX ->
  waiting_ok res queue ->
  exists r, policy_waiting_loop res i req queue ex conflicting = Ret r
    /\ between s e ex (match r with inl ex' => ex' | inr (ex', _) => ex' end)
    /\ match r with inl ex' => start ex' = s /\ end_ ex' = e | _ => True end.
Proof.
  intros s e Hse He. revert ex conflicting.
  induction queue as [|j queue IH]; intros ex conf Hx1 Hx2 Hw; simpl; fold s e.
  { eexists. split; [done|]. split; [unfold between; lia|done]. }
  apply Forall_cons in Hw as [(l & Hl & Hst & Hen & Hlb & Hlu) Hw'].
  unfold get_lock. rewrite Hl. cbn [mbind run_bind].
  case_match eqn:Hstop.
  { apply andb_true_iff in Hstop as [?%Z.eqb_eq ?%Z.eqb_eq]. eexists. split; [done|].
    split; [unfold between; lia|done]. }
  case_match; [by apply IH|]. case_match; [by apply IH|].
  set (ex1 := if 4 <? conf + 1 then LdlmExtent s (end_ ex) (gid ex) else ex).
  assert (Hex1 : start ex <= start ex1 <= s /\ end_ ex1 = end_ ex) by (unfold ex1; case_match; simpl; lia).
  assert (Hgo : forall ex2, between s e ex1 ex2 ->
    exists r, policy_waiting_loop res i req queue ex2 (conf + 1) = Ret r
      /\ between s e ex (match r with inl ex' => ex' | inr (ex', _) => ex' end)
      /\ match r with inl ex' => start ex' = s /\ end_ ex' = e | _ => True end).
  { intros ex2 [Hb1 Hb2]. destruct (IH ex2 (conf + 1)) as (r & -> & Hb & Hr); try done; try lia.
    exists r. split; [done|]. split; [unfold between in *; lia|done]. }
  assert (Hself : between s e ex1 ex1) by (unfold between; lia).
  destruct (ldlm_extent_overlap (l_extent l) ex1) eqn:Hov1; cbn [negb]; [|by apply Hgo].
  destruct (ldlm_extent_overlap (l_req_extent l) (l_req_extent req)) eqn:Hov2; [by apply Hgo|].
  apply Hgo. unfold ldlm_extent_overlap in Hov1, Hov2. fold s e in Hov2.
  rewrite Hst, Hen in *. unfold between. cbn [start end_]. unfold wrap, U64_MAX in *.
  repeat case_match; try lia; rewrite Z.mod_small by lia; lia.
Qed.

(** ** The whole policy *)

Section Policy.
Context (PAGE_SIZE pk : Z).
Hypothesis Hpage : PAGE_SIZE = 2 ^ pk.
Hypothesis Hpk : 0 <= pk < 64.

Lemma put_lock_same res i l : lr_locks res !! i = Some l -> put_lock res i l = res.
Proof. intros H. unfold put_lock, set_locks. rewrite insert_id by done. by destruct res. Qed.

Lemma set_extent_same l : set_extent l (l_extent l) = l.
Proof. by destruct l. Qed.

Lemma policy_between (res : ldlm_resource) i (lock : ldlm_lock) :
  let s := start (l_req_extent lock) in
  let e := end_ (l_req_extent lock) in
  not_grown lock -> aligned PAGE_SIZE s e -> lockmode_verify (l_req_mode lock) = true ->
  trees_ok (lr_itree res) -> trees_free (l_req_mode lock) s e (lr_itree res) ->
  waiting_ok res (lr_waiting res) ->
  exists ex, (if negb (LDLM_TEST_FLAG (l_flags lock) LDLM_FL_NO_EXPANSION) then
      new_ex ← ldlm_extent_internal_policy_granted PAGE_SIZE res lock (LdlmExtent 0 OBD_OBJECT_EOF 0);
      ldlm_extent_internal_policy_waiting PAGE_SIZE res i lock new_ex
    else ldlm_extent_internal_policy_fixup PAGE_SIZE lock
           (LdlmExtent (start (l_extent lock)) (end_ (l_extent lock)) 0) 0) = Ret ex
    /\ 0 <= start ex <= s /\ e <= end_ ex <= U64_MAX /\ paged PAGE_SIZE ex
    /\ trees_free (l_req_mode lock) (start ex) (end_ ex) (lr_itree res).
Proof.
  intros s e (Hst & Hen & Hb1 & Hb2) Hal Hv Hok Hf Hw. fold s e in Hst, Hen, Hb1, Hb2.
  destruct (LDLM_TEST_FLAG (l_flags lock) LDLM_FL_NO_EXPANSION); cbn [negb].
  - destruct (fixup_spec PAGE_SIZE pk Hpage Hpk lock (LdlmExtent (start (l_extent lock)) (end_ (l_extent lock)) 0) 0)
      as (ex & -> & [H1 H2] & Hpg); [done|simpl; lia|simpl; lia|]. cbn [start end_] in H1, H2.
    exists ex. split_and!; try done; try lia. eapply trees_free_sub; [exact Hf|lia|lia].
  - unfold ldlm_extent_internal_policy_granted, ldlm_extent_internal_policy_waiting. rewrite Hv.
    cbn [LASSERT]. fold s e.
    destruct (policy_granted_loop_spec (l_req_mode lock) s e (lr_itree res)
      (Extent 0 OBD_OBJECT_EOF) 0) as (lim & c & Hrun & Hl1 & Hl2 & Hlf); try done; try (simpl; lia).
    cbn [start end_]. rewrite Hrun. cbn [mbind run_bind start end_ gid ext_start ext_end] in *.
    change OBD_OBJECT_EOF with U64_MAX in Hl2.
    rewrite (proj2 (Z.leb_le _ _)), (proj2 (Z.leb_le e _)) by lia. cbn [LASSERT].
    destruct (fixup_spec PAGE_SIZE pk Hpage Hpk lock (LdlmExtent (ext_start lim) (ext_end lim) 0) c)
      as (ex1 & -> & [H1 H2] & _); [done|simpl; lia|simpl; lia|]. cbn [mbind run_bind start end_] in *.
    fold s e in H1, H2.
    destruct (policy_waiting_loop_spec res i lock (lr_waiting res) ex1 0) as (r & -> & [H3 H4] & Hinl);
      try done; try lia. cbn [mbind run_bind]. fold s e in H3, H4, Hinl.
    destruct r as [ex2|[ex2 c2]].
    + exists ex2. destruct Hinl as [E1 E2]. split_and!; try done; try lia.
      { unfold paged. rewrite E1, E2. apply Hal. }
      eapply trees_free_sub; [exact Hlf|lia|lia].
    + destruct (fixup_spec PAGE_SIZE pk Hpage Hpk lock ex2 c2) as (ex3 & -> & [H5 H6] & Hpg); [done|lia|lia|].
      fold s e in H5, H6. exists ex3. split_and!; try done; try lia.
      eapply trees_free_sub; [exact Hlf|lia|lia].
Qed.

(** The policy sets the extent of the lock to one that contains the request and leaves
    every conflicting granted lock alone, or keeps it. *)
Lemma ldlm_extent_policy_spec (res : ldlm_resource) i (lock : ldlm_lock) (flags : Z) :
  let s := start (l_req_extent lock) in
  let e := end_ (l_req_extent lock) in
  lr_locks res !! i = Some lock -> not_grown lock -> aligned PAGE_SIZE s e ->
  lockmode_verify (l_req_mode lock) = true ->
  trees_ok (lr_itree res) -> trees_free (l_req_mode lock) s e (lr_itree res) ->
  waiting_ok res (lr_waiting res) ->
  exists ex flags', ldlm_extent_policy PAGE_SIZE res i flags = Ret (put_lock res i (set_extent lock ex), flags')
    /\ 0 <= start ex <= s /\ e <= end_ ex <= U64_MAX /\ gid ex = gid (l_extent lock)
    /\ paged PAGE_SIZE ex /\ trees_free (l_req_mode lock) (start ex) (end_ ex) (lr_itree res).
Proof.
  intros s e Hl Hng Hal Hv Hok Hf Hw. pose proof Hng as (Hst & Hen & Hb1 & Hb2).
  assert (Hkeep : exists ex flags', Ret (res, flags) = Ret (put_lock res i (set_extent lock ex), flags')
    /\ 0 <= start ex <= s /\ e <= end_ ex <= U64_MAX /\ gid ex = gid (l_extent lock)
    /\ paged PAGE_SIZE ex /\ trees_free (l_req_mode lock) (start ex) (end_ ex) (lr_itree res)).
  { exists (l_extent lock), flags. rewrite set_extent_same, put_lock_same by done.
    unfold paged. rewrite Hst, Hen. fold s e. split_and!; (done || lia || apply Hal). }
  unfold ldlm_extent_policy, get_lock. rewrite Hl. cbn [mbind run_bind].
  case_match; [exact Hkeep|]. case_match; [exact Hkeep|].
  destruct (policy_between res i lock) as (ex & -> & H1 & H2 & Hpg & H3); try done. cbn [mbind run_bind].
  case_match; [|exact Hkeep].
  eexists (LdlmExtent (start ex) (end_ ex) (gid (l_extent lock))), _. cbn [start end_ gid]. split_and!; (done || lia).
Qed.
End Policy.
