(* ===== verification/LdlmSafe.v ===== *)
(** Mutual exclusion of granted extent locks: however requests, reprocessing of the
    waiting queue and cancellations are interleaved, two granted locks of conflicting
    modes never overlap, group locks all have one group id, and none of the assertions
    on the way fails. *)

From stdpp Require Import gmap.
From S2P Require Import Prelude IntervalTree IntervalWalk LdlmLock LdlmExtent LdlmIndex LdlmPolicy.

(** ** Modes and flags *)

Definition modes : list Z := [LCK_EX; LCK_PW; LCK_PR; LCK_CW; LCK_CR; LCK_NL; LCK_GROUP; LCK_COS].

Ltac mode_cases H :=
  unfold modes in H; rewrite !elem_of_cons, elem_of_nil in H;
  repeat (destruct H as [->|H]); try done.

Lemma lockmode_compat_sym m1 m2 :
  m1 ∈ modes -> m2 ∈ modes -> lockmode_compat m1 m2 = lockmode_compat m2 m1.
Proof. intros H1 H2. mode_cases H1; mode_cases H2. Qed.

Lemma lockmode_verify_modes m : m ∈ modes -> lockmode_verify m = true.
Proof. intros H. mode_cases H. Qed.

Lemma mode_index m :
  m ∈ modes -> exists k, 0 <= k < 8 /\ ldlm_mode_to_index m = Ret k /\ m = Z.shiftl 1 k.
Proof.
  intros H. mode_cases H;
    match goal with |- exists k, _ /\ ldlm_mode_to_index ?m = _ /\ _ =>
      exists (Z.log2 m); vm_compute; done end.
Qed.

Lemma test_set_flag f a b : Z.land a b = 0 -> LDLM_TEST_FLAG (LDLM_SET_FLAG f a) b = LDLM_TEST_FLAG f b.
Proof. intros H. unfold LDLM_TEST_FLAG, LDLM_SET_FLAG. by rewrite Z.land_lor_distr_l, H, Z.lor_0_r. Qed.

Lemma test_set_flag_same f k : 0 <= k -> LDLM_TEST_FLAG (LDLM_SET_FLAG f (Z.shiftl 1 k)) (Z.shiftl 1 k) = true.
Proof.
  intros Hk. unfold LDLM_TEST_FLAG, LDLM_SET_FLAG. rewrite Z.shiftl_1_l, land_pow2 by done.
  by rewrite Z.lor_spec, Z.pow2_bits_true, orb_true_r.
Qed.

(** ** What a check leaves alone *)

(** All of a lock but its blocking callback. *)
Definition core (l : ldlm_lock) :=
  (l_req_mode l, l_granted_mode l, l_req_extent l, l_extent l, l_export l,
   l_tree_node l, l_completion_ast l, l_cp_ast l, ldlm_is_destroyed l, ldlm_is_cp_reqd l).

(** A lock that was sent no blocking callback is on no work list; a lock on a work
    list has the lock it blocks, and its callback did not run yet. *)
Definition ast_ok (l : ldlm_lock) : Prop :=
  (ldlm_is_ast_sent l = false -> l_bl_ast l = false /\ l_blocking_lock l = None /\ l_bl_ast_run l = 0)
  /\ (l_bl_ast l = true -> l_blocking_lock l <> None /\ l_bl_ast_run l = 0).
Definition cp_ok (l : ldlm_lock) : Prop := ldlm_is_cp_reqd l = false -> l_cp_ast l = false.

Definition same_lock (l l' : ldlm_lock) : Prop := core l' = core l /\ (ast_ok l -> ast_ok l').

#[export] Instance same_lock_preorder : PreOrder same_lock.
Proof.
  split; [by intros l|]. intros l1 l2 l3 [H1 H2] [H3 H4]. split; [congruence|auto].
Qed.

Record quiet (res res' : ldlm_resource) : Prop := {
  q_itree : lr_itree res' = lr_itree res;
  q_granted : lr_granted res' = lr_granted res;
  q_waiting : lr_waiting res' = lr_waiting res;
  q_locks : forall j, option_Forall2 same_lock (lr_locks res !! j) (lr_locks res' !! j)
}.

#[export] Instance quiet_preorder : PreOrder quiet.
Proof.
  split.
  - intros res. split; [done..|]. intros j. destruct (lr_locks res !! j); by constructor.
  - intros r1 r2 r3 [] []. split; [congruence..|]. intros j.
    specialize (q_locks0 j). specialize (q_locks1 j).
    destruct q_locks0 as [l1 l2 H12|]; inversion q_locks1 as [? l3 H23|]; subst; constructor.
    by etransitivity.
Qed.

Lemma quiet_lookup res res' j l :
  quiet res res' -> lr_locks res !! j = Some l ->
  exists l', lr_locks res' !! j = Some l' /\ same_lock l l'.
Proof. intros [_ _ _ Hq] Hl. specialize (Hq j). rewrite Hl in Hq. inversion Hq; subst. eauto. Qed.

Lemma quiet_lookup_back res res' j l' :
  quiet res res' -> lr_locks res' !! j = Some l' ->
  exists l, lr_locks res !! j = Some l /\ same_lock l l'.
Proof. intros [_ _ _ Hq] Hl. specialize (Hq j). rewrite Hl in Hq. inversion Hq; subst. eauto. Qed.

Lemma quiet_put res j l l' :
  lr_locks res !! j = Some l -> same_lock l l' -> quiet res (put_lock res j l').
Proof.
  intros Hl Hs. split; [done..|]. intros k. unfold put_lock. simpl.
  destruct (decide (k = j)) as [->|Hne].
  - rewrite Hl, lookup_insert_eq. by constructor.
  - rewrite lookup_insert_ne by done. destruct (lr_locks res !! k); by constructor.
Qed.

(** Adding a blocking work item succeeds and is quiet. *)
Definition asts_ok (res : ldlm_resource) : Prop := forall j l, lr_locks res !! j = Some l -> ast_ok l.

Lemma quiet_asts_ok res res' : quiet res res' -> asts_ok res -> asts_ok res'.
Proof. intros Hq Ha j l' Hl. destruct (quiet_lookup_back _ _ _ _ Hq Hl) as (l & Hj & _ & H). eauto. Qed.

(** A work list of blocking callbacks: its locks are linked, and none is there twice. *)
Definition listed (res : ldlm_resource) (wl : list Z) : Prop :=
  NoDup wl /\ Forall (fun j => exists l, lr_locks res !! j = Some l /\ l_bl_ast l = true) wl.

Lemma listed_add res j l l' wl :
  lr_locks res !! j = Some l -> l_bl_ast l = false -> l_bl_ast l' = true ->
  listed res wl -> listed (put_lock res j l') (j :: wl).
Proof.
  intros Hl Hf Ht [Hnd Hall]. rewrite Forall_forall in Hall.
  assert (Hj : j ∉ wl) by (intros (l0 & Hl0 & Hb)%Hall; congruence).
  split; [by constructor|]. apply Forall_forall. intros k [->|Hk]%elem_of_cons.
  - exists l'. split; [apply lookup_insert_eq|done].
  - destruct (Hall k Hk) as (l0 & Hl0 & Hb). exists l0. cbn. rewrite lookup_insert_ne; [done|congruence].
Qed.

Lemma add_bl_spec res j i wl :
  asts_ok res -> is_Some (lr_locks res !! j) -> is_Some (lr_locks res !! i) ->
  exists res' wl', ldlm_add_bl_work_item res j i wl = Ret (res', wl') /\ quiet res res'
    /\ (listed res wl -> listed res' wl').
Proof.
  intros Ha [l Hl] [n Hn]. unfold ldlm_add_bl_work_item, get_lock. rewrite Hl, Hn. cbn [mbind run_bind].
  destruct (ldlm_is_ast_sent l) eqn:Hs; [by eexists _, _|].
  destruct (proj1 (Ha j l Hl) Hs) as (Hbl & -> & Hrun). rewrite Hbl, bool_decide_eq_true_2 by done. cbn [negb LASSERT].
  eexists _, _. split; [done|]. split; [|by eapply listed_add]. eapply quiet_put; [done|]. split.
  - unfold core, ldlm_is_destroyed, ldlm_is_cp_reqd. simpl.
    case_match; by rewrite !test_set_flag by done.
  - intros _. unfold ast_ok, ldlm_is_ast_sent. simpl. split; [|done]. case_match;
      rewrite ?(test_set_flag _ LDLM_FL_DISCARD_DATA) by done;
      by rewrite (test_set_flag_same _ 5).
Qed.

(** ** Checking against granted locks *)

Definition group_ok (res : ldlm_resource) (mode : Z) (group : list Z) : Prop :=
  group <> [] /\ Forall (fun j => exists l, lr_locks res !! j = Some l /\ l_granted_mode l = mode) group.

Lemma quiet_group_ok res res' mode group : quiet res res' -> group_ok res mode group -> group_ok res' mode group.
Proof.
  intros Hq [Hne Hg]. split; [done|]. eapply Forall_impl; [exact Hg|]. simpl. intros j (l & Hl & Hm).
  destruct (quiet_lookup _ _ _ _ Hq Hl) as (l' & Hl' & [Hc _]). exists l'. split; [done|].
  unfold core in Hc. congruence.
Qed.

Definition work_ok (s : compat_state) : Prop := forall wl, cs_work s = Some wl -> listed (cs_res s) wl.

(** A quiet change of the check's state that keeps the flags. *)
Record calm (s s' : compat_state) : Prop := {
  cm_quiet : quiet (cs_res s) (cs_res s');
  cm_flags : cs_flags s' = cs_flags s;
  cm_work : is_Some (cs_work s) -> is_Some (cs_work s');
  cm_list : work_ok s -> work_ok s'
}.

#[export] Instance calm_preorder : PreOrder calm.
Proof.
  split; [intros s; by split|]. intros s1 s2 s3 [] []. split; [by etransitivity|congruence|auto|auto].
Qed.

Lemma add_conflict_spec s j i :
  asts_ok (cs_res s) -> is_Some (cs_work s) ->
  is_Some (lr_locks (cs_res s) !! j) -> is_Some (lr_locks (cs_res s) !! i) ->
  exists s', add_conflict s j i = Ret s' /\ calm s s' /\ cs_compat s' = cs_compat s.
Proof.
  intros Ha [wl Hw] Hj Hi. unfold add_conflict. rewrite Hw. cbn [ldlm_add_ast_work_item].
  destruct (add_bl_spec (cs_res s) j i wl Ha Hj Hi) as (res' & wl' & -> & Hq & Hls). cbn [mbind run_bind].
  eexists. split; [done|]. split; [|done]. split; [done|done|by eexists|].
  intros Hok wl0 [= <-]. auto.
Qed.

Lemma calm_some s s' i : calm s s' -> is_Some (lr_locks (cs_res s) !! i) -> is_Some (lr_locks (cs_res s') !! i).
Proof. intros [Hq _ _ _] [l Hl]. destruct (quiet_lookup _ _ _ _ Hq Hl) as (l' & ? & _). by exists l'. Qed.

Lemma compat_group_spec mode i group count s :
  asts_ok (cs_res s) -> is_Some (cs_work s) -> is_Some (lr_locks (cs_res s) !! i) ->
  Forall (fun j => exists l, lr_locks (cs_res s) !! j = Some l /\ l_granted_mode l = mode) group ->
  exists s' count', compat_group mode i group count s = Ret (s', count')
    /\ calm s s' /\ cs_compat s' = cs_compat s.
Proof.
  revert count s. induction group as [|j group IH]; intros count s Ha Hw Hi Hg; simpl; [by eexists _, _|].
  pose proof Hg as [(l & Hl & Hm) Hg']%Forall_cons.
  unfold get_lock. rewrite Hl. cbn [mbind run_bind]. rewrite Hm, Z.eqb_refl. cbn [LASSERT].
  assert (Hstep : exists s1, (if l_blocking_ast l && negb (mode =? LCK_GROUP) then add_conflict s j i else Ret s)
    = Ret s1 /\ calm s s1 /\ cs_compat s1 = cs_compat s).
  { case_match; [by apply add_conflict_spec|by eexists]. }
  destruct Hstep as (s1 & -> & Hc1 & Hk1). cbn [mbind run_bind].
  destruct (IH (count + 1) s1) as (s' & count' & -> & Hc2 & Hk2).
  - eapply quiet_asts_ok; [apply Hc1|done].
  - by apply Hc1.
  - by eapply calm_some.
  - destruct (decide (group = [])) as [->|Hne]; [done|].
    by destruct (quiet_group_ok _ (cs_res s1) mode group (cm_quiet _ _ Hc1) (conj Hne Hg')).
  - eexists _, _. split; [done|]. split; [by etransitivity|congruence].
Qed.

Lemma compat_node_spec mode i group s :
  asts_ok (cs_res s) -> is_Some (cs_work s) -> is_Some (lr_locks (cs_res s) !! i) ->
  group_ok (cs_res s) mode group ->
  exists s', compat_node mode i group s = Ret s' /\ calm s s' /\ cs_compat s' = 0.
Proof.
  intros Ha Hw Hi Hg. pose proof Hg as [Hne Hf]. unfold compat_node.
  rewrite bool_decide_eq_false_2 by done. cbn [negb LASSERT].
  destruct (compat_group_spec mode i group 0 s) as (s1 & count & -> & Hc & _); try done. cbn [mbind run_bind].
  destruct (quiet_group_ok _ _ _ _ (cm_quiet _ _ Hc) Hg) as [_ Hf1].
  destruct group as [|j group]; [done|]. apply Forall_cons in Hf1 as [(l & Hl & _) _].
  unfold ldlm_interval_extent, get_lock. rewrite Hl. cbn [mbind run_bind].
  eexists. split; [done|]. split; [|done]. transitivity s1; [done|]. case_match; by split.
Qed.

Lemma compat_calls_spec mode i xs s :
  asts_ok (cs_res s) -> is_Some (cs_work s) -> is_Some (lr_locks (cs_res s) !! i) ->
  Forall (fun x => group_ok (cs_res s) mode x.2) xs ->
  exists rc s', run_calls (ldlm_extent_compat_cb mode i) xs INTERVAL_ITER_CONT (Ret s) = (rc, Ret s')
    /\ calm s s' /\ (xs <> [] -> cs_compat s' = 0) /\ (xs = [] -> s' = s).
Proof.
  revert s. induction xs as [|[ext group] xs IH]; intros s Ha Hw Hi Hg; [by eexists _, _|].
  apply Forall_cons in Hg as [Hg1 Hg2]. cbn [run_calls fst snd]. unfold ldlm_extent_compat_cb at 1.
  destruct (compat_node_spec mode i group s) as (s1 & Hrun & Hc1 & Hk1); try done.
  cbn [mbind run_bind]. rewrite Hrun.
  destruct (IH s1) as (rc & s' & -> & Hc2 & Hk2 & Hk3).
  - eapply quiet_asts_ok; [apply Hc1|done].
  - by apply Hc1.
  - by eapply calm_some.
  - eapply Forall_impl; [exact Hg2|]. intros x. apply quiet_group_ok, Hc1.
  - eexists _, _. split; [done|]. split; [by etransitivity|]. split; [|done]. intros _.
    destruct xs as [|x xs]; [by rewrite Hk3|by apply Hk2].
Qed.

(** A change of the check's state that may add [LDLM_FL_NO_TIMEOUT]. *)
Record mild (s s' : compat_state) : Prop := {
  ml_quiet : quiet (cs_res s) (cs_res s');
  ml_block : would_block (cs_flags s') = would_block (cs_flags s);
  ml_deny : LDLM_TEST_FLAG (cs_flags s') LDLM_FL_DENY_ON_CONTENTION
            = LDLM_TEST_FLAG (cs_flags s) LDLM_FL_DENY_ON_CONTENTION;
  ml_work : is_Some (cs_work s) -> is_Some (cs_work s');
  ml_list : work_ok s -> work_ok s'
}.

#[export] Instance mild_preorder : PreOrder mild.
Proof.
  split; [intros s; by split|]. intros s1 s2 s3 [] []. split; [by etransitivity|congruence|congruence|auto|auto].
Qed.

Lemma calm_mild s s' : calm s s' -> mild s s'.
Proof. intros [Hq Hf Hw]. split; [done|by rewrite Hf..|done|done]. Qed.

Lemma set_compat_mild s c : mild s (set_compat s c).
Proof. by split. Qed.

Lemma no_timeout_mild s c :
  mild s (set_compat (set_cflags s (Z.lor (cs_flags s) LDLM_FL_NO_TIMEOUT)) c).
Proof. split; [done|apply (test_set_flag _ LDLM_FL_NO_TIMEOUT); done..|done|done]. Qed.

(** The trees of a resource and the locks in their groups. *)
Definition tree_good (res : ldlm_resource) (t : ldlm_interval_tree) : Prop :=
  index_ok (lit_root t) /\ Forall (fun x => group_ok res (lit_mode t) x.2) (elements (lit_root t)).

Lemma quiet_tree_good res res' t : quiet res res' -> tree_good res t -> tree_good res' t.
Proof.
  intros Hq [Hi Hg]. split; [done|]. eapply Forall_impl; [exact Hg|]. intros x. by apply quiet_group_ok.
Qed.

(** What the check of a tree without a conflict has established. *)
Definition tree_pass (req : ldlm_lock) (t : ldlm_interval_tree) : Prop :=
  lit_root t = Leaf
  \/ lockmode_compat (l_req_mode req) (lit_mode t) = true /\ l_req_mode req <> LCK_GROUP
  \/ lit_mode t <> LCK_GROUP /\ free_of (lit_root t) (start (l_req_extent req)) (end_ (l_req_extent req)).

(** A compatible tree whose first group has the group id of the request. *)
Definition tree_gid (res : ldlm_resource) (req : ldlm_lock) (t : ldlm_interval_tree) : Prop :=
  l_req_mode req = LCK_GROUP /\ lockmode_compat (l_req_mode req) (lit_mode t) = true
  /\ exists e j g l, (e, j :: g) ∈ elements (lit_root t) /\ lr_locks res !! j = Some l
       /\ gid (l_extent l) = gid (l_extent req).

Definition granted_end (req : ldlm_lock) (trees : list ldlm_interval_tree) (s s' : compat_state)
    (e : compat_end) : Prop :=
  match e with
  | CFall => (cs_compat s' = 0 \/ cs_compat s' = 1)
             /\ (cs_compat s' = 1 -> cs_compat s = 1 /\ Forall (tree_pass req) trees)
  | CReturn rc => rc = 0 \/ rc = 2 /\ Exists (tree_gid (cs_res s') req) trees
  | CDestroy => cs_compat s' = - EWOULDBLOCK /\ would_block (cs_flags s) = true
  end.

Lemma hits_nil_free root s e :
  hits (Extent s e) root = [] -> free_of root s e.
Proof.
  intros Hh x Hin. apply not_true_is_false. intros Hov.
  assert (Hx : x ∈ hits (Extent s e) root).
  { apply list_elem_of_filter. split; [done|]. by rewrite preorder_elements. }
  rewrite Hh in Hx. by apply elem_of_nil in Hx.
Qed.

Lemma not_overlapped_free root s e :
  index_ok root -> interval_is_overlapped root (Extent s e) = false -> free_of root s e.
Proof.
  intros [Hwf _] Hno x Hin. apply not_true_is_false. intros Hov.
  apply not_true_iff_false in Hno. apply Hno. apply interval_is_overlapped_spec; [apply Hwf..|].
  by exists x.
Qed.

(** One more tree in front of those a loop has gone through. *)
Lemma granted_end_cons req t trees s s1 s' e :
  granted_end req trees s1 s' e -> mild s s1 ->
  (cs_compat s1 = 1 -> cs_compat s = 1 /\ tree_pass req t) ->
  granted_end req (t :: trees) s s' e.
Proof.
  intros He Hm H1. destruct e as [rc| |]; simpl in *.
  - destruct He as [?|[? ?]]; [by left|right]. split; [done|]. by apply Exists_cons_tl.
  - destruct He as [? Hw]. split; [done|]. by rewrite <-(ml_block _ _ Hm).
  - destruct He as [? Hk]. split; [done|]. intros Hs. destruct (Hk Hs) as [Hs1 Hf].
    destruct (H1 Hs1). split; [done|]. by constructor.
Qed.

Lemma speculative_blocks f : LDLM_TEST_FLAG f LDLM_FL_SPECULATIVE = true -> would_block f = true.
Proof.
  unfold would_block, LDLM_TEST_FLAG. rewrite !negb_true_iff, !Z.eqb_neq, Z.land_lor_distr_r.
  intros H [_ H']%Z.lor_eq_0_iff. done.
Qed.

Lemma root_gid_spec res req t c m e0 group l0 r0 :
  lit_root t = Node c m e0 group l0 r0 ->
  Forall (fun x => group_ok res (lit_mode t) x.2) (elements (lit_root t)) ->
  lockmode_compat (l_req_mode req) (lit_mode t) && negb (l_req_mode req =? LCK_GROUP) = false ->
  exists b : bool, (if lockmode_compat (l_req_mode req) (lit_mode t) then
      extent ← ldlm_interval_extent res group; Ret (gid (l_extent req) =? gid extent)
    else Ret false) = Ret b /\ (b = true -> tree_gid res req t)
    /\ (b = false -> lockmode_compat (l_req_mode req) (lit_mode t) = false
                     \/ l_req_mode req = LCK_GROUP
                        /\ exists j l, member (lit_root t) e0 j /\ lr_locks res !! j = Some l
                                        /\ gid (l_extent l) <> gid (l_extent req)).
Proof.
  intros Hroot Hnodes Hc.
  destruct (lockmode_compat (l_req_mode req) (lit_mode t)) eqn:Hcomp; [|exists false; split_and!; [done|done|auto]].
  assert (Hin : (e0, group) ∈ elements (lit_root t)).
  { rewrite Hroot. simpl. apply elem_of_app. right. by left. }
  rewrite Forall_forall in Hnodes. destruct (Hnodes _ Hin) as [Hne Hgr]. simpl in Hne, Hgr.
  destruct group as [|j group]; [done|]. apply Forall_cons in Hgr as [(l & Hl & _) _].
  unfold ldlm_interval_extent, get_lock. rewrite Hl. cbn [mbind run_bind].
  simpl in Hc. apply negb_false_iff, Z.eqb_eq in Hc.
  eexists. split; [done|]. split; intros Hb%Z.eqb_eq || intros Hb%Z.eqb_neq.
  - split_and!; [done..|]. by exists e0, j, group, l.
  - right. split; [done|]. exists j, l. split_and!; [|done|congruence]. exists (j :: group). by split; [|left].
Qed.

(** The search of a tree for conflicts, and the test of the work list after it. *)
Lemma search_turn_spec i req t s :
  let ex := Extent (start (l_req_extent req)) (end_ (l_req_extent req)) in
  let after s1 := if negb (bool_decide (cs_work s1 = Some [])) && negb (cs_compat s1 =? 0)
                  then set_compat s1 0 else s1 in
  asts_ok (cs_res s) -> is_Some (cs_work s) -> is_Some (lr_locks (cs_res s) !! i) ->
  tree_good (cs_res s) t ->
  exists rc s1, interval_search (lit_root t) ex (ldlm_extent_compat_cb (lit_mode t) i) (Ret s)
      = Some (rc, Ret s1)
    /\ mild s (after s1)
    /\ (cs_compat s = 0 \/ cs_compat s = 1 -> cs_compat (after s1) = 0 \/ cs_compat (after s1) = 1)
    /\ (cs_compat (after s1) = 1 ->
        cs_compat s = 1 /\ free_of (lit_root t) (start (l_req_extent req)) (end_ (l_req_extent req))).
Proof.
  intros ex after Ha Hw Hi [Hix Hnodes]. rewrite interval_search_hits by apply Hix.
  destruct (compat_calls_spec (lit_mode t) i (hits ex (lit_root t)) s)
    as (rc & s1 & -> & Hcm & Hk & Hk0); try done.
  { apply Forall_forall. intros x [_ Hx]%list_elem_of_filter. rewrite preorder_elements in Hx.
    rewrite Forall_forall in Hnodes. by apply Hnodes. }
  exists rc, s1. split; [done|].
  assert (Hs2 : mild s (after s1) /\ (after s1 = s1 \/ cs_compat (after s1) = 0)).
  { unfold after. case_match; (split; [|auto]); [|by apply calm_mild].
    transitivity s1; [by apply calm_mild|apply set_compat_mild]. }
  destruct Hs2 as [Hm2 Hs2]. split; [done|].
  destruct (hits ex (lit_root t)) eqn:Hh.
  - rewrite Hk0 in * by done. split; [destruct Hs2 as [->|]; auto|].
    intros H1. destruct Hs2 as [Hs2|Hs2]; [|congruence]. rewrite Hs2 in H1.
    split; [done|]. by apply hits_nil_free.
  - specialize (Hk ltac:(done)). assert (H0 : cs_compat (after s1) = 0) by (destruct Hs2 as [->|]; done).
    split; [by left|]. rewrite H0. done.
Qed.

Lemma compat_granted_loop_spec i req trees s :
  asts_ok (cs_res s) -> is_Some (lr_locks (cs_res s) !! i) ->
  Forall (tree_good (cs_res s)) trees -> cs_compat s = 0 \/ cs_compat s = 1 ->
  exists s' e, compat_granted_loop i req trees s = Ret (s', e)
    /\ mild s s' /\ granted_end req trees s s' e.
Proof.
  revert s. induction trees as [|t trees IH]; intros s Ha Hi Hg Hcs.
  { exists s, CFall. split_and!; [done|done|]. simpl. split; [done|]. intros ?. split; [done|constructor]. }
  apply Forall_cons in Hg as [[Hix Hnodes] Hg].
  (* the loop goes on in the state [s1] *)
  assert (Hgo : forall s1, mild s s1 -> cs_compat s1 = 0 \/ cs_compat s1 = 1 ->
    (cs_compat s1 = 1 -> cs_compat s = 1 /\ tree_pass req t) ->
    exists s' e, compat_granted_loop i req trees s1 = Ret (s', e)
      /\ mild s s' /\ granted_end req (t :: trees) s s' e).
  { intros s1 Hm Hc1 H1. destruct (IH s1) as (s' & e & -> & Hm' & He); try done.
    - eapply quiet_asts_ok; [apply Hm|done].
    - destruct Hi as [l Hl]. destruct (quiet_lookup _ _ _ _ (ml_quiet _ _ Hm) Hl) as (l' & ? & _). by exists l'.
    - eapply Forall_impl; [exact Hg|]. intros x. apply quiet_tree_good, Hm.
    - exists s', e. split_and!; [done|by etransitivity|]. by eapply granted_end_cons. }
  cbn [compat_granted_loop].
  destruct (lit_root t) as [|c m e0 group l0 r0] eqn:Hroot.
  { apply Hgo; [done|done|]. intros ?. split; [done|by left]. }
  destruct (lockmode_compat (l_req_mode req) (lit_mode t) && negb (l_req_mode req =? LCK_GROUP)) eqn:Hc.
  { apply andb_true_iff in Hc as [Hc1 Hc2%negb_true_iff%Z.eqb_neq].
    apply Hgo; [done|done|]. intros ?. split; [done|]. right; left; done. }
  rewrite <-Hroot in *.
  destruct (root_gid_spec (cs_res s) req t c m e0 group l0 r0 Hroot Hnodes Hc) as (b & -> & Hb & _).
  cbn [mbind run_bind]. destruct b.
  { exists s, (CReturn 2). split_and!; [done|done|]. right. split; [done|]. apply Exists_cons_hd. auto. }
  destruct (lit_mode t =? LCK_GROUP) eqn:Hgm.
  - destruct (would_block (cs_flags s)) eqn:Hwb; [by eexists _, CDestroy|].
    cbn [cs_work set_cflags]. destruct (cs_work s) as [wl|] eqn:Hw.
    + pose proof (no_timeout_mild s 0) as Hm. rewrite interval_iterate_calls.
      destruct (compat_calls_spec (lit_mode t) i (elements (lit_root t))
        (set_compat (set_cflags s (Z.lor (cs_flags s) LDLM_FL_NO_TIMEOUT)) 0)) as (rc & s1 & -> & Hcm & Hk & _);
        try done; try (by exists wl).
      cbn [mbind run_bind snd].
      assert (Hk0 : cs_compat s1 = 0) by (apply Hk; rewrite Hroot; simpl; by destruct (elements l0)).
      apply Hgo; [|by left|congruence]. etransitivity; [exact Hm|by apply calm_mild].
    + eexists _, (CReturn 0). split_and!; [done| |by left].
      transitivity (set_compat (set_cflags s (Z.lor (cs_flags s) LDLM_FL_NO_TIMEOUT)) (cs_compat s));
        [apply no_timeout_mild|by split].
  - apply Z.eqb_neq in Hgm.
    assert (Hpass : free_of (lit_root t) (start (l_req_extent req)) (end_ (l_req_extent req)) -> tree_pass req t)
      by (intros ?; right; right; done).
    destruct (cs_work s) as [wl|] eqn:Hw.
    + destruct (LDLM_TEST_FLAG (cs_flags s) LDLM_FL_SPECULATIVE) eqn:Hspec.
      * destruct (interval_is_overlapped (lit_root t) _) eqn:Hov.
        -- exists (set_compat s (- EWOULDBLOCK)), CDestroy. split_and!; [done|apply set_compat_mild|].
           split; [done|]. by apply speculative_blocks.
        -- apply Hgo; [done|done|]. intros ?. split; [done|]. by apply Hpass, not_overlapped_free.
      * destruct (search_turn_spec i req t s) as (rc & s1 & -> & Hm1 & Hc1 & Hp1); try done; try (by exists wl).
        cbn [mbind run_bind snd]. apply Hgo; [done|by apply Hc1|]. intros H1. destruct (Hp1 H1). auto.
    + destruct (interval_is_overlapped (lit_root t) _) eqn:Hov; [by eexists _, (CReturn 0); split_and!; [done|done|left]|].
      apply Hgo; [done|done|]. intros ?. split; [done|]. by apply Hpass, not_overlapped_free.
Qed.

(** ** Checking against waiting locks *)

Lemma list_add_after_skip o n q : o ∉ q -> list_add_after o n q = q.
Proof.
  induction q as [|j q IH]; [done|]. rewrite not_elem_of_cons. intros [Hne Hn]. simpl.
  rewrite (proj2 (Z.eqb_neq j o)) by congruence. by rewrite IH.
Qed.

Lemma list_add_after_split o n xs ys :
  o ∉ xs -> list_add_after o n (xs ++ o :: ys) = xs ++ o :: n :: ys.
Proof.
  induction xs as [|j xs IH]; simpl; [by rewrite Z.eqb_refl|]. rewrite not_elem_of_cons. intros [Hne Hn].
  rewrite (proj2 (Z.eqb_neq j o)) by congruence. by rewrite IH.
Qed.

Lemma on_resource_false res i :
  on_resource res i = false <-> (i ∉ lr_granted res) /\ (i ∉ lr_waiting res).
Proof. unfold on_resource. by rewrite orb_false_iff, !bool_decide_eq_false. Qed.

Lemma set_lists_same res q : set_waiting (set_granted res (lr_granted res)) q = set_waiting res q.
Proof. by destruct res. Qed.

Lemma insert_after_spec res j i l xs ys :
  lr_locks res !! i = Some l -> ldlm_is_destroyed l = false -> on_resource res i = false ->
  (j ∉ lr_granted res) -> lr_waiting res = xs ++ j :: ys -> (j ∉ xs) ->
  ldlm_resource_insert_lock_after res j i = Ret (set_waiting res (xs ++ j :: i :: ys)).
Proof.
  intros Hl Hd Hon Hj Hw Hxs. unfold ldlm_resource_insert_lock_after, get_lock. rewrite Hl.
  cbn [mbind run_bind]. rewrite Hd, Hon. cbn [negb LASSERT].
  by rewrite list_add_after_skip, set_lists_same, Hw, list_add_after_split.
Qed.

Lemma insert_before_spec res j i l lj xs ys :
  lr_locks res !! i = Some l -> ldlm_is_destroyed l = false -> on_resource res i = false ->
  lr_locks res !! j = Some lj -> ldlm_is_destroyed lj = false ->
  (j ∉ lr_granted res) -> lr_waiting res = xs ++ j :: ys -> NoDup (lr_waiting res) ->
  insert_before res j i = Ret (set_waiting res (xs ++ i :: j :: ys)).
Proof.
  intros Hl Hd Hon Hlj Hdj Hj Hw Hnd. pose proof Hon as [Hig Hiw]%on_resource_false.
  rewrite Hw in Hnd, Hiw. apply list.NoDup_app in Hnd as (Hnx & Hdis & [Hjy Hny]%NoDup_cons).
  assert (Hjx : j ∉ xs) by (intros Hx; apply (Hdis j Hx); by left).
  rewrite not_elem_of_app, not_elem_of_cons in Hiw. destruct Hiw as (Hix & Hij & Hiy).
  unfold insert_before. rewrite (insert_after_spec res j i l xs ys) by done. cbn [mbind run_bind].
  assert (Hdel : list_del_res_link (set_waiting res (xs ++ j :: i :: ys)) j = set_waiting res (xs ++ i :: ys)).
  { unfold list_del_res_link. cbn [lr_granted lr_waiting set_waiting]. rewrite filter_ne_id by done.
    rewrite filter_ne_middle; [by destruct res|]. apply list.NoDup_app. split_and!; [done| |].
    - intros x Hx [->|[->|Hy]%elem_of_cons]%elem_of_cons; [done|done|]. apply (Hdis x Hx). by right.
    - rewrite !NoDup_cons, not_elem_of_cons. auto. }
  rewrite Hdel. rewrite (insert_after_spec _ i j lj xs ys); try done.
  apply on_resource_false. cbn [lr_granted lr_waiting set_waiting].
  rewrite not_elem_of_app, not_elem_of_cons. auto.
Qed.

(** The request is put somewhere on the waiting list, or the lists stay. *)
Definition inserted (i : Z) (res res' : ldlm_resource) : Prop :=
  res' = res \/ on_resource res i = false /\ exists xs ys, lr_waiting res = xs ++ ys
                 /\ res' = set_waiting res (xs ++ i :: ys).

(** A lock that waits: not granted, not destroyed. *)
Definition waits (res : ldlm_resource) (j : Z) : Prop :=
  (j ∉ lr_granted res)
  /\ exists l, lr_locks res !! j = Some l /\ ldlm_is_destroyed l = false
       /\ l_granted_mode l <> l_req_mode l.

Lemma quiet_waits res res' j : quiet res res' -> waits res j -> waits res' j.
Proof.
  intros Hq (Hg & l & Hl & Hd & Hm). destruct (quiet_lookup _ _ _ _ Hq Hl) as (l' & Hl' & [Hc _]).
  split; [by rewrite (q_granted _ _ Hq)|]. exists l'. unfold core in Hc. split_and!; [done|congruence..].
Qed.

Record queue_ok (res : ldlm_resource) : Prop := {
  qk_nodup : NoDup (lr_waiting res);
  qk_waits : Forall (waits res) (lr_waiting res)
}.

Lemma quiet_queue_ok res res' : quiet res res' -> queue_ok res -> queue_ok res'.
Proof.
  intros Hq [Hn Hw]. split; rewrite (q_waiting _ _ Hq); [done|].
  eapply Forall_impl; [exact Hw|]. intros j. by apply quiet_waits.
Qed.

(** A GROUP request may have to be inserted: it is on no list yet. *)
Definition insertable (res : ldlm_resource) (i : Z) : Prop :=
  on_resource res i = false
  /\ exists l, lr_locks res !! i = Some l /\ ldlm_is_destroyed l = false.

Lemma quiet_insertable res res' i : quiet res res' -> insertable res i -> insertable res' i.
Proof.
  intros Hq (Hon & l & Hl & Hd). destruct (quiet_lookup _ _ _ _ Hq Hl) as (l' & Hl' & [Hc _]). split.
  - rewrite on_resource_false in *. by rewrite (q_granted _ _ Hq), (q_waiting _ _ Hq).
  - exists l'. unfold core in Hc. split; [done|congruence].
Qed.

Lemma insert_after_ok res i j xs ys :
  insertable res i -> queue_ok res -> lr_waiting res = xs ++ j :: ys ->
  exists res', ldlm_resource_insert_lock_after res j i = Ret res' /\ inserted i res res'.
Proof.
  intros (Hon & l & Hl & Hd) [Hn Hw] Hq. rewrite Hq in Hn, Hw.
  apply Forall_app in Hw as [_ [(Hj & _) _]%Forall_cons].
  apply list.NoDup_app in Hn as (_ & Hdis & _).
  eexists. split; [eapply insert_after_spec; try done|].
  { intros Hx. apply (Hdis j Hx). by left. }
  right. split; [done|]. exists (xs ++ [j]), ys. by rewrite Hq, <-!app_assoc.
Qed.

Lemma insert_before_ok res i j xs ys :
  insertable res i -> queue_ok res -> lr_waiting res = xs ++ j :: ys ->
  exists res', insert_before res j i = Ret res' /\ inserted i res res'.
Proof.
  intros (Hon & l & Hl & Hd) [Hn Hw] Hq. pose proof Hw as Hw'. rewrite Hq in Hw'.
  apply Forall_app in Hw' as [_ [(Hj & lj & Hlj & Hdj & _) _]%Forall_cons].
  eexists. split; [by eapply insert_before_spec|].
  right. split; [done|]. by exists xs, (j :: ys).
Qed.

(** The state after the waiting queue: a mild change, then perhaps the insertion. *)
Definition waited (i : Z) (s s' : compat_state) : Prop :=
  exists s1, mild s s1 /\ cs_flags s' = cs_flags s1 /\ cs_work s' = cs_work s1
    /\ inserted i (cs_res s1) (cs_res s').

Definition waiting_end (s s' : compat_state) (e : compat_end) : Prop :=
  match e with
  | CFall => cs_compat s' = 0 \/ cs_compat s' = 1
  | CReturn rc => rc = 0 \/ rc = 1
  | CDestroy => cs_compat s' = - EWOULDBLOCK /\ would_block (cs_flags s) = true
  end.

Lemma waited_refl i s s' : mild s s' -> waited i s s'.
Proof. intros H. exists s'. split_and!; [done|done|done|by left]. Qed.

Lemma waited_trans i s s1 s' : mild s s1 -> waited i s1 s' -> waited i s s'.
Proof. intros H (s2 & H2 & ?). exists s2. split; [by etransitivity|done]. Qed.

Lemma waited_insert i s c res' : inserted i (cs_res s) res' -> waited i s (set_compat (set_res s res') c).
Proof. intros H. exists s. by split_and!. Qed.

Lemma listed_same res res' wl : lr_locks res' = lr_locks res -> listed res wl -> listed res' wl.
Proof. unfold listed. by intros ->. Qed.

Lemma waited_work i s s' : waited i s s' -> work_ok s -> work_ok s'.
Proof.
  intros (s1 & Hm & _ & Hw & Hi) Hok wl. rewrite Hw. intros Hs%(ml_list _ _ Hm Hok).
  eapply listed_same; [|exact Hs]. by destruct Hi as [->|(_ & xs & ys & _ & ->)].
Qed.

Lemma waiting_end_trans s s1 s' e : mild s s1 -> waiting_end s1 s' e -> waiting_end s s' e.
Proof. intros H. destruct e; simpl; [done| |done]. by rewrite (ml_block _ _ H). Qed.

Lemma set_res_compat s r : set_res s r = set_compat (set_res s r) (cs_compat s).
Proof. done. Qed.

(** A conflicting waiting lock: the request is refused, or the lock is added to the
    work list and the loop goes on. *)
Lemma conflict_turn i j lock s (false_contention : bool)
    (go : compat_state -> run (compat_state * compat_end)) :
  asts_ok (cs_res s) -> is_Some (lr_locks (cs_res s) !! i) -> is_Some (lr_locks (cs_res s) !! j) ->
  (forall s1, mild s s1 -> cs_compat s1 = 0 \/ cs_compat s1 = 1 ->
    exists s' e, go s1 = Ret (s', e) /\ waited i s s' /\ waiting_end s s' e) ->
  let s0 := if l_req_mode lock =? LCK_GROUP
            then set_cflags s (Z.lor (cs_flags s) LDLM_FL_NO_TIMEOUT) else s in
  exists s' e,
    match cs_work s0 with
    | None => Ret (s0, CReturn 0)
    | Some _ =>
        if LDLM_TEST_FLAG (cs_flags s0) LDLM_FL_SPECULATIVE
        then Ret (set_compat s0 (- EWOULDBLOCK), CDestroy)
        else
          let glimpse := (l_req_mode lock =? LCK_PR) && (start (l_extent lock) =? 0)
                         && (end_ (l_extent lock) =? OBD_OBJECT_EOF) in
          let s1 := set_contended s0 (cs_contended s0 + if false_contention || glimpse then 0 else 1) in
          let s1 := set_compat s1 0 in
          s1 ← (if l_blocking_ast lock && negb (l_req_mode lock =? LCK_GROUP)
                then add_conflict s1 j i else Ret s1);
          go s1
    end = Ret (s', e) /\ waited i s s' /\ waiting_end s s' e.
Proof.
  intros Ha Hi Hj Hgo s0.
  assert (Hm0 : mild s s0 /\ cs_res s0 = cs_res s).
  { unfold s0. case_match; split; try done. transitivity (set_compat (set_cflags s
      (Z.lor (cs_flags s) LDLM_FL_NO_TIMEOUT)) (cs_compat s)); [apply no_timeout_mild|by split]. }
  destruct Hm0 as [Hm0 Hr0]. clearbody s0. destruct (cs_work s0) as [wl|] eqn:Hw.
  2: { eexists _, _. split_and!; [done|by apply waited_refl|by left]. }
  destruct (LDLM_TEST_FLAG (cs_flags s0) LDLM_FL_SPECULATIVE) eqn:Hspec.
  { eexists _, _. split_and!; [done| |split; [done|]].
    - apply waited_refl. transitivity s0; [done|apply set_compat_mild].
    - rewrite <-(ml_block _ _ Hm0). by apply speculative_blocks. }
  cbv zeta.
  match goal with |- context [set_compat (set_contended s0 ?n) 0] =>
    set (s1 := set_compat (set_contended s0 n) 0) end.
  assert (Hm1 : mild s s1) by (transitivity s0; [done|by split]).
  assert (Hr1 : cs_res s1 = cs_res s) by exact Hr0.
  assert (Hstep : exists s2, (if l_blocking_ast lock && negb (l_req_mode lock =? LCK_GROUP)
    then add_conflict s1 j i else Ret s1) = Ret s2 /\ calm s1 s2 /\ cs_compat s2 = 0).
  { case_match; [|by eexists].
    destruct (add_conflict_spec s1 j i) as (s2 & -> & ? & ?); [by rewrite Hr1|by exists wl|by rewrite Hr1..|].
    by eexists. }
  destruct Hstep as (s2 & -> & Hc2 & Hk2). cbn [mbind run_bind].
  apply Hgo; [|by left]. transitivity s1; [done|by apply calm_mild].
Qed.

(** The request is put behind, or in front of, [j]. *)
Lemma insert_after_turn i j xs queue s c e :
  queue_ok (cs_res s) -> lr_waiting (cs_res s) = xs ++ j :: queue -> insertable (cs_res s) i ->
  waiting_end s (set_compat s c) e ->
  exists s' e', (res ← ldlm_resource_insert_lock_after (cs_res s) j i;
                 Ret (set_compat (set_res s res) c, e)) = Ret (s', e')
    /\ waited i s s' /\ waiting_end s s' e'.
Proof.
  intros Hq Hw Hins He. destruct (insert_after_ok (cs_res s) i j xs queue) as (r & -> & Hr); auto.
  eexists _, _. split_and!; [done|by apply waited_insert|done].
Qed.

Lemma insert_before_turn i j xs queue s :
  queue_ok (cs_res s) -> lr_waiting (cs_res s) = xs ++ j :: queue -> insertable (cs_res s) i ->
  exists s' e', (res ← insert_before (cs_res s) j i; Ret (set_compat (set_res s res) 0, CFall)) = Ret (s', e')
    /\ waited i s s' /\ waiting_end s s' e'.
Proof.
  intros Hq Hw Hins. destruct (insert_before_ok (cs_res s) i j xs queue) as (r & -> & Hr); auto.
  eexists _, _. split_and!; [done|by apply waited_insert|by left].
Qed.

Lemma compat_waiting_loop_spec i req queue scan xs s :
  asts_ok (cs_res s) -> is_Some (lr_locks (cs_res s) !! i) -> queue_ok (cs_res s) ->
  lr_waiting (cs_res s) = xs ++ queue ->
  (l_req_mode req = LCK_GROUP -> insertable (cs_res s) i) \/ head queue = Some i ->
  (scan = true -> l_req_mode req = LCK_GROUP) -> cs_compat s = 0 \/ cs_compat s = 1 ->
  exists s' e, compat_waiting_loop i req queue scan s = Ret (s', e)
    /\ waited i s s' /\ waiting_end s s' e.
Proof.
  revert xs scan s. induction queue as [|j queue IH]; intros xs scan s Ha Hi Hq Hw Hins Hscan Hc.
  { exists s, CFall. split_and!; [done|by apply waited_refl|done]. }
  (* the loop goes on in the state [s1] *)
  assert (Hgo : forall scan' s1, j <> i -> mild s s1 -> cs_compat s1 = 0 \/ cs_compat s1 = 1 ->
    (scan' = true -> l_req_mode req = LCK_GROUP) ->
    exists s' e, compat_waiting_loop i req queue scan' s1 = Ret (s', e) /\ waited i s s' /\ waiting_end s s' e).
  { intros scan' s1 Hne Hm Hc1 Hs1.
    destruct (IH (xs ++ [j]) scan' s1) as (s' & e & -> & Hwt & He); try done.
    - eapply quiet_asts_ok; [apply Hm|done].
    - destruct Hi as [l Hl]. destruct (quiet_lookup _ _ _ _ (ml_quiet _ _ Hm) Hl) as (l' & ? & _). by exists l'.
    - eapply quiet_queue_ok; [apply Hm|done].
    - rewrite (q_waiting _ _ (ml_quiet _ _ Hm)), Hw. by rewrite <-app_assoc.
    - left. intros Hg. destruct Hins as [Hins|[= ->]]; [|done]. eapply quiet_insertable; [apply Hm|auto].
    - exists s', e. split_and!; [done|by eapply waited_trans|by eapply waiting_end_trans]. }
  assert (Hwj : waits (cs_res s) j).
  { pose proof (qk_waits _ Hq) as Hf. rewrite Hw in Hf. by apply Forall_app in Hf as [_ [? _]%Forall_cons]. }
  destruct Hwj as (_ & lock & Hl & Hd & Hm). cbn [compat_waiting_loop]. unfold get_lock. rewrite Hl.
  cbn [mbind run_bind]. destruct (Z.eqb_spec j i) as [->|Hne].
  { exists s, CFall. split_and!; [done|by apply waited_refl|done]. }
  destruct Hins as [Hins|[= ->]]; [|done].
  pose proof (fun c e Hg => insert_after_turn i j xs queue s c e Hq Hw (Hins Hg)) as Haft.
  pose proof (fun Hg => insert_before_turn i j xs queue s Hq Hw (Hins Hg)) as Hbef.
  destruct scan.
  { specialize (Hscan eq_refl). destruct (negb (l_req_mode lock =? LCK_GROUP)); [by apply Hbef|].
    destruct (gid (l_extent req) =? gid (l_extent lock)); [by apply (Haft 0 CFall); [|left]|by apply Hgo]. }
  case_match; [eexists _, _; split_and!; [done|by apply waited_refl|done]|].
  destruct (lockmode_compat (l_req_mode lock) (l_req_mode req) && negb (l_req_mode req =? LCK_GROUP)) eqn:Hcg;
    [by apply Hgo|].
  destruct (lockmode_compat (l_req_mode lock) (l_req_mode req) && (gid (l_extent req) =? gid (l_extent lock))) eqn:Hsame.
  { apply andb_true_iff in Hsame as [Hcomp _]. rewrite Hcomp in Hcg. simpl in Hcg.
    apply negb_false_iff, Z.eqb_eq in Hcg. rewrite (proj2 (Z.eqb_neq _ _)) by congruence.
    destruct (would_block (cs_flags s)) eqn:Hwb; [by eexists _, CDestroy; split_and!; [|apply waited_refl|]|].
    exact (Haft (cs_compat s) (CReturn 0) Hcg (or_introl eq_refl)). }
  destruct ((l_req_mode req =? LCK_GROUP) && negb (l_req_mode lock =? l_granted_mode lock)) eqn:Hgr.
  { apply andb_true_iff in Hgr as [Hgr%Z.eqb_eq _].
    destruct (negb (l_req_mode lock =? LCK_GROUP)); [exact (Hbef Hgr)|].
    destruct (gid (l_extent req) =? gid (l_extent lock)); [exact (Haft 0 CFall Hgr (or_introl eq_refl))|].
    apply Hgo; [done|apply set_compat_mild|by left|done]. }
  destruct ((l_req_mode lock =? LCK_GROUP) && would_block (cs_flags s)) eqn:Hwb.
  { apply andb_true_iff in Hwb as [_ Hwb]. by eexists _, CDestroy; split_and!; [|apply waited_refl|]. }
  case_match; [by apply Hgo|].
  apply (conflict_turn i j lock s _ (compat_waiting_loop i req queue false)); try done.
  intros s1 Hm1 Hc1. by apply Hgo.
Qed.

(** ** A group request that is on the list already *)

(** In front of the waiting group request waits a lock that is not for a group, or one for
    the same group; there the code puts a group request. *)
Definition in_front (res : ldlm_resource) (i : Z) (req : ldlm_lock) (queue : list Z) : Prop :=
  exists xs j ys lj, queue = xs ++ j :: ys /\ (i ∈ ys) /\ lr_locks res !! j = Some lj
    /\ (l_req_mode lj <> LCK_GROUP \/ gid (l_extent lj) = gid (l_extent req)).

Lemma in_front_cons res i req j lj queue :
  lr_locks res !! j = Some lj -> l_req_mode lj = LCK_GROUP -> gid (l_extent lj) <> gid (l_extent req) ->
  in_front res i req (j :: queue) <-> in_front res i req queue.
Proof.
  intros Hj Hm Hg. split.
  - intros (xs & k & ys & lk & Hq & Hi & Hk & Hbad). destruct xs as [|x xs]; injection Hq as -> ->.
    + assert (lk = lj) as -> by congruence. tauto.
    + by exists xs, k, ys, lk.
  - intros (xs & k & ys & lk & -> & K). by exists (j :: xs), k, ys, lk.
Qed.

Lemma insert_again_lbug res j i l :
  lr_locks res !! i = Some l -> ldlm_is_destroyed l = false -> on_resource res i = true ->
  ldlm_resource_insert_lock_after res j i = LBUG.
Proof.
  intros Hl Hd Hon. unfold ldlm_resource_insert_lock_after, get_lock. rewrite Hl. cbn [mbind run_bind].
  by rewrite Hd, Hon.
Qed.

Definition refused_turn (s : compat_state) (x : run (compat_state * compat_end)) : Prop :=
  exists s', x = Ret (s', CDestroy) /\ mild s s' /\ cs_compat s' = - EWOULDBLOCK
             /\ would_block (cs_flags s) = true.

(** The loop inserts the request a second time, which the code asserts not to do, just when
    there is such a lock; a request that does not wait may be refused there. *)
Lemma group_loop_spec i req queue l scan s :
  l_req_mode req = LCK_GROUP -> lr_locks (cs_res s) !! i = Some l -> ldlm_is_destroyed l = false ->
  on_resource (cs_res s) i = true -> Forall (waits (cs_res s)) queue -> NoDup queue -> i ∈ queue ->
  let x := compat_waiting_loop i req queue scan s in
  (in_front (cs_res s) i req queue /\ (x = LBUG \/ refused_turn s x))
  \/ (~ in_front (cs_res s) i req queue
      /\ exists s', x = Ret (s', CFall) /\ mild s s' /\ (cs_compat s' = cs_compat s \/ cs_compat s' = 0)).
Proof.
  intros Hg Hl Hd Hon. revert scan s Hl Hon. induction queue as [|j queue IH]; intros scan s Hl Hon Hw Hnd Hi;
    [by apply elem_of_nil in Hi|].
  apply Forall_cons in Hw as [(_ & lock & Hlj & _ & Hm) Hw]. apply NoDup_cons in Hnd as [Hj Hnd].
  cbn [compat_waiting_loop]. unfold get_lock. rewrite Hlj. cbn [mbind run_bind].
  destruct (Z.eqb_spec j i) as [->|Hne].
  { right. split; [|by exists s; split_and!; [| |left]]. intros (xs & k & ys & lk & Hq & Hik & _).
    destruct xs as [|x xs]; injection Hq as -> ->; [done|]. apply Hj, elem_of_app. right. by right. }
  apply elem_of_cons in Hi as [->|Hi]; [done|].
  assert (Hbad : forall x, l_req_mode lock <> LCK_GROUP \/ gid (l_extent lock) = gid (l_extent req) ->
    x = LBUG \/ refused_turn s x ->
    (in_front (cs_res s) i req (j :: queue) /\ (x = LBUG \/ refused_turn s x))
    \/ (~ in_front (cs_res s) i req (j :: queue)
        /\ exists s', x = Ret (s', CFall) /\ mild s s' /\ (cs_compat s' = cs_compat s \/ cs_compat s' = 0))).
  { intros x Hb Hx. left. split; [|done]. by exists [], j, queue, lock. }
  assert (Hins : forall r k, cs_res r = cs_res s -> ldlm_resource_insert_lock_after (cs_res r) k i = LBUG)
    by (intros r k ->; by eapply insert_again_lbug).
  unfold insert_before. rewrite !Hins by done. cbn [mbind run_bind]. rewrite Hg.
  change (LCK_GROUP =? LCK_PR) with false. change (LCK_GROUP =? LCK_GROUP) with true.
  rewrite (proj2 (Z.eqb_neq (l_req_mode lock) (l_granted_mode lock))) by congruence. cbn [negb].
  rewrite !andb_false_r. cbn [andb].
  destruct (Z.eqb_spec (l_req_mode lock) LCK_GROUP) as [Em|Em]; cbn [negb].
  2:{ destruct scan; [by apply Hbad; left|]. destruct (_ && _); [|by apply Hbad; left].
      destruct (would_block (cs_flags s)) eqn:Eb; apply Hbad; [by left| |by left|by left].
      right. eexists. split_and!; [done|apply set_compat_mild|done|done]. }
  destruct (Z.eqb_spec (gid (l_extent req)) (gid (l_extent lock))) as [Eg|Eg].
  { destruct scan; [by apply Hbad; [right|left]|]. rewrite andb_true_r.
    destruct (lockmode_compat _ _); [|by apply Hbad; [right|left]].
    destruct (would_block (cs_flags s)) eqn:Eb; apply Hbad; [by right| |by right|by left].
    right. eexists. split_and!; [done|apply set_compat_mild|done|done]. }
  rewrite andb_false_r. rewrite (in_front_cons _ _ _ _ lock) by congruence.
  destruct scan; [by apply IH|].
  destruct (IH true (set_compat s 0) Hl Hon Hw Hnd Hi) as [[Hf [Hx|Hx]]|(Hf & s' & Hx & Hms & Hc)].
  - left. split; [done|by left].
  - left. split; [done|right]. destruct Hx as (s' & -> & Hms & Hc & Hwb). exists s'.
    split_and!; [done| |done|done]. transitivity (set_compat s 0); [apply set_compat_mild|done].
  - right. split; [done|]. exists s'. split_and!; [done| |right; destruct Hc as [->| ->]; done].
    transitivity (set_compat s 0); [apply set_compat_mild|done].
Qed.
