(* ===== verification/LdlmSystem.v ===== *)
(** The invariant of an extent resource and the operations that keep it
    (lustre/ldlm/ldlm_extent.c, ldlm_lock.c, ldlm_resource.c). *)

From stdpp Require Import gmap.
From S2P Require Import Prelude IntervalTree LdlmLock LdlmExtent LdlmIndex LdlmPolicy LdlmSafe.

(** Two granted locks that may be held at the same time. *)
Definition compatible (l1 l2 : ldlm_lock) : Prop :=
  if lockmode_compat (l_req_mode l1) (l_req_mode l2)
  then l_req_mode l1 = LCK_GROUP -> l_req_mode l2 = LCK_GROUP -> gid (l_extent l1) = gid (l_extent l2)
  else ldlm_extent_overlap (l_extent l1) (l_extent l2) = false.

Definition granted (l : ldlm_lock) : Prop :=
  match l_tree_node l with InTree _ => True | _ => False end.

Section System.
Context (PAGE_SIZE : Z).

(** What clients ask for: one of the modes, whole pages of the server; a group lock
    covers the whole object and has a group id, a null lock has none. *)
Record request_ok (l : ldlm_lock) : Prop := {
  rq_mode : l_req_mode l ∈ modes;
  rq_aligned : aligned PAGE_SIZE (start (l_req_extent l)) (end_ (l_req_extent l));
  rq_group : l_req_mode l = LCK_GROUP ->
    start (l_req_extent l) = 0 /\ end_ (l_req_extent l) = OBD_OBJECT_EOF /\ gid (l_extent l) <> 0;
  rq_null : l_req_mode l = LCK_NL -> gid (l_extent l) = 0
}.

Record lock_ok (l : ldlm_lock) : Prop := {
  lk_request : request_ok l;
  lk_start : 0 <= start (l_extent l) <= start (l_req_extent l);
  lk_end : end_ (l_req_extent l) <= end_ (l_extent l) <= U64_MAX;
  lk_own : l_tree_node l = OwnNode -> not_grown l;
  lk_node : match l_tree_node l with
            | InTree e => l_granted_mode l = l_req_mode l
                          /\ e = Extent (start (l_extent l)) (end_ (l_extent l))
            | _ => l_granted_mode l = LCK_MINMODE
            end;
  lk_ast : ast_ok l;
  lk_cp : cp_ok l;
  lk_paged : paged PAGE_SIZE (l_extent l)
}.

Record res_ok (res : ldlm_resource) : Prop := {
  ro_length : length (lr_itree res) = 8%nat;
  ro_trees : forall k t, lr_itree res !! k = Some t ->
    lit_mode t = Z.shiftl 1 (Z.of_nat k) /\ index_ok (lit_root t);
  ro_members : forall k t e j, lr_itree res !! k = Some t ->
    (member (lit_root t) e j <-> exists l, lr_locks res !! j = Some l
       /\ l_tree_node l = InTree e /\ l_granted_mode l = lit_mode t);
  ro_locks : forall j l, lr_locks res !! j = Some l -> lock_ok l;
  ro_granted : forall j, j ∈ lr_granted res -> exists l, lr_locks res !! j = Some l /\ granted l;
  ro_waiting : forall j, j ∈ lr_waiting res -> exists l, lr_locks res !! j = Some l
    /\ l_tree_node l = OwnNode /\ ldlm_is_destroyed l = false;
  ro_nodup : NoDup (lr_waiting res);
  ro_excl : forall i j li lj, lr_locks res !! i = Some li -> lr_locks res !! j = Some lj ->
    i <> j -> granted li -> granted lj -> compatible li lj
}.

Lemma mode_nonzero m : m ∈ modes -> m <> LCK_MINMODE.
Proof. intros H. mode_cases H. Qed.

(** ** Quiet changes *)

Lemma core_inv l l' :
  core l' = core l ->
  l_req_mode l' = l_req_mode l /\ l_granted_mode l' = l_granted_mode l
  /\ l_req_extent l' = l_req_extent l /\ l_extent l' = l_extent l
  /\ l_tree_node l' = l_tree_node l /\ l_cp_ast l' = l_cp_ast l
  /\ ldlm_is_destroyed l' = ldlm_is_destroyed l /\ ldlm_is_cp_reqd l' = ldlm_is_cp_reqd l.
Proof. unfold core. intros [= H1 H2 H3 H4 H5 H6 H7 H8 H9 H10]. by split_and!. Qed.

Lemma same_lock_ok l l' : same_lock l l' -> lock_ok l -> lock_ok l'.
Proof.
  intros [(E1 & E2 & E3 & E4 & E5 & E6 & E7 & E8)%core_inv Ha] [[H1 H2 H3 H4] H5 H6 H7 H8 H9 H10].
  split; [split|..]; unfold not_grown, cp_ok in *; rewrite ?E1, ?E2, ?E3, ?E4, ?E5, ?E6, ?E8; auto.
Qed.

Lemma same_lock_granted l l' : same_lock l l' -> granted l' <-> granted l.
Proof. intros [(_ & _ & _ & _ & E & _)%core_inv _]. unfold granted. by rewrite E. Qed.

Lemma same_lock_compatible l1 l1' l2 l2' :
  same_lock l1 l1' -> same_lock l2 l2' -> compatible l1 l2 -> compatible l1' l2'.
Proof.
  intros [(E1 & _ & _ & E2 & _)%core_inv _] [(F1 & _ & _ & F2 & _)%core_inv _].
  unfold compatible. by rewrite E1, E2, F1, F2.
Qed.

Lemma quiet_res_ok res res' : quiet res res' -> res_ok res -> res_ok res'.
Proof.
  intros Hq [H1 H2 H3 H4 H5 H6 H7 H8]. split.
  - by rewrite (q_itree _ _ Hq).
  - by rewrite (q_itree _ _ Hq).
  - intros k t e j. rewrite (q_itree _ _ Hq). intros Ht. rewrite (H3 k t e j Ht). split.
    + intros (l & Hl & He & Hm). destruct (quiet_lookup _ _ _ _ Hq Hl) as (l' & Hl' & [Hc _]).
      apply core_inv in Hc as (_ & E2 & _ & _ & E5 & _). exists l'. by rewrite E2, E5.
    + intros (l' & Hl' & He & Hm). destruct (quiet_lookup_back _ _ _ _ Hq Hl') as (l & Hl & [Hc _]).
      apply core_inv in Hc as (_ & E2 & _ & _ & E5 & _). exists l. by rewrite <-E2, <-E5.
  - intros j l' Hl'. destruct (quiet_lookup_back _ _ _ _ Hq Hl') as (l & Hl & Hs).
    eapply same_lock_ok; eauto.
  - intros j. rewrite (q_granted _ _ Hq). intros (l & Hl & Hg)%H5.
    destruct (quiet_lookup _ _ _ _ Hq Hl) as (l' & Hl' & Hs). exists l'. split; [done|].
    by apply (same_lock_granted l).
  - intros j. rewrite (q_waiting _ _ Hq). intros (l & Hl & Hn & Hd)%H6.
    destruct (quiet_lookup _ _ _ _ Hq Hl) as (l' & Hl' & [Hc _]).
    apply core_inv in Hc as (_ & _ & _ & _ & E5 & _ & E7 & _). exists l'. by rewrite E5, E7.
  - by rewrite (q_waiting _ _ Hq).
  - intros i j li' lj' Hi Hj Hne Hgi Hgj.
    destruct (quiet_lookup_back _ _ _ _ Hq Hi) as (li & Hli & Hsi).
    destruct (quiet_lookup_back _ _ _ _ Hq Hj) as (lj & Hlj & Hsj).
    eapply same_lock_compatible; [exact Hsi|exact Hsj|]. apply (H8 i j); try done.
    + by apply (same_lock_granted _ li').
    + by apply (same_lock_granted _ lj').
Qed.

(** ** What the invariant gives to the operations *)

Lemma res_ok_asts res : res_ok res -> asts_ok res.
Proof. intros H j l Hl. by apply (ro_locks _ H j l). Qed.

Lemma res_ok_not_granted res j l :
  res_ok res -> lr_locks res !! j = Some l -> ~ granted l ->
  (j ∉ lr_granted res) /\ l_granted_mode l <> l_req_mode l.
Proof.
  intros H Hl Hn. split.
  - intros Hj. destruct (ro_granted _ H j Hj) as (l' & Hl' & Hg). congruence.
  - pose proof (ro_locks _ H _ _ Hl) as [[Hm _ _ _] _ _ _ Hnode _ _]. apply mode_nonzero in Hm.
    unfold granted in Hn. destruct (l_tree_node l); [congruence..|done].
Qed.

Lemma res_ok_queue res : res_ok res -> queue_ok res.
Proof.
  intros H. split; [apply H|]. apply Forall_forall. intros j Hj.
  destruct (ro_waiting _ H j Hj) as (l & Hl & Hn & Hd).
  destruct (res_ok_not_granted res j l) as [Hg Hm]; try done.
  { unfold granted. rewrite Hn. tauto. }
  split; [done|]. by exists l.
Qed.

Lemma res_ok_waiting res : res_ok res -> waiting_ok res (lr_waiting res).
Proof.
  intros H. apply Forall_forall. intros j Hj. destruct (ro_waiting _ H j Hj) as (l & Hl & Hn & _).
  exists l. split; [done|]. by apply (ro_locks _ H _ _ Hl).
Qed.

Lemma res_ok_trees res : res_ok res -> Forall (tree_good res) (lr_itree res).
Proof.
  intros H. apply Forall_lookup. intros k t Ht. destruct (ro_trees _ H k t Ht) as [_ Hix].
  split; [done|]. apply Forall_forall. intros [e g] Hin.
  pose proof (ix_nodes _ Hix) as Hn. rewrite Forall_forall in Hn. destruct (Hn _ Hin) as (Hne & _ & _).
  split; [done|]. apply Forall_forall. intros j Hj. simpl in Hj.
  destruct (proj1 (ro_members _ H k t e j Ht)) as (l & Hl & _ & Hm); [by exists g|]. by exists l.
Qed.

Lemma res_ok_index res : res_ok res -> trees_ok (lr_itree res).
Proof. intros H. eapply Forall_impl; [by apply res_ok_trees|]. by intros t [? _]. Qed.

(** A granted lock is in the tree of its mode. *)
Lemma granted_in_tree res j l :
  res_ok res -> lr_locks res !! j = Some l -> granted l ->
  exists t, t ∈ lr_itree res /\ lit_mode t = l_req_mode l
    /\ member (lit_root t) (Extent (start (l_extent l)) (end_ (l_extent l))) j.
Proof.
  intros H Hl Hg. pose proof (ro_locks _ H _ _ Hl) as [[Hm _ _ _] _ _ _ Hnode _ _].
  unfold granted in Hg. destruct (l_tree_node l) as [| |e] eqn:Hn; try done. destruct Hnode as [Hgm ->].
  destruct (mode_index _ Hm) as (k & Hk & _ & Hmk).
  destruct (lookup_lt_is_Some_2 (lr_itree res) (Z.to_nat k)) as [t Ht]; [rewrite (ro_length _ H); lia|].
  destruct (ro_trees _ H _ _ Ht) as [Hlit _]. rewrite Z2Nat.id in Hlit by lia.
  exists t. split; [by eapply list_elem_of_lookup_2|]. split; [congruence|].
  apply (ro_members _ H _ _ _ _ Ht). exists l. split_and!; [done|done|congruence].
Qed.

(** A lock in a tree is granted in the mode of the tree. *)
Lemma in_tree_granted res t e j :
  res_ok res -> t ∈ lr_itree res -> member (lit_root t) e j ->
  exists l, lr_locks res !! j = Some l /\ granted l /\ l_req_mode l = lit_mode t
    /\ e = Extent (start (l_extent l)) (end_ (l_extent l)).
Proof.
  intros H [k Ht]%list_elem_of_lookup_1 Hmem. apply (ro_members _ H _ _ _ _ Ht) in Hmem as (l & Hl & Hn & Hm).
  pose proof (ro_locks _ H _ _ Hl) as [_ _ _ _ Hnode _ _]. rewrite Hn in Hnode. destruct Hnode as [Hg ->].
  exists l. split_and!; [done| |congruence|done]. unfold granted. by rewrite Hn.
Qed.

(** ** The queues *)

Lemma set_contention_quiet res t : quiet res (set_contention_time res t).
Proof. split; [done..|]. intros j. simpl. destruct (lr_locks res !! j); by constructor. Qed.

Lemma check_contention_quiet ns now res n :
  quiet res (ldlm_check_contention ns now res n).2.
Proof. unfold ldlm_check_contention. simpl. case_match; [apply set_contention_quiet|done]. Qed.

Lemma check_contention_locks ns now res n : lr_locks (ldlm_check_contention ns now res n).2 = lr_locks res.
Proof. unfold ldlm_check_contention. simpl. by case_match. Qed.

(** Taking a lock off the lists keeps the invariant. *)
Lemma list_del_ok res i : res_ok res -> res_ok (list_del_res_link res i).
Proof.
  intros [H1 H2 H3 H4 H5 H6 H7 H8]. unfold list_del_res_link. split; simpl; try done.
  - intros j [_ Hj]%list_elem_of_filter. auto.
  - intros j [_ Hj]%list_elem_of_filter. auto.
  - by apply NoDup_filter.
Qed.

Lemma list_del_off res i : on_resource (list_del_res_link res i) i = false.
Proof.
  apply on_resource_false. simpl. by split; intros [? _]%list_elem_of_filter.
Qed.

(** A change of one lock that is on no list and in no tree. *)
Lemma put_loose_ok res i l l' :
  res_ok res -> lr_locks res !! i = Some l -> ~ granted l -> ~ granted l' -> lock_ok l' ->
  on_resource res i = false -> res_ok (put_lock res i l').
Proof.
  intros [H1 H2 H3 H4 H5 H6 H7 H8] Hl Hg Hg' Hok [Hi1 Hi2]%on_resource_false.
  assert (Hin : forall j (l0 : ldlm_lock), <[i := l']> (lr_locks res) !! j = Some l0 -> granted l0 ->
    j <> i /\ lr_locks res !! j = Some l0).
  { intros j l0 Hj Hg0. destruct (decide (j = i)) as [->|Hne].
    - rewrite lookup_insert_eq in Hj. by injection Hj as <-.
    - by rewrite lookup_insert_ne in Hj. }
  unfold put_lock. split; simpl; try done.
  - intros k t e j Ht. rewrite (H3 k t e j Ht). split; intros (l0 & Hl0 & Hn & Hm).
    + exists l0. split; [|done]. destruct (decide (j = i)) as [->|]; [|by rewrite lookup_insert_ne].
      destruct Hg. assert (l0 = l) as -> by congruence. unfold granted. by rewrite Hn.
    + exists l0. split; [|done]. apply Hin in Hl0 as [_ ?]; [done|]. unfold granted. by rewrite Hn.
  - intros j l0 Hj. destruct (decide (j = i)) as [->|].
    + rewrite lookup_insert_eq in Hj. by injection Hj as <-.
    + rewrite lookup_insert_ne in Hj by done. eauto.
  - intros j Hj. destruct (H5 j Hj) as (l0 & Hl0 & Hg0). exists l0.
    rewrite lookup_insert_ne by (intros ->; congruence). done.
  - intros j Hj. destruct (H6 j Hj) as (l0 & Hl0 & Hn0). exists l0.
    rewrite lookup_insert_ne by (intros ->; congruence). done.
  - intros j1 j2 l1 l2 Hj1 Hj2 Hne Hg1 Hg2.
    apply Hin in Hj1 as [_ Hj1]; [|done]. apply Hin in Hj2 as [_ Hj2]; [|done]. eauto.
Qed.

Lemma listed_put res i l l' wl :
  lr_locks res !! i = Some l -> l_bl_ast l' = l_bl_ast l -> listed res wl -> listed (put_lock res i l') wl.
Proof.
  intros Hl Hb [Hnd Hall]. split; [done|]. eapply Forall_impl; [exact Hall|]. intros j (l0 & Hj & Hb0).
  destruct (decide (j = i)) as [->|Hne]; [|exists l0; cbn; by rewrite lookup_insert_ne].
  exists l'. split; [apply lookup_insert_eq|congruence].
Qed.

Lemma destroy_flag_ok l :
  lock_ok l -> lock_ok (set_flags l (LDLM_SET_FLAG (l_flags l) LDLM_FL_DESTROYED)).
Proof.
  intros [[R1 R2 R3 R4] H5 H6 H7 H8 H9 H10]. split; [by split|..]; try done.
  - unfold ast_ok, ldlm_is_ast_sent in *. simpl. by rewrite test_set_flag.
  - unfold cp_ok, ldlm_is_cp_reqd in *. simpl. by rewrite test_set_flag.
Qed.

(** The end of a refused request. *)
Lemma destroy_spec res i l :
  res_ok res -> lr_locks res !! i = Some l -> ~ granted l ->
  exists res', ldlm_lock_destroy_nolock (list_del_res_link res i) i = Ret res' /\ res_ok res'
    /\ (forall wl, listed res wl -> listed res' wl) /\ is_Some (lr_locks res' !! i).
Proof.
  intros H Hl Hg. unfold ldlm_lock_destroy_nolock, get_lock. cbn [lr_locks list_del_res_link set_waiting set_granted].
  rewrite Hl. cbn [mbind run_bind]. rewrite list_del_off. cbn [negb LASSERT].
  pose proof (list_del_ok res i H) as Hd. destruct (ldlm_is_destroyed l).
  - eexists. split; [done|]. split; [done|]. split; [done|by exists l].
  - eexists. split; [done|]. split; [|split].
    + eapply put_loose_ok; try done; [|apply list_del_off]. apply destroy_flag_ok, (ro_locks _ H _ _ Hl).
    + intros wl. by apply (listed_put (list_del_res_link res i) _ l).
    + eexists. apply lookup_insert_eq.
Qed.

(** The lock a check is made for: it waits for its grant. *)
Record pending (res : ldlm_resource) (i : Z) (l : ldlm_lock) : Prop := {
  pd_lock : lr_locks res !! i = Some l;
  pd_node : l_tree_node l = OwnNode;
  pd_alive : ldlm_is_destroyed l = false
}.

Lemma pending_not_granted res i l : pending res i l -> ~ granted l.
Proof. intros [_ H _]. unfold granted. rewrite H. tauto. Qed.

Lemma quiet_pending res res' i l :
  quiet res res' -> pending res i l -> exists l', pending res' i l' /\ same_lock l l'.
Proof.
  intros Hq [Hl Hn Hd]. destruct (quiet_lookup _ _ _ _ Hq Hl) as (l' & Hl' & Hs). exists l'.
  split; [|done]. destruct Hs as [(_ & _ & _ & _ & E5 & _ & E7 & _)%core_inv _]. split; congruence.
Qed.

Lemma inserted_ok i res res' l :
  inserted i res res' -> pending res i l -> res_ok res -> res_ok res' /\ pending res' i l.
Proof.
  intros [->|([Hi1 Hi2]%on_resource_false & xs & ys & Hw & ->)] Hp H; [done|]. pose proof Hp as [Hl Hn Hd].
  split; [|by split]. destruct H as [H1 H2 H3 H4 H5 H6 H7 H8]. rewrite Hw in *. split; simpl; try done.
  - intros j. rewrite elem_of_app, elem_of_cons. intros [?|[->|?]]; [| |];
      try (apply H6; rewrite elem_of_app; tauto). by exists l.
  - rewrite <-Permutation_middle. by constructor.
Qed.

(** A refused request: the code is negative, and the flags asked not to wait. *)
Definition refused (i : Z) (s s' : compat_state) (rc : Z) (err : option Z) : Prop :=
  rc < 0 /\ err = Some rc /\ res_ok (cs_res s')
  /\ (would_block (cs_flags s) = true
      \/ LDLM_TEST_FLAG (cs_flags s) LDLM_FL_DENY_ON_CONTENTION = true)
  /\ (work_ok s -> work_ok s') /\ is_Some (lr_locks (cs_res s') !! i).

Lemma queue_end_spec ns now i req s s1 e l :
  res_ok (cs_res s1) -> pending (cs_res s1) i l ->
  LDLM_TEST_FLAG (cs_flags s1) LDLM_FL_DENY_ON_CONTENTION
    = LDLM_TEST_FLAG (cs_flags s) LDLM_FL_DENY_ON_CONTENTION ->
  (e = CDestroy -> cs_compat s1 = - EWOULDBLOCK /\ would_block (cs_flags s) = true) ->
  (work_ok s -> work_ok s1) ->
  exists rc err s', queue_end ns now i req s1 e = Ret (rc, err, s')
    /\ (refused i s s' rc err
        \/ err = None /\ cs_flags s' = cs_flags s1 /\ cs_work s' = cs_work s1
           /\ (e = CReturn rc /\ s' = s1
               \/ e = CFall /\ rc = cs_compat s1
                  /\ cs_res s' = (ldlm_check_contention ns now (cs_res s1) (cs_contended s1)).2)).
Proof.
  intros Hok Hp Hdeny Hdes Hwk. pose proof (pending_not_granted _ _ _ Hp) as Hg. unfold queue_end. destruct e as [rc| |].
  - eexists _, _, _. split; [done|]. right. split_and!; try done. by left.
  - destruct (destroy_spec (cs_res s1) i l Hok (pd_lock _ _ _ Hp) Hg) as (res' & -> & Hok' & Hls & His).
    cbn [mbind run_bind]. destruct (Hdes eq_refl) as [-> Hwb]. eexists _, _, _. split; [done|]. left.
    split_and!; [done|done|done|by left| |done]. intros Hwk0 wl Hwl. apply Hls. by apply Hwk.
  - destruct (ldlm_check_contention ns now (cs_res s1) (cs_contended s1)) as [b res] eqn:Hcc.
    pose proof (check_contention_quiet ns now (cs_res s1) (cs_contended s1)) as Hq. rewrite Hcc in Hq. simpl in Hq.
    destruct (quiet_pending _ _ _ _ Hq Hp) as (l' & Hp' & _). cbn [cs_res set_res cs_compat cs_flags set_compat].
    case_match eqn:Hd.
    + destruct (destroy_spec res i l') as (res' & -> & Hok' & Hls & His);
        [by eapply quiet_res_ok|apply Hp'|by eapply pending_not_granted|].
      cbn [mbind run_bind]. eexists _, _, _. split; [done|]. left.
      apply andb_true_iff in Hd as [Hd _]. apply andb_true_iff in Hd as [Hd _].
      apply andb_true_iff in Hd as [_ Hd]. split_and!; [done|done|done|right; congruence| |done].
      intros Hwk0 wl Hwl. apply Hls. eapply listed_same; [|by apply Hwk].
      change res with (b, res).2. rewrite <-Hcc. apply check_contention_locks.
    + eexists _, _, _. split; [done|]. right. split_and!; try done. by right.
Qed.

Lemma granted_queue_spec ns now i s l :
  res_ok (cs_res s) -> pending (cs_res s) i l ->
  exists rc err s', ldlm_extent_compat_queue ns now Granted i s = Ret (rc, err, s')
    /\ (refused i s s' rc err
        \/ err = None /\ mild s s'
           /\ (rc = 0 \/ rc = 1 /\ Forall (tree_pass l) (lr_itree (cs_res s))
               \/ rc = 2 /\ Exists (tree_gid (cs_res s') l) (lr_itree (cs_res s)))).
Proof.
  intros Hok Hp. pose proof Hp as [Hl Hn Hd]. unfold ldlm_extent_compat_queue, get_lock. rewrite Hl.
  cbn [mbind run_bind]. rewrite lockmode_verify_modes by apply (ro_locks _ Hok _ _ Hl). cbn [LASSERT].
  destruct (compat_granted_loop_spec i l (lr_itree (cs_res s)) (set_compat s 1)) as (s1 & e & Hrun & Hm & He).
  { by apply res_ok_asts. }
  { by exists l. }
  { by apply res_ok_trees. }
  { by right. }
  cbn [cs_res set_compat] in *. rewrite Hrun. cbn [mbind run_bind].
  destruct (quiet_pending _ _ _ _ (ml_quiet _ _ Hm) Hp) as (l1 & Hp1 & _).
  destruct (queue_end_spec ns now i l s s1 e l1) as (rc & err & s' & -> & Hres).
  - eapply quiet_res_ok; [apply Hm|done].
  - done.
  - apply (ml_deny _ _ Hm).
  - intros ->. done.
  - apply (ml_list _ _ Hm).
  - eexists _, _, _. split; [done|]. destruct Hres as [?|(-> & Hf & Hw & Hr)]; [by left|right].
    assert (Hm' : mild s s1) by (transitivity (set_compat s 1); [apply set_compat_mild|done]).
    split; [done|]. destruct Hr as [[-> ->]|(-> & -> & Hcr)].
    + split; [done|]. destruct He as [?|?]; auto.
    + split; [|destruct He as [[?|?] Hk]; [by left|right; left; split; [done|by apply Hk]]].
      split; [|rewrite Hf; apply Hm'..|rewrite Hw; apply Hm'|].
      * rewrite Hcr. transitivity (cs_res s1); [apply Hm'|apply check_contention_quiet].
      * intros Hwk wl Hwl. eapply listed_same; [|apply (ml_list _ _ Hm' Hwk); congruence].
        rewrite Hcr. apply check_contention_locks.
Qed.

Lemma waited_contention ns now i s s1 s' :
  waited i s s1 -> cs_flags s' = cs_flags s1 -> cs_work s' = cs_work s1 ->
  cs_res s' = (ldlm_check_contention ns now (cs_res s1) (cs_contended s1)).2 -> waited i s s'.
Proof.
  intros (s2 & Hm & Hf & Hwk & Hins) Hf' Hwk' Hr. unfold ldlm_check_contention in Hr. cbn [snd] in Hr.
  case_match; [|exists s2; rewrite Hr; split_and!; [done|congruence|congruence|done]].
  exists (set_res s2 (set_contention_time (cs_res s2) now)). split_and!.
  - transitivity s2; [done|]. split; [apply set_contention_quiet|done..].
  - simpl. congruence.
  - simpl. congruence.
  - rewrite Hr. destruct Hins as [->|(Hon & xs & ys & Hw & ->)]; [by left|right].
    split; [done|]. by exists xs, ys.
Qed.

(** A group request waits behind a lock that is not for a group, or one for its group. *)
Definition behind (res : ldlm_resource) (i : Z) (l : ldlm_lock) : Prop :=
  l_req_mode l = LCK_GROUP /\ in_front res i l (lr_waiting res).

Lemma behind_waits res i l : behind res i l -> i ∈ lr_waiting res.
Proof. intros (_ & xs & j & ys & lj & -> & Hi & _). rewrite elem_of_app, elem_of_cons. tauto. Qed.

Lemma pending_waits res i l : res_ok res -> pending res i l -> on_resource res i = true -> i ∈ lr_waiting res.
Proof.
  intros Hok Hp [Hg|Hw]%orb_true_iff; [|by apply bool_decide_eq_true in Hw].
  apply bool_decide_eq_true in Hg. destruct (ro_granted _ Hok i Hg) as (l' & Hl' & Hgr).
  exfalso. apply (pending_not_granted _ _ _ Hp). rewrite (pd_lock _ _ _ Hp) in Hl'. by injection Hl' as ->.
Qed.

(** The loop over the waiting list: an insertion of a lock that is on the list fails. *)
Lemma waiting_loop_spec i l s :
  res_ok (cs_res s) -> pending (cs_res s) i l -> cs_compat s = 1 ->
  let x := compat_waiting_loop i l (lr_waiting (cs_res s)) false s in
  (x = LBUG /\ behind (cs_res s) i l)
  \/ exists s1 e, x = Ret (s1, e) /\ waited i s s1 /\ waiting_end s s1 e.
Proof.
  intros Hok Hp Hc. pose proof Hp as [Hl Hn Hd].
  assert (Hout : (l_req_mode l = LCK_GROUP -> on_resource (cs_res s) i = false) ->
    exists s1 e, compat_waiting_loop i l (lr_waiting (cs_res s)) false s = Ret (s1, e) /\ waited i s s1 /\ waiting_end s s1 e).
  { intros Hoff. apply (compat_waiting_loop_spec i l (lr_waiting (cs_res s)) false []); try done.
    - by apply res_ok_asts.
    - by apply res_ok_queue.
    - left. intros Hg. split; [by apply Hoff|]. by exists l.
    - by right. }
  destruct (decide (l_req_mode l = LCK_GROUP)) as [Hg|Hg]; [|right; by apply Hout].
  destruct (on_resource (cs_res s) i) eqn:Hon; [|right; by apply Hout].
  pose proof (res_ok_queue _ Hok) as [Hnd Hw].
  destruct (group_loop_spec i l (lr_waiting (cs_res s)) l false s) as [[Hf [Hx|Hx]]|(_ & s' & Hx & Hm & Hc')]; try done.
  - by eapply pending_waits.
  - by left.
  - right. destruct Hx as (s' & Hx & Hm & Hc' & Hwb). exists s', CDestroy. split_and!; [done|by apply waited_refl|done].
  - right. exists s', CFall. split_and!; [done|by apply waited_refl|]. unfold waiting_end. destruct Hc'; [right; congruence|by left].
Qed.

Lemma waiting_queue_spec ns now i s l :
  res_ok (cs_res s) -> pending (cs_res s) i l ->
  (ldlm_extent_compat_queue ns now Waiting i s = LBUG /\ behind (cs_res s) i l)
  \/ exists rc err s', ldlm_extent_compat_queue ns now Waiting i s = Ret (rc, err, s')
      /\ (refused i s s' rc err \/ err = None /\ waited i s s' /\ (rc = 0 \/ rc = 1)).
Proof.
  intros Hok Hp. pose proof Hp as [Hl Hn Hd]. unfold ldlm_extent_compat_queue, get_lock. rewrite Hl.
  cbn [mbind run_bind]. rewrite lockmode_verify_modes by apply (ro_locks _ Hok _ _ Hl). cbn [LASSERT].
  destruct (waiting_loop_spec i l (set_compat s 1)) as [[Hrun Hb]|(s1 & e & Hrun & Hwt & He)]; try done;
    cbn [cs_res set_compat] in *; rewrite Hrun; cbn [mbind run_bind]; [by left|right].
  assert (Hwt' : waited i s s1) by (eapply waited_trans; [apply set_compat_mild|done]).
  pose proof Hwt' as (s2 & Hm & Hf & _ & Hi).
  destruct (quiet_pending _ _ _ _ (ml_quiet _ _ Hm) Hp) as (l1 & Hp1 & _).
  destruct (inserted_ok _ _ _ _ Hi Hp1) as [Hok1 Hp1']; [by eapply quiet_res_ok; [apply Hm|]|].
  destruct (queue_end_spec ns now i l s s1 e l1) as (rc & err & s' & -> & Hres); try done.
  - rewrite Hf. apply Hm.
  - intros ->. done.
  - by eapply waited_work.
  - eexists _, _, _. split; [done|]. destruct Hres as [?|(-> & Hf' & Hw & Hr)]; [by left|right].
    split; [done|]. destruct Hr as [[-> ->]|(-> & -> & Hcr)]; [done|].
    split; [by eapply waited_contention|done].
Qed.

(** ** Granting *)

(** No granted lock is in the way of the requested extent. *)
Definition clear_for (res : ldlm_resource) (l : ldlm_lock) : Prop :=
  forall j lj, lr_locks res !! j = Some lj -> granted lj ->
    if lockmode_compat (l_req_mode lj) (l_req_mode l)
    then l_req_mode lj = LCK_GROUP -> l_req_mode l = LCK_GROUP -> gid (l_extent lj) = gid (l_extent l)
    else ldlm_extent_overlap (l_extent lj) (l_req_extent l) = false.

Lemma pass_clear res l :
  res_ok res -> l_req_mode l ∈ modes -> Forall (tree_pass l) (lr_itree res) -> clear_for res l.
Proof.
  intros Hok Hml Hf j lj Hj Hg. destruct (granted_in_tree _ _ _ Hok Hj Hg) as (t & Ht & Hlit & g & Hin & Hjg).
  rewrite Forall_forall in Hf. specialize (Hf t Ht). pose proof (ro_locks _ Hok _ _ Hj) as [[Hmj _ _ _] _ _ _ _ _ _].
  rewrite (lockmode_compat_sym _ _ Hmj Hml). unfold tree_pass in Hf. rewrite Hlit in Hf.
  destruct Hf as [Hleaf|[[Hc Hng]|[Hng Hfree]]].
  - rewrite Hleaf in Hin. by apply elem_of_nil in Hin.
  - rewrite Hc. done.
  - case_match; [done|]. specialize (Hfree _ Hin). unfold extent_overlapped in Hfree.
    unfold ldlm_extent_overlap. simpl in Hfree. lia.
Qed.

Lemma compat_with_group m : m ∈ modes -> lockmode_compat LCK_GROUP m = true -> m = LCK_GROUP \/ m = LCK_NL.
Proof. intros H. mode_cases H; auto. Qed.

Lemma gid_granted res l :
  res_ok res -> request_ok l -> Exists (tree_gid res l) (lr_itree res) ->
  exists j lj, lr_locks res !! j = Some lj /\ granted lj /\ l_req_mode lj = LCK_GROUP
               /\ gid (l_extent lj) = gid (l_extent l).
Proof.
  intros Hok Hrq (t & Ht & Hgroup & Hcomp & e & j0 & g & l0 & Hin & Hl0 & Hgid)%Exists_exists.
  destruct (in_tree_granted res t e j0) as (l0' & Hl0' & Hg0 & Hm0 & _); try done.
  { exists (j0 :: g). split; [done|by left]. }
  assert (l0' = l0) as -> by congruence. pose proof (ro_locks _ Hok _ _ Hl0) as [[Hmode _ _ Hnl0] _ _ _ _ _ _].
  destruct (rq_group _ Hrq Hgroup) as (_ & _ & Hnz). rewrite Hgroup, <-Hm0 in Hcomp. exists j0, l0. split_and!; try done.
  destruct (compat_with_group _ Hmode Hcomp) as [H0|H0]; [done|specialize (Hnl0 H0); congruence].
Qed.

Lemma gid_clear res l :
  res_ok res -> request_ok l -> Exists (tree_gid res l) (lr_itree res) -> clear_for res l.
Proof.
  intros Hok Hrq (t & Ht & Hgroup & Hcomp & e & j0 & g & l0 & Hin & Hl0 & Hgid)%Exists_exists.
  destruct (in_tree_granted res t e j0) as (l0' & Hl0' & Hg0 & Hm0 & _); try done.
  { exists (j0 :: g). split; [done|by left]. }
  assert (l0' = l0) as -> by congruence. pose proof (ro_locks _ Hok _ _ Hl0) as [[Hmode _ Hgr0 Hnl0] Hs0 He0 _ _ _ _].
  destruct (rq_group _ Hrq Hgroup) as (Hs & He & Hnz). rewrite Hgroup in Hcomp. rewrite <-Hm0 in Hcomp.
  destruct (compat_with_group _ Hmode Hcomp) as [H0|H0]; [|specialize (Hnl0 H0); congruence].
  destruct (Hgr0 H0) as (Hs0' & He0' & _).
  intros j lj Hj Hg. pose proof (ro_locks _ Hok _ _ Hj) as [[_ (Hb & _) _ _] Hsj Hej _ _ _ _].
  destruct (decide (j = j0)) as [->|Hne].
  { assert (lj = l0) as -> by congruence. rewrite H0, Hgroup. simpl. auto. }
  pose proof (ro_excl _ Hok j j0 lj l0 Hj Hl0 Hne Hg Hg0) as Hex. unfold compatible in Hex.
  rewrite H0 in Hex. rewrite Hgroup. case_match; [intros Hjg _; rewrite Hex; auto|].
  exfalso. unfold ldlm_extent_overlap in Hex. unfold OBD_OBJECT_EOF, U64_MAX in *. lia.
Qed.

Lemma clear_trees_free res l :
  res_ok res -> clear_for res l ->
  trees_free (l_req_mode l) (start (l_req_extent l)) (end_ (l_req_extent l)) (lr_itree res).
Proof.
  intros Hok Hcl. apply Forall_forall. intros t Ht Hc [e g] Hin.
  pose proof (res_ok_index _ Hok) as Hix. unfold trees_ok in Hix. rewrite Forall_forall in Hix.
  pose proof (ix_nodes _ (Hix t Ht)) as Hn. rewrite Forall_forall in Hn. destruct (Hn _ Hin) as (Hne & _ & _).
  destruct g as [|j g]; [done|].
  destruct (in_tree_granted res t e j) as (lj & Hj & Hg & Hm & ->); try done.
  { exists (j :: g). split; [done|by left]. }
  specialize (Hcl j lj Hj Hg). rewrite Hm, Hc in Hcl. unfold ldlm_extent_overlap in Hcl.
  unfold extent_overlapped. simpl. lia.
Qed.

(** A free extent of the right group does not clash with the locks of the trees. *)
Lemma free_compatible res l ex j lj :
  res_ok res -> clear_for res l -> gid ex = gid (l_extent l) ->
  trees_free (l_req_mode l) (start ex) (end_ ex) (lr_itree res) ->
  lr_locks res !! j = Some lj -> granted lj -> compatible lj (set_extent l ex).
Proof.
  intros Hok Hcl Hgid Hf Hj Hg. specialize (Hcl j lj Hj Hg). unfold compatible. cbn [l_req_mode l_extent set_extent].
  rewrite Hgid. case_match eqn:Hc; [done|].
  destruct (granted_in_tree _ _ _ Hok Hj Hg) as (t & Ht & Hlit & g & Hin & _).
  unfold trees_free in Hf. rewrite Forall_forall in Hf. rewrite <-Hlit in Hc.
  specialize (Hf t Ht Hc _ Hin). unfold extent_overlapped in Hf. unfold ldlm_extent_overlap. simpl in Hf. lia.
Qed.

Lemma compatible_sym l1 l2 :
  l_req_mode l1 ∈ modes -> l_req_mode l2 ∈ modes -> compatible l1 l2 -> compatible l2 l1.
Proof.
  intros H1 H2. unfold compatible. rewrite (lockmode_compat_sym _ _ H2 H1). case_match.
  - intros Hg ? ?. symmetry. auto.
  - unfold ldlm_extent_overlap. by rewrite andb_comm.
Qed.

(** The resource with one more granted lock. *)
Definition with_granted (res : ldlm_resource) (i : Z) (lf : ldlm_lock) (k : nat)
    (t : ldlm_interval_tree) : ldlm_resource :=
  LdlmResource (<[i := lf]> (lr_locks res)) (<[k := t]> (lr_itree res)) (lr_granted res ++ [i])
    (lr_waiting res) (lr_contention_time res).

Lemma with_granted_ok res i l lf k t t' ext :
  res_ok res -> lr_locks res !! i = Some l -> ~ granted l -> on_resource res i = false ->
  lock_ok lf -> l_tree_node lf = InTree ext -> l_granted_mode lf = lit_mode t ->
  lr_itree res !! k = Some t -> lit_mode t' = lit_mode t -> index_ok (lit_root t') ->
  (forall e j, member (lit_root t') e j <-> member (lit_root t) e j \/ e = ext /\ j = i) ->
  (forall j lj, lr_locks res !! j = Some lj -> granted lj -> compatible lj lf) ->
  res_ok (with_granted res i lf k t').
Proof.
  intros Hok Hl Hng [Hi1 Hi2]%on_resource_false Hlf Hnode Hgm Ht Hmode Hix Hmem Hcl.
  pose proof Hok as [H1 H2 H3 H4 H5 H6 H7 H8]. pose proof (lookup_lt_Some _ _ _ Ht) as Hk.
  assert (Hglf : granted lf) by (unfold granted; by rewrite Hnode).
  assert (Htree : forall k0 t0, <[k := t']> (lr_itree res) !! k0 = Some t0 ->
    k0 = k /\ t0 = t' \/ k0 <> k /\ lr_itree res !! k0 = Some t0).
  { intros k0 t0 Ht0. apply list_lookup_insert_Some in Ht0 as [(-> & <- & _)|[? ?]]; auto. }
  assert (Hlock : forall j l0, <[i := lf]> (lr_locks res) !! j = Some l0 ->
    j = i /\ l0 = lf \/ j <> i /\ lr_locks res !! j = Some l0).
  { intros j l0 Hj. apply lookup_insert_Some in Hj as [[-> <-]|[? ?]]; auto. }
  unfold with_granted. split; cbn [lr_itree lr_locks lr_granted lr_waiting].
  - by rewrite length_insert.
  - intros k0 t0 [[-> ->]|[_ Ht0]]%Htree; [|by apply H2]. rewrite Hmode. by split; [apply H2|].
  - intros k0 t0 e j Ht0. destruct (Htree _ _ Ht0) as [[-> ->]|[Hne Ht0']].
    + rewrite Hmem, (H3 k t e j Ht), Hmode. split.
      * intros [(l0 & Hl0 & Hn0 & Hm0)|[-> ->]]; [|exists lf; by rewrite lookup_insert_eq].
        exists l0. rewrite lookup_insert_ne; [done|]. intros <-. destruct Hng.
        assert (l0 = l) as -> by congruence. unfold granted. by rewrite Hn0.
      * intros (l0 & [[-> ->]|[_ Hl0]]%Hlock & Hn0 & Hm0); [right; split; congruence|left; by exists l0].
    + rewrite (H3 k0 t0 e j Ht0'). split; intros (l0 & Hl0 & Hn0 & Hm0).
      * exists l0. rewrite lookup_insert_ne; [done|]. intros <-. destruct Hng.
        assert (l0 = l) as -> by congruence. unfold granted. by rewrite Hn0.
      * destruct (Hlock _ _ Hl0) as [[-> ->]|[_ Hl0']]; [|by exists l0]. exfalso.
        destruct (H2 k t Ht) as [Hl1 _]. destruct (H2 k0 t0 Ht0') as [Hl2 _].
        rewrite Hgm, Hl1, Hl2, !Z.shiftl_1_l in Hm0. apply Z.pow_inj_r in Hm0; lia.
  - intros j l0 [[-> ->]|[_ Hj]]%Hlock; [done|eauto].
  - intros j [Hj| ->%list_elem_of_singleton]%elem_of_app; [|exists lf; by rewrite lookup_insert_eq].
    destruct (H5 j Hj) as (l0 & Hl0 & Hg0). exists l0. rewrite lookup_insert_ne; [done|congruence].
  - intros j Hj. destruct (H6 j Hj) as (l0 & Hl0 & Hn0). exists l0. rewrite lookup_insert_ne; [done|congruence].
  - done.
  - intros j1 j2 l1 l2 Hj1 Hj2 Hne Hg1 Hg2.
    destruct (Hlock _ _ Hj1) as [[-> ->]|[Hn1 Hl1]], (Hlock _ _ Hj2) as [[-> ->]|[Hn2 Hl2]]; [done| | |eauto].
    + apply compatible_sym; [apply (H4 _ _ Hl2)|apply Hlf|eauto].
    + eauto.
Qed.

(** A lock as the completion work item leaves it. *)
Record same_base (l l' : ldlm_lock) : Prop := {
  sb_req_mode : l_req_mode l' = l_req_mode l;
  sb_granted_mode : l_granted_mode l' = l_granted_mode l;
  sb_req_extent : l_req_extent l' = l_req_extent l;
  sb_extent : l_extent l' = l_extent l;
  sb_node : l_tree_node l' = l_tree_node l;
  sb_alive : ldlm_is_destroyed l' = ldlm_is_destroyed l;
  sb_bl : l_bl_ast l' = l_bl_ast l;
  sb_ast : ast_ok l -> ast_ok l';
  sb_cp : cp_ok l -> cp_ok l'
}.

Lemma put_put res i l l' : put_lock (put_lock res i l) i l' = put_lock res i l'.
Proof. unfold put_lock, set_locks. simpl. by rewrite insert_insert_eq. Qed.

Lemma get_put res i l : get_lock (put_lock res i l) i = Ret l.
Proof. unfold get_lock. simpl. by rewrite lookup_insert_eq. Qed.

Lemma grant_cp_spec res i l (wl : option (list Z)) :
  cp_ok l ->
  exists lc wl', match wl with
    | Some w => if l_completion_ast l then
                  rw ← ldlm_add_ast_work_item (put_lock res i l) i None w; Ret (rw.1, Some rw.2)
                else Ret (put_lock res i l, wl)
    | None => Ret (put_lock res i l, wl)
    end = Ret (put_lock res i lc, wl') /\ same_base l lc.
Proof.
  intros Hcp. assert (Hself : same_base l l) by by split.
  destruct wl as [w|]; [|by exists l, None]. destruct (l_completion_ast l); [|by exists l, (Some w)].
  cbn [ldlm_add_ast_work_item]. unfold ldlm_add_cp_work_item. rewrite get_put. cbn [mbind run_bind].
  destruct (ldlm_is_cp_reqd l) eqn:Hr; [by exists l, (Some w)|]. cbn [l_cp_ast set_flags].
  rewrite (Hcp Hr). cbn [negb LASSERT mbind run_bind fst snd]. rewrite put_put.
  eexists _, _. split; [done|]. split; try done.
  - unfold ldlm_is_destroyed. simpl. by rewrite test_set_flag.
  - unfold ast_ok, ldlm_is_ast_sent. simpl. by rewrite test_set_flag.
  - intros _. unfold cp_ok, ldlm_is_cp_reqd. simpl. by rewrite (test_set_flag_same _ 43).
Qed.

Lemma extent_add_lock_spec res i l lc ex :
  res_ok res -> pending res i l -> on_resource res i = false -> clear_for res l ->
  0 <= start ex <= start (l_req_extent l) -> end_ (l_req_extent l) <= end_ ex <= U64_MAX ->
  gid ex = gid (l_extent l) -> paged PAGE_SIZE ex ->
  trees_free (l_req_mode l) (start ex) (end_ ex) (lr_itree res) ->
  same_base (set_granted_mode (set_extent l ex) (l_req_mode l)) lc ->
  exists res' lf, ldlm_extent_add_lock (put_lock res i lc) i = Ret res' /\ res_ok res'
    /\ lr_locks res' !! i = Some lf /\ granted lf /\ l_req_mode lf = l_req_mode l
    /\ l_req_extent lf = l_req_extent l /\ l_bl_ast lf = l_bl_ast l /\ lr_waiting res' = lr_waiting res
    /\ (forall j, j <> i -> lr_locks res' !! j = lr_locks res !! j).
Proof.
  intros Hok Hp Hon Hcl Hs He Hgid Hpg Hfree [B1 B2 B3 B4 B5 B6 B9 B7 B8]. pose proof Hp as [Hl Hn Hd].
  cbn [set_granted_mode set_extent l_req_mode l_granted_mode l_req_extent l_extent l_tree_node] in *.
  pose proof (ro_locks _ Hok _ _ Hl) as [[R1 R2 R3 R4] L1 L2 L3 L4 L5 L6].
  destruct (mode_index _ R1) as (k & Hk & Hidx & Hmk).
  destruct (lookup_lt_is_Some_2 (lr_itree res) (Z.to_nat k)) as [t Ht]; [rewrite (ro_length _ Hok); lia|].
  destruct (ro_trees _ Hok _ _ Ht) as [Hlit Hix]. rewrite Z2Nat.id in Hlit by lia.
  unfold ldlm_extent_add_lock. rewrite get_put. cbn [mbind run_bind].
  rewrite B2, B1, Z.eqb_refl, B5, Hn. cbn [LASSERT]. rewrite Hidx. cbn [mbind run_bind].
  rewrite <-Hmk, Z.eqb_refl. cbn [LASSERT]. unfold get_tree. cbn [lr_itree put_lock set_locks]. rewrite Ht.
  cbn [mbind run_bind]. rewrite Hlit, <-Hmk, Z.eqb_refl. cbn [LASSERT]. rewrite B4.
  unfold interval_set. pose proof R2 as (Hb & Hbu & _). rewrite (proj2 (Z.ltb_ge _ _)) by lia.
  set (ext := Extent (start ex) (end_ ex)).
  destruct (index_add_spec (lit_root t) ext i) as (root' & Hadd & Hix' & Hmem); [done| |simpl; lia| |].
  { unfold ext_ok, ext. simpl. lia. }
  { intros Hm. apply (ro_members _ Hok _ _ _ _ Ht) in Hm as (l0 & Hl0 & Hn0 & _). congruence. }
  unfold index_add in Hadd. cbn [ext_end ext] in Hadd.
  destruct (interval_insert ext (end_ ex) [i] (lit_root t)) as [[found root1]|]; [|done].
  cbn [mbind run_bind] in Hadd |- *. rewrite Hadd. cbn [mbind run_bind].
  unfold ldlm_resource_add_lock, put_tree. rewrite get_put. cbn [mbind run_bind].
  replace (ldlm_is_destroyed (set_tree_node lc (InTree ext))) with false
    by (symmetry; change (ldlm_is_destroyed lc = false); rewrite B6; done).
  match goal with |- context [on_resource ?r i] => replace (on_resource r i) with false by (symmetry; exact Hon) end.
  cbn [negb LASSERT]. set (lf := set_tree_node lc (InTree ext)).
  exists (with_granted res i lf (Z.to_nat k) (LdlmIntervalTree (lit_size t + 1) (l_req_mode l) root')), lf.
  split; [unfold with_granted, put_lock, set_locks, set_itree, set_granted; simpl; by rewrite insert_insert_eq|].
  split; [|cbn [lr_locks with_granted]; rewrite lookup_insert_eq; split_and!; try done;
           intros j Hj; by rewrite lookup_insert_ne].
  assert (Hlf : lock_ok lf).
  { split; [split|..]; cbn [lf set_tree_node l_req_mode l_req_extent l_extent l_tree_node l_granted_mode];
      rewrite ?B1, ?B2, ?B3, ?B4, ?Hgid; try done; [by apply B7|by apply B8]. }
  eapply (with_granted_ok res i l lf (Z.to_nat k) t _ ext); try done.
  - by eapply pending_not_granted.
  - cbn [lf set_tree_node l_granted_mode]. congruence.
  - simpl. congruence.
  - intros j lj Hj Hg. pose proof (free_compatible res l ex j lj Hok Hcl Hgid Hfree Hj Hg) as Hc.
    unfold compatible in *. cbn [lf set_tree_node set_extent l_req_mode l_extent] in *. by rewrite B1, B4.
Qed.

(** From [res] to [res'] the request [l] of lock [i] is granted. *)
Record granted_as (res res' : ldlm_resource) (i : Z) (l : ldlm_lock) : Prop := {
  ga_lock : exists lf, lr_locks res' !! i = Some lf /\ granted lf /\ l_req_mode lf = l_req_mode l
    /\ l_req_extent lf = l_req_extent l /\ l_bl_ast lf = l_bl_ast l;
  ga_waiting : lr_waiting res' = base.filter (fun j => j <> i) (lr_waiting res);
  ga_locks : forall j, j <> i -> lr_locks res' !! j = lr_locks res !! j
}.

Lemma grant_lock_spec res i l ex wl :
  res_ok res -> pending res i l -> on_resource res i = false -> clear_for res l ->
  0 <= start ex <= start (l_req_extent l) -> end_ (l_req_extent l) <= end_ ex <= U64_MAX ->
  gid ex = gid (l_extent l) -> paged PAGE_SIZE ex ->
  trees_free (l_req_mode l) (start ex) (end_ ex) (lr_itree res) ->
  exists res' wl', ldlm_grant_lock (put_lock res i (set_extent l ex)) i wl = Ret (res', wl')
    /\ res_ok res' /\ granted_as res res' i l.
Proof.
  intros Hok Hp Hon Hcl Hs He Hg Hpg Hf. unfold ldlm_grant_lock. rewrite get_put. cbn [mbind run_bind].
  rewrite put_put. cbn [l_req_mode set_extent].
  destruct (grant_cp_spec res i (set_granted_mode (set_extent l ex) (l_req_mode l)) wl) as (lc & wl' & -> & Hb).
  { apply (lk_cp l), (ro_locks _ Hok _ _ (pd_lock _ _ _ Hp)). }
  cbn [mbind run_bind fst snd].
  destruct (extent_add_lock_spec res i l lc ex) as (res' & lf & -> & Hok' & Hlf & Hgr & Hm & Hr & Hbl & Hw & Hj); try done.
  cbn [mbind run_bind]. eexists _, _. split; [done|]. split; [done|]. split; [by exists lf| |done].
  rewrite Hw, filter_ne_id; [done|]. by apply on_resource_false in Hon as [_ ?].
Qed.

End System.

Section Grant.
Context (PAGE_SIZE pk : Z).
Hypothesis Hpage : PAGE_SIZE = 2 ^ pk.
Hypothesis Hpk : 0 <= pk < 64.

Lemma pending_policy res i l flags :
  res_ok PAGE_SIZE res -> pending res i l -> clear_for res l ->
  exists ex flags', ldlm_extent_policy PAGE_SIZE res i flags = Ret (put_lock res i (set_extent l ex), flags')
    /\ 0 <= start ex <= start (l_req_extent l) /\ end_ (l_req_extent l) <= end_ ex <= U64_MAX
    /\ gid ex = gid (l_extent l) /\ paged PAGE_SIZE ex
    /\ trees_free (l_req_mode l) (start ex) (end_ ex) (lr_itree res).
Proof.
  intros Hok Hp Hcl. pose proof Hp as [Hl Hn Hd]. pose proof (ro_locks _ _ Hok _ _ Hl) as [[R1 R2 R3 R4] L1 L2 L3 L4 L5 L6].
  apply (ldlm_extent_policy_spec PAGE_SIZE pk Hpage Hpk); eauto using lockmode_verify_modes, res_ok_index, res_ok_waiting.
  by eapply clear_trees_free.
Qed.

Lemma unlink_own res i l :
  lr_locks res !! i = Some l -> l_tree_node l = OwnNode ->
  ldlm_resource_unlink_lock res i = Ret (list_del_res_link res i).
Proof.
  intros Hl Hn. unfold ldlm_resource_unlink_lock, ldlm_extent_unlink_lock, get_lock. rewrite Hl.
  cbn [mbind run_bind]. by rewrite Hn.
Qed.

Lemma granted_listed res res' i l wl :
  granted_as res res' i l -> lr_locks res !! i = Some l -> listed res wl -> listed res' wl.
Proof.
  intros [(lf & Hlf & _ & _ & _ & Hb) _ Hj] Hl [Hnd Hall]. split; [done|]. eapply Forall_impl; [exact Hall|].
  intros j (l0 & Hl0 & Hb0). destruct (decide (j = i)) as [->|Hne]; [|exists l0; by rewrite Hj].
  exists lf. split; [done|congruence].
Qed.

Lemma pending_off res i l : pending res i l -> pending (list_del_res_link res i) i l.
Proof. by intros [? ? ?]. Qed.

Lemma granted_off res res' i l : granted_as (list_del_res_link res i) res' i l -> granted_as res res' i l.
Proof. intros [H1 H2 H3]. split; [done| |done]. rewrite H2. simpl. rewrite filter_ne_id; [done|]. by intros [? _]%list_elem_of_filter. Qed.

(** Growing, unlinking and granting, in the two orders of the code. *)
Lemma enqueue_grant res i l flags wl :
  res_ok PAGE_SIZE res -> pending res i l -> clear_for res l ->
  exists rf r res' wl',
    ldlm_extent_policy PAGE_SIZE res i flags = Ret rf /\ ldlm_resource_unlink_lock rf.1 i = Ret r
    /\ ldlm_grant_lock r i wl = Ret (res', wl')
    /\ res_ok PAGE_SIZE res' /\ granted_as res res' i l.
Proof.
  intros Hok Hp Hcl. destruct (pending_policy res i l flags) as (ex & fl' & Hpol & Hs & He & Hg & Hpg & Hf); try done.
  eexists _, _.
  rewrite Hpol. enough (exists res' wl', ldlm_grant_lock (list_del_res_link (put_lock res i (set_extent l ex)) i) i wl
    = Ret (res', wl') /\ res_ok PAGE_SIZE res' /\ granted_as res res' i l) as (res' & wl' & Hrun & H).
  { exists res', wl'. split; [done|]. split; [|by split].
    by apply (unlink_own _ i (set_extent l ex)); [apply lookup_insert_eq|apply Hp]. }
  change (list_del_res_link (put_lock res i (set_extent l ex)) i)
    with (put_lock (list_del_res_link res i) i (set_extent l ex)).
  destruct (grant_lock_spec PAGE_SIZE (list_del_res_link res i) i l ex wl) as (res' & wl' & Hrun & ? & ?%granted_off);
    auto using list_del_ok, pending_off, list_del_off.
  exists res', wl'. eauto.
Qed.

Lemma rescan_grant res i l flags wl :
  res_ok PAGE_SIZE res -> pending res i l -> clear_for res l ->
  exists rf r res' wl',
    ldlm_resource_unlink_lock res i = Ret r /\ ldlm_extent_policy PAGE_SIZE r i flags = Ret rf
    /\ ldlm_grant_lock rf.1 i wl = Ret (res', wl')
    /\ res_ok PAGE_SIZE res' /\ granted_as res res' i l.
Proof.
  intros Hok Hp Hcl.
  destruct (pending_policy (list_del_res_link res i) i l flags) as (ex & fl' & Hpol & Hs & He & Hg & Hpg & Hf);
    auto using list_del_ok, pending_off.
  eexists _, _. rewrite (unlink_own _ i l) by apply Hp.
  destruct (grant_lock_spec PAGE_SIZE (list_del_res_link res i) i l ex wl) as (res' & wl' & Hrun & ? & ?%granted_off);
    auto using list_del_ok, pending_off, list_del_off.
  exists res', wl'. eauto.
Qed.
End Grant.
