(* ===== verification/LdlmProcess.v ===== *)
(** The decision on a request for an extent lock (lustre/ldlm/ldlm_extent.c,
    [ldlm_process_extent_lock]): it never fails an assertion, it keeps the invariant
    of the resource, and it grants the request, leaves it waiting or refuses it. *)

From stdpp Require Import gmap.
From S2P Require Import Prelude IntervalTree LdlmLock LdlmExtent LdlmIndex LdlmPolicy LdlmSafe LdlmSystem.

Section Checks.
Context (PAGE_SIZE : Z) (ns : ldlm_namespace) (now : Z).

Lemma same_lock_clear res res' l l' :
  (forall j, option_Forall2 same_lock (lr_locks res !! j) (lr_locks res' !! j)) ->
  same_lock l l' -> clear_for res l -> clear_for res' l'.
Proof.
  intros Hq [(E1 & _ & E3 & E4 & _)%core_inv _] Hcl j lj' Hj Hg. specialize (Hq j). rewrite Hj in Hq.
  inversion Hq as [lj ? Hs Hl|]; subst.
  pose proof Hs as [(F1 & _ & _ & F4 & _)%core_inv _]. apply (same_lock_granted lj) in Hg; [|done].
  specialize (Hcl j lj (eq_sym Hl) Hg). by rewrite E1, E3, E4, F1, F4.
Qed.

(** From [res] to [res'] the request of lock [i] may have been put on the waiting
    list; nothing else but callback flags has changed. *)
Definition stays (i : Z) (res res' : ldlm_resource) : Prop :=
  exists res1, quiet res res1 /\ inserted i res1 res'.

Lemma quiet_stays i res res' : quiet res res' -> stays i res res'.
Proof. exists res'. split; [done|by left]. Qed.

Lemma waited_stays i s s' : waited i s s' -> stays i (cs_res s) (cs_res s').
Proof. intros (s1 & Hm & _ & _ & Hi). exists (cs_res s1). by split; [apply Hm|]. Qed.

Lemma stays_trans i res res1 res' : quiet res res1 -> stays i res1 res' -> stays i res res'.
Proof. intros Hq (r & Hq' & Hi). exists r. split; [by etransitivity|done]. Qed.

Lemma stays_locks i res res' : stays i res res' ->
  forall j, option_Forall2 same_lock (lr_locks res !! j) (lr_locks res' !! j).
Proof. intros (r & Hq & [->|(_ & xs & ys & _ & ->)]) j; apply Hq. Qed.

Lemma stays_waiting i res res' : stays i res res' ->
  base.filter (fun j => j <> i) (lr_waiting res') = base.filter (fun j => j <> i) (lr_waiting res).
Proof.
  intros (r & Hq & [->|([_ Hi]%on_resource_false & xs & ys & Hw & ->)]); [by rewrite (q_waiting _ _ Hq)|].
  rewrite <-(q_waiting _ _ Hq), Hw. cbn [lr_waiting set_waiting].
  rewrite !filter_app, filter_cons_False by tauto. done.
Qed.

Lemma stays_ok i res res' l :
  stays i res res' -> res_ok PAGE_SIZE res -> pending res i l ->
  res_ok PAGE_SIZE res' /\ exists l', pending res' i l' /\ same_lock l l'.
Proof.
  intros (r & Hq & Hi) Hok Hp. destruct (quiet_pending _ _ _ _ Hq Hp) as (l' & Hp' & Hs).
  edestruct inserted_ok as [H1 H2]; eauto using quiet_res_ok.
Qed.

(** A request that is granted behind checks that left it where it was. *)
Definition gets (i : Z) (res res' : ldlm_resource) : Prop :=
  exists res1 l1, stays i res res1 /\ granted_as res1 res' i l1.

(** What a decision on the request of [i] leads to. *)
Inductive outcome (i : Z) (res : ldlm_resource) (flags : Z) (res' : ldlm_resource) (err : Z) : Prop :=
  | OGranted : err = ELDLM_OK -> gets i res res' -> outcome i res flags res' err
  | OBlocked : err = ELDLM_OK -> stays i res res' -> outcome i res flags res' err
  | ORefused : err < 0 -> would_block flags = true
                          \/ LDLM_TEST_FLAG flags LDLM_FL_DENY_ON_CONTENTION = true ->
               is_Some (lr_locks res' !! i) -> outcome i res flags res' err.

Lemma quiet_behind res res' i l l' : quiet res res' -> same_lock l l' -> behind res' i l' <-> behind res i l.
Proof.
  intros Hq [(E & _ & _ & Ee & _)%core_inv _]. unfold behind. rewrite E, (q_waiting _ _ Hq).
  apply and_iff_compat_l. split; intros (xs & j & ys & lj & Hw & Hi & Hj & Hb).
  - destruct (quiet_lookup_back _ _ _ _ Hq Hj) as (lj0 & Hj0 & [(Ej & _ & _ & Eej & _)%core_inv _]).
    exists xs, j, ys, lj0. split_and!; try done. destruct Hb as [?|?]; [left|right]; congruence.
  - destruct (quiet_lookup _ _ _ _ Hq Hj) as (lj0 & Hj0 & [(Ej & _ & _ & Eej & _)%core_inv _]).
    exists xs, j, ys, lj0. split_and!; try done. destruct Hb as [?|?]; [left|right]; congruence.
Qed.

Lemma process_asserts res i l flags :
  res_ok PAGE_SIZE res -> pending res i l ->
  (LDLM_TEST_FLAG flags LDLM_FL_DENY_ON_CONTENTION = true -> ldlm_is_ast_discard_data l = false) ->
  (l_granted_mode l =? l_req_mode l) = false
  /\ negb (LDLM_TEST_FLAG flags LDLM_FL_DENY_ON_CONTENTION) || negb (ldlm_is_ast_discard_data l) = true.
Proof.
  intros Hok [Hl Hn _] Hd. pose proof (ro_locks _ _ Hok _ _ Hl) as [[R1 _ _ _] _ _ _ Hnode _ _].
  rewrite Hn in Hnode. apply mode_nonzero in R1. split; [apply Z.eqb_neq; congruence|].
  destruct (LDLM_TEST_FLAG _ _); [by rewrite Hd|done].
Qed.

Lemma test_zero b : LDLM_TEST_FLAG 0 b = false.
Proof. unfold LDLM_TEST_FLAG. by rewrite Z.land_0_l. Qed.

(** The check of the granted locks: refused, conflicting, or free of conflicts. *)
Lemma granted_check res i l flags work :
  res_ok PAGE_SIZE res -> pending res i l ->
  exists rc err s1, ldlm_extent_compat_queue ns now Granted i (CompatState res flags work 0 1) = Ret (rc, err, s1)
    /\ (rc < 0 /\ err = Some rc /\ res_ok PAGE_SIZE (cs_res s1)
          /\ (would_block flags = true \/ LDLM_TEST_FLAG flags LDLM_FL_DENY_ON_CONTENTION = true)
          /\ (work_ok (CompatState res flags work 0 1) -> work_ok s1) /\ is_Some (lr_locks (cs_res s1) !! i)
        \/ err = None /\ mild (CompatState res flags work 0 1) s1
            /\ exists l1, pending (cs_res s1) i l1 /\ same_lock l l1
                 /\ (rc = 0 \/ (rc = 1 \/ rc = 2) /\ clear_for (cs_res s1) l1)).
Proof.
  intros Hok Hp. edestruct (granted_queue_spec PAGE_SIZE) with (s := CompatState res flags work 0 1)
    as (rc & err & s1 & Hrun & Hres); [done|exact Hp|].
  exists rc, err, s1. split; [exact Hrun|]. destruct Hres as [?|(-> & Hm & Hrc)]; [by left|right].
  split; [done|]. split; [done|]. pose proof (ml_quiet _ _ Hm) as Hq. cbn [cs_res] in *.
  destruct (quiet_pending _ _ _ _ Hq Hp) as (l1 & Hp1 & Hs1). exists l1. split; [done|]. split; [done|].
  pose proof (ro_locks _ _ Hok _ _ (pd_lock _ _ _ Hp)) as Hlk.
  destruct Hrc as [?|[[-> Hpass]|[-> Hgid]]]; [by left|right; split; [auto|]..].
  - eapply same_lock_clear; [apply Hq|done|]. eapply pass_clear; eauto. apply Hlk.
  - eapply (same_lock_clear (cs_res s1) _ l); [intros j; by destruct (lr_locks (cs_res s1) !! j); constructor|done|].
    eapply gid_clear; [by eapply quiet_res_ok|apply Hlk|]. by rewrite (q_itree _ _ Hq).
Qed.

(** The check of the waiting locks. *)
Lemma waiting_check s i l :
  res_ok PAGE_SIZE (cs_res s) -> pending (cs_res s) i l ->
  (ldlm_extent_compat_queue ns now Waiting i s = LBUG /\ behind (cs_res s) i l)
  \/ exists rc err s1, ldlm_extent_compat_queue ns now Waiting i s = Ret (rc, err, s1)
    /\ (rc < 0 /\ err = Some rc /\ res_ok PAGE_SIZE (cs_res s1)
          /\ (would_block (cs_flags s) = true \/ LDLM_TEST_FLAG (cs_flags s) LDLM_FL_DENY_ON_CONTENTION = true)
          /\ (work_ok s -> work_ok s1) /\ is_Some (lr_locks (cs_res s1) !! i)
        \/ err = None /\ stays i (cs_res s) (cs_res s1) /\ (work_ok s -> work_ok s1) /\ (rc = 0 \/ rc = 1)).
Proof.
  intros Hok Hp. edestruct (waiting_queue_spec PAGE_SIZE) as [K|(rc & err & s1 & Hrun & Hres)];
    [done|exact Hp|left; exact K|right].
  exists rc, err, s1. split; [exact Hrun|]. destruct Hres as [?|(-> & Hw & Hrc)]; [by left|right].
  by split_and!; [|apply waited_stays|eapply waited_work|].
Qed.

Lemma gets_trans i res res1 res' : quiet res res1 -> gets i res1 res' -> gets i res res'.
Proof. intros Hq (r & l & Hs & Hg). exists r, l. split; [by eapply stays_trans|done]. Qed.

Lemma work_ok_default s : work_ok s -> listed (cs_res s) (default [] (cs_work s)).
Proof. intros H. destruct (cs_work s) as [wl|] eqn:E; [by apply H|]. split; constructor. Qed.

Lemma grant_no_work res i res' w : ldlm_grant_lock res i None = Ret (res', w) -> w = None.
Proof.
  unfold ldlm_grant_lock. destruct (get_lock res i); [|done]. cbn [mbind run_bind fst snd].
  destruct (ldlm_extent_add_lock _ i); [|done]. cbn [mbind run_bind]. by intros [= _ <-].
Qed.

(** The check of the waiting list, skipped behind a matching group lock. *)
Lemma waiting_turn flags s s1 rc i l :
  mild s s1 -> cs_flags s = flags ->
  res_ok PAGE_SIZE (cs_res s1) -> pending (cs_res s1) i l ->
  ((if negb (rc =? 2) then ldlm_extent_compat_queue ns now Waiting i s1 else Ret (0, None, s1)) = LBUG
   /\ behind (cs_res s1) i l)
  \/ exists rc2 err2 s2,
    (if negb (rc =? 2) then ldlm_extent_compat_queue ns now Waiting i s1 else Ret (0, None, s1)) = Ret (rc2, err2, s2)
    /\ (work_ok s1 -> work_ok s2)
    /\ (rc2 < 0 /\ err2 = Some rc2 /\ res_ok PAGE_SIZE (cs_res s2)
          /\ (would_block flags = true \/ LDLM_TEST_FLAG flags LDLM_FL_DENY_ON_CONTENTION = true)
          /\ is_Some (lr_locks (cs_res s2) !! i)
        \/ stays i (cs_res s1) (cs_res s2) /\ (rc2 = 0 \/ rc2 = 1 /\ rc <> 2)).
Proof.
  intros Hm Hf Hok Hp. destruct (Z.eqb_spec rc 2) as [->|Hne]; cbn [negb].
  - right. eexists _, _, _. split; [done|]. split; [done|]. right. split; [by apply quiet_stays|by left].
  - destruct (waiting_check s1 i l) as [?|(rc2 & err2 & s2 & Hrun & Hres)]; try done; [by left|right].
    rewrite (ml_block _ _ Hm), (ml_deny _ _ Hm), Hf in Hres. exists rc2, err2, s2. split; [done|].
    destruct Hres as [(? & ? & ? & ? & ? & ?)|(_ & ? & ? & [?|?])]; auto 10.
Qed.

(** ** Rescans *)

(** The granted lock [lj] keeps the request [l] waiting: it conflicts with it, or the
    request is for a group and [lj] is not of that group. *)
Definition hinders (lj l : ldlm_lock) : Prop :=
  lockmode_compat (l_req_mode l) (l_req_mode lj) = false
    /\ ldlm_extent_overlap (l_extent lj) (l_req_extent l) = true
  \/ l_req_mode l = LCK_GROUP /\ gid (l_extent lj) <> gid (l_extent l).

Definition hindered (res : ldlm_resource) (l : ldlm_lock) : Prop :=
  exists j lj, lr_locks res !! j = Some lj /\ granted lj /\ hinders lj l.

(** A tree that keeps the request waiting. *)
Definition tree_hinders (res : ldlm_resource) (req : ldlm_lock) (t : ldlm_interval_tree) : Prop :=
  exists e j, member (lit_root t) e j
    /\ (lockmode_compat (l_req_mode req) (lit_mode t) = false
         /\ (lit_mode t = LCK_GROUP
             \/ extent_overlapped (Extent (start (l_req_extent req)) (end_ (l_req_extent req))) e = true)
        \/ l_req_mode req = LCK_GROUP
           /\ exists lj, lr_locks res !! j = Some lj /\ gid (l_extent lj) <> gid (l_extent req)).

Lemma tree_hinders_spec res req t :
  res_ok PAGE_SIZE res -> request_ok PAGE_SIZE req -> t ∈ lr_itree res ->
  tree_hinders res req t -> hindered res req.
Proof.
  intros Hok Hrq Ht (e & j & Hm & H). destruct (in_tree_granted PAGE_SIZE res t e j) as (lj & Hj & Hg & Hmode & He); try done.
  exists j, lj. split; [done|]. split; [done|]. destruct H as [[Hc Hov]|[Hgr (lj' & Hj' & Hgid)]];
    [left; rewrite Hmode; split; [done|]|right; split; [done|congruence]].
  pose proof (ro_locks _ _ Hok _ _ Hj) as [[_ (Hb & Hbu & _) Hgrp _] Hs0 He0 _ _ _ _].
  destruct (rq_aligned _ _ Hrq) as (Hr & Hru & _). unfold ldlm_extent_overlap. apply andb_true_iff.
  destruct Hov as [Hov|Hov].
  - destruct Hgrp as (? & ? & _); [congruence|]. unfold OBD_OBJECT_EOF, U64_MAX in *. lia.
  - subst e. unfold extent_overlapped in Hov. simpl in Hov. lia.
Qed.

Definition rescan_end (req : ldlm_lock) (trees : list ldlm_interval_tree) (s s' : compat_state)
    (e : compat_end) : Prop :=
  e = CFall /\ s' = s /\ Forall (tree_pass req) trees
  \/ e = CReturn 2 /\ s' = s /\ Exists (tree_gid (cs_res s) req) trees
  \/ e = CReturn 0 /\ cs_res s' = cs_res s /\ Exists (tree_hinders (cs_res s) req) trees.

Lemma node_member res mode root e g :
  Forall (fun x => group_ok res mode x.2) (elements root) -> (e, g) ∈ elements root -> exists j, member root e j.
Proof.
  rewrite Forall_forall. intros Hn Hin. destruct (Hn _ Hin) as [Hne _]. destruct g as [|j g]; [done|].
  exists j, (j :: g). by split; [|left].
Qed.

(** Without a work list the check stops at the first conflict. *)
Lemma rescan_loop_spec i req trees s :
  cs_work s = None -> would_block (cs_flags s) = false -> Forall (tree_good (cs_res s)) trees ->
  exists s' e, compat_granted_loop i req trees s = Ret (s', e) /\ rescan_end req trees s s' e.
Proof.
  intros Hw Hwb. induction trees as [|t trees IH]; intros Hgood.
  { exists s, CFall. split; [done|]. left. split_and!; constructor. }
  apply Forall_cons in Hgood as [[Hix Hnodes] Hgood].
  assert (Hgo : tree_pass req t ->
    exists s' e, compat_granted_loop i req trees s = Ret (s', e) /\ rescan_end req (t :: trees) s s' e).
  { intros Hp. destruct (IH Hgood) as (s' & e & Hrun & He). exists s', e. split; [done|].
    destruct He as [(? & ? & ?)|[(? & ? & ?)|(? & ? & ?)]];
      [left|right; left|right; right]; split_and!; auto using Forall_cons_2, Exists_cons_tl. }
  cbn [compat_granted_loop]. destruct (lit_root t) as [|c m e0 group l0 r0] eqn:Hroot; [apply Hgo; by left|].
  destruct (lockmode_compat (l_req_mode req) (lit_mode t) && negb (l_req_mode req =? LCK_GROUP)) eqn:Hc.
  { apply andb_true_iff in Hc as [Hc1 Hc2%negb_true_iff%Z.eqb_neq]. apply Hgo. right; left; done. }
  rewrite <-Hroot in *.
  destruct (root_gid_spec (cs_res s) req t c m e0 group l0 r0 Hroot Hnodes Hc) as (b & -> & Hb & Hb').
  cbn [mbind run_bind]. destruct b.
  { exists s, (CReturn 2). split; [done|]. right; left. split_and!; [done..|]. apply Exists_cons_hd. auto. }
  destruct (lit_mode t =? LCK_GROUP) eqn:Hgm.
  - rewrite Hwb. cbn [cs_work set_cflags]. rewrite Hw. eexists _, _. split; [done|]. right; right.
    split_and!; [done..|]. apply Exists_cons_hd. apply Z.eqb_eq in Hgm.
    destruct (Hb' eq_refl) as [Hcomp|[Hg (j & l & Hm & Hl & Hgid)]].
    + destruct (node_member _ _ _ e0 group Hnodes) as [j Hj].
      { rewrite Hroot. simpl. apply elem_of_app. right. by left. }
      exists e0, j. split; [done|]. left. auto.
    + exists e0, j. split; [done|]. right. eauto.
  - apply Z.eqb_neq in Hgm. rewrite Hw. destruct (interval_is_overlapped (lit_root t) _) eqn:Hov.
    + eexists _, _. split; [done|]. right; right. split_and!; [done..|]. apply Exists_cons_hd.
      destruct (Hb' eq_refl) as [Hcomp|[Hg (j & l & Hm & Hl & Hgid)]]; [|exists e0, j; split; [done|]; right; eauto].
      apply interval_is_overlapped_spec in Hov as ([e g] & Hin & He); [|apply Hix..].
      destruct (node_member _ _ _ e g Hnodes Hin) as [j Hj]. exists e, j. split; [done|]. left. auto.
    + apply Hgo. right; right. split; [done|]. by apply not_overlapped_free.
Qed.

Lemma queue_end_fall i req s :
  cs_flags s = 0 ->
  exists s', queue_end ns now i req s CFall = Ret (cs_compat s, None, s') /\ quiet (cs_res s) (cs_res s')
    /\ cs_flags s' = 0.
Proof.
  intros Hf. unfold queue_end. destruct (ldlm_check_contention ns now (cs_res s) (cs_contended s)) as [c r] eqn:E.
  pose proof (check_contention_quiet ns now (cs_res s) (cs_contended s)) as Hq. rewrite E in Hq. cbn [cs_flags set_res cs_compat]. rewrite Hf, test_zero, andb_false_r.
  cbn [andb]. eexists. split; [done|]. by split.
Qed.

(** The check of the waiting list ends at its first lock. *)
Lemma waiting_head_check s i l :
  res_ok PAGE_SIZE (cs_res s) -> pending (cs_res s) i l -> head (lr_waiting (cs_res s)) = Some i -> cs_flags s = 0 ->
  exists s1, ldlm_extent_compat_queue ns now Waiting i s = Ret (1, None, s1) /\ quiet (cs_res s) (cs_res s1)
    /\ cs_flags s1 = 0.
Proof.
  intros Hok Hp Hh Hf. unfold ldlm_extent_compat_queue, get_lock. rewrite (pd_lock _ _ _ Hp). cbn [mbind run_bind].
  rewrite lockmode_verify_modes by apply (ro_locks _ _ Hok _ _ (pd_lock _ _ _ Hp)). cbn [LASSERT].
  destruct (lr_waiting (cs_res s)) as [|j queue] eqn:Hw; [done|]. injection Hh as ->.
  cbn [cs_res set_compat]. rewrite Hw. cbn [compat_waiting_loop cs_res set_compat]. unfold get_lock.
  rewrite (pd_lock _ _ _ Hp). cbn [mbind run_bind]. rewrite Z.eqb_refl. cbn [mbind run_bind].
  apply (queue_end_fall i l (set_compat s 1)). done.
Qed.

Lemma rescan_granted_check res i l :
  res_ok PAGE_SIZE res -> pending res i l ->
  exists rc s1, ldlm_extent_compat_queue ns now Granted i (CompatState res 0 None 0 1) = Ret (rc, None, s1)
    /\ quiet res (cs_res s1)
    /\ (rc = 0 /\ hindered res l \/ (rc = 1 \/ rc = 2) /\ clear_for res l /\ cs_flags s1 = 0).
Proof.
  intros Hok Hp. pose proof (ro_locks _ _ Hok _ _ (pd_lock _ _ _ Hp)) as [Hrq _ _ _ _ _ _].
  unfold ldlm_extent_compat_queue, get_lock. cbn [cs_res]. rewrite (pd_lock _ _ _ Hp). cbn [mbind run_bind].
  rewrite lockmode_verify_modes by apply Hrq. cbn [LASSERT].
  change (set_compat (CompatState res 0 None 0 1) 1) with (CompatState res 0 None 0 1). cbn [cs_res].
  destruct (rescan_loop_spec i l (lr_itree res) (CompatState res 0 None 0 1)) as (s' & e & -> & He);
    [done|apply test_zero|by eapply res_ok_trees|]. cbn [mbind run_bind].
  destruct He as [(-> & -> & Hpass)|[(-> & -> & Hgid)|(-> & Hr & Hh)]].
  - destruct (queue_end_fall i l (CompatState res 0 None 0 1)) as (s2 & -> & Hq & Hf); [done|].
    eexists _, _. split; [done|]. split; [done|]. right. split; [auto|]. split; [|done].
    eapply pass_clear; eauto. apply Hrq.
  - eexists _, _. split; [done|]. split; [done|]. right. split; [auto|]. split; [|done]. by eapply gid_clear.
  - eexists _, _. split; [done|]. cbn [cs_res] in Hr. rewrite Hr. split; [done|]. left. split; [done|].
    apply Exists_exists in Hh as (t & Ht & Hh). by eapply tree_hinders_spec.
Qed.

End Checks.

(** ** Decisions *)

Section Process.
Context (PAGE_SIZE pk : Z).
Hypothesis Hpage : PAGE_SIZE = 2 ^ pk.
Hypothesis Hpk : 0 <= pk < 64.
Context (ns : ldlm_namespace) (now : Z).

(** Granting behind the checks. *)
Lemma enqueue_gets i res res1 l flags wl :
  res_ok PAGE_SIZE res -> pending res i l -> stays i res res1 -> clear_for res l ->
  exists rf r res' wl',
    ldlm_extent_policy PAGE_SIZE res1 i flags = Ret rf /\ ldlm_resource_unlink_lock rf.1 i = Ret r
    /\ ldlm_grant_lock r i wl = Ret (res', wl')
    /\ res_ok PAGE_SIZE res' /\ gets i res res' /\ (forall w, listed res1 w -> listed res' w).
Proof.
  intros Hok Hp Hst Hcl. destruct (stays_ok PAGE_SIZE i res res1 l) as (Hok1 & l2 & Hp2 & Hs2); try done.
  edestruct (enqueue_grant PAGE_SIZE) with (res := res1) (l := l2) as (rf & r & res' & wl' & H1 & H2 & H3 & Hok' & Hga); try done.
  { eapply same_lock_clear; [by eapply stays_locks|done..]. }
  exists rf, r, res', wl'. split_and!; try done; [by exists res1, l2|].
  intros w. eapply granted_listed; [done|apply Hp2].
Qed.

Lemma process_conflicts_spec res i l flags grant_work wl :
  res_ok PAGE_SIZE res -> pending res i l ->
  (process_conflicts PAGE_SIZE ns now res i flags grant_work wl = LBUG /\ behind res i l)
  \/ exists rc err flags' res' wl',
    process_conflicts PAGE_SIZE ns now res i flags grant_work wl = Ret (rc, err, flags', res', wl')
    /\ res_ok PAGE_SIZE res' /\ outcome i res flags res' err
    /\ (grant_work = false -> listed res wl -> listed res' wl').
Proof.
  intros Hok Hp. unfold process_conflicts.
  destruct (granted_check PAGE_SIZE ns now res i l flags (Some wl)) as (rc & err & s1 & -> & Hres1); try done. cbn [mbind run_bind].
  assert (Hwk0 : listed res wl -> work_ok (CompatState res flags (Some wl) 0 1)) by by intros ? ? [= <-].
  destruct Hres1 as [(Hlt & -> & Hok1 & Hf & Hwk & His)|(-> & Hm & l1 & Hp1 & Hs1 & Hrc)].
  { rewrite (proj2 (Z.ltb_lt _ _) Hlt). right. eexists _, _, _, _, _. split; [done|]. split; [done|].
    split; [by apply ORefused|]. intros _ Hls. by apply work_ok_default, Hwk, Hwk0. }
  rewrite (proj2 (Z.ltb_ge _ _)) by lia. pose proof (ml_quiet _ _ Hm) as Hq. cbn [cs_res] in Hq.
  assert (Hok1 : res_ok PAGE_SIZE (cs_res s1)) by by eapply quiet_res_ok.
  destruct (waiting_turn PAGE_SIZE ns now flags (CompatState res flags (Some wl) 0 1) s1 rc i l1)
    as [[-> Hb]|(rc2 & err2 & s2 & -> & Hwk2 & Hres2)]; try done; cbn [mbind run_bind];
    [left; split; [done|by rewrite <-quiet_behind by done]|right].
  assert (Hls : listed res wl -> listed (cs_res s2) (default [] (cs_work s2))).
  { intros Hl. by apply work_ok_default, Hwk2, (ml_list _ _ Hm), Hwk0. }
  destruct Hres2 as [(Hlt & -> & Hok2 & Hf & His)|(Hst & Hrc2)].
  { rewrite (proj2 (Z.ltb_lt _ _) Hlt). eexists _, _, _, _, _. by split_and!; [| |apply ORefused|]. }
  rewrite (proj2 (Z.ltb_ge _ _)) by lia. destruct (Z.eqb_spec (rc + rc2) 2) as [Hsum|Hsum].
  - destruct Hrc as [?|[_ Hcl]]; [lia|].
    destruct (enqueue_gets i (cs_res s1) (cs_res s2) l1 (cs_flags s2)
      (if grant_work then Some (default [] (cs_work s2)) else None))
      as (rf & r & res' & wl' & -> & Hr & Hg & Hok' & Hgets & Hls'); try done.
    cbn [mbind run_bind]. rewrite Hr. cbn [mbind run_bind]. rewrite Hg. cbn [mbind run_bind fst snd].
    eexists _, _, _, _, _. split; [done|]. split; [done|].
    split; [apply OGranted; [done|by eapply gets_trans]|]. intros -> Hl.
    rewrite (grant_no_work _ _ _ _ Hg). auto.
  - eexists _, _, _, _, _. split; [done|]. split; [by eapply stays_ok|].
    split; [|done]. apply OBlocked; [done|by eapply stays_trans].
Qed.

(** No granted lock is for the group of the request. *)
Definition no_granted_group (res : ldlm_resource) (l : ldlm_lock) : Prop :=
  forall j lj, lr_locks res !! j = Some lj -> granted lj -> l_req_mode lj = LCK_GROUP ->
  gid (l_extent lj) <> gid (l_extent l).

(** A group request that waits behind such a lock is inserted again. *)
Lemma process_behind res i l flags grant_work wl :
  res_ok PAGE_SIZE res -> pending res i l -> behind res i l -> no_granted_group res l ->
  would_block flags = false -> LDLM_TEST_FLAG flags LDLM_FL_DENY_ON_CONTENTION = false ->
  process_conflicts PAGE_SIZE ns now res i flags grant_work wl = LBUG.
Proof.
  intros Hok Hp Hb Hno Hwb Hdn. unfold process_conflicts.
  edestruct (granted_queue_spec PAGE_SIZE) with (s := CompatState res flags (Some wl) 0 1)
    as (rc & err & s1 & -> & Hres); [done|exact Hp|]. cbn [mbind run_bind cs_res cs_flags] in *.
  destruct Hres as [(_ & _ & _ & [?|?] & _)|(-> & Hm & Hrc)]; [cbn in *; congruence..|].
  pose proof (ml_quiet _ _ Hm) as Hq. cbn [cs_res] in Hq. destruct (quiet_pending _ _ _ _ Hq Hp) as (l1 & Hp1 & Hs1).
  assert (Hok1 : res_ok PAGE_SIZE (cs_res s1)) by by eapply quiet_res_ok.
  apply (quiet_behind _ _ _ _ _ Hq Hs1) in Hb. pose proof Hs1 as [(E & _ & _ & Ee & _)%core_inv _].
  assert (rc = 0 \/ rc = 1) as Hrc'.
  { destruct Hrc as [?|[[? _]|[-> Hgid]]]; [auto..|exfalso]. rewrite <-(q_itree _ _ Hq) in Hgid.
    destruct (gid_granted PAGE_SIZE (cs_res s1) l Hok1) as (j & lj & Hj & Hg & Hmj & Hgj); [|done|].
    - apply (ro_locks _ _ Hok _ _ (pd_lock _ _ _ Hp)).
    - destruct (quiet_lookup_back _ _ _ _ Hq Hj) as (lj0 & Hj0 & Hsj). pose proof Hsj as [(Ej & _ & _ & Eej & _)%core_inv _].
      apply (Hno j lj0); [done| |congruence|congruence]. by apply (same_lock_granted _ _ Hsj). }
  rewrite (proj2 (Z.ltb_ge rc 0)), (proj2 (Z.eqb_neq rc 2)) by lia. cbn [negb].
  unfold ldlm_extent_compat_queue, get_lock. rewrite (pd_lock _ _ _ Hp1). cbn [mbind run_bind].
  rewrite lockmode_verify_modes by apply (ro_locks _ _ Hok1 _ _ (pd_lock _ _ _ Hp1)). cbn [LASSERT].
  pose proof (res_ok_queue _ _ Hok1) as [Hnd Hw]. pose proof Hb as [Hg Hf]. pose proof (behind_waits _ _ _ Hb) as Hi.
  destruct (group_loop_spec i l1 (lr_waiting (cs_res s1)) l1 false (set_compat s1 1))
    as [[_ [Hx|(s' & _ & _ & _ & K)]]|[? _]]; try done; try apply Hp1.
  - unfold on_resource. cbn. by rewrite (bool_decide_eq_true_2 (i ∈ lr_waiting _) Hi), orb_true_r.
  - cbn [cs_res set_compat] in *. by rewrite Hx.
  - cbn [cs_flags set_compat] in K. pose proof (ml_block _ _ Hm). cbn in *. congruence.
Qed.

Lemma rescan_head_spec res i l wl :
  res_ok PAGE_SIZE res -> pending res i l -> head (lr_waiting res) = Some i ->
  exists rc flags' res' wl', process_rescan PAGE_SIZE ns now res i 0 wl = Ret (rc, ELDLM_OK, flags', res', wl')
    /\ res_ok PAGE_SIZE res'
    /\ (rc = LDLM_ITER_CONTINUE /\ gets i res res' \/ rc = LDLM_ITER_STOP /\ quiet res res' /\ hindered res l /\ wl' = wl).
Proof.
  intros Hok Hp Hh. unfold process_rescan. cbn [Z.eqb LASSERT].
  destruct (rescan_granted_check PAGE_SIZE ns now res i l) as (rc & s1 & -> & Hq & Hres); try done. cbn [mbind run_bind].
  assert (Hok1 : res_ok PAGE_SIZE (cs_res s1)) by by eapply quiet_res_ok.
  destruct (quiet_pending _ _ _ _ Hq Hp) as (l1 & Hp1 & Hs1).
  destruct Hres as [[-> Hhin]|[Hrc [Hcl Hf]]].
  { cbn [Z.eqb mbind run_bind]. eexists _, _, _, _. split; [done|]. split; [done|]. right. by split_and!. }
  assert (Hwait : exists rc2 s2, (if rc =? 1 then
      r ← ldlm_extent_compat_queue ns now Waiting i s1;
      let '(rc, err', s) := r in Ret (rc, match err' with Some _ => err' | None => None end, s)
    else Ret (rc, None, s1)) = Ret (rc2, None, s2) /\ quiet (cs_res s1) (cs_res s2) /\ rc2 <> 0 /\ cs_flags s2 = 0).
  { destruct Hrc as [->| ->]; cbn [Z.eqb Pos.eqb]; [|eexists _, _; by split_and!].
    destruct (waiting_head_check PAGE_SIZE ns now s1 i l1) as (s2 & -> & Hq2 & Hf2); try done; [by rewrite (q_waiting _ _ Hq)|].
    cbn [mbind run_bind]. eexists _, _. by split_and!. }
  destruct Hwait as (rc2 & s2 & -> & Hq2 & Hne & Hf2). cbn [mbind run_bind default].
  rewrite (proj2 (Z.eqb_neq _ _) Hne).
  destruct (quiet_pending _ _ _ _ Hq2 Hp1) as (l2 & Hp2 & Hs2).
  destruct (rescan_grant PAGE_SIZE pk Hpage Hpk (cs_res s2) i l2 (cs_flags s2) (Some wl))
    as (rf & r & res' & wl' & Hr & Hpol & Hg & Hok' & Hga); try done; [by eapply quiet_res_ok| |].
  { apply (same_lock_clear res (cs_res s2) l l2); [|by transitivity l1|done].
    apply (q_locks res (cs_res s2)). by etransitivity. }
  rewrite Hr. cbn [mbind run_bind]. rewrite Hpol. cbn [mbind run_bind]. rewrite Hg. cbn [mbind run_bind fst snd].
  eexists _, _, _, _. split; [done|]. split; [done|]. left. split; [done|]. exists (cs_res s2), l2.
  split; [|done]. apply quiet_stays. by etransitivity.
Qed.
End Process.
