(* ===== verification/LdlmServer.v ===== *)
(** The server side of the extent locks: the enqueue handler
    (lustre/ldlm/ldlm_lockd.c), [ldlm_lock_enqueue], the handling of conflicts and the
    reprocessing of the waiting list (lustre/ldlm/ldlm_lock.c).

    The resource lock is dropped while callbacks run: each definition is what happens
    from one acquisition of the lock to its release. *)

From stdpp Require Import gmap.
From S2P Require Import Prelude IntervalTree LdlmLock LdlmExtent LdlmIndex LdlmPolicy LdlmSafe.
From S2P Require Import LdlmSystem LdlmProcess.

Definition ERESTART : Z := 85.

Definition LDLM_FL_BLOCK_WAIT : Z := Z.shiftl 1 3.
Definition LDLM_FL_REPLAY : Z := Z.shiftl 1 8.
Definition LDLM_FL_TEST_LOCK : Z := Z.shiftl 1 19.
Definition LDLM_FL_CANCEL_ON_BLOCK : Z := Z.shiftl 1 23.
Definition LDLM_FL_COS_INCOMPAT : Z := Z.shiftl 1 24.
Definition LDLM_FL_NS_SRV : Z := Z.shiftl 1 54.
Definition LDLM_FL_RESENT : Z := Z.shiftl 1 56.
Definition LDLM_FL_COS_ENABLED : Z := Z.shiftl 1 57.
Definition LDLM_FL_BLOCKED_MASK : Z := Z.lor LDLM_FL_BLOCK_GRANTED LDLM_FL_BLOCK_WAIT.
Definition LDLM_FL_INHERIT_MASK : Z :=
  Z.lor (Z.lor (Z.lor LDLM_FL_CANCEL_ON_BLOCK LDLM_FL_NO_TIMEOUT) LDLM_FL_TEST_LOCK)
    LDLM_FL_NO_EXPANSION.

(** ** New locks *)

(** The lock [ldlm_lock_create] makes in a server namespace, without an extent. *)
Definition ldlm_lock_create (mode : Z) (blocking completion : bool) : ldlm_lock :=
  LdlmLock mode LCK_MINMODE (LdlmExtent 0 0 0) (LdlmExtent 0 0 0) None LDLM_FL_NS_SRV
    blocking completion None false false OwnNode 0.

(** The mode a request must have. *)
Definition enqueue_mode_ok (mode : Z) : bool :=
  negb ((mode <=? LCK_MINMODE) || (LCK_MAXMODE <=? mode) || negb (Z.land mode (mode - 1) =? 0)).

(** [ldlm_handle_enqueue0] up to the call of [ldlm_lock_enqueue]: the request's mode,
    extent and flags, the export, and the callbacks of the service. *)
Definition handle_enqueue_lock (mode : Z) (extent : ldlm_extent) (lock_flags : Z) (export : Z)
    (blocking completion : bool) : Z + ldlm_lock :=
  if negb (enqueue_mode_ok mode) then inl (- EFAULT)
  else
    let l := ldlm_lock_create mode blocking completion in
    inr (LdlmLock (l_req_mode l) (l_granted_mode l) extent extent (Some export)
           (Z.lor (l_flags l) (Z.land lock_flags LDLM_FL_INHERIT_MASK)) (l_blocking_ast l)
           (l_completion_ast l) (l_blocking_lock l) (l_bl_ast l) (l_cp_ast l) (l_tree_node l)
           (l_bl_ast_run l)).

(** ** Enqueueing *)

(** An enqueue is done with a result, or the lock waits and the callbacks of
    [rpc_list] are to be run. *)
Inductive enqueue_state :=
  | EnqDone (rc : Z)
  | EnqConflict (rpc_list : list Z).

Section Server.
Context (PAGE_SIZE : Z) (ns : ldlm_namespace) (now : Z).

(** The end of [ldlm_lock_enqueue_helper]. *)
Definition enqueue_done (rc flags : Z) (rpc_list : list Z) (res : ldlm_resource)
    : run (enqueue_state * Z * ldlm_resource) :=
  res ← ldlm_discard_bl_list rpc_list res;
  Ret (EnqDone rc, flags, res).

(** One turn of [ldlm_lock_enqueue_helper], with the first part of
    [ldlm_handle_conflict_lock]. *)
Definition ldlm_lock_enqueue_helper (res : ldlm_resource) (i flags : Z) (rpc_list : list Z)
    : run (enqueue_state * Z * ldlm_resource) :=
  r ← ldlm_process_extent_lock PAGE_SIZE ns now res i flags LDLM_PROCESS_ENQUEUE rpc_list;
  let '(_, rc, flags, res, rpc_list) := r in
  lock ← get_lock res i;
  if (rc =? ELDLM_OK) && negb (l_granted_mode lock =? l_req_mode lock) then
    res ← (if on_resource res i then Ret res else ldlm_resource_add_lock res Waiting i);
    Ret (EnqConflict rpc_list, flags, res)
  else enqueue_done rc flags rpc_list res.

(** [ldlm_handle_conflict_lock] behind the callbacks, whose result is [ast_rc], and
    what its caller does; [rpc_list] has the callbacks that were not run. *)
Definition ldlm_handle_conflict_lock (res : ldlm_resource) (i flags ast_rc : Z) (rpc_list : list Z)
    : run (enqueue_state * Z * ldlm_resource) :=
  lock ← get_lock res i;
  if ast_rc =? - ERESTART then
    if ldlm_is_destroyed lock then enqueue_done (- EAGAIN) flags rpc_list res
    else if l_granted_mode lock =? l_req_mode lock
    then enqueue_done ELDLM_OK (Z.ldiff flags LDLM_FL_BLOCKED_MASK) rpc_list res
    else ldlm_lock_enqueue_helper res i flags rpc_list
  else enqueue_done ELDLM_OK (Z.lor flags LDLM_FL_BLOCK_GRANTED) rpc_list res.

(** The flags of the enqueue that go to the lock. *)
Definition enqueue_lock_flags (flags l_flags : Z) : Z :=
  let put f b := if LDLM_TEST_FLAG flags b then LDLM_SET_FLAG f b else f in
  put (put (put (put l_flags LDLM_FL_AST_DISCARD_DATA) LDLM_FL_TEST_LOCK) LDLM_FL_COS_INCOMPAT)
    LDLM_FL_COS_ENABLED.

(** [ldlm_lock_enqueue] without an intent: [local] is the client's side, [node] tells
    whether an interval node can be allocated. *)
Definition ldlm_lock_enqueue (local node : bool) (res : ldlm_resource) (i flags : Z)
    : run (enqueue_state * Z * ldlm_resource) :=
  lock ← get_lock res i;
  if LDLM_TEST_FLAG flags LDLM_FL_RESENT then
    let flags := Z.lor flags LDLM_FL_LOCK_CHANGED in
    let flags := if negb (l_req_mode lock =? l_granted_mode lock)
                 then Z.lor flags LDLM_FL_BLOCK_GRANTED else flags in
    Ret (EnqDone ELDLM_OK, Z.lor flags (Z.land (l_flags lock) LDLM_FL_NO_TIMEOUT), res)
  else if local && (l_req_mode lock =? l_granted_mode lock)
  then Ret (EnqDone ELDLM_OK, Z.ldiff flags LDLM_FL_BLOCKED_MASK, res)
  else
    res ← ldlm_resource_unlink_lock res i;
    lock ← get_lock res i;
    let node := node && negb local && LDLM_TEST_FLAG flags LDLM_FL_REPLAY in
    let none := match l_tree_node lock with NoNode => true | _ => false end in
    if none && negb node then
      res ← ldlm_lock_destroy_nolock res i;
      Ret (EnqDone (- ENOMEM), flags, res)
    else
      let lock := if none then set_tree_node lock OwnNode else lock in
      let res := put_lock res i (set_flags lock (enqueue_lock_flags flags (l_flags lock))) in
      let waits res := res ← ldlm_resource_add_lock res Waiting i; Ret (EnqDone ELDLM_OK, flags, res) in
      let grants res := rw ← ldlm_grant_lock res i None; Ret (EnqDone ELDLM_OK, flags, rw.1) in
      if local then
        if LDLM_TEST_FLAG flags (Z.lor LDLM_FL_BLOCK_WAIT LDLM_FL_BLOCK_GRANTED) then waits res
        else grants res
      else if LDLM_TEST_FLAG flags LDLM_FL_REPLAY && LDLM_TEST_FLAG flags LDLM_FL_BLOCK_WAIT
      then waits res
      else if LDLM_TEST_FLAG flags LDLM_FL_REPLAY && LDLM_TEST_FLAG flags LDLM_FL_BLOCK_GRANTED
      then grants res
      else ldlm_lock_enqueue_helper res i flags [].

(** ** Reprocessing the waiting list *)

(** The walk over the queue: the result, the resource, the work list and the list of
    blocking callbacks. *)
Fixpoint reprocess_loop (intention : ldlm_process_intention) (queue : list Z) (res : ldlm_resource)
    (rc : Z) (work_list bl_ast_list : list Z) : run (Z * ldlm_resource * list Z * list Z) :=
  match queue with
  | [] => Ret (rc, res, work_list, bl_ast_list)
  | i :: queue' =>
      r ← ldlm_process_extent_lock PAGE_SIZE ns now res i 0 intention [];
      let '(rc, _, _, res, rpc_list) := r in
      pending ← get_lock res i;
      let granted := l_granted_mode pending =? l_req_mode pending in
      let work_list := if granted then rpc_list ++ work_list else work_list in
      let bl_ast_list := if granted then bl_ast_list else rpc_list ++ bl_ast_list in
      match intention with
      | LDLM_PROCESS_RESCAN =>
          if negb (rc =? LDLM_ITER_CONTINUE) then Ret (rc, res, work_list, bl_ast_list)
          else reprocess_loop intention queue' res rc work_list bl_ast_list
      | _ => reprocess_loop intention queue' res rc work_list bl_ast_list
      end
  end.

(** [ldlm_reprocess_queue] up to the blocking callbacks it sends. *)
Definition ldlm_reprocess_queue (res : ldlm_resource) (work_list : list Z)
    (intention : ldlm_process_intention) : run (Z * ldlm_resource * list Z * list Z) :=
  lassert (match intention with LDLM_PROCESS_ENQUEUE => false | _ => true end);
  reprocess_loop intention (lr_waiting res) res LDLM_ITER_CONTINUE work_list [].
End Server.
