(* ===== verification/LdlmReach.v ===== *)
(** The extent resource under every interleaving of the server's operations: the
    operations of LdlmServer and the callbacks never fail an assertion, granted locks
    are compatible, and a rescan leaves no lock waiting without a reason. *)

From stdpp Require Import gmap.
From S2P Require Import Prelude IntervalTree LdlmLock LdlmExtent LdlmIndex LdlmPolicy LdlmSafe.
From S2P Require Import LdlmSystem LdlmProcess LdlmServer.

(** ** Changes of one lock *)

Section Locks.
Context (PAGE_SIZE : Z).

Lemma get_known res i l : lr_locks res !! i = Some l -> get_lock res i = Ret l.
Proof. unfold get_lock. by intros ->. Qed.

(** A lock is replaced by one that differs in its callbacks. *)
Lemma relock_ok res i l l' :
  res_ok PAGE_SIZE res -> lr_locks res !! i = Some l -> lock_ok PAGE_SIZE l' ->
  l_req_mode l' = l_req_mode l -> l_granted_mode l' = l_granted_mode l -> l_extent l' = l_extent l ->
  l_tree_node l' = l_tree_node l -> ldlm_is_destroyed l' = ldlm_is_destroyed l ->
  res_ok PAGE_SIZE (put_lock res i l').
Proof.
  intros [H1 H2 H3 H4 H5 H6 H7 H8] Hl Hok E1 E2 E3 E4 E5.
  assert (Hto : forall j l0, lr_locks res !! j = Some l0 -> exists l1, <[i := l']> (lr_locks res) !! j = Some l1
    /\ l_tree_node l1 = l_tree_node l0 /\ l_granted_mode l1 = l_granted_mode l0
    /\ ldlm_is_destroyed l1 = ldlm_is_destroyed l0).
  { intros j l0 Hj. destruct (decide (j = i)) as [->|Hne]; [|exists l0; by rewrite lookup_insert_ne].
    exists l'. rewrite lookup_insert_eq. assert (l0 = l) as -> by congruence. done. }
  assert (Hof : forall j l1, <[i := l']> (lr_locks res) !! j = Some l1 -> exists l0, lr_locks res !! j = Some l0
    /\ l_tree_node l1 = l_tree_node l0 /\ l_granted_mode l1 = l_granted_mode l0
    /\ l_req_mode l1 = l_req_mode l0 /\ l_extent l1 = l_extent l0).
  { intros j l1 [[-> <-]|[? ?]]%lookup_insert_Some; eauto 10. }
  unfold put_lock. split; simpl; try done.
  - intros k t e j Ht. rewrite (H3 k t e j Ht). split; intros (l0 & Hj & Hn & Hm).
    + destruct (Hto j l0 Hj) as (l1 & Hl1 & Hn1 & Hm1 & _). exists l1. split_and!; congruence.
    + destruct (Hof j l0 Hj) as (l1 & Hl1 & Hn1 & Hm1 & _). exists l1. split_and!; congruence.
  - intros j l1 [[-> <-]|[? ?]]%lookup_insert_Some; eauto.
  - intros j (l0 & Hj & Hg)%H5. destruct (Hto j l0 Hj) as (l1 & Hl1 & Hn1 & _). exists l1.
    unfold granted in *. by rewrite Hn1.
  - intros j (l0 & Hj & Hn & Hd)%H6. destruct (Hto j l0 Hj) as (l1 & Hl1 & Hn1 & _ & Hd1). exists l1.
    split_and!; congruence.
  - intros j1 j2 l1 l2 Hj1 Hj2 Hne Hg1 Hg2.
    destruct (Hof j1 l1 Hj1) as (m1 & Hm1 & F1 & _ & F2 & F3), (Hof j2 l2 Hj2) as (m2 & Hm2 & G1 & _ & G2 & G3).
    assert (Hc : compatible m1 m2) by (apply (H8 j1 j2); unfold granted in *; rewrite <-?F1, <-?G1; done).
    unfold compatible in *. by rewrite F2, F3, G2, G3.
Qed.

Lemma new_lock_ok res i l :
  res_ok PAGE_SIZE res -> lr_locks res !! i = None -> lock_ok PAGE_SIZE l -> ~ granted l ->
  res_ok PAGE_SIZE (put_lock res i l).
Proof.
  intros [H1 H2 H3 H4 H5 H6 H7 H8] Hi Hok Hg.
  assert (Hgr : forall j l0, <[i := l]> (lr_locks res) !! j = Some l0 -> granted l0 -> lr_locks res !! j = Some l0).
  { intros j l0 [[-> <-]|[? ?]]%lookup_insert_Some; done. }
  assert (Hto : forall j l0, lr_locks res !! j = Some l0 -> <[i := l]> (lr_locks res) !! j = Some l0).
  { intros j l0 Hj. rewrite lookup_insert_ne; [done|congruence]. }
  unfold put_lock. split; simpl; try done.
  - intros k t e j Ht. rewrite (H3 k t e j Ht). split; intros (l0 & Hj & Hn & Hm); exists l0; split; auto.
    apply Hgr; [done|]. unfold granted. by rewrite Hn.
  - intros j l0 [[-> <-]|[? ?]]%lookup_insert_Some; eauto.
  - intros j (l0 & ? & ?)%H5. eauto.
  - intros j (l0 & ? & ?)%H6. eauto.
  - intros j1 j2 l1 l2 Hj1 Hj2 Hne Hg1 Hg2. eauto.
Qed.

Lemma add_waiting_ok res i l :
  res_ok PAGE_SIZE res -> pending res i l -> on_resource res i = false ->
  ldlm_resource_add_lock res Waiting i = Ret (set_waiting res (lr_waiting res ++ [i]))
  /\ res_ok PAGE_SIZE (set_waiting res (lr_waiting res ++ [i])).
Proof.
  intros Hok Hp Hon. split.
  - unfold ldlm_resource_add_lock, get_lock. rewrite (pd_lock _ _ _ Hp). cbn [mbind run_bind].
    by rewrite (pd_alive _ _ _ Hp), Hon.
  - eapply inserted_ok; [|done|done]. right. split; [done|]. exists (lr_waiting res), []. by rewrite app_nil_r.
Qed.

(** ** Callbacks *)

Lemma test_clear_flag f a b : Z.land a b = 0 -> LDLM_TEST_FLAG (LDLM_CLEAR_FLAG f a) b = LDLM_TEST_FLAG f b.
Proof.
  intros H. unfold LDLM_TEST_FLAG, LDLM_CLEAR_FLAG. do 2 f_equal. apply Z.bits_inj'. intros n Hn.
  rewrite !Z.land_spec, Z.ldiff_spec. apply (f_equal (fun z => Z.testbit z n)) in H.
  rewrite Z.land_spec, Z.bits_0 in H. destruct (Z.testbit f n), (Z.testbit a n), (Z.testbit b n); done.
Qed.

Lemma linked_ast l : ast_ok l -> l_bl_ast l = true ->
  ldlm_is_ast_sent l = true /\ l_blocking_lock l <> None /\ l_bl_ast_run l = 0.
Proof.
  intros [H1 H2] Hb. destruct (H2 Hb). split; [|done]. destruct (ldlm_is_ast_sent l); [done|].
  destruct H1 as [? _]; [done|congruence].
Qed.

Lemma discard_asts wl res :
  asts_ok res -> listed res wl ->
  exists res', ldlm_discard_bl_list wl res = Ret res' /\ quiet res res'.
Proof.
  revert res. induction wl as [|i wl IH]; intros res Ha [Hnd Hall]; [by exists res|].
  apply NoDup_cons in Hnd as [Hi Hnd]. apply Forall_cons in Hall as [(l & Hl & Hb) Hall].
  destruct (linked_ast l (Ha _ _ Hl) Hb) as (Hs & Hbl & Hrun).
  cbn [ldlm_discard_bl_list]. unfold get_lock. rewrite Hl. cbn [mbind run_bind].
  replace (ldlm_is_ast_sent (set_bl l (l_blocking_lock l) false)) with true by (symmetry; exact Hs).
  cbn [LASSERT l_bl_ast_run set_flags set_bl l_blocking_lock]. rewrite Hrun, bool_decide_eq_false_2 by done.
  cbn [Z.eqb negb LASSERT l_flags l_bl_ast].
  match goal with |- context [put_lock res i ?x] => set (l' := x) end.
  assert (Hq : quiet res (put_lock res i l')).
  { eapply quiet_put; [done|]. split.
    - unfold core, ldlm_is_destroyed, ldlm_is_cp_reqd. simpl. by rewrite !test_clear_flag.
    - intros _. split; [|done]. intros _. by rewrite <-Hrun. }
  destruct (IH (put_lock res i l')) as (res' & -> & Hq').
  - by eapply quiet_asts_ok.
  - split; [done|]. apply Forall_forall. intros j Hj. rewrite Forall_forall in Hall.
    destruct (Hall j Hj) as (lj & Hlj & Hbj). exists lj. cbn. rewrite lookup_insert_ne; [done|congruence].
  - exists res'. split; [done|by etransitivity].
Qed.

Lemma discard_spec wl res :
  res_ok PAGE_SIZE res -> listed res wl ->
  exists res', ldlm_discard_bl_list wl res = Ret res' /\ quiet res res'.
Proof. intros Hok. apply discard_asts. intros j l Hl. apply (ro_locks _ _ Hok _ _ Hl). Qed.

Lemma bl_start_ast res i l :
  ast_ok l -> lr_locks res !! i = Some l -> l_bl_ast l = true ->
  exists res', bl_ast_start res i = Ret res' /\ quiet res res'.
Proof.
  intros Ha Hl Hb. destruct (linked_ast l Ha Hb) as (Hs & Hbl & Hrun).
  unfold bl_ast_start, get_lock. rewrite Hl. cbn [mbind run_bind].
  replace (ldlm_is_ast_sent (set_bl l (l_blocking_lock l) false)) with true by (symmetry; exact Hs).
  cbn [LASSERT l_bl_ast_run set_bl l_blocking_lock]. rewrite Hrun, bool_decide_eq_false_2 by done.
  cbn [Z.eqb negb LASSERT]. eexists. split; [done|]. eapply quiet_put; [done|]. split; [done|].
  intros _. split; [|done]. unfold ldlm_is_ast_sent in *. simpl. congruence.
Qed.

Lemma bl_start_spec res i l :
  res_ok PAGE_SIZE res -> lr_locks res !! i = Some l -> l_bl_ast l = true ->
  exists res', bl_ast_start res i = Ret res' /\ quiet res res'.
Proof. intros Hok Hl. apply bl_start_ast; [apply (ro_locks _ _ Hok _ _ Hl)|done]. Qed.

Lemma bl_finish_ast res i l :
  lr_locks res !! i = Some l -> l_bl_ast_run l <> 0 -> l_blocking_lock l <> None ->
  exists res', bl_ast_finish res i = Ret res' /\ quiet res res'.
Proof.
  intros Hl Hrun Hb. unfold bl_ast_finish, get_lock. rewrite Hl. cbn [mbind run_bind].
  rewrite bool_decide_eq_false_2 by done. cbn [negb LASSERT]. eexists. split; [done|].
  eapply quiet_put; [done|]. split; [done|]. intros [H1 H2]. split; simpl.
  - intros Hs. destruct (H1 Hs) as (_ & _ & ?). done.
  - intros Hbl. destruct (H2 Hbl). done.
Qed.

Lemma bl_finish_spec res i l :
  res_ok PAGE_SIZE res -> lr_locks res !! i = Some l -> l_bl_ast_run l <> 0 -> l_blocking_lock l <> None ->
  exists res', bl_ast_finish res i = Ret res' /\ quiet res res'.
Proof. intros _. by apply bl_finish_ast. Qed.

Lemma cp_spec res i l :
  res_ok PAGE_SIZE res -> lr_locks res !! i = Some l -> l_cp_ast l = true ->
  exists called res', ldlm_work_cp_ast_lock res i = Ret (called, res') /\ res_ok PAGE_SIZE res'.
Proof.
  intros Hok Hl Hc. pose proof (ro_locks _ _ Hok _ _ Hl) as Hlk. unfold ldlm_work_cp_ast_lock, get_lock.
  rewrite Hl. cbn [mbind run_bind]. destruct (ldlm_is_cp_reqd (set_cp l false)) eqn:Hr.
  2: { pose proof (lk_cp _ _ Hlk Hr). congruence. }
  cbn [LASSERT]. eexists _, _. split; [done|]. eapply relock_ok; try done.
  - destruct Hlk as [[R1 R2 R3 R4] H1 H2 H3 H4 H5 H6 H7]. split; [by split|try done..].
    unfold ast_ok, ldlm_is_ast_sent in *. simpl. by rewrite test_clear_flag.
  - unfold ldlm_is_destroyed. simpl. by rewrite test_clear_flag.
Qed.

(** ** Cancelling *)

(** The resource without the granted lock [i]. *)
Definition without_granted (res : ldlm_resource) (i : Z) (lc : ldlm_lock) (k : nat)
    (t : ldlm_interval_tree) : ldlm_resource :=
  LdlmResource (<[i := lc]> (lr_locks res)) (<[k := t]> (lr_itree res))
    (base.filter (fun j => j <> i) (lr_granted res)) (base.filter (fun j => j <> i) (lr_waiting res))
    (lr_contention_time res).

Lemma without_granted_ok res i l lc k t t' ext :
  res_ok PAGE_SIZE res -> lr_locks res !! i = Some l -> l_tree_node l = InTree ext ->
  lock_ok PAGE_SIZE lc -> ~ granted lc -> lr_itree res !! k = Some t -> l_granted_mode l = lit_mode t ->
  lit_mode t' = lit_mode t -> index_ok (lit_root t') ->
  (forall e j, member (lit_root t') e j <-> member (lit_root t) e j /\ ~ (e = ext /\ j = i)) ->
  res_ok PAGE_SIZE (without_granted res i lc k t').
Proof.
  intros [H1 H2 H3 H4 H5 H6 H7 H8] Hl Hn Hlc Hng Ht Hgm Hmode Hix Hmem.
  assert (Htree : forall k0 t0, <[k := t']> (lr_itree res) !! k0 = Some t0 ->
    k0 = k /\ t0 = t' \/ k0 <> k /\ lr_itree res !! k0 = Some t0).
  { intros k0 t0 Ht0. apply list_lookup_insert_Some in Ht0 as [(-> & <- & _)|[? ?]]; auto. }
  assert (Hgr : forall j l0, <[i := lc]> (lr_locks res) !! j = Some l0 -> granted l0 ->
    j <> i /\ lr_locks res !! j = Some l0).
  { intros j l0 [[-> <-]|[? ?]]%lookup_insert_Some; done. }
  assert (Hin : forall k0 t0 e j, lr_itree res !! k0 = Some t0 ->
    (member (lit_root t0) e j /\ j <> i <-> exists l0, <[i := lc]> (lr_locks res) !! j = Some l0
       /\ l_tree_node l0 = InTree e /\ l_granted_mode l0 = lit_mode t0)).
  { intros k0 t0 e j Ht0. rewrite (H3 k0 t0 e j Ht0). split.
    - intros [(l0 & Hj & ?) Hne]. exists l0. by rewrite lookup_insert_ne.
    - intros (l0 & Hj & Hnode & ?). destruct (Hgr j l0 Hj) as [? ?]; [unfold granted; by rewrite Hnode|]. eauto. }
  unfold without_granted. split; cbn [lr_itree lr_locks lr_granted lr_waiting].
  - by rewrite length_insert.
  - intros k0 t0 [[-> ->]|[_ Ht0]]%Htree; [|by apply H2]. rewrite Hmode. by split; [apply H2|].
  - intros k0 t0 e j [[-> ->]|[Hne Ht0]]%Htree.
    + rewrite Hmem, Hmode, <-(Hin k t e j Ht). split; [|tauto]. intros [Hm Hneq]. split; [done|]. intros ->.
      apply Hneq. split; [|done]. apply (H3 k t e i Ht) in Hm as (l0 & Hl0 & He & _). congruence.
    + rewrite <-(Hin k0 t0 e j Ht0). split; [|tauto]. intros Hm. split; [done|]. intros ->.
      apply (H3 k0 t0 e i Ht0) in Hm as (l0 & Hl0 & _ & Hm0). assert (l0 = l) as -> by congruence.
      destruct (H2 k t Ht) as [Hl1 _]. destruct (H2 k0 t0 Ht0) as [Hl2 _].
      rewrite Hgm, Hl1, Hl2, !Z.shiftl_1_l in Hm0. apply Z.pow_inj_r in Hm0; lia.
  - intros j l0 [[-> <-]|[? ?]]%lookup_insert_Some; eauto.
  - intros j [Hj (l0 & ? & ?)%H5]%list_elem_of_filter. exists l0. by rewrite lookup_insert_ne.
  - intros j [Hj (l0 & ? & ?)%H6]%list_elem_of_filter. exists l0. by rewrite lookup_insert_ne.
  - by apply NoDup_filter.
  - intros j1 j2 l1 l2 Hj1 Hj2 Hne Hg1 Hg2. apply Hgr in Hj1 as [_ ?], Hj2 as [_ ?]; eauto.
Qed.

(** A lock as [ldlm_lock_cancel] leaves it. *)
Lemma cancelled_ok l f :
  lock_ok PAGE_SIZE l -> f = l_flags l \/ f = LDLM_SET_FLAG (l_flags l) LDLM_FL_DESTROYED ->
  lock_ok PAGE_SIZE (set_granted_mode (set_flags (set_tree_node l NoNode) f) LCK_MINMODE).
Proof.
  intros [[R1 R2 R3 R4] H1 H2 H3 H4 H5 H6 H7] Hf.
  assert (Hb : forall b, Z.land LDLM_FL_DESTROYED b = 0 -> LDLM_TEST_FLAG f b = LDLM_TEST_FLAG (l_flags l) b)
    by (intros b Hb; destruct Hf as [->| ->]; [done|by apply test_set_flag]).
  split; [by split|try done..].
  - unfold ast_ok, ldlm_is_ast_sent in *. simpl. by rewrite Hb.
  - unfold cp_ok, ldlm_is_cp_reqd in *. simpl. by rewrite Hb.
Qed.

(** What a cancelled lock and the others are. *)
Definition cancelled (res res' : ldlm_resource) (i : Z) : Prop :=
  (exists lc, lr_locks res' !! i = Some lc /\ ~ granted lc /\ ldlm_is_destroyed lc = true)
  /\ on_resource res' i = false
  /\ forall j, j <> i -> lr_locks res' !! j = lr_locks res !! j.

Lemma destroy_unlisted res i l :
  lr_locks res !! i = Some l -> on_resource res i = false ->
  exists f, ldlm_lock_destroy_nolock res i = Ret (put_lock res i (set_flags l f))
    /\ (f = l_flags l \/ f = LDLM_SET_FLAG (l_flags l) LDLM_FL_DESTROYED)
    /\ LDLM_TEST_FLAG f LDLM_FL_DESTROYED = true.
Proof.
  intros Hl Hon. unfold ldlm_lock_destroy_nolock, get_lock. rewrite Hl. cbn [mbind run_bind]. rewrite Hon.
  cbn [negb LASSERT]. destruct (ldlm_is_destroyed l) eqn:Hd.
  - exists (l_flags l). split_and!; [|by left|done]. rewrite put_lock_same; [done|]. rewrite Hl. by destruct l.
  - eexists. split_and!; [done|by right|]. by apply (test_set_flag_same _ 50).
Qed.

Lemma cancel_tail res i l :
  lr_locks res !! i = Some l -> on_resource res i = false ->
  exists f, (r ← ldlm_lock_destroy_nolock res i; lock ← get_lock r i;
             Ret (put_lock r i (set_granted_mode lock LCK_MINMODE)))
            = Ret (put_lock res i (set_granted_mode (set_flags l f) LCK_MINMODE))
    /\ (f = l_flags l \/ f = LDLM_SET_FLAG (l_flags l) LDLM_FL_DESTROYED)
    /\ LDLM_TEST_FLAG f LDLM_FL_DESTROYED = true.
Proof.
  intros Hl Hon. destruct (destroy_unlisted res i l Hl Hon) as (f & -> & Hf & Hd). exists f. split; [|done].
  cbn [mbind run_bind]. rewrite get_put. cbn [mbind run_bind]. by rewrite put_put.
Qed.

Lemma cancel_loose_spec res i l :
  res_ok PAGE_SIZE res -> lr_locks res !! i = Some l -> ~ granted l ->
  exists res', ldlm_lock_cancel res i = Ret res' /\ res_ok PAGE_SIZE res' /\ cancelled res res' i.
Proof.
  intros Hok Hl Hg. unfold ldlm_lock_cancel, ldlm_resource_unlink_lock, ldlm_extent_unlink_lock.
  rewrite (get_known _ _ _ Hl). cbn [mbind run_bind].
  replace (match l_tree_node l with InTree _ => _ | _ => Ret res end) with (Ret res)
    by (unfold granted in Hg; destruct (l_tree_node l); tauto). cbn [mbind run_bind].
  destruct (cancel_tail (list_del_res_link res i) i l Hl (list_del_off res i)) as (f & -> & Hf & Hd).
  pose proof (ro_locks _ _ Hok _ _ Hl) as Hlk. eexists. split; [done|]. split.
  - eapply put_loose_ok; [by apply list_del_ok|exact Hl|done| | |apply list_del_off]; [done|].
    destruct Hlk as [[R1 R2 R3 R4] H1 H2 H3 H4 H5 H6].
    assert (Hb : forall b, Z.land LDLM_FL_DESTROYED b = 0 -> LDLM_TEST_FLAG f b = LDLM_TEST_FLAG (l_flags l) b)
      by (intros b Hb; destruct Hf as [->| ->]; [done|by apply test_set_flag]).
    split; [by split|try done..].
    + simpl. unfold granted in Hg. by destruct (l_tree_node l).
    + unfold ast_ok, ldlm_is_ast_sent in *. simpl. by rewrite Hb.
    + unfold cp_ok, ldlm_is_cp_reqd in *. simpl. by rewrite Hb.
  - split_and!; [|apply list_del_off|intros j Hj; cbn; by rewrite lookup_insert_ne].
    eexists. split; [apply lookup_insert_eq|]. split; [done|exact Hd].
Qed.

Lemma cancel_granted_spec res i l ext :
  res_ok PAGE_SIZE res -> lr_locks res !! i = Some l -> l_tree_node l = InTree ext ->
  exists res', ldlm_lock_cancel res i = Ret res' /\ res_ok PAGE_SIZE res' /\ cancelled res res' i.
Proof.
  intros Hok Hl Hn. pose proof (ro_locks _ _ Hok _ _ Hl) as Hlk. pose proof Hlk as [[R1 _ _ _] _ _ _ Hnode _ _].
  rewrite Hn in Hnode. destruct Hnode as [Hgm _].
  destruct (mode_index _ R1) as (k & Hk & Hidx & Hmk).
  destruct (lookup_lt_is_Some_2 (lr_itree res) (Z.to_nat k)) as [t Ht]; [rewrite (ro_length _ _ Hok); lia|].
  destruct (ro_trees _ _ Hok _ _ Ht) as [Hlit Hix]. rewrite Z2Nat.id in Hlit by lia.
  destruct (index_remove_spec (lit_root t) ext i) as (root' & Hrm & Hix' & Hmem); [done| |].
  { apply (ro_members _ _ Hok _ _ _ _ Ht). exists l. split_and!; congruence. }
  unfold ldlm_lock_cancel, ldlm_resource_unlink_lock, ldlm_extent_unlink_lock.
  rewrite (get_known _ _ _ Hl). cbn [mbind run_bind]. rewrite Hn, Hgm, Hidx. cbn [mbind run_bind].
  rewrite <-Hmk, Z.eqb_refl. cbn [LASSERT]. unfold get_tree. rewrite Ht. cbn [mbind run_bind].
  rewrite Hrm. cbn [mbind run_bind].
  match goal with |- context [list_del_res_link ?r i] => set (res1 := r) end.
  destruct (cancel_tail (list_del_res_link res1 i) i (set_tree_node l NoNode)) as (f & -> & Hf & Hd);
    [apply lookup_insert_eq|apply list_del_off|].
  set (lc := set_granted_mode (set_flags (set_tree_node l NoNode) f) LCK_MINMODE).
  exists (without_granted res i lc (Z.to_nat k) (LdlmIntervalTree (lit_size t - 1) (lit_mode t) root')).
  split; [unfold without_granted, put_lock, res1, put_tree, put_lock, set_locks, set_itree; simpl;
          by rewrite insert_insert_eq|]. split.
  - eapply without_granted_ok; try done; [by apply cancelled_ok|by intros ?|congruence].
  - split_and!; [|apply on_resource_false; by split; intros [? _]%list_elem_of_filter|
      intros j Hj; cbn; by rewrite lookup_insert_ne].
    exists lc. split; [apply lookup_insert_eq|]. split; [by intros ?|exact Hd].
Qed.

Lemma cancel_spec res i l :
  res_ok PAGE_SIZE res -> lr_locks res !! i = Some l ->
  exists res', ldlm_lock_cancel res i = Ret res' /\ res_ok PAGE_SIZE res' /\ cancelled res res' i.
Proof.
  intros Hok Hl. destruct (l_tree_node l) as [| |ext] eqn:Hn; [| |by eapply cancel_granted_spec];
    (eapply cancel_loose_spec; [done..|unfold granted; rewrite Hn; tauto]).
Qed.
Lemma granted_modes res i l : res_ok PAGE_SIZE res -> lr_locks res !! i = Some l ->
  (l_granted_mode l =? l_req_mode l) = true <-> granted l.
Proof.
  intros Hok Hl. pose proof (ro_locks _ _ Hok _ _ Hl) as [[R1 _ _ _] _ _ _ Hn _ _]. apply mode_nonzero in R1.
  unfold granted. rewrite Z.eqb_eq. destruct (l_tree_node l); [|split; [congruence|tauto]..|tauto].
  split; [congruence|tauto].
Qed.

End Locks.

(** ** Enqueue and rescan *)

Lemma gets_granted i res res' j l :
  gets i res res' -> lr_locks res !! j = Some l -> granted l -> exists l', lr_locks res' !! j = Some l' /\ granted l'.
Proof.
  intros (r & l1 & Hst & [(lf & Hlf & Hgr & _) _ Hj]) Hl Hg. destruct (decide (j = i)) as [->|Hne]; [by exists lf|].
  pose proof (stays_locks i res r Hst j) as Hq. rewrite Hl in Hq. inversion Hq as [? l2 Hs E|]; subst.
  exists l2. rewrite Hj by done. split; [done|]. by apply (same_lock_granted l).
Qed.

Lemma gets_waiting i res res' q : gets i res res' -> lr_waiting res = i :: q -> i ∉ q -> lr_waiting res' = q.
Proof.
  intros (r & l1 & Hst & [_ Hw _]) Hq Hi. rewrite Hw, (stays_waiting i res r Hst), Hq.
  rewrite filter_cons_False by tauto. by apply filter_ne_id.
Qed.

Lemma quiet_hindered res res' l l' : quiet res res' -> same_lock l l' -> hindered res l -> hindered res' l'.
Proof.
  intros Hq [(E1 & _ & E3 & E4 & _)%core_inv _] (j & lj & Hj & Hg & Hh).
  destruct (quiet_lookup _ _ _ _ Hq Hj) as (lj' & Hj' & Hs). exists j, lj'. split; [done|].
  split; [by apply (same_lock_granted lj)|]. destruct Hs as [(F1 & _ & _ & F4 & _)%core_inv _].
  unfold hinders in *. by rewrite E1, E3, E4, F1, F4.
Qed.

Section Server.
Context (PAGE_SIZE pk : Z).
Hypothesis Hpage : PAGE_SIZE = 2 ^ pk.
Hypothesis Hpk : 0 <= pk < 64.
Context (ns : ldlm_namespace) (now : Z).

(** Where an enqueue leaves the lock. *)
Definition enqueued (res : ldlm_resource) (i : Z) (st : enqueue_state) : Prop :=
  match st with
  | EnqDone rc => rc = ELDLM_OK -> exists l, lr_locks res !! i = Some l /\ granted l
  | EnqConflict rpc_list => i ∈ lr_waiting res /\ listed res rpc_list
  end.

Lemma enqueue_done_spec res rc flags wl :
  res_ok PAGE_SIZE res -> listed res wl ->
  exists res', enqueue_done rc flags wl res = Ret (EnqDone rc, flags, res') /\ res_ok PAGE_SIZE res'
    /\ quiet res res'.
Proof.
  intros Hok Hls. unfold enqueue_done. destruct (discard_spec PAGE_SIZE wl res Hok Hls) as (res' & -> & Hq).
  cbn [mbind run_bind]. eexists. split; [done|]. split; [by eapply quiet_res_ok|done].
Qed.

Lemma quiet_granted res res' i l : quiet res res' -> lr_locks res !! i = Some l -> granted l ->
  exists l', lr_locks res' !! i = Some l' /\ granted l'.
Proof.
  intros Hq Hl Hg. destruct (quiet_lookup _ _ _ _ Hq Hl) as (l' & Hl' & Hs). exists l'.
  split; [done|]. by apply (same_lock_granted l).
Qed.

(** A lock that has to wait ends up on the waiting list. *)
Lemma conflict_spec res i l :
  res_ok PAGE_SIZE res -> pending res i l ->
  exists res', (if on_resource res i then Ret res else ldlm_resource_add_lock res Waiting i) = Ret res'
    /\ res_ok PAGE_SIZE res' /\ i ∈ lr_waiting res' /\ lr_locks res' = lr_locks res.
Proof.
  intros Hok Hp. destruct (on_resource res i) eqn:Hon.
  - exists res. split_and!; try done. unfold on_resource in Hon. apply orb_true_iff in Hon as [Hg|Hw].
    + apply bool_decide_eq_true in Hg. destruct (ro_granted _ _ Hok i Hg) as (l' & Hl' & Hgr).
      exfalso. apply (pending_not_granted _ _ _ Hp). rewrite (pd_lock _ _ _ Hp) in Hl'. by injection Hl' as ->.
    + by apply bool_decide_eq_true in Hw.
  - destruct (add_waiting_ok PAGE_SIZE res i l Hok Hp Hon) as [-> Hok']. eexists. split_and!; try done.
    simpl. apply elem_of_app. right. by left.
Qed.

Lemma helper_spec res i l flags wl :
  res_ok PAGE_SIZE res -> pending res i l -> listed res wl ->
  (LDLM_TEST_FLAG flags LDLM_FL_DENY_ON_CONTENTION = true -> ldlm_is_ast_discard_data l = false) ->
  (ldlm_lock_enqueue_helper PAGE_SIZE ns now res i flags wl = LBUG /\ behind res i l)
  \/ exists st flags' res', ldlm_lock_enqueue_helper PAGE_SIZE ns now res i flags wl = Ret (st, flags', res')
    /\ res_ok PAGE_SIZE res' /\ enqueued res' i st.
Proof.
  intros Hok Hp Hls Hd. unfold ldlm_lock_enqueue_helper, ldlm_process_extent_lock.
  destruct (process_asserts PAGE_SIZE res i l flags Hok Hp Hd) as [Ha1 Ha2].
  rewrite (get_known _ _ _ (pd_lock _ _ _ Hp)). cbn [mbind run_bind]. rewrite Ha1, Ha2. cbn [negb LASSERT].
  destruct (process_conflicts_spec PAGE_SIZE pk Hpage Hpk ns now res i l flags false wl)
    as [[-> Hb]|(rc & err & flags' & res' & wl' & -> & Hok' & Hout & Hls')]; try done; [by left|right].
  specialize (Hls' eq_refl Hls). cbn [mbind run_bind].
  destruct Hout as [-> (r1 & l1 & _ & [(lf & Hlf & Hgr & _) _ _])| -> Hst|Hneg Hf [lf Hlf]].
  - rewrite (get_known _ _ _ Hlf). cbn [mbind run_bind]. rewrite (proj2 (granted_modes _ _ _ _ Hok' Hlf) Hgr).
    cbn [Z.eqb andb negb]. destruct (enqueue_done_spec res' ELDLM_OK flags' wl') as (res2 & -> & Hok2 & Hq); try done.
    eexists _, _, _. split; [done|]. split; [done|]. intros _. by eapply quiet_granted.
  - destruct (stays_ok PAGE_SIZE i res res' l) as (_ & l' & Hp' & _); try done.
    rewrite (get_known _ _ _ (pd_lock _ _ _ Hp')). cbn [mbind run_bind].
    destruct (process_asserts PAGE_SIZE res' i l' 0 Hok' Hp') as [-> _]; [by rewrite test_zero|].
    cbn [Z.eqb andb negb ELDLM_OK]. destruct (conflict_spec res' i l') as (res2 & -> & Hok2 & Hw & Hlk); try done.
    cbn [mbind run_bind]. eexists _, _, _. split; [done|]. split; [done|]. split; [done|].
    by eapply listed_same.
  - rewrite (get_known _ _ _ Hlf). cbn [mbind run_bind]. rewrite (proj2 (Z.eqb_neq _ _)) by (unfold ELDLM_OK; lia).
    cbn [andb]. destruct (enqueue_done_spec res' err flags' wl') as (res2 & -> & Hok2 & Hq); try done.
    eexists _, _, _. split; [done|]. split; [done|]. intros ->. done.
Qed.

(** The end of the handling of a conflict. *)
Lemma handle_conflict_spec res i l flags ast_rc wl :
  res_ok PAGE_SIZE res -> lr_locks res !! i = Some l -> listed res wl ->
  (l_tree_node l = OwnNode \/ ldlm_is_destroyed l = true \/ granted l) ->
  (LDLM_TEST_FLAG flags LDLM_FL_DENY_ON_CONTENTION = true -> ldlm_is_ast_discard_data l = false) ->
  (ldlm_handle_conflict_lock PAGE_SIZE ns now res i flags ast_rc wl = LBUG /\ ast_rc = - ERESTART /\ behind res i l)
  \/ exists st flags' res', ldlm_handle_conflict_lock PAGE_SIZE ns now res i flags ast_rc wl = Ret (st, flags', res')
    /\ res_ok PAGE_SIZE res'.
Proof.
  intros Hok Hl Hls Hn Hd. unfold ldlm_handle_conflict_lock. rewrite (get_known _ _ _ Hl). cbn [mbind run_bind].
  assert (Hdone : forall rc f, exists st flags' res', enqueue_done rc f wl res = Ret (st, flags', res') /\ res_ok PAGE_SIZE res').
  { intros rc f. destruct (enqueue_done_spec res rc f wl Hok Hls) as (res' & -> & Hok' & _). by eexists _, _, _. }
  destruct (Z.eqb_spec ast_rc (- ERESTART)) as [->|_]; [|by right]. destruct (ldlm_is_destroyed l) eqn:Hde; [by right|].
  destruct (l_granted_mode l =? l_req_mode l) eqn:Hg; [by right|].
  destruct (helper_spec res i l flags wl) as [[-> Hb]|(st & f & res' & -> & Hok' & _)]; try done.
  - split; [done| |done]. destruct Hn as [?|[?|Hgr]]; [done|congruence|].
    apply (granted_modes _ _ _ _ Hok Hl) in Hgr. congruence.
  - by left.
  - right. by eexists _, _, _.
Qed.

(** The restart of a group request that waits behind a lock that is not for a group, or
    one for its group. *)
Lemma restart_behind res i l flags wl :
  res_ok PAGE_SIZE res -> pending res i l -> behind res i l -> no_granted_group res l ->
  would_block flags = false -> LDLM_TEST_FLAG flags LDLM_FL_DENY_ON_CONTENTION = false ->
  ldlm_handle_conflict_lock PAGE_SIZE ns now res i flags (- ERESTART) wl = LBUG.
Proof.
  intros Hok Hp Hb Hno Hwb Hdn. unfold ldlm_handle_conflict_lock, ldlm_lock_enqueue_helper, ldlm_process_extent_lock.
  destruct (process_asserts PAGE_SIZE res i l flags Hok Hp) as [Ha1 Ha2]; [congruence|].
  rewrite (get_known _ _ _ (pd_lock _ _ _ Hp)). cbn [mbind run_bind].
  rewrite Z.eqb_refl, (pd_alive _ _ _ Hp), Ha1, Ha2. cbn [negb LASSERT].
  erewrite process_behind; done.
Qed.

(** What a rescan of the waiting list leads to. *)
Record rescanned (res res' : ldlm_resource) (gs : list Z) : Prop := {
  rs_waiting : lr_waiting res = gs ++ lr_waiting res';
  rs_granted : Forall (fun j => exists l, lr_locks res' !! j = Some l /\ granted l) gs;
  rs_head : forall h, head (lr_waiting res') = Some h -> exists l, pending res' h l /\ hindered res' l;
  rs_kept : forall j l, lr_locks res !! j = Some l -> granted l -> exists l', lr_locks res' !! j = Some l' /\ granted l';
  rs_stop : gs = [] -> forall h, head (lr_waiting res) = Some h -> exists l, pending res h l /\ hindered res l
}.

Lemma rescan_turn res i q :
  res_ok PAGE_SIZE res -> lr_waiting res = i :: q ->
  exists l rc flags' res' wl', pending res i l
    /\ ldlm_process_extent_lock PAGE_SIZE ns now res i 0 LDLM_PROCESS_RESCAN [] = Ret (rc, ELDLM_OK, flags', res', wl')
    /\ res_ok PAGE_SIZE res'
    /\ (rc = LDLM_ITER_CONTINUE /\ gets i res res'
        \/ rc = LDLM_ITER_STOP /\ quiet res res' /\ hindered res l /\ wl' = []).
Proof.
  intros Hok Hq. destruct (ro_waiting _ _ Hok i) as (l & Hl & Hn & Hd); [rewrite Hq; by left|].
  assert (Hp : pending res i l) by by split. exists l. unfold ldlm_process_extent_lock. rewrite (get_known _ _ _ Hl).
  destruct (process_asserts PAGE_SIZE res i l 0 Hok Hp) as [Ha1 Ha2]; [by rewrite test_zero|].
  cbn [mbind run_bind]. rewrite Ha1, Ha2. cbn [negb LASSERT].
  destruct (rescan_head_spec PAGE_SIZE pk Hpage Hpk ns now res i l []) as (rc & fl & res' & wl' & Hrun & Hok' & Hres);
    [done|done|by rewrite Hq|]. by exists rc, fl, res', wl'.
Qed.

Lemma reprocess_spec queue res rc0 wl :
  res_ok PAGE_SIZE res -> lr_waiting res = queue ->
  exists rc res' wl' gs, reprocess_loop PAGE_SIZE ns now LDLM_PROCESS_RESCAN queue res rc0 wl [] = Ret (rc, res', wl', [])
    /\ res_ok PAGE_SIZE res' /\ rescanned res res' gs.
Proof.
  revert res rc0 wl. induction queue as [|i queue IH]; intros res rc0 wl Hok Hw.
  { eexists _, _, _, []. split; [done|]. split; [done|]. split; [done|constructor| |eauto|]; by rewrite Hw. }
  destruct (rescan_turn res i queue Hok Hw) as (l & rc & fl & res1 & wl1 & Hp & Hrun & Hok1 & Hres).
  cbn [reprocess_loop]. rewrite Hrun. cbn [mbind run_bind].
  destruct Hres as [[-> Hget]|(-> & Hq & Hh & ->)].
  - pose proof Hget as (r & l1 & _ & [(lf & Hlf & Hgr & _) _ _]). rewrite (get_known _ _ _ Hlf). cbn [mbind run_bind].
    rewrite (proj2 (granted_modes _ _ _ _ Hok1 Hlf) Hgr). cbn [negb Z.eqb Pos.eqb LDLM_ITER_CONTINUE].
    pose proof (ro_nodup _ _ Hok) as Hnd. rewrite Hw in Hnd. apply NoDup_cons in Hnd as [Hi _].
    destruct (IH res1 LDLM_ITER_CONTINUE (wl1 ++ wl)) as (rc & res' & wl' & gs & -> & Hok' & [G1 G2 G3 G4 G5]);
      [done|by eapply gets_waiting|].
    eexists _, _, _, (i :: gs). split; [done|]. split; [done|]. split; [|constructor; eauto|done| |done].
    + rewrite Hw. cbn. rewrite <-G1. f_equal. symmetry. by eapply gets_waiting.
    + intros j lj Hj Hg. destruct (gets_granted i res res1 j lj Hget Hj Hg) as (l' & Hl' & Hg'). eauto.
  - destruct (quiet_pending _ _ _ _ Hq Hp) as (l1 & Hp1 & Hs1). rewrite (get_known _ _ _ (pd_lock _ _ _ Hp1)).
    cbn [mbind run_bind]. destruct (process_asserts PAGE_SIZE res1 i l1 0 Hok1 Hp1) as [-> _]; [by rewrite test_zero|].
    cbn [negb Z.eqb Pos.eqb LDLM_ITER_CONTINUE LDLM_ITER_STOP app].
    eexists _, _, _, []. split; [done|]. split; [done|]. split; [by rewrite (q_waiting _ _ Hq)|constructor| | |].
    + rewrite (q_waiting _ _ Hq), Hw. intros h [= <-]. exists l1. split; [done|]. by eapply quiet_hindered.
    + intros j lj Hj Hg. by eapply quiet_granted.
    + rewrite Hw. intros _ h [= <-]. by exists l.
Qed.
End Server.
