(* ===== verification/LdlmProps.v ===== *)
(** The extent lock server as a whole: its operations in any order, and what holds in
    every state they lead to. *)

From stdpp Require Import gmap.
From S2P Require Import Prelude IntervalTree LdlmLock LdlmExtent LdlmIndex LdlmPolicy LdlmSafe.
From S2P Require Import LdlmSystem LdlmProcess LdlmServer LdlmReach.

(** ** Operations *)

Inductive ldlm_op :=
  | OpCreate (i mode : Z) (extent : ldlm_extent) (lock_flags export : Z) (blocking completion : bool)
  | OpEnqueue (i flags now : Z)
  | OpConflict (i flags ast_rc : Z) (rpc_list : list Z) (now : Z)
  | OpRescan (work_list : list Z) (now : Z)
  | OpCancel (i : Z)
  | OpBlStart (i : Z)
  | OpBlFinish (i : Z)
  | OpCpAst (i : Z).

Section Ops.
Context (PAGE_SIZE : Z) (ns : ldlm_namespace).

Definition ldlm_do (op : ldlm_op) (res : ldlm_resource) : run ldlm_resource :=
  match op with
  | OpCreate i mode extent lock_flags export blocking completion =>
      match handle_enqueue_lock mode extent lock_flags export blocking completion with
      | inl _ => Ret res
      | inr l => Ret (put_lock res i l)
      end
  | OpEnqueue i flags now =>
      r ← ldlm_lock_enqueue PAGE_SIZE ns now false false res i flags; Ret r.2
  | OpConflict i flags ast_rc rpc_list now =>
      r ← ldlm_handle_conflict_lock PAGE_SIZE ns now res i flags ast_rc rpc_list; Ret r.2
  | OpRescan work_list now =>
      r ← ldlm_reprocess_queue PAGE_SIZE ns now res work_list LDLM_PROCESS_RESCAN; Ret r.1.1.2
  | OpCancel i => ldlm_lock_cancel res i
  | OpBlStart i => bl_ast_start res i
  | OpBlFinish i => bl_ast_finish res i
  | OpCpAst i => r ← ldlm_work_cp_ast_lock res i; Ret r.2
  end.

(** What a client asks for: whole pages of the server; a group lock covers the object
    and names its group, a null lock names none. *)
Definition extent_request_ok (mode : Z) (extent : ldlm_extent) : Prop :=
  aligned PAGE_SIZE (start extent) (end_ extent)
  /\ (mode = LCK_GROUP -> start extent = 0 /\ end_ extent = OBD_OBJECT_EOF /\ gid extent <> 0)
  /\ (mode = LCK_NL -> gid extent = 0).

(** [LDLM_FL_DENY_ON_CONTENTION] does not go with a lock whose data are discarded. *)
Definition deny_ok (flags : Z) (l : ldlm_lock) : Prop :=
  LDLM_TEST_FLAG flags LDLM_FL_DENY_ON_CONTENTION = true -> ldlm_is_ast_discard_data l = false.

(** When an operation may happen: a new lock has a handle of its own; a request is
    enqueued once, without the flags of recovery, and [LDLM_FL_DENY_ON_CONTENTION] does not
    go with a lock whose data are discarded; the handling of a conflict goes on with any result
    of the callbacks, a restart included, for a request that has its interval node or
    was granted or destroyed meanwhile, and the callbacks that were not run are a list of
    linked locks; a callback that runs was linked. Nothing is assumed about where a
    request that is restarted waits. *)
Definition ldlm_can (res : ldlm_resource) (op : ldlm_op) : Prop :=
  match op with
  | OpCreate i mode extent _ _ _ _ => lr_locks res !! i = None /\ extent_request_ok mode extent
  | OpEnqueue i flags _ =>
      LDLM_TEST_FLAG flags (Z.lor LDLM_FL_RESENT LDLM_FL_REPLAY) = false
      /\ (LDLM_TEST_FLAG flags LDLM_FL_DENY_ON_CONTENTION = true ->
          LDLM_TEST_FLAG flags LDLM_FL_AST_DISCARD_DATA = false)
      /\ exists l, lr_locks res !! i = Some l /\ deny_ok flags l /\ on_resource res i = false
           /\ l_tree_node l = OwnNode /\ ldlm_is_destroyed l = false
  | OpConflict i flags _ rpc_list _ =>
      listed res rpc_list
      /\ exists l, lr_locks res !! i = Some l /\ deny_ok flags l
           /\ (l_tree_node l = OwnNode \/ ldlm_is_destroyed l = true \/ granted l)
  | OpRescan _ _ => True
  | OpCancel i => is_Some (lr_locks res !! i)
  | OpBlStart i => exists l, lr_locks res !! i = Some l /\ l_bl_ast l = true
  | OpBlFinish i => exists l, lr_locks res !! i = Some l /\ l_bl_ast_run l <> 0 /\ l_blocking_lock l <> None
  | OpCpAst i => exists l, lr_locks res !! i = Some l /\ l_cp_ast l = true
  end.

(** Operations one after the other. *)
Fixpoint ldlm_run (ops : list ldlm_op) (res : ldlm_resource) : run ldlm_resource :=
  match ops with
  | [] => Ret res
  | op :: ops' => res ← ldlm_do op res; ldlm_run ops' res
  end.

(** The states the operations lead to from an empty resource. *)
Inductive ldlm_reachable : ldlm_resource -> Prop :=
  | reach_new : ldlm_reachable ldlm_resource_new
  | reach_step res op res' :
      ldlm_reachable res -> ldlm_can res op -> ldlm_do op res = Ret res' -> ldlm_reachable res'.
End Ops.

(** ** Each operation keeps the invariant *)

Lemma enqueue_mode_ok_modes m : enqueue_mode_ok m = true -> m ∈ modes.
Proof.
  unfold enqueue_mode_ok. rewrite negb_true_iff, !orb_false_iff, negb_false_iff.
  intros [[H1%Z.leb_gt H2%Z.leb_gt] H3%Z.eqb_eq]. unfold LCK_MINMODE, LCK_MAXMODE in *.
  assert (Hall : forallb (fun k => negb (Z.land k (k - 1) =? 0) || existsb (Z.eqb k) modes) (seqZ 1 128) = true)
    by by vm_compute.
  rewrite forallb_forall in Hall. specialize (Hall m). rewrite H3 in Hall.
  destruct (existsb_exists (Z.eqb m) modes) as [He _].
  destruct He as (k & Hk & ->%Z.eqb_eq); [apply Hall, list_elem_of_In, elem_of_seqZ; lia|by apply list_elem_of_In].
Qed.

Section Steps.
Context (PAGE_SIZE pk : Z).
Hypothesis Hpage : PAGE_SIZE = 2 ^ pk.
Hypothesis Hpk : 0 <= pk < 64.
Context (ns : ldlm_namespace).

Lemma create_ok mode extent f export b c l :
  handle_enqueue_lock mode extent f export b c = inr l -> extent_request_ok PAGE_SIZE mode extent ->
  lock_ok PAGE_SIZE l /\ ~ granted l.
Proof.
  unfold handle_enqueue_lock. destruct (enqueue_mode_ok mode) eqn:Hm; [|done]. cbn [negb]. intros [= <-] (Ha & Hg & Hn).
  apply enqueue_mode_ok_modes in Hm. pose proof Ha as (H1 & H2 & H3). split; [|by intros ?].
  split; [by split|simpl; lia|simpl; lia|by intros _|done|by split|by intros _|by split; apply Ha].
Qed.

(** The flags an enqueue adds to a lock. *)
Lemma enqueue_flags_test flags f b :
  Z.land (Z.lor (Z.lor LDLM_FL_AST_DISCARD_DATA LDLM_FL_TEST_LOCK) (Z.lor LDLM_FL_COS_INCOMPAT LDLM_FL_COS_ENABLED)) b = 0 ->
  LDLM_TEST_FLAG (enqueue_lock_flags flags f) b = LDLM_TEST_FLAG f b.
Proof.
  rewrite !Z.land_lor_distr_l. intros [[H1 H2]%Z.lor_eq_0_iff [H3 H4]%Z.lor_eq_0_iff]%Z.lor_eq_0_iff.
  unfold enqueue_lock_flags. repeat case_match; by rewrite ?test_set_flag.
Qed.

Lemma enqueue_flags_discard flags f :
  LDLM_TEST_FLAG flags LDLM_FL_AST_DISCARD_DATA = false ->
  LDLM_TEST_FLAG (enqueue_lock_flags flags f) LDLM_FL_AST_DISCARD_DATA = LDLM_TEST_FLAG f LDLM_FL_AST_DISCARD_DATA.
Proof. intros H. unfold enqueue_lock_flags. rewrite H. repeat case_match; by rewrite ?test_set_flag. Qed.

Lemma list_del_id res i : on_resource res i = false -> list_del_res_link res i = res.
Proof.
  intros [H1 H2]%on_resource_false. unfold list_del_res_link, set_waiting, set_granted. simpl.
  rewrite !filter_ne_id by done. by destruct res.
Qed.

Lemma enqueue_lock_ok l f : lock_ok PAGE_SIZE l -> lock_ok PAGE_SIZE (set_flags l (enqueue_lock_flags f (l_flags l))).
Proof.
  intros [[R1 R2 R3 R4] H5 H6 H7 H8 H9 H10]. split; [by split|..]; try done.
  - unfold ast_ok, ldlm_is_ast_sent in *. simpl. by rewrite enqueue_flags_test.
  - unfold cp_ok, ldlm_is_cp_reqd in *. simpl. by rewrite enqueue_flags_test.
Qed.

Lemma enqueue_spec now res i flags :
  res_ok PAGE_SIZE res -> ldlm_can PAGE_SIZE res (OpEnqueue i flags now) ->
  exists st flags' res', ldlm_lock_enqueue PAGE_SIZE ns now false false res i flags = Ret (st, flags', res')
    /\ res_ok PAGE_SIZE res' /\ enqueued res' i st.
Proof.
  intros Hok (Hfl & Hdn & l & Hl & Hdl & Hon & Hn & Hd). unfold ldlm_lock_enqueue. rewrite (get_known _ _ _ Hl).
  assert (Hno : LDLM_TEST_FLAG flags LDLM_FL_RESENT = false /\ LDLM_TEST_FLAG flags LDLM_FL_REPLAY = false).
  { unfold LDLM_TEST_FLAG in *. rewrite Z.land_lor_distr_r, negb_false_iff, Z.eqb_eq in Hfl.
    apply Z.lor_eq_0_iff in Hfl as [-> ->]. done. }
  destruct Hno as [Hr1 Hr2]. cbn [mbind run_bind]. rewrite Hr1. cbn [andb].
  rewrite (unlink_own res i l) by done. cbn [mbind run_bind]. rewrite (list_del_id _ _ Hon), (get_known _ _ _ Hl).
  cbn [mbind run_bind]. rewrite Hn, Hr2. cbn [andb negb].
  set (l' := set_flags l (enqueue_lock_flags flags (l_flags l))).
  destruct (helper_spec PAGE_SIZE pk Hpage Hpk ns now (put_lock res i l') i l' flags []) as [[_ Hb]|K]; [..|exact K].
  - eapply relock_ok; try done; [by apply enqueue_lock_ok, (ro_locks _ _ Hok _ _ Hl)|].
    unfold ldlm_is_destroyed. simpl. by apply enqueue_flags_test.
  - split; [apply lookup_insert_eq|done|]. unfold ldlm_is_destroyed. simpl. by rewrite enqueue_flags_test.
  - split; constructor.
  - intros Hdeny. unfold ldlm_is_ast_discard_data. simpl. rewrite enqueue_flags_discard by auto. by apply Hdl.
  - apply on_resource_false in Hon as [_ Hw]. by destruct Hw; apply (behind_waits _ _ _ Hb).
Qed.

Lemma other_op_ok res op :
  res_ok PAGE_SIZE res -> ldlm_can PAGE_SIZE res op ->
  (forall i flags rc wl now, op <> OpConflict i flags rc wl now) ->
  exists res', ldlm_do PAGE_SIZE ns op res = Ret res' /\ res_ok PAGE_SIZE res'.
Proof.
  intros Hok Hcan Hno. destruct op as [i m e f x b c|i flags now|i flags rc wl now|wl now|i|i|i|i]; cbn [ldlm_do].
  - destruct Hcan as [Hi Hrq]. destruct (handle_enqueue_lock m e f x b c) as [r|l] eqn:Hl; [by eexists|].
    eexists. split; [done|]. destruct (create_ok _ _ _ _ _ _ _ Hl Hrq). by apply new_lock_ok.
  - destruct (enqueue_spec now res i flags Hok Hcan) as (st & f & res' & -> & Hok' & _). by eexists.
  - by destruct (Hno i flags rc wl now).
  - unfold ldlm_reprocess_queue. cbn [LASSERT].
    destruct (reprocess_spec PAGE_SIZE pk Hpage Hpk ns now (lr_waiting res) res LDLM_ITER_CONTINUE wl)
      as (rc & res' & wl' & gs & -> & Hok' & _); [done..|]. by eexists.
  - destruct Hcan as [l Hl]. destruct (cancel_spec PAGE_SIZE res i l Hok Hl) as (res' & -> & Hok' & _). by eexists.
  - destruct Hcan as (l & Hl & Hb). destruct (bl_start_spec PAGE_SIZE res i l Hok Hl Hb) as (res' & -> & Hq).
    eexists. split; [done|by eapply quiet_res_ok].
  - destruct Hcan as (l & Hl & Hr & Hb). destruct (bl_finish_spec PAGE_SIZE res i l Hok Hl Hr Hb) as (res' & -> & Hq).
    eexists. split; [done|by eapply quiet_res_ok].
  - destruct Hcan as (l & Hl & Hc). destruct (cp_spec PAGE_SIZE res i l Hok Hl Hc) as (b & res' & -> & Hok'). by eexists.
Qed.

(** The one way an assertion fails: the restart of a group request that waits behind a
    lock that is not for a group, or one for its own group. *)
Definition restarts_behind (res : ldlm_resource) (op : ldlm_op) : Prop :=
  exists i flags rpc_list now l, op = OpConflict i flags (- ERESTART) rpc_list now
    /\ lr_locks res !! i = Some l /\ behind res i l.

Lemma ldlm_do_ok res op :
  res_ok PAGE_SIZE res -> ldlm_can PAGE_SIZE res op ->
  (ldlm_do PAGE_SIZE ns op res = LBUG /\ restarts_behind res op)
  \/ exists res', ldlm_do PAGE_SIZE ns op res = Ret res' /\ res_ok PAGE_SIZE res'.
Proof.
  intros Hok Hcan.
  assert (Hret : (forall i flags rc wl now, op <> OpConflict i flags rc wl now) ->
    exists res', ldlm_do PAGE_SIZE ns op res = Ret res' /\ res_ok PAGE_SIZE res').
  { intros Hno. by apply other_op_ok. }
  destruct op as [| |i flags rc wl now| | | | |]; try (right; by apply Hret). cbn [ldlm_do].
  destruct Hcan as (Hls & l & Hl & Hd & Hn).
  destruct (handle_conflict_spec PAGE_SIZE pk Hpage Hpk ns now res i l flags rc wl)
    as [(-> & -> & Hb)|(st & f & res' & -> & Hok')]; try done.
  - left. split; [done|]. by exists i, flags, wl, now, l.
  - right. by eexists.
Qed.

Lemma resource_new_ok : res_ok PAGE_SIZE ldlm_resource_new.
Proof.
  assert (Ht : forall k t, lr_itree ldlm_resource_new !! k = Some t ->
    lit_mode t = Z.shiftl 1 (Z.of_nat k) /\ lit_root t = Leaf).
  { intros k t Hk. unfold ldlm_resource_new in Hk. cbn in Hk.
    do 8 (destruct k as [|k]; [injection Hk as <-; done|]). done. }
  split; try done.
  - intros k t [-> ->]%Ht. split; [done|apply index_ok_leaf].
  - intros k t e j [_ Hr]%Ht. rewrite Hr. split; [by intros (g & ?%elem_of_nil & _)|by intros (l & ? & _)].
  - by intros j ?%elem_of_nil.
  - by intros j ?%elem_of_nil.
  - constructor.
Qed.

Lemma reachable_ok res : ldlm_reachable PAGE_SIZE ns res -> res_ok PAGE_SIZE res.
Proof.
  induction 1 as [|res op res' _ IH Hcan Hdo]; [apply resource_new_ok|].
  destruct (ldlm_do_ok res op IH Hcan) as [[? _]|(res2 & Hdo2 & Hok)]; congruence.
Qed.
End Steps.

(** ** Theorems *)

(** C3: in every state the server's operations lead to from an empty resource, two
    different granted extent locks are compatible: either their modes are (and two
    group locks are of the same group), or their extents have no byte in common. The
    operations are enqueues with their checks, growth and waiting, the handling of
    conflicts with restarts, rescans of the waiting list, cancels, and the runs of
    blocking and completion callbacks, in any order. *)
Theorem granted_locks_compatible (PAGE_SIZE pk : Z) ns res i j li lj :
  PAGE_SIZE = 2 ^ pk -> 0 <= pk < 64 -> ldlm_reachable PAGE_SIZE ns res ->
  lr_locks res !! i = Some li -> lr_locks res !! j = Some lj -> i <> j ->
  l_granted_mode li = l_req_mode li -> l_granted_mode lj = l_req_mode lj ->
  if lockmode_compat (l_req_mode li) (l_req_mode lj)
  then l_req_mode li = LCK_GROUP -> l_req_mode lj = LCK_GROUP -> gid (l_extent li) = gid (l_extent lj)
  else ldlm_extent_overlap (l_extent li) (l_extent lj) = false.
Proof.
  intros Hpage Hpk Hr Hi Hj Hne Hgi Hgj. apply (reachable_ok _ pk Hpage Hpk) in Hr.
  apply (ro_excl _ _ Hr i j li lj Hi Hj Hne);
    [apply (granted_modes _ _ _ _ Hr Hi)|apply (granted_modes _ _ _ _ Hr Hj)]; by apply Z.eqb_eq.
Qed.

(** C9: from every state the server's operations lead to, every operation that may
    happen returns, and the state it returns is again one of these; no assertion fails and
    no null pointer is followed. The one exception is the restart of the enqueue of a group
    lock that waits behind a lock that is not for a group, or behind one for its group. *)
Theorem ldlm_lbug_only_restart (PAGE_SIZE pk : Z) ns res op :
  PAGE_SIZE = 2 ^ pk -> 0 <= pk < 64 -> ldlm_reachable PAGE_SIZE ns res -> ldlm_can PAGE_SIZE res op ->
  (exists res', ldlm_do PAGE_SIZE ns op res = Ret res' /\ ldlm_reachable PAGE_SIZE ns res')
  \/ ldlm_do PAGE_SIZE ns op res = LBUG /\ restarts_behind res op.
Proof.
  intros Hpage Hpk Hr Hcan.
  destruct (ldlm_do_ok PAGE_SIZE pk Hpage Hpk ns res op) as [K|(res' & Hdo & _)]; [by eapply reachable_ok|done|by right|].
  left. exists res'. split; [done|by eapply reach_step].
Qed.

(** C21: a rescan of the waiting list grants waiting locks in their order, loses no
    granted lock, and stops only at a lock that a granted lock is in the way of: when
    nothing is in the way of the first waiting lock, the rescan grants it. *)
Theorem rescan_grants_waiters (PAGE_SIZE pk : Z) ns res work_list now :
  PAGE_SIZE = 2 ^ pk -> 0 <= pk < 64 -> ldlm_reachable PAGE_SIZE ns res ->
  exists rc res' work_list' gs,
    ldlm_reprocess_queue PAGE_SIZE ns now res work_list LDLM_PROCESS_RESCAN = Ret (rc, res', work_list', [])
    /\ lr_waiting res = gs ++ lr_waiting res'
    /\ (forall j, j ∈ gs -> exists l, lr_locks res' !! j = Some l /\ l_granted_mode l = l_req_mode l)
    /\ (forall j l, lr_locks res !! j = Some l -> l_granted_mode l = l_req_mode l ->
         exists l', lr_locks res' !! j = Some l' /\ l_granted_mode l' = l_req_mode l')
    /\ (forall h, head (lr_waiting res') = Some h -> exists l, lr_locks res' !! h = Some l /\ hindered res' l)
    /\ (forall h l, head (lr_waiting res) = Some h -> lr_locks res !! h = Some l -> ~ hindered res l -> h ∈ gs).
Proof.
  intros Hpage Hpk Hr. apply (reachable_ok _ pk Hpage Hpk) in Hr. unfold ldlm_reprocess_queue. cbn [LASSERT].
  destruct (reprocess_spec PAGE_SIZE pk Hpage Hpk ns now (lr_waiting res) res LDLM_ITER_CONTINUE work_list)
    as (rc & res' & wl' & gs & -> & Hok' & [G1 G2 G3 G4 G5]); [done..|].
  exists rc, res', wl', gs. split; [done|]. split; [done|]. split; [|split; [|split]].
  - intros j Hj. rewrite Forall_forall in G2. destruct (G2 j Hj) as (l & Hl & Hg). exists l. split; [done|].
    by apply Z.eqb_eq, (granted_modes _ _ _ _ Hok' Hl).
  - intros j l Hl Hg. destruct (G4 j l Hl) as (l' & Hl' & Hg').
    { by apply (granted_modes _ _ _ _ Hr Hl), Z.eqb_eq. }
    exists l'. split; [done|]. by apply Z.eqb_eq, (granted_modes _ _ _ _ Hok' Hl').
  - intros h (l & Hp & Hh)%G3. exists l. split; [apply Hp|done].
  - intros h l Hh Hl Hno. destruct gs as [|g gs]; [|rewrite G1 in Hh; injection Hh as ->; by left].
    destruct (G5 eq_refl h Hh) as (l' & Hp & Hhin). rewrite (pd_lock _ _ _ Hp) in Hl. by injection Hl as ->.
Qed.

(** C28: in every reachable state the eight interval trees of the resource are exactly
    the index of the granted locks: a lock is in a node of a tree just when it is
    granted in the mode of that tree and the node has its extent; and the extent of a
    lock always contains the extent its client asked for and is made of whole pages of
    the server. *)
Theorem interval_trees_index_granted (PAGE_SIZE pk : Z) ns res j l :
  PAGE_SIZE = 2 ^ pk -> 0 <= pk < 64 -> ldlm_reachable PAGE_SIZE ns res -> lr_locks res !! j = Some l ->
  start (l_extent l) <= start (l_req_extent l) /\ end_ (l_req_extent l) <= end_ (l_extent l)
  /\ (PAGE_SIZE | start (l_extent l)) /\ (PAGE_SIZE | end_ (l_extent l) + 1)
  /\ forall k t ext, lr_itree res !! k = Some t ->
       member (lit_root t) ext j
       <-> l_granted_mode l = l_req_mode l /\ l_req_mode l = Z.shiftl 1 (Z.of_nat k)
           /\ ext = Extent (start (l_extent l)) (end_ (l_extent l)).
Proof.
  intros Hpage Hpk Hr Hl. apply (reachable_ok _ pk Hpage Hpk) in Hr.
  pose proof (ro_locks _ _ Hr _ _ Hl) as [_ H1 H2 _ H4 _ _ [H7 H8]]. do 2 (split; [lia|]). do 2 (split; [done|]).
  intros k t ext Ht. destruct (ro_trees _ _ Hr k t Ht) as [Hm _]. rewrite (ro_members _ _ Hr k t ext j Ht), Hm. split.
  - intros (l0 & Hl0 & Hn & Hg). assert (l0 = l) as -> by congruence. rewrite Hn in H4. destruct H4. split_and!; congruence.
  - intros (Hg & Hk & ->). exists l. apply Z.eqb_eq, (granted_modes _ _ _ _ Hr Hl) in Hg as Hgr.
    unfold granted in Hgr. destruct (l_tree_node l) as [| |e]; [done|done|]. destruct H4 as [? ->]. split_and!; congruence.
Qed.

(** cancelling a lock of a reachable state always succeeds: the lock is no longer
    granted or waiting, is marked destroyed and is in no interval tree, and every
    other lock is as it was. *)
Lemma ldlm_lock_cancel_removes (PAGE_SIZE pk : Z) ns res i l :
  PAGE_SIZE = 2 ^ pk -> 0 <= pk < 64 -> ldlm_reachable PAGE_SIZE ns res -> lr_locks res !! i = Some l ->
  exists res' l', ldlm_lock_cancel res i = Ret res' /\ lr_locks res' !! i = Some l'
    /\ ldlm_is_destroyed l' = true /\ l_granted_mode l' <> l_req_mode l' /\ on_resource res' i = false
    /\ (forall k t ext, lr_itree res' !! k = Some t -> ~ member (lit_root t) ext i)
    /\ (forall j, j <> i -> lr_locks res' !! j = lr_locks res !! j).
Proof.
  intros Hpage Hpk Hr Hl. apply (reachable_ok _ pk Hpage Hpk) in Hr.
  destruct (cancel_spec PAGE_SIZE res i l Hr Hl) as (res' & -> & Hok & (lc & Hlc & Hng & Hd) & Hon & Hj).
  exists res', lc. split_and!; try done.
  - intros He%Z.eqb_eq%(granted_modes _ _ _ _ Hok Hlc). done.
  - intros k t ext Ht Hm. apply (ro_members _ _ Hok k t ext i Ht) in Hm as (l0 & Hl0 & Hn & _).
    apply Hng. unfold granted. assert (l0 = lc) as -> by congruence. by rewrite Hn.
Qed.

(** ** A run of the server *)

Module ExtentRun.
Definition page : Z := 4096.
Definition ns : ldlm_namespace := LdlmNamespace 32 2 0.

(** The resource an operation leads to. *)
Definition after (op : ldlm_op) (res : ldlm_resource) : ldlm_resource :=
  match ldlm_do page ns op res with Ret res' => res' | LBUG => res end.

Definition create (i mode s e : Z) : ldlm_op := OpCreate i mode (LdlmExtent s e 0) 0 7 true true.

(** Lock 1 is granted and grows over the whole object; locks 2 and 3 wait for it; its
    blocking callback runs, it is cancelled, and the rescan grants 2 and 3. *)
Definition r1 := Eval vm_compute in after (create 1 LCK_PW 0 4095) ldlm_resource_new.
Definition r2 := Eval vm_compute in after (OpEnqueue 1 0 100) r1.
Definition r3 := Eval vm_compute in after (create 2 LCK_PW 8192 12287) r2.
Definition r4 := Eval vm_compute in after (OpEnqueue 2 0 100) r3.
Definition r5 := Eval vm_compute in after (create 3 LCK_PW 16384 20479) r4.
Definition r6 := Eval vm_compute in after (OpEnqueue 3 0 100) r5.
Definition r7 := Eval vm_compute in after (OpBlStart 1) r6.
Definition r8 := Eval vm_compute in after (OpCancel 1) r7.
Definition r9 := Eval vm_compute in after (OpRescan [] 101) r8.

(** Closes the guard of an operation in a concrete state. *)
Ltac extent_guard :=
  try unfold create;
  lazymatch goal with
  | |- ldlm_can _ _ (OpCreate _ _ _ _ _ _ _) =>
      split; [vm_compute; reflexivity|]; split; [|split; done];
      repeat split; try (vm_compute; congruence); cbn; (apply Z.mod_divide; [done|reflexivity])
  | |- ldlm_can _ _ (OpEnqueue _ _ _) =>
      split; [reflexivity|]; split; [done|]; eexists; split; [vm_compute; reflexivity|];
      split; [done|]; split; [vm_compute; reflexivity|done]
  | |- ldlm_can _ _ (OpBlStart _) => eexists; split; [vm_compute; reflexivity|done]
  | |- ldlm_can _ _ (OpCancel _) => eexists; vm_compute; reflexivity
  | |- ldlm_can _ _ (OpRescan _ _) => exact I
  end.

Ltac extent_step op res := eapply (reach_step page ns res op); [|extent_guard|vm_compute; reflexivity].

Lemma reach_r2 : ldlm_reachable page ns r2.
Proof. extent_step (OpEnqueue 1 0 100) r1. extent_step (create 1 LCK_PW 0 4095) ldlm_resource_new. apply reach_new. Qed.

Lemma reach_r6 : ldlm_reachable page ns r6.
Proof.
  extent_step (OpEnqueue 3 0 100) r5. extent_step (create 3 LCK_PW 16384 20479) r4.
  extent_step (OpEnqueue 2 0 100) r3. extent_step (create 2 LCK_PW 8192 12287) r2. apply reach_r2.
Qed.

Lemma reach_r8 : ldlm_reachable page ns r8.
Proof. extent_step (OpCancel 1) r7. extent_step (OpBlStart 1) r6. apply reach_r6. Qed.

Lemma reach_r9 : ldlm_reachable page ns r9.
Proof. extent_step (OpRescan [] 101) r8. apply reach_r8. Qed.

(** The lock with the given handle. *)
Definition lock_of (res : ldlm_resource) (i : Z) : ldlm_lock :=
  default (ldlm_lock_create 0 false false) (lr_locks res !! i).

Lemma known (res : ldlm_resource) (i : Z) :
  bool_decide (is_Some (lr_locks res !! i)) = true -> lr_locks res !! i = Some (lock_of res i).
Proof. intros H%bool_decide_eq_true. unfold lock_of. by destruct H as [l ->]. Qed.

Lemma granted_locks_compatible_witness :
  end_ (l_extent (lock_of r9 2)) = 16383 /\ start (l_extent (lock_of r9 3)) = 16384
  /\ ldlm_extent_overlap (l_extent (lock_of r9 2)) (l_extent (lock_of r9 3)) = false.
Proof.
  split; [vm_compute; reflexivity|]. split; [vm_compute; reflexivity|].
  apply (granted_locks_compatible page 12 ns r9 2 3 (lock_of r9 2) (lock_of r9 3)).
  - reflexivity.
  - lia.
  - apply reach_r9.
  - apply known; vm_compute; reflexivity.
  - apply known; vm_compute; reflexivity.
  - lia.
  - vm_compute; reflexivity.
  - vm_compute; reflexivity.
Defined.

Lemma ldlm_lbug_only_restart_witness :
  (exists res', ldlm_do page ns (OpCancel 1) r6 = Ret res' /\ ldlm_reachable page ns res')
  \/ ldlm_do page ns (OpCancel 1) r6 = LBUG /\ restarts_behind r6 (OpCancel 1).
Proof.
  apply (ldlm_lbug_only_restart page 12 ns r6 (OpCancel 1)); [reflexivity|lia|apply reach_r6|].
  eexists. apply known; vm_compute; reflexivity.
Defined.

Lemma rescan_grants_waiters_witness :
  lr_waiting r8 = [2; 3]
  /\ exists rc res' work_list' gs,
       ldlm_reprocess_queue page ns 101 r8 [] LDLM_PROCESS_RESCAN = Ret (rc, res', work_list', [])
       /\ [2; 3] = gs ++ lr_waiting res'
       /\ (forall j, j ∈ gs -> exists l, lr_locks res' !! j = Some l /\ l_granted_mode l = l_req_mode l).
Proof.
  split; [vm_compute; reflexivity|].
  destruct (rescan_grants_waiters page 12 ns r8 [] 101 eq_refl ltac:(lia) reach_r8)
    as (rc & res' & wl & gs & H1 & H2 & H3 & _).
  exists rc, res', wl, gs. split; [exact H1|]. split; [exact H2|exact H3].
Defined.

Lemma interval_trees_index_granted_witness :
  l_granted_mode (lock_of r9 2) = LCK_PW
  /\ (forall t, lr_itree r9 !! 1%nat = Some t -> member (lit_root t) (Extent 0 16383) 2).
Proof.
  split; [vm_compute; reflexivity|]. intros t Ht.
  destruct (interval_trees_index_granted page 12 ns r9 2 (lock_of r9 2) eq_refl ltac:(lia) reach_r9
    ltac:(apply known; vm_compute; reflexivity)) as (_ & _ & _ & _ & Hix).
  apply (Hix 1%nat t (Extent 0 16383) Ht). split; [vm_compute; reflexivity|]. split; vm_compute; reflexivity.
Defined.

Lemma ldlm_lock_cancel_removes_witness :
  on_resource r6 1 = true
  /\ exists res' l', ldlm_lock_cancel r6 1 = Ret res' /\ lr_locks res' !! 1 = Some l'
       /\ ldlm_is_destroyed l' = true /\ on_resource res' 1 = false.
Proof.
  split; [vm_compute; reflexivity|].
  destruct (ldlm_lock_cancel_removes page 12 ns r6 1 (lock_of r6 1) eq_refl ltac:(lia) reach_r6
    ltac:(apply known; vm_compute; reflexivity)) as (res' & l' & H1 & H2 & H3 & _ & H4 & _).
  exists res', l'. split; [exact H1|]. split; [exact H2|]. split; [exact H3|exact H4].
Defined.
End ExtentRun.

(** ** Where the code falls short *)

Definition run_result (page : Z) (ops : list ldlm_op) : ldlm_resource :=
  match ldlm_run page ExtentRun.ns ops ldlm_resource_new with Ret res => res | LBUG => ldlm_resource_new end.

(** Requests in pages of 4096 bytes. Lock 1 is granted; locks 2, 3 and 4 wait; lock 1
    is cancelled and the waiting list is rescanned. *)
Definition small_pages : list ldlm_op :=
  [ExtentRun.create 1 LCK_PW 0 4095; OpEnqueue 1 0 100;
   ExtentRun.create 2 LCK_PW 65536 131071; OpEnqueue 2 0 100;
   ExtentRun.create 3 LCK_PW 0 4095; OpEnqueue 3 0 100;
   ExtentRun.create 4 LCK_PW 8192 12287; OpEnqueue 4 0 100;
   OpBlStart 1; OpCancel 1; OpRescan [] 101].

(** On a server with pages of 65536 bytes, requests of a client with pages of 4096 bytes
    lead to two granted write locks whose extents overlap. With server pages of 4096 bytes
    the same requests get disjoint extents. *)
Lemma small_page_requests_overlap :
  exists res l2 l3, ldlm_run 65536 ExtentRun.ns small_pages ldlm_resource_new = Ret res
    /\ lr_locks res !! 2 = Some l2 /\ lr_locks res !! 3 = Some l3
    /\ l_granted_mode l2 = LCK_PW /\ l_granted_mode l3 = LCK_PW
    /\ ldlm_extent_overlap (l_extent l2) (l_extent l3) = true
    /\ exists res' m2 m3, ldlm_run 4096 ExtentRun.ns small_pages ldlm_resource_new = Ret res'
         /\ lr_locks res' !! 2 = Some m2 /\ lr_locks res' !! 3 = Some m3
         /\ ldlm_extent_overlap (l_extent m2) (l_extent m3) = false.
Proof.
  set (r := run_result 65536 small_pages). exists r, (ExtentRun.lock_of r 2), (ExtentRun.lock_of r 3).
  do 6 (split; [vm_compute; reflexivity|]).
  set (r' := run_result 4096 small_pages). exists r', (ExtentRun.lock_of r' 2), (ExtentRun.lock_of r' 3).
  do 3 (split; [vm_compute; reflexivity|]). vm_compute; reflexivity.
Qed.

(** The fixup of a grown extent, which is meant to only shrink it, does not when
    the extent ends below the first boundary of the server's pages, as extents around a
    request in smaller pages do: an extent that starts at 0 becomes the whole object,
    whatever locks limited its growth, and any other one fails an assertion. *)
Lemma fixup_below_first_page (PAGE_SIZE pk : Z) (req : ldlm_lock) (ex : ldlm_extent) (conflicting : Z) :
  PAGE_SIZE = 2 ^ pk -> 0 <= pk < 64 ->
  0 <= start ex <= start (l_req_extent req) -> start (l_req_extent req) <= end_ (l_req_extent req) <= end_ ex ->
  end_ ex + 1 < PAGE_SIZE ->
  ldlm_extent_internal_policy_fixup PAGE_SIZE req ex conflicting
  = if start ex =? 0 then Ret (LdlmExtent 0 OBD_OBJECT_EOF (gid ex)) else LBUG.
Proof. intros Hpage Hpk. by apply (fixup_low PAGE_SIZE pk Hpage Hpk). Qed.

(** C38: when a restart fails. In every state the server reaches, the restart of the enqueue
    of a waiting group lock, no granted lock being for its group, fails an assertion if and
    only if in front of it on the waiting list is a lock that is not for a group, or one for
    its group: the check of the waiting list then inserts the request there although it is
    on the list already. *)
Theorem group_restart_lbug (PAGE_SIZE pk : Z) ns res i l flags rpc_list now :
  PAGE_SIZE = 2 ^ pk -> 0 <= pk < 64 -> ldlm_reachable PAGE_SIZE ns res ->
  ldlm_can PAGE_SIZE res (OpConflict i flags (- ERESTART) rpc_list now) ->
  lr_locks res !! i = Some l -> l_req_mode l = LCK_GROUP -> i ∈ lr_waiting res -> no_granted_group res l ->
  would_block flags = false -> LDLM_TEST_FLAG flags LDLM_FL_DENY_ON_CONTENTION = false ->
  ldlm_do PAGE_SIZE ns (OpConflict i flags (- ERESTART) rpc_list now) res = LBUG
  <-> exists xs j ys lj, lr_waiting res = xs ++ j :: ys /\ (i ∈ ys) /\ lr_locks res !! j = Some lj
        /\ (l_req_mode lj <> LCK_GROUP \/ gid (l_extent lj) = gid (l_extent l)).
Proof.
  intros Hpage Hpk Hr Hcan Hl Hg Hi Hno Hwb Hdn. apply (reachable_ok _ pk Hpage Hpk) in Hr.
  destruct (ro_waiting _ _ Hr i Hi) as (l0 & Hl0 & Hn & Hd). assert (l0 = l) as -> by congruence.
  assert (Hp : pending res i l) by by split. split.
  - intros Hx. destruct (ldlm_do_ok PAGE_SIZE pk Hpage Hpk ns res _ Hr Hcan) as [[_ K]|(res' & K & _)]; [|congruence].
    destruct K as (i' & f' & w' & n' & l' & [= <- <- <- <-] & Hl' & _ & Hf). by assert (l' = l) as -> by congruence.
  - intros Hf. cbn [ldlm_do]. by erewrite restart_behind.
Qed.

(** A write lock; a request for the group 5 that waits for it, and whose blocking callback
    is sent; a null lock, which is granted; and a second request for the group, which also
    conflicts with the null lock, so that a callback is sent for it; its client has dropped
    the null lock, which the server cancels, and the enqueue of the second request is
    restarted. *)
Module GroupRun.
Import ExtentRun.

Definition group (i : Z) : ldlm_op := OpCreate i LCK_GROUP (LdlmExtent 0 OBD_OBJECT_EOF 5) 0 8 true true.
Definition g1 := Eval vm_compute in after (group 2) r2.
Definition g2 := Eval vm_compute in after (OpEnqueue 2 0 100) g1.
Definition g3 := Eval vm_compute in after (OpBlStart 1) g2.
Definition g4 := Eval vm_compute in after (create 4 LCK_NL 0 4095) g3.
Definition g5 := Eval vm_compute in after (OpEnqueue 4 0 100) g4.
Definition g6 := Eval vm_compute in after (group 3) g5.
Definition g7 := Eval vm_compute in after (OpEnqueue 3 0 100) g6.
Definition g8 := Eval vm_compute in after (OpBlStart 4) g7.
Definition g9 := Eval vm_compute in after (OpCancel 4) g8.

Ltac group_guard :=
  split; [vm_compute; reflexivity|]; split;
    [repeat split; try (vm_compute; congruence); cbn; (apply Z.mod_divide; [done|reflexivity])
    |split; [intros _; split; [reflexivity|]; split; [reflexivity|discriminate]|discriminate]].

Lemma reach_g9 : ldlm_reachable page ns g9.
Proof.
  extent_step (OpCancel 4) g8. extent_step (OpBlStart 4) g7. extent_step (OpEnqueue 3 0 100) g6.
  eapply (reach_step page ns g5 (group 3)); [|group_guard|vm_compute; reflexivity].
  extent_step (OpEnqueue 4 0 100) g4. extent_step (create 4 LCK_NL 0 4095) g3. extent_step (OpBlStart 1) g2.
  extent_step (OpEnqueue 2 0 100) g1.
  eapply (reach_step page ns r2 (group 2)); [|group_guard|vm_compute; reflexivity]. apply reach_r2.
Qed.

Lemma g9_locks : forall j lj, lr_locks g9 !! j = Some lj -> granted lj -> l_req_mode lj <> LCK_GROUP.
Proof.
  assert (H : forallb (fun p => match l_tree_node p.2 with
                                | InTree _ => negb (l_req_mode p.2 =? LCK_GROUP)
                                | _ => true
                                end) (map_to_list (lr_locks g9)) = true) by (vm_compute; reflexivity).
  intros j lj Hj Hg Hm. rewrite forallb_forall in H.
  specialize (H (j, lj) ltac:(by apply list_elem_of_In, elem_of_map_to_list)). cbn in H.
  unfold granted in Hg. destruct (l_tree_node lj); [done|done|]. by rewrite Hm in H.
Qed.

Lemma group_restart_lbug_witness :
  (exists f res', ldlm_lock_enqueue page ns 100 false false g6 3 0 = Ret (EnqConflict [4], f, res'))
  /\ ldlm_do page ns (OpConflict 3 0 (- ERESTART) [] 101) g9 = LBUG.
Proof.
  split; [do 2 eexists; vm_compute; reflexivity|].
  apply (group_restart_lbug page 12 ns g9 3 (lock_of g9 3) 0 [] 101).
  - reflexivity.
  - lia.
  - apply reach_g9.
  - split; [split; constructor|]. exists (lock_of g9 3). split; [apply known; vm_compute; reflexivity|].
    split; [intros K; discriminate K|]. left. vm_compute. reflexivity.
  - apply known; vm_compute; reflexivity.
  - vm_compute. reflexivity.
  - apply (bool_decide_eq_true_1 (3 ∈ lr_waiting g9)). vm_compute. reflexivity.
  - intros j lj Hj Hg Hm. by destruct (g9_locks j lj Hj Hg).
  - reflexivity.
  - reflexivity.
  - exists [], 2, [3], (lock_of g9 2). split; [vm_compute; reflexivity|]. split; [by left|].
    split; [apply known; vm_compute; reflexivity|]. right. vm_compute. reflexivity.
Defined.
End GroupRun.
