(* ===== verification/LdlmKms.v ===== *)
(** The known minimum size after a lock is cancelled (lustre/ldlm/ldlm_extent.c,
    [ldlm_extent_shift_kms]). *)

From Stdlib Require Import Sorted.
From stdpp Require Import gmap.
From S2P Require Import Prelude IntervalTree IntervalWalk LdlmLock LdlmExtent LdlmIndex LdlmPolicy LdlmSafe.
From S2P Require Import LdlmSystem LdlmProcess LdlmServer LdlmReach LdlmProps.

(** A lock of one of the nodes that counts for the size ends at [e]. *)
Definition counts (res : ldlm_resource) (xs : list (interval_node_extent * list Z)) (e : Z) : Prop :=
  exists ext g j l, (ext, g) ∈ xs /\ j ∈ g /\ lr_locks res !! j = Some l
    /\ ldlm_is_kms_ignore l = false /\ end_ (l_extent l) = e.

(** The locks of a node are granted in [mode] and end where the node ends. *)
Definition node_locks (res : ldlm_resource) (mode : Z) (x : interval_node_extent * list Z) : Prop :=
  Forall (fun j => exists l, lr_locks res !! j = Some l /\ l_granted_mode l = mode
                    /\ end_ (l_extent l) = ext_end x.1) x.2.

Lemma first_counted_spec res mode ext group :
  node_locks res mode (ext, group) ->
  exists r, first_counted res group = Ret r
    /\ match r with
       | Some l => l_granted_mode l = mode /\ end_ (l_extent l) = ext_end ext
                   /\ exists j, j ∈ group /\ lr_locks res !! j = Some l /\ ldlm_is_kms_ignore l = false
       | None => forall j l, j ∈ group -> lr_locks res !! j = Some l -> ldlm_is_kms_ignore l = true
       end.
Proof.
  unfold node_locks. simpl. induction group as [|j group IH]; intros Hall.
  { exists None. split; [done|]. by intros j l ?%elem_of_nil. }
  apply Forall_cons in Hall as [(l & Hl & Hm & He) Hall]. simpl. unfold get_lock. rewrite Hl. cbn [mbind run_bind].
  destruct (ldlm_is_kms_ignore l) eqn:Hk.
  - destruct (IH Hall) as (r & -> & Hr). exists r. split; [done|]. destruct r as [l0|].
    + destruct Hr as (? & ? & j0 & ? & ?). split_and!; try done. exists j0. split; [by right|done].
    + intros j0 l0 [->|Hj]%elem_of_cons Hl0; [congruence|eauto].
  - exists (Some l). split; [done|]. split_and!; try done. exists j. split; [by left|done].
Qed.

Section Calls.
Context (res : ldlm_resource) (mode old : Z).

(** The state of the walk: the new size is below the old one, or the walk is over. *)
Definition walk_ok (xs : list (interval_node_extent * list Z)) (a a' : ldlm_kms_shift_args) : Prop :=
  old_kms a' = old /\ kms a <= kms a'
  /\ ((complete a' = true /\ kms a' = old /\ exists e, counts res xs e /\ old <= e)
      \/ complete a' = false /\ (forall e, counts res xs e -> e < old /\ e + 1 <= kms a')
         /\ (kms a' = kms a \/ counts res xs (kms a' - 1))).

Lemma counts_cons x xs e : counts res (x :: xs) e <-> counts res [x] e \/ counts res xs e.
Proof.
  unfold counts. split.
  - intros (ext & g & j & l & [<-|Hin]%elem_of_cons & H); [left|right]; exists ext, g, j, l; split; try done. by left.
  - intros [(ext & g & j & l & Hin & H)|(ext & g & j & l & Hin & H)]; exists ext, g, j, l; split; try done; [|by right].
    apply list_elem_of_singleton in Hin. subst x. by left.
Qed.

Lemma counts_nil e : ~ counts res [] e.
Proof. by intros (ext & g & j & l & ?%elem_of_nil & _). Qed.

Lemma counts_one ext g l j :
  j ∈ g -> lr_locks res !! j = Some l -> ldlm_is_kms_ignore l = false -> counts res [(ext, g)] (end_ (l_extent l)).
Proof. intros Hj Hl Hk. exists ext, g, j, l. split_and!; try done. by left. Qed.

Lemma counts_node x e : node_locks res mode x -> counts res [x] e -> e = ext_end x.1.
Proof.
  intros Hn (ext & g & j & l & Hin & Hj & Hl & _ & <-). apply list_elem_of_singleton in Hin. subst x.
  unfold node_locks in Hn. simpl in *. rewrite Forall_forall in Hn. destruct (Hn j Hj) as (l0 & Hl0 & _ & He). congruence.
Qed.

Lemma counts_end xs e : Forall (node_locks res mode) xs -> counts res xs e -> exists x, x ∈ xs /\ e = ext_end x.1.
Proof.
  rewrite Forall_forall. intros Hn (ext & g & j & l & Hin & Hj & Hl & Hk & He). exists (ext, g). split; [done|].
  apply (counts_node (ext, g)); [by apply Hn|]. rewrite <-He. by eapply counts_one.
Qed.

(** Nodes with falling ends. *)
Definition falling (xs : list (interval_node_extent * list Z)) : Prop :=
  StronglySorted (fun x y => ext_end y.1 <= ext_end x.1) xs.

Lemma walk_same xs ys a a' : (forall e, counts res xs e <-> counts res ys e) -> walk_ok ys a a' -> walk_ok xs a a'.
Proof.
  intros Hs (H1 & H2 & H3). split; [done|]. split; [done|].
  destruct H3 as [(? & ? & e & ? & ?)|(? & H4 & H5)]; [left|right].
  - split_and!; try done. exists e. by rewrite Hs.
  - split_and!; [done| |by rewrite Hs]. intros e. rewrite Hs. apply H4.
Qed.

Lemma counts_app xs ys e : counts res (xs ++ ys) e <-> counts res xs e \/ counts res ys e.
Proof.
  induction xs as [|x xs IH]; simpl; [split; [by right|by intros [?%counts_nil|?]]|].
  rewrite counts_cons, IH, (counts_cons x xs). tauto.
Qed.

(** Two walks one after the other. *)
Lemma walk_trans xs ys a a1 a' :
  walk_ok xs a a1 -> complete a1 = false -> walk_ok ys a1 a' -> walk_ok (xs ++ ys) a a'.
Proof.
  intros (_ & H1 & H2) Hc (H3 & H4 & H5). destruct H2 as [(? & _)|(_ & H6 & H7)]; [congruence|].
  split; [done|]. split; [lia|]. destruct H5 as [(? & ? & e & ? & ?)|(? & H8 & H9)]; [left|right].
  - split_and!; try done. exists e. rewrite counts_app. auto.
  - split_and!; [done| |].
    + intros e [[? ?]%H6|?%H8]%counts_app; [lia|done].
    + rewrite counts_app. destruct H9 as [->|?]; [|auto]. destruct H7 as [->|?]; auto.
Qed.

Lemma walk_refl a : old_kms a = old -> complete a = false -> walk_ok [] a a.
Proof. intros. split; [done|]. split; [lia|]. right. split_and!; [done|by intros e ?%counts_nil|by left]. Qed.

(** The size is raised to the end of a node. *)
Lemma walk_raise ext g l j a :
  node_locks res mode (ext, g) -> j ∈ g -> lr_locks res !! j = Some l -> ldlm_is_kms_ignore l = false ->
  end_ (l_extent l) = ext_end ext -> old_kms a = old -> complete a = false -> ext_end ext < old ->
  walk_ok [(ext, g)] a (if kms a <? ext_end ext + 1 then KmsArgs old (ext_end ext + 1) (complete a) else a).
Proof.
  intros Hn Hj Hl Hki He Ho Hc Hlt. pose proof (counts_one ext g l j Hj Hl Hki) as Hone. rewrite He in Hone.
  destruct (Z.ltb_spec (kms a) (ext_end ext + 1)); (split; [done|]); (split; [simpl; lia|]); right; simpl;
    (split; [done|]); (split; [intros e Hx; rewrite (counts_node _ _ Hn Hx); simpl; lia|]); [right|by left].
  by replace (ext_end ext + 1 - 1) with (ext_end ext) by lia.
Qed.

Lemma kms_calls xs a :
  Forall (node_locks res mode) xs -> Forall (fun x => 0 <= ext_end x.1 <= U64_MAX) xs ->
  (mode = LCK_PW -> falling xs) -> old_kms a = old -> complete a = false -> kms a <= old <= U64_MAX ->
  exists rc a', run_calls (ldlm_kms_shift_cb res) xs INTERVAL_ITER_CONT (Ret a) = (rc, Ret a')
    /\ walk_ok xs a a'.
Proof.
  revert a. induction xs as [|[ext g] xs IH]; intros a Hn Hb Hf Ho Hc Hk.
  { eexists _, _. split; [done|by apply walk_refl]. }
  apply Forall_cons in Hn as [Hn1 Hn]. apply Forall_cons in Hb as [Hb1 Hb]. simpl in Hb1.
  assert (Hf' : mode = LCK_PW -> falling xs) by (intros H; specialize (Hf H); by inversion Hf).
  cbn [run_calls fst snd]. unfold ldlm_kms_shift_cb at 1.
  destruct (first_counted_spec res mode ext g Hn1) as (r & -> & Hr). destruct r as [l|].
  2: { destruct (IH a) as (rc & a' & -> & Hwalk); try done. eexists _, _. split; [done|].
       apply (walk_same _ xs); [|done]. intros e. rewrite counts_cons. split; [|tauto].
       intros [(ext0 & g0 & j & l & Hin & Hj & Hl & Hki & _)|?]; [|done].
       apply list_elem_of_singleton in Hin. injection Hin as -> ->. rewrite (Hr j l) in Hki; done. }
  destruct Hr as (Hm & He & j & Hj & Hl & Hki). rewrite Ho, He.
  destruct (Z.leb_spec old (ext_end ext)) as [Hle|Hlt].
  { eexists _, _. split; [done|]. split; [done|]. split; [simpl; lia|]. left. split_and!; [done|done|].
    exists (ext_end ext). split; [|done]. apply counts_cons. left. rewrite <-He. by eapply counts_one. }
  rewrite wrap_small by (unfold in_u, U64_MAX in *; lia).
  pose proof (walk_raise ext g l j a Hn1 Hj Hl Hki He Ho Hc Hlt) as Hw1. set (a1 := if _ <? _ then _ else a) in *.
  assert (Ha1 : complete a1 = false /\ kms a1 <= old) by (unfold a1; case_match; simpl; split; (done || lia)).
  destruct Ha1 as [Hc1 Hk1]. pose proof Hw1 as (Ho1 & _). rewrite Hm. destruct (Z.eqb_spec mode LCK_PW) as [Hpw|Hpw].
  - eexists _, _. split; [done|]. change ((ext, g) :: xs) with ([(ext, g)] ++ xs). eapply walk_trans; [done|done|].
    split; [done|]. split; [lia|]. right. split_and!; [done| |by left].
    intros e Hx. destruct (counts_end xs e Hn Hx) as (x & Hin & ->). specialize (Hf Hpw).
    apply StronglySorted_inv in Hf as [_ Hf]. rewrite Forall_forall in Hf. specialize (Hf x Hin). simpl in Hf.
    destruct Hw1 as (_ & _ & [(? & _)|(_ & Hr & _)]); [congruence|]. destruct (Hr (ext_end ext)); [|lia].
    rewrite <-He. by eapply counts_one.
  - destruct (IH a1) as (rc & a' & -> & Hw2); try done; [lia|]. eexists _, _. split; [done|].
    change ((ext, g) :: xs) with ([(ext, g)] ++ xs). by eapply walk_trans.
Qed.
End Calls.

Lemma falling_snoc xs x : falling xs -> (forall y, y ∈ xs -> ext_end x.1 <= ext_end y.1) -> falling (xs ++ [x]).
Proof.
  induction xs as [|y xs IH]; simpl; intros Hf Hx; [repeat constructor|].
  apply StronglySorted_inv in Hf as [Hf Hy]. constructor.
  - apply IH; [done|]. intros z Hz. apply Hx. by right.
  - apply Forall_app. split; [done|]. repeat constructor. apply Hx. by left.
Qed.

Lemma falling_rev xs :
  sorted xs -> (forall x y, x ∈ xs -> y ∈ xs -> ext_lt x.1 y.1 -> ext_end x.1 <= ext_end y.1) -> falling (rev xs).
Proof.
  induction xs as [|x xs IH]; intros Hs Hd; [constructor|]. simpl. apply sorted_cons in Hs as [Hx Hs].
  rewrite Forall_forall in Hx. apply falling_snoc.
  - apply IH; [done|]. intros y z Hy Hz. apply Hd; by right.
  - intros y Hy%list_elem_of_In%in_rev%list_elem_of_In. apply Hd; [by left|by right|by apply Hx].
Qed.

(** ** The trees of a resource *)

Section Trees.
Context (PAGE_SIZE : Z) (res : ldlm_resource).
Hypothesis Hok : res_ok PAGE_SIZE res.

Lemma tree_node_locks t :
  t ∈ lr_itree res ->
  Forall (node_locks res (lit_mode t)) (elements (lit_root t))
  /\ Forall (fun x => 0 <= ext_end x.1 <= U64_MAX) (elements (lit_root t)).
Proof.
  intros Ht. assert (Hm : forall e g j, (e, g) ∈ elements (lit_root t) -> j ∈ g ->
    exists l, lr_locks res !! j = Some l /\ granted l /\ l_req_mode l = lit_mode t
      /\ e = Extent (start (l_extent l)) (end_ (l_extent l))).
  { intros e g j Hin Hj. apply (in_tree_granted PAGE_SIZE res t e j Hok Ht). by exists g. }
  split; apply Forall_forall; intros [e g] Hin.
  - apply Forall_forall. intros j Hj. destruct (Hm e g j Hin Hj) as (l & Hl & Hg & Hmode & ->). exists l.
    split; [done|]. split; [|done]. apply (granted_modes PAGE_SIZE res j l Hok Hl) in Hg. apply Z.eqb_eq in Hg. congruence.
  - pose proof (res_ok_index PAGE_SIZE res Hok) as Hix. unfold trees_ok in Hix. rewrite Forall_forall in Hix.
    destruct (Hix t Ht) as [_ Hnodes]. rewrite Forall_forall in Hnodes. destruct (Hnodes _ Hin) as (Hne & _ & _).
    simpl in *. destruct g as [|j g]; [done|]. destruct (Hm e (j :: g) j Hin) as (l & Hl & _ & _ & ->); [by left|].
    pose proof (ro_locks _ _ Hok _ _ Hl) as [[_ (Hb & Hbu & _) _ _] H1 H2 _ _ _ _ _]. simpl. lia.
Qed.

(** Write locks do not overlap, so that the walk from the highest start sees falling
    ends. *)
Lemma write_tree_falling t : t ∈ lr_itree res -> lit_mode t = LCK_PW -> falling (rev (elements (lit_root t))).
Proof.
  intros Ht Hpw. pose proof (res_ok_index PAGE_SIZE res Hok) as Hix. unfold trees_ok in Hix.
  rewrite Forall_forall in Hix. destruct (Hix t Ht) as [Hwf Hnodes].
  apply falling_rev; [apply bst_sorted, Hwf|].
  intros [e1 g1] [e2 g2] Hx Hy Hlt. simpl in *. rewrite Forall_forall in Hnodes.
  destruct (Hnodes _ Hx) as (Hne1 & _), (Hnodes _ Hy) as (Hne2 & _). simpl in *.
  destruct g1 as [|j1 g1], g2 as [|j2 g2]; try done.
  destruct (in_tree_granted PAGE_SIZE res t e1 j1 Hok Ht) as (l1 & Hl1 & Hg1 & Hm1 & ->); [exists (j1 :: g1); by split; [|left]|].
  destruct (in_tree_granted PAGE_SIZE res t e2 j2 Hok Ht) as (l2 & Hl2 & Hg2 & Hm2 & ->); [exists (j2 :: g2); by split; [|left]|].
  unfold ext_lt in Hlt. simpl in *. destruct (decide (j1 = j2)) as [->|Hne].
  { assert (l1 = l2) as -> by congruence. lia. }
  pose proof (ro_excl _ _ Hok j1 j2 l1 l2 Hl1 Hl2 Hne Hg1 Hg2) as Hc. unfold compatible in Hc.
  rewrite Hm1, Hm2, Hpw in Hc. simpl in Hc. unfold ldlm_extent_overlap in Hc.
  pose proof (ro_locks _ _ Hok _ _ Hl1) as [[_ (Hb1 & _) _ _] A1 A2 _ _ _ _ _].
  pose proof (ro_locks _ _ Hok _ _ Hl2) as [[_ (Hb2 & _) _ _] B1 B2 _ _ _ _ _]. lia.
Qed.

Lemma counts_paged xs e : counts res xs e -> (PAGE_SIZE | e + 1).
Proof. intros (ext & g & j & l & _ & _ & Hl & _ & <-). apply (lk_paged _ _ (ro_locks _ _ Hok _ _ Hl)). Qed.

Lemma counts_rev xs e : counts res (rev xs) e <-> counts res xs e.
Proof.
  unfold counts. split; intros (ext & g & j & l & Hin & H); exists ext, g, j, l; (split; [|done]);
    apply list_elem_of_In; apply list_elem_of_In in Hin; by apply in_rev in Hin || apply in_rev; rewrite ?rev_involutive.
Qed.

Definition all_nodes (trees : list ldlm_interval_tree) : list (interval_node_extent * list Z) :=
  concat (map (fun t => elements (lit_root t)) trees).

Lemma walk_complete old xs ys a a' : complete a' = true -> walk_ok res old xs a a' -> walk_ok res old (xs ++ ys) a a'.
Proof.
  intros Hc (H1 & H2 & H3). split; [done|]. split; [done|]. left. destruct H3 as [(_ & ? & e & ? & ?)|(? & _)]; [|congruence].
  split_and!; try done. exists e. rewrite counts_app. auto.
Qed.

(** A tree that has no end above the size found so far adds nothing. *)
Lemma walk_skip old t a :
  1 < PAGE_SIZE -> t ∈ lr_itree res -> max_high (lit_root t) <= kms a -> (PAGE_SIZE | kms a) ->
  old_kms a = old -> complete a = false -> kms a <= old -> walk_ok res old (elements (lit_root t)) a a.
Proof.
  intros Hp Ht Hmax Hd Ho Hc Hk. split; [done|]. split; [lia|]. right. split; [done|]. split; [|by left].
  intros e He. destruct (tree_node_locks t Ht) as [Hn _]. pose proof (counts_paged _ _ He) as Hpg.
  destruct (counts_end res (lit_mode t) _ e Hn He) as (x & Hx & ->).
  pose proof (res_ok_index PAGE_SIZE res Hok) as Hix. unfold trees_ok in Hix. rewrite Forall_forall in Hix.
  pose proof (max_high_bound (lit_root t) x (wf_max _ (ix_wf _ (Hix t Ht))) Hx) as Hle.
  assert (ext_end x.1 + 1 <= kms a); [|lia]. destruct (decide (ext_end x.1 = kms a)) as [E|]; [|lia].
  rewrite E in Hpg. assert (H1 : (PAGE_SIZE | 1)) by (replace 1 with (kms a + 1 - kms a) by lia; by apply Z.divide_sub_r).
  apply Z.divide_pos_le in H1; lia.
Qed.

Lemma shift_loop_spec old trees a :
  1 < PAGE_SIZE -> (forall t, t ∈ trees -> t ∈ lr_itree res) -> (PAGE_SIZE | kms a) ->
  old_kms a = old -> complete a = false -> kms a <= old <= U64_MAX ->
  exists a', shift_kms_loop res trees a = Ret a' /\ walk_ok res old (all_nodes trees) a a'.
Proof.
  intros Hp. revert a. induction trees as [|t trees IH]; intros a Hin Hd Ho Hc Hk.
  { exists a. split; [done|by apply walk_refl]. }
  assert (Ht : t ∈ lr_itree res) by (apply Hin; by left).
  assert (Hin' : forall t0, t0 ∈ trees -> t0 ∈ lr_itree res) by (intros; apply Hin; by right).
  cbn [shift_kms_loop]. change (all_nodes (t :: trees)) with (elements (lit_root t) ++ all_nodes trees).
  destruct (lit_root t) as [|c m e0 g0 l0 r0] eqn:Hroot; [by apply IH|]. rewrite <-Hroot.
  destruct (Z.leb_spec m (kms a)) as [Hm|Hm].
  { destruct (IH a) as (a' & -> & Hw); try done. exists a'. split; [done|]. eapply walk_trans; [|done|done].
    apply walk_skip; try done; [by rewrite Hroot|lia]. }
  destruct (tree_node_locks t Ht) as [Hn Hb]. rewrite interval_iterate_reverse_calls.
  destruct (kms_calls res (lit_mode t) old (rev (elements (lit_root t))) a) as (rc & a1 & -> & Hw1); try done.
  { by apply Forall_rev. }
  { by apply Forall_rev. }
  { by apply write_tree_falling. }
  cbn [snd mbind run_bind]. apply (walk_same res old (elements (lit_root t))) in Hw1; [|intros e; by rewrite counts_rev].
  destruct (complete a1) eqn:Hc1; [exists a1; split; [done|by apply walk_complete]|].
  pose proof Hw1 as (Ho1 & Hge & [(? & _)|(_ & Hall & Hk1)]); [congruence|].
  destruct (IH a1) as (a' & -> & Hw2); try done.
  - destruct Hk1 as [->|He]; [done|]. apply counts_paged in He. by replace (kms a1 - 1 + 1) with (kms a1) in He by lia.
  - destruct Hk1 as [->|He]; [done|]. apply Hall in He. lia.
  - exists a'. split; [done|]. by eapply walk_trans.
Qed.
End Trees.

(** ** The result *)

(** A granted lock other than [i] that is not ignored protects the bytes up to [e]. *)
Definition kms_counts (res : ldlm_resource) (i e : Z) : Prop :=
  exists j l, j <> i /\ lr_locks res !! j = Some l /\ l_granted_mode l = l_req_mode l
    /\ ldlm_is_kms_ignore l = false /\ end_ (l_extent l) = e.

(** The resource with lock [i] ignored. *)
Definition ignored (res : ldlm_resource) (i : Z) (l : ldlm_lock) : ldlm_resource :=
  put_lock res i (set_flags l (LDLM_SET_FLAG (l_flags l) LDLM_FL_KMS_IGNORE)).

Lemma ignored_ok PAGE_SIZE res i l :
  res_ok PAGE_SIZE res -> lr_locks res !! i = Some l -> res_ok PAGE_SIZE (ignored res i l).
Proof.
  intros Hok Hl. eapply relock_ok; try done.
  - destruct (ro_locks _ _ Hok _ _ Hl) as [[R1 R2 R3 R4] H1 H2 H3 H4 H5 H6 H7]. split; [by split|try done..].
    + unfold ast_ok, ldlm_is_ast_sent in *. simpl. by rewrite test_set_flag.
    + unfold cp_ok, ldlm_is_cp_reqd in *. simpl. by rewrite test_set_flag.
  - unfold ldlm_is_destroyed. simpl. by rewrite test_set_flag.
Qed.

Lemma counts_ignored PAGE_SIZE res i l e :
  res_ok PAGE_SIZE res -> lr_locks res !! i = Some l ->
  counts (ignored res i l) (all_nodes (lr_itree res)) e <-> kms_counts res i e.
Proof.
  intros Hok Hl. pose proof (ignored_ok _ _ _ _ Hok Hl) as Hok1.
  assert (Hat : forall j lj, lr_locks (ignored res i l) !! j = Some lj -> ldlm_is_kms_ignore lj = false ->
    j <> i /\ lr_locks res !! j = Some lj).
  { intros j lj Hj Hk. apply (lookup_insert_Some (lr_locks res)) in Hj as [[-> <-]|[? ?]]; [|done]. unfold ldlm_is_kms_ignore in Hk. simpl in Hk.
    by rewrite (test_set_flag_same _ 42) in Hk. }
  split.
  - intros (ext & g & j & lj & Hin & Hj & Hlj & Hk & He). destruct (Hat j lj Hlj Hk) as [Hne Hlj'].
    exists j, lj. split_and!; try done. apply list_elem_of_In, in_concat in Hin as (xs & Hxs & Hin).
    apply in_map_iff in Hxs as (t & <- & Ht). apply list_elem_of_In in Hin, Ht.
    destruct (in_tree_granted PAGE_SIZE _ t ext j Hok1 Ht) as (l0 & Hl0 & Hg & _); [by exists g|].
    assert (l0 = lj) as -> by congruence. by apply Z.eqb_eq, (granted_modes _ _ _ _ Hok1 Hlj).
  - intros (j & lj & Hne & Hlj & Hg & Hk & He).
    assert (Hlj1 : lr_locks (ignored res i l) !! j = Some lj) by (unfold ignored; cbn; by rewrite lookup_insert_ne).
    apply Z.eqb_eq, (granted_modes _ _ _ _ Hok1 Hlj1) in Hg.
    destruct (granted_in_tree PAGE_SIZE _ j lj Hok1 Hlj1 Hg) as (t & Ht & _ & g & Hin & Hj).
    eexists _, g, j, lj. split_and!; try done. apply list_elem_of_In, in_concat.
    exists (elements (lit_root t)). split; [|by apply list_elem_of_In].
    apply in_map_iff. exists t. split; [done|]. by apply list_elem_of_In.
Qed.

(** C32: when lock [i] of a reachable state is cancelled, the new known minimum size is
    the old one if another granted lock that counts reaches up to it, and otherwise the
    highest byte any such lock protects plus one, or zero without any; the assertion
    that the size does not grow never fails. *)
Theorem ldlm_extent_shift_kms_highest (PAGE_SIZE pk : Z) ns res i l old :
  PAGE_SIZE = 2 ^ pk -> 0 < pk < 64 -> ldlm_reachable PAGE_SIZE ns res -> lr_locks res !! i = Some l ->
  0 <= old <= U64_MAX ->
  exists kms res', ldlm_extent_shift_kms res i old = Ret (kms, res')
    /\ ((exists e, kms_counts res i e /\ old <= e) -> kms = old)
    /\ ((forall e, kms_counts res i e -> e < old) ->
        (forall e, kms_counts res i e -> e + 1 <= kms) /\ (kms = 0 \/ kms_counts res i (kms - 1))).
Proof.
  intros Hpage Hpk Hr Hl Hold. apply (reachable_ok _ pk Hpage ltac:(lia)) in Hr.
  assert (Hp1 : 1 < PAGE_SIZE) by (subst PAGE_SIZE; apply Z.pow_gt_1; lia).
  unfold ldlm_extent_shift_kms. rewrite (get_known _ _ _ Hl). cbn [mbind run_bind]. fold (ignored res i l).
  pose proof (ignored_ok _ _ _ _ Hr Hl) as Hok1.
  destruct (shift_loop_spec PAGE_SIZE (ignored res i l) Hok1 old (lr_itree (ignored res i l)) (KmsArgs old 0 false))
    as (a' & -> & Ho & Hge & Hres); [done|done|apply Z.divide_0_r|done|done|done|]. cbn [mbind run_bind].
  assert (Hcts : forall e, counts (ignored res i l) (all_nodes (lr_itree (ignored res i l))) e <-> kms_counts res i e)
    by (intros e; exact (counts_ignored PAGE_SIZE res i l e Hr Hl)).
  destruct Hres as [(_ & Hk & e0 & He0 & Hle)|(_ & Hall & Hk)].
  - rewrite Ho, Hk, (proj2 (Z.leb_le _ _)) by lia. cbn [LASSERT]. eexists _, _. split; [done|].
    split; [done|]. intros Hlt. apply Hcts, Hlt in He0. lia.
  - assert (Hle : kms a' <= old) by (destruct Hk as [->|He]; [simpl; lia|apply Hall in He; lia]).
    rewrite Ho, (proj2 (Z.leb_le _ _)) by lia. cbn [LASSERT]. eexists _, _. split; [done|]. split.
    + intros (e & He%Hcts & ?). apply Hall in He. lia.
    + intros _. split; [intros e He%Hcts; by apply Hall|]. simpl in Hk. destruct Hk as [?|?%Hcts]; auto.
Qed.

(** Lock 3 of the run is cancelled; lock 2 protects the bytes up to 16383. *)
Lemma ldlm_extent_shift_kms_highest_witness :
  exists kms res', ldlm_extent_shift_kms ExtentRun.r9 3 20480 = Ret (kms, res')
    /\ ((forall e, kms_counts ExtentRun.r9 3 e -> e < 20480) ->
        (forall e, kms_counts ExtentRun.r9 3 e -> e + 1 <= kms) /\ (kms = 0 \/ kms_counts ExtentRun.r9 3 (kms - 1))).
Proof.
  destruct (ldlm_extent_shift_kms_highest ExtentRun.page 12 ExtentRun.ns ExtentRun.r9 3 (ExtentRun.lock_of ExtentRun.r9 3)
    20480 eq_refl ltac:(lia) ExtentRun.reach_r9 ltac:(apply ExtentRun.known; vm_compute; reflexivity)
    ltac:(unfold U64_MAX; lia)) as (kms & res' & H1 & _ & H2).
  exists kms, res'. split; [exact H1|exact H2].
Defined.
