(* ===== verification/FlockRange.v ===== *)
(** Byte ranges with modes: what merging and splitting the locks of one owner comes to
    (the loop of [ldlm_process_flock_lock]), first on sorted lists of ranges and then on
    single bytes. *)

From stdpp Require Import list.
From S2P Require Import Prelude.

Record byte_range := ByteRange { rg_start : Z; rg_end : Z; rg_mode : Z }.

(** The first range lies below the second; of one mode, they do not touch. *)
Definition apart (x y : byte_range) : Prop :=
  rg_end x < rg_start y /\ (rg_mode x = rg_mode y -> rg_end x + 1 < rg_start y).

Definition proper (x : byte_range) : Prop := 0 <= rg_start x <= rg_end x /\ rg_end x <= U64_MAX.

(** Sorted, disjoint, and merged as far as possible. *)
Inductive canonical : list byte_range -> Prop :=
  | canonical_nil : canonical []
  | canonical_cons x l : proper x -> Forall (apart x) l -> canonical l -> canonical (x :: l).

(** Giving [s, t] the mode [m]. *)
Fixpoint assign (m s t : Z) (l : list byte_range) : list byte_range :=
  match l with
  | [] => [ByteRange s t m]
  | x :: l' =>
      if rg_mode x =? m then
        if rg_end x + 1 <? s then x :: assign m s t l'
        else if t + 1 <? rg_start x then ByteRange s t m :: x :: l'
        else assign m (Z.min s (rg_start x)) (Z.max t (rg_end x)) l'
      else if rg_end x <? s then x :: assign m s t l'
      else if t <? rg_start x then ByteRange s t m :: x :: l'
      else if s <=? rg_start x then
        if t <? rg_end x then ByteRange s t m :: ByteRange (t + 1) (rg_end x) (rg_mode x) :: l'
        else assign m s t l'
      else if rg_end x <=? t then ByteRange (rg_start x) (s - 1) (rg_mode x) :: assign m s t l'
      else ByteRange (rg_start x) (s - 1) (rg_mode x) :: ByteRange s t m
             :: ByteRange (t + 1) (rg_end x) (rg_mode x) :: l'
  end.

(** The list holds byte [b] in mode [m]. *)
Definition held_in (l : list byte_range) (b m : Z) : Prop :=
  exists x, x ∈ l /\ rg_start x <= b <= rg_end x /\ rg_mode x = m.

(** A range that goes beyond [s, t] on both sides, in another mode than [m]: it has to be
    split. *)
Definition straddles (m s t : Z) (x : byte_range) : Prop :=
  rg_start x < s /\ t < rg_end x /\ rg_mode x <> m.

(** ** Lists stay canonical *)

Ltac range_cases :=
  repeat match goal with
  | |- context [if ?c then _ else _] => let E := fresh "E" in destruct c eqn:E
  end.
Ltac bytes := unfold apart, proper in *; cbn [rg_start rg_end rg_mode] in *; lia.

Lemma assign_apart m x l : forall s t,
  Forall (apart x) l -> apart x (ByteRange s t m) -> Forall (apart x) (assign m s t l).
Proof.
  induction l as [|y l IH]; intros s t Hl Hs; cbn [assign].
  - by constructor.
  - apply Forall_cons in Hl as [Hy Hl].
    range_cases; repeat (apply Forall_cons; split); auto; try bytes.
    apply IH; [done|]. destruct (Z.min_spec s (rg_start y)) as [[_ ->]|[_ ->]]; bytes.
Qed.

Lemma canonical_inv x l : canonical (x :: l) -> proper x /\ Forall (apart x) l /\ canonical l.
Proof. inversion 1; auto. Qed.

Lemma apart_weaken x x' l :
  Forall (apart x) l -> rg_end x' <= rg_end x -> rg_mode x' = rg_mode x -> Forall (apart x') l.
Proof. intros H He Hm. eapply Forall_impl; [exact H|]. intros y Hy. bytes. Qed.

(** What lies behind a range that ends behind [t] is apart from [s, t]. *)
Lemma apart_behind x s t m l :
  Forall (apart x) l -> t < rg_end x -> Forall (apart (ByteRange s t m)) l.
Proof. intros H Hs. eapply Forall_impl; [exact H|]. intros y Hy. bytes. Qed.

Lemma assign_canonical m l : forall s t,
  canonical l -> proper (ByteRange s t m) -> canonical (assign m s t l).
Proof.
  induction l as [|x l IH]; intros s t Hl Hs; cbn [assign].
  - constructor; [done|constructor..].
  - apply canonical_inv in Hl as (Hx & Hxl & Hl).
    range_cases; repeat match goal with
    | |- canonical (assign _ _ _ _) => apply IH; [done|bytes]
    | |- canonical l => done
    | |- canonical _ => constructor
    | |- proper _ => bytes
    | |- Forall _ (assign _ _ _ _) => apply assign_apart; [|bytes]
    | |- Forall (apart _) l => by apply (apart_behind x); [|bytes]
    | |- Forall (apart _) l => apply (apart_weaken x); [done|bytes|done]
    | |- Forall _ (_ :: _) => constructor; [bytes|]
    end.
Qed.

(** ** Bytes *)

Lemma held_nil b m : ~ held_in [] b m.
Proof. by intros (x & []%elem_of_nil & _). Qed.

Lemma held_cons x l b m :
  held_in (x :: l) b m <-> (rg_start x <= b <= rg_end x /\ rg_mode x = m) \/ held_in l b m.
Proof.
  split.
  - intros (y & [->|Hy]%elem_of_cons & H); [by left|right; by exists y].
  - intros [H|(y & Hy & H)]; [exists x|exists y]; rewrite elem_of_cons; auto.
Qed.

Lemma held_app l1 l2 b m : held_in (l1 ++ l2) b m <-> held_in l1 b m \/ held_in l2 b m.
Proof.
  induction l1 as [|x l1 IH]; simpl.
  - pose proof (held_nil b m). tauto.
  - rewrite !held_cons, IH. tauto.
Qed.

Lemma held_apart x l b m : Forall (apart x) l -> held_in l b m -> rg_end x < b.
Proof.
  intros H (y & Hy & Hb & _). rewrite Forall_forall in H. specialize (H y Hy). bytes.
Qed.

(** A byte of a canonical list is held in one mode. *)
Lemma held_unique l b m m' : canonical l -> held_in l b m -> held_in l b m' -> m = m'.
Proof.
  induction 1 as [|x l Hx Hxl Hl IH]; [by intros ?%held_nil|].
  rewrite !held_cons. intros [[H1 <-]|H1] [[H2 <-]|H2]; auto;
    [apply (held_apart _ _ _ _ Hxl) in H2|apply (held_apart _ _ _ _ Hxl) in H1]; lia.
Qed.

(** Bytes in a row that are held in one mode are in one range. *)
Lemma held_row l a c m :
  canonical l -> a <= c -> (forall b, a <= b <= c -> held_in l b m) ->
  exists x, x ∈ l /\ rg_start x <= a /\ c <= rg_end x /\ rg_mode x = m.
Proof.
  intros Hc Hac. induction Hc as [|x l Hx Hxl Hl IH]; intros H.
  { by destruct (held_nil a m); apply H; lia. }
  destruct (decide (rg_end x < a)) as [Hlt|Hge].
  { destruct IH as (y & Hy & K); [|exists y; split; [by right|done]]. intros b Hb.
    destruct (proj1 (held_cons _ _ _ _) (H b Hb)) as [?|?]; [bytes|done]. }
  assert (Ha : rg_start x <= a <= rg_end x /\ rg_mode x = m).
  { specialize (H a ltac:(lia)). apply held_cons in H as [?|?%(held_apart _ _ _ _ Hxl)]; [done|lia]. }
  destruct (decide (c <= rg_end x)) as [?|Hc]; [exists x; split; [by left|tauto]|exfalso].
  specialize (H (rg_end x + 1) ltac:(lia)). apply held_cons in H as [?|(y & Hy & Hb & Hm)]; [bytes|].
  rewrite Forall_forall in Hxl. specialize (Hxl y Hy). bytes.
Qed.

(** The bytes of [s, t] are held in mode [m] and no other byte is touched. *)
Lemma assign_held m l : forall s t b m',
  canonical l -> s <= t ->
  held_in (assign m s t l) b m' <-> (if (s <=? b) && (b <=? t) then m' = m else held_in l b m').
Proof.
  induction l as [|x l IH]; intros s t b m' Hl Hs; cbn [assign].
  - rewrite held_cons. pose proof (held_nil b m'). cbn [rg_start rg_end rg_mode].
    destruct (_ && _) eqn:E; intuition lia.
  - apply canonical_inv in Hl as (Hx & Hxl & Hl). pose proof (held_apart x l b m' Hxl).
    range_cases; rewrite ?held_cons, ?IH by (done || bytes); cbn [rg_start rg_end rg_mode] in *;
      repeat match goal with |- context [if ?c then _ else _] => let E := fresh in destruct c eqn:E end;
      unfold proper in *; intuition lia.
Qed.

(** Ranges well below [s, t] are not looked at. *)
Lemma assign_skip m s t l1 l2 :
  Forall (fun x => rg_end x + 1 < s) l1 -> assign m s t (l1 ++ l2) = l1 ++ assign m s t l2.
Proof.
  induction 1 as [|x l1 Hx _ IH]; [done|]. cbn [assign app].
  rewrite (proj2 (Z.ltb_lt (rg_end x + 1) s)), (proj2 (Z.ltb_lt (rg_end x) s)) by lia.
  rewrite IH. by destruct (rg_mode x =? m).
Qed.
