(* ===== verification/LdlmFlock.v ===== *)
(** POSIX byte-range locks on the server and the client (lustre/ldlm/ldlm_flock.c): the
    conflict check, the detection of deadlocks, and the merging and splitting of the
    locks of one owner.

    As in [LdlmLock] the locks live in a store and the lists refer to them by number.
    The hashes of blocked locks of the exports of a device are one list. *)

From stdpp Require Import gmap.
From S2P Require Import Prelude IntervalTree LdlmLock LdlmExtent LdlmIndex LdlmPolicy LdlmSafe.
From S2P Require Import LdlmSystem LdlmProcess LdlmServer.

Definition EDEADLK : Z := 35.

Definition LDLM_FL_FLOCK_DEADLOCK : Z := Z.shiftl 1 15.
Definition LDLM_FL_CBPENDING : Z := Z.shiftl 1 34.
Definition LDLM_FL_WAIT_NOREPROC : Z := Z.shiftl 1 35.
Definition LDLM_FL_LOCAL_ONLY : Z := Z.shiftl 1 37.
Definition LDLM_FL_FAILED : Z := Z.shiftl 1 38.

(** ** Data *)

(** A lock with the policy data of a flock; [k_export] is [None] on the client and for
    a lock the server takes for itself. *)
Record flock_lock := FlockLock {
  k_owner : Z;
  k_export : option Z;
  k_pid : Z;
  k_start : Z;
  k_end : Z;
  k_req_mode : Z;
  k_granted_mode : Z;
  k_flags : Z;
  k_completion_ast : bool;
  k_cp_ast : bool
}.

Definition k_set_range (l : flock_lock) (s e : Z) : flock_lock :=
  FlockLock (k_owner l) (k_export l) (k_pid l) s e (k_req_mode l) (k_granted_mode l) (k_flags l)
    (k_completion_ast l) (k_cp_ast l).
Definition k_set_flags (l : flock_lock) (f : Z) : flock_lock :=
  FlockLock (k_owner l) (k_export l) (k_pid l) (k_start l) (k_end l) (k_req_mode l)
    (k_granted_mode l) f (k_completion_ast l) (k_cp_ast l).
Definition k_set_req_mode (l : flock_lock) (m : Z) : flock_lock :=
  FlockLock (k_owner l) (k_export l) (k_pid l) (k_start l) (k_end l) m (k_granted_mode l)
    (k_flags l) (k_completion_ast l) (k_cp_ast l).
Definition k_set_granted_mode (l : flock_lock) (m : Z) : flock_lock :=
  FlockLock (k_owner l) (k_export l) (k_pid l) (k_start l) (k_end l) (k_req_mode l) m
    (k_flags l) (k_completion_ast l) (k_cp_ast l).
Definition k_set_cp (l : flock_lock) (on : bool) : flock_lock :=
  FlockLock (k_owner l) (k_export l) (k_pid l) (k_start l) (k_end l) (k_req_mode l)
    (k_granted_mode l) (k_flags l) (k_completion_ast l) on.

(** A blocked lock in the hash of its export: [fw_lock] is the lock, the rest is what
    its policy data and its export tell. *)
Record flock_wait := FlockWait {
  fw_lock : Z;
  fw_export : Z;
  fw_owner : Z;
  fw_blocking_owner : Z;
  fw_blocking_export : Z
}.

Record flock_resource := FlockResource {
  fr_locks : gmap Z flock_lock;
  fr_granted : list Z;
  fr_waiting : list Z;
  fr_hash : list flock_wait
}.

Definition fr_set_locks (r : flock_resource) (m : gmap Z flock_lock) : flock_resource :=
  FlockResource m (fr_granted r) (fr_waiting r) (fr_hash r).
Definition fr_set_granted (r : flock_resource) (q : list Z) : flock_resource :=
  FlockResource (fr_locks r) q (fr_waiting r) (fr_hash r).
Definition fr_set_waiting (r : flock_resource) (q : list Z) : flock_resource :=
  FlockResource (fr_locks r) (fr_granted r) q (fr_hash r).
Definition fr_set_hash (r : flock_resource) (h : list flock_wait) : flock_resource :=
  FlockResource (fr_locks r) (fr_granted r) (fr_waiting r) h.

Definition get_flock (r : flock_resource) (i : Z) : run flock_lock :=
  match fr_locks r !! i with Some l => Ret l | None => LBUG end.
Definition put_flock (r : flock_resource) (i : Z) (l : flock_lock) : flock_resource :=
  fr_set_locks r (<[i := l]> (fr_locks r)).

(** ** The wire *)

Record ldlm_flock_wire := FlockWire { lfw_start : Z; lfw_end : Z; lfw_owner : Z; lfw_pid : Z }.

Definition ldlm_flock_policy_wire_to_local (w : ldlm_flock_wire) (l : flock_lock) : flock_lock :=
  FlockLock (lfw_owner w) (k_export l) (lfw_pid w) (lfw_start w) (lfw_end w) (k_req_mode l)
    (k_granted_mode l) (k_flags l) (k_completion_ast l) (k_cp_ast l).

Definition ldlm_flock_policy_local_to_wire (l : flock_lock) : ldlm_flock_wire :=
  FlockWire (k_start l) (k_end l) (k_owner l) (k_pid l).

(** [ldlm_handle_enqueue0] for a flock up to the call of [ldlm_lock_enqueue]. *)
Definition flock_handle_enqueue (mode : Z) (policy : ldlm_flock_wire) (lock_flags export : Z)
    (completion : bool) : Z + flock_lock :=
  if negb (enqueue_mode_ok mode) then inl (- EFAULT)
  else
    inr (ldlm_flock_policy_wire_to_local policy
           (FlockLock 0 (Some export) 0 0 0 mode LCK_MINMODE
              (Z.lor LDLM_FL_NS_SRV (Z.land lock_flags LDLM_FL_INHERIT_MASK)) completion false)).

(** ** Lists of a resource *)

Definition on_flock_resource (r : flock_resource) (i : Z) : bool :=
  bool_decide (i ∈ fr_granted r) || bool_decide (i ∈ fr_waiting r).

(** [list_del_init(&lock->l_res_link)]. *)
Definition flock_list_del (r : flock_resource) (i : Z) : flock_resource :=
  fr_set_waiting (fr_set_granted r (base.filter (fun j => j <> i) (fr_granted r)))
    (base.filter (fun j => j <> i) (fr_waiting r)).

(** [list_add_tail(new, pos)] for an entry [pos] of the list. *)
Fixpoint list_add_before (pos new : Z) (q : list Z) : list Z :=
  match q with
  | [] => []
  | j :: q' => if j =? pos then new :: j :: q' else j :: list_add_before pos new q'
  end.

(** [ldlm_resource_add_lock(res, ownlocks, lock)], where [ownlocks] is an entry of the
    granted list or ([None]) its head. *)
Definition flock_add_granted (r : flock_resource) (ownlocks : option Z) (i : Z)
    : run flock_resource :=
  lock ← get_flock r i;
  if LDLM_TEST_FLAG (k_flags lock) LDLM_FL_DESTROYED then Ret r
  else
    lassert negb (on_flock_resource r i);
    match ownlocks with
    | Some pos => Ret (fr_set_granted r (list_add_before pos i (fr_granted r)))
    | None => Ret (fr_set_granted r (fr_granted r ++ [i]))
    end.

(** [ldlm_resource_add_lock(res, &res->lr_waiting, lock)]. *)
Definition flock_add_waiting (r : flock_resource) (i : Z) : run flock_resource :=
  lock ← get_flock r i;
  if LDLM_TEST_FLAG (k_flags lock) LDLM_FL_DESTROYED then Ret r
  else
    lassert negb (on_flock_resource r i);
    Ret (fr_set_waiting r (fr_waiting r ++ [i])).

(** [ldlm_add_cp_work_item] for a flock. *)
Definition flock_add_cp_work_item (r : flock_resource) (i : Z) (work_list : list Z)
    : run (flock_resource * list Z) :=
  lock ← get_flock r i;
  if LDLM_TEST_FLAG (k_flags lock) LDLM_FL_CP_REQD then Ret (r, work_list)
  else
    lassert negb (k_cp_ast lock);
    Ret (put_flock r i
           (k_set_cp (k_set_flags lock (LDLM_SET_FLAG (k_flags lock) LDLM_FL_CP_REQD)) true),
         i :: work_list).

(** [ldlm_lock_destroy_nolock] for a flock. *)
Definition flock_destroy_nolock (r : flock_resource) (i : Z) : run flock_resource :=
  lock ← get_flock r i;
  lassert negb (on_flock_resource r i);
  if LDLM_TEST_FLAG (k_flags lock) LDLM_FL_DESTROYED then Ret r
  else Ret (put_flock r i (k_set_flags lock (LDLM_SET_FLAG (k_flags lock) LDLM_FL_DESTROYED))).

(** ** Owners and ranges *)

Definition ldlm_same_flock_owner (lock new : flock_lock) : bool :=
  (k_owner new =? k_owner lock) && bool_decide (k_export new = k_export lock).

Definition ldlm_flocks_overlap (lock new : flock_lock) : bool :=
  (k_start new <=? k_end lock) && (k_start lock <=? k_end new).

(** ** The hash of blocked locks *)

(** [hlist_unhashed(&lock->l_exp_flock_hash)]. *)
Definition flock_unhashed (hash : list flock_wait) (i : Z) : bool :=
  negb (existsb (fun w => fw_lock w =? i) hash).

Definition ldlm_flock_blocking_link (r : flock_resource) (req lock : Z) : run flock_resource :=
  rl ← get_flock r req;
  match k_export rl with
  | None => Ret r
  | Some exp =>
      lassert flock_unhashed (fr_hash r) req;
      bl ← get_flock r lock;
      match k_export bl with
      | None => LBUG
      | Some bl_exp =>
          Ret (fr_set_hash r (FlockWait req exp (k_owner rl) (k_owner bl) bl_exp :: fr_hash r))
      end
  end.

Definition ldlm_flock_blocking_unlink (r : flock_resource) (req : Z) : run flock_resource :=
  rl ← get_flock r req;
  match k_export rl with
  | None => Ret r
  | Some _ => Ret (fr_set_hash r (base.filter (fun w => fw_lock w <> req) (fr_hash r)))
  end.

(** [ldlm_flock_destroy]; [mode] is only used for the reference counts of the client,
    which are not modelled. *)
Definition ldlm_flock_destroy (r : flock_resource) (i flags : Z) : run flock_resource :=
  lassert flock_unhashed (fr_hash r) i;
  lock ← get_flock r i;
  let r := flock_list_del r i in
  let r := if flags =? LDLM_FL_WAIT_NOREPROC
           then put_flock r i (k_set_flags lock (Z.lor (k_flags lock)
                                 (Z.lor LDLM_FL_LOCAL_ONLY LDLM_FL_CBPENDING)))
           else r in
  flock_destroy_nolock r i.

(** ** Deadlocks *)

Section Exports.
(** The peer of an export, whether it has failed, whether it has a hash of blocked
    locks, and whether its client takes the news of a deadlock. *)
Context (nid : Z -> Z) (exp_failed exp_has_hash exp_flock_dead : Z -> bool).

(** [cfs_hash_for_each_key] with [ldlm_flock_lookup_cb]: the first blocked lock of the
    owner among the exports with the peer. *)
Definition ldlm_flock_lookup_cb (hash : list flock_wait) (peer bl_owner : Z) : option flock_wait :=
  List.find (fun w => (nid (fw_export w) =? peer) && (fw_owner w =? bl_owner)) hash.

(** One turn of the loop of [ldlm_flock_deadlock]: its result, or the next owner and
    export. *)
Definition deadlock_turn (hash : list flock_wait) (req req_owner req_exp bl_owner bl_exp : Z)
    : run (bool + Z * Z) :=
  if negb (exp_has_hash bl_exp) then Ret (inl false)
  else
    match ldlm_flock_lookup_cb hash (nid bl_exp) bl_owner with
    | None => Ret (inl false)
    | Some w =>
        lassert negb (fw_lock w =? req);
        lassert fw_owner w =? bl_owner;
        let bl_owner := fw_blocking_owner w in
        let bl_exp := fw_blocking_export w in
        if exp_failed bl_exp then Ret (inl false)
        else if (bl_owner =? req_owner) && (nid bl_exp =? nid req_exp) then Ret (inl true)
        else Ret (inr (bl_owner, bl_exp))
    end.

(** [None] is a walk that is not over after [fuel] turns. *)
Fixpoint deadlock_walk (fuel : nat) (hash : list flock_wait)
    (req req_owner req_exp bl_owner bl_exp : Z) : option (run bool) :=
  match fuel with
  | O => None
  | S fuel' =>
      match deadlock_turn hash req req_owner req_exp bl_owner bl_exp with
      | LBUG => Some LBUG
      | Ret (inl found) => Some (Ret found)
      | Ret (inr (bl_owner, bl_exp)) =>
          deadlock_walk fuel' hash req req_owner req_exp bl_owner bl_exp
      end
  end.

(** A walk with more turns than the hash has locks never ends (a theorem below): the
    server hangs, which is taken as a failure here. *)
Definition ldlm_flock_deadlock (r : flock_resource) (req bl_lock : flock_lock) (i : Z) : run bool :=
  match k_export req with
  | None => Ret false
  | Some req_exp =>
      match k_export bl_lock with
      | None => LBUG
      | Some bl_exp =>
          default LBUG (deadlock_walk (S (length (fr_hash r))) (fr_hash r) i (k_owner req) req_exp
                          (k_owner bl_lock) bl_exp)
      end
  end.

Definition ldlm_flock_cancel_on_deadlock (r : flock_resource) (i : Z) (work_list : list Z)
    : run (flock_resource * list Z) :=
  lock ← get_flock r i;
  match k_export lock with
  | None => LBUG
  | Some exp =>
      if negb (exp_flock_dead exp) then Ret (r, work_list)
      else
        lassert k_completion_ast lock;
        lassert negb (LDLM_TEST_FLAG (k_flags lock) LDLM_FL_AST_SENT);
        let r := put_flock r i (k_set_flags lock (Z.lor (k_flags lock)
                   (Z.lor (Z.lor LDLM_FL_AST_SENT LDLM_FL_CANCEL_ON_BLOCK)
                      LDLM_FL_FLOCK_DEADLOCK))) in
        r ← ldlm_flock_blocking_unlink r i;
        flock_add_cp_work_item (flock_list_del r i) i work_list
  end.

(** ** Conflicts with other owners *)

Inductive conflict_end :=
  | ConflictReturn (rc err flags : Z) (r : flock_resource) (work_list : list Z)
  | ConflictPass (ownlocks : option Z) (reprocess_failed : bool).

(** The loop over the granted list in front of the decision; [ownlocks] and
    [reprocess_failed] are its variables. *)
Fixpoint conflict_loop (queue : list Z) (r : flock_resource) (req : Z) (mode flags : Z)
    (intention : ldlm_process_intention) (work_list : list Z) (ownlocks : option Z)
    (reprocess_failed : bool) : run conflict_end :=
  match queue with
  | [] => Ret (ConflictPass ownlocks reprocess_failed)
  | tmp :: queue' =>
      rl ← get_flock r req;
      lock ← get_flock r tmp;
      let continue ownlocks failed :=
        conflict_loop queue' r req mode flags intention work_list ownlocks failed in
      if ldlm_same_flock_owner lock rl
      then continue (match ownlocks with None => Some tmp | Some _ => ownlocks end) reprocess_failed
      else if lockmode_compat (k_granted_mode lock) mode then continue ownlocks reprocess_failed
      else if negb (ldlm_flocks_overlap lock rl) then continue ownlocks reprocess_failed
      else
        match intention with
        | LDLM_PROCESS_ENQUEUE =>
            if LDLM_TEST_FLAG flags LDLM_FL_BLOCK_NOWAIT then
              r ← ldlm_flock_destroy r req flags;
              Ret (ConflictReturn LDLM_ITER_STOP (- EAGAIN) flags r work_list)
            else if LDLM_TEST_FLAG flags LDLM_FL_TEST_LOCK then
              r ← ldlm_flock_destroy r req flags;
              rl ← get_flock r req;
              let rl := FlockLock (k_owner rl) (k_export rl) (k_pid lock) (k_start lock) (k_end lock)
                          (k_granted_mode lock) (k_granted_mode rl) (k_flags rl)
                          (k_completion_ast rl) (k_cp_ast rl) in
              Ret (ConflictReturn LDLM_ITER_STOP ELDLM_OK (Z.lor flags LDLM_FL_LOCK_CHANGED)
                     (put_flock r req rl) work_list)
            else
              r ← ldlm_flock_blocking_link r req tmp;
              deadlock ← ldlm_flock_deadlock r rl lock req;
              if (deadlock : bool) then
                r ← ldlm_flock_blocking_unlink r req;
                r ← ldlm_flock_destroy r req flags;
                Ret (ConflictReturn LDLM_ITER_STOP (- EDEADLK) flags r work_list)
              else
                r ← flock_add_waiting r req;
                Ret (ConflictReturn LDLM_ITER_STOP ELDLM_OK (Z.lor flags LDLM_FL_BLOCK_GRANTED) r
                       work_list)
        | _ =>
            deadlock ← ldlm_flock_deadlock r rl lock req;
            if (deadlock : bool) then
              rw ← ldlm_flock_cancel_on_deadlock r req work_list;
              Ret (ConflictReturn LDLM_ITER_CONTINUE ELDLM_OK flags rw.1 rw.2)
            else continue ownlocks true
        end
  end.

(** The loop that only looks for the first lock of the owner. *)
Fixpoint first_own (queue : list Z) (r : flock_resource) (req : Z) (ownlocks : option Z)
    : run (option Z) :=
  match queue with
  | [] => Ret ownlocks
  | tmp :: queue' =>
      rl ← get_flock r req;
      lock ← get_flock r tmp;
      if ldlm_same_flock_owner lock rl then Ret (Some tmp) else first_own queue' r req ownlocks
  end.

(** ** Merging and splitting *)

(** The variables of the loop over the locks of the owner. *)
Record merge_state := MergeState {
  ms_res : flock_resource;
  ms_new : Z;
  ms_added : bool;
  ms_overlaps : Z
}.

(** The loop is over at an entry of the list or at its head, with or without a split;
    or it needs a new lock for a split. *)
Inductive merge_end :=
  | MergeDone (ownlocks : option Z) (splitted : bool) (s : merge_state)
  | MergeAlloc (ownlocks : Z) (s : merge_state).

(** The range both locks get when they are merged. *)
Definition merged_range (new lock : flock_lock) : Z * Z :=
  (if k_start new <? k_start lock then k_start new else k_start lock,
   if k_end lock <? k_end new then k_end new else k_end lock).

(** A split of [lock], whose number is [i], at the range of [new]: [new2] gets what is
    below. *)
Definition split_lock (r : flock_resource) (i new2 : Z) (lock new : flock_lock)
    : run flock_resource :=
  l2 ← get_flock r new2;
  let l2 := FlockLock (k_owner new) (match k_export lock with Some e => Some e | None => k_export l2 end)
              (k_pid new) (k_start lock) (u64 (k_start new - 1)) (k_req_mode l2)
              (k_granted_mode lock) (k_flags l2) (k_completion_ast l2) (k_cp_ast l2) in
  let r := put_flock r new2 l2 in
  let r := put_flock r i (k_set_range lock (u64 (k_end new + 1)) (k_end lock)) in
  flock_add_granted r (Some i) new2.

(** [list_for_remaining_safe] from [ownlocks] on: [queue] is the rest of the list. *)
Fixpoint flock_merge_loop (queue : list Z) (mode flags : Z) (new2 : option Z) (s : merge_state)
    : run merge_end :=
  match queue with
  | [] => Ret (MergeDone None false s)
  | i :: queue' =>
      let r := ms_res s in
      lock ← get_flock r i;
      new ← get_flock r (ms_new s);
      let continue s := flock_merge_loop queue' mode flags new2 s in
      let break s := Ret (MergeDone (Some i) false s) in
      if negb (ldlm_same_flock_owner lock new) then break s
      else if k_granted_mode lock =? mode then
        if (u64 (k_end lock + 1) <? k_start new) && negb (k_end lock =? OBD_OBJECT_EOF)
        then continue s
        else if (k_end new <? u64 (k_start lock - 1)) && negb (k_start lock =? 0)
        then break s
        else
          let '(st, en) := merged_range new lock in
          let r := put_flock r (ms_new s) (k_set_range new st en) in
          let r := put_flock r i (k_set_range lock st en) in
          if ms_added s then
            r ← ldlm_flock_destroy r i flags;
            continue (MergeState r (ms_new s) (ms_added s) (ms_overlaps s))
          else continue (MergeState r i true (ms_overlaps s))
      else if k_end lock <? k_start new then continue s
      else if k_end new <? k_start lock then break s
      else
        let overlaps := ms_overlaps s + 1 in
        let upd r := MergeState r (ms_new s) (ms_added s) overlaps in
        if k_start new <=? k_start lock then
          if k_end new <? k_end lock
          then break (upd (put_flock r i (k_set_range lock (u64 (k_end new + 1)) (k_end lock))))
          else
            r ← ldlm_flock_destroy r i flags;
            continue (upd r)
        else if k_end lock <=? k_end new
        then continue (upd (put_flock r i (k_set_range lock (k_start lock) (u64 (k_start new - 1)))))
        else
          match new2 with
          | None => Ret (MergeAlloc i (upd r))
          | Some new2 =>
              r ← split_lock r i new2 lock new;
              Ret (MergeDone (Some i) true (upd r))
          end
  end.

(** The part of the granted list the loop walks; an entry that is no longer on the
    list has no rest. *)
Fixpoint list_from (pos : Z) (q : list Z) : run (list Z) :=
  match q with
  | [] => LBUG
  | j :: q' => if j =? pos then Ret (j :: q') else list_from pos q'
  end.

(** ** Processing a request *)

(** One pass of [ldlm_process_flock_lock] from its label [reprocess] on: a result with
    the flags, the resource and the work list, or the need for a new lock, with the
    variables of the function. *)
Inductive pass_end :=
  | PassReturn (rc err flags : Z) (r : flock_resource) (work_list : list Z)
  | PassAlloc (ownlocks : Z) (s : merge_state).

Section Pass.
(** What an unlock does with the waiting list. *)
Context (reprocess : flock_resource -> run flock_resource).

(** The end of the function, where the request is granted. *)
Definition flock_grant (req mode flags : Z) (intention : ldlm_process_intention)
    (work_list : list Z) (new2 ownlocks : option Z) (splitted : bool) (s : merge_state)
    : run pass_end :=
  let r := ms_res s in
  r ← match new2 with
      | Some n => if splitted then Ret r else flock_destroy_nolock r n
      | None => Ret r
      end;
  rl ← get_flock r req;
  let r := put_flock r req (k_set_granted_mode rl (k_req_mode rl)) in
  r ← (if ms_added s then Ret r else flock_add_granted (flock_list_del r req) ownlocks req);
  rw ← (if flags =? LDLM_FL_WAIT_NOREPROC then Ret (r, work_list)
        else match intention with
             | LDLM_PROCESS_ENQUEUE =>
                 r ← (if (mode =? LCK_NL) && negb (ms_overlaps s =? 0) then reprocess r else Ret r);
                 Ret (r, work_list)
             | _ =>
                 rl ← get_flock r req;
                 lassert k_completion_ast rl;
                 flock_add_cp_work_item r req work_list
             end);
  r ← (if ms_added s then ldlm_flock_destroy rw.1 req flags else Ret rw.1);
  Ret (PassReturn LDLM_ITER_CONTINUE ELDLM_OK flags r rw.2).

Definition flock_pass (req mode flags : Z) (intention : ldlm_process_intention)
    (work_list : list Z) (new2 ownlocks : option Z) (s : merge_state) : run pass_end :=
  let r := ms_res s in
  c ← (if (flags =? LDLM_FL_WAIT_NOREPROC) || (mode =? LCK_NL) then
         own ← first_own (fr_granted r) r req ownlocks;
         Ret (ConflictPass own false)
       else
         lassert lockmode_verify mode;
         conflict_loop (fr_granted r) r req mode flags intention work_list ownlocks false);
  match c with
  | ConflictReturn rc err flags r work_list => Ret (PassReturn rc err flags r work_list)
  | ConflictPass ownlocks reprocess_failed =>
      if reprocess_failed then Ret (PassReturn LDLM_ITER_CONTINUE ELDLM_OK flags r work_list)
      else if LDLM_TEST_FLAG flags LDLM_FL_TEST_LOCK then
        r ← ldlm_flock_destroy r req flags;
        rl ← get_flock r req;
        Ret (PassReturn LDLM_ITER_STOP ELDLM_OK (Z.lor flags LDLM_FL_LOCK_CHANGED)
               (put_flock r req (k_set_req_mode rl LCK_NL)) work_list)
      else
        r ← ldlm_flock_blocking_unlink r req;
        queue ← match ownlocks with None => Ret [] | Some pos => list_from pos (fr_granted r) end;
        m ← flock_merge_loop queue mode flags new2
              (MergeState r (ms_new s) (ms_added s) (ms_overlaps s));
        match m with
        | MergeAlloc own s => Ret (PassAlloc own s)
        | MergeDone own splitted s =>
            flock_grant req mode flags intention work_list new2 own splitted s
        end
  end.

(** The lock [ldlm_lock_create] makes without callbacks in a server ([srv]) or client
    namespace. *)
Definition flock_lock_create (srv : bool) (mode : Z) : flock_lock :=
  FlockLock 0 None 0 0 0 mode LCK_MINMODE (if srv then LDLM_FL_NS_SRV else 0) false false.

(** What is done between two passes: [alloc] is the number of the new lock or an
    error. *)
Definition flock_again (alloc : Z + Z) (srv : bool) (req mode flags : Z)
    (intention : ldlm_process_intention) (work_list : list Z) (own : Z) (s : merge_state)
    : run pass_end :=
  match alloc with
  | inr err =>
      r ← ldlm_flock_destroy (ms_res s) req flags;
      Ret (PassReturn LDLM_ITER_STOP err flags r work_list)
  | inl new2 =>
      lock ← get_flock (ms_res s) own;
      let r := put_flock (ms_res s) new2 (flock_lock_create srv (k_granted_mode lock)) in
      flock_pass req mode flags intention work_list (Some new2) (Some own)
        (MergeState r (ms_new s) (ms_added s) (ms_overlaps s))
  end.

(** The whole function, when nobody else takes the resource lock while the new lock is
    made. A second request for a new lock does not happen. *)
Definition process_flock (alloc : Z + Z) (srv : bool) (r : flock_resource) (req flags : Z)
    (intention : ldlm_process_intention) (work_list : list Z)
    : run (Z * Z * Z * flock_resource * list Z) :=
  rl ← get_flock r req;
  let mode := k_req_mode rl in
  p ← flock_pass req mode flags intention work_list None None (MergeState r req (mode =? LCK_NL) 0);
  p ← match p with
      | PassReturn _ _ _ _ _ => Ret p
      | PassAlloc own s => flock_again alloc srv req mode flags intention work_list own s
      end;
  match p with
  | PassReturn rc err flags r work_list => Ret (rc, err, flags, r, work_list)
  | PassAlloc _ _ => LBUG
  end.

End Pass.

(** [ldlm_reprocess_queue] with [LDLM_PROCESS_RESCAN] on a flock resource: [alloc] gives
    the new lock a request may need. *)
Fixpoint flock_reprocess_loop (alloc : Z -> Z + Z) (queue : list Z) (r : flock_resource)
    (work_list : list Z) : run (flock_resource * list Z) :=
  match queue with
  | [] => Ret (r, work_list)
  | i :: queue' =>
      p ← process_flock Ret (alloc i) true r i 0 LDLM_PROCESS_RESCAN [];
      let '(rc, _, _, r, rpc_list) := p in
      let work_list := rpc_list ++ work_list in
      if rc =? LDLM_ITER_CONTINUE then flock_reprocess_loop alloc queue' r work_list
      else Ret (r, work_list)
  end.

Definition flock_reprocess_queue (alloc : Z -> Z + Z) (r : flock_resource) (work_list : list Z)
    : run (flock_resource * list Z) :=
  flock_reprocess_loop alloc (fr_waiting r) r work_list.

(** [ldlm_work_cp_ast_lock] for a flock, without the callback. *)
Definition flock_work_cp_ast_lock (r : flock_resource) (i : Z) : run flock_resource :=
  lock ← get_flock r i;
  let lock := k_set_cp lock false in
  lassert LDLM_TEST_FLAG (k_flags lock) LDLM_FL_CP_REQD;
  Ret (put_flock r i (k_set_flags lock (LDLM_CLEAR_FLAG (k_flags lock) LDLM_FL_CP_REQD))).

Fixpoint flock_run_cp_work (rpc_list : list Z) (r : flock_resource) : run flock_resource :=
  match rpc_list with
  | [] => Ret r
  | i :: rpc_list' => r ← flock_work_cp_ast_lock r i; flock_run_cp_work rpc_list' r
  end.

(** What an unlock does with the waiting list: one round, the callbacks included. *)
Definition flock_unlock_reprocess (alloc : Z -> Z + Z) (r : flock_resource) : run flock_resource :=
  rw ← flock_reprocess_queue alloc r [];
  flock_run_cp_work rw.2 rw.1.

Definition ldlm_process_flock_lock (alloc : Z -> Z + Z) (srv : bool) (r : flock_resource)
    (req flags : Z) (intention : ldlm_process_intention) (work_list : list Z)
    : run (Z * Z * Z * flock_resource * list Z) :=
  process_flock (flock_unlock_reprocess alloc) (alloc req) srv r req flags intention work_list.

(** [ldlm_lock_cancel] of a flock with its callback [ldlm_flock_blocking_ast]. *)
Definition flock_cancel (r : flock_resource) (i : Z) : run flock_resource :=
  r ← ldlm_flock_blocking_unlink r i;
  r ← flock_destroy_nolock (flock_list_del r i) i;
  lock ← get_flock r i;
  Ret (put_flock r i (k_set_granted_mode lock LCK_MINMODE)).

(** [ldlm_grant_lock] of a flock without a work list, as for a replayed lock and on the
    client. *)
Definition flock_grant_lock (r : flock_resource) (i : Z) : run flock_resource :=
  lock ← get_flock r i;
  let lock := k_set_granted_mode lock (k_req_mode lock) in
  let r := put_flock r i lock in
  if (k_req_mode lock =? 0) || (k_req_mode lock =? LCK_NL)
     || LDLM_TEST_FLAG (k_flags lock) LDLM_FL_TEST_LOCK
     || LDLM_TEST_FLAG (k_flags lock) LDLM_FL_FLOCK_DEADLOCK
  then Ret r
  else flock_add_granted r None i.

(** [ldlm_lock_enqueue] of a flock under the resource lock: the error, the flags and
    the resource. *)
Definition flock_enqueue (alloc : Z -> Z + Z) (local : bool) (r : flock_resource) (i flags : Z)
    : run (Z * Z * flock_resource) :=
  lock ← get_flock r i;
  if LDLM_TEST_FLAG flags LDLM_FL_RESENT then
    let flags := Z.lor flags LDLM_FL_LOCK_CHANGED in
    let flags := if negb (k_req_mode lock =? k_granted_mode lock)
                 then Z.lor flags LDLM_FL_BLOCK_GRANTED else flags in
    Ret (ELDLM_OK, Z.lor flags (Z.land (k_flags lock) LDLM_FL_NO_TIMEOUT), r)
  else if local && (k_req_mode lock =? k_granted_mode lock)
  then Ret (ELDLM_OK, Z.ldiff flags LDLM_FL_BLOCKED_MASK, r)
  else
    let r := put_flock (flock_list_del r i) i
               (k_set_flags lock (enqueue_lock_flags flags (k_flags lock))) in
    let waits r := r ← flock_add_waiting r i; Ret (ELDLM_OK, flags, r) in
    let grants r := r ← flock_grant_lock r i; Ret (ELDLM_OK, flags, r) in
    if local then
      if LDLM_TEST_FLAG flags (Z.lor LDLM_FL_BLOCK_WAIT LDLM_FL_BLOCK_GRANTED) then waits r
      else grants r
    else if LDLM_TEST_FLAG flags LDLM_FL_REPLAY && LDLM_TEST_FLAG flags LDLM_FL_BLOCK_WAIT
    then waits r
    else if LDLM_TEST_FLAG flags LDLM_FL_REPLAY && LDLM_TEST_FLAG flags LDLM_FL_BLOCK_GRANTED
    then grants r
    else
      p ← ldlm_process_flock_lock alloc true r i flags LDLM_PROCESS_ENQUEUE [];
      let '(_, err, flags, r, _) := p in
      Ret (err, flags, r).

(** ** The client's completion *)

Definition F_RDLCK : Z := 0.
Definition F_WRLCK : Z := 1.
Definition F_UNLCK : Z := 2.

Record file_lock := FileLock { fl_type : Z; fl_pid : Z; fl_start : Z; fl_end : Z }.

(** What [ldlm_flock_completion_ast] does first: it goes on at its label [granted], only
    wakes the sleeper of the lock up, or sleeps. *)
Inductive completion_start := CompletionGranted | CompletionWakes | CompletionSleeps.

Definition flock_completion_start (flags : Z) (data : bool) : run completion_start :=
  lassert negb (flags =? LDLM_FL_WAIT_NOREPROC);
  if LDLM_TEST_FLAG flags LDLM_FL_FAILED then Ret CompletionGranted
  else if negb (LDLM_TEST_FLAG flags LDLM_FL_BLOCKED_MASK)
  then Ret (if data then CompletionWakes else CompletionGranted)
  else Ret CompletionSleeps.

(** The sleep is interrupted. *)
Definition ldlm_flock_interrupted_wait (r : flock_resource) (i : Z) : run flock_resource :=
  r ← ldlm_flock_blocking_unlink r i;
  lock ← get_flock r i;
  Ret (put_flock r i (k_set_flags lock (LDLM_SET_FLAG (k_flags lock) LDLM_FL_CBPENDING))).

(** [ldlm_flock_completion_ast] from its label [granted] on, under the resource lock:
    the result, the caller's lock description and the resource. *)
Definition flock_completion_granted (alloc : Z -> Z + Z) (r : flock_resource) (i flags : Z)
    (getlk : file_lock) : run (Z * file_lock * flock_resource) :=
  lock ← get_flock r i;
  if LDLM_TEST_FLAG (k_flags lock) LDLM_FL_DESTROYED then Ret (- EIO, getlk, r)
  else
    let r := flock_list_del r i in
    let test := LDLM_TEST_FLAG (k_flags lock) LDLM_FL_TEST_LOCK in
    let deadlock := LDLM_TEST_FLAG (k_flags lock) LDLM_FL_FLOCK_DEADLOCK in
    if LDLM_TEST_FLAG (k_flags lock) LDLM_FL_FAILED || deadlock then
      lassert negb (LDLM_TEST_FLAG flags LDLM_FL_TEST_LOCK) || test;
      r ← ldlm_flock_destroy r i LDLM_FL_WAIT_NOREPROC;
      Ret (if deadlock then - EDEADLK else - EIO, getlk, r)
    else if LDLM_TEST_FLAG flags LDLM_FL_TEST_LOCK then
      lassert test;
      r ← ldlm_flock_destroy r i LDLM_FL_WAIT_NOREPROC;
      let type := if k_granted_mode lock =? LCK_PR then F_RDLCK
                  else if k_granted_mode lock =? LCK_PW then F_WRLCK else F_UNLCK in
      Ret (0, FileLock type (s32 (k_pid lock)) (s64 (k_start lock)) (s64 (k_end lock)), r)
    else
      p ← ldlm_process_flock_lock alloc false r i LDLM_FL_WAIT_NOREPROC LDLM_PROCESS_ENQUEUE [];
      let '(_, _, _, r, _) := p in
      Ret (0, getlk, r).

End Exports.
