(* ===== verification/FlockMerge.v ===== *)
(** Merging and splitting in the store (the loop over the owner's locks in
    [ldlm_process_flock_lock], lustre/ldlm/ldlm_flock.c) is [assign] on the ranges of the
    owner's locks. *)

From stdpp Require Import gmap.
From S2P Require Import Prelude LdlmLock LdlmExtent LdlmFlock FlockRange.

Definition flock_owner (l : flock_lock) : Z * option Z := (k_owner l, k_export l).
Definition range_of (l : flock_lock) : byte_range :=
  ByteRange (k_start l) (k_end l) (k_granted_mode l).
Definition destroyed (l : flock_lock) : bool := LDLM_TEST_FLAG (k_flags l) LDLM_FL_DESTROYED.

(** The lock a number stands for. *)
Definition flock_of (r : flock_resource) (i : Z) : flock_lock :=
  default (FlockLock 0 None 0 0 0 0 0 0 false false) (fr_locks r !! i).
Definition ranges (r : flock_resource) (q : list Z) : list byte_range :=
  map (fun i => range_of (flock_of r i)) q.

(** A granted lock of an owner. *)
Definition owned (r : flock_resource) (ow : Z * option Z) (i : Z) : Prop :=
  exists l, fr_locks r !! i = Some l /\ flock_owner l = ow /\ destroyed l = false
            /\ proper (range_of l) /\ k_granted_mode l <> LCK_NL.

(** Nothing but the locks [ids] and the granted list has changed. *)
Record frame (ids : list Z) (r r' : flock_resource) : Prop := {
  fm_locks : forall j, j ∉ ids -> fr_locks r' !! j = fr_locks r !! j;
  fm_waiting : fr_waiting r' = fr_waiting r;
  fm_hash : fr_hash r' = fr_hash r
}.

Lemma frame_refl ids r : frame ids r r.
Proof. by split. Qed.

Lemma frame_trans ids ids' ids'' r r' r'' :
  frame ids r r' -> frame ids' r' r'' -> ids ⊆ ids'' -> ids' ⊆ ids'' -> frame ids'' r r''.
Proof.
  intros [H1 H2 H3] [K1 K2 K3] Hi Hi'. split; [|congruence..].
  intros j Hj. rewrite K1 by (intros ?; by apply Hj, Hi'). apply H1. intros ?. by apply Hj, Hi.
Qed.

Lemma frame_put r i l : frame [i] r (put_flock r i l).
Proof.
  split; [|done..]. intros j Hj. cbn. apply lookup_insert_ne. intros ->. by apply Hj; left.
Qed.

Lemma get_known_flock r i l : fr_locks r !! i = Some l -> get_flock r i = Ret l.
Proof. unfold get_flock. by intros ->. Qed.

Lemma flock_of_known r i l : fr_locks r !! i = Some l -> flock_of r i = l.
Proof. unfold flock_of. by intros ->. Qed.

Lemma put_flock_eq r i l : fr_locks (put_flock r i l) !! i = Some l.
Proof. apply lookup_insert_eq. Qed.

Lemma put_flock_ne r i j l : j <> i -> fr_locks (put_flock r i l) !! j = fr_locks r !! j.
Proof. intros. apply lookup_insert_ne. congruence. Qed.

Lemma same_owner_spec l l' : ldlm_same_flock_owner l l' = true <-> flock_owner l = flock_owner l'.
Proof.
  unfold ldlm_same_flock_owner, flock_owner. rewrite andb_true_iff, bool_decide_eq_true, Z.eqb_eq.
  split; [intros [-> ->]|intros [= -> ->]]; done.
Qed.

(** Locks that have not changed have the same ranges. *)
Lemma ranges_frame ids r r' q : frame ids r r' -> (forall j, j ∈ q -> j ∉ ids) -> ranges r' q = ranges r q.
Proof.
  intros [Hl _ _] Hq. apply map_ext_in. intros j Hj%list_elem_of_In. unfold flock_of. by rewrite Hl by auto.
Qed.

Lemma owned_frame ids r r' ow q :
  frame ids r r' -> (forall j, j ∈ q -> j ∉ ids) -> Forall (owned r ow) q -> Forall (owned r' ow) q.
Proof.
  intros [Hl _ _] Hq. rewrite !Forall_forall. intros H j Hj. destruct (H j Hj) as (l & Hlk & Hr).
  exists l. by rewrite Hl by auto.
Qed.

(** ** Destroying a granted lock *)

Lemma flock_destroy_spec r i l flags P Q :
  fr_granted r = P ++ i :: Q -> NoDup (fr_granted r) -> i ∉ fr_waiting r ->
  flock_unhashed (fr_hash r) i = true -> fr_locks r !! i = Some l ->
  exists r', ldlm_flock_destroy r i flags = Ret r' /\ fr_granted r' = P ++ Q /\ frame [i] r r'.
Proof.
  intros Hg Hnd Hw Hh Hl. unfold ldlm_flock_destroy, LASSERT. rewrite Hh, (get_known_flock _ _ _ Hl).
  cbn [mbind run_bind].
  assert (Hd : fr_granted (flock_list_del r i) = P ++ Q
               /\ fr_waiting (flock_list_del r i) = fr_waiting r).
  { split; cbn; [rewrite Hg in *; by apply filter_ne_middle|by apply filter_ne_id]. }
  destruct Hd as [Hd1 Hd2].
  cbv zeta. set (r1 := if flags =? LDLM_FL_WAIT_NOREPROC then _ else _).
  assert (H1 : fr_granted r1 = P ++ Q /\ frame [i] r r1 /\ is_Some (fr_locks r1 !! i)).
  { unfold r1. destruct (_ =? _).
    - split_and!; [done| |eexists; apply put_flock_eq].
      split; [|done..]. intros j Hj. rewrite put_flock_ne by (intros ->; by apply Hj; left). done.
    - split_and!; [done|by split|]. by exists l. }
  destruct H1 as (Hg1 & Hf1 & l1 & Hl1). unfold flock_destroy_nolock, LASSERT.
  rewrite (get_known_flock _ _ _ Hl1). cbn [mbind run_bind].
  assert (Hoff : on_flock_resource r1 i = false).
  { unfold on_flock_resource. rewrite Hg1, (fm_waiting _ _ _ Hf1), orb_false_iff, !bool_decide_eq_false.
    split; [|done]. rewrite Hg in Hnd. apply list.NoDup_app in Hnd as (_ & H1 & H2).
    inversion H2 as [|? ? Hq _]; subst. rewrite elem_of_app. intros [Hp|?]; [|done].
    apply (H1 i Hp). by left. }
  rewrite Hoff. cbn [negb]. destruct (LDLM_TEST_FLAG _ _); [by exists r1|].
  eexists. split_and!; [done|done|]. eapply frame_trans; [exact Hf1|apply frame_put|done|done].
Qed.

(** ** The conditions of the loop *)

(** The comparisons that deal with overflow and underflow are the ones on integers. *)
Lemma below_test s e : 0 <= e <= U64_MAX -> s <= U64_MAX ->
  (u64 (e + 1) <? s) && negb (e =? OBD_OBJECT_EOF) = (e + 1 <? s).
Proof.
  intros He Hs. destruct (Z.eqb_spec e OBD_OBJECT_EOF) as [->|Hne]; cbn [negb].
  - rewrite andb_false_r. symmetry. apply Z.ltb_ge. unfold OBD_OBJECT_EOF, U64_MAX in *. lia.
  - rewrite andb_true_r. rewrite wrap_small; [done|].
    unfold in_u, OBD_OBJECT_EOF, U64_MAX in *. lia.
Qed.

Lemma above_test t st : 0 <= st <= U64_MAX -> 0 <= t ->
  (t <? u64 (st - 1)) && negb (st =? 0) = (t + 1 <? st).
Proof.
  intros Hst Ht. destruct (Z.eqb_spec st 0) as [->|Hne]; cbn [negb].
  - rewrite andb_false_r. symmetry. apply Z.ltb_ge. lia.
  - rewrite andb_true_r. rewrite wrap_small; [lia|]. unfold in_u, U64_MAX in *. lia.
Qed.

Lemma merged_range_spec new lock :
  merged_range new lock = (Z.min (k_start new) (k_start lock), Z.max (k_end new) (k_end lock)).
Proof. unfold merged_range. f_equal; [destruct (Z.ltb_spec (k_start new) (k_start lock))|
  destruct (Z.ltb_spec (k_end lock) (k_end new))]; lia. Qed.

Lemma range_set l s e : range_of (k_set_range l s e) = ByteRange s e (k_granted_mode l).
Proof. done. Qed.

Lemma set_range_same l : k_set_range l (k_start l) (k_end l) = l.
Proof. by destruct l. Qed.

Section Loop.
Context (mode flags : Z) (new2 : option Z) (ow : Z * option Z).

(** What the loop finds: the granted list with the owner's locks that are still to come
    and the locks of others behind them. *)
Record mergeable (r : flock_resource) (front mine post : list Z) : Prop := {
  mg_list : fr_granted r = front ++ mine ++ post;
  mg_nodup : NoDup (fr_granted r);
  mg_waiting : forall i, i ∈ fr_granted r -> i ∉ fr_waiting r;
  mg_hash : forall i, i ∈ fr_granted r -> flock_unhashed (fr_hash r) i = true;
  mg_mine : Forall (owned r ow) mine;
  mg_post : match post with
            | [] => True
            | j :: _ => exists l, fr_locks r !! j = Some l /\ flock_owner l <> ow
            end;
  mg_canonical : canonical (ranges r mine)
}.

Lemma mergeable_next r r' front front' i mine post ids :
  mergeable r front (i :: mine) post -> frame ids r r' ->
  fr_granted r' = front' ++ mine ++ post -> front' `sublist_of` front ++ [i] ->
  (forall j, j ∈ mine ++ post -> j ∉ ids) ->
  mergeable r' front' mine post.
Proof.
  intros [Hl Hnd Hw Hh Hm Hp Hc] Hf Hl' Hs Hids.
  assert (Hsub : fr_granted r' `sublist_of` fr_granted r).
  { rewrite Hl', Hl.
    replace (front ++ (i :: mine) ++ post) with ((front ++ [i]) ++ mine ++ post)
      by (by rewrite <-!app_assoc).
    by apply sublist_app. }
  apply Forall_cons in Hm as [_ Hm]. cbn in Hc. apply canonical_inv in Hc as (_ & _ & Hc). split.
  - done.
  - by eapply sublist_NoDup.
  - intros j Hj. rewrite (fm_waiting _ _ _ Hf). apply Hw. by eapply elem_of_sublist.
  - intros j Hj. rewrite (fm_hash _ _ _ Hf). apply Hh. by eapply elem_of_sublist.
  - eapply owned_frame; [exact Hf| |done]. intros j Hj. apply Hids. apply elem_of_app; by left.
  - destruct post as [|j post]; [done|]. destruct Hp as (l & Hlk & Ho). exists l.
    rewrite (fm_locks _ _ _ Hf); [done|]. apply Hids, elem_of_app. right. by left.
  - erewrite ranges_frame; [done|exact Hf|]. intros j Hj. apply Hids. apply elem_of_app; by left.
Qed.

(** The numbers on the list are different. *)
Lemma mergeable_fresh r front i mine post :
  mergeable r front (i :: mine) post ->
  (i ∉ front) /\ (i ∉ mine ++ post) /\ (forall j, j ∈ front -> j ∉ mine ++ post).
Proof.
  intros [Hl Hnd _ _ _ _ _]. rewrite Hl in Hnd. apply list.NoDup_app in Hnd as (_ & Hd & Hnd).
  cbn [app] in Hd, Hnd. inversion Hnd as [|? ? Hi _]; subst. split_and!.
  - intros Hf. apply (Hd i Hf). by left.
  - done.
  - intros j Hj Hj'. apply (Hd j Hj). by right.
Qed.

Lemma mergeable_destroy r r1 front i mine post l :
  mergeable r front (i :: mine) post -> fr_granted r1 = fr_granted r ->
  fr_waiting r1 = fr_waiting r -> fr_hash r1 = fr_hash r -> fr_locks r1 !! i = Some l ->
  exists r2, ldlm_flock_destroy r1 i flags = Ret r2 /\ fr_granted r2 = front ++ mine ++ post
             /\ frame [i] r1 r2.
Proof.
  intros [Hl Hnd Hw Hh _ _ _] Hg1 Hw1 Hh1 Hl1.
  assert (Hi : i ∈ fr_granted r) by (rewrite Hl, elem_of_app, elem_of_app; right; left; by left).
  apply flock_destroy_spec with (l := l); rewrite ?Hg1, ?Hw1, ?Hh1; auto.
Qed.

(** The loop at the end of the owner's locks. *)
Lemma merge_loop_end r front post new nl added ov :
  mergeable r front [] post -> fr_locks r !! new = Some nl -> flock_owner nl = ow ->
  flock_merge_loop post mode flags new2 (MergeState r new added ov)
    = Ret (MergeDone (head post) false (MergeState r new added ov)).
Proof.
  intros [_ _ _ _ _ Hp _] Hn Ho. destruct post as [|j post]; [done|].
  destruct Hp as (l & Hl & Hne). cbn [flock_merge_loop ms_res ms_new head].
  rewrite (get_known_flock _ _ _ Hl), (get_known_flock _ _ _ Hn). cbn [mbind run_bind].
  destruct (ldlm_same_flock_owner l nl) eqn:E; [|done].
  apply same_owner_spec in E. congruence.
Qed.

(** What the loop does once the request has been merged into [new], the last lock in
    front: the ranges of [new] and of the locks behind it become [want]. *)
Definition placed (r : flock_resource) (front : list Z) (new : Z) (nl : flock_lock)
    (mine post : list Z) (want : list byte_range) (x : run merge_end) : Prop :=
  exists r' ov' right s e,
    x = Ret (MergeDone (head (right ++ post)) false (MergeState r' new true ov'))
    /\ fr_granted r' = (front ++ [new]) ++ right ++ post
    /\ frame (new :: mine) r r' /\ Forall (owned r' ow) right /\ right `sublist_of` mine
    /\ fr_locks r' !! new = Some (k_set_range nl s e)
    /\ ByteRange s e mode :: ranges r' right = want.

Lemma placed_stay r r' front new nl i mine post ov :
  mergeable r (front ++ [new]) (i :: mine) post -> fr_locks r !! new = Some nl ->
  fr_granted r' = fr_granted r -> frame [i] r r' -> owned r' ow i ->
  placed r front new nl (i :: mine) post
    (ByteRange (k_start nl) (k_end nl) mode :: range_of (flock_of r' i) :: ranges r mine)
    (Ret (MergeDone (Some i) false (MergeState r' new true ov))).
Proof.
  intros Hm Hn Hg Hf Hi. destruct (mergeable_fresh _ _ _ _ _ Hm) as (Hif & Hip & _).
  assert (Hni : new <> i) by (intros ->; apply Hif, elem_of_app; right; by left).
  assert (Hmi : forall j, j ∈ mine -> j ∉ [i]).
  { intros j Hj ->%list_elem_of_singleton. apply Hip, elem_of_app. by left. }
  pose proof (mg_mine _ _ _ _ Hm) as [_ Hmine]%Forall_cons.
  exists r', ov, (i :: mine), (k_start nl), (k_end nl). split_and!; try done.
  - rewrite Hg. apply (mg_list _ _ _ _ Hm).
  - eapply frame_trans; [exact (frame_refl [i] r)|exact Hf|..]; intros ? ->%list_elem_of_singleton;
      right; by left.
  - constructor; [done|]. by eapply owned_frame.
  - rewrite set_range_same, (fm_locks _ _ _ Hf); [done|]. by intros ?%list_elem_of_singleton.
  - cbn [ranges map]. fold (ranges r' mine). by rewrite (ranges_frame _ _ _ _ Hf Hmi).
Qed.

Lemma placed_next r r2 front new nl s e i mine post want x :
  frame [new; i] r r2 -> placed r2 front new (k_set_range nl s e) mine post want x ->
  placed r front new nl (i :: mine) post want x.
Proof.
  intros Hf (r' & ov' & right & s' & e' & -> & Hg & Hf' & Ho & Hs & Hn & Hr).
  exists r', ov', right, s', e'. split_and!; try done.
  - eapply frame_trans; [exact Hf|exact Hf'|..]; intros j;
      rewrite !elem_of_cons, ?elem_of_nil; tauto.
  - by apply sublist_cons.
Qed.

Lemma frame_weaken ids ids' r r' : frame ids r r' -> ids ⊆ ids' -> frame ids' r r'.
Proof. intros Hf Hs. by eapply frame_trans; [exact Hf|apply frame_refl| |]. Qed.

(** The lock [i] is destroyed and the loop goes on. *)
Lemma placed_destroy r r1 front new nl i l mine post s e want k :
  mergeable r (front ++ [new]) (i :: mine) post -> frame [new; i] r r1 ->
  fr_granted r1 = fr_granted r -> fr_locks r1 !! i = Some l ->
  fr_locks r1 !! new = Some (k_set_range nl s e) ->
  (forall r2, mergeable r2 (front ++ [new]) mine post -> ranges r2 mine = ranges r mine ->
     fr_locks r2 !! new = Some (k_set_range nl s e) ->
     placed r2 front new (k_set_range nl s e) mine post want (k r2)) ->
  placed r front new nl (i :: mine) post want (r ← ldlm_flock_destroy r1 i flags; k r).
Proof.
  intros Hm Hf1 Hg1 Hl1 Hn1 Hk. destruct (mergeable_fresh _ _ _ _ _ Hm) as (Hif & Hip & Hfp).
  destruct (mergeable_destroy r r1 _ _ _ _ _ Hm Hg1 (fm_waiting _ _ _ Hf1) (fm_hash _ _ _ Hf1) Hl1)
    as (r2 & -> & Hg2 & Hf2). cbn [mbind run_bind].
  assert (Hni : new <> i) by (intros ->; apply Hif, elem_of_app; right; by left).
  assert (Hf : frame [new; i] r r2).
  { eapply frame_trans; [exact Hf1|exact Hf2|done|]. intros ? ->%list_elem_of_singleton. right. by left. }
  assert (Hfr : forall j, j ∈ mine ++ post -> j ∉ [new; i]).
  { intros j Hj [->|[->|[]%elem_of_nil]%elem_of_cons]%elem_of_cons; [|done].
    apply (Hfp new); [|done]. apply elem_of_app. right. by left. }
  eapply placed_next; [exact Hf|]. apply Hk.
  - eapply mergeable_next; [exact Hm|exact Hf|done|by apply sublist_inserts_r|done].
  - eapply ranges_frame; [exact Hf|]. intros j Hj. apply Hfr, elem_of_app. by left.
  - rewrite (fm_locks _ _ _ Hf2); [done|]. by intros ?%list_elem_of_singleton.
Qed.

Lemma merge_placed mine : forall front r new nl ov post,
  mergeable r (front ++ [new]) mine post ->
  fr_locks r !! new = Some nl -> flock_owner nl = ow -> k_granted_mode nl = mode ->
  proper (range_of nl) -> Forall (fun x => k_start nl <= rg_start x) (ranges r mine) ->
  placed r front new nl mine post (assign mode (k_start nl) (k_end nl) (ranges r mine))
    (flock_merge_loop (mine ++ post) mode flags new2 (MergeState r new true ov)).
Proof.
  induction mine as [|i mine IH]; intros front r new nl ov post Hm Hn Ho Hmode Hpr Hst.
  - exists r, ov, [], (k_start nl), (k_end nl). split_and!; try done.
    + by eapply merge_loop_end.
    + apply (mg_list _ _ _ _ Hm).
    + by rewrite set_range_same.
  - pose proof (mg_mine _ _ _ _ Hm) as Hmine. apply Forall_cons in Hmine as [Hi Hmine].
    pose proof Hi as (l & Hl & Hlo & Hld & Hlp & Hln).
    cbn [ranges map] in *. fold (ranges r mine) in *.
    rewrite (flock_of_known _ _ _ Hl) in *. apply Forall_cons in Hst as [Hst1 Hst].
    cbn [flock_merge_loop app ms_res ms_new ms_added ms_overlaps].
    rewrite (get_known_flock _ _ _ Hl), (get_known_flock _ _ _ Hn). cbn [mbind run_bind].
    rewrite (proj2 (same_owner_spec l nl)) by congruence. cbn [negb].
    cbn [assign range_of rg_start rg_end rg_mode] in *.
    unfold proper in Hlp, Hpr. cbn [rg_start rg_end range_of] in Hlp, Hpr.
    rewrite below_test, above_test, merged_range_spec by lia.
    destruct (mergeable_fresh _ _ _ _ _ Hm) as (Hif & _ & _).
    assert (Hni : new <> i) by (intros ->; apply Hif, elem_of_app; right; by left).
    pose proof (placed_stay r r front new nl i mine post ov Hm Hn eq_refl (frame_refl _ _) Hi) as Hstay.
    rewrite (flock_of_known _ _ _ Hl) in Hstay.
    destruct (k_granted_mode l =? mode) eqn:Em.
    + rewrite (proj2 (Z.ltb_ge (k_end l + 1) (k_start nl))) by lia.
      destruct (k_end nl + 1 <? k_start l) eqn:Ea; [done|].
      eapply placed_destroy; [exact Hm| |done|apply put_flock_eq| |].
      * eapply frame_trans; [apply frame_put|apply frame_put|..]; intros ? ->%list_elem_of_singleton;
          [by left|right; by left].
      * rewrite put_flock_ne by done. apply put_flock_eq.
      * intros r2 Hm2 Hr2 Hn2. rewrite <-Hr2. apply IH; try done.
        -- unfold proper. cbn. lia.
        -- rewrite Hr2. eapply Forall_impl; [exact Hst|]. cbn. intros x ?. lia.
    + rewrite (proj2 (Z.ltb_ge (k_end l) (k_start nl))) by lia.
      destruct (k_end nl <? k_start l) eqn:Ea; [done|].
      rewrite (proj2 (Z.leb_le (k_start nl) (k_start l))) by lia.
      destruct (k_end nl <? k_end l) eqn:Eb.
      * rewrite wrap_small by (unfold in_u, U64_MAX in *; lia).
        set (l' := k_set_range l (k_end nl + 1) (k_end l)).
        pose proof (placed_stay r (put_flock r i l') front new nl i mine post (ov + 1) Hm Hn eq_refl
                      (frame_put _ _ _)) as H.
        rewrite (flock_of_known _ _ _ (put_flock_eq _ _ _)) in H. apply H.
        exists l'. split_and!; [apply put_flock_eq|done|done| |done]. unfold proper. cbn. lia.
      * eapply (placed_destroy r r front new nl i l mine post (k_start nl) (k_end nl)); auto.
        -- apply frame_refl.
        -- by rewrite set_range_same.
        -- intros r2 Hm2 Hr2 Hn2. rewrite set_range_same in *. rewrite <-Hr2. apply IH; try done.
           by rewrite Hr2.
Qed.

(** ** Before the request is merged *)

(** The request is not on the list, and neither is the lock for a split. *)
Record loose (r : flock_resource) (front : list Z) (new : Z) (nl : flock_lock) (mine post : list Z)
    : Prop := {
  ls_merge : mergeable r front mine post;
  ls_new : fr_locks r !! new = Some nl;
  ls_off : new ∉ fr_granted r;
  ls_owner : flock_owner nl = ow;
  ls_proper : proper (range_of nl);
  ls_new2 : match new2 with
            | None => True
            | Some n => exists l2, fr_locks r !! n = Some l2 /\ destroyed l2 = false
                          /\ k_export l2 = None /\ (n ∉ fr_granted r) /\ (n ∉ fr_waiting r) /\ n <> new
            end
}.

Lemma loose_next r r' front front' new nl i mine post :
  loose r front new nl (i :: mine) post -> frame [i] r r' ->
  fr_granted r' = front' ++ mine ++ post -> front' `sublist_of` front ++ [i] ->
  loose r' front' new nl mine post.
Proof.
  intros [Hm Hn Hoff Ho Hp H2] Hf Hg Hs. destruct (mergeable_fresh _ _ _ _ _ Hm) as (_ & Hip & _).
  assert (Hi : i ∈ fr_granted r)
    by (rewrite (mg_list _ _ _ _ Hm), elem_of_app, elem_of_app; right; left; by left).
  assert (Hsub : forall j, j ∈ fr_granted r' -> j ∈ fr_granted r).
  { intros j. rewrite Hg, (mg_list _ _ _ _ Hm), !elem_of_app, elem_of_cons.
    intros [H|H]; [|tauto]. pose proof (elem_of_sublist _ _ _ H Hs) as Hj.
    rewrite elem_of_app, list_elem_of_singleton in Hj. tauto. }
  assert (Hoff' : forall j, j ∉ fr_granted r -> j ∉ [i]) by (by intros j ? ->%list_elem_of_singleton).
  split; auto.
  - eapply mergeable_next; [exact Hm|exact Hf|done|done|]. by intros j ? ->%list_elem_of_singleton.
  - by rewrite (fm_locks _ _ _ Hf) by auto.
  - destruct new2 as [n|]; [|done]. destruct H2 as (l2 & Hl2 & Hd2 & He2 & Hg2 & Hw2 & Hne).
    exists l2. rewrite (fm_locks _ _ _ Hf), (fm_waiting _ _ _ Hf) by auto. auto 10.
Qed.

(** The loop goes on behind [i]. *)
Lemma loose_skip r r2 front new nl i mine post :
  loose r front new nl (i :: mine) post -> frame [i] r r2 -> fr_granted r2 = fr_granted r ->
  loose r2 (front ++ [i]) new nl mine post /\ ranges r2 mine = ranges r mine.
Proof.
  intros Hls Hf Hg. pose proof (ls_merge _ _ _ _ _ _ Hls) as Hm. split.
  - eapply loose_next; [exact Hls|exact Hf| |done]. by rewrite Hg, (mg_list _ _ _ _ Hm), <-!app_assoc.
  - eapply ranges_frame; [exact Hf|]. destruct (mergeable_fresh _ _ _ _ _ Hm) as (_ & Hip & _).
    intros j Hj ->%list_elem_of_singleton. apply Hip, elem_of_app. by left.
Qed.

(** An unlock leaves no lock behind. *)
Definition shown (l : list byte_range) : list byte_range :=
  base.filter (fun x => rg_mode x <> LCK_NL) l.

Lemma shown_owned r q : Forall (owned r ow) q -> shown (ranges r q) = ranges r q.
Proof.
  induction 1 as [|i q (l & Hl & _ & _ & _ & Hm) _ IH]; [done|]. cbn [ranges map].
  unfold shown. rewrite filter_cons_True; [by f_equal|]. by rewrite (flock_of_known _ _ _ Hl).
Qed.

(** The request itself, when it is to be put on the list. *)
Definition pending (added : bool) (s e : Z) : list byte_range :=
  if added then [] else [ByteRange s e mode].

Lemma shown_pending s e l : shown (ByteRange s e mode :: l) = pending (mode =? LCK_NL) s e ++ shown l.
Proof.
  unfold shown, pending. destruct (Z.eqb_spec mode LCK_NL) as [->|Hne].
  - rewrite filter_cons_False; [done|]. intros H. by apply H.
  - by rewrite filter_cons_True.
Qed.

(** What the loop does with the owner's locks [mine]: with the request put in between,
    their ranges become [want]. *)
Definition merged (r : flock_resource) (front : list Z) (new : Z) (nl : flock_lock)
    (mine post : list Z) (want : list byte_range) (x : run merge_end) : Prop :=
  exists r' new' added ov' splitted left right s e,
    x = Ret (MergeDone (head (right ++ post)) splitted (MergeState r' new' added ov'))
    /\ fr_granted r' = front ++ left ++ right ++ post /\ NoDup (fr_granted r')
    /\ frame (new :: mine ++ option_list new2) r r'
    /\ Forall (owned r' ow) (left ++ right)
    /\ (forall j, j ∈ left ++ right -> j ∈ mine \/ new2 = Some j)
    /\ fr_locks r' !! new = Some (k_set_range nl s e)
    /\ (splitted = false -> forall n, new2 = Some n ->
          (n ∉ left ++ right) /\ fr_locks r' !! n = fr_locks r !! n)
    /\ (added = false -> mode <> LCK_NL)
    /\ ranges r' left ++ pending added s e ++ ranges r' right = shown want.

Lemma loose_new2 r front new nl mine post n :
  loose r front new nl mine post -> new2 = Some n -> (n ∉ mine) /\ n <> new.
Proof.
  intros [Hm _ _ _ _ H2] E. rewrite E in H2. destruct H2 as (l2 & _ & _ & _ & Hg & _ & Hne).
  split; [|done]. intros Hi. apply Hg. rewrite (mg_list _ _ _ _ Hm), !elem_of_app. tauto.
Qed.

Lemma merged_end r front new nl post ov :
  loose r front new nl [] post ->
  merged r front new nl [] post [ByteRange (k_start nl) (k_end nl) mode]
    (Ret (MergeDone (head post) false (MergeState r new (mode =? LCK_NL) ov))).
Proof.
  intros [Hm Hn Hoff Ho Hp H2].
  exists r, new, (mode =? LCK_NL), ov, false, [], [], (k_start nl), (k_end nl).
  split_and!; try done.
  - apply (mg_list _ _ _ _ Hm).
  - apply (mg_nodup _ _ _ _ Hm).
  - by intros j ?%elem_of_nil.
  - by rewrite set_range_same.
  - intros _ n _. split; [by intros ?%elem_of_nil|done].
  - by intros ?%Z.eqb_neq.
  - by rewrite shown_pending.
Qed.

(** The loop stops at [i]. *)
Lemma merged_stay r r' front new nl i mine post ov :
  loose r front new nl (i :: mine) post ->
  fr_granted r' = fr_granted r -> frame [i] r r' -> owned r' ow i ->
  merged r front new nl (i :: mine) post
    (ByteRange (k_start nl) (k_end nl) mode :: range_of (flock_of r' i) :: ranges r mine)
    (Ret (MergeDone (Some i) false (MergeState r' new (mode =? LCK_NL) ov))).
Proof.
  intros Hls Hg Hf Hi. pose proof Hls as [Hm Hn Hoff Ho Hp H2].
  destruct (mergeable_fresh _ _ _ _ _ Hm) as (Hif & Hip & _).
  assert (Hii : i ∈ fr_granted r)
    by (rewrite (mg_list _ _ _ _ Hm), elem_of_app, elem_of_app; right; left; by left).
  assert (Hni : new ∉ [i]) by (by intros ->%list_elem_of_singleton).
  assert (Hmi : forall j, j ∈ mine -> j ∉ [i]).
  { intros j Hj ->%list_elem_of_singleton. apply Hip, elem_of_app. by left. }
  pose proof (mg_mine _ _ _ _ Hm) as [_ Hmine]%Forall_cons.
  assert (Hown : Forall (owned r' ow) (i :: mine)) by (constructor; [done|by eapply owned_frame]).
  exists r', new, (mode =? LCK_NL), ov, false, [], (i :: mine), (k_start nl), (k_end nl).
  split_and!; try done.
  - rewrite Hg. apply (mg_list _ _ _ _ Hm).
  - rewrite Hg. apply (mg_nodup _ _ _ _ Hm).
  - eapply frame_weaken; [exact Hf|]. intros ? ->%list_elem_of_singleton. right. by left.
  - by left.
  - by rewrite set_range_same, (fm_locks _ _ _ Hf).
  - intros _ n E. destruct (loose_new2 _ _ _ _ _ _ _ Hls E) as [Hn2 _]. split; [done|].
    apply (fm_locks _ _ _ Hf). intros ->%list_elem_of_singleton. by apply Hn2; left.
  - by intros ?%Z.eqb_neq.
  - rewrite shown_pending, <-(ranges_frame _ _ _ _ Hf Hmi).
    change (range_of (flock_of r' i) :: ranges r' mine) with (ranges r' (i :: mine)).
    by rewrite (shown_owned _ _ Hown).
Qed.

(** The loop leaves [i] behind, with or without a new range. *)
Lemma merged_keep r r2 front new nl i mine post want x :
  loose r front new nl (i :: mine) post -> frame [i] r r2 -> owned r2 ow i ->
  merged r2 (front ++ [i]) new nl mine post want x ->
  merged r front new nl (i :: mine) post (range_of (flock_of r2 i) :: want) x.
Proof.
  intros Hls Hf Hi (r' & new' & added & ov' & sp & left & right & s & e & -> & Hg & Hnd & Hf' & Ho & Hid & Hn & H2 & Ha & Hr).
  pose proof (ls_merge _ _ _ _ _ _ Hls) as Hm. destruct (mergeable_fresh _ _ _ _ _ Hm) as (Hif & Hip & _).
  assert (Hii : i ∈ fr_granted r)
    by (rewrite (mg_list _ _ _ _ Hm), elem_of_app, elem_of_app; right; left; by left).
  assert (Hi' : i ∉ new :: mine ++ option_list new2).
  { rewrite elem_of_cons, elem_of_app. intros [->|[H|H]].
    - by apply (ls_off _ _ _ _ _ _ Hls).
    - apply Hip, elem_of_app. by left.
    - destruct new2 as [n|] eqn:E; [|by apply elem_of_nil in H].
      apply list_elem_of_singleton in H as ->. pose proof (ls_new2 _ _ _ _ _ _ Hls) as K.
      rewrite E in K. by destruct K as (_ & _ & _ & _ & K & _). }
  pose proof (fm_locks _ _ _ Hf' _ Hi') as Hsame.
  assert (Hmode : rg_mode (range_of (flock_of r2 i)) <> LCK_NL).
  { destruct Hi as (l & Hl & _ & _ & _ & Hm'). by rewrite (flock_of_known _ _ _ Hl). }
  exists r', new', added, ov', sp, (i :: left), right, s, e. split_and!; try done.
  - by rewrite Hg, <-!app_assoc.
  - eapply frame_trans; [exact Hf|exact Hf'|..]; intros j;
      rewrite ?elem_of_cons, ?elem_of_app, ?elem_of_cons, ?elem_of_nil; tauto.
  - constructor; [|done]. destruct Hi as (l & Hl & Hr'). exists l. by rewrite Hsame.
  - intros j [->|Hj]%elem_of_cons; [left; by left|]. destruct (Hid j Hj); [left; by right|by right].
  - intros Hsp n E. destruct (H2 Hsp n E) as [K1 K2].
    destruct (loose_new2 _ _ _ _ _ _ _ Hls E) as [Hn2 _]. split.
    + intros [->|?]%elem_of_cons; [|done]. by apply Hn2; left.
    + rewrite K2. apply (fm_locks _ _ _ Hf). intros ->%list_elem_of_singleton. by apply Hn2; left.
  - unfold shown. rewrite filter_cons_True by done. fold (shown want). rewrite <-Hr.
    cbn [ranges map app]. f_equal. unfold flock_of. by rewrite Hsame.
Qed.

(** The lock [i] is destroyed. *)
Lemma merged_drop r r2 front new nl i mine post want x :
  loose r front new nl (i :: mine) post -> frame [i] r r2 ->
  merged r2 front new nl mine post want x -> merged r front new nl (i :: mine) post want x.
Proof.
  intros Hls Hf (r' & new' & added & ov' & sp & left & right & s & e & -> & Hg & Hnd & Hf' & Ho & Hid & Hn & H2 & Ha & Hr).
  exists r', new', added, ov', sp, left, right, s, e. split_and!; try done.
  - eapply frame_trans; [exact Hf|exact Hf'|..]; intros j;
      rewrite ?elem_of_cons, ?elem_of_app, ?elem_of_cons, ?elem_of_nil; tauto.
  - intros j Hj. destruct (Hid j Hj); [left; by right|by right].
  - intros Hsp n E. destruct (H2 Hsp n E) as [K1 K2]. split; [done|]. rewrite K2.
    destruct (loose_new2 _ _ _ _ _ _ _ Hls E) as [Hn2 _].
    apply (fm_locks _ _ _ Hf). intros ->%list_elem_of_singleton. by apply Hn2; left.
Qed.

(** The request is merged into [i]. *)
Lemma merged_place r r1 front new nl s e i l mine post want x :
  loose r front new nl (i :: mine) post -> mode <> LCK_NL ->
  frame [new; i] r r1 -> fr_locks r1 !! new = Some (k_set_range nl s e) ->
  flock_owner l = ow -> destroyed l = false -> k_granted_mode l = mode ->
  canonical want -> placed r1 front i l mine post want x ->
  merged r front new nl (i :: mine) post want x.
Proof.
  intros Hls Hmode Hf Hn1 Hlo Hld Hlm Hc (r' & ov' & right & s' & e' & -> & Hg & Hf' & Ho & Hs & Hn & Hr).
  pose proof (ls_merge _ _ _ _ _ _ Hls) as Hm. destruct (mergeable_fresh _ _ _ _ _ Hm) as (Hif & Hip & _).
  pose proof (ls_off _ _ _ _ _ _ Hls) as Hoff.
  rewrite (mg_list _ _ _ _ Hm), !elem_of_app, elem_of_cons in Hoff.
  assert (Hown : Forall (owned r' ow) (i :: right)).
  { constructor; [|done]. eexists. split_and!; [exact Hn|done|done| |by rewrite <-Hlm in Hmode].
    rewrite <-Hr in Hc. by apply canonical_inv in Hc as (Hc & _). }
  exists r', i, true, ov', false, [i], right, s, e. split_and!; try done.
  - by rewrite Hg, <-!app_assoc.
  - eapply sublist_NoDup; [exact (mg_nodup _ _ _ _ Hm)|]. rewrite Hg, (mg_list _ _ _ _ Hm), <-app_assoc.
    apply sublist_app; [done|]. cbn. apply sublist_skip. by apply sublist_app.
  - eapply frame_trans; [exact Hf|exact Hf'|..]; intros j;
      rewrite ?elem_of_cons, ?elem_of_app, ?elem_of_cons, ?elem_of_nil; tauto.
  - intros j [->|Hj]%elem_of_cons; left; [by left|right]. by eapply elem_of_sublist.
  - rewrite (fm_locks _ _ _ Hf'); [done|]. rewrite elem_of_cons. tauto.
  - intros _ n E. destruct (loose_new2 _ _ _ _ _ _ _ Hls E) as [Hn2 Hne].
    assert (Hin : n ∉ i :: right).
    { intros H. apply Hn2. apply (elem_of_sublist (i :: right)); [done|]. by apply sublist_skip. }
    split; [done|]. rewrite (fm_locks _ _ _ Hf') by done. apply (fm_locks _ _ _ Hf).
    rewrite !elem_of_cons in *. rewrite elem_of_nil. tauto.
  - rewrite <-Hr in Hc |- *. cbn [pending ranges map app]. rewrite (flock_of_known _ _ _ Hn), range_set, Hlm.
    replace (ByteRange s' e' mode :: ranges r' right) with (ranges r' (i :: right));
      [by rewrite (shown_owned _ _ Hown)|].
    cbn [ranges map]. by rewrite (flock_of_known _ _ _ Hn), range_set, Hlm.
Qed.

Lemma list_add_before_middle i n P Q :
  i ∉ P -> list_add_before i n (P ++ i :: Q) = P ++ n :: i :: Q.
Proof.
  induction P as [|j P IH]; intros Hn; cbn.
  - by rewrite Z.eqb_refl.
  - rewrite not_elem_of_cons in Hn. destruct Hn as [Hne Hn].
    rewrite (proj2 (Z.eqb_neq j i)) by congruence. by rewrite IH.
Qed.

Lemma split_lock_spec r front new nl i l n mine post :
  loose r front new nl (i :: mine) post -> new2 = Some n -> fr_locks r !! i = Some l ->
  k_start l < k_start nl -> k_end nl < k_end l ->
  exists r', split_lock r i n l nl = Ret r' /\ fr_granted r' = front ++ n :: i :: mine ++ post
    /\ frame [n; i] r r' /\ owned r' ow n /\ owned r' ow i
    /\ range_of (flock_of r' n) = ByteRange (k_start l) (k_start nl - 1) (k_granted_mode l)
    /\ range_of (flock_of r' i) = ByteRange (k_end nl + 1) (k_end l) (k_granted_mode l).
Proof.
  intros Hls E Hl Hs He. pose proof (ls_merge _ _ _ _ _ _ Hls) as Hm.
  destruct (mergeable_fresh _ _ _ _ _ Hm) as (Hif & Hip & _).
  pose proof (mg_mine _ _ _ _ Hm) as [(l0 & Hl0 & Hlo & Hld & Hlp & Hln) _]%Forall_cons.
  assert (l0 = l) as -> by congruence.
  pose proof (ls_new2 _ _ _ _ _ _ Hls) as H2. rewrite E in H2. destruct H2 as (l2 & Hl2 & Hd2 & He2 & Hg2 & Hw2 & Hne).
  assert (Hin : i <> n).
  { intros ->. apply Hg2. rewrite (mg_list _ _ _ _ Hm), !elem_of_app. right; left; by left. }
  unfold split_lock. rewrite (get_known_flock _ _ _ Hl2). cbn [mbind run_bind].
  unfold proper, range_of in Hlp. cbn in Hlp. pose proof (ls_proper _ _ _ _ _ _ Hls) as Hp.
  unfold proper, range_of in Hp. cbn in Hp.
  rewrite !wrap_small by (unfold in_u, U64_MAX in *; lia). cbv zeta.
  set (l2' := FlockLock _ _ _ _ _ _ _ _ _ _). set (l' := k_set_range _ _ _).
  set (r1 := put_flock (put_flock r n l2') i l').
  assert (Hn1 : fr_locks r1 !! n = Some l2') by (unfold r1; rewrite put_flock_ne by done; apply put_flock_eq).
  assert (Ho2 : flock_owner l2' = ow).
  { rewrite <-Hlo. unfold flock_owner, l2'. cbn. pose proof (ls_owner _ _ _ _ _ _ Hls) as K.
    rewrite <-Hlo in K. injection K as Ko _. rewrite Ko. f_equal. destruct (k_export l); [done|apply He2]. }
  unfold flock_add_granted, LASSERT. rewrite (get_known_flock _ _ _ Hn1). cbn [mbind run_bind].
  change (LDLM_TEST_FLAG (k_flags l2') LDLM_FL_DESTROYED) with (destroyed l2). rewrite Hd2.
  unfold on_flock_resource. cbn [r1 put_flock fr_granted fr_waiting fr_set_locks].
  rewrite !bool_decide_eq_false_2 by done. cbn [orb negb].
  eexists. split_and!; [done|..]; cbn [fr_granted fr_set_granted].
  - rewrite (mg_list _ _ _ _ Hm). by apply list_add_before_middle.
  - split; [|done..]. intros j Hj. unfold r1. cbn [fr_locks fr_set_granted].
    rewrite !not_elem_of_cons in Hj. by rewrite !put_flock_ne by tauto.
  - exists l2'. split_and!; [done|done|done| |done]. unfold proper. cbn. lia.
  - exists l'. split_and!; [apply lookup_insert_eq|done|done| |done]. unfold proper. cbn. lia.
  - by rewrite (flock_of_known _ n l2').
  - by rewrite (flock_of_known _ i l') by apply lookup_insert_eq.
Qed.

(** The lock [i] is split. *)
Lemma merged_split r front new nl i l n mine post ov :
  loose r front new nl (i :: mine) post -> new2 = Some n -> fr_locks r !! i = Some l ->
  k_start l < k_start nl -> k_end nl < k_end l ->
  merged r front new nl (i :: mine) post
    (ByteRange (k_start l) (k_start nl - 1) (k_granted_mode l)
     :: ByteRange (k_start nl) (k_end nl) mode
     :: ByteRange (k_end nl + 1) (k_end l) (k_granted_mode l) :: ranges r mine)
    (r ← split_lock r i n l nl; Ret (MergeDone (Some i) true (MergeState r new (mode =? LCK_NL) ov))).
Proof.
  intros Hls E Hl Hs He. pose proof (ls_merge _ _ _ _ _ _ Hls) as Hm.
  destruct (split_lock_spec _ _ _ _ _ _ _ _ _ Hls E Hl Hs He) as (r' & -> & Hg & Hf & Hon & Hoi & Hrn & Hri).
  destruct (mergeable_fresh _ _ _ _ _ Hm) as (_ & Hip & _).
  pose proof (mg_mine _ _ _ _ Hm) as [_ Hmine]%Forall_cons.
  pose proof (ls_new2 _ _ _ _ _ _ Hls) as H2. rewrite E in H2. destruct H2 as (l2 & _ & _ & _ & Hg2 & _ & Hne).
  assert (Hfr : forall j, j ∈ mine -> j ∉ [n; i]).
  { intros j Hj [->|[->|[]%elem_of_nil]%elem_of_cons]%elem_of_cons.
    - apply Hg2. rewrite (mg_list _ _ _ _ Hm), !elem_of_app. right; left; by right.
    - apply Hip, elem_of_app. by left. }
  assert (Hown : Forall (owned r' ow) (n :: i :: mine))
    by (constructor; [done|]; constructor; [done|]; by eapply owned_frame).
  cbn [mbind run_bind].
  exists r', new, (mode =? LCK_NL), ov, true, [n], (i :: mine), (k_start nl), (k_end nl).
  split_and!; try done.
  - rewrite Hg. apply (NoDup_Permutation_proper _ (n :: fr_granted r)); [|by constructor; [|apply (mg_nodup _ _ _ _ Hm)]].
    rewrite (mg_list _ _ _ _ Hm). symmetry. apply Permutation_middle.
  - eapply frame_weaken; [exact Hf|]. rewrite E. intros j.
    rewrite !elem_of_cons, !elem_of_app, !elem_of_cons, elem_of_nil. cbn. rewrite list_elem_of_singleton. tauto.
  - intros j [->|Hj]%elem_of_cons; [by right|by left].
  - rewrite set_range_same, (fm_locks _ _ _ Hf); [apply (ls_new _ _ _ _ _ _ Hls)|].
    rewrite !not_elem_of_cons. split_and!; [done| |by intros ?%elem_of_nil].
    intros ->. apply (ls_off _ _ _ _ _ _ Hls). rewrite (mg_list _ _ _ _ Hm), !elem_of_app. right; left; by left.
  - by intros ?%Z.eqb_neq.
  - unfold shown. rewrite filter_cons_True.
    + fold (shown (ByteRange (k_start nl) (k_end nl) mode
        :: ByteRange (k_end nl + 1) (k_end l) (k_granted_mode l) :: ranges r mine)).
      rewrite shown_pending, <-(ranges_frame _ _ _ _ Hf Hfr), <-Hri.
      change (range_of (flock_of r' i) :: ranges r' mine) with (ranges r' (i :: mine)).
      apply Forall_cons in Hown as [_ Hown]. rewrite (shown_owned _ _ Hown).
      cbn [ranges map app]. by rewrite Hrn.
    + destruct Hon as (ln & Hln & _ & _ & _ & Hm'). rewrite <-Hrn, (flock_of_known _ _ _ Hln). done.
Qed.

(** ** The loop *)

Ltac loop_turn r l nl Hl Hn :=
  cbn [flock_merge_loop app ms_res ms_new ms_added ms_overlaps];
  rewrite (get_known_flock r _ l Hl), (get_known_flock r _ nl Hn); cbn [mbind run_bind];
  rewrite (proj2 (same_owner_spec l nl)) by congruence; cbn [negb].

(** The request is merged into [i], and the loop goes on from there. *)
Lemma merged_merge r front new nl i l mine post ov :
  loose r front new nl (i :: mine) post -> fr_locks r !! i = Some l -> k_granted_mode l = mode ->
  let st := Z.min (k_start nl) (k_start l) in
  let en := Z.max (k_end nl) (k_end l) in
  merged r front new nl (i :: mine) post (assign mode st en (ranges r mine))
    (flock_merge_loop (mine ++ post) mode flags new2
       (MergeState (put_flock (put_flock r new (k_set_range nl st en)) i (k_set_range l st en))
          i true ov)).
Proof.
  intros Hls Hl Hlm st en. pose proof Hls as [Hm Hn Hoff Ho Hpr _].
  destruct (mergeable_fresh _ _ _ _ _ Hm) as (Hif & Hip & _).
  pose proof (mg_mine _ _ _ _ Hm) as [(l0 & Hl0 & Hlo & Hld & Hlp & Hln) Hmine]%Forall_cons.
  assert (l0 = l) as -> by congruence.
  pose proof (mg_canonical _ _ _ _ Hm) as Hc. cbn [ranges map] in Hc. fold (ranges r mine) in Hc.
  apply canonical_inv in Hc as (_ & Hap & Hc). rewrite (flock_of_known _ _ _ Hl) in Hap.
  rewrite (mg_list _ _ _ _ Hm), !elem_of_app, elem_of_cons in Hoff.
  assert (Hfr : forall j, j ∈ mine ++ post -> j ∉ [new; i]).
  { intros j Hj. rewrite !elem_of_cons, elem_of_nil. intros [->|[->|[]]]; [|done].
    rewrite elem_of_app in Hj. tauto. }
  set (r1 := put_flock _ _ _).
  assert (Hf : frame [new; i] r r1).
  { eapply frame_trans; [apply frame_put|apply frame_put|..]; intros ? ->%list_elem_of_singleton;
      [by left|right; by left]. }
  assert (Hr1 : ranges r1 mine = ranges r mine).
  { eapply ranges_frame; [exact Hf|]. intros j Hj. apply Hfr, elem_of_app. by left. }
  unfold proper, range_of in Hlp, Hpr. cbn in Hlp, Hpr.
  assert (Hpr' : proper (ByteRange st en mode)) by (unfold proper; cbn; lia).
  eapply (merged_place r r1 front new nl st en i (k_set_range l st en)); try done; [congruence| |
    by apply assign_canonical|].
  - unfold r1. rewrite put_flock_ne by (intros ->; tauto). apply put_flock_eq.
  - rewrite <-Hr1. apply merge_placed; try done.
    + eapply mergeable_next; [exact Hm|exact Hf| |done|exact Hfr].
      unfold r1. cbn. rewrite (mg_list _ _ _ _ Hm). by rewrite <-!app_assoc.
    + apply put_flock_eq.
    + rewrite Hr1. eapply Forall_impl; [exact Hap|]. intros x Hx. cbn. unfold apart in Hx. cbn in Hx. lia.
Qed.

(** The lock [i] is destroyed, and the loop goes on. *)
Lemma merged_destroy r front new nl i mine post want k :
  loose r front new nl (i :: mine) post ->
  (forall r2, loose r2 front new nl mine post -> ranges r2 mine = ranges r mine ->
     merged r2 front new nl mine post want (k r2)) ->
  merged r front new nl (i :: mine) post want (r ← ldlm_flock_destroy r i flags; k r).
Proof.
  intros Hls Hk. pose proof (ls_merge _ _ _ _ _ _ Hls) as Hm.
  destruct (mergeable_fresh _ _ _ _ _ Hm) as (_ & Hip & _).
  pose proof (mg_mine _ _ _ _ Hm) as [(l & Hl & _) _]%Forall_cons.
  destruct (mergeable_destroy r r _ _ _ _ _ Hm eq_refl eq_refl eq_refl Hl) as (r2 & -> & Hg2 & Hf2).
  cbn [mbind run_bind]. eapply merged_drop; [exact Hls|exact Hf2|]. apply Hk.
  - eapply loose_next; [exact Hls|exact Hf2|done|by apply sublist_inserts_r].
  - eapply ranges_frame; [exact Hf2|]. intros j Hj ->%list_elem_of_singleton. apply Hip, elem_of_app. by left.
Qed.

(** From a request that starts in front of all locks that are to come. *)
Lemma merge_after mine : forall front r new nl ov post,
  loose r front new nl mine post -> Forall (fun x => k_start nl <= rg_start x) (ranges r mine) ->
  merged r front new nl mine post (assign mode (k_start nl) (k_end nl) (ranges r mine))
    (flock_merge_loop (mine ++ post) mode flags new2 (MergeState r new (mode =? LCK_NL) ov)).
Proof.
  induction mine as [|i mine IH]; intros front r new nl ov post Hls Hst;
    pose proof Hls as [Hm Hn Hoff Ho Hpr _].
  - cbn [app ranges map assign]. erewrite merge_loop_end; [by apply merged_end|exact Hm|exact Hn|done].
  - pose proof (mg_mine _ _ _ _ Hm) as [Hi Hmine]%Forall_cons.
    pose proof Hi as (l & Hl & Hlo & Hld & Hlp & Hln).
    pose proof (merged_stay r r front new nl i mine post ov Hls eq_refl (frame_refl _ _) Hi) as Hstay.
    cbn [ranges map] in *. fold (ranges r mine) in *.
    rewrite (flock_of_known _ _ _ Hl) in *. apply Forall_cons in Hst as [Hst1 Hst].
    loop_turn r l nl Hl Hn. cbn [assign range_of rg_start rg_end rg_mode] in *.
    unfold proper in Hlp, Hpr. cbn [rg_start rg_end range_of] in Hlp, Hpr.
    rewrite below_test, above_test, merged_range_spec by lia.
    destruct (k_granted_mode l =? mode) eqn:Em.
    + rewrite (proj2 (Z.ltb_ge (k_end l + 1) (k_start nl))) by lia.
      destruct (k_end nl + 1 <? k_start l) eqn:Ea; [done|].
      rewrite (proj2 (Z.eqb_neq mode LCK_NL)) by lia. apply merged_merge; [done|done|lia].
    + rewrite (proj2 (Z.ltb_ge (k_end l) (k_start nl))) by lia.
      destruct (k_end nl <? k_start l) eqn:Ea; [done|].
      rewrite (proj2 (Z.leb_le (k_start nl) (k_start l))) by lia.
      destruct (k_end nl <? k_end l) eqn:Eb.
      * rewrite wrap_small by (unfold in_u, U64_MAX in *; lia).
        set (l' := k_set_range l (k_end nl + 1) (k_end l)).
        pose proof (merged_stay r (put_flock r i l') front new nl i mine post (ov + 1) Hls eq_refl
                      (frame_put _ _ _)) as H.
        rewrite (flock_of_known _ _ _ (put_flock_eq _ _ _)) in H. apply H.
        exists l'. split_and!; [apply put_flock_eq|done|done| |done]. unfold proper. cbn. lia.
      * apply merged_destroy; [done|]. intros r2 Hls2 Hr2. rewrite <-Hr2. apply IH; [done|]. by rewrite Hr2.
Qed.

(** The loop asks for a new lock when one has to be split and there is none; nothing
    has changed then. *)
Definition wants_split (r : flock_resource) (new : Z) (nl : flock_lock) (mine : list Z)
    (x : run merge_end) : Prop :=
  new2 = None /\ exists i l ov', i ∈ mine /\ fr_locks r !! i = Some l
    /\ straddles mode (k_start nl) (k_end nl) (range_of l)
    /\ x = Ret (MergeAlloc i (MergeState r new (mode =? LCK_NL) ov')).

Definition no_split (r : flock_resource) (nl : flock_lock) (mine : list Z) : Prop :=
  new2 = None -> Forall (fun x => ~ straddles mode (k_start nl) (k_end nl) x) (ranges r mine).

Lemma merge_loop_spec mine : forall front r new nl ov post,
  loose r front new nl mine post ->
  let x := flock_merge_loop (mine ++ post) mode flags new2 (MergeState r new (mode =? LCK_NL) ov) in
  (merged r front new nl mine post (assign mode (k_start nl) (k_end nl) (ranges r mine)) x
   /\ no_split r nl mine)
  \/ wants_split r new nl mine x.
Proof.
  induction mine as [|i mine IH]; intros front r new nl ov post Hls.
  - left. split; [by apply merge_after|]. constructor.
  - pose proof Hls as [Hm Hn Hoff Ho Hpr _].
    pose proof (mg_mine _ _ _ _ Hm) as [Hi Hmine]%Forall_cons.
    pose proof Hi as (l & Hl & Hlo & Hld & Hlp & Hln).
    pose proof (mg_canonical _ _ _ _ Hm) as Hc. cbn [ranges map] in Hc. fold (ranges r mine) in Hc.
    apply canonical_inv in Hc as (_ & Hap & Hc). rewrite (flock_of_known _ _ _ Hl) in Hap.
    unfold proper in Hlp, Hpr. cbn [rg_start rg_end range_of] in Hlp, Hpr.
    destruct (Z.leb_spec (k_start nl) (k_start l)) as [Hle|Hlt].
    { assert (Hge : Forall (fun y => k_start nl <= rg_start y) (ranges r (i :: mine))).
      { cbn [ranges map]. rewrite (flock_of_known _ _ _ Hl). constructor; [done|].
        eapply Forall_impl; [exact Hap|]. intros y Hy. unfold apart in Hy. cbn in *. lia. }
      left. split; [by apply merge_after|]. intros _. eapply Forall_impl; [exact Hge|].
      intros y Hy [K _]. cbn in Hy. lia. }
    assert (Hns : ~ straddles mode (k_start nl) (k_end nl) (range_of l) ->
      k_start nl <= k_end l + 1 -> no_split r nl (i :: mine)).
    { intros Hnot Hend _. cbn [ranges map]. rewrite (flock_of_known _ _ _ Hl). constructor; [done|].
      eapply Forall_impl; [exact Hap|]. intros y Hy [K _]. unfold apart in Hy. cbn in *. lia. }
    loop_turn r l nl Hl Hn.
    rewrite below_test, above_test, merged_range_spec by lia.
    cbn [ranges map]. fold (ranges r mine). rewrite (flock_of_known _ _ _ Hl).
    cbn [assign range_of rg_start rg_end rg_mode].
    assert (Hcont : let x := flock_merge_loop (mine ++ post) mode flags new2
                               (MergeState r new (mode =? LCK_NL) ov) in
      k_end l < k_start nl ->
      (merged r front new nl (i :: mine) post
        (range_of l :: assign mode (k_start nl) (k_end nl) (ranges r mine)) x
       /\ no_split r nl (i :: mine))
      \/ wants_split r new nl (i :: mine) x).
    { intros x Hend. destruct (loose_skip _ r _ _ _ _ _ _ Hls (frame_refl _ _) eq_refl) as [Hls2 _].
      destruct (IH _ _ _ _ ov _ Hls2) as [[H Hno]|(E & j & lj & ov' & Hj & Hlj & H)].
      - left. split; [rewrite <-(flock_of_known _ _ _ Hl); by eapply merged_keep; [..|exact H]|].
        intros E. cbn [ranges map]. rewrite (flock_of_known _ _ _ Hl). constructor; [|by apply Hno].
        intros (_ & K & _). cbn in K. lia.
      - right. split; [done|]. exists j, lj, ov'. split_and!; [by right|tauto..]. }
    rewrite (proj2 (Z.ltb_ge (k_end nl + 1) (k_start l))), (proj2 (Z.ltb_ge (k_end nl) (k_start l))) by lia.
    rewrite (proj2 (Z.leb_gt (k_start nl) (k_start l))) by lia.
    destruct (k_granted_mode l =? mode) eqn:Em.
    + destruct (k_end l + 1 <? k_start nl) eqn:Ea; [apply Hcont; lia|].
      rewrite (proj2 (Z.eqb_neq mode LCK_NL)) by lia. left. split; [apply merged_merge; [done|done|lia]|].
      apply Hns; [|lia]. intros (_ & _ & K). cbn in K. lia.
    + destruct (k_end l <? k_start nl) eqn:Ea; [apply Hcont; lia|].
      destruct (k_end l <=? k_end nl) eqn:Eb; [left; split|].
      * rewrite wrap_small by (unfold in_u, U64_MAX in *; lia).
        set (l' := k_set_range l (k_start l) (k_start nl - 1)).
        destruct (loose_skip _ (put_flock r i l') _ _ _ _ _ _ Hls (frame_put _ _ _) eq_refl) as [Hls2 Hr2].
        replace (ByteRange (k_start l) (k_start nl - 1) (k_granted_mode l))
          with (range_of (flock_of (put_flock r i l') i))
          by (by rewrite (flock_of_known _ _ _ (put_flock_eq _ _ _))).
        eapply merged_keep; [exact Hls|apply frame_put| |].
        -- exists l'. split_and!; [apply put_flock_eq|done|done| |done]. unfold proper. cbn. lia.
        -- rewrite <-Hr2. apply merge_after; [done|]. rewrite Hr2.
           eapply Forall_impl; [exact Hap|]. intros y Hy. unfold apart in Hy. cbn in *. lia.
      * apply Hns; [|lia]. intros (_ & K & _). cbn in K. lia.
      * destruct new2 as [n|] eqn:E2.
        -- left. split; [apply merged_split; (done || lia)|].
           intros K. congruence.
        -- right. split; [done|]. exists i, l, (ov + 1). split_and!; [by left|done| |done].
           split_and!; cbn; lia.
Qed.
End Loop.
