(* ===== verification/FlockWait.v ===== *)
(** The search for deadlocks among blocked POSIX locks ([ldlm_flock_deadlock],
    lustre/ldlm/ldlm_flock.c): when it ends, and what it finds. *)

From stdpp Require Import list.
From S2P Require Import Prelude LdlmLock LdlmFlock.

(** ** Paths of a partial function *)

Section Path.
Context {A : Type} (f : A -> option A).

Fixpoint path (n : nat) (w : A) : option A :=
  match n with
  | O => Some w
  | S n' => match f w with Some w' => path n' w' | None => None end
  end.

Lemma path_add m n w : path (m + n) w = path m w ≫= path n.
Proof.
  revert w. induction m as [|m IH]; intros w; cbn; [done|]. destruct (f w); [apply IH|done].
Qed.

Lemma path_prefix m n w x : (m <= n)%nat -> path n w = Some x -> exists y, path m w = Some y.
Proof.
  intros Hle H. replace n with (m + (n - m))%nat in H by lia. rewrite path_add in H.
  destruct (path m w) as [y|]; [by exists y|done].
Qed.

(** A path that visits a place twice never ends. *)
Lemma path_repeats i j w x : (i < j)%nat -> path i w = Some x -> path j w = Some x ->
  forall n, path n w <> None.
Proof.
  intros Hij Hi Hj n. induction n as [n IH] using lt_wf_ind. intros Hn.
  destruct (decide (n <= j)%nat) as [Hle|Hgt].
  - destruct (path_prefix n j w x Hle Hj) as [y Hy]. congruence.
  - apply (IH (i + (n - j))%nat); [lia|]. rewrite path_add, Hi. cbn.
    replace n with (j + (n - j))%nat in Hn by lia. by rewrite path_add, Hj in Hn.
Qed.

(** A path within a list that does not visit a place twice is over after as many steps
    as the list is long. *)
Lemma path_bound (H : list A) w :
  w ∈ H -> (forall x y, x ∈ H -> f x = Some y -> y ∈ H) ->
  (forall i j x, (i < j)%nat -> path i w = Some x -> path j w <> Some x) ->
  path (length H) w = None.
Proof.
  intros Hw Hf Hd. destruct (path (length H) w) as [z|] eqn:E; [|done]. exfalso.
  assert (Hin : forall n x, path n w = Some x -> x ∈ H).
  { intros n. clear E z Hd. revert w Hw. induction n as [|n IH]; intros w Hw x; cbn; [by intros [= <-]|].
    destruct (f w) as [w'|] eqn:E; [|done]. apply IH. by eapply Hf. }
  set (l := (fun n => default w (path n w)) <$> seq 0 (S (length H))).
  assert (Hl : forall n x, l !! n = Some x -> path n w = Some x).
  { intros n x. unfold l. rewrite list_lookup_fmap. intros (k & Hk & ->)%fmap_Some_1.
    apply lookup_seq in Hk as [-> Hk]. cbn.
    destruct (path_prefix n (length H) w z ltac:(lia) E) as [y Hy]. by rewrite Hy. }
  assert (Hnd : NoDup l).
  { apply NoDup_alt. intros i j x Hi Hj. apply Hl in Hi, Hj.
    destruct (lt_eq_lt_dec i j) as [[?|?]|?]; [|done|].
    - exfalso. by apply (Hd i j x).
    - exfalso. by apply (Hd j i x). }
  assert (Hle : (length l <= length H)%nat).
  { apply submseteq_length, NoDup_submseteq; [done|]. intros x (n & Hn)%list_elem_of_lookup.
    by eapply Hin, Hl. }
  unfold l in Hle. rewrite length_fmap, length_seq in Hle. lia.
Qed.

End Path.

Lemma path_mono {A} (f g : A -> option A) (w x : A) n :
  (forall y z, f y = Some z -> g y = Some z) -> path f n w = Some x -> path g n w = Some x.
Proof.
  intros H. revert w. induction n as [|n IH]; intros w; cbn; [done|].
  destruct (f w) as [w'|] eqn:E; [|done]. rewrite (H _ _ E). apply IH.
Qed.

(** ** Waiting for each other *)

Section Waits.
Context (nid : Z -> Z) (exp_failed exp_has_hash : Z -> bool).

(** A process is known by its peer and its owner field. *)
Definition process_of (exp owner : Z) : Z * Z := (nid exp, owner).
Definition sleeper (w : flock_wait) : Z * Z := process_of (fw_export w) (fw_owner w).
Definition blocker (w : flock_wait) : Z * Z :=
  process_of (fw_blocking_export w) (fw_blocking_owner w).

(** The hash tells of every blocked lock behind which process it was linked when it was
    enqueued. The entry is not renewed while the lock waits, so that a chain of such records
    is not a chain of processes that are in each other's way now. A chain leads from an
    owner and the export its lock has to a process; it ends at an export that has failed or
    has no table of blocked locks. *)
Inductive recorded_chain (hash : list flock_wait) : Z -> Z -> Z * Z -> Prop :=
  | chain_last w exp owner :
      w ∈ hash -> sleeper w = process_of exp owner -> exp_has_hash exp = true ->
      exp_failed (fw_blocking_export w) = false -> recorded_chain hash exp owner (blocker w)
  | chain_next w exp owner q :
      w ∈ hash -> sleeper w = process_of exp owner -> exp_has_hash exp = true ->
      exp_failed (fw_blocking_export w) = false ->
      recorded_chain hash (fw_blocking_export w) (fw_blocking_owner w) q ->
      recorded_chain hash exp owner q.

(** The blocked lock the walk comes to from an owner and an export, and behind a
    blocked lock. *)
Definition enters (hash : list flock_wait) (owner exp : Z) : option flock_wait :=
  if exp_has_hash exp then ldlm_flock_lookup_cb nid hash (nid exp) owner else None.
Definition follows (hash : list flock_wait) (w : flock_wait) : option flock_wait :=
  if exp_failed (fw_blocking_export w) then None
  else enters hash (fw_blocking_owner w) (fw_blocking_export w).

(** No blocked lock waits for itself, and every process sleeps once. *)
Record waits_ok (hash : list flock_wait) : Prop := {
  wo_once : NoDup (map sleeper hash);
  wo_acyclic : forall w n, path (follows hash) (S n) w <> Some w
}.

Lemma lookup_spec hash peer owner w :
  ldlm_flock_lookup_cb nid hash peer owner = Some w -> w ∈ hash /\ sleeper w = (peer, owner).
Proof.
  unfold ldlm_flock_lookup_cb. intros H%find_some. rewrite andb_true_iff, !Z.eqb_eq in H.
  rewrite list_elem_of_In. unfold sleeper, process_of. split; [tauto|]. f_equal; tauto.
Qed.

Lemma enters_spec hash owner exp w :
  enters hash owner exp = Some w -> w ∈ hash /\ sleeper w = process_of exp owner.
Proof. unfold enters. destruct (exp_has_hash exp); [apply lookup_spec|done]. Qed.

Lemma follows_spec hash w w' :
  follows hash w = Some w' ->
  w' ∈ hash /\ sleeper w' = blocker w /\ exp_failed (fw_blocking_export w) = false.
Proof.
  unfold follows. destruct (exp_failed _); [done|]. intros [H1 H2]%enters_spec. done.
Qed.

(** ** The walk *)

Section Walk.
Context (hash : list flock_wait) (req req_owner req_exp : Z).

(** The walk stops at a blocked lock. *)
Definition stops (w : flock_wait) : bool :=
  (fw_lock w =? req) || exp_failed (fw_blocking_export w)
  || ((fw_blocking_owner w =? req_owner) && (nid (fw_blocking_export w) =? nid req_exp)).
Definition goes (w : flock_wait) : option flock_wait := if stops w then None else follows hash w.

(** What the walk makes of the blocked lock it has come to. *)
Definition verdict (w : flock_wait) : run bool :=
  if fw_lock w =? req then LBUG else if exp_failed (fw_blocking_export w) then Ret false
  else Ret ((fw_blocking_owner w =? req_owner) && (nid (fw_blocking_export w) =? nid req_exp)).

Lemma walk_turn n owner exp :
  deadlock_walk nid exp_failed exp_has_hash (S n) hash req req_owner req_exp owner exp
  = match enters hash owner exp with
    | None => Some (Ret false)
    | Some w => if stops w then Some (verdict w)
                else deadlock_walk nid exp_failed exp_has_hash n hash req req_owner req_exp
                       (fw_blocking_owner w) (fw_blocking_export w)
    end.
Proof.
  cbn [deadlock_walk]. unfold deadlock_turn, enters, stops, verdict, LASSERT.
  destruct (exp_has_hash exp); [|done]. cbn [negb].
  destruct (ldlm_flock_lookup_cb nid hash (nid exp) owner) as [w|] eqn:E; [|done].
  apply lookup_spec in E as [_ E]. injection E as _ E. rewrite E, Z.eqb_refl.
  destruct (fw_lock w =? req); cbn; [done|]. destruct (exp_failed _); cbn; [done|].
  by destruct (_ && _).
Qed.

(** The walk is not over after [n] turns exactly if the path is not. *)
Lemma walk_path n : forall owner exp w, enters hash owner exp = Some w ->
  deadlock_walk nid exp_failed exp_has_hash (S n) hash req req_owner req_exp owner exp = None
  <-> exists x, path goes n w = Some x /\ stops x = false.
Proof.
  induction n as [|n IH]; intros owner exp w E; rewrite walk_turn, E.
  - cbn. destruct (stops w) eqn:Es.
    + split; [done|]. intros (x & [= <-] & ?). congruence.
    + split; [|done]. intros _. by exists w.
  - cbn [path]. unfold goes at 1. destruct (stops w) eqn:Es.
    + split; [done|]. by intros (x & ? & _).
    + unfold follows. pose proof Es as Ef. unfold stops in Ef. rewrite !orb_false_iff in Ef.
      destruct Ef as [[_ ->] _].
      destruct (enters hash (fw_blocking_owner w) (fw_blocking_export w)) as [w'|] eqn:Ew.
      * by apply IH.
      * rewrite walk_turn, Ew. split; [done|]. by intros (x & ? & _).
Qed.

Lemma goes_follows w w' : goes w = Some w' -> follows hash w = Some w'.
Proof. unfold goes. by destruct (stops w). Qed.

Lemma path_goes_over w :
  w ∈ hash -> (forall i j x, (i < j)%nat -> path goes i w = Some x -> path goes j w <> Some x) ->
  path goes (length hash) w = None.
Proof.
  intros Hw Hd. apply path_bound; [done| |done].
  intros x y _ [Hy _]%goes_follows%follows_spec. done.
Qed.

Lemma goes_ends owner exp :
  (forall w n, path goes (S n) w <> Some w) ->
  deadlock_walk nid exp_failed exp_has_hash (S (length hash)) hash req req_owner req_exp owner exp
    <> None.
Proof.
  intros Hac Hnone. destruct (enters hash owner exp) as [w|] eqn:E.
  - rewrite (walk_path _ _ _ _ E) in Hnone. destruct Hnone as (x & Hx & _).
    rewrite path_goes_over in Hx; [done|by apply enters_spec in E as [? _]|].
    intros i j y Hij Hi Hj. apply (Hac y (j - i - 1)%nat).
    replace j with (i + S (j - i - 1))%nat in Hj by lia. by rewrite path_add, Hi in Hj.
  - by rewrite walk_turn, E in Hnone.
Qed.

(** Among blocked locks that do not wait for each other in a circle the walk ends. *)
Lemma walk_ends owner exp :
  waits_ok hash ->
  deadlock_walk nid exp_failed exp_has_hash (S (length hash)) hash req req_owner req_exp owner exp
    <> None.
Proof.
  intros [_ Hac]. apply goes_ends. intros w n Hp. apply (Hac w n).
  eapply path_mono; [apply goes_follows|exact Hp].
Qed.

(** A walk that is not over after one more turn than there are blocked locks never ends. *)
Lemma walk_hangs owner exp :
  deadlock_walk nid exp_failed exp_has_hash (S (length hash)) hash req req_owner req_exp owner exp
    = None ->
  forall fuel, deadlock_walk nid exp_failed exp_has_hash fuel hash req req_owner req_exp owner exp
    = None.
Proof.
  intros Hnone [|n]; [done|]. destruct (enters hash owner exp) as [w|] eqn:E.
  2:{ by rewrite walk_turn, E in Hnone. }
  destruct (deadlock_walk _ _ _ (S n) _ _ _ _ _ _) as [v|] eqn:Ev; [|done]. exfalso.
  assert (Hover : exists m, path goes m w = None).
  { destruct (path goes n w) as [x|] eqn:Ex; [|by exists n]. exists (n + 1)%nat.
    rewrite path_add, Ex. cbn. unfold goes. destruct (stops x) eqn:Es; [done|].
    rewrite (proj2 (walk_path n _ _ _ E)) in Ev; [done|]. by exists x. }
  destruct Hover as [m Hm].
  rewrite (walk_path _ _ _ _ E) in Hnone. destruct Hnone as (x & Hx & _).
  rewrite path_goes_over in Hx; [done|by apply enters_spec in E as [? _]|].
  intros i j y Hij Hi Hj. by apply (path_repeats _ _ _ _ _ Hij Hi Hj m).
Qed.

(** A deadlock that is found is recorded: a chain leads from the blocking process to the
    requesting one. *)
Lemma walk_found n : forall owner exp,
  deadlock_walk nid exp_failed exp_has_hash n hash req req_owner req_exp owner exp
    = Some (Ret true) ->
  recorded_chain hash exp owner (process_of req_exp req_owner).
Proof.
  induction n as [|n IH]; intros owner exp; [done|]. rewrite walk_turn.
  destruct (enters hash owner exp) as [w|] eqn:E; [|done].
  pose proof (enters_spec _ _ _ _ E) as [Hw Hs]. unfold enters in E.
  destruct (exp_has_hash exp) eqn:Eh; [|done].
  unfold stops, verdict. destruct (fw_lock w =? req); [done|].
  destruct (exp_failed (fw_blocking_export w)) eqn:Ef; [done|]. cbn [orb].
  destruct (_ && _) eqn:Er.
  - intros _. rewrite andb_true_iff, !Z.eqb_eq in Er.
    replace (process_of req_exp req_owner) with (blocker w); [by apply chain_last|].
    unfold blocker, process_of. f_equal; tauto.
  - intros H%IH. by eapply chain_next.
Qed.

(** The walk does not come to the request itself. *)
Lemma walk_returns n : forall owner exp,
  (forall w, w ∈ hash -> fw_lock w = req -> sleeper w = process_of req_exp req_owner) ->
  process_of exp owner <> process_of req_exp req_owner ->
  deadlock_walk nid exp_failed exp_has_hash n hash req req_owner req_exp owner exp <> Some LBUG.
Proof.
  intros owner exp Hreq. revert owner exp.
  induction n as [|n IH]; intros owner exp Hne; [done|]. rewrite walk_turn.
  destruct (enters hash owner exp) as [w|] eqn:E; [|done]. apply enters_spec in E as [Hw Hs].
  unfold stops, verdict. destruct (Z.eqb_spec (fw_lock w) req) as [Hq|Hq].
  { rewrite (Hreq w Hw Hq) in Hs. by destruct Hne. }
  destruct (exp_failed (fw_blocking_export w)); [done|]. cbn [orb].
  destruct (_ && _) eqn:Er; [done|]. apply IH. unfold process_of. intros [= H1 H2].
  rewrite H1, H2, !Z.eqb_refl in Er. done.
Qed.

(** When the walk finds nothing, no blocked lock it comes to waits for the request. *)
Lemma walk_clear n : forall owner exp,
  deadlock_walk nid exp_failed exp_has_hash n hash req req_owner req_exp owner exp
    = Some (Ret false) ->
  forall m w x, enters hash owner exp = Some w -> path (follows hash) m w = Some x ->
  fw_lock x <> req
  /\ (exp_failed (fw_blocking_export x) = false -> blocker x <> process_of req_exp req_owner).
Proof.
  induction n as [|n IH]; intros owner exp H m w x E Hp; [done|]. rewrite walk_turn, E in H.
  assert (Hw : fw_lock w <> req /\ (exp_failed (fw_blocking_export w) = false ->
                 blocker w <> process_of req_exp req_owner)).
  { unfold stops, verdict in H. destruct (Z.eqb_spec (fw_lock w) req); [done|]. split; [done|].
    intros Ef. rewrite Ef in H. cbn [orb] in H. unfold blocker, process_of. intros [= H1 H2].
    rewrite H1, H2, !Z.eqb_refl in H. done. }
  destruct m as [|m]; [by injection Hp as <-|]. cbn in Hp.
  destruct (follows hash w) as [w'|] eqn:Ew; [|done].
  pose proof (follows_spec _ _ _ Ew) as (_ & _ & Ef). unfold follows in Ew. rewrite Ef in Ew.
  destruct (stops w) eqn:Es.
  { unfold stops in Es. rewrite Ef in Es. destruct Hw as [Hw1 Hw2]. specialize (Hw2 Ef).
    rewrite (proj2 (Z.eqb_neq _ _) Hw1) in Es. cbn [orb] in Es.
    rewrite andb_true_iff, !Z.eqb_eq in Es. exfalso. apply Hw2. unfold blocker, process_of. f_equal; tauto. }
  by eapply IH.
Qed.
End Walk.

(** ** Linking and unlinking *)

Lemma follows_cons e hash w w' :
  follows (e :: hash) w = Some w' -> w' = e \/ follows hash w = Some w'.
Proof.
  unfold follows, enters. destruct (exp_failed _); [done|]. destruct (exp_has_hash _); [|done].
  unfold ldlm_flock_lookup_cb. cbn [List.find]. destruct (_ && _); [|by right]. intros [= <-]. by left.
Qed.

Lemma path_cons e hash n : forall w x,
  path (follows (e :: hash)) n w = Some x ->
  (exists i, (i <= n)%nat /\ path (follows (e :: hash)) i w = Some e)
  \/ path (follows hash) n w = Some x.
Proof.
  induction n as [|n IH]; intros w x; [by right|]. cbn [path].
  destruct (follows (e :: hash) w) as [w1|] eqn:E1; [|done]. intros Hx.
  destruct (follows_cons _ _ _ _ E1) as [->|E2].
  - left. exists 1%nat. split; [lia|]. cbn. by rewrite E1.
  - rewrite E2. destruct (IH _ _ Hx) as [(i & Hi & Hp)|Hp]; [left|by right].
    exists (S i). split; [lia|]. cbn. by rewrite E1.
Qed.

(** The walk ends too when the request has already been linked. *)
Lemma walk_ends_linked hash e req req_owner req_exp owner exp :
  waits_ok hash -> sleeper e = process_of req_exp req_owner ->
  deadlock_walk nid exp_failed exp_has_hash (S (length (e :: hash))) (e :: hash) req req_owner
    req_exp owner exp <> None.
Proof.
  intros [_ Hac] He. apply goes_ends. intros w n Hp. apply (Hac w n).
  eapply path_mono; [|exact Hp]. intros y z H. unfold goes in H.
  destruct (stops req req_owner req_exp y) eqn:Es; [done|].
  destruct (follows_cons _ _ _ _ H) as [->|]; [|done]. exfalso.
  apply follows_spec in H as (_ & Hs & _). rewrite He in Hs. unfold blocker, process_of in Hs.
  injection Hs as H1 H2. unfold stops in Es. rewrite <-H1, <-H2, !Z.eqb_refl, !orb_true_r in Es. done.
Qed.

(** A blocked lock whose walk finds no deadlock closes no circle. *)
Lemma link_ok hash e req_owner req_exp fuel :
  waits_ok hash -> (sleeper e ∉ map sleeper hash) ->
  deadlock_walk nid exp_failed exp_has_hash fuel (e :: hash) (fw_lock e) req_owner req_exp
    (fw_blocking_owner e) (fw_blocking_export e) = Some (Ret false) ->
  waits_ok (e :: hash).
Proof.
  intros [Hnd Hac] Hs Hw. split; [by constructor|].
  assert (He : forall m, path (follows (e :: hash)) (S m) e <> Some e).
  { intros m. cbn [path]. destruct (follows (e :: hash) e) as [w1|] eqn:E1; [|done]. intros Hp.
    pose proof (follows_spec _ _ _ E1) as (_ & _ & Ef). unfold follows in E1. rewrite Ef in E1.
    by destruct (walk_clear _ _ _ _ _ _ _ Hw _ _ _ E1 Hp). }
  intros w n Hp. destruct (path_cons _ _ _ _ _ Hp) as [(i & Hi & Hpi)|Hold]; [|by apply (Hac w n)].
  apply (He n). replace (S n) with (i + (S n - i))%nat in Hp |- * by lia.
  rewrite path_add, Hpi in Hp. cbn [mbind option_bind] in Hp.
  rewrite Nat.add_comm, path_add, Hp. done.
Qed.

Lemma lookup_unique hash w :
  NoDup (map sleeper hash) -> w ∈ hash ->
  ldlm_flock_lookup_cb nid hash (nid (fw_export w)) (fw_owner w) = Some w.
Proof.
  unfold ldlm_flock_lookup_cb. induction hash as [|v hash IH]; cbn; [by intros _ ?%elem_of_nil|].
  intros Hnd [->|Hw]%elem_of_cons; [by rewrite !Z.eqb_refl|].
  inversion Hnd as [|? ? Hv Hnd']; subst. destruct (_ && _) eqn:E; [|by apply IH].
  exfalso. apply Hv. rewrite andb_true_iff, !Z.eqb_eq in E. apply list_elem_of_In, in_map_iff.
  exists w. split; [|by apply list_elem_of_In]. unfold sleeper, process_of. f_equal; symmetry; tauto.
Qed.

(** Taking blocked locks away keeps the rest. *)
Lemma waits_unlink_ok hash hash' : waits_ok hash -> hash' `sublist_of` hash -> waits_ok hash'.
Proof.
  intros [Hnd Hac] Hs. split.
  - eapply sublist_NoDup; [exact Hnd|]. by apply (fmap_sublist sleeper).
  - intros w n Hp. apply (Hac w n). eapply path_mono; [|exact Hp]. intros y z H.
    pose proof (follows_spec _ _ _ H) as (Hz & Hsl & Ef). unfold follows, enters in *. rewrite Ef in *.
    destruct (exp_has_hash _); [|done]. unfold sleeper, blocker, process_of in Hsl. injection Hsl as <- <-.
    apply lookup_unique; [done|]. by eapply elem_of_sublist.
Qed.

(** ** Chains *)

Section Chains.
Context (hash : list flock_wait) (Hnd : NoDup (map sleeper hash)).

Lemma enters_sleeper w owner exp :
  w ∈ hash -> sleeper w = process_of exp owner -> exp_has_hash exp = true ->
  enters hash owner exp = Some w.
Proof.
  intros Hw Hs Hh. unfold sleeper, process_of in Hs. injection Hs as H1 H2. unfold enters.
  rewrite Hh, <-H1, <-H2. by apply lookup_unique.
Qed.

(** A chain of records is a path of blocked locks. *)
Lemma chain_path exp owner q :
  recorded_chain hash exp owner q ->
  exists w n x, enters hash owner exp = Some w /\ path (follows hash) n w = Some x
                /\ exp_failed (fw_blocking_export x) = false /\ blocker x = q.
Proof.
  induction 1 as [w exp owner Hw Hs Hh Ef|w exp owner q Hw Hs Hh Ef _ (w' & n & x & E & Hp & K)].
  - exists w, O, w. split_and!; try done. by apply enters_sleeper.
  - exists w, (S n), x. split_and!; try tauto; [by apply enters_sleeper|]. cbn. unfold follows at 1.
    by rewrite Ef, E.
Qed.

(** The walk finds a deadlock if and only if a chain of records leads from the blocking
    process to the requesting one. *)
Lemma walk_exact n req req_owner req_exp owner exp b :
  deadlock_walk nid exp_failed exp_has_hash n hash req req_owner req_exp owner exp = Some (Ret b) ->
  b = true <-> recorded_chain hash exp owner (process_of req_exp req_owner).
Proof.
  intros H. split; [intros ->; by eapply walk_found|]. intros Hc. destruct b; [done|]. exfalso.
  destruct (chain_path _ _ _ Hc) as (w & m & x & E & Hp & Ef & Hb).
  by apply (proj2 (walk_clear _ _ _ _ _ _ _ H _ _ _ E Hp) Ef).
Qed.
End Chains.

(** The entry of the request itself is on no chain that leads to it. *)
Lemma chain_cons hash w exp owner :
  sleeper w <> process_of exp owner ->
  recorded_chain (w :: hash) exp owner (sleeper w) <-> recorded_chain hash exp owner (sleeper w).
Proof.
  intros Hne. split.
  - intros H. remember (sleeper w) as q eqn:Eq.
    induction H as [v exp owner Hv Hs Hh Ef|v exp owner q Hv Hs Hh Ef _ IH];
      apply elem_of_cons in Hv as [->|Hv]; try congruence; [by apply chain_last|].
    destruct (decide (blocker v = sleeper w)) as [Eb|Hb]; [subst q; rewrite <-Eb; by apply chain_last|].
    eapply chain_next; try done. apply IH; [done|]. unfold blocker in Hb. congruence.
  - clear Hne. intros H. induction H; [eapply chain_last|eapply chain_next]; try done; by right.
Qed.
End Waits.
