(* ===== verification/FlockSystem.v ===== *)
(** POSIX locks as a whole: what the granted locks of a resource mean byte by byte, the
    invariant of a resource, and the step a granted request makes
    (lustre/ldlm/ldlm_flock.c). *)

From stdpp Require Import gmap.
From S2P Require Import Prelude LdlmLock LdlmExtent LdlmSafe LdlmFlock FlockRange FlockMerge FlockWait.

(** ** Modes *)

(** The modes a POSIX lock may have. *)
Definition flock_modes : list Z := [LCK_EX; LCK_PW; LCK_PR; LCK_CW; LCK_CR; LCK_NL; LCK_GROUP].

Lemma flock_modes_sub m : m ∈ flock_modes -> m ∈ modes.
Proof. unfold flock_modes, modes. rewrite !elem_of_cons. tauto. Qed.

(** An unlock is never in the way. *)
Lemma flock_modes_nl m : m ∈ flock_modes -> lockmode_compat m LCK_NL = true.
Proof. intros H. unfold flock_modes in H. rewrite !elem_of_cons, elem_of_nil in H. by repeat (destruct H as [->|H]). Qed.

(** ** Bytes *)

(** Which owner holds which byte in which mode. *)
Abbreviation holdings := (Z * option Z -> Z -> Z -> Prop).

Definition held (r : flock_resource) : holdings := fun ow b m =>
  exists i l, i ∈ fr_granted r /\ fr_locks r !! i = Some l /\ flock_owner l = ow
              /\ k_start l <= b <= k_end l /\ k_granted_mode l = m.

(** The rule of POSIX: a process may get a mode on a range where no other process
    holds a byte in a mode against it; it then holds the range in that mode, whatever
    it held there, and nothing else changes. *)
Definition posix_allowed (ow : Z * option Z) (s t m : Z) (H : holdings) : Prop :=
  forall ow' b m', ow' <> ow -> s <= b <= t -> H ow' b m' -> lockmode_compat m' m = true.

Definition posix_assign (ow : Z * option Z) (s t m : Z) (H H' : holdings) : Prop :=
  forall ow' b m', H' ow' b m' <->
    (if bool_decide (ow' = ow) && (s <=? b) && (b <=? t) then m' = m /\ m <> LCK_NL else H ow' b m').

Definition same_holdings (H H' : holdings) : Prop := forall ow b m, H' ow b m <-> H ow b m.

(** A number of steps that obey the rule. *)
Inductive posix_run (H : holdings) : holdings -> Prop :=
  | posix_same H' : same_holdings H H' -> posix_run H H'
  | posix_step H' H'' ow s t m :
      posix_run H H' -> posix_allowed ow s t m H' -> posix_assign ow s t m H' H'' -> posix_run H H''.

(** ** The block of an owner *)

Definition foreign (r : flock_resource) (ow : Z * option Z) (i : Z) : Prop :=
  exists l, fr_locks r !! i = Some l /\ flock_owner l <> ow.

(** The locks of an owner are next to each other, sorted and merged. *)
Record block (r : flock_resource) (ow : Z * option Z) (front mine post : list Z) : Prop := {
  bk_list : fr_granted r = front ++ mine ++ post;
  bk_mine : Forall (owned r ow) mine;
  bk_front : Forall (foreign r ow) front;
  bk_post : Forall (foreign r ow) post;
  bk_canonical : canonical (ranges r mine)
}.

Lemma held_in_ranges r q b m :
  held_in (ranges r q) b m <->
  exists i, i ∈ q /\ k_start (flock_of r i) <= b <= k_end (flock_of r i) /\ k_granted_mode (flock_of r i) = m.
Proof.
  unfold held_in, ranges. split.
  - intros (x & Hx & H). apply list_elem_of_In, in_map_iff in Hx as (i & <- & Hi).
    exists i. rewrite list_elem_of_In. done.
  - intros (i & Hi & H). exists (range_of (flock_of r i)). split; [|done].
    apply list_elem_of_In, in_map_iff. exists i. by rewrite <-list_elem_of_In.
Qed.

Lemma held_block r ow front mine post b m :
  block r ow front mine post -> held r ow b m <-> held_in (ranges r mine) b m.
Proof.
  intros [Hl Hm Hf Hp _]. rewrite held_in_ranges. rewrite Forall_forall in Hm, Hf, Hp. split.
  - intros (i & l & Hi & Hlk & Ho & Hb). exists i. rewrite (flock_of_known _ _ _ Hlk). split; [|done].
    rewrite Hl, !elem_of_app in Hi. destruct Hi as [Hi|[Hi|Hi]]; [|done|].
    + destruct (Hf i Hi) as (l' & Hl' & Hne). congruence.
    + destruct (Hp i Hi) as (l' & Hl' & Hne). congruence.
  - intros (i & Hi & Hb). destruct (Hm i Hi) as (l & Hlk & Ho & _). rewrite (flock_of_known _ _ _ Hlk) in Hb.
    exists i, l. split_and!; [|done|done|tauto..]. rewrite Hl, !elem_of_app. tauto.
Qed.

(** A block without locks can be anywhere. *)
Lemma block_nil r ow front post :
  block r ow front [] post -> block r ow (fr_granted r) [] [].
Proof.
  intros [Hl _ Hf Hp _]. cbn [app] in Hl. split; [by rewrite app_nil_r| | | |]; try constructor.
  rewrite Hl. by apply Forall_app.
Qed.

(** Two blocks of one list lie next to each other. *)
Lemma block_place {A} (f1 m1 p1 f2 m2 p2 : list A) :
  f1 ++ m1 ++ p1 = f2 ++ m2 ++ p2 -> m1 <> [] -> m2 <> [] -> (forall x, x ∈ m1 -> x ∉ m2) ->
  (exists a, f2 = f1 ++ m1 ++ a /\ p1 = a ++ m2 ++ p2)
  \/ (exists a, p2 = a ++ m1 ++ p1 /\ f1 = f2 ++ m2 ++ a).
Proof.
  intros H H1 H2 Hd. destruct m1 as [|x m1]; [done|]. destruct m2 as [|y m2]; [done|].
  apply app_eq_app in H as (k & [[-> H]|[-> H]]).
  - right. destruct k as [|z k].
    { cbn in H. injection H as -> _. exfalso. by apply (Hd x); left. }
    cbn in H. injection H as <- H. apply app_eq_app in H as (k' & [[Hm H]|[Hk H]]).
    + destruct k' as [|z k'].
      * rewrite app_nil_r in Hm. subst. exists []. split; [|by rewrite app_nil_r]. by cbn in *.
      * exfalso. cbn in H. injection H as <- _. apply (Hd x); [by left|]. right. rewrite Hm.
        apply elem_of_app. right. by left.
    + exists k'. split; [done|]. rewrite Hk. by cbn.
  - left. destruct k as [|z k].
    { cbn in H. injection H as -> _. exfalso. by apply (Hd y); left. }
    cbn in H. injection H as <- H. apply app_eq_app in H as (k' & [[Hm H]|[Hk H]]).
    + destruct k' as [|z k'].
      * rewrite app_nil_r in Hm. subst. exists []. split; [by rewrite app_nil_r|]. by cbn in *.
      * exfalso. cbn in H. injection H as <- _. apply (Hd y); [|by left]. right. rewrite Hm.
        apply elem_of_app. right. by left.
    + exists k'. split; [|done]. rewrite Hk. by cbn.
Qed.

(** ** A new block for an owner *)

Lemma canonical_shown l : canonical l -> canonical (shown l).
Proof.
  induction 1 as [|x l Hx Hap Hl IH]; [constructor|]. unfold shown. rewrite filter_cons.
  destruct (decide _); [|done]. constructor; [done| |done].
  rewrite Forall_forall in *. intros y [_ Hy]%list_elem_of_filter. by apply Hap.
Qed.

Lemma held_shown l b m : held_in (shown l) b m <-> held_in l b m /\ m <> LCK_NL.
Proof.
  unfold held_in, shown. split.
  - intros (x & [Hn Hx]%list_elem_of_filter & Hb & <-). split; [by exists x|done].
  - intros [(x & Hx & Hb & <-) Hn]. exists x. split; [|done]. by apply list_elem_of_filter.
Qed.

(** The owner's block becomes [fin], the rest of the list stays. *)
Record regrant (r r' : flock_resource) (ow : Z * option Z) (front mine post fin : list Z) : Prop := {
  re_block : block r ow front mine post;
  re_nil : mine = [] -> post = [];
  re_list : fr_granted r' = front ++ fin ++ post;
  re_fin : Forall (owned r' ow) fin;
  re_frame : forall j, j ∈ front ++ post -> fr_locks r' !! j = fr_locks r !! j;
  re_canonical : canonical (ranges r' fin)
}.

Section Regrant.
Context (r r' : flock_resource) (ow : Z * option Z) (front mine post fin : list Z).
Context (Hre : regrant r r' ow front mine post fin).

Lemma foreign_stays ow' q :
  (forall j, j ∈ q -> j ∈ front ++ post) -> Forall (foreign r ow') q -> Forall (foreign r' ow') q.
Proof.
  rewrite !Forall_forall. intros Hq H j Hj. destruct (H j Hj) as (l & Hl & Hne). exists l.
  by rewrite (re_frame _ _ _ _ _ _ _ Hre) by auto.
Qed.

Lemma owned_stays ow' q :
  (forall j, j ∈ q -> j ∈ front ++ post) -> Forall (owned r ow') q ->
  Forall (owned r' ow') q /\ ranges r' q = ranges r q.
Proof.
  intros Hq H. split.
  - rewrite Forall_forall in *. intros j Hj. destruct (H j Hj) as (l & Hl & Hr). exists l.
    by rewrite (re_frame _ _ _ _ _ _ _ Hre) by auto.
  - apply map_ext_in. intros j Hj%list_elem_of_In. unfold flock_of.
    by rewrite (re_frame _ _ _ _ _ _ _ Hre) by auto.
Qed.

Lemma owned_foreign r0 ow1 ow2 q : ow1 <> ow2 -> Forall (owned r0 ow1) q -> Forall (foreign r0 ow2) q.
Proof.
  intros Hne. rewrite !Forall_forall. intros H j Hj. destruct (H j Hj) as (l & Hl & Ho & _).
  exists l. split; [done|]. congruence.
Qed.

Lemma own_block : block r' ow front fin post.
Proof.
  destruct Hre as [[Hl Hm Hf Hp Hc] _ Hl' Hfin _ Hc']. split; try done; apply foreign_stays; try done;
    intros j Hj; rewrite elem_of_app; tauto.
Qed.

(** The block of another owner is still there. *)
Lemma other_block ow' f m p :
  ow' <> ow -> block r ow' f m p -> exists f' p', block r' ow' f' m p' /\ ranges r' m = ranges r m.
Proof.
  intros Hne Hb. pose proof Hre as [[Hl Hm Hf Hp Hc] Hnil Hl' Hfin _ _].
  pose proof (owned_foreign _ _ ow' _ (not_eq_sym Hne) Hfin) as Hfin'.
  assert (Hrest : forall q, (forall j, j ∈ q -> j ∈ front ++ post) ->
            (forall j, j ∈ q -> j ∈ f \/ j ∈ p) -> Forall (foreign r' ow') q).
  { intros q Hq Hq'. apply foreign_stays; [done|]. rewrite Forall_forall. intros j Hj.
    pose proof (bk_front _ _ _ _ _ Hb) as K1. pose proof (bk_post _ _ _ _ _ Hb) as K2.
    rewrite Forall_forall in K1, K2. destruct (Hq' j Hj); auto. }
  pose proof (bk_list _ _ _ _ _ Hb) as Hl2.
  destruct (decide (m = [])) as [->|Hmne].
  { exists (fr_granted r'), []. apply block_nil in Hb. split; [|done].
    pose proof (bk_front _ _ _ _ _ Hb) as K. split; try constructor; [by rewrite app_nil_r|].
    rewrite Hl'. rewrite Hl, !Forall_app in K. apply Forall_app. split; [|apply Forall_app; split; [done|]].
    - apply foreign_stays; [|tauto]. intros j Hj. rewrite elem_of_app; tauto.
    - apply foreign_stays; [|tauto]. intros j Hj. rewrite elem_of_app; tauto. }
  assert (Hplace : (exists a, front = f ++ m ++ a /\ p = a ++ mine ++ post)
                   \/ (exists a, post = a ++ m ++ p /\ f = front ++ mine ++ a)).
  { destruct (decide (mine = [])) as [->|Hmine].
    - left. exists p. rewrite (Hnil eq_refl) in *. cbn [app] in *. rewrite !app_nil_r in *. split; congruence.
    - apply block_place; [congruence|done|done|]. intros j Hj Hj'.
      pose proof (bk_mine _ _ _ _ _ Hb) as K. rewrite Forall_forall in K, Hm.
      destruct (K j Hj) as (l1 & Hl1 & Ho1 & _). destruct (Hm j Hj') as (l2 & Hl2' & Ho2 & _). congruence. }
  pose proof (bk_mine _ _ _ _ _ Hb) as Hbm.
  destruct Hplace as [(a & Hfr & Hpp)|(a & Hfr & Hpp)].
  - destruct (owned_stays ow' m) as [Hom Hrm]; [|done|].
    { intros j Hj. rewrite Hfr, !elem_of_app. tauto. }
    exists f, (a ++ fin ++ post). split; [|done]. split; [|done| | |by rewrite Hrm; apply (bk_canonical _ _ _ _ _ Hb)].
    + rewrite Hl', Hfr. by rewrite <-!app_assoc.
    + apply Hrest; intros j Hj; [rewrite Hfr, !elem_of_app; tauto|tauto].
    + rewrite !Forall_app. split_and!; [|done|];
        apply Hrest; intros j Hj; rewrite ?Hfr, ?Hpp, !elem_of_app; tauto.
  - destruct (owned_stays ow' m) as [Hom Hrm]; [|done|].
    { intros j Hj. rewrite Hfr, !elem_of_app. tauto. }
    exists (front ++ fin ++ a), p. split; [|done]. split; [|done| | |by rewrite Hrm; apply (bk_canonical _ _ _ _ _ Hb)].
    + rewrite Hl', Hfr. by rewrite <-!app_assoc.
    + rewrite !Forall_app. split_and!; [|done|];
        apply Hrest; intros j Hj; rewrite ?Hfr, ?Hpp, !elem_of_app; tauto.
    + apply Hrest; intros j Hj; [rewrite Hfr, !elem_of_app; tauto|tauto].
Qed.
End Regrant.

(** The owner's bytes are the ones of the list with [s, t] set to [m]. *)
Definition reassigned (m s t : Z) (l l' : list byte_range) : Prop :=
  forall b m', held_in l' b m' <->
    (if (s <=? b) && (b <=? t) then m' = m /\ m <> LCK_NL else held_in l b m').

Lemma assign_reassigned r ow q m s t l' :
  Forall (owned r ow) q -> canonical (ranges r q) -> s <= t ->
  l' = shown (assign m s t (ranges r q)) -> reassigned m s t (ranges r q) l'.
Proof.
  intros Ho Hc Hst -> b m'. rewrite held_shown, assign_held by done.
  destruct (_ && _); [split; intros [-> ?]; done|]. split; [tauto|]. intros H. split; [done|].
  apply held_in_ranges in H as (i & Hi & _ & <-). rewrite Forall_forall in Ho.
  destruct (Ho i Hi) as (l & Hl & _ & _ & _ & Hm). by rewrite (flock_of_known _ _ _ Hl).
Qed.

(** Taking a range out of a canonical list frees its bytes. *)
Lemma remove_reassigned l1 x l2 :
  canonical (l1 ++ x :: l2) ->
  canonical (l1 ++ l2) /\ reassigned LCK_NL (rg_start x) (rg_end x) (l1 ++ x :: l2) (l1 ++ l2).
Proof.
  induction l1 as [|y l1 IH]; cbn [app]; intros (Hy & Hap & Hc)%canonical_inv.
  - split; [done|]. intros b m. pose proof (held_apart _ _ b m Hap).
    destruct (_ && _) eqn:E; [split; [intros K; specialize (H K); lia|by intros [_ ?]]|].
    rewrite held_cons. split; [tauto|]. intros [K|K]; [lia|done].
  - destruct (IH Hc) as [Hc' Hr]. apply Forall_app in Hap as [Hap1 [Hyx Hap2]%Forall_cons].
    split; [constructor; [done|by apply Forall_app|done]|]. intros b m. rewrite held_cons, (Hr b m).
    unfold apart in Hyx. unfold proper in Hy. destruct (_ && _) eqn:E; [|by rewrite held_cons]. split; [|tauto].
    intros [K|K]; [lia|done].
Qed.

Section System.
(** The peer of an export, and the export of a process: its peer is connected once. *)
Context (nid : Z -> Z) (home : Z -> Z -> Z).

Definition at_home (ow : Z * option Z) : Prop :=
  exists e, ow.2 = Some e /\ home ow.1 (nid e) = e.

(** What the granted locks have to obey. *)
Record grants_ok (r : flock_resource) : Prop := {
  go_blocks : forall ow, exists front mine post, block r ow front mine post;
  go_held : forall ow b m, held r ow b m -> m ∈ flock_modes /\ at_home ow;
  go_safe : forall ow ow' b m m', ow <> ow' -> held r ow b m -> held r ow' b m' ->
              lockmode_compat m m' = true
}.

(** A request of a process. *)
Record request (r : flock_resource) (i : Z) (l : flock_lock) : Prop := {
  rq_lock : fr_locks r !! i = Some l;
  rq_alive : destroyed l = false;
  rq_proper : 0 <= k_start l <= k_end l /\ k_end l <= U64_MAX;
  rq_mode : k_req_mode l ∈ flock_modes;
  rq_home : at_home (flock_owner l);
  rq_completion : k_completion_ast l = true;
  rq_cp : k_cp_ast l = false;
  rq_cp_reqd : LDLM_TEST_FLAG (k_flags l) LDLM_FL_CP_REQD = false;
  rq_ast_sent : LDLM_TEST_FLAG (k_flags l) LDLM_FL_AST_SENT = false
}.

(** ** The meaning of a new block *)

Lemma regrant_holdings r r' ow front mine post fin s t m :
  regrant r r' ow front mine post fin -> grants_ok r ->
  reassigned m s t (ranges r mine) (ranges r' fin) -> posix_assign ow s t m (held r) (held r').
Proof.
  intros Hre Hgo Hr ow' b m'. pose proof (re_block _ _ _ _ _ _ _ Hre) as Hb.
  destruct (decide (ow' = ow)) as [->|Hne].
  - rewrite bool_decide_true by done. cbn [andb].
    rewrite (held_block _ _ _ _ _ b m' (own_block _ _ _ _ _ _ _ Hre)), (Hr b m').
    destruct (_ && _); [done|]. by rewrite (held_block _ _ _ _ _ b m' Hb).
  - rewrite bool_decide_false by done. cbn [andb].
    destruct (go_blocks _ Hgo ow') as (f & mi & p & Hb').
    destruct (other_block _ _ _ _ _ _ _ Hre _ _ _ _ Hne Hb') as (f' & p' & Hb'' & Hr').
    by rewrite (held_block _ _ _ _ _ b m' Hb''), (held_block _ _ _ _ _ b m' Hb'), Hr'.
Qed.

(** A step that obeys the rule keeps what the holdings have to obey. *)
Lemma assign_safe (H H' : holdings) ow s t m :
  m ∈ flock_modes -> at_home ow -> posix_allowed ow s t m H -> posix_assign ow s t m H H' ->
  (forall ow b m, H ow b m -> m ∈ flock_modes /\ at_home ow) ->
  (forall ow ow' b m m', ow <> ow' -> H ow b m -> H ow' b m' -> lockmode_compat m m' = true) ->
  (forall ow b m, H' ow b m -> m ∈ flock_modes /\ at_home ow)
  /\ (forall ow ow' b m m', ow <> ow' -> H' ow b m -> H' ow' b m' -> lockmode_compat m m' = true).
Proof.
  intros Hm Ho Hal Has Hh Hs.
  assert (Hc : forall ow' b m', H' ow' b m' ->
            (ow' = ow /\ s <= b <= t /\ m' = m) \/ (H ow' b m' /\ ~ (ow' = ow /\ s <= b <= t))).
  { intros ow' b m'. rewrite (Has ow' b m'). destruct (bool_decide _ && _ && _) eqn:E.
    - intros [-> _]. left. rewrite !andb_true_iff, bool_decide_eq_true in E. split_and!; (tauto || lia).
    - intros K. right. split; [done|]. intros [-> ?]. rewrite bool_decide_true in E by done. cbn in E. lia. }
  split.
  - intros ow' b m' [(-> & _ & ->)|[K _]]%Hc; [done|by eapply Hh].
  - intros ow1 ow2 b m1 m2 Hne K1%Hc K2%Hc.
    destruct K1 as [(-> & Hb & ->)|[K1 Hb1]], K2 as [(-> & Hb' & ->)|[K2 Hb2]]; try done.
    + pose proof (flock_modes_sub _ Hm). pose proof (flock_modes_sub _ (proj1 (Hh _ _ _ K2))).
      rewrite lockmode_compat_sym by done.
      by apply (Hal ow2 b m2).
    + by apply (Hal ow1 b m1).
    + by eapply Hs.
Qed.

Lemma regrant_ok r r' ow front mine post fin s t m :
  regrant r r' ow front mine post fin -> grants_ok r ->
  reassigned m s t (ranges r mine) (ranges r' fin) ->
  m ∈ flock_modes -> at_home ow -> posix_allowed ow s t m (held r) ->
  grants_ok r' /\ posix_assign ow s t m (held r) (held r').
Proof.
  intros Hre Hgo Hr Hm Ho Hal. pose proof (regrant_holdings _ _ _ _ _ _ _ _ _ _ Hre Hgo Hr) as Has.
  split; [|done].
  destruct (assign_safe _ _ _ _ _ _ Hm Ho Hal Has (go_held _ Hgo) (go_safe _ Hgo)) as [H1 H2].
  split; [|done|done]. intros ow'. destruct (decide (ow' = ow)) as [->|Hne].
  - exists front, fin, post. by eapply own_block.
  - destruct (go_blocks _ Hgo ow') as (f & mi & p & Hb').
    destruct (other_block _ _ _ _ _ _ _ Hre _ _ _ _ Hne Hb') as (f' & p' & Hb'' & _). eauto.
Qed.

Context (exp_failed exp_has_hash : Z -> bool).

(** What the lists and the hash of blocked locks have to obey. *)
Record queues_ok (r : flock_resource) : Prop := {
  qo_nodup : NoDup (fr_granted r ++ fr_waiting r);
  qo_waiting : forall i, i ∈ fr_waiting r -> exists l, request r i l /\ k_req_mode l <> LCK_NL;
  qo_granted : forall i, i ∈ fr_granted r -> flock_unhashed (fr_hash r) i = true;
  qo_sleepers : forall w l, w ∈ fr_hash r -> fr_locks r !! fw_lock w = Some l ->
                  flock_owner l = (fw_owner w, Some (fw_export w));
  qo_waits : waits_ok nid exp_failed exp_has_hash (fr_hash r)
}.

Record flock_ok (r : flock_resource) : Prop := {
  fk_grants : grants_ok r;
  fk_queues : queues_ok r
}.
End System.
