(* ===== verification/FlockPass.v ===== *)
(** One pass of [ldlm_process_flock_lock] (lustre/ldlm/ldlm_flock.c): what it does to the
    lists, the locks and the bytes. *)

From stdpp Require Import gmap.
From S2P Require Import Prelude LdlmLock LdlmExtent LdlmSafe LdlmServer LdlmFlock FlockRange FlockMerge FlockWait.
From S2P Require Import FlockSystem.

(** ** Flags that stay *)

(** Locks are not forgotten, and a completion that is due stays due. *)
Definition cp_due (l : flock_lock) : Prop := LDLM_TEST_FLAG (k_flags l) LDLM_FL_CP_REQD = true.
Definition grows (r r' : flock_resource) : Prop :=
  forall j l, fr_locks r !! j = Some l ->
  exists l', fr_locks r' !! j = Some l' /\ (cp_due l -> cp_due l').

#[export] Instance grows_preorder : PreOrder grows.
Proof.
  split.
  - intros r j l Hl. by exists l.
  - intros r1 r2 r3 H1 H2 j l Hl. destruct (H1 j l Hl) as (l' & Hl' & K1).
    destruct (H2 j l' Hl') as (l'' & Hl'' & K2). exists l''. tauto.
Qed.

Lemma grows_put r i l l' :
  fr_locks r !! i = Some l -> (cp_due l -> cp_due l') -> grows r (put_flock r i l').
Proof.
  intros Hl Hc j lj Hj. destruct (decide (j = i)) as [->|Hne].
  - exists l'. rewrite put_flock_eq. split; [done|]. by assert (lj = l) as -> by congruence.
  - exists lj. by rewrite put_flock_ne.
Qed.

Lemma grows_fresh r i l' : fr_locks r !! i = None -> grows r (put_flock r i l').
Proof.
  intros Hl j lj Hj. exists lj. by rewrite put_flock_ne by congruence.
Qed.

Lemma grows_same r r' : fr_locks r' = fr_locks r -> grows r r'.
Proof. intros H j l Hl. exists l. by rewrite H. Qed.

Lemma get_flock_inv r i l : get_flock r i = Ret l -> fr_locks r !! i = Some l.
Proof. unfold get_flock. destruct (_ !! _); [by intros [= ->]|done]. Qed.

Lemma cp_due_lor l f : cp_due l -> cp_due (k_set_flags l (Z.lor (k_flags l) f)).
Proof.
  unfold cp_due, LDLM_TEST_FLAG. cbn. rewrite !negb_true_iff, !Z.eqb_neq, Z.land_lor_distr_l.
  intros H K. apply H. by apply Z.lor_eq_0_iff in K as [? _].
Qed.

(** Takes the results of monadic steps apart. *)
Ltac run_inv :=
  repeat match goal with
  | H : (_ ← ?m; _) = Ret _ |- _ =>
      let E := fresh "E" in destruct m eqn:E; [cbn [mbind run_bind] in H|discriminate H]
  | H : LASSERT ?b _ = Ret _ |- _ =>
      let E := fresh "E" in unfold LASSERT in H at 1; destruct b eqn:E; [|discriminate H]
  | H : Ret _ = Ret _ |- _ => injection H as H; subst
  | H : get_flock _ _ = Ret _ |- _ => apply get_flock_inv in H
  end.

Lemma grows_destroy_nolock r i r' : flock_destroy_nolock r i = Ret r' -> grows r r'.
Proof.
  unfold flock_destroy_nolock. intros H. run_inv. destruct (LDLM_TEST_FLAG _ _); run_inv; [done|].
  eapply grows_put; [done|]. apply cp_due_lor.
Qed.

Lemma grows_destroy r i flags r' : ldlm_flock_destroy r i flags = Ret r' -> grows r r'.
Proof.
  unfold ldlm_flock_destroy. intros H. run_inv. etrans; [|by eapply grows_destroy_nolock].
  destruct (flags =? _); [|by apply grows_same].
  etrans; [by apply (grows_same _ (flock_list_del r i))|]. eapply grows_put; [done|]. apply cp_due_lor.
Qed.

Lemma grows_add r own i r' : flock_add_granted r own i = Ret r' -> grows r r'.
Proof.
  unfold flock_add_granted. intros H. run_inv. destruct (LDLM_TEST_FLAG _ _); run_inv; [done|].
  destruct own; run_inv; by apply grows_same.
Qed.

Lemma grows_split r i n l nl r' : 
  fr_locks r !! i = Some l -> i <> n -> split_lock r i n l nl = Ret r' -> grows r r'.
Proof.
  unfold split_lock. intros Hl Hne H. run_inv. etrans; [|by eapply grows_add].
  etrans; [|eapply (grows_put _ i l); [by rewrite put_flock_ne|done]]. by eapply (grows_put r n).
Qed.

Lemma grows_ranges r n nl i l s e :
  fr_locks r !! n = Some nl -> fr_locks r !! i = Some l ->
  grows r (put_flock (put_flock r n (k_set_range nl s e)) i (k_set_range l s e)).
Proof.
  intros Hn Hi. etrans; [by eapply (grows_put _ n nl (k_set_range nl s e))|].
  destruct (decide (i = n)) as [->|Hne].
  - eapply grows_put; [apply put_flock_eq|]. by assert (nl = l) as -> by congruence.
  - eapply (grows_put _ i l); [by rewrite put_flock_ne|done].
Qed.

(** The resource at the end of the loop. *)
Definition merge_end_state (x : merge_end) : merge_state :=
  match x with MergeDone _ _ s | MergeAlloc _ s => s end.

Lemma grows_merge queue mode flags new2 : forall s x,
  (forall n, new2 = Some n -> n ∉ queue) ->
  flock_merge_loop queue mode flags new2 s = Ret x -> grows (ms_res s) (ms_res (merge_end_state x)).
Proof.
  induction queue as [|i queue IH]; intros s x Hq H; cbn [flock_merge_loop] in H; run_inv; [done|].
  assert (Hq' : forall n, new2 = Some n -> n ∉ queue).
  { intros n Hn Hi. apply (Hq n Hn). by right. }
  rename E into Hi, E0 into Hn.
  repeat match type of H with
  | (if ?c then _ else _) = Ret _ => destruct c eqn:?
  | (let '(_, _) := ?c in _) = Ret _ => destruct c as [st en] eqn:?
  | match ?c with _ => _ end = Ret _ => destruct c eqn:?
  end; run_inv; try done; try (by apply (IH _ _ Hq' H)); cbn [merge_end_state ms_res].
  all: try (apply (IH _ _ Hq') in H; cbn [ms_res] in H; etrans; [|exact H]).
  - etrans; [|by eapply grows_destroy]. by apply grows_ranges.
  - by apply grows_ranges.
  - by eapply grows_put.
  - by eapply grows_destroy.
  - by eapply grows_put.
  - eapply (grows_split _ i z); [exact Hi| |eassumption]. intros ->. by apply (Hq z eq_refl); left.
Qed.

(** ** Looking for conflicts and for the owner's locks *)

(** No lock of another owner is in the way. *)
Definition clear (r : flock_resource) (l : flock_lock) : Prop :=
  forall j lj, j ∈ fr_granted r -> fr_locks r !! j = Some lj -> flock_owner lj <> flock_owner l ->
  lockmode_compat (k_granted_mode lj) (k_req_mode l) = true \/ ldlm_flocks_overlap lj l = false.

Lemma clear_allowed r l :
  clear r l -> posix_allowed (flock_owner l) (k_start l) (k_end l) (k_req_mode l) (held r).
Proof.
  intros Hc ow b m Hne Hb (j & lj & Hj & Hl & <- & Hbj & <-).
  destruct (Hc j lj Hj Hl Hne) as [|H]; [done|]. unfold ldlm_flocks_overlap in H. lia.
Qed.

Lemma granted_owned r j lj :
  (forall ow, exists front mine post, block r ow front mine post) ->
  j ∈ fr_granted r -> fr_locks r !! j = Some lj -> owned r (flock_owner lj) j.
Proof.
  intros Hb Hj Hl. destruct (Hb (flock_owner lj)) as (f & m & p & [Hlist Hm Hf Hp _]).
  rewrite Forall_forall in Hm, Hf, Hp. rewrite Hlist, !elem_of_app in Hj.
  destruct Hj as [Hj|[Hj|Hj]]; [|by apply Hm|].
  - destruct (Hf j Hj) as (l' & Hl' & Hne). congruence.
  - destruct (Hp j Hj) as (l' & Hl' & Hne). congruence.
Qed.

Lemma allowed_clear r l :
  (forall ow, exists front mine post, block r ow front mine post) -> k_start l <= k_end l ->
  posix_allowed (flock_owner l) (k_start l) (k_end l) (k_req_mode l) (held r) -> clear r l.
Proof.
  intros Hb Hle Ha j lj Hj Hl Hne. destruct (ldlm_flocks_overlap lj l) eqn:E; [left|by right].
  unfold ldlm_flocks_overlap in E. rewrite andb_true_iff, !Z.leb_le in E.
  destruct (granted_owned _ _ _ Hb Hj Hl) as (l' & Hl' & _ & _ & Hp & _).
  assert (l' = lj) as -> by congruence. unfold proper in Hp. cbn in Hp.
  apply (Ha (flock_owner lj) (Z.max (k_start lj) (k_start l))); [done|lia|].
  exists j, lj. split_and!; try done; lia.
Qed.

Definition known (r : flock_resource) (q : list Z) : Prop :=
  forall j, j ∈ q -> exists l, fr_locks r !! j = Some l.

Definition is_own (r : flock_resource) (l : flock_lock) (j : Z) : bool :=
  ldlm_same_flock_owner (flock_of r j) l.

Section Scan.
Context (nid : Z -> Z) (exp_failed exp_has_hash exp_flock_dead : Z -> bool).

Lemma scan_clear r req l flags intention work q : forall own failed,
  fr_locks r !! req = Some l -> known r q -> clear r l -> (forall j, j ∈ q -> j ∈ fr_granted r) ->
  conflict_loop nid exp_failed exp_has_hash exp_flock_dead q r req (k_req_mode l) flags intention
    work own failed
  = Ret (ConflictPass (match own with Some _ => own | None => List.find (is_own r l) q end) failed).
Proof.
  induction q as [|j q IH]; intros own failed Hl Hk Hc Hq; cbn [conflict_loop]; [by destruct own|].
  destruct (Hk j) as [lj Hj]; [by left|].
  assert (Hk' : known r q) by (intros k ?; apply Hk; by right).
  assert (Hq' : forall k, k ∈ q -> k ∈ fr_granted r) by (intros k ?; apply Hq; by right).
  rewrite (get_known_flock _ _ _ Hl), (get_known_flock _ _ _ Hj). cbn [mbind run_bind List.find].
  unfold is_own at 1. rewrite (flock_of_known _ _ _ Hj).
  destruct (ldlm_same_flock_owner lj l) eqn:E.
  - rewrite IH by done. by destruct own.
  - assert (Hne : flock_owner lj <> flock_owner l) by (intros K%same_owner_spec; congruence).
    destruct (Hc j lj (Hq j ltac:(by left)) Hj Hne) as [->| ->]; [by apply IH|].
    cbn [negb]. destruct (lockmode_compat _ _); by apply IH.
Qed.

Lemma first_own_spec r req l q : forall own,
  fr_locks r !! req = Some l -> known r q ->
  first_own q r req own
  = Ret (match List.find (is_own r l) q with Some j => Some j | None => own end).
Proof.
  induction q as [|j q IH]; intros own Hl Hk; cbn [first_own List.find]; [done|].
  destruct (Hk j) as [lj Hj]; [by left|]. assert (Hk' : known r q) by (intros k ?; apply Hk; by right).
  rewrite (get_known_flock _ _ _ Hl), (get_known_flock _ _ _ Hj). cbn [mbind run_bind].
  unfold is_own at 1. rewrite (flock_of_known _ _ _ Hj).
  destruct (ldlm_same_flock_owner lj l); [done|by apply IH].
Qed.
End Scan.

Lemma is_own_owned r l j : owned r (flock_owner l) j -> is_own r l j = true.
Proof.
  intros (lj & Hj & Ho & _). unfold is_own. rewrite (flock_of_known _ _ _ Hj). by apply same_owner_spec.
Qed.

Lemma is_own_foreign r l j : foreign r (flock_owner l) j -> is_own r l j = false.
Proof.
  intros (lj & Hj & Ho). unfold is_own. rewrite (flock_of_known _ _ _ Hj).
  destruct (ldlm_same_flock_owner lj l) eqn:E; [|done]. by apply same_owner_spec in E.
Qed.

Lemma find_own r l front mine post :
  block r (flock_owner l) front mine post -> List.find (is_own r l) (fr_granted r) = head mine.
Proof.
  intros [-> Hm Hf Hp _]. induction Hf as [|j front Hj Hf IH]; cbn [app List.find].
  - destruct Hm as [|i mine Hi Hm]; cbn [app List.find head].
    + induction Hp as [|j post Hj Hp IH]; cbn; [done|]. by rewrite (is_own_foreign _ _ _ Hj).
    + by rewrite (is_own_owned _ _ _ Hi).
  - by rewrite (is_own_foreign _ _ _ Hj).
Qed.

Lemma list_from_middle i P Q : i ∉ P -> list_from i (P ++ i :: Q) = Ret (i :: Q).
Proof.
  induction P as [|j P IH]; intros Hn; cbn; [by rewrite Z.eqb_refl|].
  rewrite not_elem_of_cons in Hn. destruct Hn as [Hne Hn].
  rewrite (proj2 (Z.eqb_neq j i)) by congruence. by apply IH.
Qed.

Lemma block_known r ow front mine post : block r ow front mine post -> known r (fr_granted r).
Proof.
  intros [-> Hm Hf Hp _] j. rewrite Forall_forall in Hm, Hf, Hp. rewrite !elem_of_app.
  intros [Hj|[Hj|Hj]]; [destruct (Hf j Hj) as (l & ? & _)|destruct (Hm j Hj) as (l & ? & _)|
    destruct (Hp j Hj) as (l & ? & _)]; by exists l.
Qed.

(** ** Granting *)

(** A resource and a request that is to be granted. *)
Record ready (r : flock_resource) (i : Z) (l : flock_lock) (front mine post : list Z) : Prop := {
  rd_block : block r (flock_owner l) front mine post;
  rd_nil : mine = [] -> post = [];
  rd_nodup : NoDup (fr_granted r ++ fr_waiting r);
  rd_unhashed : forall j, j ∈ fr_granted r -> flock_unhashed (fr_hash r) j = true;
  rd_lock : fr_locks r !! i = Some l;
  rd_alive : destroyed l = false;
  rd_proper : 0 <= k_start l <= k_end l /\ k_end l <= U64_MAX;
  rd_off : i ∉ fr_granted r
}.

(** A lock made for a split. *)
Definition spare (r : flock_resource) (i : Z) (new2 : option Z) : Prop :=
  match new2 with
  | None => True
  | Some n => exists l2, fr_locks r !! n = Some l2 /\ destroyed l2 = false /\ k_export l2 = None
                /\ (n ∉ fr_granted r) /\ (n ∉ fr_waiting r) /\ n <> i
                /\ flock_unhashed (fr_hash r) n = true
  end.

Lemma canonical_app l1 l2 : canonical (l1 ++ l2) -> canonical l2.
Proof. induction l1 as [|x l1 IH]; [done|]. intros (_ & _ & H)%canonical_inv. by apply IH. Qed.

Section Grant.
Context (mode flags : Z) (new2 : option Z).

Lemma ready_loose r i l front m1 m2 post :
  ready r i l front (m1 ++ m2) post -> spare r i new2 ->
  loose new2 (flock_owner l) r (front ++ m1) i l m2 post.
Proof.
  intros [Hb Hn Hnd Hu Hl Ha Hp Ho] Hs. pose proof Hb as [Hlist Hm Hf Hpo Hc].
  apply Forall_app in Hm as [_ Hm]. split; [|done|done|done| |].
  3:{ destruct new2 as [n|]; [|done]. destruct Hs as (l2 & ? & ? & ? & ? & ? & ? & _). by exists l2. }
  - split; try done.
    + by rewrite Hlist, <-!app_assoc.
    + by apply list.NoDup_app in Hnd as (? & _).
    + intros j Hj Hj'. apply list.NoDup_app in Hnd as (_ & Hd & _). by apply (Hd j).
    + destruct post as [|j post]; [done|]. by apply Forall_cons in Hpo as [Hj _].
    + unfold ranges in Hc. rewrite map_app in Hc. by apply canonical_app in Hc.
  - unfold proper. cbn. tauto.
Qed.

(** The loop starts at a lock of the owner with nothing to be done in front of it, or
    the owner has no lock. *)
Definition starts_at (r : flock_resource) (l : flock_lock) (m1 m2 : list Z) (own : option Z) : Prop :=
  own = head m2 /\ (m2 = [] -> m1 = [])
  /\ Forall (fun x => rg_end x + 1 < k_start l) (ranges r m1).

Lemma merge_from r i l front m1 m2 post own ov :
  ready r i l front (m1 ++ m2) post -> spare r i new2 -> starts_at r l m1 m2 own ->
  let x := queue ← match own with None => Ret [] | Some pos => list_from pos (fr_granted r) end;
           flock_merge_loop queue mode flags new2 (MergeState r i (mode =? LCK_NL) ov) in
  (merged mode new2 (flock_owner l) r (front ++ m1) i l m2 post
     (assign mode (k_start l) (k_end l) (ranges r m2)) x
   /\ no_split mode new2 r l m2)
  \/ wants_split mode new2 r i l m2 x.
Proof.
  intros Hr Hs (-> & Hnil & _). pose proof (ready_loose _ _ _ _ _ _ _ Hr Hs) as Hls.
  cbv zeta. destruct m2 as [|j m2]; cbn [head].
  - pose proof (rd_nil _ _ _ _ _ _ Hr) as Hp. rewrite (Hnil eq_refl) in Hp. specialize (Hp eq_refl) as ->.
    by apply (merge_loop_spec mode flags new2 (flock_owner l) [] (front ++ m1)).
  - pose proof (ls_merge _ _ _ _ _ _ _ _ Hls) as Hm. destruct (mergeable_fresh _ _ _ _ _ _ Hm) as (Hj & _).
    rewrite (mg_list _ _ _ _ _ Hm). cbn [app]. rewrite list_from_middle by done. cbn [mbind run_bind].
    by apply (merge_loop_spec mode flags new2 (flock_owner l) (j :: m2)).
Qed.

(** The lock for a split is destroyed when it has not been used. *)
Lemma settle_new2 (r r' : flock_resource) (used : list Z) (splitted : bool) :
  (splitted = false -> forall n, new2 = Some n ->
     (n ∉ used) /\ fr_locks r' !! n = fr_locks r !! n /\ (n ∉ fr_granted r') /\ (n ∉ fr_waiting r')) ->
  (forall n, new2 = Some n -> exists l2, fr_locks r !! n = Some l2) ->
  exists r1, match new2 with
             | Some n => if splitted then Ret r' else flock_destroy_nolock r' n
             | None => Ret r'
             end = Ret r1
    /\ fr_granted r1 = fr_granted r' /\ frame (option_list new2) r' r1
    /\ (forall j, j ∈ used -> fr_locks r1 !! j = fr_locks r' !! j) /\ grows r' r1.
Proof.
  intros H Hk. assert (Hnone : exists r1, Ret r' = Ret r1 /\ fr_granted r1 = fr_granted r'
    /\ frame (option_list new2) r' r1 /\ (forall j, j ∈ used -> fr_locks r1 !! j = fr_locks r' !! j)
    /\ grows r' r1) by (exists r'; split_and!; (done || apply frame_refl)).
  destruct new2 as [n|]; [|done]. destruct splitted; [done|].
  destruct (H eq_refl n eq_refl) as (Hu & Hl & Hg & Hw). destruct (Hk n eq_refl) as (l2 & Hl2).
  rewrite Hl2 in Hl. unfold flock_destroy_nolock, on_flock_resource, LASSERT.
  rewrite (get_known_flock _ _ _ Hl), !bool_decide_eq_false_2 by done. cbn [mbind run_bind orb negb].
  destruct (LDLM_TEST_FLAG _ _); [done|]. eexists. split_and!; [done|done|apply frame_put| |].
  - intros j Hj. apply put_flock_ne. by intros ->.
  - eapply grows_put; [done|]. apply cp_due_lor.
Qed.

(** The request is put on the granted list. *)
Lemma list_request r i l own front right post :
  fr_locks r !! i = Some l -> destroyed l = false -> fr_granted r = front ++ right ++ post ->
  NoDup (fr_granted r) -> (i ∉ fr_granted r) -> own = head (right ++ post) ->
  exists r', flock_add_granted (flock_list_del r i) own i = Ret r'
    /\ fr_granted r' = front ++ i :: right ++ post
    /\ fr_waiting r' = base.filter (fun j => j <> i) (fr_waiting r)
    /\ fr_locks r' = fr_locks r /\ fr_hash r' = fr_hash r.
Proof.
  intros Hl Hd Hg Hnd Hi ->. unfold flock_add_granted, LASSERT.
  rewrite (get_known_flock (flock_list_del r i) i l Hl). cbn [mbind run_bind].
  change (LDLM_TEST_FLAG (k_flags l) LDLM_FL_DESTROYED) with (destroyed l). rewrite Hd.
  unfold on_flock_resource. cbn [flock_list_del fr_set_waiting fr_set_granted fr_granted fr_waiting].
  rewrite (filter_ne_id _ (fr_granted r)) by done. rewrite !bool_decide_eq_false_2; [|by intros [? _]%list_elem_of_filter|done].
  cbn [orb negb]. destruct (right ++ post) as [|p q] eqn:E; cbn [head].
  - eexists. split_and!; [done| |done..]. cbn. by rewrite Hg, app_nil_r.
  - eexists. split_and!; [done| |done..]. cbn. rewrite Hg. apply list_add_before_middle.
    rewrite Hg in Hnd. apply list.NoDup_app in Hnd as (_ & Hnd & _). intros K. apply (Hnd p K). by left.
Qed.
End Grant.

(** The rest of the function behind the place where the request is listed. *)
Definition flock_finish (reprocess : flock_resource -> run flock_resource) (req mode flags : Z)
    (intention : ldlm_process_intention) (work_list : list Z) (added : bool) (overlaps : Z)
    (r : flock_resource) : run pass_end :=
  rw ← (if flags =? LDLM_FL_WAIT_NOREPROC then Ret (r, work_list)
        else match intention with
             | LDLM_PROCESS_ENQUEUE =>
                 r ← (if (mode =? LCK_NL) && negb (overlaps =? 0) then reprocess r else Ret r);
                 Ret (r, work_list)
             | _ =>
                 rl ← get_flock r req;
                 lassert k_completion_ast rl;
                 flock_add_cp_work_item r req work_list
             end);
  r ← (if added then ldlm_flock_destroy rw.1 req flags else Ret rw.1);
  Ret (PassReturn LDLM_ITER_CONTINUE ELDLM_OK flags r rw.2).

(** The resource once the request is listed, or merged into another lock ([added]). *)
Record regranted (new2 : option Z) (r r' : flock_resource) (i : Z) (l : flock_lock) (added : bool)
    : Prop := {
  rt_regrant : exists front mine post fin, regrant r r' (flock_owner l) front mine post fin
                 /\ ranges r' fin = shown (assign (k_req_mode l) (k_start l) (k_end l) (ranges r mine));
  rt_lock : exists s e,
    fr_locks r' !! i = Some (k_set_granted_mode (k_set_range l s e) (k_req_mode l));
  rt_others : forall j, j ∉ fr_granted r -> j <> i -> new2 <> Some j -> fr_locks r' !! j = fr_locks r !! j;
  rt_waiting : fr_waiting r' = if added then fr_waiting r
                               else base.filter (fun j => j <> i) (fr_waiting r);
  rt_hash : fr_hash r' = fr_hash r;
  rt_nodup : NoDup (fr_granted r');
  rt_granted : forall j, j ∈ fr_granted r' -> j ∈ fr_granted r \/ (j = i /\ added = false) \/ new2 = Some j;
  rt_added : added = false -> k_req_mode l <> LCK_NL;
  rt_grows : grows r r'
}.

Lemma canonical_proper l : canonical l -> Forall proper l.
Proof. induction 1; by constructor. Qed.

Lemma ranges_app r q1 q2 : ranges r (q1 ++ q2) = ranges r q1 ++ ranges r q2.
Proof. apply map_app. Qed.

Lemma shown_app l1 l2 : shown (l1 ++ l2) = shown l1 ++ shown l2.
Proof. apply filter_app. Qed.

(** The merged locks, with the request in its place, are the owner's new block. *)
Lemma merged_regrant new2 r r' r3 i l front m1 m2 post left right added s e :
  ready r i l front (m1 ++ m2) post -> (m2 = [] -> m1 = []) ->
  Forall (fun x => rg_end x + 1 < k_start l) (ranges r m1) ->
  frame (i :: m2 ++ option_list new2) r r' -> spare r i new2 ->
  Forall (owned r' (flock_owner l)) (left ++ right) ->
  (forall j, j ∈ left ++ right -> fr_locks r3 !! j = fr_locks r' !! j) ->
  (forall j, j ∈ front ++ m1 ++ post -> fr_locks r3 !! j = fr_locks r !! j) ->
  fr_locks r3 !! i = Some (k_set_granted_mode (k_set_range l s e) (k_req_mode l)) ->
  (added = false -> k_req_mode l <> LCK_NL) ->
  fr_granted r3 = front ++ (m1 ++ left ++ (if added then [] else [i]) ++ right) ++ post ->
  ranges r' left ++ pending (k_req_mode l) added s e ++ ranges r' right
    = shown (assign (k_req_mode l) (k_start l) (k_end l) (ranges r m2)) ->
  let fin := m1 ++ left ++ (if added then [] else [i]) ++ right in
  regrant r r3 (flock_owner l) front (m1 ++ m2) post fin
  /\ ranges r3 fin = shown (assign (k_req_mode l) (k_start l) (k_end l) (ranges r (m1 ++ m2))).
Proof.
  intros Hr Hnil Hfar Hf Hs Ho Hsame Hfix Hi Hadd Hg Hw fin. pose proof (rd_block _ _ _ _ _ _ Hr) as Hb.
  pose proof Hb as [Hlist Hm _ _ Hc].
  assert (Hm1 : ranges r3 m1 = ranges r m1).
  { apply map_ext_in. intros j Hj%list_elem_of_In. unfold flock_of. rewrite Hfix; [done|].
    rewrite !elem_of_app. tauto. }
  assert (Hlr : forall q, (forall j, j ∈ q -> j ∈ left ++ right) -> ranges r3 q = ranges r' q).
  { intros q Hq. apply map_ext_in. intros j Hj%list_elem_of_In. unfold flock_of. by rewrite Hsame by auto. }
  assert (Hri : ranges r3 (if added then [] else [i]) = pending (k_req_mode l) added s e).
  { destruct added; [done|]. cbn. by rewrite (flock_of_known _ _ _ Hi). }
  assert (Hrange : ranges r3 fin = shown (assign (k_req_mode l) (k_start l) (k_end l) (ranges r (m1 ++ m2)))).
  { unfold fin. rewrite !ranges_app, Hm1, Hri, (Hlr left), (Hlr right), Hw, assign_skip, shown_app by
      (try done; intros j Hj; rewrite elem_of_app; tauto).
    f_equal. symmetry. apply (shown_owned (flock_owner l)). by apply Forall_app in Hm as [? _]. }
  assert (Hcan : canonical (ranges r3 fin)).
  { rewrite Hrange. apply canonical_shown, assign_canonical; [done|]. unfold proper. cbn.
    apply (rd_proper _ _ _ _ _ _ Hr). }
  split; [|done]. split; [done|apply (rd_nil _ _ _ _ _ _ Hr)|done| | |done].
  - apply Forall_app in Hm as [Hm _]. rewrite Forall_forall in *. intros j.
    unfold fin. rewrite !elem_of_app. intros [Hj|Hj].
    + destruct (Hm j Hj) as (lj & Hlj & K). exists lj. rewrite Hfix; [done|]. rewrite !elem_of_app. tauto.
    + assert (Hj' : j ∈ left ++ right \/ (j = i /\ added = false)).
      { destruct added; rewrite ?list_elem_of_singleton, ?elem_of_nil, elem_of_app in *; tauto. }
      destruct Hj' as [Hj'|[-> Ha]].
      * destruct (Ho j Hj') as (lj & Hlj & K). exists lj. by rewrite Hsame.
      * eexists. split_and!; [exact Hi|done|apply (rd_alive _ _ _ _ _ _ Hr)| |by apply Hadd].
        apply canonical_proper in Hcan. rewrite Forall_forall in Hcan.
        assert (K : range_of (flock_of r3 i) ∈ ranges r3 fin).
        { apply list_elem_of_In, in_map_iff. exists i. split; [done|]. apply list_elem_of_In.
          unfold fin. rewrite Ha, !elem_of_app, list_elem_of_singleton. tauto. }
        specialize (Hcan _ K). by rewrite (flock_of_known _ _ _ Hi) in Hcan.
  - intros j Hj. apply Hfix. rewrite !elem_of_app in *. tauto.
Qed.

Lemma merged_regranted new2 r r' r3 i l front m1 m2 post left right added s e :
  ready r i l front (m1 ++ m2) post -> spare r i new2 -> (m2 = [] -> m1 = []) ->
  Forall (fun x => rg_end x + 1 < k_start l) (ranges r m1) ->
  fr_granted r' = (front ++ m1) ++ left ++ right ++ post -> NoDup (fr_granted r') ->
  frame (i :: m2 ++ option_list new2) r r' ->
  Forall (owned r' (flock_owner l)) (left ++ right) ->
  (forall j, j ∈ left ++ right -> j ∈ m2 \/ new2 = Some j) ->
  (added = false -> k_req_mode l <> LCK_NL) ->
  ranges r' left ++ pending (k_req_mode l) added s e ++ ranges r' right
    = shown (assign (k_req_mode l) (k_start l) (k_end l) (ranges r m2)) ->
  fr_granted r3 = front ++ (m1 ++ left ++ (if added then [] else [i]) ++ right) ++ post ->
  fr_waiting r3 = (if added then fr_waiting r else base.filter (fun j => j <> i) (fr_waiting r)) ->
  fr_hash r3 = fr_hash r ->
  fr_locks r3 !! i = Some (k_set_granted_mode (k_set_range l s e) (k_req_mode l)) ->
  (forall j, j ∈ left ++ right -> fr_locks r3 !! j = fr_locks r' !! j) ->
  (forall j, j <> i -> j ∉ option_list new2 -> fr_locks r3 !! j = fr_locks r' !! j) ->
  grows r r3 -> regranted new2 r r3 i l added.
Proof.
  intros Hr Hs Hnil Hfar Hg Hnd Hf Ho Hid Ha Hw Hg3 Hw3 Hh3 Hi3 Hsame Hlook Hgr.
  pose proof (rd_block _ _ _ _ _ _ Hr) as Hb. pose proof (bk_list _ _ _ _ _ Hb) as Hlist.
  pose proof (rd_off _ _ _ _ _ _ Hr) as Hoff. pose proof (rd_nodup _ _ _ _ _ _ Hr) as Hnd0.
  assert (H2 : forall j, new2 = Some j -> j ∉ fr_granted r).
  { intros j E. rewrite E in Hs. by destruct Hs as (? & _ & _ & _ & ? & _). }
  assert (Hfix : forall j, j <> i -> j ∉ m2 -> new2 <> Some j -> fr_locks r3 !! j = fr_locks r !! j).
  { intros j Hj Hj2 Hjn. assert (j ∉ option_list new2).
    { destruct new2; [intros ->%list_elem_of_singleton|intros ?%elem_of_nil]; done. }
    rewrite Hlook by done. apply (fm_locks _ _ _ Hf). rewrite elem_of_cons, elem_of_app. tauto. }
  assert (Hm2 : forall j, j ∈ front ++ m1 ++ post -> j ∉ m2).
  { intros j. rewrite Hlist in Hnd0. apply list.NoDup_app in Hnd0 as (Hnd1 & _).
    rewrite <-app_assoc, app_assoc, app_assoc in Hnd1.
    apply list.NoDup_app in Hnd1 as (Hnd1 & Hd1 & Hnd2).
    intros Hj K. rewrite !elem_of_app in Hj. apply list.NoDup_app in Hnd1 as (_ & Hd & _).
    destruct Hj as [Hj|[Hj|Hj]].
    - apply (Hd j); [|done]. rewrite elem_of_app. tauto.
    - apply (Hd j); [|done]. rewrite elem_of_app. tauto.
    - apply (Hd1 j); [|done]. rewrite !elem_of_app. tauto. }
  assert (Hfm : forall j, j ∈ front ++ m1 ++ post -> fr_locks r3 !! j = fr_locks r !! j).
  { intros j Hj. assert (Hjg : j ∈ fr_granted r) by (rewrite Hlist, !elem_of_app in *; tauto).
    apply Hfix; [by intros ->|by apply Hm2|]. intros E. by apply (H2 j E). }
  destruct (merged_regrant new2 r r' r3 i l front m1 m2 post left right added s e) as [Hre Hran]; try done.
  split; try done.
  - exists front, (m1 ++ m2), post. eauto.
  - eauto.
  - intros j Hj Hji Hjn. apply Hfix; [done| |done]. intros K. apply Hj. rewrite Hlist, !elem_of_app. tauto.
  - assert (Hp : fr_granted r3 ≡ₚ (if added then [] else [i]) ++ fr_granted r').
    { replace (fr_granted r') with ((front ++ m1 ++ left) ++ right ++ post) by (by rewrite Hg, <-!app_assoc).
      replace (fr_granted r3) with ((front ++ m1 ++ left) ++ (if added then [] else [i]) ++ right ++ post)
        by (by rewrite Hg3, <-!app_assoc).
      destruct added; cbn [app]; [done|]. symmetry. apply Permutation_middle. }
    rewrite Hp. destruct added; [done|]. cbn. constructor; [|done].
    rewrite Hg. rewrite Hlist in Hoff. rewrite !elem_of_app in *. intros K.
    assert (K' : i ∈ left ++ right) by (rewrite elem_of_app; tauto). apply Hid in K' as [K'|K']; [tauto|].
    rewrite K' in Hs. by destruct Hs as (? & _ & _ & _ & _ & _ & ? & _).
  - intros j. rewrite Hg3, Hlist, !elem_of_app. intros Hj.
    assert (Hj' : j ∈ front ++ m1 ++ post \/ j ∈ left ++ right \/ (j = i /\ added = false)).
    { rewrite !elem_of_app. destruct added; rewrite ?list_elem_of_singleton, ?elem_of_nil in Hj; tauto. }
    rewrite !elem_of_app in Hj'. destruct Hj' as [?|[K|?]]; [tauto| |tauto].
    assert (K' : j ∈ left ++ right) by (by rewrite elem_of_app). apply Hid in K' as [?|?]; tauto.
Qed.

Lemma grant_listed reprocess new2 flags intention work r i l front m1 m2 post own splitted s x :
  ready r i l front (m1 ++ m2) post -> spare r i new2 -> starts_at r l m1 m2 x ->
  grows r (ms_res s) ->
  merged (k_req_mode l) new2 (flock_owner l) r (front ++ m1) i l m2 post
    (assign (k_req_mode l) (k_start l) (k_end l) (ranges r m2)) (Ret (MergeDone own splitted s)) ->
  exists r3, flock_grant reprocess i (k_req_mode l) flags intention work new2 own splitted s
             = flock_finish reprocess i (k_req_mode l) flags intention work (ms_added s)
                 (ms_overlaps s) r3
    /\ regranted new2 r r3 i l (ms_added s).
Proof.
  intros Hr Hs (_ & Hnil & Hfar) Hgr
    (r' & new' & added & ov' & sp & left & right & st & en & [= -> -> ->] & Hg & Hnd & Hf & Ho & Hid & Hi & H2 & Ha & Hw).
  cbn [ms_res ms_added ms_overlaps] in *.
  pose proof (bk_list _ _ _ _ _ (rd_block _ _ _ _ _ _ Hr)) as Hlist.
  pose proof (rd_off _ _ _ _ _ _ Hr) as Hoff. rewrite Hlist, !elem_of_app in Hoff.
  assert (Hin : i ∉ left ++ right).
  { intros [K|K]%Hid; [tauto|]. rewrite K in Hs. destruct Hs as (? & _ & _ & _ & _ & _ & ? & _). done. }
  assert (Hi' : i ∉ fr_granted r') by (rewrite Hg, !elem_of_app in *; tauto).
  unfold flock_grant. cbn [ms_res ms_added ms_overlaps].
  destruct (settle_new2 new2 r r' (left ++ right) sp) as (r1 & -> & Hg1 & Hf1 & Hu1 & Hgr1).
  { intros Hsp n Hn. destruct (H2 Hsp n Hn) as [K1 K2]. rewrite Hn in Hs.
    destruct Hs as (l2 & _ & _ & _ & Hng & Hnw & _). rewrite (fm_waiting _ _ _ Hf). split_and!; try done.
    rewrite Hg. rewrite Hlist in Hng. rewrite !elem_of_app in *. tauto. }
  { intros n Hn. rewrite Hn in Hs. destruct Hs as (l2 & Hl2 & _). by exists l2. }
  cbn [mbind run_bind].
  assert (Hin2 : i ∉ option_list new2).
  { destruct new2 as [n|]; [|by intros ?%elem_of_nil]. intros ->%list_elem_of_singleton.
    destruct Hs as (? & _ & _ & _ & _ & _ & ? & _). done. }
  assert (Hi1 : fr_locks r1 !! i = Some (k_set_range l st en)) by (by rewrite (fm_locks _ _ _ Hf1)).
  rewrite (get_known_flock _ _ _ Hi1). cbn [mbind run_bind].
  set (l3 := k_set_granted_mode (k_set_range l st en) (k_req_mode (k_set_range l st en))).
  set (r2 := put_flock r1 i l3).
  assert (H3 : exists r3, (if added then Ret r2
                           else flock_add_granted (flock_list_del r2 i) (head (right ++ post)) i) = Ret r3
    /\ fr_granted r3 = front ++ (m1 ++ left ++ (if added then [] else [i]) ++ right) ++ post
    /\ fr_waiting r3 = (if added then fr_waiting r else base.filter (fun j => j <> i) (fr_waiting r))
    /\ fr_locks r3 = fr_locks r2 /\ fr_hash r3 = fr_hash r2).
  { assert (Hw2 : fr_waiting r2 = fr_waiting r).
    { change (fr_waiting r2) with (fr_waiting r1). by rewrite (fm_waiting _ _ _ Hf1), (fm_waiting _ _ _ Hf). }
    assert (Hg2 : fr_granted r2 = fr_granted r') by apply Hg1.
    assert (Hg2' : fr_granted r2 = (front ++ m1 ++ left) ++ right ++ post) by (by rewrite Hg2, Hg, <-!app_assoc).
    destruct added.
    - exists r2. split_and!; [done| |done..]. by rewrite Hg2', <-!app_assoc.
    - destruct (list_request r2 i l3 (head (right ++ post)) (front ++ m1 ++ left) right post)
        as (r3 & -> & Hg3 & Hw3 & Hl3 & Hh3); rewrite ?Hg2; try done.
      + apply put_flock_eq.
      + apply (rd_alive _ _ _ _ _ _ Hr).
      + by rewrite <-Hg2.
      + exists r3. rewrite Hw3, Hw2, Hg3. split_and!; try done. by rewrite <-!app_assoc. }
  destruct H3 as (r3 & -> & Hg3 & Hw3 & Hl3 & Hh3). cbn [mbind run_bind].
  exists r3. split; [done|]. eapply (merged_regranted new2 r r' r3); try done.
  - rewrite Hh3. cbn. by rewrite (fm_hash _ _ _ Hf1), (fm_hash _ _ _ Hf).
  - rewrite Hl3. apply put_flock_eq.
  - intros j Hj. rewrite Hl3. unfold r2. rewrite put_flock_ne by (by intros ->). by apply Hu1.
  - intros j Hj Hj2. rewrite Hl3. unfold r2. rewrite put_flock_ne by done. by apply (fm_locks _ _ _ Hf1).
  - etrans; [exact Hgr|]. etrans; [exact Hgr1|]. etrans; [|by apply (grows_same r2)].
    by eapply (grows_put r1 i (k_set_range l st en)).
Qed.

(** ** A pass that grants *)

(** [ldlm_flock_blocking_unlink] of a request. *)
Definition unlinked (r : flock_resource) (i : Z) (l : flock_lock) : flock_resource :=
  match k_export l with
  | None => r
  | Some _ => fr_set_hash r (base.filter (fun w => fw_lock w <> i) (fr_hash r))
  end.

Lemma unlink_spec r i l :
  fr_locks r !! i = Some l -> ldlm_flock_blocking_unlink r i = Ret (unlinked r i l).
Proof.
  intros Hl. unfold ldlm_flock_blocking_unlink, unlinked. rewrite (get_known_flock _ _ _ Hl).
  cbn [mbind run_bind]. by destruct (k_export l).
Qed.

Lemma unlinked_lists r i l :
  fr_locks (unlinked r i l) = fr_locks r /\ fr_granted (unlinked r i l) = fr_granted r
  /\ fr_waiting (unlinked r i l) = fr_waiting r.
Proof. unfold unlinked. by destruct (k_export l). Qed.

Lemma unlinked_hash r i l : fr_hash (unlinked r i l) `sublist_of` fr_hash r.
Proof. unfold unlinked. destruct (k_export l); [apply sublist_filter|done]. Qed.

Lemma unhashed_spec hash i : flock_unhashed hash i = true <-> forall w, w ∈ hash -> fw_lock w <> i.
Proof.
  unfold flock_unhashed. rewrite negb_true_iff. split.
  - intros H w Hw E. rewrite <-not_true_iff_false, existsb_exists in H. apply H. exists w.
    rewrite Z.eqb_eq, <-list_elem_of_In. done.
  - intros H. rewrite <-not_true_iff_false, existsb_exists. intros (w & Hw & E%Z.eqb_eq).
    apply (H w); [by apply list_elem_of_In|done].
Qed.

Lemma unhashed_sub hash hash' i :
  hash' `sublist_of` hash -> flock_unhashed hash i = true -> flock_unhashed hash' i = true.
Proof.
  rewrite !unhashed_spec. intros Hs H w Hw. apply H. by eapply elem_of_sublist.
Qed.

Lemma unlinked_unhashed r i l : k_export l <> None -> flock_unhashed (fr_hash (unlinked r i l)) i = true.
Proof.
  intros He. apply unhashed_spec. unfold unlinked. destruct (k_export l); [|done]. cbn.
  by intros w [? _]%list_elem_of_filter.
Qed.

(** Blocks and requests do not depend on the hash. *)
Lemma block_hash r r' ow front mine post :
  fr_locks r' = fr_locks r -> fr_granted r' = fr_granted r ->
  block r ow front mine post -> block r' ow front mine post.
Proof.
  intros Hl Hg [H1 H2 H3 H4 H5]. unfold ranges, flock_of in H5.
  split; [by rewrite Hg|..]; unfold owned, foreign, ranges, flock_of; by rewrite Hl.
Qed.

Lemma ready_unlinked r i l front mine post :
  ready r i l front mine post -> ready (unlinked r i l) i l front mine post.
Proof.
  intros [Hb Hn Hnd Hu Hl Ha Hp Ho]. destruct (unlinked_lists r i l) as (E1 & E2 & E3).
  split; rewrite ?E1, ?E2, ?E3; try done; [by eapply block_hash|].
  intros j Hj. eapply unhashed_sub; [apply unlinked_hash|by apply Hu].
Qed.

Lemma spare_unlinked r i l new2 : spare r i new2 -> spare (unlinked r i l) i new2.
Proof.
  destruct new2 as [n|]; [|done]. intros (l2 & H1 & H2 & H3 & H4 & H5 & H6 & H7).
  destruct (unlinked_lists r i l) as (E1 & E2 & E3). exists l2. rewrite E1, E2, E3. split_and!; try done.
  eapply unhashed_sub; [apply unlinked_hash|done].
Qed.

(** The lock the loop starts at. *)
Definition resumes (r : flock_resource) (l : flock_lock) (mine : list Z) (own : option Z) : Prop :=
  match own with
  | None => True
  | Some j => exists m1 m2, mine = m1 ++ j :: m2
                /\ Forall (fun x => rg_end x + 1 < k_start l) (ranges r m1)
  end.

Lemma resumes_starts r l mine own own' :
  resumes r l mine own ->
  own' = match own with Some _ => own | None => head mine end
  \/ own' = match head mine with Some j => Some j | None => own end ->
  exists m1 m2, mine = m1 ++ m2 /\ starts_at r l m1 m2 own'.
Proof.
  intros Hr Ho. assert (Hhead : exists m1 m2, mine = m1 ++ m2 /\ starts_at r l m1 m2 (head mine)).
  { exists [], mine. split; [done|]. split; [done|]. by split. }
  destruct own as [j|].
  - destruct Hr as (m1 & m2 & -> & Hf). destruct Ho as [->| ->].
    + exists m1, (j :: m2). split; [done|]. split; [done|]. by split.
    + destruct Hhead as (k1 & k2 & E & Hst). exists k1, k2. split; [done|].
      by destruct m1.
  - destruct Ho as [->| ->]; [done|]. by destruct mine.
Qed.
