(* ===== verification/FlockProcess.v ===== *)
(** The whole of [ldlm_process_flock_lock] (lustre/ldlm/ldlm_flock.c): every way it
    returns, and what it has done to the resource and to the bytes. *)

From stdpp Require Import gmap.
From S2P Require Import Prelude LdlmLock LdlmExtent LdlmSafe LdlmServer LdlmFlock FlockRange FlockMerge FlockWait.
From S2P Require Import FlockSystem FlockPass.

Lemma canonical_below l1 x l2 :
  canonical (l1 ++ x :: l2) -> Forall (fun y => rg_end y < rg_start x) l1.
Proof.
  induction l1 as [|y l1 IH]; cbn; [constructor|]. intros (_ & Hap & Hc)%canonical_inv.
  constructor; [|by apply IH]. apply Forall_app in Hap as [_ Hap].
  apply Forall_cons in Hap as [Hap _]. apply Hap.
Qed.

(** The lock that has to be split has nothing to be done in front of it. *)
Lemma split_resumes r ow front mine post l m1 m2 j lj :
  block r ow front mine post -> mine = m1 ++ m2 -> j ∈ m2 -> fr_locks r !! j = Some lj ->
  k_start lj < k_start l -> resumes r l mine (Some j).
Proof.
  intros Hb -> Hj Hlj Hlt. apply list_elem_of_split in Hj as (a & b & ->).
  exists (m1 ++ a), b. split; [by rewrite <-app_assoc|].
  pose proof (bk_canonical _ _ _ _ _ Hb) as Hc. rewrite app_assoc, ranges_app in Hc. cbn [ranges map] in Hc.
  apply canonical_below in Hc. eapply Forall_impl; [exact Hc|]. intros x Hx.
  rewrite (flock_of_known _ _ _ Hlj) in Hx. cbn in Hx. lia.
Qed.

Lemma resumes_unlinked r i l mine own : resumes r l mine own -> resumes (unlinked r i l) l mine own.
Proof.
  unfold resumes, ranges, flock_of. by destruct (unlinked_lists r i l) as (-> & _ & _).
Qed.

(** One of the owner's locks has to be split. *)
Definition must_split (r : flock_resource) (l : flock_lock) (mine : list Z) : Prop :=
  Exists (straddles (k_req_mode l) (k_start l) (k_end l)) (ranges r mine).

Section Process.
Context (nid : Z -> Z) (exp_failed exp_has_hash exp_flock_dead : Z -> bool).
Let pass := flock_pass nid exp_failed exp_has_hash exp_flock_dead.

Lemma pass_merges reprocess r i l front mine post flags intention work new2 own ov :
  ready r i l front mine post -> spare r i new2 -> resumes r l mine own ->
  k_req_mode l ∈ modes -> LDLM_TEST_FLAG flags LDLM_FL_TEST_LOCK = false ->
  flags = LDLM_FL_WAIT_NOREPROC \/ k_req_mode l = LCK_NL \/ clear r l ->
  exists own' m1 m2, mine = m1 ++ m2 /\ starts_at (unlinked r i l) l m1 m2 own'
    /\ pass reprocess i (k_req_mode l) flags intention work new2 own
         (MergeState r i (k_req_mode l =? LCK_NL) ov)
       = (queue ← match own' with
                  | None => Ret []
                  | Some pos => list_from pos (fr_granted (unlinked r i l))
                  end;
          m ← flock_merge_loop queue (k_req_mode l) flags new2
                (MergeState (unlinked r i l) i (k_req_mode l =? LCK_NL) ov);
          match m with
          | MergeAlloc own s => Ret (PassAlloc own s)
          | MergeDone own splitted s =>
              flock_grant reprocess i (k_req_mode l) flags intention work new2 own splitted s
          end).
Proof.
  intros Hr Hs Hres Hm Ht Hc. pose proof (rd_block _ _ _ _ _ _ Hr) as Hb.
  pose proof (rd_lock _ _ _ _ _ _ Hr) as Hl. pose proof (block_known _ _ _ _ _ Hb) as Hk.
  assert (Hscan : exists own', (own' = match own with Some _ => own | None => head mine end
      \/ own' = match head mine with Some j => Some j | None => own end)
    /\ (if (flags =? LDLM_FL_WAIT_NOREPROC) || (k_req_mode l =? LCK_NL) then
          own ← first_own (fr_granted r) r i own; Ret (ConflictPass own false)
        else lassert lockmode_verify (k_req_mode l);
          conflict_loop nid exp_failed exp_has_hash exp_flock_dead (fr_granted r) r i (k_req_mode l)
            flags intention work own false) = Ret (ConflictPass own' false)).
  { rewrite (first_own_spec r i l) by done. rewrite (find_own _ _ _ _ _ Hb). cbn [mbind run_bind].
    destruct ((flags =? LDLM_FL_WAIT_NOREPROC) || (k_req_mode l =? LCK_NL)) eqn:E; [by eauto|].
    rewrite orb_false_iff, !Z.eqb_neq in E. destruct Hc as [?|[?|Hc]]; [tauto|tauto|].
    unfold LASSERT. rewrite lockmode_verify_modes by done. rewrite scan_clear by done.
    rewrite (find_own _ _ _ _ _ Hb). eauto. }
  destruct Hscan as (own' & Hown & Hscan).
  destruct (resumes_starts _ _ _ _ _ (resumes_unlinked _ i _ _ _ Hres) Hown) as (m1 & m2 & -> & Hst).
  exists own', m1, m2. split; [done|]. split; [done|].
  unfold pass, flock_pass. cbn [ms_res ms_new ms_added ms_overlaps]. rewrite Hscan. cbn [mbind run_bind].
  rewrite Ht, (unlink_spec _ _ _ Hl). done.
Qed.

(** A pass that finds no conflict grants the request, or asks for a lock to split
    another one with. *)
Lemma pass_grants reprocess r i l front mine post flags intention work new2 own ov :
  ready r i l front mine post -> spare r i new2 -> resumes r l mine own ->
  k_req_mode l ∈ modes -> LDLM_TEST_FLAG flags LDLM_FL_TEST_LOCK = false ->
  flags = LDLM_FL_WAIT_NOREPROC \/ k_req_mode l = LCK_NL \/ clear r l ->
  let p := pass reprocess i (k_req_mode l) flags intention work new2 own
             (MergeState r i (k_req_mode l =? LCK_NL) ov) in
  (exists r' added ov', p = flock_finish reprocess i (k_req_mode l) flags intention work added ov' r'
     /\ regranted new2 (unlinked r i l) r' i l added /\ (new2 = None -> ~ must_split r l mine))
  \/ (new2 = None /\ must_split r l mine /\ exists j ov', resumes r l mine (Some j) /\ (j ∈ mine)
      /\ p = Ret (PassAlloc j (MergeState (unlinked r i l) i (k_req_mode l =? LCK_NL) ov'))).
Proof.
  intros Hr Hs Hres Hm Ht Hc.
  destruct (pass_merges reprocess r i l front mine post flags intention work new2 own ov Hr Hs Hres Hm Ht Hc)
    as (own' & m1 & m2 & -> & Hst & Hp). cbv zeta. rewrite Hp. clear Hp.
  pose proof (ready_unlinked _ _ _ _ _ _ Hr) as Hr1. pose proof (spare_unlinked _ _ l _ Hs) as Hs1.
  pose proof (merge_from (k_req_mode l) flags new2 _ _ _ _ _ _ _ _ ov Hr1 Hs1 Hst) as Hmf. cbv zeta in Hmf.
  set (q := match own' with None => Ret [] | Some pos => _ end) in *.
  assert (Hq : exists q', q = Ret q' /\ forall n, new2 = Some n -> n ∉ q').
  { destruct Hst as (Eo & _). unfold q. rewrite Eo. destruct m2 as [|j m2]; cbn [head].
    - exists []. split; [done|]. by intros n _ ?%elem_of_nil.
    - pose proof (ready_loose new2 _ _ _ _ _ _ _ Hr1 Hs1) as Hls. pose proof (ls_merge _ _ _ _ _ _ _ _ Hls) as Hmg.
      destruct (mergeable_fresh _ _ _ _ _ _ Hmg) as (Hj & _). rewrite (mg_list _ _ _ _ _ Hmg). cbn [app].
      rewrite list_from_middle by done. eexists. split; [done|]. intros n E K. rewrite E in Hs1.
      destruct Hs1 as (_ & _ & _ & _ & Hn & _). apply Hn. rewrite (mg_list _ _ _ _ _ Hmg), elem_of_app. by right. }
  destruct Hq as (q' & -> & Hn2). cbn [mbind run_bind] in *.
  destruct (unlinked_lists r i l) as (E1 & _).
  assert (Hrg : forall q, ranges (unlinked r i l) q = ranges r q) by (intros; unfold ranges, flock_of; by rewrite E1).
  destruct Hmf as [[Hmg Hno]|(E2 & j & lj & ov' & Hj & Hlj & Hlt & ->)].
  - left. pose proof Hmg as (r' & new' & added & ov' & sp & left & right & st & en & Hx & _).
    rewrite Hx in Hmg |- *. pose proof (grows_merge _ _ _ _ _ _ Hn2 Hx) as Hgr. cbn [mbind run_bind merge_end_state] in Hgr |- *.
    destruct (grant_listed reprocess new2 flags intention work _ i l front m1 m2 post _ _ _ _ Hr1 Hs1 Hst Hgr Hmg)
      as (r3 & -> & H3). do 3 eexists. split_and!; [done|done|]. intros E2. specialize (Hno E2).
    unfold must_split. rewrite ranges_app, Exists_app, <-!Hrg.
    destruct Hst as (_ & _ & Hlow). rewrite Forall_forall in Hno, Hlow. rewrite !Exists_exists.
    intros [(x & Hin & _ & K & _)|(x & Hin & K)]; [|by apply (Hno x)]. apply Hlow in Hin.
    pose proof (rd_proper _ _ _ _ _ _ Hr). lia.
  - right. rewrite E1 in Hlj. split; [done|]. split.
    { unfold must_split. rewrite ranges_app, Exists_app, !Exists_exists. right. exists (range_of lj). split; [|done].
      unfold ranges. apply list_elem_of_In, in_map_iff. exists j. rewrite (flock_of_known _ _ _ Hlj).
      split; [done|by apply list_elem_of_In]. }
    exists j, ov'. cbn [mbind run_bind]. split_and!; [| |done].
    + eapply (split_resumes r); [apply (rd_block _ _ _ _ _ _ Hr)|done|exact Hj|exact Hlj|]. apply Hlt.
    + rewrite elem_of_app. by right.
Qed.

(** ** The function *)

(** The number of a lock that is made. *)
Record fresh (r : flock_resource) (n : Z) : Prop := {
  fs_lock : fr_locks r !! n = None;
  fs_unhashed : flock_unhashed (fr_hash r) n = true;
  fs_waiting : n ∉ fr_waiting r
}.

(** The resource the request is granted on: the request is no longer blocked, and
    there may be a lock for a split. *)
Definition base_of (r : flock_resource) (i : Z) (l : flock_lock) (new2 : option Z) (r0 : flock_resource)
    : Prop :=
  match new2 with
  | None => r0 = unlinked r i l
  | Some n => fresh r n /\ exists l2, r0 = put_flock (unlinked r i l) n l2
  end.

Definition pass_result (p : pass_end) : run (Z * Z * Z * flock_resource * list Z) :=
  match p with
  | PassReturn rc err flags r work_list => Ret (rc, err, flags, r, work_list)
  | PassAlloc _ _ => LBUG
  end.

Lemma block_fresh r n l2 ow front mine post :
  fr_locks r !! n = None -> block r ow front mine post -> block (put_flock r n l2) ow front mine post.
Proof.
  intros Hn Hb. pose proof (block_known _ _ _ _ _ Hb) as Hk.
  assert (Hne : forall j, j ∈ fr_granted r -> j <> n) by (intros j Hj ->; destruct (Hk n Hj); congruence).
  destruct Hb as [Hl Hm Hf Hp Hc]. rewrite Hl in Hne.
  assert (Hsame : forall j, j ∈ front ++ mine ++ post -> fr_locks (put_flock r n l2) !! j = fr_locks r !! j)
    by (intros j Hj; apply put_flock_ne; auto).
  split; [done|..].
  - rewrite Forall_forall in *. intros j Hj. unfold owned. rewrite Hsame; [by apply Hm|]. rewrite !elem_of_app. tauto.
  - rewrite Forall_forall in *. intros j Hj. unfold foreign. rewrite Hsame; [by apply Hf|]. rewrite !elem_of_app. tauto.
  - rewrite Forall_forall in *. intros j Hj. unfold foreign. rewrite Hsame; [by apply Hp|]. rewrite !elem_of_app. tauto.
  - replace (ranges (put_flock r n l2) mine) with (ranges r mine); [done|]. apply map_ext_in.
    intros j Hj%list_elem_of_In. unfold flock_of. rewrite Hsame; [done|]. rewrite !elem_of_app. tauto.
Qed.

Lemma ready_fresh r n l2 i l front mine post :
  fr_locks r !! n = None -> ready r i l front mine post -> ready (put_flock r n l2) i l front mine post.
Proof.
  intros Hn [Hb H1 H2 H3 H4 H5 H6 H7]. split; try done; [by apply block_fresh|].
  rewrite put_flock_ne; [done|]. intros ->. congruence.
Qed.

Lemma clear_fresh r n l2 l : fr_locks r !! n = None -> known r (fr_granted r) -> clear r l -> clear (put_flock r n l2) l.
Proof.
  intros Hn Hk Hc j lj Hj. cbn in Hj. rewrite put_flock_ne; [by apply Hc|].
  intros ->. destruct (Hk n Hj). congruence.
Qed.

Lemma clear_unlinked r i l : clear r l -> clear (unlinked r i l) l.
Proof. unfold clear. by destruct (unlinked_lists r i l) as (-> & -> & _). Qed.

Lemma unlinked_twice r i l n l2 :
  unlinked (put_flock (unlinked r i l) n l2) i l = put_flock (unlinked r i l) n l2.
Proof.
  unfold unlinked. destruct (k_export l); [|done]. unfold put_flock, fr_set_hash, fr_set_locks. cbn.
  f_equal. apply list_filter_filter_l. done.
Qed.

Lemma finish_returns reprocess i mode flags intention work added ov r x :
  flock_finish reprocess i mode flags intention work added ov r = Ret x ->
  exists r' work', x = PassReturn LDLM_ITER_CONTINUE ELDLM_OK flags r' work'.
Proof. unfold flock_finish. intros H. run_inv. eauto. Qed.

(** A request nothing is in the way of: it is granted, or the lock for a split cannot be
    made. *)
Lemma process_grants reprocess alloc srv r i l front mine post flags intention work :
  ready r i l front mine post -> k_req_mode l ∈ modes ->
  LDLM_TEST_FLAG flags LDLM_FL_TEST_LOCK = false ->
  flags = LDLM_FL_WAIT_NOREPROC \/ k_req_mode l = LCK_NL \/ clear r l ->
  (forall n, alloc = inl n -> fresh r n) ->
  let p := process_flock nid exp_failed exp_has_hash exp_flock_dead reprocess alloc srv r i flags
             intention work in
  (exists new2 r0 r' added ov,
     p = (x ← flock_finish reprocess i (k_req_mode l) flags intention work added ov r'; pass_result x)
     /\ base_of r i l new2 r0 /\ (forall n, new2 = Some n -> alloc = inl n)
     /\ regranted new2 r0 r' i l added /\ (forall err, alloc = inr err -> ~ must_split r l mine))
  \/ (exists err, alloc = inr err /\ must_split r l mine
      /\ p = (r' ← ldlm_flock_destroy (unlinked r i l) i flags; Ret (LDLM_ITER_STOP, err, flags, r', work))).
Proof.
  intros Hr Hm Ht Hc Hal. pose proof (rd_lock _ _ _ _ _ _ Hr) as Hl. cbv zeta.
  unfold process_flock. rewrite (get_known_flock _ _ _ Hl). cbn [mbind run_bind].
  destruct (pass_grants reprocess r i l front mine post flags intention work None None 0 Hr I I Hm Ht Hc)
    as [(r' & added & ov' & Hp & Hrt & Hno)|(_ & Hsplit & j & ov' & Hres & Hj & Hp)]; unfold pass in Hp; rewrite Hp; clear Hp.
  { left. exists None, (unlinked r i l), r', added, ov'. split_and!; [|done|done|done|by intros _ _; apply Hno].
    destruct (flock_finish _ _ _ _ _ _ _ _ _) as [[]|] eqn:E; [done| |done].
    by apply finish_returns in E as (? & ? & ?). }
  cbn [mbind run_bind]. unfold flock_again. cbn [ms_res ms_new ms_added ms_overlaps].
  destruct alloc as [n|err].
  - left. pose proof (Hal n eq_refl) as Hfr. pose proof Hfr as [Hn Hnu Hnw].
    pose proof (rd_block _ _ _ _ _ _ Hr) as Hb. pose proof (block_known _ _ _ _ _ Hb) as Hk.
    destruct (unlinked_lists r i l) as (E1 & E2 & E3).
    assert (Hjk : exists lj, fr_locks (unlinked r i l) !! j = Some lj).
    { rewrite E1. apply Hk. rewrite (bk_list _ _ _ _ _ Hb), !elem_of_app. tauto. }
    destruct Hjk as [lj Hlj]. rewrite (get_known_flock _ _ _ Hlj). cbn [mbind run_bind].
    set (l2 := flock_lock_create srv (k_granted_mode lj)). set (r0 := put_flock (unlinked r i l) n l2).
    assert (Hn1 : fr_locks (unlinked r i l) !! n = None) by (by rewrite E1).
    assert (Hr0 : ready r0 i l front mine post) by (apply ready_fresh; [done|]; by apply ready_unlinked).
    assert (Hs0 : spare r0 i (Some n)).
    { exists l2. split_and!; [apply put_flock_eq|unfold l2; by destruct srv|done| | | |].
      - unfold r0. cbn. rewrite E2. intros K. destruct (Hk n K). congruence.
      - unfold r0. cbn. by rewrite E3.
      - intros ->. congruence.
      - eapply unhashed_sub; [apply unlinked_hash|done]. }
    assert (Hres0 : resumes r0 l mine (Some j)).
    { apply (resumes_unlinked r i) in Hres. destruct Hres as (m1 & m2 & Em & Hf). exists m1, m2. split; [done|].
      replace (ranges r0 m1) with (ranges (unlinked r i l) m1); [done|]. apply map_ext_in.
      intros k Hk'%list_elem_of_In. unfold flock_of, r0. rewrite put_flock_ne; [done|]. intros ->.
      destruct (Hk n); [|congruence]. rewrite (bk_list _ _ _ _ _ Hb), Em, !elem_of_app. tauto. }
    assert (Hc0 : flags = LDLM_FL_WAIT_NOREPROC \/ k_req_mode l = LCK_NL \/ clear r0 l).
    { destruct Hc as [?|[?|Hc]]; [tauto|tauto|]. right; right. apply clear_fresh; [done|by rewrite E2; unfold known; rewrite E1|].
      by apply clear_unlinked. }
    destruct (pass_grants reprocess r0 i l front mine post flags intention work (Some n) (Some j) ov' Hr0 Hs0 Hres0 Hm Ht Hc0)
      as [(r' & added & ov'' & Hp & Hrt & _)|(? & _)]; [|done]. unfold pass in Hp. rewrite Hp.
    unfold r0 in Hrt at 1. rewrite unlinked_twice in Hrt.
    exists (Some n), r0, r', added, ov''. split_and!; [done| |by intros ? [= <-]|done|done].
    split; [done|]. by exists l2.
  - right. exists err. split_and!; [done|done|]. by destruct (ldlm_flock_destroy _ _ _).
Qed.
End Process.
