(* ===== verification/FlockReach.v ===== *)
(** The invariant of a resource of POSIX locks under every operation
    (lustre/ldlm/ldlm_flock.c). *)

From stdpp Require Import gmap.
From S2P Require Import Prelude LdlmLock LdlmExtent LdlmSafe LdlmServer LdlmFlock FlockRange FlockMerge FlockWait.
From S2P Require Import FlockSystem FlockPass FlockProcess.

(** ** Changes that do not matter for the bytes *)

(** The granted locks are the ones they were, up to flags and request data. *)
Definition alike (l l' : flock_lock) : Prop :=
  flock_owner l' = flock_owner l /\ range_of l' = range_of l /\ destroyed l' = destroyed l.
Definition soft (r r' : flock_resource) : Prop :=
  fr_granted r' = fr_granted r
  /\ forall j l, j ∈ fr_granted r -> fr_locks r !! j = Some l ->
       exists l', fr_locks r' !! j = Some l' /\ alike l l'.

Lemma soft_same r r' :
  fr_granted r' = fr_granted r -> (forall j, j ∈ fr_granted r -> fr_locks r' !! j = fr_locks r !! j) ->
  soft r r'.
Proof.
  intros Hg Hl. split; [done|]. intros j l Hj Hlk. exists l. rewrite Hl by done. done.
Qed.

Lemma soft_held r r' ow b m : soft r r' -> held r ow b m -> held r' ow b m.
Proof.
  intros [Hg Hs] (j & l & Hj & Hl & Ho & Hb & Hm). destruct (Hs j l Hj Hl) as (l' & Hl' & Ho' & Hr' & _).
  exists j, l'. rewrite Hg. injection Hr' as E1 E2 E3. split_and!; [done|done|congruence|lia|lia|congruence].
Qed.

Lemma soft_sym r r' : soft r r' -> known r (fr_granted r) -> soft r' r.
Proof.
  intros [Hg Hs] Hk. split; [done|]. intros j l' Hj Hl'. rewrite Hg in Hj. destruct (Hk j Hj) as [l Hl].
  destruct (Hs j l Hj Hl) as (l'' & Hl'' & H1 & H2 & H3). assert (l'' = l') as -> by congruence.
  exists l. split; [done|]. by split_and!.
Qed.

Lemma soft_trans r1 r2 r3 : soft r1 r2 -> soft r2 r3 -> soft r1 r3.
Proof.
  intros [G1 S1] [G2 S2]. split; [congruence|]. intros j l Hj Hl. destruct (S1 j l Hj Hl) as (l' & Hl' & A1 & A2 & A3).
  rewrite <-G1 in Hj. destruct (S2 j l' Hj Hl') as (l'' & Hl'' & B1 & B2 & B3). exists l''. split; [done|].
  split_and!; congruence.
Qed.

Lemma soft_holdings r r' : soft r r' -> known r (fr_granted r) -> same_holdings (held r) (held r').
Proof.
  intros Hs Hk ow b m. split; apply soft_held; [by apply soft_sym|done].
Qed.

Lemma soft_block r r' ow front mine post :
  soft r r' -> block r ow front mine post -> block r' ow front mine post.
Proof.
  intros [Hg Hs] [Hl Hm Hf Hp Hc]. rewrite Forall_forall in Hm, Hf, Hp. rewrite Hl in Hs.
  assert (Hfor : forall j, j ∈ front ++ mine ++ post -> foreign r ow j -> foreign r' ow j).
  { intros j Hj (l & Hlk & Hne). destruct (Hs j l Hj Hlk) as (l' & Hl' & Ho & _). exists l'. by rewrite Ho. }
  split.
  - by rewrite Hg.
  - rewrite Forall_forall. intros j Hj. destruct (Hm j Hj) as (l & Hlk & Ho & Hd & Hpr & Hmd).
    destruct (Hs j l) as (l' & Hl' & Ho' & Hr' & Hd'); [rewrite !elem_of_app; tauto|done|].
    exists l'. rewrite Ho', Hr', Hd'. split_and!; try done. injection Hr' as _ _ E. by rewrite E.
  - rewrite Forall_forall. intros j Hj. apply Hfor; [rewrite !elem_of_app; tauto|by apply Hf].
  - rewrite Forall_forall. intros j Hj. apply Hfor; [rewrite !elem_of_app; tauto|by apply Hp].
  - replace (ranges r' mine) with (ranges r mine); [done|]. apply map_ext_in. intros j Hj%list_elem_of_In.
    destruct (Hm j Hj) as (l & Hlk & _).
    destruct (Hs j l) as (l' & Hl' & _ & Hr' & _); [rewrite !elem_of_app; tauto|done|].
    by rewrite (flock_of_known _ _ _ Hlk), (flock_of_known _ _ _ Hl').
Qed.

Lemma posix_run_trans H H' H'' : posix_run H H' -> posix_run H' H'' -> posix_run H H''.
Proof.
  intros H1 H2. induction H2 as [K HK|K K' ow s t m _ IH Hal Has].
  - destruct H1 as [H' H1|H1 H' ow s t m Hr Hal Has].
    + apply posix_same. intros ow b m. by rewrite (HK ow b m), (H1 ow b m).
    + eapply (posix_step _ H1 K); [done|exact Hal|]. intros ow' b m'. rewrite (HK ow' b m'). apply Has.
  - by eapply posix_step.
Qed.

Section Reach.
Context (nid : Z -> Z) (exp_failed exp_has_hash exp_flock_dead : Z -> bool) (home : Z -> Z -> Z).

Lemma grants_known r : grants_ok nid home r -> known r (fr_granted r).
Proof.
  intros Hg. destruct (go_blocks _ _ _ Hg (0, None)) as (f & m & p & Hb). by eapply block_known.
Qed.

Lemma grants_soft r r' : grants_ok nid home r -> soft r r' -> grants_ok nid home r'.
Proof.
  intros Hg Hs. pose proof (soft_sym _ _ Hs (grants_known _ Hg)) as Hs'. destruct Hg as [Hb Hh Hsafe]. split.
  - intros ow. destruct (Hb ow) as (f & m & p & K). exists f, m, p. by eapply soft_block.
  - intros ow b m K%(soft_held _ _ _ _ _ Hs'). by eapply Hh.
  - intros ow ow' b m m' Hne K1%(soft_held _ _ _ _ _ Hs') K2%(soft_held _ _ _ _ _ Hs'). by eapply Hsafe.
Qed.

(** The request leaves the hash of blocked locks, and a lock for a split is made. *)
Lemma base_soft r i l new2 r0 :
  known r (fr_granted r) -> base_of r i l new2 r0 ->
  soft r r0 /\ fr_waiting r0 = fr_waiting r /\ fr_hash r0 = fr_hash (unlinked r i l)
  /\ (forall j, new2 <> Some j -> fr_locks r0 !! j = fr_locks r !! j).
Proof.
  intros Hk Hb. destruct (unlinked_lists r i l) as (E1 & E2 & E3). destruct new2 as [n|]; cbn in Hb.
  - destruct Hb as ([Hn _ _] & l2 & ->).
    assert (Hl : forall j, j <> n -> fr_locks (put_flock (unlinked r i l) n l2) !! j = fr_locks r !! j)
      by (intros j Hj; by rewrite put_flock_ne, E1).
    split_and!; [|done|done|intros j Hj; apply Hl; congruence].
    apply soft_same; [done|]. intros j Hj. apply Hl. intros ->. destruct (Hk n Hj). congruence.
  - subst r0. rewrite E1. split_and!; try done. apply soft_same; [done|by rewrite E1].
Qed.

(** ** A granted request *)

(** The step a request asks for. *)
Definition asks (l : flock_lock) : holdings -> holdings -> Prop :=
  posix_assign (flock_owner l) (k_start l) (k_end l) (k_req_mode l).
Definition may (l : flock_lock) : holdings -> Prop :=
  posix_allowed (flock_owner l) (k_start l) (k_end l) (k_req_mode l).

Lemma regranted_grants r i l new2 r0 r3 added :
  grants_ok nid home r -> request nid home r i l -> may l (held r) ->
  base_of r i l new2 r0 -> regranted new2 r0 r3 i l added ->
  grants_ok nid home r3 /\ asks l (held r) (held r3).
Proof.
  intros Hg Hq Hal Hb Hrt. pose proof (grants_known _ Hg) as Hk.
  destruct (base_soft _ _ _ _ _ Hk Hb) as (Hs & _). pose proof (soft_holdings _ _ Hs Hk) as Hh.
  destruct (rt_regrant _ _ _ _ _ _ Hrt) as (front & mine & post & fin & Hre & Hr).
  assert (Hle : k_start l <= k_end l) by (pose proof (rq_proper _ _ _ _ _ Hq); lia).
  pose proof (re_block _ _ _ _ _ _ _ Hre) as Hbl.
  pose proof (assign_reassigned _ _ _ _ _ _ _ (bk_mine _ _ _ _ _ Hbl) (bk_canonical _ _ _ _ _ Hbl) Hle Hr) as Hra.
  destruct (regrant_ok nid home _ _ _ _ _ _ _ _ _ _ Hre (grants_soft _ _ Hg Hs) Hra) as [H1 H2].
  - apply (rq_mode _ _ _ _ _ Hq).
  - apply (rq_home _ _ _ _ _ Hq).
  - intros ow b m Hne Hbb K. apply (Hal ow b m Hne Hbb). by apply (Hh ow b m).
  - split; [done|]. intros ow b m. rewrite (H2 ow b m). destruct (_ && _); [done|]. apply Hh.
Qed.

Lemma at_home_export l : at_home nid home (flock_owner l) -> k_export l <> None.
Proof. intros (e & He & _). cbn in He. congruence. Qed.

(** The lists and the hash behind a granted request. *)
Lemma regranted_queues r i l new2 r0 r3 r4 added :
  flock_ok nid home exp_failed exp_has_hash r -> request nid home r i l -> (i ∉ fr_granted r) ->
  base_of r i l new2 r0 -> regranted new2 r0 r3 i l added ->
  fr_granted r4 = fr_granted r3 -> fr_waiting r4 = base.filter (fun j => j <> i) (fr_waiting r) ->
  fr_hash r4 = fr_hash r3 -> (forall j, j <> i -> fr_locks r4 !! j = fr_locks r3 !! j) ->
  queues_ok nid home exp_failed exp_has_hash r4.
Proof.
  intros [Hg [Hnd Hw Hu Hsl Hwt]] Hq Hi Hb Hrt Hg4 Hw4 Hh4 Hl4. pose proof (grants_known _ Hg) as Hk.
  destruct (base_soft _ _ _ _ _ Hk Hb) as (Hs & Hw0 & Hh0 & Hl0).
  destruct Hs as [Hg0 _]. pose proof Hrt as [_ _ Hoth Hw3 Hh3 Hnd3 Hgr3 _ _]. rewrite Hg0 in *.
  assert (Hhash : fr_hash r4 = fr_hash (unlinked r i l)) by congruence.
  assert (Hsub : fr_hash r4 `sublist_of` fr_hash r) by (rewrite Hhash; apply unlinked_hash).
  assert (Hui : flock_unhashed (fr_hash r4) i = true)
    by (rewrite Hhash; apply unlinked_unhashed, at_home_export; apply (rq_home _ _ _ _ _ Hq)).
  assert (Hn2 : forall n, new2 = Some n -> fresh r n).
  { intros n ->. by destruct Hb as [? _]. }
  assert (Hsame : forall j, j <> i -> j ∉ fr_granted r -> new2 <> Some j -> fr_locks r4 !! j = fr_locks r !! j).
  { intros j H1 H2 H3. by rewrite Hl4, Hoth, Hl0. }
  apply list.NoDup_app in Hnd as (Hnd1 & Hd & Hnd2). split.
  - rewrite Hg4, Hw4. apply list.NoDup_app. split_and!; [done| |by apply NoDup_filter].
    intros j Hj [Hji Hjw]%list_elem_of_filter. destruct (Hgr3 j Hj) as [K|[[K _]|K]]; [by apply (Hd j)|done|].
    apply Hn2 in K as [_ _ K]. done.
  - intros j. rewrite Hw4. intros [Hji Hj]%list_elem_of_filter. destruct (Hw j Hj) as (lj & Hlj & Hm).
    exists lj. split; [|done]. destruct Hlj. split; try done. rewrite Hsame; [done|done| |].
    + intros K. by apply (Hd j).
    + intros K. apply Hn2 in K as [_ _ K]. done.
  - intros j. rewrite Hg4. intros Hj. destruct (Hgr3 j Hj) as [K|[[-> _]|K]]; [|done|].
    + eapply unhashed_sub; [exact Hsub|by apply Hu].
    + eapply unhashed_sub; [exact Hsub|]. by apply Hn2 in K as [_ ? _].
  - intros w lw Hww Hlw. pose proof (elem_of_sublist _ _ _ Hww Hsub) as Hwr. apply (Hsl w lw Hwr).
    rewrite <-Hlw. symmetry. apply Hsame.
    + rewrite unhashed_spec in Hui. by apply Hui.
    + intros K. specialize (Hu _ K). rewrite unhashed_spec in Hu. by apply (Hu w).
    + intros K. apply Hn2 in K as [_ K _]. rewrite unhashed_spec in K. by apply (K w).
  - by eapply waits_unlink_ok.
Qed.

(** ** Locks that are not granted *)

(** A lock leaves the lists and is marked. *)
Record removed (r r' : flock_resource) (i : Z) : Prop := {
  rm_granted : fr_granted r' = fr_granted r;
  rm_waiting : fr_waiting r' = base.filter (fun j => j <> i) (fr_waiting r);
  rm_hash : fr_hash r' = fr_hash r;
  rm_locks : forall j, j <> i -> fr_locks r' !! j = fr_locks r !! j;
  rm_grows : grows r r'
}.

Lemma destroy_off r i l flags :
  fr_locks r !! i = Some l -> (i ∉ fr_granted r) -> flock_unhashed (fr_hash r) i = true ->
  exists r', ldlm_flock_destroy r i flags = Ret r' /\ removed r r' i.
Proof.
  intros Hl Hi Hu.
  assert (H : exists r', ldlm_flock_destroy r i flags = Ret r' /\ fr_granted r' = fr_granted r
    /\ fr_waiting r' = base.filter (fun j => j <> i) (fr_waiting r) /\ fr_hash r' = fr_hash r
    /\ forall j, j <> i -> fr_locks r' !! j = fr_locks r !! j).
  2:{ destruct H as (r' & H & H1 & H2 & H3 & H4). exists r'. split; [done|]. split; try done.
      by eapply grows_destroy. }
  unfold ldlm_flock_destroy, LASSERT. rewrite Hu, (get_known_flock _ _ _ Hl). cbn [mbind run_bind]. cbv zeta.
  set (r1 := if flags =? LDLM_FL_WAIT_NOREPROC then _ else _).
  assert (H1 : fr_granted r1 = fr_granted r
    /\ fr_waiting r1 = base.filter (fun j => j <> i) (fr_waiting r) /\ fr_hash r1 = fr_hash r
    /\ (forall j, j <> i -> fr_locks r1 !! j = fr_locks r !! j) /\ exists l1, fr_locks r1 !! i = Some l1).
  { unfold r1. destruct (_ =? _); cbn; rewrite filter_ne_id by done; split_and!; try done; [| |by exists l].
    - intros j Hj. by rewrite lookup_insert_ne.
    - eexists. apply lookup_insert_eq. }
  destruct H1 as (E1 & E2 & E3 & E4 & l1 & E5). unfold flock_destroy_nolock, LASSERT.
  rewrite (get_known_flock _ _ _ E5). cbn [mbind run_bind].
  assert (on_flock_resource r1 i = false) as ->.
  { unfold on_flock_resource. rewrite E1, E2, !bool_decide_eq_false_2; [done| |done].
    by intros [? _]%list_elem_of_filter. }
  cbn [negb]. destruct (LDLM_TEST_FLAG _ _); eexists; split; try done. split_and!; try done.
  intros j Hj. rewrite put_flock_ne by done. by apply E4.
Qed.

(** Taking a lock that is not granted off the lists keeps everything in order. *)
Lemma removed_ok r r' i :
  flock_ok nid home exp_failed exp_has_hash r -> removed r r' i -> (i ∉ fr_granted r) ->
  flock_unhashed (fr_hash r) i = true ->
  flock_ok nid home exp_failed exp_has_hash r' /\ same_holdings (held r) (held r').
Proof.
  intros [Hg [Hnd Hw Hu Hsl Hwt]] [E1 E2 E3 E4 _] Hi Hui. pose proof (grants_known _ Hg) as Hk.
  assert (Hs : soft r r') by (apply soft_same; [done|]; intros j Hj; apply E4; by intros ->).
  split; [|by apply soft_holdings]. split; [by eapply grants_soft|].
  apply list.NoDup_app in Hnd as (Hnd1 & Hd & Hnd2). split; rewrite ?E1, ?E2, ?E3; try done.
  - apply list.NoDup_app. split_and!; [done| |by apply NoDup_filter].
    intros j Hj [_ Hj']%list_elem_of_filter. by apply (Hd j).
  - intros j [Hne Hj]%list_elem_of_filter. destruct (Hw j Hj) as (lj & [] & Hm). exists lj. split; [|done].
    split; try done. by rewrite E4.
  - intros w lw Hww. rewrite E4; [by apply Hsl|]. rewrite unhashed_spec in Hui. by apply Hui.
Qed.

(** ** The search for a deadlock *)

Lemma other_process l l' e e' :
  at_home nid home (flock_owner l) -> at_home nid home (flock_owner l') ->
  k_export l = Some e -> k_export l' = Some e' -> flock_owner l <> flock_owner l' ->
  process_of nid e (k_owner l) <> process_of nid e' (k_owner l').
Proof.
  unfold at_home, flock_owner, process_of. cbn. intros (x & E1 & H1) (x' & E2 & H2) E1' E2' Hne [= Hn Ho].
  assert (x = e) as -> by congruence. assert (x' = e') as -> by congruence.
  apply Hne. f_equal; [done|]. congruence.
Qed.

Lemma deadlock_rescan r i l bl :
  flock_ok nid home exp_failed exp_has_hash r -> request nid home r i l ->
  at_home nid home (flock_owner bl) -> flock_owner bl <> flock_owner l ->
  exists b, ldlm_flock_deadlock nid exp_failed exp_has_hash r l bl i = Ret b.
Proof.
  intros [_ Hq] Hr Hb Hne. pose proof (rq_home _ _ _ _ _ Hr) as Hh.
  pose proof Hh as (e & Ee & _). pose proof Hb as (be & Ebe & _). cbn in Ee, Ebe.
  unfold ldlm_flock_deadlock. rewrite Ee, Ebe.
  destruct (deadlock_walk _ _ _ _ _ _ _ _ _ _) as [[b|]|] eqn:E; cbn; [by exists b| |].
  - exfalso. revert E. apply walk_returns.
    + intros w Hw Hi. pose proof (qo_sleepers _ _ _ _ _ Hq w l Hw) as K.
      rewrite Hi in K. specialize (K (rq_lock _ _ _ _ _ Hr)). unfold flock_owner in K. injection K as K1 K2.
      unfold sleeper. rewrite K1. assert (fw_export w = e) as -> by congruence. done.
    + by apply other_process.
  - exfalso. revert E. apply walk_ends. apply (qo_waits _ _ _ _ _ Hq).
Qed.

Lemma unlinked_ok r i l :
  flock_ok nid home exp_failed exp_has_hash r -> request nid home r i l ->
  flock_ok nid home exp_failed exp_has_hash (unlinked r i l)
  /\ flock_unhashed (fr_hash (unlinked r i l)) i = true.
Proof.
  intros [Hg [Hnd Hw Hu Hsl Hwt]] Hr. destruct (unlinked_lists r i l) as (E1 & E2 & E3).
  pose proof (unlinked_hash r i l) as Hs.
  split; [|apply unlinked_unhashed, at_home_export, (rq_home _ _ _ _ _ Hr)].
  split; [by eapply grants_soft; [exact Hg|apply soft_same; [done|]; by rewrite E1]|].
  split; rewrite ?E2, ?E3; try done.
  - intros j Hj. destruct (Hw j Hj) as (lj & [] & Hm). exists lj. split; [|done]. split; try done. by rewrite E1.
  - intros j Hj. eapply unhashed_sub; [exact Hs|by apply Hu].
  - intros w lw Hww. rewrite E1. apply Hsl. by eapply elem_of_sublist.
  - by eapply waits_unlink_ok.
Qed.

Lemma test_lor f g b : LDLM_TEST_FLAG (Z.lor f g) b = LDLM_TEST_FLAG f b || LDLM_TEST_FLAG g b.
Proof.
  unfold LDLM_TEST_FLAG. rewrite Z.land_lor_distr_l.
  destruct (Z.eqb_spec (Z.land f b) 0) as [->|Hf]; cbn [negb orb]; [by rewrite Z.lor_0_l|].
  apply negb_true_iff, Z.eqb_neq. intros K. by apply Z.lor_eq_0_iff in K as [? _].
Qed.

(** A completion is put on the work list. *)
Lemma add_cp_spec r i l work :
  fr_locks r !! i = Some l -> k_cp_ast l = false -> LDLM_TEST_FLAG (k_flags l) LDLM_FL_CP_REQD = false ->
  exists l', flock_add_cp_work_item r i work = Ret (put_flock r i l', i :: work)
    /\ alike l l' /\ cp_due l' /\ k_req_mode l' = k_req_mode l.
Proof.
  intros Hl Hc Hf. unfold flock_add_cp_work_item, LASSERT. rewrite (get_known_flock _ _ _ Hl).
  cbn [mbind run_bind]. rewrite Hf, Hc. cbn [negb]. eexists. split; [done|]. split_and!; try done.
  - split_and!; [done..|]. unfold destroyed, LDLM_SET_FLAG. cbn [k_set_cp k_set_flags k_flags]. rewrite test_lor. by rewrite orb_false_r.
  - unfold cp_due, LDLM_SET_FLAG. cbn [k_set_cp k_set_flags k_flags]. rewrite test_lor. by rewrite orb_true_r.
Qed.

(** A waiting request that would close a circle is cancelled, if its client can be told. *)
Lemma cancel_on_deadlock_spec r i l work :
  request nid home r i l -> (i ∉ fr_granted r) ->
  ldlm_flock_cancel_on_deadlock exp_flock_dead r i work = Ret (r, work)
  \/ exists r', ldlm_flock_cancel_on_deadlock exp_flock_dead r i work = Ret (r', i :: work)
       /\ removed (unlinked r i l) r' i /\ exists l', fr_locks r' !! i = Some l' /\ cp_due l'.
Proof.
  intros [Hl Ha Hp Hm (e & He & _) Hco Hcp Hcr Has] Hi. cbn in He.
  unfold ldlm_flock_cancel_on_deadlock, LASSERT. rewrite (get_known_flock _ _ _ Hl). cbn [mbind run_bind].
  rewrite He. destruct (exp_flock_dead e); [right|by left]. cbn [negb]. rewrite Hco, Has. cbn [negb].
  set (l1 := k_set_flags l _).
  rewrite (unlink_spec _ _ l1) by apply put_flock_eq. cbn [mbind run_bind].
  destruct (add_cp_spec (flock_list_del (unlinked (put_flock r i l1) i l1) i) i l1 work)
    as (l2 & -> & _ & Hd & _).
  - cbn. unfold unlinked. cbn. rewrite He. apply lookup_insert_eq.
  - done.
  - unfold l1. cbn [k_set_flags k_flags]. rewrite test_lor, Hcr. done.
  - eexists. split; [done|]. split.
    2:{ exists l2. split; [apply put_flock_eq|done]. }
    unfold unlinked. cbn [k_set_flags k_export l1]. rewrite He. split; cbn; try done.
    + by rewrite filter_ne_id.
    + intros j Hj. by rewrite !lookup_insert_ne.
    + intros j lj Hj. cbn in Hj. destruct (decide (j = i)) as [->|Hne].
      * exists l2. cbn. rewrite lookup_insert_eq. done.
      * exists lj. cbn. by rewrite !lookup_insert_ne.
Qed.

(** The granted lock [j] is not in the way. *)
Definition passes (r : flock_resource) (l : flock_lock) (j : Z) : Prop :=
  forall lj, fr_locks r !! j = Some lj -> flock_owner lj <> flock_owner l ->
  lockmode_compat (k_granted_mode lj) (k_req_mode l) = true \/ ldlm_flocks_overlap lj l = false.

Lemma passes_clear r l : (forall j, j ∈ fr_granted r -> passes r l j) -> clear r l.
Proof. intros H j lj Hj Hl. by apply (H j Hj lj). Qed.

(** How the conflict check of a waiting request ends. *)
Definition rescan_end (r : flock_resource) (i : Z) (l : flock_lock) (flags : Z) (work q : list Z)
    (failed : bool) (c : run conflict_end) : Prop :=
  (exists own' failed', c = Ret (ConflictPass own' failed') /\ (failed = true -> failed' = true)
     /\ (failed' = false -> forall j, j ∈ q -> passes r l j)
     /\ (failed' = true -> failed = true \/ ~ clear r l))
  \/ (exists r' work', c = Ret (ConflictReturn LDLM_ITER_CONTINUE ELDLM_OK flags r' work')
      /\ ldlm_flock_cancel_on_deadlock exp_flock_dead r i work = Ret (r', work') /\ ~ clear r l).

Lemma rescan_end_cons r i l flags work j q failed failed' c :
  rescan_end r i l flags work q failed' c -> (failed = true -> failed' = true) ->
  (failed' = true -> failed = true \/ ~ clear r l) -> (failed' = false -> passes r l j) ->
  rescan_end r i l flags work (j :: q) failed c.
Proof.
  intros [(o & f & -> & H1 & H2 & H3)|H] K1 K2 K3; [left|by right].
  exists o, f. split_and!; [done|auto| |intros Hf; destruct (H3 Hf); auto].
  intros -> k [->|Hk]%elem_of_cons; [|by apply H2]. apply K3. destruct failed'; [|done]. by specialize (H1 eq_refl).
Qed.

Lemma conflict_rescan r i l flags intention work q : forall own failed,
  intention <> LDLM_PROCESS_ENQUEUE -> flock_ok nid home exp_failed exp_has_hash r ->
  request nid home r i l -> (i ∉ fr_granted r) -> (forall j, j ∈ q -> j ∈ fr_granted r) ->
  rescan_end r i l flags work q failed
    (conflict_loop nid exp_failed exp_has_hash exp_flock_dead q r i (k_req_mode l) flags
       intention work own failed).
Proof.
  induction q as [|j q IH]; intros own failed Hint Hok Hr Hi Hq.
  { left. exists own, failed. split_and!; [done|done| |by left]. by intros _ j ?%elem_of_nil. }
  assert (Hq' : forall k, k ∈ q -> k ∈ fr_granted r) by (intros k ?; apply Hq; by right).
  assert (Hj : j ∈ fr_granted r) by (apply Hq; by left).
  pose proof (fk_grants _ _ _ _ _ Hok) as Hg. destruct (grants_known _ Hg j Hj) as [lj Hlj].
  pose proof (rq_lock _ _ _ _ _ Hr) as Hl. cbn [conflict_loop].
  rewrite (get_known_flock _ _ _ Hl), (get_known_flock _ _ _ Hlj). cbn [mbind run_bind].
  destruct (ldlm_same_flock_owner lj l) eqn:Eo.
  { eapply rescan_end_cons; [by apply IH|done|by left|]. intros _ lk Hlk Hne. exfalso. apply Hne.
    assert (lk = lj) as -> by congruence. by apply same_owner_spec. }
  destruct (lockmode_compat (k_granted_mode lj) (k_req_mode l)) eqn:Ec.
  { eapply rescan_end_cons; [by apply IH|done|by left|]. intros _ lk Hlk _. left.
    by assert (lk = lj) as -> by congruence. }
  destruct (ldlm_flocks_overlap lj l) eqn:Ev; cbn [negb].
  2:{ eapply rescan_end_cons; [by apply IH|done|by left|]. intros _ lk Hlk _. right.
      by assert (lk = lj) as -> by congruence. }
  assert (Hne : flock_owner lj <> flock_owner l) by (intros K%same_owner_spec; congruence).
  assert (Hnc : ~ clear r l) by (intros K; destruct (K j lj Hj Hlj Hne); congruence).
  destruct (granted_owned _ _ _ (go_blocks _ _ _ Hg) Hj Hlj) as (l0 & Hl0 & _ & _ & Hp & _).
  assert (l0 = lj) as -> by congruence.
  assert (Hh : at_home nid home (flock_owner lj)).
  { apply (go_held _ _ _ Hg _ (k_start lj) (k_granted_mode lj)). exists j, lj. unfold proper in Hp. cbn in Hp.
    split_and!; try done; lia. }
  destruct (deadlock_rescan _ _ _ _ Hok Hr Hh Hne) as [b Hb].
  assert (Hcase : rescan_end r i l flags work (j :: q) failed
    (deadlock ← ldlm_flock_deadlock nid exp_failed exp_has_hash r l lj i;
     if (deadlock : bool) then
       rw ← ldlm_flock_cancel_on_deadlock exp_flock_dead r i work;
       Ret (ConflictReturn LDLM_ITER_CONTINUE ELDLM_OK flags rw.1 rw.2)
     else conflict_loop nid exp_failed exp_has_hash exp_flock_dead q r i (k_req_mode l) flags
            intention work own true)).
  { rewrite Hb. cbn [mbind run_bind]. destruct b.
    - right. destruct (cancel_on_deadlock_spec r i l work Hr Hi) as [->|(r' & -> & _)]; cbn; eauto.
    - eapply rescan_end_cons; [by apply IH|done|by right|done]. }
  by destruct intention.
Qed.

(** ** Reprocessing a waiting request *)

(** The conflict check decides. *)
Lemma process_conflict reprocess alloc srv r i l flags intention work c :
  fr_locks r !! i = Some l -> flags <> LDLM_FL_WAIT_NOREPROC -> k_req_mode l <> LCK_NL ->
  lockmode_verify (k_req_mode l) = true ->
  conflict_loop nid exp_failed exp_has_hash exp_flock_dead (fr_granted r) r i (k_req_mode l) flags
    intention work None false = Ret c ->
  (forall own, c <> ConflictPass own false) ->
  process_flock nid exp_failed exp_has_hash exp_flock_dead reprocess alloc srv r i flags intention work
  = match c with
    | ConflictReturn rc err flags r work => Ret (rc, err, flags, r, work)
    | ConflictPass _ _ => Ret (LDLM_ITER_CONTINUE, ELDLM_OK, flags, r, work)
    end.
Proof.
  intros Hl Hf Hn Hv Hc Hne. unfold process_flock. rewrite (get_known_flock _ _ _ Hl). cbn [mbind run_bind].
  unfold flock_pass, LASSERT. cbn [ms_res]. rewrite (proj2 (Z.eqb_neq _ _) Hf), (proj2 (Z.eqb_neq _ _) Hn).
  cbn [orb]. rewrite Hv, Hc. cbn [mbind run_bind]. destruct c as [|own [|]]; [done|done|].
  by destruct (Hne own).
Qed.

(** What an operation does to the rest of the resource. *)
Record after (used : option Z) (r r' : flock_resource) : Prop := {
  af_ok : flock_ok nid home exp_failed exp_has_hash r';
  af_grows : grows r r';
  af_outside : forall j l, fr_locks r !! j = Some l -> (j ∉ fr_granted r) -> (j ∉ fr_waiting r) ->
                 fr_locks r' !! j = Some l /\ (j ∉ fr_granted r') /\ (j ∉ fr_waiting r');
  af_waiting : fr_waiting r' `sublist_of` fr_waiting r;
  af_hash : fr_hash r' `sublist_of` fr_hash r;
  af_fresh : forall n, used <> Some n -> fresh r n -> fresh r' n
}.

Lemma after_refl used r : flock_ok nid home exp_failed exp_has_hash r -> after used r r.
Proof. intros H. split; try done. Qed.

(** A request that waits is removed. *)
Lemma removed_after used r r' i l :
  flock_ok nid home exp_failed exp_has_hash r -> request nid home r i l -> (i ∈ fr_waiting r) ->
  removed (unlinked r i l) r' i -> after used r r' /\ same_holdings (held r) (held r').
Proof.
  intros Hok Hr Hi Hrm. destruct (unlinked_ok _ _ _ Hok Hr) as [Hok1 Hu1].
  pose proof (fk_queues _ _ _ _ _ Hok) as Hq. pose proof (qo_nodup _ _ _ _ _ Hq) as Hnd.
  apply list.NoDup_app in Hnd as (_ & Hd & _).
  assert (Hig : i ∉ fr_granted r) by (intros K; by apply (Hd i)).
  destruct (unlinked_lists r i l) as (E1 & E2 & E3).
  destruct (removed_ok _ _ _ Hok1 Hrm) as [Hok' Hh]; [by rewrite E2|done|].
  assert (Hh0 : same_holdings (held r) (held (unlinked r i l))).
  { intros ow b m. unfold held. by rewrite E1, E2. }
  split; [|intros ow b m; rewrite (Hh ow b m); apply Hh0].
  destruct Hrm as [R1 R2 R3 R4 R5]. split; rewrite ?R1, ?R2, ?R3, ?E2, ?E3; try done.
  - etrans; [|exact R5]. by apply grows_same.
  - intros j lj Hj Hjg Hjw. assert (j <> i) by (by intros ->). rewrite R4, E1 by done. split_and!; try done.
    by intros [_ ?]%list_elem_of_filter.
  - apply sublist_filter.
  - apply unlinked_hash.
  - intros n _ [F1 F2 F3]. assert (n <> i) by (intros ->; by rewrite (rq_lock _ _ _ _ _ Hr) in F1).
    split; rewrite ?R2, ?R3, ?E3.
    + by rewrite R4, E1.
    + eapply unhashed_sub; [apply unlinked_hash|done].
    + by intros [_ ?]%list_elem_of_filter.
Qed.

Lemma base_grows r i l new2 r0 : base_of r i l new2 r0 -> grows r r0.
Proof.
  destruct (unlinked_lists r i l) as (E1 & _). destruct new2 as [n|]; cbn.
  - intros ([Hn _ _] & l2 & ->). etrans; [by apply (grows_same r (unlinked r i l))|].
    apply grows_fresh. by rewrite E1.
  - intros ->. by apply grows_same.
Qed.

(** A waiting request is granted. *)
Lemma regranted_after r i l new2 r0 r3 r4 added :
  flock_ok nid home exp_failed exp_has_hash r -> request nid home r i l -> (i ∈ fr_waiting r) ->
  may l (held r) -> base_of r i l new2 r0 -> regranted new2 r0 r3 i l added ->
  soft r3 r4 -> grows r3 r4 -> fr_waiting r4 = base.filter (fun j => j <> i) (fr_waiting r) ->
  fr_hash r4 = fr_hash r3 -> (forall j, j <> i -> fr_locks r4 !! j = fr_locks r3 !! j) ->
  after new2 r r4 /\ asks l (held r) (held r4).
Proof.
  intros Hok Hr Hi Hm Hb Hrt Hs Hgr Hw Hh Hl4. pose proof (fk_queues _ _ _ _ _ Hok) as Hq.
  pose proof (qo_nodup _ _ _ _ _ Hq) as Hnd. apply list.NoDup_app in Hnd as (_ & Hd & _).
  assert (Hig : i ∉ fr_granted r) by (intros K; by apply (Hd i)).
  pose proof (fk_grants _ _ _ _ _ Hok) as Hg. pose proof (grants_known _ Hg) as Hk.
  destruct (regranted_grants _ _ _ _ _ _ _ Hg Hr Hm Hb Hrt) as [Hg3 Has].
  pose proof (soft_holdings _ _ Hs (grants_known _ Hg3)) as Hsame.
  pose proof (regranted_queues _ _ _ _ _ _ _ _ Hok Hr Hig Hb Hrt (proj1 Hs) Hw Hh Hl4) as Hq4.
  split.
  2:{ intros ow b m. rewrite (Hsame ow b m). apply Has. }
  destruct (base_soft _ _ _ _ _ Hk Hb) as ([Hg0 _] & Hw0 & Hh0 & Hl0). pose proof (proj1 Hs) as Hg4.
  pose proof Hrt as [_ _ Hoth _ Hh3 _ Hgr3 _ Hgrow3]. rewrite Hg0 in *.
  assert (Hn2 : forall n, new2 = Some n -> fr_locks r !! n = None).
  { intros n ->. by destruct Hb as ([? _ _] & _). }
  split.
  - split; [|done]. by eapply grants_soft.
  - etrans; [by eapply base_grows|]. by etrans.
  - intros j lj Hj Hjg Hjw. assert (Hji : j <> i) by (by intros ->).
    assert (Hjn : new2 <> Some j) by (intros K; apply Hn2 in K; congruence).
    rewrite Hl4, Hoth, Hl0 by done. rewrite Hg4, Hw. split_and!; [done| |by intros [_ ?]%list_elem_of_filter].
    intros K. destruct (Hgr3 j K) as [?|[[? _]|?]]; done.
  - rewrite Hw. apply sublist_filter.
  - rewrite Hh, Hh3, Hh0. apply unlinked_hash.
  - intros n Hn [F1 F2 F3]. assert (Hni : n <> i) by (intros ->; by rewrite (rq_lock _ _ _ _ _ Hr) in F1).
    split.
    + rewrite Hl4, Hoth, Hl0; try done. intros K. destruct (Hk n K). congruence.
    + rewrite Hh, Hh3, Hh0. eapply unhashed_sub; [apply unlinked_hash|done].
    + rewrite Hw. by intros [_ ?]%list_elem_of_filter.
Qed.

Lemma finish_rescan reprocess i l flags intention new2 r0 r3 added ov work :
  flags <> LDLM_FL_WAIT_NOREPROC -> intention <> LDLM_PROCESS_ENQUEUE ->
  k_completion_ast l = true -> k_cp_ast l = false ->
  LDLM_TEST_FLAG (k_flags l) LDLM_FL_CP_REQD = false ->
  regranted new2 r0 r3 i l added -> (i ∉ fr_granted r0) -> new2 <> Some i ->
  flock_unhashed (fr_hash r0) i = true ->
  exists r4, flock_finish reprocess i (k_req_mode l) flags intention work added ov r3
             = Ret (PassReturn LDLM_ITER_CONTINUE ELDLM_OK flags r4 (i :: work))
    /\ soft r3 r4 /\ grows r3 r4 /\ fr_waiting r4 = base.filter (fun j => j <> i) (fr_waiting r0)
    /\ fr_hash r4 = fr_hash r3 /\ (forall j, j <> i -> fr_locks r4 !! j = fr_locks r3 !! j)
    /\ exists l4, fr_locks r4 !! i = Some l4 /\ cp_due l4.
Proof.
  intros Hf Hint Hco Hcp Hcr Hrt Hi Hn Hu. destruct (rt_lock _ _ _ _ _ _ Hrt) as (s & e & Hi3).
  set (l3 := k_set_granted_mode _ _) in Hi3.
  destruct (add_cp_spec r3 i l3 work Hi3 Hcp Hcr) as (l4 & Hadd & Hal & Hdue & _).
  assert (Hfin : flock_finish reprocess i (k_req_mode l) flags intention work added ov r3
    = (r ← (if added then ldlm_flock_destroy (put_flock r3 i l4) i flags else Ret (put_flock r3 i l4));
       Ret (PassReturn LDLM_ITER_CONTINUE ELDLM_OK flags r (i :: work)))).
  { unfold flock_finish. rewrite (proj2 (Z.eqb_neq _ _) Hf), (get_known_flock _ _ _ Hi3).
    cbn [mbind run_bind]. unfold LASSERT. change (k_completion_ast l3) with (k_completion_ast l).
    rewrite Hco, Hadd. by destruct intention. }
  rewrite Hfin. assert (Hs4 : soft r3 (put_flock r3 i l4)).
  { split; [done|]. intros j lj Hj Hlj. destruct (decide (j = i)) as [->|Hne].
    - exists l4. split; [apply put_flock_eq|]. by assert (lj = l3) as -> by congruence.
    - exists lj. by rewrite put_flock_ne. }
  assert (Hg4 : grows r3 (put_flock r3 i l4)) by (by eapply grows_put).
  pose proof (rt_waiting _ _ _ _ _ _ Hrt) as Hw3. destruct added; cbn [mbind run_bind].
  - assert (Hi3g : i ∉ fr_granted r3).
    { intros K. by destruct (rt_granted _ _ _ _ _ _ Hrt i K) as [?|[[_ ?]|?]]. }
    destruct (destroy_off (put_flock r3 i l4) i l4 flags) as (r5 & Hd & [R1 R2 R3 R4 R5]).
    + apply put_flock_eq.
    + done.
    + cbn. by rewrite (rt_hash _ _ _ _ _ _ Hrt).
    + rewrite Hd. cbn [mbind run_bind]. exists r5. split_and!; try done.
      * eapply soft_trans; [exact Hs4|]. apply soft_same; [done|]. intros j Hj. apply R4. by intros ->.
      * by etrans.
      * rewrite R2. cbn. by rewrite Hw3.
      * intros j Hj. rewrite R4 by done. by apply put_flock_ne.
      * destruct (R5 i l4 (put_flock_eq _ _ _)) as (l5 & Hl5 & K). exists l5. auto.
  - eexists. split_and!; try done.
    + intros j Hj. by apply put_flock_ne.
    + exists l4. split; [apply put_flock_eq|done].
Qed.

Lemma ok_ready r i l :
  flock_ok nid home exp_failed exp_has_hash r -> request nid home r i l -> (i ∉ fr_granted r) ->
  exists front mine post, ready r i l front mine post.
Proof.
  intros [Hg [Hnd _ Hu _ _]] [Hl Ha Hp _ _ _ _ _ _] Hi.
  destruct (go_blocks _ _ _ Hg (flock_owner l)) as (f & m & p & Hb).
  destruct m as [|j m].
  - exists (fr_granted r), [], []. apply block_nil in Hb. by split.
  - exists f, (j :: m), p. by split.
Qed.

Lemma base_hash r i l new2 r0 :
  request nid home r i l -> known r (fr_granted r) -> base_of r i l new2 r0 ->
  flock_unhashed (fr_hash r0) i = true /\ new2 <> Some i /\ fr_granted r0 = fr_granted r
  /\ fr_waiting r0 = fr_waiting r.
Proof.
  intros Hr Hk Hb. destruct (base_soft _ _ _ _ _ Hk Hb) as ([Hg0 _] & Hw0 & Hh0 & _). split_and!; try done.
  - rewrite Hh0. apply unlinked_unhashed, at_home_export, (rq_home _ _ _ _ _ Hr).
  - intros ->. destruct Hb as ([K _ _] & _). by rewrite (rq_lock _ _ _ _ _ Hr) in K.
Qed.

(** The outcome of looking at a waiting request again. *)
Definition rescanned (alloc : Z + Z) (r : flock_resource) (i : Z)
    (p : run (Z * Z * Z * flock_resource * list Z)) : Prop :=
  exists rc err r' work l used,
    p = Ret (rc, err, 0, r', work)
    /\ request nid home r i l /\ after used r r' /\ (forall n, used = Some n -> alloc = inl n)
    /\ (forall j, j <> i -> j ∈ fr_waiting r -> j ∈ fr_waiting r') /\ (work = [] \/ work = [i])
    /\ (forall j, j ∈ work -> (j ∉ fr_waiting r') /\ exists lj, fr_locks r' !! j = Some lj /\ cp_due lj)
    /\ ((may l (held r) /\ rc = LDLM_ITER_CONTINUE /\ (i ∉ fr_waiting r') /\ asks l (held r) (held r'))
        \/ (same_holdings (held r) (held r')
            /\ ((rc = LDLM_ITER_CONTINUE /\ ~ may l (held r)) \/ exists e, alloc = inr e))).

Lemma rescan_clear reprocess alloc r i l :
  flock_ok nid home exp_failed exp_has_hash r -> (i ∈ fr_waiting r) -> request nid home r i l ->
  (forall n, alloc = inl n -> fresh r n) -> clear r l ->
  rescanned alloc r i (process_flock nid exp_failed exp_has_hash exp_flock_dead reprocess alloc true r i 0
                         LDLM_PROCESS_RESCAN []).
Proof.
  intros Hok Hi Hr Hal Hc. pose proof (fk_queues _ _ _ _ _ Hok) as Hq. pose proof (qo_nodup _ _ _ _ _ Hq) as Hnd.
  apply list.NoDup_app in Hnd as (_ & Hd & _).
  assert (Hig : i ∉ fr_granted r) by (intros K; by apply (Hd i)).
  pose proof (fk_grants _ _ _ _ _ Hok) as Hg. pose proof (grants_known _ Hg) as Hk.
  assert (Hmay : may l (held r)) by by apply clear_allowed.
  pose proof Hr as [Hl _ _ Hmd _ Hco Hcp Hcr _].
  destruct (ok_ready _ _ _ Hok Hr Hig) as (f & m & p & Hrd).
  destruct (process_grants nid exp_failed exp_has_hash exp_flock_dead reprocess alloc true r i l f m p 0
              LDLM_PROCESS_RESCAN [] Hrd (flock_modes_sub _ Hmd) eq_refl ltac:(by right; right) Hal)
    as [(new2 & r0 & r3 & added & ov & -> & Hb & Hn & Hrt & _)|(err & Hae & _ & ->)].
  - destruct (base_hash _ _ _ _ _ Hr Hk Hb) as (Hu & Hni & Hg0 & Hw0).
    destruct (finish_rescan reprocess i l 0 LDLM_PROCESS_RESCAN new2 r0 r3 added ov []) as
      (r4 & -> & Hs & Hgr & Hw4 & Hh4 & Hl4 & l4 & Hi4 & Hdue); try done; [by rewrite Hg0|].
    rewrite Hw0 in Hw4.
    destruct (regranted_after _ _ _ _ _ _ _ _ Hok Hr Hi Hmay Hb Hrt Hs Hgr Hw4 Hh4 Hl4) as [Haf Has].
    assert (Hiw : i ∉ fr_waiting r4) by (rewrite Hw4; by intros [? _]%list_elem_of_filter).
    exists LDLM_ITER_CONTINUE, ELDLM_OK, r4, [i], l, new2. split_and!; try done; [|by right| |by left].
    + intros j Hj Hjw. rewrite Hw4. by apply list_elem_of_filter.
    + intros j ->%list_elem_of_singleton. split; [done|]. by exists l4.
  - destruct (unlinked_ok _ _ _ Hok Hr) as [_ Hu1]. destruct (unlinked_lists r i l) as (E1 & E2 & _).
    destruct (destroy_off (unlinked r i l) i l 0) as (r' & -> & Hrm); [by rewrite E1|by rewrite E2|done|].
    destruct (removed_after None _ _ _ _ Hok Hr Hi Hrm) as [Haf Hsame].
    exists LDLM_ITER_STOP, err, r', [], l, None. split_and!; try done; [|by left|by intros j ?%elem_of_nil|].
    + intros j Hj Hjw. rewrite (rm_waiting _ _ _ Hrm), (proj2 (proj2 (unlinked_lists r i l))).
      by apply list_elem_of_filter.
    + right. split; [done|]. right. by exists err.
Qed.

(** A waiting request is looked at again. *)
Lemma rescan_one reprocess alloc r i :
  flock_ok nid home exp_failed exp_has_hash r -> (i ∈ fr_waiting r) ->
  (forall n, alloc = inl n -> fresh r n) ->
  rescanned alloc r i (process_flock nid exp_failed exp_has_hash exp_flock_dead reprocess alloc true r i 0
                         LDLM_PROCESS_RESCAN []).
Proof.
  intros Hok Hi Hal. pose proof (fk_queues _ _ _ _ _ Hok) as Hq.
  destruct (qo_waiting _ _ _ _ _ Hq i Hi) as (l & Hr & Hm). pose proof (qo_nodup _ _ _ _ _ Hq) as Hnd.
  apply list.NoDup_app in Hnd as (_ & Hd & _).
  assert (Hig : i ∉ fr_granted r) by (intros K; by apply (Hd i)).
  pose proof Hr as [Hl _ Hp Hmd _ _ _ _ _]. pose proof (fk_grants _ _ _ _ _ Hok) as Hg.
  assert (Hnm : ~ clear r l -> ~ may l (held r)).
  { intros K K'. apply K. apply allowed_clear; [apply (go_blocks _ _ _ Hg)|lia|done]. }
  assert (H0 : 0 <> LDLM_FL_WAIT_NOREPROC) by done.
  pose proof (fun c => process_conflict reprocess alloc true r i l 0 LDLM_PROCESS_RESCAN [] c Hl
                H0 Hm (lockmode_verify_modes _ (flock_modes_sub _ Hmd))) as Hproc.
  destruct (conflict_rescan r i l 0 LDLM_PROCESS_RESCAN [] (fr_granted r) None false)
    as [(own' & failed' & Hc & _ & H1 & H2)|(r' & work' & Hc & Hcan & Hnc)]; try done.
  - destruct failed'; [|by apply (rescan_clear _ _ _ _ l); [..|apply passes_clear; auto]].
    rewrite (Hproc _ Hc) by done. exists LDLM_ITER_CONTINUE, ELDLM_OK, r, [], l, None.
    split_and!; try done; [by left|by intros j ?%elem_of_nil|].
    right. split; [done|]. left. split; [done|]. destruct (H2 eq_refl); [done|auto].
  - rewrite (Hproc _ Hc) by done.
    destruct (cancel_on_deadlock_spec r i l [] Hr Hig) as [K|(r1 & K & Hrm & l1 & Hl1 & Hdue)];
      rewrite K in Hcan; injection Hcan as <- <-.
    + exists LDLM_ITER_CONTINUE, ELDLM_OK, r, [], l, None. split_and!; try done; [by left|by intros j ?%elem_of_nil|].
      right. split; [done|]. left. auto.
    + destruct (removed_after None _ _ _ _ Hok Hr Hi Hrm) as [Haf Hsame].
      exists LDLM_ITER_CONTINUE, ELDLM_OK, r1, [i], l, None. split_and!; try done.
      * intros j Hj Hjw. rewrite (rm_waiting _ _ _ Hrm), (proj2 (proj2 (unlinked_lists r i l))).
        by apply list_elem_of_filter.
      * by right.
      * intros j ->%list_elem_of_singleton. split; [|by exists l1]. rewrite (rm_waiting _ _ _ Hrm).
        by intros [? _]%list_elem_of_filter.
      * right. split; [done|]. left. auto.
Qed.
End Reach.
