(* ===== verification/FlockOps.v ===== *)
(** Reprocessing the waiting list, unlocking, enqueueing and cancelling POSIX locks
    (lustre/ldlm/ldlm_flock.c, lustre/ldlm/ldlm_lock.c). *)

From stdpp Require Import gmap.
From S2P Require Import Prelude LdlmLock LdlmExtent LdlmSafe LdlmServer LdlmReach LdlmProps LdlmFlock.
From S2P Require Import FlockRange FlockMerge FlockWait FlockSystem FlockPass FlockProcess FlockReach.

(** The flags of a request the server sees for the first time. *)
Definition first_enqueue (flags : Z) : Prop :=
  flags <> LDLM_FL_WAIT_NOREPROC /\ LDLM_TEST_FLAG flags LDLM_FL_REPLAY = false
  /\ LDLM_TEST_FLAG flags LDLM_FL_RESENT = false.

Section Ops.
Context (nid : Z -> Z) (exp_failed exp_has_hash exp_flock_dead : Z -> bool) (home : Z -> Z -> Z).

(** ** Work lists *)

(** The completions of a work list are due. *)
Definition work_due (r : flock_resource) (work : list Z) : Prop :=
  NoDup work /\ forall j, j ∈ work -> (j ∉ fr_waiting r) /\ exists l, fr_locks r !! j = Some l /\ cp_due l.

(** What a number of operations do to the rest of the resource. *)
Record later (r r' : flock_resource) : Prop := {
  lt_ok : flock_ok nid home exp_failed exp_has_hash r';
  lt_run : posix_run (held r) (held r');
  lt_outside : forall j l, fr_locks r !! j = Some l -> (j ∉ fr_granted r) -> (j ∉ fr_waiting r) ->
                 (exists l', fr_locks r' !! j = Some l') /\ (j ∉ fr_granted r') /\ (j ∉ fr_waiting r');
  lt_waiting : fr_waiting r' `sublist_of` fr_waiting r;
  lt_hash : fr_hash r' `sublist_of` fr_hash r
}.

Lemma later_refl r : flock_ok nid home exp_failed exp_has_hash r -> later r r.
Proof. intros H. split; try done; [by apply posix_same|]. intros j l Hl. eauto. Qed.

Lemma later_trans r r' r'' : later r r' -> later r' r'' -> later r r''.
Proof.
  intros [A1 A2 A3 A4 A5] [B1 B2 B3 B4 B5]. split; [done|by eapply posix_run_trans| |by etrans|by etrans].
  intros j l Hl Hg Hw. destruct (A3 j l Hl Hg Hw) as ([l' Hl'] & Hg' & Hw'). by eapply B3.
Qed.

(** ** The waiting list *)

(** The numbers of the locks that are made: unused, and different for each request. *)
Definition alloc_ok (alloc : Z -> Z + Z) (q : list Z) (r : flock_resource) : Prop :=
  (forall i n, i ∈ q -> alloc i = inl n -> fresh r n)
  /\ (forall i j n, alloc i = inl n -> alloc j = inl n -> i = j).

Lemma reprocess_loop_spec alloc q : forall r work,
  flock_ok nid home exp_failed exp_has_hash r -> NoDup q -> (forall i, i ∈ q -> i ∈ fr_waiting r) ->
  alloc_ok alloc q r -> work_due r work ->
  exists r' work', flock_reprocess_loop nid exp_failed exp_has_hash exp_flock_dead alloc q r work
                   = Ret (r', work') /\ later r r' /\ work_due r' work'.
Proof.
  induction q as [|i q IH]; intros r work Hok Hnd Hq [Hal Hinj] Hwk; cbn [flock_reprocess_loop].
  { exists r, work. split_and!; try done. by apply later_refl. }
  inversion Hnd as [|? ? Hiq Hnd']; subst. assert (Hi : i ∈ fr_waiting r) by (apply Hq; by left).
  destruct (rescan_one nid exp_failed exp_has_hash exp_flock_dead home Ret (alloc i) r i Hok Hi)
    as (rc & err & r' & work' & l & used & -> & Hr & Haf & Hus & Hstay & Hw' & Hdue & Hout).
  { intros n Hn. by apply (Hal i n); [left|]. }
  cbn [mbind run_bind]. pose proof Haf as [Hok' Hgr Hoth Hws Hhs Hfr].
  assert (Hl1 : later r r').
  { split; try done.
    - destruct Hout as [(Hm & _ & _ & Ha)|[Hs _]]; [|by apply posix_same].
      by eapply posix_step; [by apply posix_same|exact Hm|exact Ha].
    - intros j lj Hj Hjg Hjw. destruct (Hoth j lj Hj Hjg Hjw) as (K1 & K2 & K3). eauto. }
  assert (Hwk' : work_due r' (work' ++ work)).
  { destruct Hwk as [Hn Hwk]. split.
    - destruct Hw' as [->| ->]; [done|]. cbn. constructor; [|done]. intros K. by destruct (Hwk i K).
    - intros j [Hj|Hj]%elem_of_app; [by apply Hdue|]. destruct (Hwk j Hj) as (K1 & lj & Hlj & K2). split.
      + intros K. apply K1. by eapply elem_of_sublist.
      + destruct (Hgr j lj Hlj) as (lj' & ? & ?). eauto. }
  destruct (rc =? LDLM_ITER_CONTINUE); [|by exists r', (work' ++ work)].
  destruct (IH r' (work' ++ work)) as (r'' & work'' & -> & Hl2 & Hwk''); try done.
  - intros k Hk. apply Hstay; [by intros ->|]. apply Hq. by right.
  - split; [|done]. intros k n Hk Hn. apply Hfr; [|by apply (Hal k n); [right|]].
    intros K. apply Hus in K. by assert (i = k) as -> by (by eapply Hinj).
  - exists r'', work''. split_and!; try done. by eapply later_trans.
Qed.

(** A lock that does not wait gets other flags. *)
Lemma relock_later r i l l' :
  flock_ok nid home exp_failed exp_has_hash r -> fr_locks r !! i = Some l -> (i ∉ fr_waiting r) ->
  alike l l' -> later r (put_flock r i l').
Proof.
  intros [Hg [Hnd Hw Hu Hsl Hwt]] Hl Hi Ha. pose proof (grants_known _ _ _ Hg) as Hk.
  assert (Hs : soft r (put_flock r i l')).
  { split; [done|]. intros j lj Hj Hlj. destruct (decide (j = i)) as [->|Hne].
    - exists l'. split; [apply put_flock_eq|]. by assert (lj = l) as -> by congruence.
    - exists lj. by rewrite put_flock_ne. }
  split; try done.
  - split; [by eapply grants_soft|]. split; try done.
    + intros j Hj. destruct (Hw j Hj) as (lj & [] & Hm). exists lj. split; [|done]. split; try done.
      rewrite put_flock_ne; [done|]. by intros ->.
    + intros w lw Hww Hlw. destruct (decide (fw_lock w = i)) as [E|Hne].
      * rewrite E, put_flock_eq in Hlw. injection Hlw as <-. rewrite (proj1 Ha). apply Hsl; [done|by rewrite E].
      * rewrite put_flock_ne in Hlw by done. by apply Hsl.
  - apply posix_same. by apply soft_holdings.
  - intros j lj Hj Hjg Hjw. split; [|done]. destruct (decide (j = i)) as [->|Hne]; [eexists; apply put_flock_eq|].
    exists lj. by rewrite put_flock_ne.
Qed.

Lemma run_cp_spec work : forall r,
  flock_ok nid home exp_failed exp_has_hash r -> work_due r work ->
  exists r', flock_run_cp_work work r = Ret r' /\ later r r'.
Proof.
  induction work as [|i work IH]; intros r Hok [Hnd Hdue]; cbn [flock_run_cp_work].
  { exists r. split; [done|by apply later_refl]. }
  inversion Hnd as [|? ? Hi Hnd']; subst. destruct (Hdue i) as (Hiw & l & Hl & Hc); [by left|].
  unfold flock_work_cp_ast_lock, LASSERT. rewrite (get_known_flock _ _ _ Hl). cbn [mbind run_bind].
  change (LDLM_TEST_FLAG (k_flags (k_set_cp l false)) LDLM_FL_CP_REQD)
    with (LDLM_TEST_FLAG (k_flags l) LDLM_FL_CP_REQD). unfold cp_due in Hc. rewrite Hc.
  set (l' := k_set_flags _ _).
  assert (Ha : alike l l').
  { split_and!; [done|done|]. unfold destroyed, l'. cbn [k_set_flags k_set_cp k_flags]. by apply test_clear_flag. }
  pose proof (relock_later r i l l' Hok Hl Hiw Ha) as Hl1. cbn [mbind run_bind].
  destruct (IH (put_flock r i l')) as (r' & -> & Hl2); [apply (lt_ok _ _ Hl1)| |].
  - split; [done|]. intros j Hj. destruct (Hdue j) as (K1 & lj & Hlj & K2); [by right|]. split; [done|].
    exists lj. rewrite put_flock_ne; [done|]. by intros ->.
  - exists r'. split; [done|]. by eapply later_trans.
Qed.

(** What an unlock does with the waiting list. *)
Lemma unlock_reprocess_spec alloc r :
  flock_ok nid home exp_failed exp_has_hash r -> alloc_ok alloc (fr_waiting r) r ->
  exists r', flock_unlock_reprocess nid exp_failed exp_has_hash exp_flock_dead alloc r = Ret r' /\ later r r'.
Proof.
  intros Hok Hal. pose proof (qo_nodup _ _ _ _ _ (fk_queues _ _ _ _ _ Hok)) as Hnd.
  apply list.NoDup_app in Hnd as (_ & _ & Hnd). unfold flock_unlock_reprocess, flock_reprocess_queue.
  destruct (reprocess_loop_spec alloc (fr_waiting r) r []) as (r1 & work & -> & Hl1 & Hwk); try done.
  { split; [constructor|]. by intros j ?%elem_of_nil. }
  cbn [mbind run_bind fst snd]. destruct (run_cp_spec work r1) as (r2 & -> & Hl2); [apply (lt_ok _ _ Hl1)|done|].
  exists r2. split; [done|]. by eapply later_trans.
Qed.

(** ** New requests *)

(** A lock that is on no list. *)
Definition idle (r : flock_resource) (i : Z) : Prop :=
  (i ∉ fr_granted r) /\ (i ∉ fr_waiting r) /\ flock_unhashed (fr_hash r) i = true.

Lemma put_idle_ok r i l :
  flock_ok nid home exp_failed exp_has_hash r -> idle r i ->
  flock_ok nid home exp_failed exp_has_hash (put_flock r i l)
  /\ same_holdings (held r) (held (put_flock r i l)).
Proof.
  intros [Hg [Hnd Hw Hu Hsl Hwt]] (Hig & Hiw & Hiu).
  assert (Hs : soft r (put_flock r i l)).
  { apply soft_same; [done|]. intros j Hj. apply put_flock_ne. by intros ->. }
  split; [|apply soft_holdings; [done|by eapply grants_known]]. split; [by eapply grants_soft|]. split; try done.
  - intros j Hj. destruct (Hw j Hj) as (lj & [] & Hm). exists lj. split; [|done]. split; try done.
    rewrite put_flock_ne; [done|]. by intros ->.
  - intros w lw Hww. rewrite put_flock_ne; [by apply Hsl|]. rewrite unhashed_spec in Hiu. by apply Hiu.
Qed.

Lemma destroy_idle r i l flags :
  flock_ok nid home exp_failed exp_has_hash r -> idle r i -> fr_locks r !! i = Some l ->
  exists r' l', ldlm_flock_destroy r i flags = Ret r' /\ fr_locks r' !! i = Some l'
    /\ flock_ok nid home exp_failed exp_has_hash r' /\ same_holdings (held r) (held r') /\ idle r' i.
Proof.
  intros Hok (Hig & Hiw & Hiu) Hl. destruct (destroy_off r i l flags Hl Hig Hiu) as (r' & Hd & Hrm).
  destruct (removed_ok nid exp_failed exp_has_hash home _ _ _ Hok Hrm Hig Hiu) as [Hok' Hs].
  destruct (rm_grows _ _ _ Hrm i l Hl) as (l' & Hl' & _). exists r', l'. split_and!; try done.
  destruct Hrm as [E1 E2 E3 _ _]. unfold idle. rewrite E1, E2, E3. split_and!; try done.
  by intros [? _]%list_elem_of_filter.
Qed.

(** The request waits, and is known to wait for [bl]. *)
Definition waiting_on (r : flock_resource) (i : Z) (w : flock_wait) : flock_resource :=
  fr_set_waiting (fr_set_hash r (w :: fr_hash r)) (fr_waiting r ++ [i]).

Lemma waiting_on_ok r i l w :
  flock_ok nid home exp_failed exp_has_hash r -> idle r i -> request nid home r i l ->
  k_req_mode l <> LCK_NL -> fw_lock w = i -> flock_owner l = (fw_owner w, Some (fw_export w)) ->
  waits_ok nid exp_failed exp_has_hash (w :: fr_hash r) ->
  flock_ok nid home exp_failed exp_has_hash (waiting_on r i w)
  /\ same_holdings (held r) (held (waiting_on r i w)).
Proof.
  intros [Hg [Hnd Hw Hu Hsl Hwt]] (Hig & Hiw & Hiu) Hr Hm Hwi Hwo Hwt'.
  assert (Hs : soft r (waiting_on r i w)) by by apply soft_same.
  split; [|apply soft_holdings; [done|by eapply grants_known]]. split; [by eapply grants_soft|]. split; cbn; try done.
  - rewrite app_assoc. apply list.NoDup_app. split_and!; [done| |apply NoDup_singleton].
    intros j Hj ->%list_elem_of_singleton. rewrite elem_of_app in Hj. tauto.
  - intros j [Hj|Hj]%elem_of_app.
    + destruct (Hw j Hj) as (lj & [] & Hmj). exists lj. split; [|done]. by split.
    + apply list_elem_of_singleton in Hj as ->. exists l. split; [|done]. destruct Hr. by split.
  - intros j Hj. pose proof (Hu j Hj) as K. rewrite unhashed_spec in K |- *.
    intros v [->|Hv]%elem_of_cons; [|by apply K]. rewrite Hwi. by intros ->.
  - intros v lv [->|Hv]%elem_of_cons; [|by apply Hsl]. rewrite Hwi, (rq_lock _ _ _ _ _ Hr). by intros [= <-].
Qed.

(** ** The first conflict of an enqueue *)

(** What is done about the granted lock [lj], whose number is [j]. *)
Definition enqueue_conflict (r : flock_resource) (i flags : Z) (l lj : flock_lock) (j : Z) (work : list Z)
    : run conflict_end :=
  if LDLM_TEST_FLAG flags LDLM_FL_BLOCK_NOWAIT then
    r ← ldlm_flock_destroy r i flags;
    Ret (ConflictReturn LDLM_ITER_STOP (- EAGAIN) flags r work)
  else if LDLM_TEST_FLAG flags LDLM_FL_TEST_LOCK then
    r ← ldlm_flock_destroy r i flags;
    rl ← get_flock r i;
    Ret (ConflictReturn LDLM_ITER_STOP ELDLM_OK (Z.lor flags LDLM_FL_LOCK_CHANGED)
           (put_flock r i (FlockLock (k_owner rl) (k_export rl) (k_pid lj) (k_start lj) (k_end lj)
              (k_granted_mode lj) (k_granted_mode rl) (k_flags rl) (k_completion_ast rl) (k_cp_ast rl)))
           work)
  else
    r ← ldlm_flock_blocking_link r i j;
    deadlock ← ldlm_flock_deadlock nid exp_failed exp_has_hash r l lj i;
    if (deadlock : bool) then
      r ← ldlm_flock_blocking_unlink r i;
      r ← ldlm_flock_destroy r i flags;
      Ret (ConflictReturn LDLM_ITER_STOP (- EDEADLK) flags r work)
    else
      r ← flock_add_waiting r i;
      Ret (ConflictReturn LDLM_ITER_STOP ELDLM_OK (Z.lor flags LDLM_FL_BLOCK_GRANTED) r work).

(** A granted lock that is in the way of a request. *)
Definition in_way (lj l : flock_lock) : Prop :=
  flock_owner lj <> flock_owner l /\ lockmode_compat (k_granted_mode lj) (k_req_mode l) = false
  /\ k_start lj <= k_end l /\ k_start l <= k_end lj.

(** The first one on the granted list, which is the one the request is linked behind. *)
Definition first_in_way (r : flock_resource) (l : flock_lock) (j : Z) (lj : flock_lock) : Prop :=
  fr_locks r !! j = Some lj /\ in_way lj l
  /\ exists P Q, fr_granted r = P ++ j :: Q
                 /\ forall k lk, k ∈ P -> fr_locks r !! k = Some lk -> ~ in_way lk l.

Lemma first_way_unique r l j lj j' lj' :
  first_in_way r l j lj -> first_in_way r l j' lj' -> j' = j /\ lj' = lj.
Proof.
  intros (Hj & Hw & P & Q & Hg & HP) (Hj' & Hw' & P' & Q' & Hg' & HP'). rewrite Hg in Hg'. clear Hg.
  assert (j' = j) as ->; [|split; congruence]. revert P' HP' Hg'.
  induction P as [|k P IH]; intros [|k' P'] HP' Hg'; injection Hg' as E1 E2; subst; try done.
  - destruct (HP' k' lj); [by left|done|done].
  - destruct (HP j' lj'); [by left|done|done].
  - apply (IH (fun k lk Hk => HP k lk (list_elem_of_further _ _ _ Hk)) P'); [|done].
    intros k lk Hk. apply HP'. by right.
Qed.

Lemma passes_way r l k : passes r l k -> forall lk, fr_locks r !! k = Some lk -> ~ in_way lk l.
Proof.
  intros H lk Hlk (Hne & Hc & H1 & H2). destruct (H lk Hlk Hne) as [?|K]; [congruence|].
  unfold ldlm_flocks_overlap in K. lia.
Qed.

Lemma conflict_enqueue r i l flags work q : forall own,
  fr_locks r !! i = Some l -> known r q ->
  (forall j, j ∈ q -> passes r l j)
  \/ (exists P j Q lj, q = P ++ j :: Q /\ fr_locks r !! j = Some lj /\ in_way lj l
      /\ (forall k, k ∈ P -> passes r l k)
      /\ conflict_loop nid exp_failed exp_has_hash exp_flock_dead q r i (k_req_mode l) flags
           LDLM_PROCESS_ENQUEUE work own false = enqueue_conflict r i flags l lj j work).
Proof.
  induction q as [|j q IH]; intros own Hl Hk; [left; by intros j ?%elem_of_nil|].
  destruct (Hk j) as [lj Hj]; [by left|].
  assert (Hk' : known r q) by (intros k ?; apply Hk; by right).
  cbn [conflict_loop]. rewrite (get_known_flock _ _ _ Hl), (get_known_flock _ _ _ Hj). cbn [mbind run_bind].
  assert (Hcons : forall own', passes r l j ->
    (forall k, k ∈ j :: q -> passes r l k)
    \/ (exists P j0 Q lj, j :: q = P ++ j0 :: Q /\ fr_locks r !! j0 = Some lj /\ in_way lj l
        /\ (forall k, k ∈ P -> passes r l k)
        /\ conflict_loop nid exp_failed exp_has_hash exp_flock_dead q r i (k_req_mode l) flags
             LDLM_PROCESS_ENQUEUE work own' false = enqueue_conflict r i flags l lj j0 work)).
  { intros own' Hp. destruct (IH own' Hl Hk') as [K|(P & j0 & Q & lj0 & -> & K1 & K2 & K3 & K4)]; [left|right].
    - intros k [->|Hk0]%elem_of_cons; [done|by apply K].
    - exists (j :: P), j0, Q, lj0. split_and!; try done. intros k [->|Hk0]%elem_of_cons; [done|by apply K3]. }
  destruct (ldlm_same_flock_owner lj l) eqn:Eo.
  { apply Hcons. intros lk Hlk Hne. exfalso. apply Hne. assert (lk = lj) as -> by congruence. by apply same_owner_spec. }
  assert (Hne : flock_owner lj <> flock_owner l) by (intros K%same_owner_spec; congruence).
  destruct (lockmode_compat (k_granted_mode lj) (k_req_mode l)) eqn:Ec.
  { apply Hcons. intros lk Hlk _. left. by assert (lk = lj) as -> by congruence. }
  destruct (ldlm_flocks_overlap lj l) eqn:Ev; cbn [negb].
  2:{ apply Hcons. intros lk Hlk _. right. by assert (lk = lj) as -> by congruence. }
  right. exists [], j, q, lj. unfold ldlm_flocks_overlap in Ev.
  split_and!; try done; [split_and!; try done; lia|by intros k ?%elem_of_nil].
Qed.

Lemma way_not_clear r l j lj : j ∈ fr_granted r -> fr_locks r !! j = Some lj -> in_way lj l -> ~ clear r l.
Proof.
  intros Hj Hlj (Hne & Hw1 & Hw2) K. destruct (K j lj) as [?|Hov]; try done; [congruence|].
  unfold ldlm_flocks_overlap in Hov. lia.
Qed.

(** A request as it comes in: its process does not wait already. *)
Record new_request (r : flock_resource) (i : Z) (l : flock_lock) : Prop := {
  nr_request : request nid home r i l;
  nr_idle : idle r i;
  nr_awake : forall e, k_export l = Some e ->
               process_of nid e (k_owner l) ∉ map (sleeper nid) (fr_hash r)
}.

(** The entry that tells that [l] waits for [lj]. *)
Definition wait_entry (i : Z) (l lj : flock_lock) : flock_wait :=
  FlockWait i (default 0 (k_export l)) (k_owner l) (k_owner lj) (default 0 (k_export lj)).

Definition process (l : flock_lock) : Z * Z := process_of nid (default 0 (k_export l)) (k_owner l).

(** A chain of recorded waits leads from the process of [lj] to the one of [l]. *)
Definition chained (r : flock_resource) (lj l : flock_lock) : Prop :=
  recorded_chain nid exp_failed exp_has_hash (fr_hash r) (default 0 (k_export lj)) (k_owner lj) (process l).

(** What the search finds behind the new entry. *)
Lemma linked_walk r i l lj n b :
  flock_ok nid home exp_failed exp_has_hash r -> new_request r i l ->
  at_home nid home (flock_owner lj) -> flock_owner lj <> flock_owner l ->
  deadlock_walk nid exp_failed exp_has_hash n (wait_entry i l lj :: fr_hash r) i (k_owner l)
    (default 0 (k_export l)) (k_owner lj) (default 0 (k_export lj)) = Some (Ret b) ->
  b = true <-> chained r lj l.
Proof.
  intros Hok [Hr _ Haw] Hhj Hne Hw. pose proof (rq_home _ _ _ _ _ Hr) as Hh.
  pose proof Hh as (e & Ee & _). cbn in Ee. pose proof (qo_waits _ _ _ _ _ (fk_queues _ _ _ _ _ Hok)) as [Hnd _].
  apply walk_exact in Hw.
  - rewrite Hw. apply (chain_cons nid exp_failed exp_has_hash (fr_hash r) (wait_entry i l lj)).
    intros K. pose proof Hhj as (ej & Eej & _). cbn in Eej.
    unfold sleeper, wait_entry in K. cbn in K. rewrite Ee, Eej in K. cbn in K.
    revert K. apply (other_process nid home); done.
  - constructor; [|done]. unfold sleeper, wait_entry. cbn. rewrite Ee. by apply Haw.
Qed.

Lemma filter_unhashed hash i :
  flock_unhashed hash i = true -> base.filter (fun w => fw_lock w <> i) hash = hash.
Proof.
  rewrite unhashed_spec. induction hash as [|w hash IH]; intros H; [done|].
  rewrite filter_cons_True by (apply H; by left). f_equal. apply IH. intros v Hv. apply H. by right.
Qed.

(** A request that has to wait, or would wait in a circle. *)
Lemma block_spec r i l j lj flags work :
  flock_ok nid home exp_failed exp_has_hash r -> new_request r i l -> k_req_mode l <> LCK_NL ->
  fr_locks r !! j = Some lj -> at_home nid home (flock_owner lj) -> flock_owner lj <> flock_owner l ->
  let w := wait_entry i l lj in
  exists err flags' r',
    (r ← ldlm_flock_blocking_link r i j;
     deadlock ← ldlm_flock_deadlock nid exp_failed exp_has_hash r l lj i;
     if (deadlock : bool) then
       r ← ldlm_flock_blocking_unlink r i;
       r ← ldlm_flock_destroy r i flags;
       Ret (ConflictReturn LDLM_ITER_STOP (- EDEADLK) flags r work)
     else
       r ← flock_add_waiting r i;
       Ret (ConflictReturn LDLM_ITER_STOP ELDLM_OK (Z.lor flags LDLM_FL_BLOCK_GRANTED) r work))
    = Ret (ConflictReturn LDLM_ITER_STOP err flags' r' work)
    /\ flock_ok nid home exp_failed exp_has_hash r' /\ same_holdings (held r) (held r')
    /\ ((err = - EDEADLK /\ flags' = flags
         /\ chained r lj l)
        \/ (err = ELDLM_OK /\ flags' = Z.lor flags LDLM_FL_BLOCK_GRANTED /\ ~ chained r lj l
            /\ fr_waiting r' = fr_waiting r ++ [i] /\ fr_hash r' = w :: fr_hash r /\ fr_locks r' = fr_locks r)).
Proof.
  intros Hok [Hr Hid Haw] Hm Hlj Hhj Hne w. pose proof Hid as (Hig & Hiw & Hiu).
  pose proof Hr as [Hl Ha Hp Hmd Hh _ _ _ _]. pose proof Hh as (e & Ee & _). pose proof Hhj as (ej & Eej & _).
  cbn in Ee, Eej. unfold ldlm_flock_blocking_link, LASSERT.
  rewrite (get_known_flock _ _ _ Hl). cbn [mbind run_bind]. rewrite Ee, Hiu.
  rewrite (get_known_flock _ _ _ Hlj). cbn [mbind run_bind]. rewrite Eej.
  assert (Hw : FlockWait i e (k_owner l) (k_owner lj) ej = w) by (unfold w, wait_entry; by rewrite Ee, Eej).
  rewrite Hw. cbn [mbind run_bind]. unfold ldlm_flock_deadlock at 1. rewrite Ee, Eej.
  cbn [fr_hash fr_set_hash]. assert (Hsl : sleeper nid w = process_of nid e (k_owner l)) by by rewrite <-Hw.
  pose proof (qo_waits _ _ _ _ _ (fk_queues _ _ _ _ _ Hok)) as Hwt.
  destruct (deadlock_walk nid exp_failed exp_has_hash (S (length (w :: fr_hash r))) (w :: fr_hash r) i
              (k_owner l) e (k_owner lj) ej) as [[[]|]|] eqn:Ewalk; cbn [mbind run_bind default].
  - unfold ldlm_flock_blocking_unlink. rewrite (get_known_flock _ i l) by done. cbn [mbind run_bind]. rewrite Ee.
    set (r1 := fr_set_hash _ _). assert (r1 = r) as ->.
    { unfold r1. cbn [fr_hash fr_set_hash]. rewrite filter_cons_False by (rewrite <-Hw; by intros K; apply K).
      rewrite filter_unhashed by done. by destruct r. }
    cbn [mbind run_bind]. destruct (destroy_idle r i l flags Hok Hid Hl) as (r' & l' & -> & _ & Hok' & Hs & _).
    exists (- EDEADLK), flags, r'. split_and!; try done. left. split_and!; try done.
    apply (linked_walk r i l lj (S (length (w :: fr_hash r))) true); try done. by rewrite Ee, Eej.
  - unfold flock_add_waiting, LASSERT. rewrite (get_known_flock _ i l) by done. cbn [mbind run_bind].
    change (LDLM_TEST_FLAG (k_flags l) LDLM_FL_DESTROYED) with (destroyed l). rewrite Ha.
    unfold on_flock_resource. cbn [fr_granted fr_waiting fr_set_hash]. rewrite !bool_decide_eq_false_2 by done.
    cbn [orb negb mbind run_bind]. exists ELDLM_OK, (Z.lor flags LDLM_FL_BLOCK_GRANTED), (waiting_on r i w).
    destruct (waiting_on_ok r i l w) as [Hok' Hs]; try done.
    + unfold flock_owner. rewrite <-Hw, Ee. done.
    + eapply (link_ok nid exp_failed exp_has_hash (fr_hash r) w (k_owner l) e); [done|by rewrite Hsl; apply Haw|].
      rewrite <-Hw in Ewalk |- *. exact Ewalk.
    + split_and!; try done. right. split_and!; try done. intros K.
      apply (linked_walk r i l lj (S (length (w :: fr_hash r))) false) in K; try done. by rewrite Ee, Eej.
  - exfalso. revert Ewalk. apply walk_returns; [|by apply (other_process nid home)].
    intros v [->|Hv]%elem_of_cons Hvi; [done|]. rewrite unhashed_spec in Hiu. by destruct (Hiu v Hv).
  - exfalso. revert Ewalk. by apply walk_ends_linked.
Qed.

(** The search for a deadlock that an enqueue makes decides whether there is one. *)
Lemma deadlock_decides r i l j lj :
  flock_ok nid home exp_failed exp_has_hash r -> new_request r i l ->
  fr_locks r !! j = Some lj -> at_home nid home (flock_owner lj) -> flock_owner lj <> flock_owner l ->
  exists r' b,
    ldlm_flock_blocking_link r i j = Ret r' /\ fr_hash r' = wait_entry i l lj :: fr_hash r
    /\ ldlm_flock_deadlock nid exp_failed exp_has_hash r' l lj i = Ret b
    /\ (b = true <-> chained r lj l).
Proof.
  intros Hok Hnr Hlj Hhj Hne. pose proof Hnr as [Hr (_ & _ & Hiu) Haw].
  pose proof (rq_lock _ _ _ _ _ Hr) as Hl. pose proof (rq_home _ _ _ _ _ Hr) as Hh.
  pose proof Hh as (e & Ee & _). pose proof Hhj as (ej & Eej & _). cbn in Ee, Eej.
  exists (fr_set_hash r (wait_entry i l lj :: fr_hash r)).
  unfold ldlm_flock_blocking_link, LASSERT, ldlm_flock_deadlock.
  rewrite (get_known_flock _ _ _ Hl), (get_known_flock _ _ _ Hlj). cbn [mbind run_bind]. rewrite Ee, Eej, Hiu.
  cbn [negb fr_hash fr_set_hash default].
  assert (Hw : FlockWait i e (k_owner l) (k_owner lj) ej = wait_entry i l lj) by (unfold wait_entry; by rewrite Ee, Eej).
  rewrite Hw. set (w := wait_entry i l lj) in *.
  assert (Hsl : sleeper nid w = process_of nid e (k_owner l)) by by rewrite <-Hw.
  pose proof (qo_waits _ _ _ _ _ (fk_queues _ _ _ _ _ Hok)) as Hwt.
  destruct (deadlock_walk _ _ _ _ _ _ _ _ _ _) as [[b|]|] eqn:E; cbn [default].
  - exists b. split_and!; try done. eapply (linked_walk r i l lj); try done. by rewrite Ee, Eej.
  - exfalso. revert E. apply walk_returns; [|by apply (other_process nid home)].
    intros v [->|Hv]%elem_of_cons Hvi; [done|]. rewrite unhashed_spec in Hiu. by destruct (Hiu v Hv).
  - exfalso. revert E. by apply walk_ends_linked.
Qed.

(** ** A new request that is granted *)

Lemma regranted_fresh r i l new2 r0 r3 added n :
  known r (fr_granted r) -> request nid home r i l -> base_of r i l new2 r0 ->
  regranted new2 r0 r3 i l added -> fresh r n -> new2 <> Some n -> fresh r3 n.
Proof.
  intros Hk Hr Hb Hrt [F1 F2 F3] Hn. destruct (base_soft _ _ _ _ _ Hk Hb) as ([Hg0 _] & Hw0 & Hh0 & Hl0).
  assert (Hni : n <> i) by (intros ->; by rewrite (rq_lock _ _ _ _ _ Hr) in F1).
  assert (Hng : n ∉ fr_granted r) by (intros K; destruct (Hk n K); congruence). split.
  - rewrite (rt_others _ _ _ _ _ _ Hrt), Hl0; [done|done|by rewrite Hg0|done|done].
  - rewrite (rt_hash _ _ _ _ _ _ Hrt), Hh0. eapply unhashed_sub; [apply unlinked_hash|done].
  - rewrite (rt_waiting _ _ _ _ _ _ Hrt), Hw0. destruct added; [done|]. by intros [_ ?]%list_elem_of_filter.
Qed.

(** The resource with the request granted, before the rest of the function. *)
Lemma regranted_new r i l new2 r0 r3 added :
  flock_ok nid home exp_failed exp_has_hash r -> request nid home r i l -> idle r i ->
  may l (held r) -> base_of r i l new2 r0 -> regranted new2 r0 r3 i l added ->
  flock_ok nid home exp_failed exp_has_hash r3 /\ asks l (held r) (held r3)
  /\ fr_waiting r3 = fr_waiting r /\ (added = true -> idle r3 i).
Proof.
  intros Hok Hr (Hig & Hiw & Hiu) Hm Hb Hrt. pose proof (fk_grants _ _ _ _ _ Hok) as Hg.
  pose proof (grants_known _ _ _ Hg) as Hk.
  destruct (base_hash nid home _ _ _ _ _ Hr Hk Hb) as (Hu & Hni & Hg0 & Hw0).
  destruct (regranted_grants nid home _ _ _ _ _ _ _ Hg Hr Hm Hb Hrt) as [Hg3 Has].
  assert (Hw3 : fr_waiting r3 = fr_waiting r).
  { rewrite (rt_waiting _ _ _ _ _ _ Hrt), Hw0. destruct added; [done|by apply filter_ne_id]. }
  split_and!; try done.
  - split; [done|]. eapply (regranted_queues nid exp_failed exp_has_hash home); try done. by rewrite filter_ne_id.
  - intros ->. split_and!.
    + intros K. destruct (rt_granted _ _ _ _ _ _ Hrt i K) as [K'|[[_ ?]|?]]; [|done|done]. by rewrite Hg0 in K'.
    + by rewrite Hw3.
    + by rewrite (rt_hash _ _ _ _ _ _ Hrt).
Qed.

Lemma finish_enqueue alloc flags r i l new2 r0 r3 added ov :
  flock_ok nid home exp_failed exp_has_hash r -> request nid home r i l -> idle r i ->
  flags <> LDLM_FL_WAIT_NOREPROC -> may l (held r) -> base_of r i l new2 r0 ->
  (forall n, new2 = Some n -> alloc i = inl n) -> alloc_ok alloc (i :: fr_waiting r) r ->
  regranted new2 r0 r3 i l added ->
  exists r' H, flock_finish (flock_unlock_reprocess nid exp_failed exp_has_hash exp_flock_dead alloc) i
                 (k_req_mode l) flags LDLM_PROCESS_ENQUEUE [] added ov r3
               = Ret (PassReturn LDLM_ITER_CONTINUE ELDLM_OK flags r' [])
    /\ flock_ok nid home exp_failed exp_has_hash r' /\ asks l (held r) H /\ posix_run H (held r')
    /\ (k_req_mode l <> LCK_NL -> same_holdings H (held r')).
Proof.
  intros Hok Hr Hid Hf Hm Hb Hn [Hal Hinj] Hrt. pose proof Hid as (Hig & Hiw & Hiu).
  pose proof (grants_known _ _ _ (fk_grants _ _ _ _ _ Hok)) as Hk.
  destruct (regranted_new _ _ _ _ _ _ _ Hok Hr Hid Hm Hb Hrt) as (Hok3 & Has & Hw3 & Hid3).
  destruct (rt_lock _ _ _ _ _ _ Hrt) as (s & e & Hi3). unfold flock_finish.
  rewrite (proj2 (Z.eqb_neq _ _) Hf).
  assert (Hre : exists r4, (if (k_req_mode l =? LCK_NL) && negb (ov =? 0)
       then flock_unlock_reprocess nid exp_failed exp_has_hash exp_flock_dead alloc r3 else Ret r3) = Ret r4
     /\ later r3 r4 /\ (k_req_mode l <> LCK_NL -> r4 = r3)).
  { destruct ((k_req_mode l =? LCK_NL) && negb (ov =? 0)) eqn:E.
    - destruct (unlock_reprocess_spec alloc r3 Hok3) as (r4 & H4 & Hl4).
      + split; [|done]. rewrite Hw3. intros k n Hk' Hkn.
        eapply (regranted_fresh r i l new2 r0 r3 added n); try done; [by apply (Hal k n); [right|]|].
        intros K. apply Hn in K. assert (i = k) as -> by (by eapply Hinj). done.
      + exists r4. split_and!; try done. intros K. apply andb_true_iff in E as [E%Z.eqb_eq _]. done.
    - exists r3. split_and!; try done. by apply later_refl. }
  destruct Hre as (r4 & -> & Hl4 & Hsame). cbn [mbind run_bind fst snd].
  destruct added; cbn [mbind run_bind].
  - specialize (Hid3 eq_refl). pose proof Hid3 as (Hi3g & Hi3w & Hi3u).
    destruct (lt_outside _ _ Hl4 _ _ Hi3 Hi3g Hi3w) as ([l4 Hi4] & Hi4g & Hi4w).
    assert (Hid4 : idle r4 i).
    { split_and!; [done|done|]. eapply unhashed_sub; [apply (lt_hash _ _ Hl4)|done]. }
    destruct (destroy_idle r4 i l4 flags (lt_ok _ _ Hl4) Hid4 Hi4) as (r5 & l5 & -> & _ & Hok5 & Hs5 & _).
    exists r5, (held r3). cbn [mbind run_bind]. split_and!; try done.
    + eapply posix_run_trans; [apply (lt_run _ _ Hl4)|by apply posix_same].
    + intros K. by rewrite <-(Hsame K).
  - exists r4, (held r3). split_and!; try done; [apply (lt_ok _ _ Hl4)|apply (lt_run _ _ Hl4)|].
    intros K. by rewrite (Hsame K).
Qed.

(** ** Every way an enqueue ends *)

(** A request cuts a range out of what its process holds in another mode, so that there
    is a lock to be split in two. *)
Definition splits (l : flock_lock) (H : holdings) : Prop :=
  exists m, m <> k_req_mode l /\ forall b, k_start l - 1 <= b <= k_end l + 1 -> H (flock_owner l) b m.

(** The ways an enqueue ends, each with the condition for it; no two conditions hold at
    once, and one of them always does. [H] stands for the result of the request itself; an
    unlock goes on to grant waiting requests. *)
Inductive enqueue_outcome (alloc : Z -> Z + Z) (r : flock_resource) (i : Z) (l : flock_lock) (flags : Z)
    : Z -> Z -> flock_resource -> Prop :=
  | out_granted r' (H : holdings) :
      LDLM_TEST_FLAG flags LDLM_FL_TEST_LOCK = false -> may l (held r) ->
      (splits l (held r) -> exists n, alloc i = inl n) -> asks l (held r) H ->
      posix_run H (held r') -> (k_req_mode l <> LCK_NL -> same_holdings H (held r')) ->
      enqueue_outcome alloc r i l flags ELDLM_OK flags r'
  | out_no_memory r' err :
      LDLM_TEST_FLAG flags LDLM_FL_TEST_LOCK = false -> may l (held r) ->
      splits l (held r) -> alloc i = inr err -> same_holdings (held r) (held r') ->
      enqueue_outcome alloc r i l flags err flags r'
  | out_free r' l' :
      LDLM_TEST_FLAG flags LDLM_FL_TEST_LOCK = true -> may l (held r) ->
      same_holdings (held r) (held r') -> fr_locks r' !! i = Some l' -> k_req_mode l' = LCK_NL ->
      enqueue_outcome alloc r i l flags ELDLM_OK (Z.lor flags LDLM_FL_LOCK_CHANGED) r'
  | out_nowait r' :
      LDLM_TEST_FLAG flags LDLM_FL_BLOCK_NOWAIT = true -> ~ may l (held r) ->
      same_holdings (held r) (held r') -> enqueue_outcome alloc r i l flags (- EAGAIN) flags r'
  | out_taken r' l' j lj :
      LDLM_TEST_FLAG flags LDLM_FL_BLOCK_NOWAIT = false ->
      LDLM_TEST_FLAG flags LDLM_FL_TEST_LOCK = true -> ~ may l (held r) -> first_in_way r l j lj ->
      same_holdings (held r) (held r') -> fr_locks r' !! i = Some l' ->
      k_req_mode l' = k_granted_mode lj -> k_start l' = k_start lj -> k_end l' = k_end lj ->
      enqueue_outcome alloc r i l flags ELDLM_OK (Z.lor flags LDLM_FL_LOCK_CHANGED) r'
  | out_deadlock r' j lj :
      LDLM_TEST_FLAG flags LDLM_FL_BLOCK_NOWAIT = false ->
      LDLM_TEST_FLAG flags LDLM_FL_TEST_LOCK = false -> ~ may l (held r) -> first_in_way r l j lj ->
      chained r lj l -> same_holdings (held r) (held r') ->
      enqueue_outcome alloc r i l flags (- EDEADLK) flags r'
  | out_waits r' j lj f :
      LDLM_TEST_FLAG flags LDLM_FL_BLOCK_NOWAIT = false ->
      LDLM_TEST_FLAG flags LDLM_FL_TEST_LOCK = false -> ~ may l (held r) -> first_in_way r l j lj ->
      ~ chained r lj l -> same_holdings (held r) (held r') -> fr_waiting r' = fr_waiting r ++ [i] ->
      fr_hash r' = wait_entry i l lj :: fr_hash r ->
      fr_locks r' = <[i := k_set_flags l f]> (fr_locks r) ->
      enqueue_outcome alloc r i l flags ELDLM_OK (Z.lor flags LDLM_FL_BLOCK_GRANTED) r'.

Lemma must_splits r l front mine post :
  block r (flock_owner l) front mine post -> 0 <= k_start l <= k_end l ->
  must_split r l mine <-> splits l (held r).
Proof.
  intros Hb Hp. unfold must_split, splits. rewrite Exists_exists. split.
  - intros (x & Hx & H1 & H2 & H3). exists (rg_mode x). split; [done|]. intros b Hbb.
    rewrite (held_block _ _ _ _ _ _ _ Hb). exists x. split_and!; [done|lia|lia|done].
  - intros (m & Hm & H). destruct (held_row (ranges r mine) (k_start l - 1) (k_end l + 1) m) as (x & Hx & H1 & H2 & <-).
    + apply (bk_canonical _ _ _ _ _ Hb).
    + lia.
    + intros b Hbb. by apply (held_block _ _ _ _ _ _ _ Hb), H.
    + exists x. split; [done|]. split_and!; [lia|lia|done].
Qed.

Lemma process_test reprocess alloc srv r i l flags intention work :
  flock_ok nid home exp_failed exp_has_hash r -> request nid home r i l ->
  LDLM_TEST_FLAG flags LDLM_FL_TEST_LOCK = true -> k_req_mode l = LCK_NL \/ clear r l ->
  process_flock nid exp_failed exp_has_hash exp_flock_dead reprocess alloc srv r i flags intention work
  = (r ← ldlm_flock_destroy r i flags;
     rl ← get_flock r i;
     Ret (LDLM_ITER_STOP, ELDLM_OK, Z.lor flags LDLM_FL_LOCK_CHANGED,
          put_flock r i (k_set_req_mode rl LCK_NL), work)).
Proof.
  intros Hok Hr Ht Hc. pose proof Hr as [Hl _ _ Hmd _ _ _ _ _].
  pose proof (grants_known _ _ _ (fk_grants _ _ _ _ _ Hok)) as Hk.
  unfold process_flock. rewrite (get_known_flock _ _ _ Hl). cbn [mbind run_bind].
  unfold flock_pass. cbn [ms_res].
  assert (Hscan : exists own, (if (flags =? LDLM_FL_WAIT_NOREPROC) || (k_req_mode l =? LCK_NL) then
          own ← first_own (fr_granted r) r i None; Ret (ConflictPass own false)
        else lassert lockmode_verify (k_req_mode l);
          conflict_loop nid exp_failed exp_has_hash exp_flock_dead (fr_granted r) r i (k_req_mode l)
            flags intention work None false) = Ret (ConflictPass own false)).
  { rewrite (first_own_spec r i l) by done. cbn [mbind run_bind].
    destruct ((flags =? LDLM_FL_WAIT_NOREPROC) || (k_req_mode l =? LCK_NL)) eqn:E; [by eauto|].
    rewrite orb_false_iff, !Z.eqb_neq in E. destruct Hc as [?|Hc]; [tauto|].
    unfold LASSERT. rewrite lockmode_verify_modes by by apply flock_modes_sub.
    rewrite scan_clear by done. eauto. }
  destruct Hscan as [own ->]. cbn [mbind run_bind]. rewrite Ht.
  destruct (ldlm_flock_destroy r i flags) as [r1|]; [|done]. cbn [mbind run_bind].
  by destruct (get_flock r1 i).
Qed.

(** A request nothing is in the way of. *)
Lemma enqueue_clear alloc r i l flags :
  flock_ok nid home exp_failed exp_has_hash r -> new_request r i l -> flags <> LDLM_FL_WAIT_NOREPROC ->
  alloc_ok alloc (i :: fr_waiting r) r -> k_req_mode l = LCK_NL \/ clear r l ->
  exists rc err flags' r',
    ldlm_process_flock_lock nid exp_failed exp_has_hash exp_flock_dead alloc true r i flags
      LDLM_PROCESS_ENQUEUE [] = Ret (rc, err, flags', r', [])
    /\ flock_ok nid home exp_failed exp_has_hash r' /\ enqueue_outcome alloc r i l flags err flags' r'.
Proof.
  intros Hok [Hr Hid _] Hf Hal Hc. pose proof Hr as [Hl _ _ Hmd _ _ _ _ _]. pose proof Hid as (Hig & Hiw & Hiu).
  pose proof (fk_grants _ _ _ _ _ Hok) as Hg.
  assert (Hmay : may l (held r)).
  { destruct Hc as [E|Hc]; [|by apply clear_allowed]. intros ow b m _ _ [K _]%(go_held _ _ _ Hg). rewrite E.
    by apply flock_modes_nl. }
  unfold ldlm_process_flock_lock. destruct (LDLM_TEST_FLAG flags LDLM_FL_TEST_LOCK) eqn:Et.
  - rewrite (process_test _ _ _ r i l) by done.
    destruct (destroy_idle r i l flags Hok Hid Hl) as (r1 & l1 & -> & Hl1 & Hok1 & Hs1 & Hid1).
    cbn [mbind run_bind]. rewrite (get_known_flock _ _ _ Hl1). cbn [mbind run_bind].
    destruct (put_idle_ok r1 i (k_set_req_mode l1 LCK_NL) Hok1 Hid1) as [Hok2 Hs2].
    do 4 eexists. split_and!; [done|done|]. eapply (out_free _ _ _ _ _ _ (k_set_req_mode l1 LCK_NL)); try done.
    + intros ow b m. by rewrite (Hs2 ow b m), (Hs1 ow b m).
    + apply put_flock_eq.
  - destruct (ok_ready nid exp_failed exp_has_hash home _ _ _ Hok Hr Hig) as (f & m & p & Hrd).
    destruct (process_grants nid exp_failed exp_has_hash exp_flock_dead
                (flock_unlock_reprocess nid exp_failed exp_has_hash exp_flock_dead alloc) (alloc i) true r i l f m p
                flags LDLM_PROCESS_ENQUEUE [] Hrd (flock_modes_sub _ Hmd) Et ltac:(by right))
      as [(new2 & r0 & r3 & added & ov & -> & Hb & Hn & Hrt & Hno)|(err & Hae & Hsp & ->)].
    + intros n Hn. by apply (proj1 Hal i n); [left|].
    + destruct (finish_enqueue alloc flags r i l new2 r0 r3 added ov) as (r' & H & -> & Hok' & Has & Hrun & Hsame); try done.
      cbn [mbind run_bind pass_result]. do 4 eexists. split_and!; [done|done|]. eapply out_granted; try done.
      intros K%(must_splits _ _ _ _ _ (rd_block _ _ _ _ _ _ Hrd)); [|apply (rd_proper _ _ _ _ _ _ Hrd)].
      destruct (alloc i) as [n|err]; [by exists n|]. by destruct (Hno err).
    + destruct (unlinked_lists r i l) as (E1 & E2 & E3). destruct (unlinked_ok nid exp_failed exp_has_hash home _ _ _ Hok Hr) as [Hok1 Hu1].
      destruct (destroy_idle (unlinked r i l) i l flags Hok1) as (r1 & l1 & -> & Hl1 & Hok2 & Hs1 & Hid1).
      * unfold idle. by rewrite E2, E3.
      * by rewrite E1.
      * cbn [mbind run_bind]. do 4 eexists. split_and!; [done|done|]. apply out_no_memory; try done.
        { eapply must_splits; [apply (rd_block _ _ _ _ _ _ Hrd)|apply (rd_proper _ _ _ _ _ _ Hrd)|done]. }
        intros ow b m'. rewrite (Hs1 ow b m'). unfold held. by rewrite E1, E2.
Qed.

Lemma granted_home r j lj :
  grants_ok nid home r -> j ∈ fr_granted r -> fr_locks r !! j = Some lj ->
  held r (flock_owner lj) (k_start lj) (k_granted_mode lj) /\ at_home nid home (flock_owner lj).
Proof.
  intros Hg Hj Hlj. destruct (granted_owned _ _ _ (go_blocks _ _ _ Hg) Hj Hlj) as (l0 & Hl0 & _ & _ & Hp & _).
  assert (l0 = lj) as -> by congruence. unfold proper in Hp. cbn in Hp.
  assert (Hh : held r (flock_owner lj) (k_start lj) (k_granted_mode lj))
    by (exists j, lj; split_and!; try done; lia).
  split; [done|]. by eapply (go_held _ _ _ Hg).
Qed.

(** A request a granted lock is in the way of. *)
Lemma enqueue_conflict_spec alloc r i l j lj flags :
  flock_ok nid home exp_failed exp_has_hash r -> new_request r i l -> k_req_mode l <> LCK_NL ->
  first_in_way r l j lj -> ~ may l (held r) ->
  exists err flags' r', enqueue_conflict r i flags l lj j []
                        = Ret (ConflictReturn LDLM_ITER_STOP err flags' r' [])
    /\ flock_ok nid home exp_failed exp_has_hash r' /\ enqueue_outcome alloc r i l flags err flags' r'.
Proof.
  intros Hok Hnr Hm Hf Hnm. pose proof Hf as (Hlj & (Hne & _) & P & Q & Hgr & _).
  assert (Hj : j ∈ fr_granted r) by (rewrite Hgr, elem_of_app, elem_of_cons; tauto).
  pose proof Hnr as [Hr Hid _]. pose proof (rq_lock _ _ _ _ _ Hr) as Hl.
  destruct (granted_home _ _ _ (fk_grants _ _ _ _ _ Hok) Hj Hlj) as [Hh Hhome].
  unfold enqueue_conflict.
  destruct (destroy_idle r i l flags Hok Hid Hl) as (r1 & l1 & Hd & Hl1 & Hok1 & Hs1 & Hid1).
  destruct (LDLM_TEST_FLAG flags LDLM_FL_BLOCK_NOWAIT) eqn:En; [|destruct (LDLM_TEST_FLAG flags LDLM_FL_TEST_LOCK) eqn:Et].
  - rewrite Hd. cbn [mbind run_bind]. do 3 eexists. split_and!; [done|done|]. by apply out_nowait.
  - rewrite Hd. cbn [mbind run_bind]. rewrite (get_known_flock _ _ _ Hl1). cbn [mbind run_bind].
    set (l2 := FlockLock _ _ _ _ _ _ _ _ _ _). destruct (put_idle_ok r1 i l2 Hok1 Hid1) as [Hok2 Hs2].
    do 3 eexists. split_and!; [done|done|]. eapply (out_taken _ _ _ _ _ _ l2 j lj); try done.
    + intros ow b m. by rewrite (Hs2 ow b m), (Hs1 ow b m).
    + apply put_flock_eq.
  - destruct (block_spec r i l j lj flags [] Hok Hnr Hm Hlj Hhome Hne)
      as (err & flags' & r' & -> & Hok' & Hs' & [(-> & -> & Htc)|(-> & -> & Hno & Hw & Hh' & Hlk)]).
    + do 3 eexists. split_and!; [done|done|]. by eapply out_deadlock.
    + do 3 eexists. split_and!; [done|done|]. eapply (out_waits _ _ _ _ _ _ j lj (k_flags l)); try done.
      rewrite Hlk. symmetry. apply insert_id. rewrite Hl. by destruct l.
Qed.

Lemma first_way_not_may r i l j lj :
  flock_ok nid home exp_failed exp_has_hash r -> new_request r i l -> first_in_way r l j lj -> ~ may l (held r).
Proof.
  intros Hok [Hr _ _] (Hlj & Hway & P & Q & Hq & _) K. pose proof (rq_proper _ _ _ _ _ Hr).
  apply allowed_clear in K; [|apply (go_blocks _ _ _ (fk_grants _ _ _ _ _ Hok))|lia].
  revert K. apply (way_not_clear r l j lj); [|done|done]. rewrite Hq, elem_of_app, elem_of_cons. tauto.
Qed.

Lemma process_enqueue alloc r i l flags :
  flock_ok nid home exp_failed exp_has_hash r -> new_request r i l -> flags <> LDLM_FL_WAIT_NOREPROC ->
  alloc_ok alloc (i :: fr_waiting r) r ->
  exists rc err flags' r',
    ldlm_process_flock_lock nid exp_failed exp_has_hash exp_flock_dead alloc true r i flags
      LDLM_PROCESS_ENQUEUE [] = Ret (rc, err, flags', r', [])
    /\ flock_ok nid home exp_failed exp_has_hash r' /\ enqueue_outcome alloc r i l flags err flags' r'.
Proof.
  intros Hok Hnr Hf Hal. pose proof Hnr as [Hr Hid _]. pose proof Hr as [Hl _ Hp Hmd _ _ _ _ _].
  pose proof (fk_grants _ _ _ _ _ Hok) as Hg. pose proof (grants_known _ _ _ Hg) as Hk.
  destruct (decide (k_req_mode l = LCK_NL)) as [E|Hm]; [by apply enqueue_clear; [..|left]|].
  destruct (conflict_enqueue r i l flags [] (fr_granted r) None Hl Hk) as [K|(P & j & Q & lj & Hq & Hlj & Hway & HP & Hc)].
  { apply enqueue_clear; [done..|]. right. by apply passes_clear. }
  assert (Hfw : first_in_way r l j lj).
  { split_and!; [done|done|]. exists P, Q. split; [done|]. intros k lk Hk0. by apply passes_way, HP. }
  pose proof (first_way_not_may r i l j lj Hok Hnr Hfw) as Hnm.
  destruct (enqueue_conflict_spec alloc r i l j lj flags Hok Hnr Hm Hfw Hnm) as (err & flags' & r' & He & Hok' & Hout).
  rewrite He in Hc. unfold ldlm_process_flock_lock.
  rewrite (process_conflict nid exp_failed exp_has_hash exp_flock_dead _ _ _ r i l flags _ _ _ Hl Hf Hm
             (lockmode_verify_modes _ (flock_modes_sub _ Hmd)) Hc) by done.
  do 4 eexists. by split_and!.
Qed.

(** ** The operations of the server *)

Lemma new_request_put r i l l' :
  flock_ok nid home exp_failed exp_has_hash r -> new_request r i l -> request nid home (put_flock r i l') i l' ->
  flock_owner l' = flock_owner l ->
  flock_ok nid home exp_failed exp_has_hash (put_flock r i l') /\ new_request (put_flock r i l') i l'
  /\ same_holdings (held r) (held (put_flock r i l')).
Proof.
  intros Hok [Hr Hid Haw] Hr' Ho. destruct (put_idle_ok r i l' Hok Hid) as [Hok' Hs].
  split_and!; try done. split; [done|done|]. unfold flock_owner in Ho. injection Ho as E1 E2. rewrite E1, E2. done.
Qed.

Lemma fresh_put r i l l' n : fr_locks r !! i = Some l -> fresh r n -> fresh (put_flock r i l') n.
Proof.
  intros Hl [F1 F2 F3]. split; try done. rewrite put_flock_ne; [done|]. intros ->. congruence.
Qed.

(** An enqueue that is not a replay. *)
Lemma flock_enqueue_spec alloc r i l flags :
  flock_ok nid home exp_failed exp_has_hash r -> new_request r i l -> first_enqueue flags ->
  alloc_ok alloc (i :: fr_waiting r) r ->
  exists l' err flags' r',
    flock_enqueue nid exp_failed exp_has_hash exp_flock_dead alloc false r i flags = Ret (err, flags', r')
    /\ flock_ok nid home exp_failed exp_has_hash r'
    /\ l' = k_set_flags l (enqueue_lock_flags flags (k_flags l))
    /\ enqueue_outcome alloc (put_flock r i l') i l' flags err flags' r'.
Proof.
  intros Hok Hnr (Hf & Hrep & Hres) [Hal Hinj]. pose proof Hnr as [Hr (Hig & Hiw & Hiu) _]. pose proof Hr as [Hl Ha Hp Hmd Hh Hco Hcp Hcr Hast].
  unfold flock_enqueue. rewrite (get_known_flock _ _ _ Hl). cbn [mbind run_bind andb]. rewrite Hres, Hrep. cbn [andb].
  set (l' := k_set_flags l _).
  assert (Hdel : flock_list_del r i = r).
  { unfold flock_list_del. rewrite !filter_ne_id by done. by destruct r. }
  rewrite Hdel. destruct (new_request_put r i l l' Hok Hnr) as (Hok1 & Hnr1 & Hs1); [|done|].
  { split; try done; [apply put_flock_eq| | |]; unfold l', destroyed; cbn [k_set_flags k_flags];
      by rewrite enqueue_flags_test. }
  destruct (process_enqueue alloc (put_flock r i l') i l' flags Hok1 Hnr1 Hf) as (rc & err & flags' & r' & -> & Hok' & Hout).
  - split; [|done]. intros k n Hk Hn. eapply fresh_put; [exact Hl|]. by apply (Hal k n).
  - cbn [mbind run_bind]. exists l', err, flags', r'. by split_and!.
Qed.

(** ** Cancelling *)

(** A lock is off all lists. *)
Record cancelled (r r' : flock_resource) (i : Z) : Prop := {
  cn_granted : fr_granted r' = base.filter (fun j => j <> i) (fr_granted r);
  cn_waiting : fr_waiting r' = base.filter (fun j => j <> i) (fr_waiting r);
  cn_hash : fr_hash r' = base.filter (fun w => fw_lock w <> i) (fr_hash r);
  cn_locks : forall j, j <> i -> fr_locks r' !! j = fr_locks r !! j
}.

Lemma flock_cancel_runs r i l :
  fr_locks r !! i = Some l -> k_export l <> None ->
  exists r', flock_cancel r i = Ret r' /\ cancelled r r' i.
Proof.
  intros Hl He. unfold flock_cancel. rewrite (unlink_spec _ _ _ Hl). cbn [mbind run_bind].
  unfold unlinked. destruct (k_export l) as [e|]; [|done].
  unfold flock_destroy_nolock, LASSERT. rewrite (get_known_flock _ i l) by done. cbn [mbind run_bind].
  assert (on_flock_resource (flock_list_del (fr_set_hash r (base.filter (fun w => fw_lock w <> i) (fr_hash r))) i) i
          = false) as ->.
  { unfold on_flock_resource. cbn. rewrite !bool_decide_eq_false_2; [done|..]; by intros [? _]%list_elem_of_filter. }
  cbn [negb]. destruct (LDLM_TEST_FLAG (k_flags l) LDLM_FL_DESTROYED); cbn [mbind run_bind].
  - rewrite (get_known_flock _ i l) by done. eexists. split; [done|]. split; try done.
    intros j Hj. by rewrite put_flock_ne.
  - erewrite (get_known_flock _ i) by apply put_flock_eq. eexists. split; [done|]. split; try done.
    intros j Hj. by rewrite !put_flock_ne.
Qed.

Lemma cancelled_queues r r' i :
  queues_ok nid home exp_failed exp_has_hash r -> cancelled r r' i ->
  queues_ok nid home exp_failed exp_has_hash r'.
Proof.
  intros [Hnd Hw Hu Hsl Hwt] [E1 E2 E3 E4]. apply list.NoDup_app in Hnd as (Hnd1 & Hd & Hnd2).
  split; rewrite ?E1, ?E2, ?E3.
  - apply list.NoDup_app. split_and!; [by apply NoDup_filter| |by apply NoDup_filter].
    intros j [_ Hj]%list_elem_of_filter [_ Hj']%list_elem_of_filter. by apply (Hd j).
  - intros j [Hne Hj]%list_elem_of_filter. destruct (Hw j Hj) as (lj & [] & Hm). exists lj. split; [|done].
    split; try done. by rewrite E4.
  - intros j [_ Hj]%list_elem_of_filter. eapply unhashed_sub; [apply sublist_filter|by apply Hu].
  - intros w lw [Hne Hww]%list_elem_of_filter. rewrite E4 by done. by apply Hsl.
  - eapply waits_unlink_ok; [exact Hwt|apply sublist_filter].
Qed.

(** Cancelling a granted lock frees its bytes. *)
Lemma cancel_granted r r' i l :
  grants_ok nid home r -> NoDup (fr_granted r) -> cancelled r r' i -> fr_locks r !! i = Some l ->
  i ∈ fr_granted r ->
  grants_ok nid home r'
  /\ posix_allowed (flock_owner l) (k_start l) (k_end l) LCK_NL (held r)
  /\ posix_assign (flock_owner l) (k_start l) (k_end l) LCK_NL (held r) (held r').
Proof.
  intros Hg Hnd [E1 _ _ E4] Hl Hi. destruct (granted_home _ _ _ Hg Hi Hl) as [_ Hhome].
  destruct (go_blocks _ _ _ Hg (flock_owner l)) as (f & m & p & Hb).
  assert (Him : i ∈ m).
  { pose proof Hb as [Hlist _ Hf Hp _]. rewrite Hlist, !elem_of_app in Hi. rewrite Forall_forall in Hf, Hp.
    destruct Hi as [K|[K|K]]; [|done|]; [destruct (Hf i K) as (l' & ? & ?)|destruct (Hp i K) as (l' & ? & ?)]; congruence. }
  apply list_elem_of_split in Him as (m1 & m2 & ->). pose proof (bk_list _ _ _ _ _ Hb) as Hlist.
  pose proof (bk_canonical _ _ _ _ _ Hb) as Hc. rewrite ranges_app in Hc. cbn [ranges map] in Hc.
  rewrite (flock_of_known _ _ _ Hl) in Hc. destruct (remove_reassigned _ _ _ Hc) as [Hc' Hra].
  assert (Hg' : fr_granted r' = f ++ (m1 ++ m2) ++ p /\ i ∉ f ++ (m1 ++ m2) ++ p).
  { rewrite E1, Hlist. replace (f ++ (m1 ++ i :: m2) ++ p) with ((f ++ m1) ++ i :: m2 ++ p)
      by (by rewrite <-!app_assoc). rewrite Hlist in Hnd.
    replace (f ++ (m1 ++ i :: m2) ++ p) with ((f ++ m1) ++ i :: m2 ++ p) in Hnd by (by rewrite <-!app_assoc).
    rewrite (filter_ne_middle _ _ _ Hnd), <-!app_assoc. split; [done|].
    apply list.NoDup_app in Hnd as (_ & Hd & Hnd). inversion Hnd as [|? ? K _]; subst.
    rewrite !app_assoc, <-(app_assoc _ m2). intros [K'|K']%elem_of_app; [|done]. apply (Hd i K'). by left. }
  destruct Hg' as [Hg' Hig].
  assert (Hsame : forall j, j ∈ f ++ (m1 ++ m2) ++ p -> fr_locks r' !! j = fr_locks r !! j)
    by (intros j Hj; apply E4; by intros ->).
  assert (Hr' : ranges r' (m1 ++ m2) = ranges r m1 ++ ranges r m2).
  { rewrite <-ranges_app. apply map_ext_in. intros j Hj%list_elem_of_In. unfold flock_of. rewrite Hsame; [done|].
    rewrite !elem_of_app in *. tauto. }
  assert (Hre : regrant r r' (flock_owner l) f (m1 ++ i :: m2) p (m1 ++ m2)).
  { split; try done.
    - by destruct m1.
    - pose proof (bk_mine _ _ _ _ _ Hb) as Hm. rewrite Forall_forall in *. intros j Hj.
      destruct (Hm j) as (lj & Hlj & K); [rewrite !elem_of_app, elem_of_cons in *; tauto|]. exists lj.
      rewrite Hsame; [done|]. rewrite !elem_of_app in *. tauto.
    - intros j Hj. apply Hsame. rewrite !elem_of_app in *. tauto.
    - by rewrite Hr'. }
  assert (Hal : posix_allowed (flock_owner l) (k_start l) (k_end l) LCK_NL (held r)).
  { intros ow b m' _ _ [K _]%(go_held _ _ _ Hg). by apply flock_modes_nl. }
  destruct (regrant_ok nid home _ _ _ _ _ _ _ (k_start l) (k_end l) LCK_NL Hre Hg) as [H1 H2]; try done.
  - rewrite Hr', ranges_app. cbn [ranges map]. by rewrite (flock_of_known _ _ _ Hl).
  - unfold flock_modes. rewrite !elem_of_cons. tauto.
Qed.

Lemma cancel_spec_flock r i l :
  flock_ok nid home exp_failed exp_has_hash r -> fr_locks r !! i = Some l -> k_export l <> None ->
  exists r', flock_cancel r i = Ret r' /\ flock_ok nid home exp_failed exp_has_hash r'
    /\ (i ∉ fr_granted r') /\ (i ∉ fr_waiting r') /\ posix_run (held r) (held r')
    /\ (if bool_decide (i ∈ fr_granted r)
        then posix_assign (flock_owner l) (k_start l) (k_end l) LCK_NL (held r) (held r')
        else same_holdings (held r) (held r')).
Proof.
  intros [Hg Hq] Hl He. destruct (flock_cancel_runs r i l Hl He) as (r' & Hc & Hcn). exists r'.
  pose proof (cancelled_queues _ _ _ Hq Hcn) as Hq'. pose proof Hcn as [E1 E2 E3 E4].
  assert (Hoff : (i ∉ fr_granted r') /\ (i ∉ fr_waiting r')).
  { rewrite E1, E2. split; by intros [? _]%list_elem_of_filter. }
  pose proof (qo_nodup _ _ _ _ _ Hq) as Hnd. apply list.NoDup_app in Hnd as (Hnd & _).
  case_bool_decide as Hi.
  - destruct (cancel_granted r r' i l Hg Hnd Hcn Hl Hi) as (Hg' & Hal & Has). split_and!; try done; try tauto.
    eapply posix_step; [by apply posix_same|exact Hal|exact Has].
  - assert (Hs : soft r r').
    { apply soft_same; [by rewrite E1, filter_ne_id|]. intros j Hj. apply E4. by intros ->. }
    pose proof (soft_holdings _ _ Hs (grants_known _ _ _ Hg)) as Hh.
    split_and!; try done; try tauto; [by split; [eapply grants_soft|]|by apply posix_same].
Qed.
End Ops.
