(* ===== verification/FlockProps.v ===== *)
(** The theorems about POSIX locks (lustre/ldlm/ldlm_flock.c): the operations of a
    server as a transition system, what holds in every state it reaches, and runs that
    show where the code fails. *)

From stdpp Require Import gmap.
From S2P Require Import Prelude LdlmLock LdlmExtent LdlmSafe LdlmServer LdlmReach LdlmProps LdlmFlock.
From S2P Require Import FlockRange FlockMerge FlockWait FlockSystem FlockPass FlockProcess FlockReach FlockOps.

(** ** Operations *)

(** The last one stands for what other resources do to the hash of blocked locks, which
    all resources share. *)
Inductive flock_op :=
  | FlockCreate (i mode : Z) (policy : ldlm_flock_wire) (lock_flags export : Z)
  | FlockEnqueue (i flags : Z) (alloc : Z -> Z + Z)
  | FlockReprocess (alloc : Z -> Z + Z)
  | FlockCancel (i : Z)
  | FlockElsewhere (hash : list flock_wait).

Section Run.
Context (nid : Z -> Z) (exp_failed exp_has_hash exp_flock_dead : Z -> bool).

Definition flock_do (r : flock_resource) (op : flock_op) : run flock_resource :=
  match op with
  | FlockCreate i mode policy lock_flags export =>
      match flock_handle_enqueue mode policy lock_flags export true with
      | inl _ => Ret r
      | inr l => Ret (put_flock r i l)
      end
  | FlockEnqueue i flags alloc =>
      p ← flock_enqueue nid exp_failed exp_has_hash exp_flock_dead alloc false r i flags;
      Ret p.2
  | FlockReprocess alloc => flock_unlock_reprocess nid exp_failed exp_has_hash exp_flock_dead alloc r
  | FlockCancel i => flock_cancel r i
  | FlockElsewhere hash => Ret (fr_set_hash r hash)
  end.

Fixpoint flock_run (r : flock_resource) (ops : list flock_op) : run flock_resource :=
  match ops with
  | [] => Ret r
  | op :: ops' => r ← flock_do r op; flock_run r ops'
  end.

(** A resource without locks; the hash has the blocked locks of other resources. *)
Definition flock_resource_new (hash : list flock_wait) : flock_resource := FlockResource ∅ [] [] hash.

Section Reachable.
Context (home : Z -> Z -> Z).

(** When an operation may happen: ranges are proper, a process uses one export and waits
    for one lock at a time, numbers of new locks are unused, and no lock is replayed or resent. *)
Definition flock_can (r : flock_resource) (op : flock_op) : Prop :=
  match op with
  | FlockCreate i mode policy lock_flags export => fresh r i
  | FlockEnqueue i flags alloc =>
      (exists l, new_request nid home r i l) /\ first_enqueue flags /\ alloc_ok alloc (i :: fr_waiting r) r
  | FlockReprocess alloc => alloc_ok alloc (fr_waiting r) r
  | FlockCancel i => exists l, fr_locks r !! i = Some l /\ k_export l <> None
  | FlockElsewhere hash =>
      waits_ok nid exp_failed exp_has_hash hash
      /\ forall w, w ∈ hash -> is_Some (fr_locks r !! fw_lock w) -> w ∈ fr_hash r
  end.

Inductive flock_reachable : flock_resource -> Prop :=
  | flock_start hash : waits_ok nid exp_failed exp_has_hash hash ->
      flock_reachable (flock_resource_new hash)
  | flock_step r op r' : flock_reachable r -> flock_can r op -> flock_do r op = Ret r' ->
      flock_reachable r'.

Lemma flock_new_ok hash :
  waits_ok nid exp_failed exp_has_hash hash ->
  flock_ok nid home exp_failed exp_has_hash (flock_resource_new hash).
Proof.
  intros Hw. assert (Hh : forall ow b m, ~ held (flock_resource_new hash) ow b m)
    by (intros ow b m (i & l & Hi & _); by apply elem_of_nil in Hi).
  split; split; try done.
  - intros ow. exists [], [], []. split; try constructor.
  - intros ow b m K. by destruct (Hh _ _ _ K).
  - intros ow ow' b m m' _ K. by destruct (Hh _ _ _ K).
  - constructor.
  - by intros i ?%elem_of_nil.
  - by intros i ?%elem_of_nil.
Qed.

Lemma fresh_idle r i : flock_ok nid home exp_failed exp_has_hash r -> fresh r i -> idle r i.
Proof.
  intros Hok [F1 F2 F3]. split_and!; try done. intros K.
  destruct (grants_known _ _ _ (fk_grants _ _ _ _ _ Hok) i K). congruence.
Qed.

Lemma elsewhere_ok r hash :
  flock_ok nid home exp_failed exp_has_hash r -> flock_can r (FlockElsewhere hash) ->
  flock_ok nid home exp_failed exp_has_hash (fr_set_hash r hash).
Proof.
  intros [Hg [Hnd Hw Hu Hsl Hwt]] [Hwt' Hin]. split; [eapply grants_soft; [exact Hg|by apply soft_same]|].
  split; try done.
  - intros j Hj. destruct (Hw j Hj) as (lj & [] & Hm). by exists lj.
  - intros j Hj. cbn. apply unhashed_spec. intros w Hww <-. destruct (grants_known _ _ _ Hg _ Hj) as [lj Hlj].
    specialize (Hu _ Hj). rewrite unhashed_spec in Hu. apply (Hu w); [|done]. apply Hin; [done|by exists lj].
  - intros w lw Hww Hlw. apply Hsl; [|done]. apply Hin; [done|by exists lw].
Qed.

Lemma first_way_put r i l f j lj :
  i ∉ fr_granted r -> first_in_way (put_flock r i (k_set_flags l f)) (k_set_flags l f) j lj ->
  first_in_way r l j lj.
Proof.
  intros Hig (Hj & Hw & P & Q & Hg & HP). cbn in Hg. rewrite Hg in Hig.
  assert (Hne : forall k, k = j \/ k ∈ P -> k <> i).
  { intros k Hk ->. apply Hig. rewrite elem_of_app, elem_of_cons. destruct Hk as [<-|]; tauto. }
  rewrite put_flock_ne in Hj by (apply Hne; by left). split_and!; [done|done|].
  exists P, Q. split; [done|]. intros k lk Hk Hlk. apply (HP k lk Hk). rewrite put_flock_ne; [done|].
  apply Hne. by right.
Qed.

(** The outcome of an enqueue only depends on what is held, and on the records of waits. *)
Lemma outcome_put alloc r i l f flags err flags' r' :
  flock_ok nid home exp_failed exp_has_hash r -> idle r i ->
  enqueue_outcome nid exp_failed exp_has_hash alloc (put_flock r i (k_set_flags l f)) i (k_set_flags l f) flags err flags' r' ->
  enqueue_outcome nid exp_failed exp_has_hash alloc r i l flags err flags' r'.
Proof.
  intros Hok Hid. destruct (put_idle_ok _ _ _ _ r i (k_set_flags l f) Hok Hid) as [_ Hs].
  set (r1 := put_flock _ _ _) in *.
  assert (Hmay : may (k_set_flags l f) (held r1) <-> may l (held r)).
  { unfold may, posix_allowed. split; intros K ow b m Hne Hb Hh; (eapply K; [exact Hne|exact Hb|]); by apply (Hs ow b m). }
  assert (Hsame : forall H, same_holdings (held r1) H -> same_holdings (held r) H).
  { intros H K ow b m. by rewrite (K ow b m), (Hs ow b m). }
  assert (Hspl : splits (k_set_flags l f) (held r1) <-> splits l (held r)).
  { unfold splits. split; intros (m & Hm & K); exists m; (split; [done|]); intros b Hb;
      apply (Hs (flock_owner l) b m), (K b Hb). }
  assert (Hfst : forall j lj, first_in_way r1 (k_set_flags l f) j lj -> first_in_way r l j lj)
    by (intros j lj; apply first_way_put, Hid).
  destruct 1 as [r' H ? ? ? Ha|r' err|r' l'|r'|r' l' j lj|r' j lj|r' j lj f' ? ? ? ? ? ? ? ? Hlk].
  - apply (out_granted _ _ _ _ _ _ _ _ r' H); try done; [by apply Hmay|by rewrite <-Hspl|]. intros ow b m. rewrite (Ha ow b m).
    cbn. by destruct (_ && _); [|apply (Hs ow b m)].
  - apply out_no_memory; try done; [by apply Hmay|by apply Hspl|by apply Hsame].
  - apply (out_free _ _ _ _ _ _ _ _ r' l'); try done; [by apply Hmay|by apply Hsame].
  - apply out_nowait; [done|by rewrite <-Hmay|by apply Hsame].
  - apply (out_taken _ _ _ _ _ _ _ _ r' l' j lj); try done; [by rewrite <-Hmay|by apply Hfst|by apply Hsame].
  - apply (out_deadlock _ _ _ _ _ _ _ _ r' j lj); try done; [by rewrite <-Hmay|by apply Hfst|by apply Hsame].
  - apply (out_waits _ _ _ _ _ _ _ _ r' j lj f'); try done; [by rewrite <-Hmay|by apply Hfst|by apply Hsame|].
    rewrite Hlk. apply insert_insert_eq.
Qed.

Lemma outcome_run alloc r i l flags err flags' r' :
  enqueue_outcome nid exp_failed exp_has_hash alloc r i l flags err flags' r' -> posix_run (held r) (held r').
Proof.
  destruct 1 as [r' H ? Hm ? Ha Hr| | | | | |]; try by apply posix_same.
  eapply posix_run_trans; [|exact Hr]. eapply posix_step; [by apply posix_same|exact Hm|exact Ha].
Qed.

Lemma enqueue_refines alloc r i l flags :
  flock_ok nid home exp_failed exp_has_hash r -> new_request nid home r i l -> first_enqueue flags ->
  alloc_ok alloc (i :: fr_waiting r) r ->
  exists err flags' r',
    flock_enqueue nid exp_failed exp_has_hash exp_flock_dead alloc false r i flags = Ret (err, flags', r')
    /\ flock_ok nid home exp_failed exp_has_hash r'
    /\ enqueue_outcome nid exp_failed exp_has_hash alloc r i l flags err flags' r'.
Proof.
  intros Hok Hn Hf Ha.
  destruct (flock_enqueue_spec nid exp_failed exp_has_hash exp_flock_dead home alloc r i l flags)
    as (l' & err & flags' & r' & E & Hok' & -> & Ho); try done.
  exists err, flags', r'. split_and!; try done. eapply outcome_put; [done|apply Hn|exact Ho].
Qed.

(** An operation that may happen returns, keeps the invariant, and obeys the rule. *)
Lemma flock_do_ok r op :
  flock_ok nid home exp_failed exp_has_hash r -> flock_can r op ->
  exists r', flock_do r op = Ret r' /\ flock_ok nid home exp_failed exp_has_hash r'
             /\ posix_run (held r) (held r').
Proof.
  intros Hok Hcan. destruct op as [i mode policy lock_flags export|i flags alloc|alloc|i|hash]; cbn [flock_do].
  - unfold flock_handle_enqueue. destruct (negb (enqueue_mode_ok mode)).
    { exists r. split_and!; [done|done|by apply posix_same]. }
    eexists. split; [done|]. edestruct (put_idle_ok nid exp_failed exp_has_hash home r i) as [Hok' Hs];
      [done|by apply fresh_idle|]. split; [exact Hok'|by apply posix_same].
  - destruct Hcan as ([l Hn] & Hf & Ha).
    destruct (enqueue_refines alloc r i l flags) as (err & flags' & r' & -> & Hok' & Ho); try done.
    exists r'. split_and!; [done|done|by eapply outcome_run].
  - destruct (unlock_reprocess_spec nid exp_failed exp_has_hash exp_flock_dead home alloc r Hok Hcan)
      as (r' & -> & []). by exists r'.
  - destruct Hcan as (l & Hl & He).
    destruct (cancel_spec_flock nid exp_failed exp_has_hash exp_flock_dead home r i l Hok Hl He) as (r' & -> & ? & _ & _ & ? & _).
    by exists r'.
  - eexists. split_and!; [done|by apply elsewhere_ok|by apply posix_same].
Qed.

Lemma flock_reachable_ok r : flock_reachable r -> flock_ok nid home exp_failed exp_has_hash r.
Proof.
  induction 1 as [hash Hw|r op r' _ IH Hcan E]; [by apply flock_new_ok|].
  destruct (flock_do_ok r op IH Hcan) as (r1 & E1 & Hok & _). congruence.
Qed.
End Reachable.
End Run.

(** ** Several resources *)

(** A server has many resources, and one hash of blocked locks. *)
Record flock_server := FlockServer { fs_resources : gmap Z flock_resource; fs_hash : list flock_wait }.

Definition flock_resource_get (s : flock_server) (k : Z) : flock_resource :=
  fr_set_hash (default (flock_resource_new []) (fs_resources s !! k)) (fs_hash s).

Fixpoint flock_server_run (nid : Z -> Z) (s : flock_server) (ops : list (Z * flock_op)) : run flock_server :=
  match ops with
  | [] => Ret s
  | (k, op) :: ops' =>
      r ← flock_do nid (fun _ => false) (fun _ => true) (fun _ => true) (flock_resource_get s k) op;
      flock_server_run nid (FlockServer (<[k := r]> (fs_resources s)) (fr_hash r)) ops'
  end.

(** The number of the lock made for a split. *)
Definition flock_spare (i : Z) : Z + Z := inl (i + 1000).

(** A request of an owner over an export: the lock is created and enqueued. *)
Definition flock_asks (i mode owner export s t flags : Z) : list flock_op :=
  [FlockCreate i mode (FlockWire s t owner owner) 0 export; FlockEnqueue i flags flock_spare].

Definition flock_asks_on (k i mode owner export s t flags : Z) : list (Z * flock_op) :=
  map (pair k) (flock_asks i mode owner export s t flags).

(** Process 1 has two threads. It has [10-19] of file 1, process 3 has [30-39] of it and
    process 2 has file 2. A thread of process 1 asks for [30-39] of file 1, the other
    one for file 2; process 3 asks for [10-19] of file 1; process 2 gives file 2 up, so
    that the thread gets it; and process 4 creates a lock for [10-19] of file 1. *)
Definition threads_run : list (Z * flock_op) :=
  flock_asks_on 1 1 LCK_PW 1 1 10 19 0 ++ flock_asks_on 1 2 LCK_PW 3 3 30 39 0
  ++ flock_asks_on 2 3 LCK_PW 2 2 0 9 0
  ++ flock_asks_on 1 4 LCK_PW 1 1 30 39 0 ++ flock_asks_on 2 5 LCK_PW 1 1 0 9 0
  ++ flock_asks_on 1 6 LCK_PW 3 3 10 19 0 ++ flock_asks_on 2 7 LCK_NL 2 2 0 9 0
  ++ [(1, FlockCreate 8 LCK_PW (FlockWire 10 19 4 4) 0 4)].

(** Where the search for a deadlock starts when that lock is enqueued. *)
Definition threads_search (fuel : nat) : run (option (run bool)) :=
  s ← flock_server_run (fun e => e) (FlockServer ∅ []) threads_run;
  r ← ldlm_flock_blocking_link (flock_resource_get s 1) 8 1;
  Ret (deadlock_walk (fun e => e) (fun _ => false) (fun _ => true) fuel (fr_hash r) 8 4 4 1 1).

(** Two processes of one peer, known by the same number, over two exports. *)
Definition two_mounts_run : list flock_op := flock_asks 1 LCK_PW 5 1 0 9 0 ++ flock_asks 2 LCK_PW 5 2 0 9 0.

(** Granted locks that are replayed come to the list in the order the clients send them;
    then the first process unlocks the whole file. *)
Definition replay_flags : Z := Z.lor LDLM_FL_REPLAY LDLM_FL_BLOCK_GRANTED.
Definition replay_run : list flock_op :=
  flock_asks 1 LCK_PW 1 1 0 9 replay_flags ++ flock_asks 2 LCK_PW 2 2 20 29 replay_flags
  ++ flock_asks 3 LCK_PW 1 1 40 49 replay_flags ++ flock_asks 4 LCK_NL 1 1 0 U64_MAX 0.

(** ** Waiting in fact *)

(** A process has a waiting request for a byte another process holds in a mode against it. *)
Definition blocked_by (nid : Z -> Z) (r : flock_resource) (p q : Z * Z) : Prop :=
  exists i l ow b m,
    (i ∈ fr_waiting r) /\ fr_locks r !! i = Some l /\ process nid l = p
    /\ ow <> flock_owner l /\ process_of nid (default 0 ow.2) ow.1 = q
    /\ k_start l <= b <= k_end l /\ held r ow b m /\ lockmode_compat m (k_req_mode l) = false.

(** A waiter stays blocked while nothing that is held changes. *)
Lemma blocked_by_waits nid r r' i l f p q :
  blocked_by nid r p q -> i ∉ fr_waiting r -> same_holdings (held r) (held r') ->
  fr_waiting r' = fr_waiting r ++ [i] -> fr_locks r' = <[i := k_set_flags l f]> (fr_locks r) ->
  blocked_by nid r' p q.
Proof.
  intros (k & lk & ow & b & m & Hk & Hlk & Hp & Hne & Hq & Hb & Hh & Hc) Hi Hs Hw Hl.
  exists k, lk, ow, b, m. rewrite Hw, Hl, elem_of_app. rewrite lookup_insert_ne by (by intros ->).
  split_and!; try tauto; try lia. by apply Hs.
Qed.

(** A request behind a lock in its way is blocked by the process of that lock. *)
Lemma blocked_by_way nid r r' i l f j lj :
  in_way lj l -> j ∈ fr_granted r -> fr_locks r !! j = Some lj ->
  proper (range_of lj) -> k_start l <= k_end l -> same_holdings (held r) (held r') ->
  fr_waiting r' = fr_waiting r ++ [i] -> fr_locks r' = <[i := k_set_flags l f]> (fr_locks r) ->
  blocked_by nid r' (process nid l) (process nid lj).
Proof.
  intros (Hne & Hc & H1 & H2) Hj Hlj [Hp _] Hl Hs Hw Hlk. cbn in Hp.
  exists i, (k_set_flags l f), (flock_owner lj), (Z.max (k_start l) (k_start lj)), (k_granted_mode lj).
  rewrite Hw, Hlk, lookup_insert_eq, elem_of_app, elem_of_cons. cbn [k_start k_end k_req_mode k_set_flags].
  split_and!; try done; try tauto; try lia. apply Hs. exists j, lj. split_and!; try done; lia.
Qed.

(** ** A reachable state *)

Module FlockExample.
Definition nid (e : Z) : Z := e.
Definition home (owner peer : Z) : Z := peer.
Definition exp_failed (e : Z) : bool := false.
Definition exp_has_hash (e : Z) : bool := true.
Definition exp_flock_dead (e : Z) : bool := true.

(** Process 1 waits for process 3 elsewhere. *)
Definition sleepers : list flock_wait := [FlockWait 100 1 1 3 3].

(** Processes 1 and 2 read [0-9] and [5-14], process 1 falls asleep elsewhere, and process 3
    is about to ask for all. *)
Definition ops : list flock_op :=
  flock_asks 1 LCK_PR 1 1 0 9 0 ++ flock_asks 2 LCK_PR 2 2 5 14 0
  ++ [FlockElsewhere sleepers; FlockCreate 3 LCK_PW (FlockWire 0 20 3 3) 0 3].
Definition state : flock_resource :=
  match flock_run nid exp_failed exp_has_hash exp_flock_dead (flock_resource_new []) ops with
  | Ret r => r
  | LBUG => flock_resource_new []
  end.
Definition flock_at (i : Z) : flock_lock := flock_of state i.

Lemma sleepers_ok : waits_ok nid exp_failed exp_has_hash sleepers.
Proof.
  split; [repeat constructor; by intros ?%elem_of_nil|].
  intros w n Hp. cbn [path] in Hp. destruct (follows _ _ _ _ _) as [w'|] eqn:E; [|done].
  pose proof (follows_spec _ _ _ _ _ _ E) as (Hw%list_elem_of_singleton & _). subst w'.
  destruct n; [|done]. cbn in Hp. injection Hp as <-. done.
Qed.

(** Whether an operation may happen, for the allocation of the example. *)
Definition fresh_check (r : flock_resource) (n : Z) : bool :=
  bool_decide (fr_locks r !! n = None) && flock_unhashed (fr_hash r) n && bool_decide (n ∉ fr_waiting r).
Definition request_check (l : flock_lock) : bool :=
  negb (destroyed l) && (0 <=? k_start l) && (k_start l <=? k_end l) && (k_end l <=? U64_MAX)
  && bool_decide (k_req_mode l ∈ flock_modes) && k_completion_ast l && negb (k_cp_ast l)
  && negb (LDLM_TEST_FLAG (k_flags l) LDLM_FL_CP_REQD) && negb (LDLM_TEST_FLAG (k_flags l) LDLM_FL_AST_SENT).
Definition new_check (r : flock_resource) (i : Z) (l : flock_lock) : bool :=
  request_check l && bool_decide (i ∉ fr_granted r) && bool_decide (i ∉ fr_waiting r)
  && flock_unhashed (fr_hash r) i
  && match k_export l with
     | None => false
     | Some e => bool_decide (process_of nid e (k_owner l) ∉ map (sleeper nid) (fr_hash r))
     end.

Lemma fresh_checked r n : fresh_check r n = true -> fresh r n.
Proof. unfold fresh_check. rewrite !andb_true_iff, !bool_decide_eq_true. by intros [[]]. Qed.

Lemma new_checked r i l : fr_locks r !! i = Some l -> new_check r i l = true -> new_request nid home r i l.
Proof.
  unfold new_check, request_check. intros Hl.
  rewrite !andb_true_iff, !negb_true_iff, !bool_decide_eq_true, !Z.leb_le. intros [[[[H ?] ?] ?] He].
  destruct (k_export l) as [e|] eqn:E; [|done]. rewrite bool_decide_eq_true in He.
  split; [|done|intros e' K; by assert (e' = e) as -> by congruence]. destruct H as [[[[[[[[]]]]]]]]. split; try done.
  exists e. unfold flock_owner. by rewrite E.
Qed.

Definition enqueue_check (r : flock_resource) (i flags : Z) : bool :=
  match fr_locks r !! i with
  | None => false
  | Some l => new_check r i l
  end
  && negb (flags =? LDLM_FL_WAIT_NOREPROC) && negb (LDLM_TEST_FLAG flags LDLM_FL_REPLAY)
  && negb (LDLM_TEST_FLAG flags LDLM_FL_RESENT)
  && forallb (fun j => fresh_check r (j + 1000)) (i :: fr_waiting r).

Lemma alloc_checked q r : forallb (fun j => fresh_check r (j + 1000)) q = true -> alloc_ok flock_spare q r.
Proof.
  rewrite forallb_forall. intros H. split.
  - intros i n Hi [= <-]. apply fresh_checked, H. by apply list_elem_of_In.
  - intros i j n [= <-] [= K]. lia.
Qed.

Lemma enqueue_checked r i flags :
  enqueue_check r i flags = true ->
  flock_can nid exp_failed exp_has_hash home r (FlockEnqueue i flags flock_spare).
Proof.
  unfold enqueue_check. rewrite !andb_true_iff, !negb_true_iff, Z.eqb_neq. intros [[[[H ?] ?] ?] Ha].
  destruct (fr_locks r !! i) as [l|] eqn:El; [|done].
  split_and!; [exists l; by apply new_checked|done|by apply alloc_checked].
Qed.

(** A run of requests leads to a reachable state. *)
Definition can_check (r : flock_resource) (op : flock_op) : Prop :=
  match op with
  | FlockCreate i _ _ _ _ => fresh_check r i = true
  | FlockEnqueue i flags alloc => alloc = flock_spare /\ enqueue_check r i flags = true
  | FlockElsewhere hash => hash = sleepers /\ fr_locks r !! 100 = None
  | _ => False
  end.

Fixpoint run_check (r : flock_resource) (ops : list flock_op) : Prop :=
  match ops with
  | [] => True
  | op :: ops' =>
      can_check r op
      /\ match flock_do nid exp_failed exp_has_hash exp_flock_dead r op with
         | Ret r => run_check r ops'
         | LBUG => False
         end
  end.

Lemma run_reachable ops : forall r r',
  flock_reachable nid exp_failed exp_has_hash exp_flock_dead home r -> run_check r ops ->
  flock_run nid exp_failed exp_has_hash exp_flock_dead r ops = Ret r' ->
  flock_reachable nid exp_failed exp_has_hash exp_flock_dead home r'.
Proof.
  induction ops as [|op ops IH]; intros r r' Hr Hc; cbn; [by intros [= <-]|].
  destruct Hc as [Hop Hc]. destruct (flock_do _ _ _ _ r op) as [r1|] eqn:E; [|done].
  apply IH; [|done]. eapply flock_step; [exact Hr| |exact E].
  destruct op; cbn in Hop; try done; [by apply fresh_checked| |]; destruct Hop as [-> Hop]; [by apply enqueue_checked|].
  split; [apply sleepers_ok|]. intros w ->%list_elem_of_singleton [l Hl]. cbn in Hl. congruence.
Qed.

Lemma state_reachable : flock_reachable nid exp_failed exp_has_hash exp_flock_dead home state.
Proof.
  apply (run_reachable ops (flock_resource_new [])); [apply flock_start| |].
  - by eapply waits_unlink_ok; [apply sleepers_ok|apply sublist_nil_l].
  - vm_compute. repeat split.
  - unfold state. by destruct (flock_run _ _ _ _ _ _) eqn:E; [|vm_compute in E].
Qed.

Lemma state_request : new_request nid home state 3 (flock_at 3).
Proof. by apply new_checked. Qed.

(** Process 1 holds [100-109] and processes 2 and 3 read [0-9]; process 1 asks for [0-9] and is
    recorded behind process 2; that one unlocks, so that process 1 waits for process 3; and
    process 3 is about to ask for [100-109]. *)
Definition stale_ops : list flock_op :=
  flock_asks 1 LCK_PW 1 1 100 109 0 ++ flock_asks 2 LCK_PR 2 2 0 9 0 ++ flock_asks 3 LCK_PR 3 3 0 9 0
  ++ flock_asks 4 LCK_PW 1 1 0 9 0 ++ flock_asks 5 LCK_NL 2 2 0 9 0
  ++ [FlockCreate 6 LCK_PW (FlockWire 100 109 3 3) 0 3].
Definition stale_state : flock_resource :=
  match flock_run nid exp_failed exp_has_hash exp_flock_dead (flock_resource_new []) stale_ops with
  | Ret r => r
  | LBUG => flock_resource_new []
  end.
Definition stale_at (i : Z) : flock_lock := flock_of stale_state i.

Lemma stale_reachable : flock_reachable nid exp_failed exp_has_hash exp_flock_dead home stale_state.
Proof.
  apply (run_reachable stale_ops (flock_resource_new [])); [apply flock_start| |].
  - by eapply waits_unlink_ok; [apply sleepers_ok|apply sublist_nil_l].
  - vm_compute. repeat split.
  - unfold stale_state. by destruct (flock_run _ _ _ _ _ _) eqn:E; [|vm_compute in E].
Qed.

Lemma stale_request : new_request nid home stale_state 6 (stale_at 6).
Proof. by apply new_checked. Qed.

Lemma stale_lists :
  fr_granted stale_state = [1; 3] /\ fr_waiting stale_state = [4]
  /\ fr_hash stale_state = [FlockWait 4 1 1 2 2].
Proof. vm_compute. auto. Qed.

Lemma stale_way : first_in_way stale_state (stale_at 6) 1 (stale_at 1).
Proof.
  split; [vm_compute; reflexivity|]. split.
  - split; [vm_compute; discriminate|]. split; [vm_compute; reflexivity|]. split; vm_compute; discriminate.
  - destruct stale_lists as [Hg _]. exists [], [3]. split; [exact Hg|]. intros k lk Hk. destruct (not_elem_of_nil k Hk).
Qed.

Lemma stale_blocked : blocked_by nid stale_state (process nid (stale_at 1)) (process nid (stale_at 6)).
Proof.
  destruct stale_lists as (Hg & Hw & _).
  assert (Hh : held stale_state (flock_owner (stale_at 3)) 0 LCK_PR).
  { exists 3, (stale_at 3). rewrite Hg. split; [by right; left|]. split; [vm_compute; reflexivity|].
    split; [reflexivity|]. split; [split; vm_compute; discriminate|]. vm_compute. reflexivity. }
  exists 4, (stale_at 4), (flock_owner (stale_at 3)), 0, LCK_PR. rewrite Hw.
  split; [by left|]. split; [vm_compute; reflexivity|]. split; [vm_compute; reflexivity|].
  split; [vm_compute; discriminate|]. split; [vm_compute; reflexivity|].
  split; [split; vm_compute; discriminate|]. split; [exact Hh|]. vm_compute. reflexivity.
Qed.
End FlockExample.

(** ** Theorems *)

Section Theorems.
Context (nid : Z -> Z) (exp_failed exp_has_hash exp_flock_dead : Z -> bool) (home : Z -> Z -> Z).

(** C2: Enqueueing a POSIX lock is the step POSIX asks for. In every state the server
    reaches, [ldlm_lock_enqueue] of a new request returns, and how it ends is settled by its
    flags and by which process holds which byte. Without a conflict: a test finds the
    range free; any other request is granted, and then its process holds its range in the new
    mode and nothing else changes but what waiters get after an unlock; unless a lock of the
    process has to be split and there is no memory for that. With a conflict nothing
    changes, and the error is [-EAGAIN] for a request that does not wait; a test describes
    the first lock in the way; and any other request gets [-EDEADLK] if a chain of recorded
    waits leads from the process of that lock to its own, and joins the waiting list, with a
    record that it waits for that lock, if there is no such chain. Records are not renewed
    when the holder of the bytes changes, so that they are not always true. *)
Theorem flock_enqueue_posix alloc r i l flags :
  flock_reachable nid exp_failed exp_has_hash exp_flock_dead home r -> new_request nid home r i l ->
  first_enqueue flags ->
  alloc_ok alloc (i :: fr_waiting r) r ->
  exists err flags' r',
    flock_enqueue nid exp_failed exp_has_hash exp_flock_dead alloc false r i flags = Ret (err, flags', r')
    /\ enqueue_outcome nid exp_failed exp_has_hash alloc r i l flags err flags' r'.
Proof.
  intros Hr%flock_reachable_ok Hn Hf Ha.
  destruct (enqueue_refines nid exp_failed exp_has_hash exp_flock_dead home alloc r i l flags)
    as (err & flags' & r' & E & _ & Ho); try done. by exists err, flags', r'.
Qed.

(** C5: POSIX locks exclude each other. In every state the server reaches, no two
    processes hold a byte in modes against each other; and every operation that may come
    next (a new lock, an enqueue, a reprocessing of the waiting list, a cancel, or what
    other resources do) returns, without a failed assertion, and changes what is held
    only by steps POSIX allows. *)
Theorem flock_holders_compatible r op :
  flock_reachable nid exp_failed exp_has_hash exp_flock_dead home r ->
  (forall ow ow' b m m', ow <> ow' -> held r ow b m -> held r ow' b m' -> lockmode_compat m m' = true)
  /\ (flock_can nid exp_failed exp_has_hash home r op ->
      exists r', flock_do nid exp_failed exp_has_hash exp_flock_dead r op = Ret r'
                 /\ posix_run (held r) (held r')).
Proof.
  intros Hr%flock_reachable_ok. split; [apply (go_safe _ _ _ (fk_grants _ _ _ _ _ Hr))|]. intros Hc.
  destruct (flock_do_ok nid exp_failed exp_has_hash exp_flock_dead home r op Hr Hc) as (r' & E & _ & Hp).
  by exists r'.
Qed.

(** C29: The shape of a resource. In every state the server reaches, a lock is granted or
    waits at most once, and the granted locks of every process are a piece of the granted
    list, sorted by range, without overlap and without two neighbours that could be one
    lock, all alive and none of them an unlock. *)
Theorem flock_lists_shape r :
  flock_reachable nid exp_failed exp_has_hash exp_flock_dead home r ->
  NoDup (fr_granted r ++ fr_waiting r)
  /\ forall ow, exists front mine post, block r ow front mine post.
Proof.
  intros Hr%flock_reachable_ok. split; [apply (qo_nodup _ _ _ _ _ (fk_queues _ _ _ _ _ Hr))|].
  apply (go_blocks _ _ _ (fk_grants _ _ _ _ _ Hr)).
Qed.

(** C14: The search for deadlocks ends, and finds what the records of blocked locks say. In
    every state the server reaches, following the records from a blocked lock never
    comes back to that lock; and when a new request has been linked behind a granted lock of
    another process, [ldlm_flock_deadlock] returns, and returns true if and only if a chain
    of recorded waits leads from the process of that lock to the requesting one. The
    records are those [ldlm_flock_blocking_link] has made; they need not be true any more. *)
Theorem flock_deadlock_recorded r i l j lj :
  flock_reachable nid exp_failed exp_has_hash exp_flock_dead home r ->
  new_request nid home r i l -> j ∈ fr_granted r -> fr_locks r !! j = Some lj ->
  flock_owner lj <> flock_owner l ->
  (forall w n, path (follows nid exp_failed exp_has_hash (fr_hash r)) (S n) w <> Some w)
  /\ exists r' b,
       ldlm_flock_blocking_link r i j = Ret r'
       /\ ldlm_flock_deadlock nid exp_failed exp_has_hash r' l lj i = Ret b
       /\ (b = true <-> chained nid exp_failed exp_has_hash r lj l).
Proof.
  intros Hr%flock_reachable_ok Hn Hj Hlj Hne.
  pose proof (qo_waits _ _ _ _ _ (fk_queues _ _ _ _ _ Hr)) as [Hnd Hac]. split; [done|].
  destruct (deadlock_decides nid exp_failed exp_has_hash home r i l j lj) as (r' & b & E1 & _ & E2 & Hb);
    try done; [|by exists r', b]. eapply granted_home; [apply Hr|done|done].
Qed.

(** A record that names a process which does not sleep ends every chain. *)
Lemma awake_unchained r lj l w :
  NoDup (map (sleeper nid) (fr_hash r)) -> w ∈ fr_hash r -> sleeper nid w = process nid lj ->
  blocker nid w <> process nid l -> blocker nid w ∉ map (sleeper nid) (fr_hash r) ->
  ~ chained nid exp_failed exp_has_hash r lj l.
Proof.
  intros Hnd Hw Hs Hb Haw Hc.
  assert (Hone : forall v, v ∈ fr_hash r -> sleeper nid v = process nid lj -> v = w).
  { intros v Hv Hsv. apply (lookup_unique nid _ _ Hnd) in Hv, Hw. rewrite <-Hs in Hsv. injection Hsv as E1 E2. congruence. }
  unfold chained in Hc. remember (process nid l) as p eqn:Ep.
  inversion Hc as [v e o Hv Hsv _ _ E1 E2 Eb|v e o q Hv Hsv _ _ Hc' E1 E2 Eb].
  - apply Hb. by rewrite <-(Hone v Hv Hsv).
  - rewrite (Hone v Hv Hsv) in Hc'. apply Haw.
    assert (exists u, u ∈ fr_hash r /\ sleeper nid u = blocker nid w) as (u & Hu & <-)
      by (inversion Hc' as [u ? ? Hu Hsu|u ? ? ? Hu Hsu]; subst; by exists u).
    apply list_elem_of_In, in_map, list_elem_of_In. done.
Qed.

(** C39: A record that is out of date hides a deadlock. A blocked lock is recorded behind the
    first lock in its way when it is enqueued; when that one goes and another process still
    holds some of the bytes, the request goes on waiting and the record stays. If a new
    request runs into a lock of a process whose record names a process that is awake and not
    the requesting one, while what it in fact waits for is held by the requesting
    process, then [ldlm_lock_enqueue] returns [ELDLM_OK] and puts the request on the waiting
    list, and the two processes wait for each other. *)
Theorem stale_record_hides_deadlock alloc r i l flags j lj w :
  flock_reachable nid exp_failed exp_has_hash exp_flock_dead home r -> new_request nid home r i l ->
  first_enqueue flags -> alloc_ok alloc (i :: fr_waiting r) r ->
  LDLM_TEST_FLAG flags LDLM_FL_BLOCK_NOWAIT = false -> LDLM_TEST_FLAG flags LDLM_FL_TEST_LOCK = false ->
  first_in_way r l j lj -> w ∈ fr_hash r -> sleeper nid w = process nid lj ->
  blocker nid w <> process nid l -> blocker nid w ∉ map (sleeper nid) (fr_hash r) ->
  blocked_by nid r (process nid lj) (process nid l) ->
  exists r',
    flock_enqueue nid exp_failed exp_has_hash exp_flock_dead alloc false r i flags
      = Ret (ELDLM_OK, Z.lor flags LDLM_FL_BLOCK_GRANTED, r')
    /\ (i ∈ fr_waiting r')
    /\ blocked_by nid r' (process nid l) (process nid lj) /\ blocked_by nid r' (process nid lj) (process nid l).
Proof.
  intros Hr%flock_reachable_ok Hn Hf Ha Enw Et Hfw Hw Hs Hb Haw Hby.
  pose proof (qo_waits _ _ _ _ _ (fk_queues _ _ _ _ _ Hr)) as [Hnd _].
  pose proof (awake_unchained r lj l w Hnd Hw Hs Hb Haw) as Hnc.
  assert (Hnm : ~ may l (held r)) by by eapply first_way_not_may.
  pose proof (first_way_unique r l j lj) as Huniq.
  destruct (enqueue_refines nid exp_failed exp_has_hash exp_flock_dead home alloc r i l flags)
    as (err & flags' & r' & E & _ & Ho); try done.
  pose proof Hfw as (Hlj & Hway & P & Q & Hg & _).
  assert (Hj : j ∈ fr_granted r) by (rewrite Hg, elem_of_app, elem_of_cons; tauto).
  destruct Hn as [Hreq (_ & Hiw & _) _].
  destruct Ho as [r' H| | | | |r' j' lj' ? ? ? Hfw' Hc|r' j' lj' f ? ? ? Hfw' Hc Hs' Hw' Hh' Hl']; try congruence; try done.
  - destruct (Huniq j' lj' Hfw Hfw') as [-> ->]. done.
  - exists r'. destruct (Huniq j' lj' Hfw Hfw') as [-> ->]. split_and!; [done| | |].
    + rewrite Hw', elem_of_app, elem_of_cons. tauto.
    + eapply (blocked_by_way nid r r' i l f j lj); try done; [|apply (rq_proper _ _ _ _ _ Hreq)].
      destruct (granted_owned _ _ _ (go_blocks _ _ _ (fk_grants _ _ _ _ _ Hr)) Hj Hlj) as (l0 & Hl0 & _ & _ & Hp & _).
      by assert (l0 = lj) as -> by congruence.
    + by eapply (blocked_by_waits nid r r' i l f).
Qed.
End Theorems.

(** C40: Two sleeping threads of a process make the search endless. The search takes the
    first blocked lock of a process it finds, as a process cannot sleep twice; but the
    owner of a POSIX lock is shared by all threads of a process. After [threads_run] the
    search that the enqueue of the last lock makes does not end, after whatever number
    of turns. *)
Theorem threads_search_hangs fuel : threads_search fuel = Ret None.
Proof.
  unfold threads_search. destruct (flock_server_run _ _ _) as [s|] eqn:E; [|by vm_compute in E].
  cbn [mbind run_bind]. destruct (ldlm_flock_blocking_link _ _ _) as [r|] eqn:E2.
  - cbn [mbind run_bind]. f_equal. apply walk_hangs.
    assert (H : fr_hash r = [FlockWait 8 4 4 1 1; FlockWait 6 3 3 1 1; FlockWait 4 1 1 3 3]).
    { vm_compute in E. injection E as <-. vm_compute in E2. by injection E2 as <-. }
    by rewrite H.
  - vm_compute in E. injection E as <-. by vm_compute in E2.
Qed.

(** A process that has the file system mounted twice stops the server. It has one
    owner and one peer, but an export for each mount, so that its locks conflict; the
    search for a deadlock finds the request itself, and the assertion [req != lock]
    fails. *)
Lemma two_mounts_lbug :
  flock_run (fun _ => 0) (fun _ => false) (fun _ => true) (fun _ => true) (flock_resource_new [])
    two_mounts_run = LBUG.
Proof. vm_compute. reflexivity. Qed.

(** After a recovery an unlock can leave locks behind. Replayed locks are granted at
    the end of the list, so that the locks of a process need not be together; merging
    stops at the first lock of another process, and after process 1 has unlocked the
    whole file it still holds the bytes 40 to 49. *)
Lemma replayed_unlock_incomplete :
  exists r,
    flock_run (fun e => e) (fun _ => false) (fun _ => true) (fun _ => true) (flock_resource_new [])
      replay_run = Ret r
    /\ forall b, 40 <= b <= 49 -> held r (1, Some 1) b LCK_PW.
Proof.
  pose (l := FlockLock 1 (Some 1) 1 40 49 LCK_PW LCK_PW LDLM_FL_NS_SRV true false).
  assert (H : (r ← flock_run (fun e => e) (fun _ => false) (fun _ => true) (fun _ => true)
                     (flock_resource_new []) replay_run;
               Ret (bool_decide (3 ∈ fr_granted r), fr_locks r !! 3)) = Ret (true, Some l))
    by (vm_compute; reflexivity).
  destruct (flock_run _ _ _ _ _ _) as [r|]; [|done]. exists r. split; [done|].
  cbn in H. injection H as H1%bool_decide_eq_true H2. intros b Hb. by exists 3, l.
Qed.

(** A record that is out of date also refuses requests. Process 2 holds nothing after
    its unlock in [stale_ops], and nobody waits for it; when it asks for [100-109] it gets
    [-EDEADLK], as process 1 is still recorded behind it. *)
Lemma stale_record_refuses :
  (r ← flock_run FlockExample.nid FlockExample.exp_failed FlockExample.exp_has_hash FlockExample.exp_flock_dead
         FlockExample.stale_state [FlockCreate 7 LCK_PW (FlockWire 100 109 2 2) 0 2];
   p ← flock_enqueue FlockExample.nid FlockExample.exp_failed FlockExample.exp_has_hash
         FlockExample.exp_flock_dead flock_spare false r 7 0;
   Ret p.1.1) = Ret (- EDEADLK).
Proof. vm_compute. reflexivity. Qed.

(** ** Witnesses *)

Lemma flock_enqueue_posix_witness :
  exists err flags' r',
    flock_enqueue FlockExample.nid FlockExample.exp_failed FlockExample.exp_has_hash FlockExample.exp_flock_dead
      flock_spare false FlockExample.state 3 0 = Ret (err, flags', r')
    /\ enqueue_outcome FlockExample.nid FlockExample.exp_failed FlockExample.exp_has_hash flock_spare FlockExample.state 3
         (FlockExample.flock_at 3) 0 err flags' r'.
Proof.
  apply (flock_enqueue_posix FlockExample.nid FlockExample.exp_failed FlockExample.exp_has_hash
           FlockExample.exp_flock_dead FlockExample.home).
  - exact FlockExample.state_reachable.
  - exact FlockExample.state_request.
  - split; [discriminate|split; reflexivity].
  - apply FlockExample.alloc_checked. vm_compute. reflexivity.
Defined.

Lemma flock_holders_compatible_witness :
  exists r',
    flock_do FlockExample.nid FlockExample.exp_failed FlockExample.exp_has_hash FlockExample.exp_flock_dead
      FlockExample.state (FlockEnqueue 3 0 flock_spare) = Ret r'
    /\ posix_run (held FlockExample.state) (held r').
Proof.
  apply (flock_holders_compatible FlockExample.nid FlockExample.exp_failed FlockExample.exp_has_hash
           FlockExample.exp_flock_dead FlockExample.home FlockExample.state).
  - exact FlockExample.state_reachable.
  - apply FlockExample.enqueue_checked. vm_compute. reflexivity.
Defined.

Lemma flock_lists_shape_witness :
  NoDup (fr_granted FlockExample.state ++ fr_waiting FlockExample.state)
  /\ forall ow, exists front mine post, block FlockExample.state ow front mine post.
Proof.
  apply (flock_lists_shape FlockExample.nid FlockExample.exp_failed FlockExample.exp_has_hash
           FlockExample.exp_flock_dead FlockExample.home).
  exact FlockExample.state_reachable.
Defined.

Lemma flock_deadlock_recorded_witness :
  (forall w n, path (follows FlockExample.nid FlockExample.exp_failed FlockExample.exp_has_hash
                       (fr_hash FlockExample.state)) (S n) w <> Some w)
  /\ exists r' b,
       ldlm_flock_blocking_link FlockExample.state 3 1 = Ret r'
       /\ ldlm_flock_deadlock FlockExample.nid FlockExample.exp_failed FlockExample.exp_has_hash r'
            (FlockExample.flock_at 3) (FlockExample.flock_at 1) 3 = Ret b
       /\ (b = true <-> chained FlockExample.nid FlockExample.exp_failed FlockExample.exp_has_hash
                          FlockExample.state (FlockExample.flock_at 1) (FlockExample.flock_at 3)).
Proof.
  apply (flock_deadlock_recorded FlockExample.nid FlockExample.exp_failed FlockExample.exp_has_hash
           FlockExample.exp_flock_dead FlockExample.home).
  - exact FlockExample.state_reachable.
  - exact FlockExample.state_request.
  - apply (bool_decide_eq_true_1 (1 ∈ fr_granted FlockExample.state)). vm_compute. reflexivity.
  - vm_compute. reflexivity.
  - vm_compute. discriminate.
Defined.

Lemma stale_record_hides_deadlock_witness :
  exists r',
    flock_enqueue FlockExample.nid FlockExample.exp_failed FlockExample.exp_has_hash FlockExample.exp_flock_dead
      flock_spare false FlockExample.stale_state 6 0
      = Ret (ELDLM_OK, Z.lor 0 LDLM_FL_BLOCK_GRANTED, r')
    /\ (6 ∈ fr_waiting r')
    /\ blocked_by FlockExample.nid r' (process FlockExample.nid (FlockExample.stale_at 6))
         (process FlockExample.nid (FlockExample.stale_at 1))
    /\ blocked_by FlockExample.nid r' (process FlockExample.nid (FlockExample.stale_at 1))
         (process FlockExample.nid (FlockExample.stale_at 6)).
Proof.
  apply (stale_record_hides_deadlock FlockExample.nid FlockExample.exp_failed FlockExample.exp_has_hash
           FlockExample.exp_flock_dead FlockExample.home flock_spare FlockExample.stale_state 6
           (FlockExample.stale_at 6) 0 1 (FlockExample.stale_at 1) (FlockWait 4 1 1 2 2)).
  - exact FlockExample.stale_reachable.
  - exact FlockExample.stale_request.
  - split; [discriminate|split; reflexivity].
  - apply FlockExample.alloc_checked. vm_compute. reflexivity.
  - reflexivity.
  - reflexivity.
  - exact FlockExample.stale_way.
  - rewrite (proj2 (proj2 FlockExample.stale_lists)). by left.
  - vm_compute. reflexivity.
  - vm_compute. discriminate.
  - apply (bool_decide_eq_true_1 (blocker FlockExample.nid (FlockWait 4 1 1 2 2)
             ∉ map (sleeper FlockExample.nid) (fr_hash FlockExample.stale_state))). vm_compute. reflexivity.
  - exact FlockExample.stale_blocked.
Defined.
