(* ===== verification/BinHeap.v ===== *)
(** * The binary heap

    [libcfs/libcfs/heap.c] and [libcfs_heap.h]: a min-heap whose array of node pointers
    grows by chunks of 512 that are reached directly, over one or over two levels of
    tables.  The policies of the request scheduler keep their queues in it.

    Nodes are numbers; [chn_index] is the field of that name of all nodes.  A table entry
    that is missing is a null pointer (allocations are zeroed), and following one is
    [LBUG]. *)

From stdpp Require Import gmap.
From S2P Require Import Prelude.

Definition CBH_SHIFT : Z := 9.
Definition CBH_SIZE : Z := Z.shiftl 1 CBH_SHIFT.
Definition CBH_MASK : Z := CBH_SIZE - 1.
Definition CBH_POISON : Z := 0xdeadbeef.
Definition ENOMEM : Z := 12.

Abbreviation chunk := (gmap Z Z).

(** [table[i]]. *)
Definition entry {A} (table : option (gmap Z A)) (i : Z) : option A :=
  match table with Some m => m !! i | None => None end.

Record cfs_binheap {P : Type} := Binheap {
  cbh_elements3 : option (gmap Z (gmap Z chunk));
  cbh_elements2 : option (gmap Z chunk);
  cbh_elements1 : option chunk;
  cbh_nelements : Z;
  cbh_hwm : Z;
  cbh_private : P;
  chn_index : gmap Z Z
}.
Arguments cfs_binheap P : clear implicits.

(** A chunk of pointers: the direct one, one of the table, one of a table of the table. *)
Inductive chunk_name := Chunk1 | Chunk2 (i : Z) | Chunk3 (i j : Z).

#[export] Instance chunk_name_eq_dec : EqDecision chunk_name.
Proof. solve_decision. Defined.

Section Heap.
Context {P : Type}.
Implicit Types h : cfs_binheap P.

(** ** The tables *)

Definition set_elements h e3 e2 e1 : cfs_binheap P :=
  Binheap P e3 e2 e1 (cbh_nelements h) (cbh_hwm h) (cbh_private h) (chn_index h).
Definition set_hwm h n : cfs_binheap P :=
  Binheap P (cbh_elements3 h) (cbh_elements2 h) (cbh_elements1 h) (cbh_nelements h) n
    (cbh_private h) (chn_index h).
Definition set_nelements h n : cfs_binheap P :=
  Binheap P (cbh_elements3 h) (cbh_elements2 h) (cbh_elements1 h) n (cbh_hwm h) (cbh_private h)
    (chn_index h).
Definition set_private h p : cfs_binheap P :=
  Binheap P (cbh_elements3 h) (cbh_elements2 h) (cbh_elements1 h) (cbh_nelements h) (cbh_hwm h) p
    (chn_index h).
Definition set_index h (e i : Z) : cfs_binheap P :=
  Binheap P (cbh_elements3 h) (cbh_elements2 h) (cbh_elements1 h) (cbh_nelements h) (cbh_hwm h)
    (cbh_private h) (<[e := i]> (chn_index h)).

Definition get_chunk h (c : chunk_name) : option chunk :=
  match c with
  | Chunk1 => cbh_elements1 h
  | Chunk2 i => entry (cbh_elements2 h) i
  | Chunk3 i j => entry (entry (cbh_elements3 h) i) j
  end.

Definition set_chunk h (c : chunk_name) (k : chunk) : cfs_binheap P :=
  match c with
  | Chunk1 => set_elements h (cbh_elements3 h) (cbh_elements2 h) (Some k)
  | Chunk2 i =>
      set_elements h (cbh_elements3 h) (Some (<[i := k]> (default ∅ (cbh_elements2 h))))
        (cbh_elements1 h)
  | Chunk3 i j =>
      let e3 := default ∅ (cbh_elements3 h) in
      set_elements h (Some (<[i := <[j := k]> (default ∅ (e3 !! i))]> e3)) (cbh_elements2 h)
        (cbh_elements1 h)
  end.

(** [cfs_binheap_pointer]: the place of an index; [slot_read] and [slot_write] are
    [*ptr] and [*ptr = e]. *)
Definition slot : Type := chunk_name * Z.

Definition pointer_of (idx : Z) : slot :=
  if idx <? CBH_SIZE then (Chunk1, idx)
  else
    let idx := idx - CBH_SIZE in
    if idx <? CBH_SIZE * CBH_SIZE
    then (Chunk2 (Z.shiftr idx CBH_SHIFT), Z.land idx CBH_MASK)
    else
      let idx := idx - CBH_SIZE * CBH_SIZE in
      (Chunk3 (Z.shiftr idx (2 * CBH_SHIFT)) (Z.land (Z.shiftr idx CBH_SHIFT) CBH_MASK),
       Z.land idx CBH_MASK).

Definition cfs_binheap_pointer h (idx : Z) : run slot :=
  match get_chunk h (pointer_of idx).1 with
  | None => LBUG
  | Some _ => Ret (pointer_of idx)
  end.

Definition slot_read h (s : slot) : option Z := entry (get_chunk h s.1) s.2.
Definition slot_write h (s : slot) (e : Z) : cfs_binheap P :=
  set_chunk h s.1 (<[s.2 := e]> (default ∅ (get_chunk h s.1))).

(** [cfs_binheap_grow]; [alloc n] tells whether its allocation number [n] succeeds. *)
Definition cfs_binheap_grow (alloc : nat -> bool) h : run (Z * cfs_binheap P) :=
  let hwm := s32 (cbh_hwm h) in
  lassert Z.land (cbh_hwm h) CBH_MASK =? 0;
  let out h := Ret (0, set_hwm h (u32 (cbh_hwm h + CBH_SIZE))) in
  if hwm =? 0 then
    if negb (alloc 0%nat)
    then Ret (- ENOMEM, set_elements h (cbh_elements3 h) (cbh_elements2 h) None)
    else out (set_elements h (cbh_elements3 h) (cbh_elements2 h) (Some ∅))
  else
    let hwm := hwm - CBH_SIZE in
    if hwm <? CBH_SIZE * CBH_SIZE then
      if negb (alloc 0%nat) then Ret (- ENOMEM, h)
      else if (hwm =? 0) && negb (alloc 1%nat)
      then Ret (- ENOMEM, set_elements h (cbh_elements3 h) None (cbh_elements1 h))
      else
        let e2 := if hwm =? 0 then Some ∅ else cbh_elements2 h in
        match e2 with
        | None => LBUG
        | Some m =>
            out (set_elements h (cbh_elements3 h) (Some (<[Z.shiftr hwm CBH_SHIFT := ∅]> m))
                   (cbh_elements1 h))
        end
    else
      let hwm := hwm - CBH_SIZE * CBH_SIZE in
      if CBH_SIZE * CBH_SIZE * CBH_SIZE <=? hwm then Ret (- ENOMEM, h)
      else if negb (alloc 0%nat) then Ret (- ENOMEM, h)
      else
        let first := Z.land (Z.shiftr hwm CBH_SHIFT) CBH_MASK =? 0 in
        if first && negb (alloc 1%nat) then Ret (- ENOMEM, h)
        else if (hwm =? 0) && negb (alloc 2%nat)
        then Ret (- ENOMEM, set_elements h None (cbh_elements2 h) (cbh_elements1 h))
        else
          let e3 := if hwm =? 0 then Some ∅ else cbh_elements3 h in
          match e3 with
          | None => LBUG
          | Some m =>
              let i := Z.shiftr hwm (2 * CBH_SHIFT) in
              lassert (if first then bool_decide (m !! i = None) else bool_decide (m !! i <> None));
              let frag1 := if first then ∅ else default ∅ (m !! i) in
              let frag1 := <[Z.land (Z.shiftr hwm CBH_SHIFT) CBH_MASK := ∅]> frag1 in
              out (set_elements h (Some (<[i := frag1]> m)) (cbh_elements2 h) (cbh_elements1 h))
          end.

(** [cfs_binheap_destroy]: the memory it frees, in order.  Freeing a null pointer only
    prints a message. *)
Inductive block_name := BlockChunk (c : chunk_name) | BlockTable2 | BlockTable3 (i : Z) | BlockTable.

Definition free_chunk h (c : chunk_name) : list block_name :=
  match get_chunk h c with Some _ => [BlockChunk c] | None => [] end.

Fixpoint destroy2_loop (fuel : nat) h (idx0 n : Z) : list block_name * Z :=
  match fuel with
  | O => ([], n)
  | S fuel' =>
      if (idx0 <? CBH_SIZE) && (0 <? n) then
        let '(freed, n') := destroy2_loop fuel' h (idx0 + 1) (n - CBH_SIZE) in
        (free_chunk h (Chunk2 idx0) ++ freed, n')
      else ([], n)
  end.

Fixpoint destroy3_inner (fuel : nat) h (idx0 idx1 n : Z) : list block_name * Z :=
  match fuel with
  | O => ([], n)
  | S fuel' =>
      if (idx1 <? CBH_SIZE) && (0 <? n) then
        let '(freed, n') := destroy3_inner fuel' h idx0 (idx1 + 1) (n - CBH_SIZE) in
        (free_chunk h (Chunk3 idx0 idx1) ++ freed, n')
      else ([], n)
  end.

Fixpoint destroy3_loop (fuel : nat) h (idx0 n : Z) : list block_name * Z :=
  match fuel with
  | O => ([], n)
  | S fuel' =>
      if (idx0 <? CBH_SIZE) && (0 <? n) then
        let '(inner, n) := destroy3_inner (S (Z.to_nat CBH_SIZE)) h idx0 0 n in
        let '(freed, n') := destroy3_loop fuel' h (idx0 + 1) n in
        (inner ++ BlockTable3 idx0 :: freed, n')
      else ([], n)
  end.

Definition cfs_binheap_destroy h : list block_name :=
  let n := s32 (cbh_hwm h) in
  let '(freed1, n) := if 0 <? n then (free_chunk h Chunk1, n - CBH_SIZE) else ([], n) in
  let '(freed2, n) :=
    if 0 <? n then
      let '(freed, n) := destroy2_loop (S (Z.to_nat CBH_SIZE)) h 0 n in (freed ++ [BlockTable2], n)
    else ([], n) in
  let '(freed3, n) :=
    if 0 <? n then
      let '(freed, n) := destroy3_loop (S (Z.to_nat CBH_SIZE)) h 0 n in (freed ++ [BlockTable], n)
    else ([], n) in
  freed1 ++ freed2 ++ freed3.

(** [cfs_binheap_create]: [alloc k n] is about allocation [n] of the growth [k] turns
    before the last possible one. *)
Fixpoint create_loop (fuel : nat) (alloc : nat -> nat -> bool) (count : Z) h : run (option (cfs_binheap P)) :=
  match fuel with
  | O => LBUG
  | S fuel' =>
      if cbh_hwm h <? count then
        p ← cfs_binheap_grow (alloc fuel') h;
        let '(rc, h) := p in
        if negb (rc =? 0) then Ret None else create_loop fuel' alloc count h
      else Ret (Some h)
  end.

Definition cfs_binheap_create (alloc_heap : bool) (alloc : nat -> nat -> bool) (count : Z) (arg : P)
    (index : gmap Z Z) : run (option (cfs_binheap P)) :=
  if negb alloc_heap then Ret None
  else create_loop (S (Z.to_nat count)) alloc count (Binheap P None None None 0 0 arg index).

Definition cfs_binheap_find h (idx : Z) : run (option Z) :=
  if cbh_nelements h <=? idx then Ret None
  else p ← cfs_binheap_pointer h idx; Ret (slot_read h p).

Definition cfs_binheap_root h : run (option Z) := cfs_binheap_find h 0.
Definition cfs_binheap_size h : Z := s32 (cbh_nelements h).
Definition cfs_binheap_is_empty h : bool := cbh_nelements h =? 0.

(** ** Moving nodes *)

Section Ops.
Context (hop_enter : option (P -> Z -> Z * P)) (hop_exit : option (P -> Z -> P)).
Context (hop_compare : Z -> Z -> bool).

Definition node_index h (e : option Z) : run Z :=
  match e with
  | None => LBUG
  | Some e => match chn_index h !! e with Some i => Ret i | None => LBUG end
  end.

(** The end of both loops: the node comes to rest. *)
Definition settle h (e cur_idx : Z) (did_sth : bool) : run (bool * cfs_binheap P) :=
  cur_ptr ← cfs_binheap_pointer h cur_idx;
  Ret (did_sth, slot_write (set_index h e cur_idx) cur_ptr e).

Fixpoint bubble_loop (fuel : nat) h (e cur_idx : Z) (did_sth : bool) : run (bool * cfs_binheap P) :=
  match fuel with
  | O => LBUG
  | S fuel' =>
      if cur_idx =? 0 then settle h e cur_idx did_sth
      else
        cur_ptr ← cfs_binheap_pointer h cur_idx;
        let parent_idx := Z.shiftr (cur_idx - 1) 1 in
        parent_ptr ← cfs_binheap_pointer h parent_idx;
        pi ← node_index h (slot_read h parent_ptr);
        lassert pi =? parent_idx;
        let parent := default 0 (slot_read h parent_ptr) in
        if hop_compare parent e then settle h e cur_idx did_sth
        else bubble_loop fuel' (slot_write (set_index h parent cur_idx) cur_ptr parent) e parent_idx true
  end.

Definition cfs_binheap_bubble h (e : Z) : run (bool * cfs_binheap P) :=
  cur_idx ← node_index h (Some e);
  cur_ptr ← cfs_binheap_pointer h cur_idx;
  lassert bool_decide (slot_read h cur_ptr = Some e);
  bubble_loop (S (Z.to_nat cur_idx)) h e cur_idx false.

(** The child the loop of [cfs_binheap_sink] looks at: the smaller one. *)
Definition sink_child h (child_idx : Z) : run (Z * slot * option Z) :=
  child_ptr ← cfs_binheap_pointer h child_idx;
  let child := slot_read h child_ptr in
  let child2_idx := child_idx + 1 in
  if child2_idx <? cbh_nelements h then
    child2_ptr ← cfs_binheap_pointer h child2_idx;
    let child2 := slot_read h child2_ptr in
    match child2, child with
    | Some c2, Some c =>
        if hop_compare c2 c then Ret (child2_idx, child2_ptr, child2) else Ret (child_idx, child_ptr, child)
    | _, _ => LBUG
    end
  else Ret (child_idx, child_ptr, child).

Fixpoint sink_loop (fuel : nat) h (e cur_idx : Z) (did_sth : bool) : run (bool * cfs_binheap P) :=
  match fuel with
  | O => LBUG
  | S fuel' =>
      let child_idx := u32 (Z.shiftl cur_idx 1 + 1) in
      if negb (cur_idx <? cbh_nelements h) || (cbh_nelements h <=? child_idx)
      then settle h e cur_idx did_sth
      else
        cur_ptr ← cfs_binheap_pointer h cur_idx;
        c ← sink_child h child_idx;
        let '(child_idx, _, child) := c in
        ci ← node_index h child;
        lassert ci =? child_idx;
        let child := default 0 child in
        if hop_compare e child then settle h e cur_idx did_sth
        else sink_loop fuel' (slot_write (set_index h child cur_idx) cur_ptr child) e child_idx true
  end.

Definition cfs_binheap_sink h (e : Z) : run (bool * cfs_binheap P) :=
  cur_idx ← node_index h (Some e);
  cur_ptr ← cfs_binheap_pointer h cur_idx;
  lassert bool_decide (slot_read h cur_ptr = Some e);
  sink_loop (S (Z.to_nat (cbh_nelements h))) h e cur_idx false.

Definition cfs_binheap_relocate h (e : Z) : run (cfs_binheap P) :=
  p ← cfs_binheap_bubble h e;
  let '(did_sth, h) := p in
  if (did_sth : bool) then Ret h else p ← cfs_binheap_sink h e; Ret p.2.

(** ** Inserting and removing *)

Definition cfs_binheap_insert (alloc : nat -> bool) h (e : Z) : run (Z * cfs_binheap P) :=
  let new_idx := cbh_nelements h in
  p ← (if new_idx =? cbh_hwm h then cfs_binheap_grow alloc h else Ret (0, h));
  let '(rc, h) := p in
  if negb (rc =? 0) then Ret (rc, h)
  else
    let '(rc, h) :=
      match hop_enter with
      | None => (0, h)
      | Some enter => let '(rc, priv) := enter (cbh_private h) e in (rc, set_private h priv)
      end in
    if negb (rc =? 0) then Ret (rc, h)
    else
      let h := set_index h e new_idx in
      new_ptr ← cfs_binheap_pointer h new_idx;
      let h := set_nelements h (u32 (cbh_nelements h + 1)) in
      p ← cfs_binheap_bubble (slot_write h new_ptr e) e;
      Ret (0, p.2).

Definition cfs_binheap_remove h (e : Z) : run (cfs_binheap P) :=
  let n := cbh_nelements h in
  cur_idx ← node_index h (Some e);
  lassert negb (cur_idx =? CBH_POISON);
  lassert cur_idx <? n;
  cur_ptr ← cfs_binheap_pointer h cur_idx;
  lassert bool_decide (slot_read h cur_ptr = Some e);
  let n := n - 1 in
  last_ptr ← cfs_binheap_pointer h n;
  match slot_read h last_ptr with
  | None => LBUG
  | Some last =>
      let h := set_nelements h n in
      if last =? e then Ret h
      else
        h ← cfs_binheap_relocate (slot_write (set_index h last cur_idx) cur_ptr last) last;
        let h := set_index h e CBH_POISON in
        match hop_exit with
        | None => Ret h
        | Some exit_ => Ret (set_private h (exit_ (cbh_private h) e))
        end
  end.

Definition cfs_binheap_remove_root h : run (option Z * cfs_binheap P) :=
  e ← cfs_binheap_root h;
  match e with
  | None => Ret (None, h)
  | Some n => h ← cfs_binheap_remove h n; Ret (e, h)
  end.
End Ops.
End Heap.
