(* ===== verification/BinHeapTable.v ===== *)
(** The tables of the binary heap (libcfs/libcfs/heap.c, [cfs_binheap_grow] and
    [cfs_binheap_pointer]) are an array: every index below the high water mark has its own
    slot, and growing keeps what the slots hold. *)

From stdpp Require Import gmap.
From S2P Require Import Prelude BinHeap.

(** ** Where an index is *)

(** The chunk with a number: the direct one, then those of the two tables. *)
Definition chunk_of (c : Z) : chunk_name :=
  if c =? 0 then Chunk1 else if c <=? 512 then Chunk2 (c - 1)
  else Chunk3 ((c - 513) / 512) ((c - 513) mod 512).

Definition CBH_CHUNKS : Z := 1 + 512 + 512 * 512.

Lemma pointer_of_eq idx : 0 <= idx -> pointer_of idx = (chunk_of (idx / 512), idx mod 512).
Proof.
  intros Hi. unfold pointer_of, chunk_of, CBH_SIZE, CBH_MASK, CBH_SIZE, CBH_SHIFT.
  change (Z.shiftl 1 9) with 512. change (512 - 1) with (2 ^ 9 - 1). change (2 * 9) with 18.
  rewrite !(land_mask _ 9), !(shiftr_div _ 9), (shiftr_div _ 18) by lia. change (2 ^ 9) with 512. change (2 ^ 18) with (512 * 512).
  destruct (Z.ltb_spec idx 512).
  { rewrite (Z.div_small idx 512), (Z.mod_small idx 512) by lia. done. }
  destruct (Z.ltb_spec (idx - 512) (512 * 512)).
  - destruct (Z.eqb_spec (idx / 512) 0); [int_lia|]. destruct (Z.leb_spec (idx / 512) 512); [|int_lia].
    apply f_equal2; [apply f_equal|]; int_lia.
  - destruct (Z.eqb_spec (idx / 512) 0); [int_lia|]. destruct (Z.leb_spec (idx / 512) 512); [int_lia|].
    rewrite <-Z.div_div by lia. replace (idx - 512 - 512 * 512) with (idx + (-513) * 512) by lia.
    rewrite Z.div_add, Z.mod_add by lia. f_equal.
Qed.

Lemma chunk_of_inj c c' : 0 <= c -> 0 <= c' -> chunk_of c = chunk_of c' -> c = c'.
Proof.
  unfold chunk_of. intros H H'.
  destruct (Z.eqb_spec c 0), (Z.eqb_spec c' 0), (Z.leb_spec c 512), (Z.leb_spec c' 512);
    try discriminate; intros [=]; try lia. int_lia.
Qed.

Lemma pointer_of_inj i j : 0 <= i -> 0 <= j -> pointer_of i = pointer_of j -> i = j.
Proof.
  intros Hi Hj. rewrite !pointer_of_eq by done. intros [= H1%chunk_of_inj H2]; [|int_lia..].
  rewrite (Z.div_mod i 512), (Z.div_mod j 512) by lia. congruence.
Qed.

Section Table.
Context {P : Type}.
Implicit Types h : cfs_binheap P.

(** ** Reading and writing *)

Lemma get_set_chunk h c k : get_chunk (set_chunk h c k) c = Some k.
Proof. destruct c; cbn; [done| |]; rewrite ?lookup_insert_eq; cbn; by rewrite ?lookup_insert_eq. Qed.

Lemma get_set_chunk_ne h c c' k : c <> c' -> get_chunk (set_chunk h c k) c' = get_chunk h c'.
Proof.
  intros Hne. destruct c, c'; cbn; try done.
  - rewrite lookup_insert_ne by congruence. by destruct (cbh_elements2 h).
  - destruct (decide (i = i0)) as [->|]; [|rewrite lookup_insert_ne by done; by destruct (cbh_elements3 h)].
    rewrite lookup_insert_eq. cbn. rewrite lookup_insert_ne by congruence.
    destruct (cbh_elements3 h) as [m|]; cbn; [|by rewrite lookup_empty]. by destruct (m !! i0).
Qed.

(** What is there at an index. *)
Definition at_index h (idx : Z) : option Z := slot_read h (pointer_of idx).

Lemma write_at h i j e :
  0 <= i -> 0 <= j ->
  at_index (slot_write h (pointer_of i) e) j = if decide (i = j) then Some e else at_index h j.
Proof.
  intros Hi Hj. unfold at_index, slot_read, slot_write. destruct (decide (i = j)) as [->|Hne].
  - rewrite get_set_chunk. cbn. by rewrite lookup_insert_eq.
  - destruct (decide ((pointer_of i).1 = (pointer_of j).1)) as [E|E]; [|by rewrite get_set_chunk_ne].
    rewrite E, get_set_chunk. cbn. rewrite lookup_insert_ne; [by destruct (get_chunk h _)|].
    intros E'. apply Hne, pointer_of_inj; [done..|]. destruct (pointer_of i), (pointer_of j). cbn in *. congruence.
Qed.

(** ** Which chunks there are *)

Record table_ok h : Prop := {
  tb_hwm : exists k, 0 <= k <= CBH_CHUNKS /\ cbh_hwm h = 512 * k;
  tb_chunks : forall c, 0 <= c -> is_Some (get_chunk h (chunk_of c)) <-> 512 * c < cbh_hwm h;
  tb_middle : forall i, 0 <= i -> is_Some (entry (cbh_elements3 h) i) <-> 512 * (513 + 512 * i) < cbh_hwm h
}.

Lemma pointer_ok h idx :
  table_ok h -> 0 <= idx < cbh_hwm h -> cfs_binheap_pointer h idx = Ret (pointer_of idx).
Proof.
  intros Hk Hi. unfold cfs_binheap_pointer. rewrite pointer_of_eq by lia. cbn [fst].
  pose proof (tb_hwm _ Hk) as (k & _ & Ek).
  destruct (tb_chunks _ Hk (idx / 512)) as [_ [c ->]]; [int_lia|int_lia|]. done.
Qed.

Lemma is_chunk_set h c c' k :
  is_Some (get_chunk (set_chunk h c k) c') <-> c = c' \/ is_Some (get_chunk h c').
Proof.
  destruct (decide (c = c')) as [->|Hne].
  - rewrite get_set_chunk. split; [by left|done].
  - rewrite get_set_chunk_ne by done. tauto.
Qed.

(** ** Growing *)

(** Everything but the tables and the high water mark. *)
Definition same_rest h h' : Prop :=
  cbh_nelements h' = cbh_nelements h /\ cbh_private h' = cbh_private h /\ chn_index h' = chn_index h.

(** The chunk number [k] is new, and empty. *)
Definition grown h h' (k : Z) : Prop :=
  same_rest h h' /\ cbh_hwm h' = cbh_hwm h + 512
  /\ (forall c, 0 <= c -> get_chunk h' (chunk_of c) = if decide (c = k) then Some ∅ else get_chunk h (chunk_of c))
  /\ (forall i, 0 <= i -> is_Some (entry (cbh_elements3 h') i) <-> 513 + 512 * i <= k).

Lemma grown_ok h h' k :
  table_ok h -> cbh_hwm h = 512 * k -> 0 <= k < CBH_CHUNKS -> grown h h' k ->
  table_ok h' /\ forall idx, 0 <= idx < cbh_hwm h -> at_index h' idx = at_index h idx.
Proof.
  intros Hk E Hb (_ & Eh & Hc & Hm). split; [split|].
  - exists (k + 1). lia.
  - intros c Hc0. rewrite (Hc c Hc0), Eh, E. destruct (decide (c = k)) as [->|].
    + split; [lia|by eexists].
    + rewrite (tb_chunks _ Hk c Hc0), E. lia.
  - intros i Hi. rewrite (Hm i Hi). lia.
  - intros idx Hi. unfold at_index, slot_read. rewrite pointer_of_eq by lia. cbn [fst snd].
    rewrite Hc by int_lia. destruct (decide _); [int_lia|done].
Qed.

Lemma no_chunk h c : table_ok h -> 0 <= c -> cbh_hwm h <= 512 * c -> get_chunk h (chunk_of c) = None.
Proof.
  intros Hk Hc Hh. apply eq_None_not_Some. intros Hs%(tb_chunks _ Hk c Hc). lia.
Qed.

Lemma grown_direct h :
  table_ok h -> cbh_hwm h = 0 ->
  grown h (set_hwm (set_elements h (cbh_elements3 h) (cbh_elements2 h) (Some ∅)) 512) 0.
Proof.
  intros Hk E. split_and!; [done|cbn; lia| |].
  - intros c Hc. destruct (decide (c = 0)) as [->|Hne]; [done|]. unfold chunk_of.
    destruct (Z.eqb_spec c 0); [done|]. by destruct (c <=? 512).
  - intros i Hi. cbn. rewrite (tb_middle _ Hk i Hi). lia.
Qed.

Lemma grown_table h k m :
  table_ok h -> cbh_hwm h = 512 * k -> 1 <= k <= 512 ->
  m = (if k =? 1 then ∅ else default ∅ (cbh_elements2 h)) ->
  grown h (set_hwm (set_elements h (cbh_elements3 h) (Some (<[k - 1 := ∅]> m)) (cbh_elements1 h))
             (cbh_hwm h + 512)) k.
Proof.
  intros Hk E Hb Em. split_and!; [done|done| |].
  - intros c Hc. destruct (decide (c = k)) as [->|Hne]; unfold chunk_of.
    + destruct (Z.eqb_spec k 0); [lia|]. destruct (Z.leb_spec k 512); [|lia]. cbn. by rewrite lookup_insert_eq.
    + pose proof (no_chunk h c Hk Hc) as Hno. unfold chunk_of in Hno.
      destruct (Z.eqb_spec c 0); [done|]. destruct (Z.leb_spec c 512); [|done]. cbn in *.
      rewrite lookup_insert_ne by lia. subst m. destruct (Z.eqb_spec k 1) as [->|].
      * rewrite lookup_empty, Hno by lia. done.
      * by destruct (cbh_elements2 h).
  - intros i Hi. cbn. rewrite (tb_middle _ Hk i Hi). lia.
Qed.

Lemma grown_tables h k m i j f :
  table_ok h -> cbh_hwm h = 512 * k -> 513 <= k < CBH_CHUNKS -> i = (k - 513) / 512 -> j = (k - 513) mod 512 ->
  m = (if k =? 513 then ∅ else default ∅ (cbh_elements3 h)) ->
  f = (if j =? 0 then ∅ else default ∅ (m !! i)) ->
  grown h (set_hwm (set_elements h (Some (<[i := <[j := ∅]> f]> m)) (cbh_elements2 h) (cbh_elements1 h))
             (cbh_hwm h + 512)) k.
Proof.
  intros Hk E Hb Ei Ej Em Ef.
  assert (Hm : forall i', 0 <= i' -> m !! i' = entry (cbh_elements3 h) i').
  { intros i' Hi'. subst m. destruct (Z.eqb_spec k 513); [|by destruct (cbh_elements3 h)].
    rewrite lookup_empty. symmetry. apply eq_None_not_Some. intros Hs%(tb_middle _ Hk i' Hi'). lia. }
  split_and!; [done|done| |].
  - intros c Hc. destruct (decide (c = k)) as [->|Hne]; unfold chunk_of.
    { destruct (Z.eqb_spec k 0); [lia|]. destruct (Z.leb_spec k 512); [lia|]. cbn.
      rewrite <-Ei, <-Ej, lookup_insert_eq. cbn. by rewrite lookup_insert_eq. }
    pose proof (no_chunk h c Hk Hc) as Hno. unfold chunk_of in Hno.
    destruct (Z.eqb_spec c 0); [done|]. destruct (Z.leb_spec c 512); [done|]. cbn in *.
    destruct (decide ((c - 513) / 512 = i)) as [Ec|Ec].
    + rewrite Ec in *. rewrite lookup_insert_eq. cbn. rewrite lookup_insert_ne by int_lia.
      rewrite <-Hm in Hno |- * by int_lia. subst f. destruct (Z.eqb_spec j 0).
      * rewrite lookup_empty. symmetry. apply Hno. int_lia.
      * by destruct (m !! i).
    + rewrite lookup_insert_ne by done. by rewrite Hm by int_lia.
  - intros i' Hi'. cbn. destruct (decide (i' = i)) as [->|].
    + rewrite lookup_insert_eq. split; [int_lia|done].
    + rewrite lookup_insert_ne, Hm, (tb_middle _ Hk i' Hi') by done. int_lia.
Qed.

(** The tables are what they were as far as chunks go. *)
Lemma kept_ok h h' :
  table_ok h -> cbh_hwm h' = cbh_hwm h ->
  (forall c, 0 <= c -> get_chunk h' (chunk_of c) = get_chunk h (chunk_of c)) ->
  (forall i, 0 <= i -> is_Some (entry (cbh_elements3 h') i) <-> is_Some (entry (cbh_elements3 h) i)) ->
  table_ok h' /\ forall idx, 0 <= idx -> at_index h' idx = at_index h idx.
Proof.
  intros [Hw Hc Hm] E Ec Em. split; [split|].
  - by rewrite E.
  - intros c Hc0. rewrite Ec, E by done. by apply Hc.
  - intros i Hi. rewrite Em, E by done. by apply Hm.
  - intros idx Hi. unfold at_index, slot_read. rewrite pointer_of_eq by done. cbn [fst snd].
    by rewrite Ec by int_lia.
Qed.

(** An allocation that fails leaves the heap as it was. *)
Definition grow_fails h h' : Prop :=
  table_ok h' /\ same_rest h h' /\ cbh_hwm h' = cbh_hwm h
  /\ forall idx, 0 <= idx -> at_index h' idx = at_index h idx.

Lemma kept_fails h h' :
  table_ok h -> same_rest h h' -> cbh_hwm h' = cbh_hwm h ->
  (forall c, 0 <= c -> get_chunk h' (chunk_of c) = get_chunk h (chunk_of c)) ->
  (forall i, 0 <= i -> is_Some (entry (cbh_elements3 h') i) <-> is_Some (entry (cbh_elements3 h) i)) ->
  grow_fails h h'.
Proof. intros Hk Hs E Ec Em. destruct (kept_ok h h' Hk E Ec Em) as [? ?]. by split_and!. Qed.

Lemma fails_refl h : table_ok h -> grow_fails h h.
Proof. intros Hk. by split_and!. Qed.

Lemma fails_direct h :
  table_ok h -> cbh_hwm h = 0 -> grow_fails h (set_elements h (cbh_elements3 h) (cbh_elements2 h) None).
Proof.
  intros Hk E. apply kept_fails; try done.
  intros c Hc. pose proof (no_chunk h c Hk Hc) as Hno. unfold chunk_of in *.
  destruct (c =? 0); [cbn in *; symmetry; apply Hno; lia|by destruct (c <=? 512)].
Qed.

Lemma fails_table h :
  table_ok h -> cbh_hwm h = 512 -> grow_fails h (set_elements h (cbh_elements3 h) None (cbh_elements1 h)).
Proof.
  intros Hk E. apply kept_fails; try done.
  intros c Hc. pose proof (no_chunk h c Hk Hc) as Hno. unfold chunk_of in *.
  destruct (Z.eqb_spec c 0); [done|]. destruct (c <=? 512); [|done]. cbn in *. symmetry. apply Hno. lia.
Qed.

Lemma fails_tables h :
  table_ok h -> cbh_hwm h = 512 * 513 ->
  grow_fails h (set_elements h None (cbh_elements2 h) (cbh_elements1 h)).
Proof.
  intros Hk E. apply kept_fails; try done.
  - intros c Hc. pose proof (no_chunk h c Hk Hc) as Hno. unfold chunk_of in *.
    destruct (Z.eqb_spec c 0); [done|]. destruct (Z.leb_spec c 512); [done|]. cbn in *. symmetry. apply Hno. lia.
  - intros i Hi. cbn. split; [by intros []|]. intros Hs%(tb_middle _ Hk i Hi). lia.
Qed.

(** Memory is short, or the heap is full. *)
Definition grow_excuse (alloc : nat -> bool) h : Prop :=
  (exists n, alloc n = false) \/ cbh_hwm h = 512 * CBH_CHUNKS.

(** What growing the heap gives. *)
Definition grow_result (alloc : nat -> bool) h (r : run (Z * cfs_binheap P)) : Prop :=
  exists rc h', r = Ret (rc, h')
    /\ ((rc = - ENOMEM /\ grow_fails h h' /\ grow_excuse alloc h)
        \/ (rc = 0 /\ exists k, cbh_hwm h = 512 * k /\ 0 <= k < CBH_CHUNKS /\ grown h h' k)).

Lemma grow_result_fail alloc h h' : grow_excuse alloc h -> grow_fails h h' -> grow_result alloc h (Ret (- ENOMEM, h')).
Proof. intros He Hf. exists (- ENOMEM), h'. split; [done|]. by left. Qed.

Lemma grow_result_ok alloc h h' k :
  cbh_hwm h = 512 * k -> 0 <= k < CBH_CHUNKS -> grown h h' k -> grow_result alloc h (Ret (0, h')).
Proof. intros E Hk Hg. exists 0, h'. split; [done|]. right. split; [done|]. by exists k. Qed.

(** The table in the middle is there unless its first chunk is the one to come, as
    [cfs_binheap_grow] asserts. *)
Lemma middle_slot h k m i j :
  m = (if k =? 513 then ∅ else default ∅ (cbh_elements3 h)) -> i = (k - 513) / 512 -> j = (k - 513) mod 512 ->
  table_ok h -> cbh_hwm h = 512 * k -> 513 <= k < CBH_CHUNKS ->
  (if j =? 0 then bool_decide (m !! i = None) else bool_decide (m !! i <> None)) = true.
Proof.
  intros Em Ei Ej' Hk E Hb. unfold CBH_CHUNKS in Hb. assert (Hm : is_Some (m !! i) <-> j <> 0).
  { subst m i j. destruct (Z.eqb_spec k 513) as [->|].
    - rewrite lookup_empty. split; [by intros []|done].
    - destruct (tb_middle _ Hk ((k - 513) / 512) ltac:(int_lia)) as [M1 M2]. split.
      + intros Hs. assert (512 * (513 + 512 * ((k - 513) / 512)) < cbh_hwm h); [|int_lia].
        apply M1. by destruct (cbh_elements3 h).
      + intros Hj0. assert (is_Some (entry (cbh_elements3 h) ((k - 513) / 512))) by (apply M2; int_lia).
        by destruct (cbh_elements3 h). }
  destruct (Z.eqb_spec j 0) as [Ej|Ej]; apply bool_decide_eq_true.
  - apply eq_None_not_Some. by intros ?%Hm.
  - apply Hm in Ej as [x ->]. done.
Qed.

Lemma grow_spec alloc h :
  table_ok h ->
  grow_result alloc h (cfs_binheap_grow alloc h).
Proof.
  intros Hk. pose proof (tb_hwm _ Hk) as (k & Hb & E). pose proof Hb as Hb'. unfold CBH_CHUNKS in Hb'.
  unfold cfs_binheap_grow. rewrite swrap_small by lia. unfold CBH_MASK, CBH_SIZE, CBH_SHIFT, LASSERT.
  change (Z.shiftl 1 9) with 512. cbn [cbh_hwm set_elements]. rewrite (wrap_small 32) by (unfold in_u; lia).
  change (512 - 1) with (2 ^ 9 - 1). rewrite !(land_mask _ 9) by lia.
  replace (cbh_hwm h mod 2 ^ 9 =? 0) with true by (symmetry; apply Z.eqb_eq; change (2 ^ 9) with 512; int_lia).
  pose proof (grow_result_fail alloc h) as Hfail.
  assert (Hok : forall h', k < CBH_CHUNKS -> grown h h' k -> grow_result alloc h (Ret (0, h')))
    by (intros; eapply grow_result_ok; [done|lia|done]).
  pose proof (fails_refl h Hk) as Hrefl.
  assert (Hshort : forall n, alloc n = false -> grow_excuse alloc h) by (intros n ?; left; by exists n).
  destruct (Z.eqb_spec (cbh_hwm h) 0) as [E0|E0].
  { destruct (alloc 0%nat) eqn:A0; cbn [negb]; [apply Hok|apply Hfail; [by eapply Hshort|by apply fails_direct]].
    - unfold CBH_CHUNKS. lia.
    - rewrite E0. replace k with 0 by lia. by apply grown_direct. }
  destruct (Z.ltb_spec (cbh_hwm h - 512) (512 * 512)) as [Hlt|Hge].
  { destruct (alloc 0%nat) eqn:A0; cbn [negb]; [|apply Hfail; [by eapply Hshort|done]].
    assert (Hsh : Z.shiftr (cbh_hwm h - 512) 9 = k - 1) by (rewrite shiftr_div by lia; change (2 ^ 9) with 512; int_lia).
    rewrite Hsh. destruct (Z.eqb_spec (cbh_hwm h - 512) 0) as [E1|E1]; cbn [andb].
    - destruct (alloc 1%nat) eqn:A1; cbn [negb]; [|apply Hfail; [by eapply Hshort|apply fails_table; [done|lia]]].
      apply Hok; [unfold CBH_CHUNKS; lia|]. apply grown_table; [done|lia|lia|]. by destruct (Z.eqb_spec k 1); [|lia].
    - destruct (tb_chunks _ Hk 1 ltac:(lia)) as [_ Hs]. destruct Hs as [c Hs]; [lia|]. unfold chunk_of in Hs. cbn in Hs.
      destruct (cbh_elements2 h) as [m|] eqn:E2; [|done].
      apply Hok; [unfold CBH_CHUNKS; lia|]. apply grown_table; [done|lia|lia|]. rewrite E2. by destruct (Z.eqb_spec k 1); [lia|]. }
  destruct (Z.leb_spec (512 * 512 * 512) (cbh_hwm h - 512 - 512 * 512)).
  { apply Hfail; [right; unfold CBH_CHUNKS; lia|done]. }
  destruct (alloc 0%nat) eqn:A0; cbn [negb]; [|apply Hfail; [by eapply Hshort|done]].
  assert (Hj : Z.shiftr (cbh_hwm h - 512 - 512 * 512) 9 mod 2 ^ 9 = (k - 513) mod 512)
    by (rewrite shiftr_div by lia; change (2 ^ 9) with 512; int_lia).
  assert (Hi : Z.shiftr (cbh_hwm h - 512 - 512 * 512) (2 * 9) = (k - 513) / 512)
    by (rewrite shiftr_div by lia; change (2 ^ (2 * 9)) with (512 * 512); int_lia).
  rewrite Hi, Hj. set (i := (k - 513) / 512). set (j := (k - 513) mod 512).
  destruct ((j =? 0) && negb (alloc 1%nat)) eqn:Ea.
  { apply andb_true_iff in Ea as [_ Ea%negb_true_iff]. apply Hfail; [by eapply Hshort|done]. }
  set (m := if k =? 513 then ∅ else default ∅ (cbh_elements3 h)).
  assert (Hgrown : k < CBH_CHUNKS) by (unfold CBH_CHUNKS; lia).
  pose proof (middle_slot h k m i j eq_refl eq_refl eq_refl Hk E ltac:(lia)) as Hdec.
  pose proof (grown_tables h k m i j _ Hk E ltac:(lia) eq_refl eq_refl eq_refl eq_refl) as Hg.
  assert (Em : m = if k =? 513 then ∅ else default ∅ (cbh_elements3 h)) by done. clearbody m.
  destruct (Z.eqb_spec (cbh_hwm h - 512 - 512 * 512) 0) as [E1|E1]; cbn [andb].
  - destruct (alloc 2%nat) eqn:A2; cbn [negb]; [|apply Hfail; [by eapply Hshort|apply fails_tables; [done|lia]]].
    destruct (Z.eqb_spec k 513); [|lia]. rewrite Em in Hdec, Hg. rewrite Hdec. by apply Hok.
  - destruct (tb_middle _ Hk 0 ltac:(lia)) as [_ Hs]. destruct Hs as [c Hs]; [lia|].
    destruct (cbh_elements3 h) as [m3|] eqn:E3; [|done]. destruct (Z.eqb_spec k 513); [lia|].
    cbn in Em. rewrite <-Em, Hdec. by apply Hok.
Qed.

(** ** Writing keeps the tables *)

Lemma write_hwm h s e : cbh_hwm (slot_write h s e) = cbh_hwm h.
Proof. unfold slot_write. by destruct (s.1). Qed.

Lemma write_rest h s e : same_rest h (slot_write h s e).
Proof. unfold slot_write. by destruct (s.1). Qed.

Lemma write_table h idx e : table_ok h -> 0 <= idx < cbh_hwm h -> table_ok (slot_write h (pointer_of idx) e).
Proof.
  intros Hk Hi. pose proof (tb_hwm _ Hk) as (k & Hb & E).
  assert (Hc : is_Some (get_chunk h (pointer_of idx).1)).
  { rewrite pointer_of_eq by lia. cbn [fst]. apply (tb_chunks _ Hk); int_lia. }
  split; rewrite write_hwm; [by apply tb_hwm| |].
  - intros c Hc0. rewrite <-(tb_chunks _ Hk c Hc0). unfold slot_write. rewrite is_chunk_set.
    split; [intros [<-|]; done|by right].
  - intros i Hi0. rewrite <-(tb_middle _ Hk i Hi0). unfold slot_write.
    destruct (pointer_of idx).1 as [|i1|i1 j1] eqn:Ep; cbn; try done. cbn in Hc.
    destruct (cbh_elements3 h) as [m|]; [|by destruct Hc]. cbn in *.
    destruct (decide (i1 = i)) as [->|]; [|by rewrite lookup_insert_ne].
    rewrite lookup_insert_eq. split; [|done]. intros _. destruct (m !! i); [done|by destruct Hc].
Qed.
End Table.
