(* ===== verification/BinHeapOrder.v ===== *)
(** The binary heap as a list (libcfs/libcfs/heap.c): moving a node up or down restores
    the order of the heap, and no assertion fails on the way. *)

From stdpp Require Import gmap.
From S2P Require Import Prelude BinHeap BinHeapTable.

Definition parent (i : nat) : nat := Nat.div2 (i - 1).

Lemma parent_lt i : i <> 0%nat -> (parent i < i)%nat.
Proof. intros Hi. unfold parent. pose proof (Nat.lt_div2 i). pose proof (Nat.div2_decr (i - 1) (i - 1)). lia. Qed.

Lemma children i c : i <> 0%nat -> parent i = c <-> i = (2 * c + 1)%nat \/ i = (2 * c + 2)%nat.
Proof.
  intros Hi. unfold parent. rewrite Nat.div2_div. pose proof (Nat.div_mod (i - 1) 2).
  pose proof (Nat.mod_upper_bound (i - 1) 2). lia.
Qed.

(** A list with two entries exchanged. *)
Definition swapped (l : list Z) (i j : nat) (x y : Z) : list Z := <[i := y]> (<[j := x]> l).

Lemma swapped_perm (l : list Z) i j x y : l !! i = Some x -> l !! j = Some y -> swapped l i j x y ≡ₚ l.
Proof. intros Hi Hj. unfold swapped. by apply Permutation_insert_swap. Qed.

(** What the heap asks of its users' comparison: it may be the order [<=] or [<] of a
    total preorder. *)
Class CompareOrder {K : Type} (compare : K -> K -> bool) (le : K -> K -> Prop) : Prop := {
  co_preorder :: PreOrder le;
  co_true a b : compare a b = true -> le a b;
  co_false a b : compare a b = false -> le b a
}.

#[export] Instance compare_on {K N : Type} (key : N -> K) compare le :
  CompareOrder compare le -> CompareOrder (fun a b => compare (key a) (key b)) (fun a b => le (key a) (key b)).
Proof.
  intros H. split.
  - split; [by intros a|]. intros a b c ? ?. by etransitivity.
  - intros a b. apply H.
  - intros a b. apply H.
Qed.

Section Order.
Context {P : Type} (hop_compare : Z -> Z -> bool).
Implicit Types (h : cfs_binheap P) (l : list Z).

(** ** The heap in memory *)

(** The heap holds the list, but for what is at [hole]. *)
Record holds (hole : option nat) h l : Prop := {
  hd_table : table_ok h;
  hd_size : cbh_nelements h = Z.of_nat (length l);
  hd_room : cbh_nelements h <= cbh_hwm h;
  hd_nodup : NoDup l;
  hd_slots : forall i e, hole <> Some i -> l !! i = Some e ->
               at_index h (Z.of_nat i) = Some e /\ chn_index h !! e = Some (Z.of_nat i)
}.

Lemma holds_below hole h l i : holds hole h l -> (i < length l)%nat -> 0 <= Z.of_nat i < cbh_hwm h.
Proof. intros [] Hi. lia. Qed.

Lemma holds_pointer hole h l i :
  holds hole h l -> (i < length l)%nat -> cfs_binheap_pointer h (Z.of_nat i) = Ret (pointer_of (Z.of_nat i)).
Proof. intros Hh Hi. apply pointer_ok; [apply Hh|by eapply holds_below]. Qed.

Lemma holds_read hole h l i e :
  holds hole h l -> hole <> Some i -> l !! i = Some e ->
  slot_read h (pointer_of (Z.of_nat i)) = Some e /\ node_index h (Some e) = Ret (Z.of_nat i).
Proof.
  intros Hh Hne Hi. destruct (hd_slots _ _ _ Hh i e Hne Hi) as [H1 H2]. split; [exact H1|].
  unfold node_index. by rewrite H2.
Qed.

Lemma index_table h e i : table_ok h -> table_ok (set_index h e i).
Proof. by intros []. Qed.

(** The node [x] moves from [j] into the hole at [i], which the node [e] would take. *)
Lemma holds_move h l i j e x :
  holds (Some i) h l -> i <> j -> l !! i = Some e -> l !! j = Some x ->
  holds (Some j) (slot_write (set_index h x (Z.of_nat i)) (pointer_of (Z.of_nat i)) x) (swapped l i j e x).
Proof.
  intros Hh Hne Hi Hj. pose proof (lookup_lt_Some _ _ _ Hi) as Hli.
  pose proof (write_rest (set_index h x (Z.of_nat i)) (pointer_of (Z.of_nat i)) x) as (W1 & _ & W3).
  assert (Hlen : length (swapped l i j e x) = length l) by (unfold swapped; by rewrite !length_insert).
  split.
  - apply write_table; [apply index_table, Hh|exact (holds_below _ _ _ _ Hh Hli)].
  - rewrite W1, Hlen. apply Hh.
  - rewrite W1, write_hwm. apply Hh.
  - rewrite (swapped_perm l i j e x) by done. apply Hh.
  - intros k y Hk Hy. rewrite write_at, W3 by lia. unfold swapped in Hy.
    assert (k <> j) by congruence. cbn [chn_index set_index].
    destruct (decide (i = k)) as [<-|Hik].
    + rewrite list_lookup_insert_eq in Hy by (by rewrite length_insert). injection Hy as <-.
      rewrite decide_True by done. split; [done|]. by rewrite lookup_insert_eq.
    + rewrite !list_lookup_insert_ne in Hy by done. rewrite decide_False by lia.
      destruct (hd_slots _ _ _ Hh k y) as [H1 H2]; [congruence|done|]. split; [exact H1|].
      rewrite lookup_insert_ne; [exact H2|]. intros ->.
      by pose proof (NoDup_lookup _ _ _ _ (hd_nodup _ _ _ Hh) Hj Hy).
Qed.

(** The node comes to rest in the hole. *)
Lemma holds_settle h l i e did :
  holds (Some i) h l -> l !! i = Some e ->
  exists h', settle h e (Z.of_nat i) did = Ret (did, h') /\ holds None h' l
             /\ cbh_private h' = cbh_private h.
Proof.
  intros Hh Hi. pose proof (lookup_lt_Some _ _ _ Hi) as Hli. unfold settle.
  rewrite (holds_pointer _ _ _ _ Hh Hli). cbn [mbind run_bind]. eexists. split; [done|].
  pose proof (write_rest (set_index h e (Z.of_nat i)) (pointer_of (Z.of_nat i)) e) as (W1 & W2 & W3).
  split; [|by rewrite W2]. split.
  - apply write_table; [apply index_table, Hh|exact (holds_below _ _ _ _ Hh Hli)].
  - rewrite W1. apply Hh.
  - rewrite W1, write_hwm. apply Hh.
  - apply Hh.
  - intros k y _ Hy. rewrite write_at, W3 by lia. cbn [chn_index set_index].
    destruct (decide (i = k)) as [<-|Hik].
    + rewrite decide_True by done. assert (y = e) as -> by congruence. by rewrite lookup_insert_eq.
    + rewrite decide_False by lia. destruct (hd_slots _ _ _ Hh k y) as [H1 H2]; [congruence|done|].
      split; [exact H1|]. rewrite lookup_insert_ne; [exact H2|]. intros <-.
      by pose proof (NoDup_lookup _ _ _ _ (hd_nodup _ _ _ Hh) Hi Hy).
Qed.

Lemma holds_weaken hole h l : holds None h l -> holds hole h l.
Proof. intros []. split; try done. intros i e _ Hi. by apply hd_slots0. Qed.

Lemma holds_private hole h l p : holds hole h l -> holds hole (set_private h p) l.
Proof. intros [[]]. by split. Qed.

(** ** Order *)

Context {le : Z -> Z -> Prop} {Hle : CompareOrder hop_compare le}.

Definition ok l (i : nat) : Prop :=
  i <> 0%nat -> forall p x, l !! parent i = Some p -> l !! i = Some x -> le p x.
Definition heap l : Prop := forall i, ok l i.

(** Nothing is wrong but around [cur], and leaving out the node there nothing is. *)
Definition bypass l (cur : nat) : Prop :=
  cur <> 0%nat -> forall i p x, i <> 0%nat -> parent i = cur -> l !! parent cur = Some p -> l !! i = Some x -> le p x.
Definition near l (cur : nat) : Prop :=
  (forall i, i <> cur -> parent i <> cur -> ok l i) /\ bypass l cur.

Lemma lookup_swapped l i j x y k :
  l !! i = Some x -> l !! j = Some y -> i <> j ->
  swapped l i j x y !! k = if decide (k = i) then Some y else if decide (k = j) then Some x else l !! k.
Proof.
  intros Hi%lookup_lt_Some Hj%lookup_lt_Some Hne. unfold swapped.
  destruct (decide (k = i)) as [->|]; [by rewrite list_lookup_insert_eq by (by rewrite length_insert)|].
  rewrite list_lookup_insert_ne by done.
  destruct (decide (k = j)) as [->|]; [by rewrite list_lookup_insert_eq|by rewrite list_lookup_insert_ne].
Qed.

(** A node smaller than its parent changes places with it. *)
Lemma up_step l cur e p :
  cur <> 0%nat -> l !! cur = Some e -> l !! parent cur = Some p -> le e p -> near l cur ->
  near (swapped l cur (parent cur) e p) (parent cur)
  /\ forall i, i <> parent cur -> ok (swapped l cur (parent cur) e p) i.
Proof.
  intros Hc He Hp Hep [Hn Hb]. pose proof (parent_lt cur Hc) as Hlt.
  assert (Hok : forall i, i <> parent cur -> ok (swapped l cur (parent cur) e p) i).
  { intros i Hi Hi0 q x. rewrite !lookup_swapped by (done || lia).
    destruct (decide (parent i = cur)) as [E|E].
    - intros [= <-]. pose proof (parent_lt i Hi0). rewrite !decide_False by lia. by apply (Hb Hc i).
    - destruct (decide (parent i = parent cur)) as [E2|E2].
      + intros [= <-]. destruct (decide (i = cur)) as [->|Hic]; [by intros [= <-]|]. rewrite decide_False by done.
        intros Hx. transitivity p; [done|]. apply (Hn i Hic E Hi0); [by rewrite E2|done].
      + intros Hq. destruct (decide (i = cur)) as [->|]; [done|]. rewrite decide_False by done. by apply (Hn i). }
  split; [|done]. split; [by intros i Hi _; apply Hok|].
  intros Hpc i q x Hi0 Hi. pose proof (parent_lt (parent cur) Hpc).
  rewrite !lookup_swapped by (done || lia). rewrite !(decide_False (P := parent (parent cur) = _)) by lia.
  intros Hq. assert (Hqp : le q p) by (apply (Hn (parent cur)); [lia|lia|done..]).
  destruct (decide (i = cur)) as [->|Hic]; [by intros [= <-]|].
  pose proof (parent_lt i Hi0). rewrite decide_False by lia. intros Hx. transitivity p; [done|].
  apply (Hn i Hic); [lia|done|by rewrite Hi|done].
Qed.

Lemma shiftr_parent i : i <> 0%nat -> Z.shiftr (Z.of_nat i - 1) 1 = Z.of_nat (parent i).
Proof.
  intros Hi. unfold parent. rewrite shiftr_div, Nat.div2_div, Nat2Z.inj_div by lia. f_equal. lia.
Qed.

Lemma bubble_spec fuel : forall h l cur e did,
  holds (Some cur) h l -> l !! cur = Some e -> (cur < fuel)%nat -> near l cur ->
  (did = true -> forall i, i <> cur -> ok l i) ->
  exists did' h' l',
    bubble_loop hop_compare fuel h e (Z.of_nat cur) did = Ret (did', h')
    /\ holds None h' l' /\ l' ≡ₚ l /\ cbh_private h' = cbh_private h
    /\ (did' = true -> heap l') /\ (did' = false -> did = false /\ l' = l /\ ok l cur).
Proof.
  induction fuel as [|fuel IH]; intros h l cur e did Hh He Hf Hn Hd; [lia|]. cbn [bubble_loop].
  assert (Hstay : ok l cur -> exists did' h' l', settle h e (Z.of_nat cur) did = Ret (did', h')
    /\ holds None h' l' /\ l' ≡ₚ l /\ cbh_private h' = cbh_private h
    /\ (did' = true -> heap l') /\ (did' = false -> did = false /\ l' = l /\ ok l cur)).
  { intros Hok. destruct (holds_settle h l cur e did Hh He) as (h' & -> & Hh' & Hp).
    exists did, h', l. split_and!; try done. intros Ht i. destruct (decide (i = cur)) as [->|]; [done|by apply Hd]. }
  pose proof (lookup_lt_Some _ _ _ He) as Hl.
  destruct (Z.eqb_spec (Z.of_nat cur) 0) as [E|E]; [apply Hstay; intros ?; lia|].
  assert (Hc : cur <> 0%nat) by lia. pose proof (parent_lt cur Hc) as Hlt.
  rewrite (holds_pointer _ _ _ _ Hh Hl), shiftr_parent by done. cbn [mbind run_bind].
  destruct (lookup_lt_is_Some_2 l (parent cur)) as [p Hp]; [lia|].
  destruct (holds_read _ _ _ (parent cur) p Hh ltac:(intros [=]; lia) Hp) as [Hrd Hix].
  rewrite (holds_pointer _ _ _ (parent cur) Hh) by lia. cbn [mbind run_bind]. rewrite Hrd, Hix.
  cbn [mbind run_bind]. unfold LASSERT. rewrite Z.eqb_refl. change (default 0 (Some p)) with p.
  destruct (hop_compare p e) eqn:Ec.
  { apply Hstay. intros _ q x Hq Hx. assert (q = p) as -> by congruence. assert (x = e) as -> by congruence. by apply co_true. }
  apply co_false in Ec. destruct (up_step l cur e p Hc He Hp Ec Hn) as [Hn' Hok'].
  destruct (IH (slot_write (set_index h p (Z.of_nat cur)) (pointer_of (Z.of_nat cur)) p)
              (swapped l cur (parent cur) e p) (parent cur) e true)
    as (did' & h' & l' & -> & Hh' & Hpm & Hpr & Ht & Hfl); try done; [..|exists did', h', l'].
  - apply holds_move; (done || lia).
  - rewrite lookup_swapped by (done || lia). rewrite decide_False by lia. by rewrite decide_True.
  - lia.
  - split_and!; try done.
    + by rewrite Hpm, swapped_perm.
    + rewrite Hpr. apply (write_rest (set_index h p (Z.of_nat cur))).
    + intros Hdf. by destruct (Hfl Hdf).
Qed.

(** ** Down *)

Definition below l (cur : nat) : Prop := (forall i, parent i <> cur -> ok l i) /\ bypass l cur.

(** The least of the children of [cur]. *)
Definition least_child l (cur ci : nat) (c : Z) : Prop :=
  ci <> 0%nat /\ parent ci = cur /\ l !! ci = Some c
  /\ forall i x, i <> 0%nat -> parent i = cur -> l !! i = Some x -> le c x.

(** A node greater than the least of its children changes places with it. *)
Lemma down_step l cur ci e c :
  l !! cur = Some e -> least_child l cur ci c -> le c e -> below l cur -> below (swapped l cur ci e c) ci.
Proof.
  intros He (Hci & Hpc & Hc & Hmin) Hce [Hn Hb]. pose proof (parent_lt ci Hci) as Hlt.
  split.
  - intros i Hi Hi0 q x. rewrite !lookup_swapped by (done || lia).
    destruct (decide (parent i = cur)) as [E|E].
    + intros [= <-]. pose proof (parent_lt i Hi0). rewrite decide_False by lia.
      destruct (decide (i = ci)) as [->|]; [by intros [= <-]|by apply (Hmin i)].
    + rewrite (decide_False (P := parent i = ci)) by done. intros Hq.
      rewrite (decide_False (P := i = ci)) by congruence.
      destruct (decide (i = cur)) as [->|]; [|by apply (Hn i)].
      intros [= <-]. by eapply (Hb Hi0 ci).
  - intros _ i q x Hi0 Hi. pose proof (parent_lt i Hi0). rewrite Hpc, !lookup_swapped by (done || lia).
    rewrite (decide_True (P := cur = cur)) by done. intros [= <-]. rewrite !decide_False by lia.
    apply (Hn i); [lia|done|by rewrite Hi].
Qed.

Lemma sink_child_spec h l cur :
  holds (Some cur) h l -> (2 * cur + 1 < length l)%nat ->
  exists ci c, sink_child hop_compare h (Z.of_nat (2 * cur + 1)) = Ret (Z.of_nat ci, pointer_of (Z.of_nat ci), Some c)
               /\ least_child l cur ci c.
Proof.
  intros Hh Hlt. unfold sink_child.
  destruct (lookup_lt_is_Some_2 l (2 * cur + 1)) as [c Hc]; [done|].
  destruct (holds_read _ _ _ (2 * cur + 1) c Hh ltac:(intros [=]; lia) Hc) as [Hrd _].
  assert (Hpar : forall k, (k = 1 \/ k = 2)%nat -> parent (2 * cur + k) = cur).
  { intros k Hk. apply children; lia. }
  rewrite (holds_pointer _ _ _ _ Hh Hlt). cbn [mbind run_bind]. rewrite Hrd, (hd_size _ _ _ Hh).
  destruct (Z.ltb_spec (Z.of_nat (2 * cur + 1) + 1) (Z.of_nat (length l))) as [Hlt2|Hge].
  - replace (Z.of_nat (2 * cur + 1) + 1) with (Z.of_nat (2 * cur + 2)) by lia.
    destruct (lookup_lt_is_Some_2 l (2 * cur + 2)) as [c2 Hc2]; [lia|].
    destruct (holds_read _ _ _ (2 * cur + 2) c2 Hh ltac:(intros [=]; lia) Hc2) as [Hrd2 _].
    rewrite (holds_pointer _ _ _ (2 * cur + 2) Hh) by lia. cbn [mbind run_bind]. rewrite Hrd2.
    destruct (hop_compare c2 c) eqn:Ec.
    + exists (2 * cur + 2)%nat, c2. split; [done|]. split_and!; [lia|apply Hpar; lia|done|].
      intros i x Hi0 [->| ->]%children Hx; [| |done].
      * assert (x = c) as -> by congruence. by apply co_true.
      * by assert (x = c2) as -> by congruence.
    + exists (2 * cur + 1)%nat, c. split; [done|]. split_and!; [lia|apply Hpar; lia|done|].
      intros i x Hi0 [->| ->]%children Hx; [| |done].
      * by assert (x = c) as -> by congruence.
      * assert (x = c2) as -> by congruence. by apply co_false.
  - exists (2 * cur + 1)%nat, c. split; [done|]. split_and!; [lia|apply Hpar; lia|done|].
    intros i x Hi0 [->| ->]%children Hx; [| |done].
    + by assert (x = c) as -> by congruence.
    + apply lookup_lt_Some in Hx. lia.
Qed.

Lemma sink_spec fuel : forall h l cur e did,
  holds (Some cur) h l -> l !! cur = Some e -> (length l < cur + fuel)%nat -> below l cur ->
  exists did' h' l',
    sink_loop hop_compare fuel h e (Z.of_nat cur) did = Ret (did', h')
    /\ holds None h' l' /\ l' ≡ₚ l /\ cbh_private h' = cbh_private h /\ heap l'.
Proof.
  induction fuel as [|fuel IH]; intros h l cur e did Hh He Hf Hb.
  { apply lookup_lt_Some in He. lia. }
  cbn [sink_loop]. pose proof (lookup_lt_Some _ _ _ He) as Hl.
  assert (Hstay : (forall i x, i <> 0%nat -> parent i = cur -> l !! i = Some x -> le e x) ->
    exists did' h' l', settle h e (Z.of_nat cur) did = Ret (did', h')
    /\ holds None h' l' /\ l' ≡ₚ l /\ cbh_private h' = cbh_private h /\ heap l').
  { intros Hok. destruct (holds_settle h l cur e did Hh He) as (h' & -> & Hh' & Hp).
    exists did, h', l. split_and!; try done. intros i. destruct (decide (parent i = cur)) as [E|]; [|by apply Hb].
    intros Hi0 p x Hpx Hx. assert (p = e) as -> by congruence. by eapply Hok. }
  pose proof (tb_hwm _ (hd_table _ _ _ Hh)) as (k & Hk & Ek). unfold CBH_CHUNKS in Hk.
  pose proof (hd_size _ _ _ Hh) as Hsz. pose proof (hd_room _ _ _ Hh) as Hrm.
  assert (Hch : u32 (Z.shiftl (Z.of_nat cur) 1 + 1) = Z.of_nat (2 * cur + 1)).
  { rewrite Z.shiftl_mul_pow2 by lia. rewrite wrap_small by (unfold in_u; lia). lia. }
  rewrite Hch, Hsz.
  destruct (Z.ltb_spec (Z.of_nat cur) (Z.of_nat (length l))); [|lia]. cbn [negb orb].
  destruct (Z.leb_spec (Z.of_nat (length l)) (Z.of_nat (2 * cur + 1))) as [Hge|Hlt].
  { apply Hstay. intros i x Hi0 [->| ->]%children Hx%lookup_lt_Some; [lia|lia|done]. }
  rewrite (holds_pointer _ _ _ _ Hh Hl). cbn [mbind run_bind].
  destruct (sink_child_spec h l cur Hh ltac:(lia)) as (ci & c & -> & Hlc). cbn [mbind run_bind].
  pose proof Hlc as (Hci & Hpc & Hc & Hmin). pose proof (parent_lt ci Hci).
  destruct (holds_read _ _ _ ci c Hh ltac:(intros [=]; lia) Hc) as [_ Hix].
  rewrite Hix. cbn [mbind run_bind]. unfold LASSERT. rewrite Z.eqb_refl. change (default 0 (Some c)) with c.
  destruct (hop_compare e c) eqn:Ec.
  { apply Hstay. intros i x Hi0 Hi Hx. transitivity c; [by apply co_true|by eapply Hmin]. }
  apply co_false in Ec.
  destruct (IH (slot_write (set_index h c (Z.of_nat cur)) (pointer_of (Z.of_nat cur)) c)
              (swapped l cur ci e c) ci e true) as (did' & h' & l' & -> & Hh' & Hpm & Hpr & Hhp).
  - apply holds_move; (done || lia).
  - rewrite lookup_swapped by (done || lia). rewrite decide_False by lia. by rewrite decide_True.
  - unfold swapped. rewrite !length_insert. lia.
  - by apply down_step.
  - exists did', h', l'. split_and!; try done.
    + by rewrite Hpm, swapped_perm.
    + rewrite Hpr. apply (write_rest (set_index h c (Z.of_nat cur))).
Qed.
End Order.
