(* ===== verification/BinHeapOps.v ===== *)
(** The operations of the binary heap (libcfs/libcfs/heap.c): each keeps the order and
    the set of nodes, and the root is a least node. *)

From stdpp Require Import gmap.
From S2P Require Import Prelude BinHeap BinHeapTable BinHeapOrder.

Section Spec.
Context {P : Type} (hop_enter : option (P -> Z -> Z * P)) (hop_exit : option (P -> Z -> P)).
Context (hop_compare : Z -> Z -> bool) (le : Z -> Z -> Prop) {Hle : CompareOrder hop_compare le}.
Implicit Types (h : cfs_binheap P) (l : list Z).

(** The nodes of a heap in order. *)
Definition heap_of h l : Prop := holds None h l /\ heap (le := le) l.

(** ** Relocating *)

Lemma relocate_spec h l cur e :
  holds None h l -> l !! cur = Some e -> near (le := le) l cur ->
  exists h' l', cfs_binheap_relocate hop_compare h e = Ret h' /\ heap_of h' l' /\ l' ≡ₚ l
                /\ cbh_private h' = cbh_private h.
Proof.
  intros Hh He Hn. pose proof (lookup_lt_Some _ _ _ He) as Hl.
  destruct (holds_read _ _ _ cur e Hh ltac:(done) He) as [Hrd Hix].
  unfold cfs_binheap_relocate, cfs_binheap_bubble. rewrite Hix. cbn [mbind run_bind].
  rewrite (holds_pointer _ _ _ _ Hh Hl). cbn [mbind run_bind]. unfold LASSERT.
  rewrite bool_decide_eq_true_2 by exact Hrd.
  destruct (bubble_spec hop_compare (S (Z.to_nat (Z.of_nat cur))) h l cur e false)
    as (did & h' & l' & -> & Hh' & Hp & Hpr & Ht & Hf); try done; [by apply holds_weaken|lia|].
  cbn [mbind run_bind]. destruct did; [exists h', l'; split_and!; try done; split; [done|by apply Ht]|].
  destruct (Hf eq_refl) as (_ & -> & Hok). destruct (holds_read _ _ _ cur e Hh' ltac:(done) He) as [Hrd' Hix'].
  unfold cfs_binheap_sink. rewrite Hix'. cbn [mbind run_bind].
  rewrite (holds_pointer _ _ _ _ Hh' Hl). cbn [mbind run_bind]. unfold LASSERT.
  rewrite bool_decide_eq_true_2 by exact Hrd'.
  destruct (sink_spec hop_compare (S (Z.to_nat (cbh_nelements h'))) h' l cur e false)
    as (did & h2 & l2 & -> & Hh2 & Hp2 & Hpr2 & Hhp); try done.
  - by apply holds_weaken.
  - rewrite (hd_size _ _ _ Hh'). lia.
  - split; [|apply Hn]. intros i Hi. destruct (decide (i = cur)) as [->|]; [done|by apply Hn].
  - cbn [mbind run_bind]. exists h2, l2. split_and!; [done|by split|done|congruence].
Qed.

(** ** The root *)

Lemma heap_root l e : heap (le := le) l -> l !! 0%nat = Some e -> forall x, x ∈ l -> le e x.
Proof.
  intros Hh He. assert (Hi : forall i x, l !! i = Some x -> le e x).
  { intros i. induction i as [i IH] using lt_wf_ind. intros x Hx.
    destruct (decide (i = 0%nat)) as [->|Hi0]; [by assert (x = e) as -> by congruence|].
    pose proof (parent_lt i Hi0) as Hlt. pose proof (lookup_lt_Some _ _ _ Hx).
    destruct (lookup_lt_is_Some_2 l (parent i)) as [p Hp]; [lia|].
    transitivity p; [by eapply IH|by apply (Hh i)]. }
  intros x [i Hx]%list_elem_of_lookup. by eapply Hi.
Qed.

Lemma find_spec h l i : holds None h l -> cfs_binheap_find h (Z.of_nat i) = Ret (l !! i).
Proof.
  intros Hh. unfold cfs_binheap_find. rewrite (hd_size _ _ _ Hh).
  destruct (Z.leb_spec (Z.of_nat (length l)) (Z.of_nat i)) as [Hge|Hlt].
  - by rewrite lookup_ge_None_2 by lia.
  - destruct (lookup_lt_is_Some_2 l i) as [e He]; [lia|]. rewrite (holds_pointer _ _ _ _ Hh) by lia.
    cbn [mbind run_bind]. destruct (holds_read _ _ _ i e Hh ltac:(done) He) as [-> _]. by rewrite He.
Qed.

Lemma root_spec h l :
  heap_of h l ->
  exists root, cfs_binheap_root h = Ret root
    /\ match root with
       | None => l = []
       | Some e => e ∈ l /\ forall x, x ∈ l -> le e x
       end.
Proof.
  intros [Hh Hp]. exists (l !! 0%nat). split; [exact (find_spec h l 0 Hh)|].
  destruct (l !! 0%nat) as [e|] eqn:E; [|by destruct l].
  split; [by eapply list_elem_of_lookup_2|by apply heap_root].
Qed.

(** ** Inserting *)

(** The heap holds what it held when its slots do. *)
Lemma holds_same h h' l :
  holds None h l -> table_ok h' -> same_rest h h' -> cbh_hwm h <= cbh_hwm h' ->
  (forall i, 0 <= i < cbh_hwm h -> at_index h' i = at_index h i) -> holds None h' l.
Proof.
  intros Hh Ht (R1 & _ & R3) Hw Ha. pose proof Hh as [_ Hs Hr Hn Hi]. split; try done.
  - by rewrite R1.
  - rewrite R1. lia.
  - intros i e Hne He. rewrite R3, Ha; [by apply Hi|]. eapply holds_below; [exact Hh|by eapply lookup_lt_Some].
Qed.

Lemma grow_keeps alloc h l :
  holds None h l ->
  exists rc h', cfs_binheap_grow alloc h = Ret (rc, h') /\ holds None h' l /\ same_rest h h'
    /\ ((rc = - ENOMEM /\ grow_excuse alloc h) \/ (rc = 0 /\ cbh_hwm h' = cbh_hwm h + 512)).
Proof.
  intros Hh. destruct (grow_spec alloc h (hd_table _ _ _ Hh)) as (rc & h' & E & [(Hrc & Hf & He)|(Hrc & k & Ek & Hk & Hg)]);
    exists rc, h'; (split; [exact E|]).
  - destruct Hf as (Ht & Hs & Ew & Ha). split_and!; [|done|by left]. eapply holds_same; [exact Hh|done|done|lia|].
    intros i Hi. apply Ha. lia.
  - destruct (grown_ok h h' k (hd_table _ _ _ Hh) Ek Hk Hg) as [Ht Ha]. destruct Hg as (Hs & Ew & _).
    split_and!; [|done|by right]. eapply holds_same; [exact Hh|done|done|lia|done].
Qed.

Lemma holds_append h l e :
  holds None h l -> (e ∉ l) -> cbh_nelements h < cbh_hwm h ->
  holds None (slot_write (set_nelements (set_index h e (cbh_nelements h)) (u32 (cbh_nelements h + 1)))
                (pointer_of (cbh_nelements h)) e) (l ++ [e]).
Proof.
  intros Hh He Hlt. pose proof Hh as [Ht Hs Hr Hn Hi]. pose proof (tb_hwm _ Ht) as (k & Hk & Ek). unfold CBH_CHUNKS in Hk.
  set (h1 := set_nelements _ _). pose proof (write_rest h1 (pointer_of (cbh_nelements h)) e) as (W1 & _ & W3).
  assert (H32 : u32 (cbh_nelements h + 1) = cbh_nelements h + 1) by (apply wrap_small; unfold in_u; lia).
  split.
  - apply write_table; [by destruct Ht|]. cbn. lia.
  - rewrite W1, length_app. cbn. rewrite H32. lia.
  - rewrite W1, write_hwm. cbn. rewrite H32. lia.
  - apply list.NoDup_app. split_and!; [done| |apply NoDup_singleton]. intros x Hx ->%list_elem_of_singleton. done.
  - intros i x _ Hx. rewrite write_at, W3 by lia. cbn [chn_index set_index set_nelements h1].
    apply lookup_app_Some in Hx as [Hx|[Hge Hx]].
    + pose proof (lookup_lt_Some _ _ _ Hx). rewrite decide_False by lia. rewrite lookup_insert_ne; [by apply Hi|].
      intros ->. apply He. by eapply list_elem_of_lookup_2.
    + apply list_lookup_singleton_Some in Hx as [Hz <-]. assert (Z.of_nat i = cbh_nelements h) as -> by lia.
      rewrite decide_True by done. by rewrite lookup_insert_eq.
Qed.

Lemma append_near l e : heap (le := le) l -> near (le := le) (l ++ [e]) (length l).
Proof.
  intros Hh. assert (Hch : forall i x, i <> 0%nat -> parent i = length l -> (l ++ [e]) !! i = Some x -> False).
  { intros i x Hi0 Hp Hx%lookup_lt_Some. pose proof (parent_lt i Hi0). rewrite length_app in Hx. cbn in Hx. lia. }
  split.
  - intros i Hi Hp Hi0 p x Hpx Hx. pose proof (parent_lt i Hi0).
    pose proof (lookup_lt_Some _ _ _ Hx) as Hlt. rewrite length_app in Hlt. cbn in Hlt.
    rewrite lookup_app_l in Hpx, Hx by lia. by apply (Hh i).
  - intros _ i p x Hi0 Hp _ Hx. by destruct (Hch i x Hi0 Hp).
Qed.

(** There is room for one more node, or no memory. *)
Lemma make_room alloc h l :
  holds None h l ->
  exists rc h', (if cbh_nelements h =? cbh_hwm h then cfs_binheap_grow alloc h else Ret (0, h)) = Ret (rc, h')
    /\ holds None h' l /\ same_rest h h'
    /\ ((rc = - ENOMEM /\ cbh_nelements h = cbh_hwm h /\ grow_excuse alloc h)
        \/ (rc = 0 /\ cbh_nelements h < cbh_hwm h')).
Proof.
  intros Hh. destruct (Z.eqb_spec (cbh_nelements h) (cbh_hwm h)) as [E|E].
  - destruct (grow_keeps alloc h l Hh) as (rc & h1 & -> & Hh1 & Hs & [[? ?]|[? Ew]]); exists rc, h1;
      (split_and!; [done..|]); [by left|]. right. lia.
  - exists 0, h. split_and!; [done..|]. right. pose proof (hd_room _ _ _ Hh). lia.
Qed.

Definition insert_fails (alloc : nat -> bool) h e (rc : Z) : Prop :=
  (rc = - ENOMEM /\ cbh_nelements h = cbh_hwm h /\ grow_excuse alloc h)
  \/ exists enter, hop_enter = Some enter /\ rc = (enter (cbh_private h) e).1 /\ rc <> 0.

Lemma insert_spec alloc h l e :
  heap_of h l -> (e ∉ l) ->
  exists rc h', cfs_binheap_insert hop_enter hop_compare alloc h e = Ret (rc, h')
    /\ ((rc = 0 /\ exists l', heap_of h' l' /\ l' ≡ₚ e :: l)
        \/ (insert_fails alloc h e rc /\ heap_of h' l)).
Proof.
  intros [Hh Hp] He. unfold cfs_binheap_insert.
  destruct (make_room alloc h l Hh) as (rc & h1 & -> & Hh1 & (R1 & R2 & R3) & Hrc).
  cbn [mbind run_bind]. destruct Hrc as [(-> & Hrc)|[-> Hroom]]; cbn [negb Z.eqb].
  { exists (- ENOMEM), h1. split; [done|]. right. split; [by left|]. by split. }
  destruct (match hop_enter with Some enter => _ | None => _ end) as [rc h2] eqn:Een.
  assert (Hh2 : holds None h2 l /\ cbh_nelements h2 = cbh_nelements h /\ cbh_hwm h2 = cbh_hwm h1
                /\ (rc <> 0 -> insert_fails alloc h e rc)).
  { destruct hop_enter as [enter|] eqn:Eh; [|injection Een as <- <-; by split_and!].
    destruct (enter (cbh_private h1) e) as [rc' priv] eqn:Ee. injection Een as <- <-.
    split_and!; [by apply holds_private|done|done|]. intros Hne. right. exists enter. rewrite <-R2, Ee. done. }
  destruct Hh2 as (Hh2 & N2 & W2 & Hrc2). destruct (Z.eqb_spec rc 0) as [->|Hne]; cbn [negb].
  2:{ exists rc, h2. split; [done|]. right. split; [by apply Hrc2|by split]. }
  rewrite <-N2. set (hi := set_index h2 e (cbh_nelements h2)).
  rewrite (pointer_ok hi) by (apply index_table, Hh2 || (cbn; pose proof (hd_size _ _ _ Hh2); lia)).
  cbn [mbind run_bind]. pose proof (holds_append h2 l e Hh2 He ltac:(lia)) as Hh3.
  change (cbh_nelements hi) with (cbh_nelements h2).
  set (h3 := slot_write _ _ e) in *.
  assert (Hlast : (l ++ [e]) !! length l = Some e) by (by rewrite lookup_app_r, Nat.sub_diag).
  destruct (holds_read _ _ _ (length l) e Hh3 ltac:(done) Hlast) as [Hrd Hix].
  unfold cfs_binheap_bubble. rewrite Hix. cbn [mbind run_bind].
  rewrite (holds_pointer _ _ _ _ Hh3) by (rewrite length_app; cbn; lia). cbn [mbind run_bind].
  unfold LASSERT. rewrite bool_decide_eq_true_2 by exact Hrd.
  destruct (bubble_spec hop_compare (S (Z.to_nat (Z.of_nat (length l)))) h3 (l ++ [e]) (length l) e false)
    as (did & h' & l' & -> & Hh' & Hpm & _ & Ht & Hf); try done; [by apply holds_weaken|lia|by apply append_near|].
  cbn [mbind run_bind]. exists 0, h'. split; [done|]. left. split; [done|]. exists l'.
  split; [|by rewrite Hpm, <-Permutation_cons_append]. split; [done|].
  destruct did; [by apply Ht|]. destruct (Hf eq_refl) as (_ & -> & Hok). intros i.
  destruct (decide (i = length l)) as [->|Hi]; [done|]. intros Hi0 p x Hpx Hx. pose proof (parent_lt i Hi0).
  pose proof (lookup_lt_Some _ _ _ Hx) as Hlt. rewrite length_app in Hlt. cbn in Hlt.
  rewrite lookup_app_l in Hpx, Hx by lia. by apply (Hp i).
Qed.

(** ** Removing *)

Lemma insert_perm l i e : l !! i = Some e -> exists rest, l ≡ₚ e :: rest /\ forall x, <[i := x]> l ≡ₚ x :: rest.
Proof.
  intros Hi. exists (take i l ++ drop (S i) l). split.
  - rewrite <-(take_drop_middle l i e Hi) at 1. by rewrite <-Permutation_middle.
  - intros x. rewrite insert_take_drop by (by eapply lookup_lt_Some). by rewrite <-Permutation_middle.
Qed.

(** The last node takes the place of the node at [i]. *)
Lemma holds_replace h l i e last :
  holds None h (l ++ [last]) -> l !! i = Some e ->
  holds None (slot_write (set_index (set_nelements h (cbh_nelements h - 1)) last (Z.of_nat i))
                (pointer_of (Z.of_nat i)) last) (<[i := last]> l).
Proof.
  intros Hh He. pose proof Hh as [Ht Hs Hr Hn Hi]. pose proof (lookup_lt_Some _ _ _ He) as Hl.
  rewrite length_app in Hs. cbn in Hs.
  set (h1 := set_index _ _ _). pose proof (write_rest h1 (pointer_of (Z.of_nat i)) last) as (W1 & _ & W3).
  assert (Hnl : last ∉ l).
  { apply list.NoDup_app in Hn as (_ & Hn & _). intros Hx. apply (Hn last Hx). by apply list_elem_of_singleton. }
  split.
  - apply write_table; [by destruct Ht|]. cbn. lia.
  - rewrite W1, length_insert. cbn. lia.
  - rewrite W1, write_hwm. cbn. lia.
  - destruct (insert_perm l i e He) as (rest & E1 & E2). apply list.NoDup_app in Hn as (Hn & _).
    rewrite E1 in Hn, Hnl. rewrite E2. apply NoDup_cons in Hn as [_ Hn]. apply NoDup_cons. split; [|done].
    intros Hx. apply Hnl. by right.
  - intros j x _ Hx. rewrite write_at, W3 by lia. cbn [chn_index set_index h1].
    destruct (decide (j = i)) as [->|Hne].
    + rewrite list_lookup_insert_eq in Hx by done. injection Hx as <-. rewrite decide_True by done.
      by rewrite lookup_insert_eq.
    + rewrite list_lookup_insert_ne in Hx by done. rewrite decide_False by lia. rewrite lookup_insert_ne.
      * apply Hi; [done|]. apply lookup_app_Some. by left.
      * intros ->. apply Hnl. by eapply list_elem_of_lookup_2.
Qed.

Lemma replace_near l i e last :
  heap (le := le) (l ++ [last]) -> l !! i = Some e -> near (le := le) (<[i := last]> l) i.
Proof.
  intros Hh He. pose proof (lookup_lt_Some _ _ _ He) as Hl.
  assert (Hl' : forall j, j <> i -> <[i := last]> l !! j = l !! j) by (intros; by apply list_lookup_insert_ne).
  assert (Hok : forall j p x, j <> 0%nat -> l !! parent j = Some p -> l !! j = Some x -> le p x).
  { intros j p x Hj Hp Hx. apply (Hh j Hj); apply lookup_app_Some; by left. }
  split.
  - intros j Hj Hp Hj0 p x. rewrite !Hl' by done. by apply Hok.
  - intros Hi0 j p x Hj0 Hj. pose proof (parent_lt i Hi0). pose proof (parent_lt j Hj0).
    rewrite !Hl' by lia. intros Hp Hx. transitivity e; [by apply (Hok i)|].
    apply (Hok j); [done|by rewrite Hj|done].
Qed.

Lemma heap_prefix l x : heap (le := le) (l ++ [x]) -> heap (le := le) l.
Proof. intros Hh i Hi p y Hp Hy. apply (Hh i Hi); apply lookup_app_Some; by left. Qed.

Lemma holds_prefix h l x : holds None h (l ++ [x]) -> holds None (set_nelements h (cbh_nelements h - 1)) l.
Proof.
  intros [[T1 T2 T3] Hs Hr Hn Hi]. rewrite length_app in Hs. cbn in Hs. split.
  - by split.
  - cbn. lia.
  - cbn. lia.
  - by apply list.NoDup_app in Hn as (? & _).
  - intros i e _ He. apply Hi; [done|]. apply lookup_app_Some. by left.
Qed.

Lemma holds_poison h l e i : holds None h l -> (e ∉ l) -> holds None (set_index h e i) l.
Proof.
  intros [[T1 T2 T3] Hs Hr Hn Hi] He. split; [by split|done..|].
  intros j x Hne Hx. cbn. rewrite lookup_insert_ne; [by apply Hi|]. intros ->. apply He. by eapply list_elem_of_lookup_2.
Qed.

Lemma remove_spec h l e :
  heap_of h l -> e ∈ l ->
  exists h' l', cfs_binheap_remove hop_exit hop_compare h e = Ret h' /\ heap_of h' l' /\ l ≡ₚ e :: l'.
Proof.
  intros [Hh Hp] [i Hi]%list_elem_of_lookup. pose proof Hh as [Ht Hs Hr Hn _].
  destruct (holds_read _ _ _ i e Hh ltac:(done) Hi) as [Hrd Hix]. pose proof (lookup_lt_Some _ _ _ Hi) as Hl.
  pose proof (tb_hwm _ Ht) as (k & Hk & Ek). unfold CBH_CHUNKS in Hk.
  unfold cfs_binheap_remove. rewrite Hix. cbn [mbind run_bind]. unfold LASSERT.
  destruct (Z.eqb_spec (Z.of_nat i) CBH_POISON) as [E|_]; [unfold CBH_POISON in E; lia|]. cbn [negb].
  destruct (Z.ltb_spec (Z.of_nat i) (cbh_nelements h)); [|lia].
  rewrite (holds_pointer _ _ _ _ Hh Hl). cbn [mbind run_bind]. rewrite bool_decide_eq_true_2 by exact Hrd.
  destruct (exists_last (l := l)) as (l0 & last & ->); [by intros ->|].
  rewrite length_app in Hs, Hl. cbn in Hs, Hl.
  assert (Hlast : (l0 ++ [last]) !! length l0 = Some last) by (by rewrite lookup_app_r, Nat.sub_diag).
  replace (cbh_nelements h - 1) with (Z.of_nat (length l0)) by lia.
  rewrite (holds_pointer _ _ _ (length l0) Hh) by (rewrite length_app; cbn; lia). cbn [mbind run_bind].
  destruct (holds_read _ _ _ (length l0) last Hh ltac:(done) Hlast) as [-> _].
  replace (Z.of_nat (length l0)) with (cbh_nelements h - 1) by lia.
  destruct (Z.eqb_spec last e) as [->|Hne].
  { exists (set_nelements h (cbh_nelements h - 1)), l0. split_and!; [done| |symmetry; apply Permutation_cons_append].
    split; [by eapply holds_prefix|by eapply heap_prefix]. }
  assert (Hi0 : l0 !! i = Some e).
  { apply lookup_app_Some in Hi as [Hi|[Hge Hi]]; [done|]. apply list_lookup_singleton_Some in Hi as [_ ->]. done. }
  pose proof (lookup_lt_Some _ _ _ Hi0) as Hl0.
  destruct (relocate_spec _ (<[i := last]> l0) i last (holds_replace h l0 i e last Hh Hi0)) as (h' & l' & -> & [Hh' Hp'] & Hpm & _).
  - by apply list_lookup_insert_eq.
  - by eapply replace_near.
  - cbn [mbind run_bind].
    assert (Hperm : l0 ++ [last] ≡ₚ e :: l').
    { destruct (insert_perm l0 i e Hi0) as (rest & E1 & E2).
      rewrite Hpm, E2, <-Permutation_cons_append, E1. apply Permutation_swap. }
    assert (He : e ∉ l').
    { rewrite Hperm in Hn. by apply NoDup_cons in Hn as [? _]. }
    destruct hop_exit as [ex|]; eexists _, l'; (split_and!; [done| |done]); (split; [|done]).
    + by apply holds_private, holds_poison.
    + by apply holds_poison.
Qed.

(** ** Creating *)

Lemma new_heap arg index : heap_of (Binheap P None None None 0 0 arg index) [].
Proof.
  split; [split; try done|].
  - split.
    + exists 0. split; [unfold CBH_CHUNKS; lia|done].
    + intros c Hc. cbn. split; [|lia]. unfold chunk_of. destruct (c =? 0); [by intros []|]. destruct (c <=? 512); by intros [].
    + intros i Hi. cbn. split; [by intros []|lia].
  - constructor.
  - intros i Hi0 p x Hp. by rewrite lookup_nil in Hp.
Qed.

Lemma create_loop_spec fuel : forall alloc count h,
  heap_of h [] -> (0 < fuel)%nat -> count < cbh_hwm h + Z.of_nat fuel ->
  exists oh, create_loop fuel alloc count h = Ret oh
    /\ match oh with Some h' => heap_of h' [] /\ count <= cbh_hwm h' | None => True end.
Proof.
  induction fuel as [|fuel IH]; intros alloc count h Hh Hpos Hf; [lia|]. cbn [create_loop].
  destruct (Z.ltb_spec (cbh_hwm h) count); [|by exists (Some h)].
  destruct (grow_keeps (alloc fuel) h [] (proj1 Hh)) as (rc & h' & -> & Hh' & _ & [[-> _]|[-> Ew]]); cbn [mbind run_bind].
  - by exists None.
  - apply IH; [by split; [|apply Hh]|lia|lia].
Qed.

Lemma create_spec alloc_heap alloc count arg index :
  exists oh, cfs_binheap_create alloc_heap alloc count arg index = Ret oh
    /\ match oh with Some h' => heap_of h' [] /\ count <= cbh_hwm h' | None => True end.
Proof.
  unfold cfs_binheap_create. destruct alloc_heap; [|by exists None].
  apply create_loop_spec; [apply new_heap|lia|]. cbn [cbh_hwm]. lia.
Qed.
End Spec.
