(* ===== verification/BinHeapProps.v ===== *)
(** The binary heap refines a priority queue, and the orders of its users are what it asks
    for (libcfs/libcfs/heap.c, lustre/ptlrpc/nrs_crr.c, nrs_orr.c, nrs_tbf.c,
    nrs_delay.c). *)

From stdpp Require Import gmap.
From S2P Require Import Prelude BinHeap BinHeapTable BinHeapOrder BinHeapOps.

(** ** A heap and the keys of its nodes *)

(** Between two calls the user may change the key of a node that is not in the heap, or of
    one that is and is relocated at once. *)
Inductive heap_op (K : Type) :=
  | HeapInsert (e : Z) (k : K) (alloc : nat -> bool)
  | HeapRemove (e : Z)
  | HeapChange (e : Z) (k : K)
  | HeapRoot
  | HeapRemoveRoot.
Arguments HeapInsert {K} e k alloc.
Arguments HeapRemove {K} e.
Arguments HeapChange {K} e k.
Arguments HeapRoot {K}.
Arguments HeapRemoveRoot {K}.

Inductive heap_result := HeapRc (rc : Z) | HeapDone | HeapNode (e : option Z).

Section Queue.
Context {P K : Type} (hop_enter : option (P -> Z -> Z * P)) (hop_exit : option (P -> Z -> P)).
Context (compare : K -> K -> bool) (le : K -> K -> Prop) {Hle : CompareOrder compare le}.

Record heap_state := HeapState { hs_heap : cfs_binheap P; hs_key : Z -> K }.

Definition compare_nodes (key : Z -> K) (a b : Z) : bool := compare (key a) (key b).
Definition set_key (key : Z -> K) (e : Z) (k : K) : Z -> K := fun x => if decide (x = e) then k else key x.

Definition heap_do (s : heap_state) (op : heap_op K) : run (heap_result * heap_state) :=
  let cmp := compare_nodes (hs_key s) in
  match op with
  | HeapInsert e k alloc =>
      let key := set_key (hs_key s) e k in
      p ← cfs_binheap_insert hop_enter (compare_nodes key) alloc (hs_heap s) e;
      Ret (HeapRc p.1, HeapState p.2 key)
  | HeapRemove e =>
      h ← cfs_binheap_remove hop_exit cmp (hs_heap s) e;
      Ret (HeapDone, HeapState h (hs_key s))
  | HeapChange e k =>
      let key := set_key (hs_key s) e k in
      h ← cfs_binheap_relocate (compare_nodes key) (hs_heap s) e;
      Ret (HeapDone, HeapState h key)
  | HeapRoot =>
      e ← cfs_binheap_root (hs_heap s);
      Ret (HeapNode e, s)
  | HeapRemoveRoot =>
      p ← cfs_binheap_remove_root hop_exit cmp (hs_heap s);
      Ret (HeapNode p.1, HeapState p.2 (hs_key s))
  end.

(** ** The priority queue *)

(** A set of nodes with keys. *)
Abbreviation pqueue := (gset Z * (Z -> K))%type.

Definition pq_least (q : pqueue) (e : option Z) : Prop :=
  match e with
  | None => q.1 = ∅
  | Some e => e ∈ q.1 /\ forall x, x ∈ q.1 -> le (q.2 e) (q.2 x)
  end.

Inductive pq_step : pqueue -> heap_op K -> heap_result -> pqueue -> Prop :=
  | pq_insert X key e k alloc :
      pq_step (X, key) (HeapInsert e k alloc) (HeapRc 0) ({[e]} ∪ X, set_key key e k)
  | pq_insert_fails X key e k alloc rc :
      rc <> 0 -> pq_step (X, key) (HeapInsert e k alloc) (HeapRc rc) (X, set_key key e k)
  | pq_remove X key e :
      pq_step (X, key) (HeapRemove e) HeapDone (X ∖ {[e]}, key)
  | pq_change X key e k :
      pq_step (X, key) (HeapChange e k) HeapDone (X, set_key key e k)
  | pq_root X key e :
      pq_least (X, key) e -> pq_step (X, key) HeapRoot (HeapNode e) (X, key)
  | pq_remove_root X key e :
      pq_least (X, key) e ->
      pq_step (X, key) HeapRemoveRoot (HeapNode e) (match e with Some n => X ∖ {[n]} | None => X end, key).

(** A node is inserted when it is not in the queue, and removed or changed when it is. *)
Definition pq_can (q : pqueue) (op : heap_op K) : Prop :=
  match op with
  | HeapInsert e _ _ => e ∉ q.1
  | HeapRemove e | HeapChange e _ => e ∈ q.1
  | HeapRoot | HeapRemoveRoot => True
  end.

(** ** Refinement *)

Definition models (s : heap_state) (q : pqueue) : Prop :=
  q.2 = hs_key s
  /\ exists l, heap_of (fun a b => le (hs_key s a) (hs_key s b)) (hs_heap s) l /\ q.1 = list_to_set l.

Inductive heap_reachable : heap_state -> pqueue -> Prop :=
  | heap_created alloc_heap alloc count arg index h key :
      cfs_binheap_create alloc_heap alloc count arg index = Ret (Some h) ->
      heap_reachable (HeapState h key) (∅, key)
  | heap_moves s q op r s' q' :
      heap_reachable s q -> pq_can q op -> heap_do s op = Ret (r, s') -> pq_step q op r q' ->
      heap_reachable s' q'.

#[local] Instance nodes_order key : CompareOrder (compare_nodes key) (fun a b => le (key a) (key b)).
Proof. apply (compare_on key), Hle. Qed.

Lemma heap_of_keys (h : cfs_binheap P) l key key' :
  (forall e, e ∈ l -> key' e = key e) ->
  heap_of (fun a b => le (key a) (key b)) h l -> heap_of (fun a b => le (key' a) (key' b)) h l.
Proof.
  intros Hk [Hh Hp]. split; [done|]. intros i Hi p x Hp0 Hx.
  rewrite !Hk by (by eapply list_elem_of_lookup_2). by apply (Hp i).
Qed.

Lemma set_key_ne key e k x : x <> e -> set_key key e k x = key x.
Proof. intros Hx. unfold set_key. by rewrite decide_False. Qed.

(** A change of one key leaves the rest in order. *)
Lemma change_near (h : cfs_binheap P) l key e k i :
  heap_of (fun a b => le (key a) (key b)) h l -> l !! i = Some e ->
  near (le := fun a b => le (set_key key e k a) (set_key key e k b)) l i.
Proof.
  intros [Hh Hp] Hi. pose proof (hd_nodup _ _ _ Hh) as Hnd.
  assert (Hne : forall j x, j <> i -> l !! j = Some x -> set_key key e k x = key x).
  { intros j x Hj Hx. apply set_key_ne. intros ->. apply Hj. by eapply NoDup_lookup. }
  split.
  - intros j Hj Hpj Hj0 p x Hp0 Hx. rewrite (Hne j x), (Hne (parent j) p) by done. by apply (Hp j).
  - intros Hi0 j p x Hj0 Hj Hp0 Hx. pose proof (parent_lt i Hi0). pose proof (parent_lt j Hj0).
    rewrite (Hne j x), (Hne (parent i) p) by (done || lia).
    transitivity (key e); [by apply (Hp i)|]. apply (Hp j); [done|by rewrite Hj|done].
Qed.

Lemma models_insert s q e k alloc :
  models s q -> (e ∉ q.1) ->
  exists r s' q', heap_do s (HeapInsert e k alloc) = Ret (r, s')
    /\ pq_step q (HeapInsert e k alloc) r q' /\ models s' q'.
Proof.
  intros [Hk (l & Hl & Hs)] He. destruct q as [X key], s as [h key']. cbn in *. subst X key.
  rewrite elem_of_list_to_set in He. set (key1 := set_key key' e k).
  assert (Hl1 : heap_of (fun a b => le (key1 a) (key1 b)) h l).
  { eapply heap_of_keys; [|exact Hl]. intros x Hx. apply set_key_ne. by intros ->. }
  destruct (insert_spec hop_enter (compare_nodes key1) _ alloc h l e Hl1 He)
    as (rc & h' & -> & [(-> & l' & Hl' & Hp)|[Hrc Hl']]); cbn [mbind run_bind fst snd].
  - eexists _, _, _. split_and!; [done|apply pq_insert|]. split; [done|]. exists l'. split; [done|].
    rewrite Hp. cbn. done.
  - eexists _, _, _. split_and!; [done|apply pq_insert_fails|]; [|split; [done|by exists l]].
    destruct Hrc as [[-> _]|(? & _ & _ & ?)]; [by unfold ENOMEM|done].
Qed.

Lemma models_remove s q e :
  models s q -> e ∈ q.1 ->
  exists h', cfs_binheap_remove hop_exit (compare_nodes (hs_key s)) (hs_heap s) e = Ret h'
    /\ models (HeapState h' (hs_key s)) (q.1 ∖ {[e]}, hs_key s).
Proof.
  intros [Hk (l & Hl & Hs)] He. rewrite Hs, elem_of_list_to_set in He.
  destruct (remove_spec hop_exit (compare_nodes (hs_key s)) _ (hs_heap s) l e Hl He) as (h' & l' & -> & Hl' & Hp).
  exists h'. split; [done|]. split; [done|]. exists l'. split; [done|]. cbn. rewrite Hs, Hp. cbn.
  pose proof (hd_nodup _ _ _ (proj1 Hl)) as Hnd. rewrite Hp in Hnd. apply NoDup_cons in Hnd as [Hne _].
  assert (He' : e ∉@{gset Z} list_to_set l') by (by rewrite elem_of_list_to_set).
  rewrite difference_union_distr_l_L, difference_diag_L, union_empty_l_L.
  by apply difference_disjoint_L, disjoint_singleton_r.
Qed.

Lemma models_root s q :
  models s q -> exists e, cfs_binheap_root (hs_heap s) = Ret e /\ pq_least q e.
Proof.
  intros [Hk (l & Hl & Hs)]. destruct (root_spec (compare_nodes (hs_key s)) _ (hs_heap s) l Hl) as (e & -> & He). exists e. split; [done|].
  destruct e as [e|]; cbn; rewrite Hs; [|by rewrite He]. rewrite Hk. destruct He as [He Hm].
  split; [by apply elem_of_list_to_set|]. intros x Hx%elem_of_list_to_set. by apply Hm.
Qed.

Lemma models_step s q op :
  models s q -> pq_can q op ->
  exists r s' q', heap_do s op = Ret (r, s') /\ pq_step q op r q' /\ models s' q'.
Proof.
  intros Hm Hc. destruct op as [e k alloc|e|e k| |]; cbn in Hc.
  - by apply models_insert.
  - destruct (models_remove s q e Hm Hc) as (h' & E & Hm'). destruct q as [X key]. destruct Hm as [Hk _].
    cbn in Hk. subst key. cbn [heap_do]. rewrite E. eexists _, _, _. split_and!; [done|apply pq_remove|done].
  - destruct Hm as [Hk (l & Hl & Hs)]. destruct q as [X key], s as [h key']. cbn [fst snd hs_heap hs_key heap_do] in *.
    subst X key. apply elem_of_list_to_set, list_elem_of_lookup in Hc as [i Hi].
    destruct (relocate_spec (compare_nodes (set_key key' e k)) _ h l i e (proj1 Hl) Hi)
      as (h' & l' & -> & Hl' & Hp & _); [by eapply change_near|]. cbn [mbind run_bind].
    eexists _, _, _. split_and!; [done|apply pq_change|]. split; [done|]. exists l'. split; [done|]. cbn. by rewrite Hp.
  - destruct (models_root s q Hm) as (e & E & He). cbn [heap_do]. rewrite E. destruct q as [X key].
    eexists _, _, _. split_and!; [done|by apply pq_root|done].
  - destruct (models_root s q Hm) as (e & E & He). cbn [heap_do]. unfold cfs_binheap_remove_root. rewrite E.
    cbn [mbind run_bind]. pose proof Hm as [Hk _]. destruct q as [X key]. cbn in Hk. subst key. destruct e as [n|].
    + destruct (models_remove s (X, hs_key s) n Hm (proj1 He)) as (h' & -> & Hm'). cbn [mbind run_bind].
      eexists _, _, _. split_and!; [done|by apply pq_remove_root|done].
    + eexists _, _, _. split_and!; [done|by apply pq_remove_root|]. by destruct s.
Qed.

Lemma pq_step_next q op r q1 q2 : pq_step q op r q1 -> pq_step q op r q2 -> q1 = q2.
Proof. intros H1 H2. inversion H1; subst; inversion H2; subst; try done. Qed.

Lemma reachable_models s q : heap_reachable s q -> models s q.
Proof.
  induction 1 as [ah al count arg index h key E|s q op r s' q' _ IH Hc E Hst].
  - split; [done|]. destruct (create_spec (fun a b => le (key a) (key b)) ah al count arg index) as (oh & E' & Hoh).
    rewrite E in E'. injection E' as <-. exists []. split; [apply Hoh|done].
  - destruct (models_step s q op IH Hc) as (r1 & s1 & q1 & E1 & Hst1 & Hm).
    rewrite E in E1. injection E1 as <- <-. by rewrite (pq_step_next _ _ _ _ _ Hst Hst1).
Qed.

(** ** Theorems *)

(** C7: The binary heap is a priority queue. In every state a heap gets to from its
    creation by insertions, removals, changes of keys with relocation, and looks at the
    root, every further operation returns (no assertion fails, no null pointer is followed,
    the loops end), and what it returns and leaves is a step of a set of nodes with keys:
    an insertion adds the node or fails and adds nothing, a removal takes the node out, and
    the root is a node with a least key, or null when there is none. *)
Theorem binheap_refines_queue s q op :
  heap_reachable s q -> pq_can q op ->
  exists r s' q', heap_do s op = Ret (r, s') /\ pq_step q op r q' /\ heap_reachable s' q'.
Proof.
  intros Hr Hc. destruct (models_step s q op (reachable_models s q Hr) Hc) as (r & s' & q' & E & Hst & _).
  exists r, s', q'. split_and!; try done. by eapply heap_moves.
Qed.

(** Removing the last node of the array is not told to the user. Whatever [hop_exit] is,
    [cfs_binheap_remove] of the node at the end of the array (so, whenever the heap gets
    empty) does not call it, and leaves the index of the node as it was instead of
    poisoning it. *)
Lemma remove_last_skips_exit key h l e :
  heap_of (fun a b => le (key a) (key b)) h (l ++ [e]) ->
  exists h', cfs_binheap_remove hop_exit (compare_nodes key) h e = Ret h'
    /\ cbh_private h' = cbh_private h /\ chn_index h' !! e = Some (Z.of_nat (length l)).
Proof.
  intros [Hh Hp]. assert (Hlast : (l ++ [e]) !! length l = Some e) by (by rewrite lookup_app_r, Nat.sub_diag).
  pose proof (hd_slots _ _ _ Hh (length l) e ltac:(done) Hlast) as [_ Hi].
  destruct (holds_read _ _ _ (length l) e Hh ltac:(done) Hlast) as [Hrd Hix].
  pose proof (hd_size _ _ _ Hh) as Hs. pose proof (hd_room _ _ _ Hh) as Hr. rewrite length_app in Hs. cbn in Hs.
  pose proof (tb_hwm _ (hd_table _ _ _ Hh)) as (k & Hk & Ek). unfold CBH_CHUNKS in Hk.
  assert (Hlt : (length l < length (l ++ [e]))%nat) by (rewrite length_app; cbn; lia).
  unfold cfs_binheap_remove. rewrite Hix. cbn [mbind run_bind]. unfold LASSERT.
  destruct (Z.eqb_spec (Z.of_nat (length l)) CBH_POISON) as [E|_]; [unfold CBH_POISON in E; lia|]. cbn [negb].
  destruct (Z.ltb_spec (Z.of_nat (length l)) (cbh_nelements h)); [|lia].
  rewrite (holds_pointer _ _ _ _ Hh Hlt). cbn [mbind run_bind]. rewrite bool_decide_eq_true_2 by exact Hrd.
  replace (cbh_nelements h - 1) with (Z.of_nat (length l)) by lia.
  rewrite (holds_pointer _ _ _ _ Hh Hlt). cbn [mbind run_bind]. rewrite Hrd, Z.eqb_refl. by eexists.
Qed.
End Queue.

(** ** Witnesses *)

#[export] Instance leb_order : CompareOrder Z.leb Z.le.
Proof. split; [apply _|..]; intros a b; lia. Qed.

Module HeapRun.
Definition index : gmap Z Z := ∅.
Definition created : cfs_binheap Z :=
  match cfs_binheap_create true (fun _ _ => true) 512 0 index with
  | Ret (Some h) => h
  | _ => Binheap Z None None None 0 0 0 ∅
  end.
Definition counting : option (Z -> Z -> Z) := Some (fun n _ => n + 1).
Definition start : heap_state (P := Z) (K := Z) := HeapState created (fun _ => 0).

Lemma created_eq : cfs_binheap_create true (fun _ _ => true) 512 0 index = Ret (Some created).
Proof. unfold created. destruct (cfs_binheap_create _ _ _ _ _) as [[h|]|] eqn:E; [done|by vm_compute in E..]. Qed.

Lemma start_reachable : heap_reachable None counting Z.leb Z.le start (∅, fun _ => 0).
Proof. exact (heap_created _ _ _ _ true (fun _ _ => true) 512 0 index created _ created_eq). Qed.

(** A heap with one node. *)
Definition one : cfs_binheap Z :=
  match cfs_binheap_insert None (compare_nodes Z.leb (fun e => e)) (fun _ => true) created 7 with
  | Ret (_, h) => h
  | LBUG => created
  end.

Lemma one_heap : heap_of (fun a b => a <= b) one ([] ++ [7]).
Proof.
  destruct (create_spec (fun a b => a <= b) true (fun _ _ => true) 512 0 index) as (oh & E & Hoh).
  rewrite created_eq in E. injection E as <-.
  destruct (insert_spec None (compare_nodes Z.leb (fun e => e)) (fun a b => a <= b) (fun _ => true) created [] 7)
    as (rc & h & E & H); [apply Hoh|by apply not_elem_of_nil|].
  unfold one. rewrite E. destruct H as [(-> & l & Hl & Hp)|[[(_ & H & _)|(? & ? & _)] _]]; [|by vm_compute in H|done].
  apply Permutation_singleton_r in Hp. by subst l.
Qed.
End HeapRun.

Lemma binheap_refines_queue_witness :
  exists r s' q',
    heap_do None HeapRun.counting Z.leb HeapRun.start (HeapInsert 7 3 (fun _ => true)) = Ret (r, s')
    /\ pq_step Z.le (∅, fun _ => 0) (HeapInsert 7 3 (fun _ => true)) r q'
    /\ heap_reachable None HeapRun.counting Z.leb Z.le s' q'.
Proof.
  apply (binheap_refines_queue None HeapRun.counting Z.leb Z.le).
  - exact HeapRun.start_reachable.
  - apply not_elem_of_empty.
Defined.

Lemma remove_last_skips_exit_witness :
  exists h', cfs_binheap_remove HeapRun.counting (compare_nodes Z.leb (fun e => e)) HeapRun.one 7 = Ret h'
    /\ cbh_private h' = cbh_private HeapRun.one /\ chn_index h' !! 7 = Some (Z.of_nat (length (@nil Z))).
Proof. exact (remove_last_skips_exit HeapRun.counting Z.leb Z.le (fun e => e) HeapRun.one [] 7 HeapRun.one_heap). Defined.
