(* ===== verification/NrsOrder.v ===== *)
(** The orders in which the policies of the request scheduler keep their requests: the
    comparisons they give the binary heap (lustre/ptlrpc/nrs_crr.c, nrs_orr.c, nrs_tbf.c,
    nrs_delay.c), and that each is one the heap can work with. *)

From stdpp Require Import base.
From S2P Require Import Prelude BinHeapOrder.

(** ** Comparisons *)

(** Client round robin over NIDs: by round, then by batch. *)
Record crrn_key := CrrnKey { ck_round : Z; ck_sequence : Z }.

Definition crrn_req_compare (a b : crrn_key) : bool :=
  if ck_round a <? ck_round b then true
  else if ck_round b <? ck_round a then false
  else ck_sequence a <? ck_sequence b.

(** Object and target round robin: by round, batch, and the range of the request. *)
Record orr_key := OrrKey { or_round : Z; or_sequence : Z; or_start : Z; or_end : Z }.

Definition orr_req_compare (a b : orr_key) : bool :=
  if or_round a <? or_round b then true
  else if or_round b <? or_round a then false
  else if or_sequence a <? or_sequence b then true
  else if or_sequence b <? or_sequence a then false
  else if or_start a <? or_start b then true
  else if or_start b <? or_start a then false
  else or_end a <? or_end b.

(** Token bucket filter: by deadline, then by the time of the last check. *)
Record tbf_key := TbfKey { tc_deadline : Z; tc_check_time : Z }.

Definition tbf_cli_compare (a b : tbf_key) : bool :=
  if tc_deadline a <? tc_deadline b then true
  else if tc_deadline b <? tc_deadline a then false
  else if tc_check_time a <? tc_check_time b then true
  else if tc_check_time b <? tc_check_time a then false
  else true.

(** Delay: by the time a request may start. *)
Definition delay_req_compare (req_start_time1 req_start_time2 : Z) : bool :=
  req_start_time1 <=? req_start_time2.

(** ** Orders *)

(** The lexicographic order of keys that are lists of numbers. *)
Fixpoint lex_le (a b : list Z) : Prop :=
  match a, b with
  | x :: a', y :: b' => x < y \/ (x = y /\ lex_le a' b')
  | _, _ => True
  end.

Definition crrn_le (a b : crrn_key) : Prop :=
  lex_le [ck_round a; ck_sequence a] [ck_round b; ck_sequence b].
Definition orr_le (a b : orr_key) : Prop :=
  lex_le [or_round a; or_sequence a; or_start a; or_end a] [or_round b; or_sequence b; or_start b; or_end b].
Definition tbf_le (a b : tbf_key) : Prop :=
  lex_le [tc_deadline a; tc_check_time a] [tc_deadline b; tc_check_time b].

Ltac lex_order :=
  split; [split|..];
  [ intros a; cbn; lia
  | intros a b c; cbn; lia
  | intros a b; cbn; repeat case_match; try discriminate; lia
  | intros a b; cbn; repeat case_match; try discriminate; lia ].

#[export] Instance crrn_order : CompareOrder crrn_req_compare crrn_le.
Proof. unfold crrn_req_compare, crrn_le. lex_order. Qed.

#[export] Instance orr_order : CompareOrder orr_req_compare orr_le.
Proof. unfold orr_req_compare, orr_le. lex_order. Qed.

#[export] Instance tbf_order : CompareOrder tbf_cli_compare tbf_le.
Proof. unfold tbf_cli_compare, tbf_le. lex_order. Qed.

#[export] Instance delay_order : CompareOrder delay_req_compare Z.le.
Proof. unfold delay_req_compare. split; [apply _|..]; intros a b; lia. Qed.
