(* ===== verification/NrsCrr.v ===== *)
(** * Client round robin over NIDs

    The CRR-N policy of the request scheduler (lustre/ptlrpc/nrs_crr.c): the requests of a
    client are put into batches of at most a quantum, one batch for each round, and the
    heap gives them out by round and batch.

    Requests and clients are numbers: a client is known by its NID.  The table of clients
    is the libcfs hash as a map: it holds a reference to each client, looking a client up
    takes one more and [cfs_hash_put] gives one back.  The debugfs files and the
    registration of the policy are left out. *)

From stdpp Require Import gmap.
From S2P Require Import Prelude BinHeap BinHeapTable BinHeapOrder BinHeapOps BinHeapProps NrsOrder.

Definition OBD_MAX_RIF_DEFAULT : Z := 8.
Definition EINVAL : Z := 22.

Abbreviation u16 := (wrap 16).

Record nrs_crrn_client := CrrnClient {
  cc_round : Z;
  cc_sequence : Z;
  cc_ref : Z;
  cc_quantum : Z;
  cc_active : Z
}.

(** A request: the client it is from, and its tags. *)
Record nrs_crrn_req := CrrnReq { nr_nid : Z; cr_round : Z; cr_sequence : Z }.

Record nrs_crrn_net := CrrnNet {
  cn_binheap : cfs_binheap unit;
  cn_cli_hash : gmap Z nrs_crrn_client;
  cn_round : Z;
  cn_sequence : Z;
  cn_quantum : Z;
  cn_reqs : gmap Z nrs_crrn_req
}.

Definition req_key (reqs : gmap Z nrs_crrn_req) (i : Z) : crrn_key :=
  match reqs !! i with
  | Some rq => CrrnKey (cr_round rq) (cr_sequence rq)
  | None => CrrnKey 0 0
  end.
Definition crrn_compare (reqs : gmap Z nrs_crrn_req) : Z -> Z -> bool :=
  compare_nodes crrn_req_compare (req_key reqs).

Definition set_heap net h : nrs_crrn_net :=
  CrrnNet h (cn_cli_hash net) (cn_round net) (cn_sequence net) (cn_quantum net) (cn_reqs net).
Definition set_client net nid cli : nrs_crrn_net :=
  CrrnNet (cn_binheap net) (<[nid := cli]> (cn_cli_hash net)) (cn_round net) (cn_sequence net)
    (cn_quantum net) (cn_reqs net).
Definition set_round net r : nrs_crrn_net :=
  CrrnNet (cn_binheap net) (cn_cli_hash net) r (cn_sequence net) (cn_quantum net) (cn_reqs net).

(** ** Start, stop and control *)

Definition nrs_crrn_start (alloc_net alloc_heap alloc_hash : bool) (alloc : nat -> nat -> bool)
    (index : gmap Z Z) : run (Z + nrs_crrn_net) :=
  if negb alloc_net then Ret (inl (- ENOMEM))
  else
    oh ← cfs_binheap_create alloc_heap alloc 4096 tt index;
    match oh with
    | None => Ret (inl (- ENOMEM))
    | Some h =>
        if negb alloc_hash then Ret (inl (- ENOMEM))
        else Ret (inr (CrrnNet h ∅ 0 1 OBD_MAX_RIF_DEFAULT ∅))
    end.

(** Taking a client out of the table gives its reference back; none may be left. *)
Definition nrs_crrn_hop_exit (cli : nrs_crrn_client) : bool := s32 (cc_ref cli - 1) =? 0.

Definition nrs_crrn_stop net : run unit :=
  lassert cfs_binheap_is_empty (cn_binheap net);
  lassert forallb (fun c => nrs_crrn_hop_exit c.2) (map_to_list (cn_cli_hash net));
  Ret tt.

Inductive nrs_ctl_crr := NRS_CTL_CRRN_RD_QUANTUM | NRS_CTL_CRRN_WR_QUANTUM (arg : Z) | NRS_CTL_CRRN_OTHER.

(** The result, and the quantum read or the policy. *)
Definition nrs_crrn_ctl net (opc : nrs_ctl_crr) : run (Z * Z * nrs_crrn_net) :=
  match opc with
  | NRS_CTL_CRRN_OTHER => Ret (- EINVAL, 0, net)
  | NRS_CTL_CRRN_RD_QUANTUM => Ret (0, cn_quantum net, net)
  | NRS_CTL_CRRN_WR_QUANTUM arg =>
      let net := CrrnNet (cn_binheap net) (cn_cli_hash net) (cn_round net) (cn_sequence net) arg (cn_reqs net) in
      lassert negb (cn_quantum net =? 0);
      Ret (0, 0, net)
  end.

(** ** Requests *)

Definition set_ref (cli : nrs_crrn_client) ref : nrs_crrn_client :=
  CrrnClient (cc_round cli) (cc_sequence cli) ref (cc_quantum cli) (cc_active cli).

(** The client of a request: a new one has the reference of the request and that of the
    table. *)
Definition nrs_crrn_res_get (alloc : bool) net (nid : Z) : Z * nrs_crrn_net :=
  match cn_cli_hash net !! nid with
  | Some cli => (1, set_client net nid (set_ref cli (s32 (cc_ref cli + 1))))
  | None => if negb alloc then (- ENOMEM, net) else (1, set_client net nid (CrrnClient 0 0 2 0 0))
  end.

Definition crrn_client net (nid : Z) : run nrs_crrn_client :=
  match cn_cli_hash net !! nid with Some cli => Ret cli | None => LBUG end.
Definition crrn_req net (i : Z) : run nrs_crrn_req :=
  match cn_reqs net !! i with Some rq => Ret rq | None => LBUG end.

Definition nrs_crrn_res_put net (nid : Z) : run nrs_crrn_net :=
  cli ← crrn_client net nid;
  Ret (set_client net nid (set_ref cli (s32 (cc_ref cli - 1)))).

(** What [nrs_crrn_req_get] and [nrs_crrn_req_del] do once the request at the root has gone:
    peek at the next one. *)
Definition crrn_next_round net : run nrs_crrn_net :=
  node ← cfs_binheap_root (cn_binheap net);
  match node with
  | None => Ret (set_round net (u64 (cn_round net + 1)))
  | Some next =>
      rq ← crrn_req net next;
      Ret (if cn_round net <? cr_round rq then set_round net (cr_round rq) else net)
  end.

(** Taking a request out: the assertion, the heap and the count of its client. *)
Definition crrn_take net (i : Z) : run nrs_crrn_net :=
  rq ← crrn_req net i;
  cli ← crrn_client net (nr_nid rq);
  lassert cr_round rq <=? cc_round cli;
  h ← cfs_binheap_remove None (crrn_compare (cn_reqs net)) (cn_binheap net) i;
  Ret (set_client (set_heap net h) (nr_nid rq)
         (CrrnClient (cc_round cli) (cc_sequence cli) (cc_ref cli) (cc_quantum cli) (u16 (cc_active cli - 1)))).

Definition nrs_crrn_req_get net (peek : bool) : run (option Z * nrs_crrn_net) :=
  node ← cfs_binheap_root (cn_binheap net);
  match node with
  | Some i =>
      if negb peek then
        net ← crrn_take net i;
        net ← crrn_next_round net;
        Ret (node, net)
      else Ret (node, net)
  | None => Ret (node, net)
  end.

(** A new batch: the client's round, its place among the batches and its quantum. *)
Definition crrn_new_batch net (cli : nrs_crrn_client) : bool :=
  (cc_quantum cli =? 0) || (cc_round cli <? cn_round net) || ((cc_active cli =? 0) && (0 <? cc_quantum cli)).

Definition crrn_batch net (cli : nrs_crrn_client) : nrs_crrn_net * nrs_crrn_client :=
  let round := if (cc_active cli =? 0) && (0 <? cc_quantum cli) then u64 (cc_round cli + 1) else cc_round cli in
  let round := if round <? cn_round net then cn_round net else round in
  let '(cseq, nseq) :=
    if cc_sequence cli <? cn_sequence net
    then (u64 (cn_sequence net + 1), u64 (cn_sequence net + 1))
    else (cc_sequence cli, cn_sequence net) in
  (CrrnNet (cn_binheap net) (cn_cli_hash net) (cn_round net) nseq (cn_quantum net) (cn_reqs net),
   CrrnClient round cseq (cc_ref cli) (cn_quantum net) (cc_active cli)).

(** [nrs_crrn_req_add] of the request [i] of the client [nid]. *)
Definition nrs_crrn_req_add (alloc : nat -> bool) net (i nid : Z) : run (Z * nrs_crrn_net) :=
  cli ← crrn_client net nid;
  let '(net, cli) := if crrn_new_batch net cli then crrn_batch net cli else (net, cli) in
  let reqs := <[i := CrrnReq nid (cc_round cli) (cc_sequence cli)]> (cn_reqs net) in
  p ← cfs_binheap_insert None (crrn_compare reqs) alloc (cn_binheap net) i;
  let '(rc, h) := p in
  let cli :=
    if rc =? 0 then
      let quantum := u16 (cc_quantum cli - 1) in
      CrrnClient (if quantum =? 0 then u64 (cc_round cli + 1) else cc_round cli) (cc_sequence cli)
        (cc_ref cli) quantum (u16 (cc_active cli + 1))
    else cli in
  Ret (rc, CrrnNet h (<[nid := cli]> (cn_cli_hash net)) (cn_round net) (cn_sequence net) (cn_quantum net) reqs).

Definition nrs_crrn_req_del net (i : Z) : run nrs_crrn_net :=
  root ← cfs_binheap_root (cn_binheap net);
  let is_root := bool_decide (root = Some i) in
  net ← crrn_take net i;
  if is_root then crrn_next_round net else Ret net.

(** ** A policy at work *)

Inductive crrn_op :=
  | CrrnResGet (alloc : bool) (nid : Z)
  | CrrnResPut (nid : Z)
  | CrrnReqAdd (alloc : nat -> bool) (i nid : Z)
  | CrrnReqGet (peek : bool)
  | CrrnReqDel (i : Z)
  | CrrnCtl (opc : nrs_ctl_crr).

Inductive crrn_result := CrrnRc (rc : Z) | CrrnNode (node : option Z) | CrrnDone.

Definition crrn_do net (op : crrn_op) : run (crrn_result * nrs_crrn_net) :=
  match op with
  | CrrnResGet alloc nid => let '(rc, net) := nrs_crrn_res_get alloc net nid in Ret (CrrnRc rc, net)
  | CrrnResPut nid => net ← nrs_crrn_res_put net nid; Ret (CrrnDone, net)
  | CrrnReqAdd alloc i nid => p ← nrs_crrn_req_add alloc net i nid; Ret (CrrnRc p.1, p.2)
  | CrrnReqGet peek => p ← nrs_crrn_req_get net peek; Ret (CrrnNode p.1, p.2)
  | CrrnReqDel i => net ← nrs_crrn_req_del net i; Ret (CrrnDone, net)
  | CrrnCtl opc => p ← nrs_crrn_ctl net opc; Ret (CrrnRc p.1.1, p.2)
  end.

(** What has happened so far: the references requests hold on clients, the requests
    pending, and the tags of those added and of those served. *)
Record crrn_log := CrrnLog {
  lg_held : list Z;
  lg_pending : list Z;
  lg_added : list nrs_crrn_req;
  lg_served : list nrs_crrn_req
}.

(** What the scheduler sees to: a request is added once, with a reference on its client,
    and taken away when it is pending; the quantum is a [__u16] other than 0. *)
Definition crrn_can (max_quantum : Z) (lg : crrn_log) (op : crrn_op) : Prop :=
  match op with
  | CrrnResGet _ _ | CrrnReqGet _ => True
  | CrrnResPut nid => nid ∈ lg_held lg
  | CrrnReqAdd _ i nid => nid ∈ lg_held lg /\ i ∉ lg_pending lg
  | CrrnReqDel i => i ∈ lg_pending lg
  | CrrnCtl (NRS_CTL_CRRN_WR_QUANTUM q) => 0 < q <= max_quantum
  | CrrnCtl _ => True
  end.

Fixpoint remove_one (x : Z) (l : list Z) : list Z :=
  match l with
  | [] => []
  | y :: l' => if decide (x = y) then l' else y :: remove_one x l'
  end.

Definition crrn_note (lg : crrn_log) (op : crrn_op) (r : crrn_result) net : crrn_log :=
  match op, r with
  | CrrnResGet _ nid, CrrnRc 1 => CrrnLog (nid :: lg_held lg) (lg_pending lg) (lg_added lg) (lg_served lg)
  | CrrnResPut nid, _ => CrrnLog (remove_one nid (lg_held lg)) (lg_pending lg) (lg_added lg) (lg_served lg)
  | CrrnReqAdd _ i _, CrrnRc 0 =>
      CrrnLog (lg_held lg) (i :: lg_pending lg) (option_list (cn_reqs net !! i) ++ lg_added lg) (lg_served lg)
  | CrrnReqGet false, CrrnNode (Some i) =>
      CrrnLog (lg_held lg) (remove_one i (lg_pending lg)) (lg_added lg)
        (option_list (cn_reqs net !! i) ++ lg_served lg)
  | CrrnReqDel i, _ => CrrnLog (lg_held lg) (remove_one i (lg_pending lg)) (lg_added lg) (lg_served lg)
  | _, _ => lg
  end.

(** A policy after [n] calls. *)
Inductive crrn_reachable (max_quantum : Z) : Z -> nrs_crrn_net -> crrn_log -> Prop :=
  | crrn_started alloc_net alloc_heap alloc_hash alloc index net :
      nrs_crrn_start alloc_net alloc_heap alloc_hash alloc index = Ret (inr net) ->
      crrn_reachable max_quantum 0 net (CrrnLog [] [] [] [])
  | crrn_called n net lg op r net' :
      crrn_reachable max_quantum n net lg -> crrn_can max_quantum lg op ->
      crrn_do net op = Ret (r, net') ->
      crrn_reachable max_quantum (n + 1) net' (crrn_note lg op r net').
