(* ===== verification/NrsCrrInv.v ===== *)
(** What holds of a client round robin policy after any calls (lustre/ptlrpc/nrs_crr.c):
    the heap has the pending requests, no request is of a round past or of a round its
    client has not come to, no client has more than a quantum of requests in a round, and
    the sequence of a batch is that of one client. *)

From stdpp Require Import gmap.
From S2P Require Import Prelude BinHeap BinHeapTable BinHeapOrder BinHeapOps BinHeapProps NrsOrder NrsCrr.

(** ** Counting *)

Definition batch_of (nid r : Z) (l : list nrs_crrn_req) : Z :=
  Z.of_nat (length (filter (fun rq => nr_nid rq = nid /\ cr_round rq = r) l)).
Definition refs_of (nid : Z) (l : list Z) : Z := Z.of_nat (length (filter (fun x => x = nid) l)).

Lemma batch_of_cons nid r rq l :
  batch_of nid r (rq :: l)
  = batch_of nid r l + (if decide (nr_nid rq = nid /\ cr_round rq = r) then 1 else 0).
Proof. unfold batch_of. rewrite filter_cons. case_decide; cbn [length]; lia. Qed.

Lemma batch_of_nonneg nid r l : 0 <= batch_of nid r l.
Proof. unfold batch_of. lia. Qed.

Lemma batch_of_submseteq nid r l l' : l ⊆+ l' -> batch_of nid r l <= batch_of nid r l'.
Proof.
  intros [k Hk]%submseteq_Permutation. unfold batch_of. rewrite Hk, filter_app, length_app. lia.
Qed.

Lemma refs_of_cons nid x l : refs_of nid (x :: l) = refs_of nid l + (if decide (x = nid) then 1 else 0).
Proof. unfold refs_of. rewrite filter_cons. case_decide; cbn [length]; lia. Qed.

Lemma remove_one_perm x l : x ∈ l -> l ≡ₚ x :: remove_one x l.
Proof.
  induction l as [|y l IH]; [by intros ?%elem_of_nil|]. cbn [remove_one]. case_decide as E; [by subst|].
  intros [->|Hx]%elem_of_cons; [done|]. rewrite (IH Hx) at 1. by apply Permutation_swap.
Qed.

(** ** The invariant *)

Definition queue net (l : list Z) : Prop :=
  heap_of (fun a b => crrn_le (req_key (cn_reqs net) a) (req_key (cn_reqs net) b)) (cn_binheap net) l.

Definition tags net (l : list Z) : list nrs_crrn_req := omap (fun i => cn_reqs net !! i) l.

#[export] Instance reqs_order reqs :
  CompareOrder (crrn_compare reqs) (fun a b => crrn_le (req_key reqs a) (req_key reqs b)).
Proof. apply (compare_on (req_key reqs)), _. Qed.

Record client_ok (Q B : Z) (lg : crrn_log) (nid : Z) (cli : nrs_crrn_client) : Prop := {
  cl_round : 0 <= cc_round cli <= B;
  cl_quantum : 0 <= cc_quantum cli;
  cl_sequence : 0 < cc_quantum cli -> 0 < cc_sequence cli;
  cl_ref : cc_ref cli = s32 (1 + refs_of nid (lg_held lg));
  cl_later : forall r, cc_round cli < r -> batch_of nid r (lg_added lg) = 0;
  cl_fresh : cc_quantum cli = 0 -> batch_of nid (cc_round cli) (lg_added lg) = 0;
  cl_batch : batch_of nid (cc_round cli) (lg_added lg) + cc_quantum cli <= Q;
  cl_all : forall r, batch_of nid r (lg_added lg) <= Q
}.

(** The sequence [s] is that of a client, or of a request it has added. *)
Definition owns net (lg : crrn_log) (s nid : Z) : Prop :=
  (exists cli, cn_cli_hash net !! nid = Some cli /\ cc_sequence cli = s)
  \/ (exists rq, rq ∈ lg_added lg /\ nr_nid rq = nid /\ cr_sequence rq = s).

(** A pending request is of a round that is not past, and that its client has come to. *)
Definition pending_ok net (i : Z) : Prop :=
  exists rq cli, cn_reqs net !! i = Some rq /\ cn_cli_hash net !! nr_nid rq = Some cli
    /\ cn_round net <= cr_round rq <= cc_round cli.

Record crrn_inv (Q n : Z) net (lg : crrn_log) : Prop := {
  iv_max : 0 <= n /\ OBD_MAX_RIF_DEFAULT <= Q < 2 ^ 16;
  iv_heap : exists l, queue net l /\ l ≡ₚ lg_pending lg;
  iv_pending : forall i, i ∈ lg_pending lg -> pending_ok net i;
  iv_served : tags net (lg_pending lg) ++ lg_served lg ⊆+ lg_added lg;
  iv_net : 0 <= cn_round net <= 2 * n /\ 1 <= cn_sequence net <= n + 1 /\ 0 < cn_quantum net <= Q;
  iv_client : forall nid cli, cn_cli_hash net !! nid = Some cli -> client_ok Q (2 * n) lg nid cli;
  iv_other : forall nid, cn_cli_hash net !! nid = None ->
    refs_of nid (lg_held lg) = 0 /\ forall r, batch_of nid r (lg_added lg) = 0;
  iv_owns : forall s nid, owns net lg s nid -> 0 <= s <= cn_sequence net;
  iv_one : forall s a b, 0 < s -> owns net lg s a -> owns net lg s b -> a = b;
  iv_added : forall rq, rq ∈ lg_added lg -> 0 < cr_sequence rq
}.

(** ** Start and control *)

Lemma start_inv Q alloc_net alloc_heap alloc_hash alloc index :
  OBD_MAX_RIF_DEFAULT <= Q < 2 ^ 16 ->
  exists r, nrs_crrn_start alloc_net alloc_heap alloc_hash alloc index = Ret r
    /\ match r with inl rc => rc = - ENOMEM | inr net => crrn_inv Q 0 net (CrrnLog [] [] [] []) end.
Proof.
  intros HQ. unfold nrs_crrn_start. destruct alloc_net; cbn [negb]; [|by eexists].
  destruct (create_spec (fun a b => crrn_le (req_key ∅ a) (req_key ∅ b)) alloc_heap alloc 4096 tt index)
    as ([h|] & -> & Hh); cbn [mbind run_bind]; [|by eexists].
  destruct alloc_hash; cbn [negb]; [|by eexists]. eexists. split; [done|]. split; cbn.
  - lia.
  - exists []. split; [apply Hh|done].
  - by intros i ?%elem_of_nil.
  - done.
  - unfold OBD_MAX_RIF_DEFAULT in *. lia.
  - intros nid cli. by rewrite lookup_empty.
  - intros nid _. done.
  - intros s nid [(cli & Hc & _)|(rq & Hr & _)]; cbn in *; [by rewrite lookup_empty in Hc|by apply elem_of_nil in Hr].
  - intros s a b _ [(cli & Hc & _)|(rq & Hr & _)]; cbn in *; [by rewrite lookup_empty in Hc|by apply elem_of_nil in Hr].
  - by intros rq ?%elem_of_nil.
Qed.

Lemma client_ok_weaken Q n n' lg nid cli : n <= n' -> client_ok Q n lg nid cli -> client_ok Q n' lg nid cli.
Proof. intros Hn []. split; try done. lia. Qed.

Lemma inv_weaken Q n n' net lg : n <= n' -> crrn_inv Q n net lg -> crrn_inv Q n' net lg.
Proof.
  intros Hn []. split; try done; [lia|lia|]. intros nid cli Hc. by eapply client_ok_weaken; [|by apply iv_client0]; lia.
Qed.

Lemma ctl_inv Q n net lg opc :
  crrn_inv Q n net lg -> crrn_can Q lg (CrrnCtl opc) ->
  exists rc q net', nrs_crrn_ctl net opc = Ret (rc, q, net') /\ crrn_inv Q n net' lg
    /\ cn_round net' = cn_round net.
Proof.
  intros Hi Hc. destruct opc as [|arg|]; cbn in Hc |- *.
  - by eexists _, _, _.
  - destruct (Z.eqb_spec arg 0); [lia|]. cbn [negb LASSERT]. eexists _, _, _. split; [done|]. split; [|done].
    destruct Hi. split; try done. cbn. lia.
  - by eexists _, _, _.
Qed.

(** ** Clients *)

Lemma swrap_add a b : s32 (s32 a + b) = s32 (a + b).
Proof.
  unfold swrap. f_equal.
  replace ((a + 2 ^ (32 - 1)) mod 2 ^ 32 - 2 ^ (32 - 1) + b + 2 ^ (32 - 1))
    with ((a + 2 ^ (32 - 1)) mod 2 ^ 32 + b) by lia.
  rewrite Zplus_mod_idemp_l. f_equal. lia.
Qed.

Definition set_held lg (held : list Z) : crrn_log := CrrnLog held (lg_pending lg) (lg_added lg) (lg_served lg).

(** A client that has not gone back, and has kept its sequence. *)
Definition moves_on (old : option nrs_crrn_client) (cli : nrs_crrn_client) : Prop :=
  match old with
  | Some old => cc_round old <= cc_round cli /\ cc_sequence cli = cc_sequence old
  | None => cc_sequence cli = 0
  end.

Lemma pending_ok_client net i nid cli :
  pending_ok net i -> moves_on (cn_cli_hash net !! nid) cli -> pending_ok (set_client net nid cli) i.
Proof.
  intros (rq & old & Hr & Ho & Hle) Hm. destruct (decide (nr_nid rq = nid)) as [E|E].
  - exists rq, cli. cbn. rewrite E, lookup_insert_eq. rewrite E in Ho. rewrite Ho in Hm. cbn in Hm.
    split_and!; try done; lia.
  - exists rq, old. cbn. by rewrite lookup_insert_ne.
Qed.

Lemma owns_client net lg held s x nid cli :
  moves_on (cn_cli_hash net !! nid) cli -> owns (set_client net nid cli) (set_held lg held) s x ->
  owns net lg s x \/ s = 0.
Proof.
  intros Hm [(c & Hc & Hs)|Hr]; [|by left; right]. cbn in Hc.
  destruct (decide (nid = x)) as [->|E]; [|rewrite lookup_insert_ne in Hc by done; left; left; by exists c].
  rewrite lookup_insert_eq in Hc. injection Hc as <-. unfold moves_on in Hm.
  destruct (cn_cli_hash net !! x) as [old|] eqn:Eo; [|right; congruence].
  left. left. exists old. split; [done|]. destruct Hm. congruence.
Qed.

Lemma set_client_inv Q n net lg held nid cli :
  crrn_inv Q n net lg -> moves_on (cn_cli_hash net !! nid) cli ->
  (forall x, x <> nid -> refs_of x held = refs_of x (lg_held lg)) ->
  client_ok Q (2 * n) (set_held lg held) nid cli ->
  crrn_inv Q n (set_client net nid cli) (set_held lg held).
Proof.
  intros [] Hm Hh Hc. split; try done.
  - intros i Hi. by apply pending_ok_client; [apply iv_pending0|].
  - intros x c Hx. cbn in Hx. destruct (decide (nid = x)) as [->|E].
    + rewrite lookup_insert_eq in Hx. by injection Hx as <-.
    + rewrite lookup_insert_ne in Hx by done. destruct (iv_client0 x c Hx). split; try done. cbn. by rewrite Hh.
  - intros x Hx. cbn in Hx. destruct (decide (nid = x)) as [->|E]; [by rewrite lookup_insert_eq in Hx|].
    rewrite lookup_insert_ne in Hx by done. cbn. rewrite Hh by done. by apply iv_other0.
  - intros s x Ho. apply owns_client in Ho as [Ho| ->]; [by apply (iv_owns0 s x)| |done]. cbn. lia.
  - intros s a b Hs Ha Hb. apply owns_client in Ha as [Ha| ->], Hb as [Hb|E]; try done; try lia.
    by apply (iv_one0 s).
Qed.

Lemma set_held_id lg : set_held lg (lg_held lg) = lg.
Proof. by destruct lg. Qed.

Lemma client_held Q n net lg nid :
  crrn_inv Q n net lg -> nid ∈ lg_held lg -> exists cli, cn_cli_hash net !! nid = Some cli.
Proof.
  intros Hi Hin. destruct (cn_cli_hash net !! nid) as [cli|] eqn:E; [by exists cli|].
  destruct (iv_other _ _ _ _ Hi nid E) as [H _]. apply list_elem_of_split in Hin as (l1 & l2 & El).
  exfalso. revert H. unfold refs_of. rewrite El, filter_app, filter_cons_True, length_app by done. cbn. lia.
Qed.

Lemma client_ok_ref Q n lg nid cli held :
  client_ok Q n lg nid cli ->
  client_ok Q n (set_held lg held) nid (set_ref cli (s32 (1 + refs_of nid held))).
Proof. intros []. by split. Qed.

Lemma res_get_inv Q n net lg alloc nid :
  crrn_inv Q n net lg ->
  exists rc net', nrs_crrn_res_get alloc net nid = (rc, net') /\ cn_round net' = cn_round net
    /\ ((rc = 1 /\ crrn_inv Q n net' (set_held lg (nid :: lg_held lg))) \/ (rc = - ENOMEM /\ net' = net)).
Proof.
  intros Hi. unfold nrs_crrn_res_get.
  assert (Hh : forall x, x <> nid -> refs_of x (nid :: lg_held lg) = refs_of x (lg_held lg)).
  { intros x Hx. rewrite refs_of_cons, decide_False by done. lia. }
  assert (Hn : refs_of nid (nid :: lg_held lg) = refs_of nid (lg_held lg) + 1).
  { by rewrite refs_of_cons, decide_True. }
  destruct (cn_cli_hash net !! nid) as [cli|] eqn:E.
  - pose proof (iv_client _ _ _ _ Hi nid cli E) as Hc. eexists _, _. split; [done|]. split; [done|]. left. split; [done|].
    apply set_client_inv; try done; [rewrite E; cbn; lia|].
    rewrite (cl_ref _ _ _ _ _ Hc), swrap_add. replace (1 + _ + 1) with (1 + refs_of nid (nid :: lg_held lg)) by lia.
    by apply client_ok_ref.
  - destruct alloc; cbn [negb]; [|eexists _, _; split_and!; try done; by right].
    eexists _, _. split; [done|]. split; [done|]. left. split; [done|]. apply set_client_inv; try done; [by rewrite E|].
    destruct (iv_other _ _ _ _ Hi nid E) as [H0 Hb]. pose proof (iv_max _ _ _ _ Hi). unfold OBD_MAX_RIF_DEFAULT in *.
    split; cbn; try done; try lia; try (intros; rewrite Hb; lia). rewrite Hn, H0. done.
Qed.

Lemma res_put_inv Q n net lg nid :
  crrn_inv Q n net lg -> nid ∈ lg_held lg ->
  exists net', nrs_crrn_res_put net nid = Ret net' /\ cn_round net' = cn_round net
    /\ crrn_inv Q n net' (set_held lg (remove_one nid (lg_held lg))).
Proof.
  intros Hi Hin. destruct (client_held _ _ _ _ _ Hi Hin) as [cli E]. pose proof (iv_client _ _ _ _ Hi nid cli E) as Hc.
  assert (Hh : forall x, refs_of x (lg_held lg)
    = refs_of x (remove_one nid (lg_held lg)) + (if decide (nid = x) then 1 else 0)).
  { intros x. rewrite <-refs_of_cons. unfold refs_of. by rewrite (remove_one_perm nid (lg_held lg)) at 1 by done. }
  unfold nrs_crrn_res_put, crrn_client. rewrite E. cbn [mbind run_bind]. eexists. split; [done|]. split; [done|].
  apply set_client_inv; try done; [rewrite E; cbn; lia| |].
  - intros x Hx. rewrite Hh, decide_False by done. lia.
  - rewrite (cl_ref _ _ _ _ _ Hc), Hh, decide_True by done.
    replace (s32 (1 + (refs_of nid (remove_one nid (lg_held lg)) + 1)) - 1)
      with (s32 (1 + (refs_of nid (remove_one nid (lg_held lg)) + 1)) + -1) by lia.
    rewrite swrap_add. replace (1 + (_ + 1) + -1) with (1 + refs_of nid (remove_one nid (lg_held lg))) by lia.
    by apply client_ok_ref.
Qed.

(** ** Taking requests out *)

Definition drop_pending lg (i : Z) (served : list nrs_crrn_req) : crrn_log :=
  CrrnLog (lg_held lg) (remove_one i (lg_pending lg)) (lg_added lg) served.

Lemma tags_cons net i l rq : cn_reqs net !! i = Some rq -> tags net (i :: l) = rq :: tags net l.
Proof. intros Hr. unfold tags. cbn. by rewrite Hr. Qed.

Lemma tags_perm net l l' : l ≡ₚ l' -> tags net l ≡ₚ tags net l'.
Proof. intros Hl. unfold tags. by rewrite Hl. Qed.

(** The tags of a request that is taken out, whether it is served or not. *)
Lemma served_drop Q n net lg i rq :
  crrn_inv Q n net lg -> i ∈ lg_pending lg -> cn_reqs net !! i = Some rq ->
  tags net (remove_one i (lg_pending lg)) ++ rq :: lg_served lg ⊆+ lg_added lg
  /\ tags net (remove_one i (lg_pending lg)) ++ lg_served lg ⊆+ lg_added lg.
Proof.
  intros Hi Hin Hr. pose proof (iv_served _ _ _ _ Hi) as Hs.
  rewrite (tags_perm net _ _ (remove_one_perm _ _ Hin)), (tags_cons _ _ _ _ Hr) in Hs. cbn in Hs.
  split; [by rewrite <-Permutation_middle|]. etransitivity; [|exact Hs]. by apply submseteq_cons.
Qed.

Lemma take_heap_inv Q n net lg i l h served :
  crrn_inv Q n net lg -> i ∈ lg_pending lg -> queue (set_heap net h) l -> l ≡ₚ remove_one i (lg_pending lg) ->
  tags net (remove_one i (lg_pending lg)) ++ served ⊆+ lg_added lg ->
  crrn_inv Q n (set_heap net h) (drop_pending lg i served).
Proof.
  intros Hi Hin Hl Hp Hs. destruct Hi. split; try done.
  - by exists l.
  - intros j Hj. cbn in Hj. apply iv_pending0. rewrite (remove_one_perm i (lg_pending lg)) by done. by right.
  - intros nid cli Hc. destruct (iv_client0 nid cli Hc). by split.
Qed.

Lemma take_inv Q n net lg i :
  crrn_inv Q n net lg -> i ∈ lg_pending lg ->
  exists rq net', cn_reqs net !! i = Some rq /\ crrn_take net i = Ret net'
    /\ cn_reqs net' = cn_reqs net /\ cn_round net' = cn_round net /\ rq ∈ lg_added lg
    /\ forall served, tags net (remove_one i (lg_pending lg)) ++ served ⊆+ lg_added lg ->
         crrn_inv Q n net' (drop_pending lg i served).
Proof.
  intros Hi Hin. destruct (iv_pending _ _ _ _ Hi i Hin) as (rq & cli & Hr & Hc & Hle).
  destruct (iv_heap _ _ _ _ Hi) as (l & Hl & Hp).
  assert (Hil : i ∈ l) by (by rewrite Hp).
  destruct (remove_spec None (crrn_compare (cn_reqs net)) _ _ l i Hl Hil) as (h' & l' & Eh & Hl' & Hp').
  unfold crrn_take, crrn_req, crrn_client. rewrite Hr. cbn [mbind run_bind]. rewrite Hc. cbn [mbind run_bind].
  destruct (Z.leb_spec (cr_round rq) (cc_round cli)); [|lia]. cbn [LASSERT]. rewrite Eh. cbn [mbind run_bind].
  assert (Hl2 : l' ≡ₚ remove_one i (lg_pending lg)).
  { apply (Permutation_cons_inv (a := i)). by rewrite <-Hp', Hp, <-remove_one_perm. }
  eexists rq, _. split_and!; try done.
  { destruct (served_drop _ _ _ _ _ _ Hi Hin Hr) as [Hs _]. eapply elem_of_submseteq; [|exact Hs].
    apply elem_of_app. right. by left. }
  intros served Hs. pose proof (take_heap_inv Q n net lg i l' h' served Hi Hin Hl' Hl2 Hs) as Hi'.
  rewrite <-(set_held_id (drop_pending lg i served)). apply set_client_inv; try done.
  - cbn. rewrite Hc. cbn. lia.
  - cbn. destruct (iv_client _ _ _ _ Hi' _ _ Hc). by split.
Qed.

(** The root: a pending request of the least round and sequence. *)
Definition crrn_least net lg (node : option Z) : Prop :=
  match node with
  | None => lg_pending lg = []
  | Some i =>
      i ∈ lg_pending lg
      /\ forall j, j ∈ lg_pending lg -> crrn_le (req_key (cn_reqs net) i) (req_key (cn_reqs net) j)
  end.

Lemma root_inv Q n net lg :
  crrn_inv Q n net lg -> exists node, cfs_binheap_root (cn_binheap net) = Ret node /\ crrn_least net lg node.
Proof.
  intros Hi. destruct (iv_heap _ _ _ _ Hi) as (l & Hl & Hp).
  destruct (root_spec (crrn_compare (cn_reqs net)) _ _ l Hl) as (node & -> & Hn). exists node. split; [done|].
  destruct node as [i|]; cbn; [|by apply Permutation_nil_r; rewrite <-Hp, Hn].
  rewrite <-Hp. destruct Hn as [Hil Hm]. split; [done|]. intros j Hj. apply Hm. by rewrite Hp.
Qed.

Lemma set_round_inv Q n net lg r :
  crrn_inv Q n net lg -> cn_round net <= r <= 2 * (n + 1) ->
  (forall i rq, i ∈ lg_pending lg -> cn_reqs net !! i = Some rq -> r <= cr_round rq) ->
  crrn_inv Q (n + 1) (set_round net r) lg.
Proof.
  intros Hi Hr Hp. pose proof (inv_weaken Q n (n + 1) net lg ltac:(lia) Hi) as []. split; try done.
  - intros i Hin. destruct (iv_pending0 i Hin) as (rq & cli & Hq & Hc & Hle).
    exists rq, cli. split_and!; try done; cbn; [by eapply Hp|lia].
  - cbn. lia.
Qed.

Lemma next_round_inv Q n net lg :
  crrn_inv Q n net lg -> n < 2 ^ 62 ->
  exists net', crrn_next_round net = Ret net' /\ crrn_inv Q (n + 1) net' lg
    /\ cn_round net <= cn_round net' /\ cn_reqs net' = cn_reqs net.
Proof.
  intros Hi Hn. destruct (root_inv _ _ _ _ Hi) as (node & E & Hm). pose proof (iv_net _ _ _ _ Hi) as (Hr & _).
  pose proof (iv_max _ _ _ _ Hi) as [? _]. unfold crrn_next_round. rewrite E. cbn [mbind run_bind].
  destruct node as [i|].
  - destruct Hm as [Hin Hm]. destruct (iv_pending _ _ _ _ Hi i Hin) as (rq & cli & Hq & Hc & Hle).
    unfold crrn_req. rewrite Hq. cbn [mbind run_bind]. eexists. split; [done|].
    destruct (Z.ltb_spec (cn_round net) (cr_round rq)) as [Hlt|Hge].
    + split; [|cbn; split; [lia|done]]. pose proof (cl_round _ _ _ _ _ (iv_client _ _ _ _ Hi _ _ Hc)).
      apply set_round_inv; [done|lia|].
      intros j rj Hj Ej. specialize (Hm j Hj). unfold req_key in Hm. rewrite Hq, Ej in Hm. cbn in Hm. lia.
    + split; [|by split]. by apply (inv_weaken Q n); [lia|].
  - eexists. split; [done|]. rewrite wrap_small by (unfold in_u; lia). split; [|cbn; split; [lia|done]].
    apply set_round_inv; [done|lia|]. cbn in Hm. rewrite Hm. by intros i rq ?%elem_of_nil.
Qed.

Lemma req_get_inv Q n net lg peek :
  crrn_inv Q n net lg -> n < 2 ^ 62 ->
  exists node net', nrs_crrn_req_get net peek = Ret (node, net')
    /\ crrn_inv Q (n + 1) net' (crrn_note lg (CrrnReqGet peek) (CrrnNode node) net')
    /\ crrn_least net lg node /\ cn_round net <= cn_round net' /\ cn_reqs net' = cn_reqs net.
Proof.
  intros Hi Hn. destruct (root_inv _ _ _ _ Hi) as (node & E & Hm). unfold nrs_crrn_req_get. rewrite E. cbn [mbind run_bind].
  assert (Hw : crrn_inv Q (n + 1) net lg) by (by apply (inv_weaken Q n); [lia|]).
  destruct node as [i|]; [destruct peek; cbn [negb]|].
  - by eexists _, _.
  - destruct (take_inv Q n net lg i Hi (proj1 Hm)) as (rq & net1 & Hr & -> & Eq & Er & _ & Hi1). cbn [mbind run_bind].
    destruct (served_drop _ _ _ _ _ _ Hi (proj1 Hm) Hr) as [Hs _]. specialize (Hi1 _ Hs).
    destruct (next_round_inv _ _ _ _ Hi1 Hn) as (net2 & -> & Hi2 & Hle & Eq2). cbn [mbind run_bind].
    eexists _, _. split; [done|]. split; [|split_and!; [done|lia|congruence]]. cbn. by rewrite Eq2, Eq, Hr.
  - eexists _, _. split; [done|]. split; [|by split_and!]. by destruct peek.
Qed.

Lemma req_del_inv Q n net lg i :
  crrn_inv Q n net lg -> n < 2 ^ 62 -> i ∈ lg_pending lg ->
  exists net', nrs_crrn_req_del net i = Ret net' /\ crrn_inv Q (n + 1) net' (drop_pending lg i (lg_served lg))
    /\ cn_round net <= cn_round net' /\ cn_reqs net' = cn_reqs net.
Proof.
  intros Hi Hn Hin. destruct (root_inv _ _ _ _ Hi) as (node & E & _). unfold nrs_crrn_req_del. rewrite E. cbn [mbind run_bind].
  destruct (take_inv Q n net lg i Hi Hin) as (rq & net1 & Hr & -> & Eq & Er & _ & Hi1). cbn [mbind run_bind].
  destruct (served_drop _ _ _ _ _ _ Hi Hin Hr) as [_ Hs]. specialize (Hi1 _ Hs).
  destruct (next_round_inv _ _ _ _ Hi1 Hn) as (net2 & E2 & Hi2 & Hle & Eq2).
  case_bool_decide; [rewrite E2; eexists; split_and!; [done|done|lia|congruence]|].
  eexists. split_and!; [done| |lia|done]. by apply (inv_weaken Q n); [lia|].
Qed.

(** ** Adding requests *)

Definition open_batch net cli : nrs_crrn_net * nrs_crrn_client :=
  if crrn_new_batch net cli then crrn_batch net cli else (net, cli).

Definition set_sequence net s : nrs_crrn_net :=
  CrrnNet (cn_binheap net) (cn_cli_hash net) (cn_round net) s (cn_quantum net) (cn_reqs net).

(** The client at a round it has no request in yet, with a whole quantum. *)
Lemma fresh_client Q B lg nid cli round seq quantum :
  client_ok Q B lg nid cli -> cc_round cli <= round <= B + 1 ->
  (cc_quantum cli = 0 \/ cc_round cli < round) -> 0 < seq -> 0 < quantum <= Q ->
  client_ok Q (B + 1) lg nid (CrrnClient round seq (cc_ref cli) quantum (cc_active cli)).
Proof.
  intros [] Hr Hf Hs Hq. assert (Hb : batch_of nid round (lg_added lg) = 0).
  { destruct (decide (cc_round cli = round)) as [<-|]; [|apply cl_later0; lia]. apply cl_fresh0. lia. }
  split; cbn; try done; try lia. intros r Hlt. apply cl_later0. lia.
Qed.

(** A sequence that is taken over from the client, or new. *)
Lemma open_sequence Q n net lg nid cli cseq nseq :
  crrn_inv Q n net lg -> n < 2 ^ 62 -> cn_cli_hash net !! nid = Some cli ->
  (if cc_sequence cli <? cn_sequence net then (u64 (cn_sequence net + 1), u64 (cn_sequence net + 1))
   else (cc_sequence cli, cn_sequence net)) = (cseq, nseq) ->
  0 < cseq <= nseq /\ cn_sequence net <= nseq <= cn_sequence net + 1
  /\ (cseq = cc_sequence cli \/ cseq = cn_sequence net + 1).
Proof.
  intros Hi Hn Hc. pose proof (iv_net _ _ _ _ Hi) as (_ & Hs & _).
  assert (Ho : owns net lg (cc_sequence cli) nid) by (left; by exists cli).
  apply (iv_owns _ _ _ _ Hi) in Ho.
  destruct (Z.ltb_spec (cc_sequence cli) (cn_sequence net)); intros [= <- <-]; [|lia].
  rewrite wrap_small by (unfold in_u; lia). lia.
Qed.

Lemma open_batch_ok Q n net lg nid cli :
  crrn_inv Q n net lg -> n < 2 ^ 62 -> cn_cli_hash net !! nid = Some cli ->
  exists nseq cli1, open_batch net cli = (set_sequence net nseq, cli1)
    /\ client_ok Q (2 * n + 1) lg nid cli1 /\ 0 < cc_quantum cli1
    /\ cc_round cli <= cc_round cli1 /\ cn_round net <= cc_round cli1
    /\ 0 < cc_sequence cli1 <= nseq /\ cn_sequence net <= nseq <= cn_sequence net + 1
    /\ (cc_sequence cli1 = cc_sequence cli \/ cc_sequence cli1 = cn_sequence net + 1).
Proof.
  intros Hi Hn Hc. pose proof (iv_client _ _ _ _ Hi _ _ Hc) as Hok. pose proof Hok as [Hr Hq Hqs _ _ _ _ _].
  pose proof (iv_net _ _ _ _ Hi) as (Hnr & _ & Hnq).
  assert (Ho : owns net lg (cc_sequence cli) nid) by (left; by exists cli).
  apply (iv_owns _ _ _ _ Hi) in Ho. unfold open_batch.
  destruct (crrn_new_batch net cli) eqn:En; unfold crrn_new_batch in En.
  2: { apply orb_false_iff in En as [[E1 E2]%orb_false_iff E3].
    exists (cn_sequence net), cli. destruct net; cbn in *.
    split_and!; try done; try lia; by eapply client_ok_weaken; [|exact Hok]; lia. }
  unfold crrn_batch.
  destruct (if cc_sequence cli <? cn_sequence net then _ else _) as [cseq nseq] eqn:Es.
  destruct (open_sequence _ _ _ _ _ _ _ _ Hi Hn Hc Es) as (Hcs & Hns & Hor).
  rewrite wrap_small by (unfold in_u; lia). eexists nseq, _. split; [done|]. cbn [cc_round cc_quantum cc_sequence].
  assert (Hrd : let r := (if (cc_active cli =? 0) && (0 <? cc_quantum cli) then cc_round cli + 1 else cc_round cli) in
    let r := if r <? cn_round net then cn_round net else r in
    cc_round cli <= r <= 2 * n + 1 /\ cn_round net <= r /\ (cc_quantum cli = 0 \/ cc_round cli < r)).
  { clear Es. cbn zeta. destruct (Z.eqb_spec (cc_active cli) 0), (Z.ltb_spec 0 (cc_quantum cli)); cbn [andb] in *;
      destruct (Z.ltb_spec (cc_round cli) (cn_round net)), (Z.eqb_spec (cc_quantum cli) 0); cbn [orb] in En; try discriminate;
      try case_match; lia. }
  destruct Hrd as (Hr1 & Hr2 & Hr3). split_and!; try done; try lia.
  apply fresh_client; try done; lia.
Qed.

Definition note_added lg i rq : crrn_log :=
  CrrnLog (lg_held lg) (i :: lg_pending lg) (rq :: lg_added lg) (lg_served lg).

(** The client after a request of its own. *)
Lemma added_client Q B lg nid cli i :
  client_ok Q B lg nid cli -> 0 < cc_quantum cli -> Q < 2 ^ 16 -> B + 1 < 2 ^ 64 ->
  let quantum := u16 (cc_quantum cli - 1) in
  client_ok Q (B + 1) (note_added lg i (CrrnReq nid (cc_round cli) (cc_sequence cli))) nid
    (CrrnClient (if quantum =? 0 then u64 (cc_round cli + 1) else cc_round cli) (cc_sequence cli)
       (cc_ref cli) quantum (u16 (cc_active cli + 1)))
  /\ cc_round cli <= (if quantum =? 0 then u64 (cc_round cli + 1) else cc_round cli).
Proof.
  intros [Hr _ Hs Hrf Hl Hf Hb Ha] Hq HQ HB. pose proof (batch_of_nonneg nid (cc_round cli) (lg_added lg)).
  cbn zeta. rewrite !wrap_small by (unfold in_u; lia).
  assert (Hbc : forall r, batch_of nid r (lg_added (note_added lg i (CrrnReq nid (cc_round cli) (cc_sequence cli))))
    = batch_of nid r (lg_added lg) + (if decide (cc_round cli = r) then 1 else 0)).
  { intros r. cbn [note_added lg_added]. rewrite batch_of_cons. cbn. f_equal.
    destruct (decide (cc_round cli = r)) as [<-|]; [by rewrite decide_True|rewrite decide_False; [done|by intros []]]. }
  split; [|case_match; lia]. split; cbn [cc_round cc_sequence cc_quantum cc_ref].
  - case_match; lia.
  - lia.
  - intros _. by apply Hs.
  - done.
  - intros r Hlt. rewrite Hbc, decide_False, Hl by (case_match; lia). lia.
  - intros E. rewrite E. cbn [Z.eqb]. rewrite Hbc, decide_False, Hl by lia. lia.
  - destruct (Z.eqb_spec (cc_quantum cli - 1) 0).
    + rewrite Hbc, decide_False, Hl by lia. lia.
    + rewrite Hbc, decide_True by done. lia.
  - intros r. rewrite Hbc. case_decide; [subst; lia|]. specialize (Ha r). lia.
Qed.

(** A client that has kept its sequence, or has the next one. *)
Definition next_sequence net nid (cli : nrs_crrn_client) : Prop :=
  (exists old, cn_cli_hash net !! nid = Some old /\ cc_sequence cli = cc_sequence old)
  \/ cc_sequence cli = cn_sequence net + 1.

Lemma owns_add net lg lg' h round nseq quantum reqs nid cli s x :
  next_sequence net nid cli ->
  (forall rq, rq ∈ lg_added lg' -> rq ∈ lg_added lg \/ (nr_nid rq = nid /\ cr_sequence rq = cc_sequence cli)) ->
  owns (CrrnNet h (<[nid := cli]> (cn_cli_hash net)) round nseq quantum reqs) lg' s x ->
  owns net lg s x \/ (x = nid /\ s = cn_sequence net + 1 /\ s = cc_sequence cli).
Proof.
  intros Hn Ha. assert (Hown : s = cc_sequence cli -> x = nid -> owns net lg s x \/ (x = nid /\ s = cn_sequence net + 1 /\ s = cc_sequence cli)).
  { intros -> ->. destruct Hn as [(old & Ho & E)|E]; [|by right]. left. left. exists old. by split. }
  intros [(c & Hc & Hs)|(rq & Hr & Hx & Hs)].
  - cbn in Hc. destruct (decide (nid = x)) as [E|E].
    + rewrite E, lookup_insert_eq in Hc. injection Hc as <-. by apply Hown.
    + rewrite lookup_insert_ne in Hc by done. left. left. by exists c.
  - destruct (Ha rq Hr) as [?|[E1 E2]]; [left; right; by exists rq|]. apply Hown; congruence.
Qed.

Lemma pending_ok_add net h nseq quantum i rq nid old cli j :
  j <> i -> pending_ok net j -> cn_cli_hash net !! nid = Some old -> cc_round old <= cc_round cli ->
  pending_ok (CrrnNet h (<[nid := cli]> (cn_cli_hash net)) (cn_round net) nseq quantum (<[i := rq]> (cn_reqs net))) j.
Proof.
  intros Hj (rj & c & Hr & Hc & Hle) Ho Hge. unfold pending_ok. cbn. rewrite lookup_insert_ne by done.
  destruct (decide (nid = nr_nid rj)) as [E|E].
  - exists rj, cli. rewrite E, lookup_insert_eq. split_and!; try done; [lia|]. assert (c = old) as -> by congruence. lia.
  - exists rj, c. by rewrite lookup_insert_ne.
Qed.

Lemma tags_add net (reqs : gmap Z nrs_crrn_req) l :
  (forall j, j ∈ l -> reqs !! j = cn_reqs net !! j) -> omap (fun i => reqs !! i) l = tags net l.
Proof.
  intros Hl. unfold tags. induction l as [|j l IH]; [done|]. cbn.
  rewrite Hl by (by left). by rewrite IH by (intros k Hk; apply Hl; by right).
Qed.

Definition added_net net h nseq i nid (rq : nrs_crrn_req) cli : nrs_crrn_net :=
  CrrnNet h (<[nid := cli]> (cn_cli_hash net)) (cn_round net) nseq (cn_quantum net) (<[i := rq]> (cn_reqs net)).

(** A request that has been added, or has been tagged and found no room. *)
Lemma added_inv Q n net lg lg' h nseq i nid old cli rq l :
  crrn_inv Q n net lg -> (i ∉ lg_pending lg) -> cn_cli_hash net !! nid = Some old ->
  queue (added_net net h nseq i nid rq cli) l -> l ≡ₚ lg_pending lg' ->
  (lg' = lg \/ lg' = note_added lg i rq) ->
  nr_nid rq = nid -> cr_sequence rq = cc_sequence cli -> cn_round net <= cr_round rq <= cc_round cli ->
  cc_round old <= cc_round cli -> next_sequence net nid cli -> 0 < cc_sequence cli <= nseq ->
  cn_sequence net <= nseq <= cn_sequence net + 1 ->
  client_ok Q (2 * (n + 1)) lg' nid cli ->
  crrn_inv Q (n + 1) (added_net net h nseq i nid rq cli) lg'.
Proof.
  intros Hi Hin Ho Hl Hp Hlg Hnid Hseq Hrd Hold Hns Hs1 Hs2 Hc.
  assert (Hadd : forall r, r ∈ lg_added lg' -> r ∈ lg_added lg \/ r = rq).
  { destruct Hlg as [-> | ->]; [by left|]. intros r [->|Hr]%elem_of_cons; [by right|by left]. }
  assert (Hown : forall s x, owns (added_net net h nseq i nid rq cli) lg' s x ->
    owns net lg s x \/ (x = nid /\ s = cn_sequence net + 1 /\ s = cc_sequence cli)).
  { intros s x. apply owns_add; [done|]. intros r Hr. destruct (Hadd r Hr) as [?| ->]; [by left|by right]. }
  pose proof (inv_weaken Q n (n + 1) net lg ltac:(lia) Hi) as Hw.
  assert (Hother : forall x c, x <> nid -> client_ok Q (2 * (n + 1)) lg x c -> client_ok Q (2 * (n + 1)) lg' x c).
  { intros x c Hx. destruct Hlg as [-> | ->]; [done|]. assert (Hb : forall r, batch_of x r (rq :: lg_added lg) = batch_of x r (lg_added lg)).
    { intros r. rewrite batch_of_cons, decide_False; [lia|]. intros []. congruence. }
    intros []. split; try done; cbn [lg_added note_added]; intros; rewrite Hb; auto. }
  assert (Htag : tags (added_net net h nseq i nid rq cli) (lg_pending lg) = tags net (lg_pending lg)).
  { apply tags_add. intros j Hj. cbn. rewrite lookup_insert_ne; [done|]. by intros ->. }
  pose proof (iv_max _ _ _ _ Hi). pose proof (iv_net _ _ _ _ Hi) as (? & ? & ?). split.
  - lia.
  - by exists l.
  - intros j Hj. destruct (decide (j = i)) as [->|Hji].
    + exists rq, cli. cbn. by rewrite Hnid, !lookup_insert_eq.
    + eapply pending_ok_add; [done| |done|done]. apply (iv_pending _ _ _ _ Hi).
      destruct Hlg as [-> | ->]; [done|]. by apply elem_of_cons in Hj as [?|?].
  - destruct Hlg as [-> | ->]; [rewrite Htag; apply Hi|]. cbn [lg_pending lg_served lg_added note_added].
    rewrite (tags_cons _ i _ rq) by (cbn; by rewrite lookup_insert_eq). rewrite Htag. cbn. apply submseteq_skip, Hi.
  - cbn. lia.
  - intros x c Hx. cbn in Hx. destruct (decide (nid = x)) as [E|E].
    + rewrite E, lookup_insert_eq in Hx. injection Hx as <-. by rewrite <-E.
    + rewrite lookup_insert_ne in Hx by done. apply Hother; [done|]. by apply (iv_client _ _ _ _ Hw).
  - intros x Hx. cbn in Hx. destruct (decide (nid = x)) as [E|E]; [by rewrite E, lookup_insert_eq in Hx|].
    rewrite lookup_insert_ne in Hx by done. destruct (iv_other _ _ _ _ Hi x Hx) as [Hr0 Hb].
    destruct Hlg as [-> | ->]; [by split|]. split; [done|]. intros r. cbn. rewrite batch_of_cons, decide_False, Hb; [done|].
    intros []. congruence.
  - intros s x [Hx|(_ & _ & ->)]%Hown; cbn; [apply (iv_owns _ _ _ _ Hi) in Hx; lia|lia].
  - intros s a b Hs [Ha|(-> & Ea & _)]%Hown [Hb|(-> & Eb & _)]%Hown; [by eapply (iv_one _ _ _ _ Hi)| | |done].
    + apply (iv_owns _ _ _ _ Hi) in Ha. lia.
    + apply (iv_owns _ _ _ _ Hi) in Hb. lia.
  - intros r [Hr| ->]%Hadd; [by apply (iv_added _ _ _ _ Hi)|lia].
Qed.

Lemma queue_add net i rq (l : list Z) :
  (i ∉ l) -> queue net l ->
  heap_of (fun a b => crrn_le (req_key (<[i := rq]> (cn_reqs net)) a) (req_key (<[i := rq]> (cn_reqs net)) b))
    (cn_binheap net) l.
Proof.
  intros Hin. apply heap_of_keys. intros e He. unfold req_key. rewrite lookup_insert_ne; [done|]. by intros ->.
Qed.

Lemma req_add_inv Q n net lg alloc i nid :
  crrn_inv Q n net lg -> n < 2 ^ 62 -> nid ∈ lg_held lg -> (i ∉ lg_pending lg) ->
  exists rc net', nrs_crrn_req_add alloc net i nid = Ret (rc, net')
    /\ (rc = 0 \/ rc = - ENOMEM)
    /\ crrn_inv Q (n + 1) net' (crrn_note lg (CrrnReqAdd alloc i nid) (CrrnRc rc) net')
    /\ cn_round net' = cn_round net
    /\ forall j, j <> i -> cn_reqs net' !! j = cn_reqs net !! j.
Proof.
  intros Hi Hn Hh Hin. destruct (client_held _ _ _ _ _ Hi Hh) as [cli Hc]. pose proof (iv_max _ _ _ _ Hi) as [Hn0 HQ].
  destruct (open_batch_ok _ _ _ _ _ _ Hi Hn Hc) as (nseq & cli1 & Eo & Hok & Hq & Hge & Hrd & Hs1 & Hs2 & Hs3).
  assert (Hns : next_sequence net nid cli1) by (destruct Hs3; [left; by exists cli|by right]).
  destruct (iv_heap _ _ _ _ Hi) as (l & Hl & Hp).
  set (rq := CrrnReq nid (cc_round cli1) (cc_sequence cli1)).
  assert (Hil : i ∉ l) by (by rewrite Hp).
  destruct (insert_spec None (crrn_compare (<[i := rq]> (cn_reqs net))) _ alloc _ l i
    (queue_add net i rq l Hil Hl) Hil) as (rc & h & Ei & Hrc).
  assert (Hne : forall j, j <> i -> <[i := rq]> (cn_reqs net) !! j = cn_reqs net !! j)
    by (intros j Hj; by apply lookup_insert_ne).
  unfold nrs_crrn_req_add, crrn_client. rewrite Hc. cbn [mbind run_bind].
  change (if crrn_new_batch net cli then _ else _) with (open_batch net cli). rewrite Eo.
  cbn [set_sequence cn_binheap cn_reqs cn_cli_hash cn_round cn_sequence cn_quantum]. fold rq. rewrite Ei. cbn [mbind run_bind].
  destruct Hrc as [(-> & l' & Hl' & Hp')|[Hf Hl']].
  - cbn [Z.eqb]. eexists _, _. split; [done|]. split; [by left|]. split; [|done].
    destruct (added_client Q (2 * n + 1) lg nid cli1 i Hok Hq) as [Hok' Hge']; [lia|lia|].
    cbn [crrn_note cn_reqs]. rewrite lookup_insert_eq. cbn [option_list app].
    replace (2 * n + 1 + 1) with (2 * (n + 1)) in Hok' by lia.
    eapply (added_inv Q n net lg _ h nseq i nid cli _ rq l'); try done; cbn [rq nr_nid cr_round cr_sequence cc_round]; try lia.
    + cbn. by rewrite Hp', Hp.
    + by right.
  - assert (rc = - ENOMEM) as -> by (destruct Hf as [[-> _]|(? & ? & _)]; done). cbn [Z.eqb ENOMEM Z.opp].
    eexists _, _. split; [done|]. split; [by right|]. split; [|done]. cbn [crrn_note].
    eapply (added_inv Q n net lg _ h nseq i nid cli _ rq l); try done; cbn [rq nr_nid cr_round cr_sequence]; try lia.
    + by left.
    + eapply client_ok_weaken; [|exact Hok]. lia.
Qed.

(** ** Any call *)

Lemma crrn_do_inv Q n net lg op :
  crrn_inv Q n net lg -> n < 2 ^ 62 -> crrn_can Q lg op ->
  exists r net', crrn_do net op = Ret (r, net')
    /\ crrn_inv Q (n + 1) net' (crrn_note lg op r net')
    /\ cn_round net <= cn_round net'
    /\ (forall j, j ∈ lg_pending lg -> cn_reqs net' !! j = cn_reqs net !! j)
    /\ match op with
       | CrrnReqAdd _ _ _ => r = CrrnRc 0 \/ r = CrrnRc (- ENOMEM)
       | CrrnReqGet _ => exists node, r = CrrnNode node /\ crrn_least net lg node
       | _ => True
       end.
Proof.
  intros Hi Hn Hc. assert (Hw : forall net lg, crrn_inv Q n net lg -> crrn_inv Q (n + 1) net lg).
  { intros ? ?. apply inv_weaken. lia. }
  destruct op as [alloc nid|nid|alloc i nid|peek|i|opc]; cbn [crrn_do crrn_can] in *.
  - assert (Hq : forall net', nrs_crrn_res_get alloc net nid = (1, net') \/ nrs_crrn_res_get alloc net nid = (- ENOMEM, net')
      -> cn_reqs net' = cn_reqs net).
    { intros net'. unfold nrs_crrn_res_get. repeat case_match; intros [[= <-]|[= <-]]; done. }
    destruct (res_get_inv Q n net lg alloc nid Hi) as (rc & net' & E & Er & [[-> Hi']|[-> ->]]);
      rewrite E; eexists _, _; (split; [done|]); (split; [by apply Hw|]); split_and!; try done; try lia.
    intros j _. rewrite (Hq net'); [done|by left].
  - destruct (res_put_inv Q n net lg nid Hi Hc) as (net' & E & Er & Hi'). rewrite E. cbn [mbind run_bind].
    eexists _, _. split; [done|]. split; [by apply Hw|]. split_and!; try done; [lia|].
    intros j _. revert E. unfold nrs_crrn_res_put, crrn_client. case_match; [|done]. by intros [= <-].
  - destruct Hc as [Hh Hin]. destruct (req_add_inv Q n net lg alloc i nid Hi Hn Hh Hin) as (rc & net' & -> & Hrc & Hi' & Er & Hq).
    cbn [mbind run_bind fst snd]. eexists _, _. split; [done|]. split; [done|]. split_and!; [lia| |by destruct Hrc as [-> | ->]; [left|right]].
    intros j Hj. apply Hq. by intros ->.
  - destruct (req_get_inv Q n net lg peek Hi Hn) as (node & net' & -> & Hi' & Hm & Hle & Hq). cbn [mbind run_bind fst snd].
    eexists _, _. split_and!; try done; [by intros; rewrite Hq|by exists node].
  - destruct (req_del_inv Q n net lg i Hi Hn Hc) as (net' & -> & Hi' & Hle & Hq). cbn [mbind run_bind].
    eexists _, _. split_and!; try done. by intros; rewrite Hq.
  - destruct (ctl_inv Q n net lg opc Hi Hc) as (rc & q & net' & E & Hi' & Er). rewrite E. cbn [mbind run_bind fst snd].
    eexists _, _. split; [done|]. split; [by apply Hw|]. split_and!; try done; [lia|].
    intros j _. revert E. destruct opc; cbn; [by intros [= _ _ <-]| |by intros [= _ _ <-]].
    destruct (arg =? 0); cbn; [done|]. by intros [= _ _ <-].
Qed.

Lemma crrn_reachable_nonneg Q n net lg : crrn_reachable Q n net lg -> 0 <= n.
Proof. induction 1; lia. Qed.

Lemma crrn_reachable_inv Q n net lg :
  OBD_MAX_RIF_DEFAULT <= Q < 2 ^ 16 -> crrn_reachable Q n net lg -> n <= 2 ^ 62 -> crrn_inv Q n net lg.
Proof.
  intros HQ. induction 1 as [a b c d e net E|n net lg op r net' Hr IH Hc E]; intros Hn.
  - destruct (start_inv Q a b c d e HQ) as (r & E' & Hi). rewrite E in E'. by injection E' as <-.
  - destruct (crrn_do_inv Q n net lg op) as (r' & net'' & E' & Hi & _); [apply IH; lia|lia|done|].
    rewrite E in E'. by injection E' as <- <-.
Qed.
