(* ===== verification/NrsCrrProps.v ===== *)
(** What client round robin promises (lustre/ptlrpc/nrs_crr.c): its assertions hold, a
    client has at most a quantum of requests in a round, and a request that waits is
    overtaken by a bounded number of requests. *)

From stdpp Require Import gmap.
From S2P Require Import Prelude BinHeap BinHeapTable BinHeapOrder BinHeapOps BinHeapProps NrsOrder NrsCrr NrsCrrInv.

(** ** While a request waits *)

(** [m] calls during which the request [i] stays pending. *)
Inductive crrn_waits (Q i : Z) net lg : Z -> nrs_crrn_net -> crrn_log -> Prop :=
  | waits_now : crrn_waits Q i net lg 0 net lg
  | waits_call m net1 lg1 op r net2 :
      crrn_waits Q i net lg m net1 lg1 -> crrn_can Q lg1 op -> crrn_do net1 op = Ret (r, net2) ->
      i ∈ lg_pending (crrn_note lg1 op r net2) ->
      crrn_waits Q i net lg (m + 1) net2 (crrn_note lg1 op r net2).

(** What a call serves is of the least round that is pending. *)
Lemma served_between Q n net lg op r net' i rq :
  crrn_inv Q n net lg -> n < 2 ^ 62 -> crrn_can Q lg op -> crrn_do net op = Ret (r, net') ->
  i ∈ lg_pending lg -> cn_reqs net !! i = Some rq ->
  exists new, lg_served (crrn_note lg op r net') = new ++ lg_served lg
    /\ Forall (fun x => cn_round net <= cr_round x <= cr_round rq) new.
Proof.
  intros Hi Hn Hc E Hin Hr. destruct (crrn_do_inv Q n net lg op Hi Hn Hc) as (r' & net'' & E' & _ & _ & Hq & Hm).
  rewrite E in E'. injection E' as <- <-.
  destruct op as [alloc nid|nid|alloc j nid|[]|j|opc]; cbn [crrn_note];
    try (exists []; split; [by repeat case_match|done]).
  destruct Hm as ([j|] & -> & Hm); [|by exists []]. destruct Hm as [Hj Hm].
  destruct (iv_pending _ _ _ _ Hi j Hj) as (rj & cli & Hrj & _ & Hle). rewrite (Hq j Hj), Hrj.
  exists [rj]. split; [done|]. apply Forall_singleton. split; [lia|].
  specialize (Hm i Hin). unfold req_key in Hm. rewrite Hrj, Hr in Hm. cbn in Hm. lia.
Qed.

Lemma waits_inv Q n net lg i rq m net' lg' :
  crrn_inv Q n net lg -> i ∈ lg_pending lg -> cn_reqs net !! i = Some rq ->
  crrn_waits Q i net lg m net' lg' -> n + m <= 2 ^ 62 ->
  crrn_inv Q (n + m) net' lg' /\ i ∈ lg_pending lg' /\ cn_reqs net' !! i = Some rq
  /\ cn_round net <= cn_round net'
  /\ exists new, lg_served lg' = new ++ lg_served lg
       /\ Forall (fun x => cn_round net <= cr_round x <= cr_round rq) new.
Proof.
  intros Hi Hin Hr Hw. induction Hw as [|m net1 lg1 op r net2 Hw IH Hc E Hin2]; intros Hm.
  - rewrite Z.add_0_r. split_and!; try done. by exists [].
  - destruct IH as (Hi1 & Hin1 & Hr1 & Hle & new & En & Hnew); [lia|].
    destruct (crrn_do_inv Q (n + m) net1 lg1 op Hi1) as (r' & net' & E' & Hi2 & Hle2 & Hq & _); [lia|done|].
    rewrite E in E'. injection E' as <- <-.
    destruct (served_between Q (n + m) net1 lg1 op r net2 i rq Hi1) as (new2 & En2 & Hnew2); try done; [lia|].
    replace (n + (m + 1)) with (n + m + 1) by lia. split_and!; try done; [by rewrite Hq|lia|].
    exists (new2 ++ new). split; [by rewrite En2, En, app_assoc|]. apply Forall_app. split; [|done].
    eapply Forall_impl; [exact Hnew2|]. cbn. intros; lia.
Qed.

(** ** Counting what is served *)

Definition tag (rq : nrs_crrn_req) : Z * Z := (nr_nid rq, cr_round rq).

(** Requests of the batches [ks], of which none has more than [Q]. *)
Lemma count_batches Q (ks : list (Z * Z)) l :
  (forall nid r, batch_of nid r l <= Q) -> Forall (fun rq => tag rq ∈ ks) l ->
  Z.of_nat (length l) <= Q * Z.of_nat (length ks).
Proof.
  revert l. induction ks as [|[nid r] ks IH]; intros l Hb Hk.
  - destruct l as [|rq l]; [cbn; lia|]. apply Forall_cons in Hk as [?%elem_of_nil _]. done.
  - set (P := fun rq => nr_nid rq = nid /\ cr_round rq = r).
    pose proof (filter_app_complement P l) as Hp. apply Permutation_length in Hp. rewrite length_app in Hp.
    assert (Hrest : Z.of_nat (length (filter (fun x => ~ P x) l)) <= Q * Z.of_nat (length ks)).
    { apply IH.
      - intros a b. etransitivity; [apply batch_of_submseteq, sublist_submseteq, sublist_filter|apply Hb].
      - apply Forall_forall. intros rq [Hn Hin]%list_elem_of_filter. rewrite Forall_forall in Hk.
        specialize (Hk rq Hin). apply elem_of_cons in Hk as [Hk|]; [|done]. destruct Hn. unfold tag in Hk. by injection Hk. }
    specialize (Hb nid r). change (Z.of_nat (length (filter P l)) <= Q) in Hb. cbn [length]. lia.
Qed.

Definition rounds_from (a b : Z) : list Z := seqZ a (b - a + 1).

Lemma elem_of_rounds a b r : a <= r <= b -> r ∈ rounds_from a b.
Proof. intros Hr. apply elem_of_seqZ. lia. Qed.

Lemma rounds_length a b : a <= b -> Z.of_nat (length (rounds_from a b)) = b - a + 1.
Proof. intros Hle. unfold rounds_from. rewrite length_seqZ. lia. Qed.

Lemma batch_of_pos rq l : rq ∈ l -> 0 < batch_of (nr_nid rq) (cr_round rq) l.
Proof.
  intros (l1 & l2 & ->)%list_elem_of_split. unfold batch_of. rewrite filter_app, filter_cons_True, length_app by done.
  cbn. lia.
Qed.

Lemma added_client_known Q n net lg rq :
  crrn_inv Q n net lg -> rq ∈ lg_added lg -> nr_nid rq ∈ map fst (map_to_list (cn_cli_hash net)).
Proof.
  intros Hi Hin. destruct (cn_cli_hash net !! nr_nid rq) as [cli|] eqn:E.
  - apply list_elem_of_fmap. exists (nr_nid rq, cli). split; [done|]. by apply elem_of_map_to_list.
  - destruct (iv_other _ _ _ _ Hi _ E) as [_ Hb]. pose proof (batch_of_pos rq _ Hin). rewrite Hb in *. lia.
Qed.

Lemma batch_bound Q n net lg nid r : crrn_inv Q n net lg -> batch_of nid r (lg_added lg) <= Q.
Proof.
  intros Hi. destruct (cn_cli_hash net !! nid) as [cli|] eqn:E; [apply (iv_client _ _ _ _ Hi _ _ E)|].
  destruct (iv_other _ _ _ _ Hi _ E) as [_ ->]. pose proof (iv_max _ _ _ _ Hi). unfold OBD_MAX_RIF_DEFAULT in *. lia.
Qed.

Lemma served_added Q n net lg new old :
  crrn_inv Q n net lg -> lg_served lg = new ++ old -> new ⊆+ lg_added lg.
Proof.
  intros Hi E. etransitivity; [|apply (iv_served _ _ _ _ Hi)]. rewrite E.
  etransitivity; [apply submseteq_inserts_r; reflexivity|]. by apply submseteq_inserts_l.
Qed.

Definition served_of (nid : Z) lg : Z := Z.of_nat (length (filter (fun rq => nr_nid rq = nid) (lg_served lg))).

(** The rounds there are until a request is served. *)
Definition rounds_to net (rq : nrs_crrn_req) : Z := cr_round rq - cn_round net + 1.

Lemma stop_returns Q n net lg :
  crrn_inv Q n net lg -> lg_pending lg = [] -> lg_held lg = [] -> nrs_crrn_stop net = Ret tt.
Proof.
  intros Hi Hp Hh. unfold nrs_crrn_stop. destruct (iv_heap _ _ _ _ Hi) as (l & [Hl _] & El).
  rewrite Hp in El. apply Permutation_nil_r in El as ->.
  unfold cfs_binheap_is_empty. rewrite (hd_size _ _ _ Hl). cbn [length Z.of_nat Z.eqb LASSERT].
  assert (E : forallb (fun c => nrs_crrn_hop_exit c.2) (map_to_list (cn_cli_hash net)) = true); [|by rewrite E].
  apply forallb_forall. intros [nid cli] Hin%list_elem_of_In%elem_of_map_to_list. pose proof (cl_ref _ _ _ _ _ (iv_client _ _ _ _ Hi _ _ Hin)) as Hr.
  rewrite Hh in Hr. unfold nrs_crrn_hop_exit. cbn [snd]. by rewrite Hr.
Qed.

(** ** Theorems *)

(** C24: A client round robin policy does what it is asked. From its start on, and for
    2^62 calls, every call that the scheduler may make returns: no assertion of the policy
    or of the heap fails, the one that a request is of no later round than its client
    included. Adding a request succeeds or finds no memory; getting one gives a pending
    request of the least round, and among those of the first batch, or null when none is
    pending; and once no request is pending and all references to clients are given back,
    the policy can be stopped. *)
Theorem crrn_never_lbug Q n net lg op :
  OBD_MAX_RIF_DEFAULT <= Q < 2 ^ 16 -> crrn_reachable Q n net lg -> n < 2 ^ 62 -> crrn_can Q lg op ->
  (exists r net', crrn_do net op = Ret (r, net')
     /\ match op with
        | CrrnReqAdd _ _ _ => r = CrrnRc 0 \/ r = CrrnRc (- ENOMEM)
        | CrrnReqGet _ => exists node, r = CrrnNode node /\ crrn_least net lg node
        | _ => True
        end)
  /\ (lg_pending lg = [] -> lg_held lg = [] -> nrs_crrn_stop net = Ret tt).
Proof.
  intros HQ Hr Hn Hc. pose proof (crrn_reachable_inv Q n net lg HQ Hr ltac:(lia)) as Hi. split.
  - destruct (crrn_do_inv Q n net lg op Hi Hn Hc) as (r & net' & E & _ & _ & _ & H). by exists r, net'.
  - by eapply stop_returns.
Qed.

(** C20: Batches are what the policy says. Of all the requests ever added, at most a
    quantum are of the same client and round, whatever the quanta set in between (with [Q]
    the largest of them); requests of the same sequence are of the same client; a pending
    request is of a round that is not past and that its client has come to; and no request
    is served that was not added, or is served twice. *)
Theorem crrn_batches Q n net lg :
  OBD_MAX_RIF_DEFAULT <= Q < 2 ^ 16 -> crrn_reachable Q n net lg -> n <= 2 ^ 62 ->
  (forall nid r, batch_of nid r (lg_added lg) <= Q)
  /\ (forall a b, a ∈ lg_added lg -> b ∈ lg_added lg -> cr_sequence a = cr_sequence b -> nr_nid a = nr_nid b)
  /\ (forall i, i ∈ lg_pending lg -> pending_ok net i)
  /\ tags net (lg_pending lg) ++ lg_served lg ⊆+ lg_added lg.
Proof.
  intros HQ Hr Hn. pose proof (crrn_reachable_inv Q n net lg HQ Hr Hn) as Hi. split_and!.
  - intros nid r. by eapply batch_bound.
  - intros a b Ha Hb E. apply (iv_one _ _ _ _ Hi (cr_sequence a)); [by apply (iv_added _ _ _ _ Hi)|right..];
      [by exists a|by exists b].
  - apply Hi.
  - apply Hi.
Qed.

(** C8: No request starves. While a request waits, each client is served at most a quantum
    of requests for each round from the one of the policy to the one of the request, and
    so all clients together at most that many times the number of clients: however many
    requests arrive in the meantime, the request is served after that many others. *)
Theorem crrn_overtaking Q n net lg i rq m net' lg' :
  OBD_MAX_RIF_DEFAULT <= Q < 2 ^ 16 -> crrn_reachable Q n net lg -> n + m <= 2 ^ 62 -> 0 <= m ->
  i ∈ lg_pending lg -> cn_reqs net !! i = Some rq -> crrn_waits Q i net lg m net' lg' ->
  (forall nid, served_of nid lg' - served_of nid lg <= Q * rounds_to net rq)
  /\ Z.of_nat (length (lg_served lg')) - Z.of_nat (length (lg_served lg))
     <= Q * (Z.of_nat (size (cn_cli_hash net')) * rounds_to net rq).
Proof.
  intros HQ Hre Hn Hm Hin Hr Hw. set (rounds := rounds_to net rq). pose proof (crrn_reachable_inv Q n net lg HQ Hre ltac:(lia)) as Hi.
  destruct (waits_inv Q n net lg i rq m net' lg' Hi Hin Hr Hw ltac:(lia)) as (Hi' & _ & _ & _ & new & En & Hnew).
  destruct (iv_pending _ _ _ _ Hi i Hin) as (rq' & cli & E & _ & Hle). rewrite Hr in E. injection E as <-.
  pose proof (served_added _ _ _ _ _ _ Hi' En) as Hsub.
  assert (Hlen : Z.of_nat (length (rounds_from (cn_round net) (cr_round rq))) = rounds)
    by (apply rounds_length; lia).
  assert (Hb : forall nid r, batch_of nid r new <= Q).
  { intros nid r. etransitivity; [by apply batch_of_submseteq|]. by eapply batch_bound. }
  rewrite Forall_forall in Hnew. rewrite En. split.
  - intros nid. unfold served_of. rewrite En, filter_app, length_app.
    enough (Z.of_nat (length (filter (fun x => nr_nid x = nid) new)) <= Q * rounds) by lia.
    rewrite <-Hlen, <-(length_map (fun r : Z => (nid, r))). apply count_batches.
    + intros a b. etransitivity; [apply batch_of_submseteq, sublist_submseteq, sublist_filter|apply Hb].
    + apply Forall_forall. intros x [Ex Hx]%list_elem_of_filter. apply list_elem_of_fmap.
      exists (cr_round x). split; [by rewrite <-Ex|]. by apply elem_of_rounds, Hnew.
  - rewrite length_app.
    enough (Z.of_nat (length new) <= Q * (Z.of_nat (size (cn_cli_hash net')) * rounds)) by lia.
    rewrite <-Hlen, <-length_map_to_list, <-(length_map fst), <-Nat2Z.inj_mul, <-length_prod. apply count_batches; [done|].
    apply Forall_forall. intros x Hx. apply list_elem_of_In, in_prod; apply list_elem_of_In.
    + eapply added_client_known; [done|]. by eapply elem_of_submseteq.
    + by apply elem_of_rounds, Hnew.
Qed.

(** ** Witnesses *)

#[export] Instance crrn_can_dec Q lg op : Decision (crrn_can Q lg op).
Proof. destruct op as [| | | | |[]]; cbn; apply _. Defined.

Module CrrnRun.
(** Calls one after the other, while the scheduler may make them. *)
Fixpoint play (Q : Z) net lg (ops : list crrn_op) : option (nrs_crrn_net * crrn_log) :=
  match ops with
  | [] => Some (net, lg)
  | op :: ops' =>
      if decide (crrn_can Q lg op) then
        match crrn_do net op with
        | Ret (r, net') => play Q net' (crrn_note lg op r net') ops'
        | LBUG => None
        end
      else None
  end.

Lemma play_reachable Q ops : forall n net lg net' lg',
  crrn_reachable Q n net lg -> play Q net lg ops = Some (net', lg') ->
  crrn_reachable Q (n + Z.of_nat (length ops)) net' lg'.
Proof.
  induction ops as [|op ops IH]; intros n net lg net' lg' Hr; cbn [play].
  - intros [= <- <-]. by rewrite Z.add_0_r.
  - case_decide as Hc; [|done]. destruct (crrn_do net op) as [[r net1]|] eqn:E; [|done]. intros Hp.
    replace (n + Z.of_nat (length (op :: ops))) with (n + 1 + Z.of_nat (length ops)) by (cbn; lia).
    eapply IH; [by eapply crrn_called|done].
Qed.

Definition net0 : nrs_crrn_net := CrrnNet (Binheap unit None None None 0 0 tt ∅) ∅ 0 1 OBD_MAX_RIF_DEFAULT ∅.
Definition lg0 : crrn_log := CrrnLog [] [] [] [].
Definition started : nrs_crrn_net :=
  match nrs_crrn_start true true true (fun _ _ => true) ∅ with Ret (inr net) => net | _ => net0 end.

Lemma started_eq : nrs_crrn_start true true true (fun _ _ => true) ∅ = Ret (inr started).
Proof. unfold started. destruct (nrs_crrn_start _ _ _ _ _) as [[rc|net]|] eqn:E; [by vm_compute in E|done|by vm_compute in E]. Qed.

(** A client floods the policy with requests, and another one comes with one. *)
Definition yes : nat -> bool := fun _ => true.
Definition arrivals : list crrn_op :=
  [CrrnResGet true 1; CrrnResGet true 2; CrrnCtl (NRS_CTL_CRRN_WR_QUANTUM 2);
   CrrnReqAdd yes 10 1; CrrnReqAdd yes 11 1; CrrnReqAdd yes 12 1; CrrnReqAdd yes 20 2].
Definition arrived : nrs_crrn_net * crrn_log := default (net0, lg0) (play 8 started lg0 arrivals).

Lemma play_arrivals : play 8 started lg0 arrivals = Some arrived.
Proof. unfold arrived. destruct (play _ _ _ _) as [s|] eqn:E; [done|by vm_compute in E]. Qed.

Lemma arrived_reachable : crrn_reachable 8 7 arrived.1 arrived.2.
Proof.
  apply (play_reachable 8 arrivals 0 started lg0).
  - exact (crrn_started 8 true true true (fun _ _ => true) ∅ started started_eq).
  - rewrite play_arrivals. by destruct arrived.
Qed.

Definition rq20 : nrs_crrn_req := CrrnReq 2 0 3.
Lemma arrived_pending : 20 ∈ lg_pending arrived.2 /\ cn_reqs arrived.1 !! 20 = Some rq20.
Proof. split; [apply (bool_decide_unpack _); by vm_compute|by vm_compute]. Qed.

(** One request of the first client is served before. *)
Definition got : crrn_result * nrs_crrn_net :=
  match crrn_do arrived.1 (CrrnReqGet false) with Ret p => p | LBUG => (CrrnDone, net0) end.
Definition got_log : crrn_log := crrn_note arrived.2 (CrrnReqGet false) got.1 got.2.

Lemma got_waits : crrn_waits 8 20 arrived.1 arrived.2 (0 + 1) got.2 got_log.
Proof.
  apply (waits_call 8 20 arrived.1 arrived.2 0 arrived.1 arrived.2 (CrrnReqGet false) got.1 got.2).
  - apply waits_now.
  - done.
  - unfold got. destruct (crrn_do _ _) as [[r net]|] eqn:E; [done|by vm_compute in E].
  - apply (bool_decide_unpack _). by vm_compute.
Qed.
End CrrnRun.

Lemma crrn_never_lbug_witness :
  (exists r net', crrn_do CrrnRun.arrived.1 (CrrnReqGet false) = Ret (r, net')
     /\ exists node, r = CrrnNode node /\ crrn_least CrrnRun.arrived.1 CrrnRun.arrived.2 node)
  /\ (lg_pending CrrnRun.arrived.2 = [] -> lg_held CrrnRun.arrived.2 = [] ->
      nrs_crrn_stop CrrnRun.arrived.1 = Ret tt).
Proof.
  apply (crrn_never_lbug 8 7 CrrnRun.arrived.1 CrrnRun.arrived.2 (CrrnReqGet false)).
  - unfold OBD_MAX_RIF_DEFAULT. lia.
  - exact CrrnRun.arrived_reachable.
  - lia.
  - exact I.
Defined.

Lemma crrn_batches_witness :
  (forall nid r, batch_of nid r (lg_added CrrnRun.arrived.2) <= 8)
  /\ (forall a b, a ∈ lg_added CrrnRun.arrived.2 -> b ∈ lg_added CrrnRun.arrived.2 ->
        cr_sequence a = cr_sequence b -> nr_nid a = nr_nid b)
  /\ (forall i, i ∈ lg_pending CrrnRun.arrived.2 -> pending_ok CrrnRun.arrived.1 i)
  /\ tags CrrnRun.arrived.1 (lg_pending CrrnRun.arrived.2) ++ lg_served CrrnRun.arrived.2
     ⊆+ lg_added CrrnRun.arrived.2.
Proof.
  apply (crrn_batches 8 7 CrrnRun.arrived.1 CrrnRun.arrived.2).
  - unfold OBD_MAX_RIF_DEFAULT. lia.
  - exact CrrnRun.arrived_reachable.
  - lia.
Defined.

Lemma crrn_overtaking_witness :
  (forall nid, served_of nid CrrnRun.got_log - served_of nid CrrnRun.arrived.2
     <= 8 * rounds_to CrrnRun.arrived.1 CrrnRun.rq20)
  /\ Z.of_nat (length (lg_served CrrnRun.got_log)) - Z.of_nat (length (lg_served CrrnRun.arrived.2))
     <= 8 * (Z.of_nat (size (cn_cli_hash CrrnRun.got.2)) * rounds_to CrrnRun.arrived.1 CrrnRun.rq20).
Proof.
  apply (crrn_overtaking 8 7 CrrnRun.arrived.1 CrrnRun.arrived.2 20 CrrnRun.rq20 (0 + 1) CrrnRun.got.2 CrrnRun.got_log).
  - unfold OBD_MAX_RIF_DEFAULT. lia.
  - exact CrrnRun.arrived_reachable.
  - lia.
  - lia.
  - exact (proj1 CrrnRun.arrived_pending).
  - exact (proj2 CrrnRun.arrived_pending).
  - exact CrrnRun.got_waits.
Defined.
