(* ===== verification/SkipLock.v ===== *)
(** Plain and inodebits locks (lustre/ldlm/ldlm_plain.c, ldlm_inodebits.c) and the skip
    lists of their granted locks (lustre/ldlm/ldlm_lock.c).

    The granted locks of a resource are kept in bunches: locks of one mode next to each
    other, linked into a ring by [l_sl_mode], and among those the locks of the same bits
    next to each other, linked into a ring by [l_sl_policy].  A walk of the list skips a
    bunch by going to the lock before its first lock in the ring, which is its last one.

    Locks and resources are those of LdlmLock; the bits, the cookie of the client and the
    links of the rings are beside them.  A walk that comes to no list entry where the code
    expects one is LBUG. *)

From stdpp Require Import gmap.
From S2P Require Import Prelude IntervalTree LdlmLock LdlmExtent LdlmServer.

(** ** Rings *)

(** The [list_head]s of one name in the locks: the next and the previous lock.  One that is
    not linked points to itself. *)
Record links := Links { next_link : gmap Z Z; prev_link : gmap Z Z }.

Definition list_next (r : links) (i : Z) : Z := default i (next_link r !! i).
Definition list_prev (r : links) (i : Z) : Z := default i (prev_link r !! i).

Definition list_add (r : links) (new head : Z) : links :=
  let next := list_next r head in
  Links (<[head := new]> (<[new := next]> (next_link r))) (<[new := head]> (<[next := new]> (prev_link r))).

Definition list_del_init (r : links) (i : Z) : links :=
  let next := list_next r i in
  let prev := list_prev r i in
  Links (<[i := i]> (<[prev := next]> (next_link r))) (<[i := i]> (<[next := prev]> (prev_link r))).

Definition list_unlinked (r : links) (i : Z) : bool := list_next r i =? i.

(** The entries [list_for_each_entry] visits from [cur] until it is back at [head]. *)
Fixpoint ring_entries (fuel : nat) (r : links) (head cur : Z) : run (list Z) :=
  if cur =? head then Ret []
  else
    match fuel with
    | O => LBUG
    | S fuel' => rest ← ring_entries fuel' r head (list_next r cur); Ret (cur :: rest)
    end.

(** The list behind the entry [i]. *)
Fixpoint list_after (q : list Z) (i : Z) : run (list Z) :=
  match q with
  | [] => LBUG
  | j :: q' => if j =? i then Ret q' else list_after q' i
  end.

(** ** Resources *)

Inductive sl_type := LDLM_PLAIN | LDLM_IBITS.

Record ldlm_inodebits := Inodebits { bits : Z; try_bits : Z }.

Record sl_resource := SlResource {
  sl_type_of : sl_type;
  sl_res : ldlm_resource;
  sl_policy_data : gmap Z ldlm_inodebits;
  sl_cookie : gmap Z Z;
  sl_mode : links;
  sl_policy : links
}.

Definition l_inodebits (s : sl_resource) (i : Z) : ldlm_inodebits := default (Inodebits 0 0) (sl_policy_data s !! i).
Definition l_client_cookie (s : sl_resource) (i : Z) : Z := default 0 (sl_cookie s !! i).

Definition with_res (s : sl_resource) (res : ldlm_resource) : sl_resource :=
  SlResource (sl_type_of s) res (sl_policy_data s) (sl_cookie s) (sl_mode s) (sl_policy s).
Definition with_bits (s : sl_resource) (i : Z) (p : ldlm_inodebits) : sl_resource :=
  SlResource (sl_type_of s) (sl_res s) (<[i := p]> (sl_policy_data s)) (sl_cookie s) (sl_mode s) (sl_policy s).
Definition with_links (s : sl_resource) (mode policy : links) : sl_resource :=
  SlResource (sl_type_of s) (sl_res s) (sl_policy_data s) (sl_cookie s) mode policy.

Definition sl_get (s : sl_resource) (i : Z) : run ldlm_lock := get_lock (sl_res s) i.
Definition sl_put (s : sl_resource) (i : Z) (l : ldlm_lock) : sl_resource := with_res s (put_lock (sl_res s) i l).

Definition LDLM_FL_LOCAL : Z := Z.shiftl 1 40.
Definition LDLM_FL_CANCEL : Z := Z.shiftl 1 36.

Definition ldlm_is_local (l : ldlm_lock) : bool := LDLM_TEST_FLAG (l_flags l) LDLM_FL_LOCAL.
Definition ldlm_is_cancel (l : ldlm_lock) : bool := LDLM_TEST_FLAG (l_flags l) LDLM_FL_CANCEL.
Definition ldlm_is_cos_incompat (l : ldlm_lock) : bool := LDLM_TEST_FLAG (l_flags l) LDLM_FL_COS_INCOMPAT.
Definition ldlm_is_cos_enabled (l : ldlm_lock) : bool := LDLM_TEST_FLAG (l_flags l) LDLM_FL_COS_ENABLED.

(** ** Putting locks into the granted list *)

(** Where a lock goes in the three lists: behind the given lock; [None] is the head of the
    granted list, and for the rings the lock itself. *)
Record sl_insert_point := SlInsertPoint {
  ip_res_link : option Z;
  ip_mode_link : option Z;
  ip_policy_link : option Z
}.

(** The walk over the policy groups of a mode group, at the lock [i]. *)
Fixpoint search_policy (fuel : nat) (s : sl_resource) (req i mode_end : Z) : run sl_insert_point :=
  match fuel with
  | O => LBUG
  | S fuel' =>
      let policy_end := list_prev (sl_policy s) i in
      if bits (l_inodebits s i) =? bits (l_inodebits s req)
      then Ret (SlInsertPoint (Some policy_end) (Some policy_end) (Some policy_end))
      else if policy_end =? mode_end then Ret (SlInsertPoint (Some mode_end) (Some mode_end) None)
      else
        rest ← list_after (lr_granted (sl_res s)) policy_end;
        match rest with
        | [] => LBUG
        | j :: _ => search_policy fuel' s req j mode_end
        end
  end.

(** The walk over the granted list, at what is left of it. *)
Fixpoint search_mode (fuel : nat) (s : sl_resource) (req : Z) (queue : list Z) : run sl_insert_point :=
  match queue with
  | [] => Ret (SlInsertPoint (last (lr_granted (sl_res s))) None None)
  | i :: _ =>
      match fuel with
      | O => LBUG
      | S fuel' =>
          lock ← sl_get s i;
          rl ← sl_get s req;
          let mode_end := list_prev (sl_mode s) i in
          if negb (l_req_mode lock =? l_req_mode rl) then
            rest ← list_after (lr_granted (sl_res s)) mode_end;
            search_mode fuel' s req rest
          else
            match sl_type_of s with
            | LDLM_PLAIN => Ret (SlInsertPoint (Some mode_end) (Some mode_end) None)
            | LDLM_IBITS => search_policy fuel s req i mode_end
            end
      end
  end.

Definition search_granted_lock (s : sl_resource) (req : Z) : run sl_insert_point :=
  let queue := lr_granted (sl_res s) in search_mode (length queue) s req queue.

Definition ldlm_granted_list_add_lock (s : sl_resource) (i : Z) (prev : sl_insert_point) : run sl_resource :=
  lock ← sl_get s i;
  if ldlm_is_destroyed lock then Ret s
  else
    lassert negb (on_resource (sl_res s) i);
    lassert list_unlinked (sl_mode s) i;
    lassert list_unlinked (sl_policy s) i;
    let granted := lr_granted (sl_res s) in
    let granted := match ip_res_link prev with Some j => list_add_after j i granted | None => i :: granted end in
    let mode := match ip_mode_link prev with Some j => list_add (sl_mode s) i j | None => sl_mode s end in
    let policy := match ip_policy_link prev with Some j => list_add (sl_policy s) i j | None => sl_policy s end in
    Ret (with_links (with_res s (set_granted (sl_res s) granted)) mode policy).

Definition ldlm_grant_lock_with_skiplist (s : sl_resource) (i : Z) : run sl_resource :=
  lock ← sl_get s i;
  lassert l_req_mode lock =? l_granted_mode lock;
  prev ← search_granted_lock s i;
  ldlm_granted_list_add_lock s i prev.

Definition ldlm_unlink_lock_skiplist (s : sl_resource) (i : Z) : sl_resource :=
  with_links s (list_del_init (sl_mode s) i) (list_del_init (sl_policy s) i).

(** [ldlm_resource_unlink_lock] and [ldlm_grant_lock] of these types. *)
Definition sl_unlink_lock (s : sl_resource) (i : Z) : sl_resource :=
  let s := ldlm_unlink_lock_skiplist s i in with_res s (list_del_res_link (sl_res s) i).

Definition sl_grant_lock (s : sl_resource) (i : Z) (work_list : option (list Z))
    : run (sl_resource * option (list Z)) :=
  lock ← sl_get s i;
  let lock := set_granted_mode lock (l_req_mode lock) in
  let s := sl_put s i lock in
  rw ← (match work_list with
        | Some wl =>
            if l_completion_ast lock then
              rw ← ldlm_add_ast_work_item (sl_res s) i None wl; Ret (with_res s rw.1, Some rw.2)
            else Ret (s, work_list)
        | None => Ret (s, work_list)
        end);
  s ← ldlm_grant_lock_with_skiplist rw.1 i;
  Ret (s, rw.2).

(** ** Inodebits: conflicts *)

Definition ldlm_should_run_bl_ast (s : sl_resource) (i req : Z) : run bool :=
  lock ← sl_get s i;
  rl ← sl_get s req;
  if negb (l_blocking_ast lock) then Ret false
  else if negb (ldlm_is_local lock) then Ret true
  else if negb (Z.land (l_req_mode lock) LCK_COS =? 0) then Ret true
  else if Z.land (l_req_mode lock) (Z.lor LCK_PW LCK_EX) =? 0 then Ret false
  else if ldlm_is_cos_enabled rl then Ret (negb (l_client_cookie s i =? l_client_cookie s req))
  else Ret (ldlm_is_cos_incompat rl).

(** [ldlm_add_ast_work_item] of a conflicting lock [i], when its callback is to be run. *)
Definition add_bl_ast (s : sl_resource) (i req : Z) (wl : list Z) : run (sl_resource * list Z) :=
  b ← ldlm_should_run_bl_ast s i req;
  if (b : bool) then rw ← ldlm_add_ast_work_item (sl_res s) i (Some req) wl; Ret (with_res s rw.1, rw.2)
  else Ret (s, wl).

Fixpoint add_bl_asts (ids : list Z) (s : sl_resource) (req : Z) (wl : list Z) : run (sl_resource * list Z) :=
  match ids with
  | [] => Ret (s, wl)
  | i :: ids' => rw ← add_bl_ast s i req wl; add_bl_asts ids' rw.1 req rw.2
  end.

(** The result is known, or the check goes on with the result so far, the resource and the
    work list. *)
Inductive compat_step := CompatDone (s : sl_resource) (wl : option (list Z)) | CompatGoes (compat : Z) (s : sl_resource) (wl : option (list Z)).

(** What is done with the bits of a lock that is of an incompatible mode: the request gives
    up trying its bits, and it gives up trying those of the request. *)
Definition filter_try_bits (s : sl_resource) (i req : Z) : sl_resource :=
  let p := l_inodebits s i in
  let rp := l_inodebits s req in
  with_bits s req (Inodebits (bits rp) (Z.ldiff (try_bits rp) (Z.lor (bits p) (try_bits p)))).
Definition drop_try_bits (s : sl_resource) (i : Z) (req_bits : Z) : sl_resource :=
  let p := l_inodebits s i in with_bits s i (Inodebits (bits p) (Z.ldiff (try_bits p) req_bits)).

Definition no_bits (s : sl_resource) (req req_bits : Z) : bool :=
  Z.lor req_bits (try_bits (l_inodebits s req)) =? 0.

(** A lock in COS mode is compatible with a request of the same client. *)
Definition cos_compatible (s : sl_resource) (i req : Z) (lock rl : ldlm_lock) : bool :=
  (l_req_mode lock =? LCK_COS) && negb (ldlm_is_cos_incompat rl) && ldlm_is_cos_enabled rl
  && (l_client_cookie s i =? l_client_cookie s req).

(** The policy group that begins with the lock [i]. *)
Definition compat_policy_group (s : sl_resource) (req req_bits i : Z) (compat : Z) (wl : option (list Z))
    : run compat_step :=
  lock ← sl_get s i;
  rl ← sl_get s req;
  let s := filter_try_bits s i req in
  if no_bits s req req_bits then Ret (CompatDone s wl)
  else
    let s := drop_try_bits s i req_bits in
    if negb (Z.land (bits (l_inodebits s i)) req_bits =? 0) && negb (cos_compatible s i req lock rl) then
      match wl with
      | None => Ret (CompatDone s wl)
      | Some w =>
          rest ← ring_entries (length (lr_granted (sl_res s))) (sl_policy s) i (list_next (sl_policy s) i);
          rw ← add_bl_asts (i :: rest) s req w;
          Ret (CompatGoes 0 rw.1 (Some rw.2))
      end
    else Ret (CompatGoes compat s wl).

(** The policy groups of a mode group, from the lock [i] on. *)
Fixpoint compat_mode_group (fuel : nat) (queue : list Z) (s : sl_resource) (req req_bits i mode_tail : Z)
    (compat : Z) (wl : option (list Z)) : run compat_step :=
  match fuel with
  | O => LBUG
  | S fuel' =>
      let tmp := list_prev (sl_policy s) i in
      r ← compat_policy_group s req req_bits i compat wl;
      match r with
      | CompatDone _ _ => Ret r
      | CompatGoes compat s wl =>
          if tmp =? mode_tail then Ret r
          else
            rest ← list_after queue tmp;
            match rest with
            | [] => LBUG
            | j :: _ => compat_mode_group fuel' queue s req req_bits j mode_tail compat wl
            end
      end
  end.

(** The granted or the waiting locks, from what is left of them on. *)
Fixpoint compat_loop (fuel : nat) (queue : list Z) (s : sl_resource) (req req_bits : Z) (cur : list Z)
    (compat : Z) (wl : option (list Z)) : run compat_step :=
  match cur with
  | [] => Ret (CompatGoes compat s wl)
  | i :: _ =>
      match fuel with
      | O => LBUG
      | S fuel' =>
          if i =? req then Ret (CompatGoes compat s wl)
          else
            lock ← sl_get s i;
            rl ← sl_get s req;
            let mode_tail := list_prev (sl_mode s) i in
            if ((l_req_mode lock =? LCK_COS) && negb (ldlm_is_cos_incompat rl) && negb (ldlm_is_cos_enabled rl))
               || lockmode_compat (l_req_mode lock) (l_req_mode rl)
            then
              rest ← list_after queue mode_tail;
              compat_loop fuel' queue s req req_bits rest compat wl
            else
              r ← compat_mode_group fuel queue s req req_bits i mode_tail compat wl;
              match r with
              | CompatDone _ _ => Ret r
              | CompatGoes compat s wl =>
                  rest ← list_after queue mode_tail;
                  compat_loop fuel' queue s req req_bits rest compat wl
              end
      end
  end.

Definition queue_of (s : sl_resource) (q : queue) : list Z :=
  match q with Granted => lr_granted (sl_res s) | Waiting => lr_waiting (sl_res s) end.

Definition compat_result (r : compat_step) : Z * sl_resource * option (list Z) :=
  match r with CompatDone s wl => (0, s, wl) | CompatGoes compat s wl => (compat, s, wl) end.

Definition ldlm_inodebits_compat_queue (s : sl_resource) (q : queue) (req : Z) (work_list : option (list Z))
    : run (Z * sl_resource * option (list Z)) :=
  let req_bits := bits (l_inodebits s req) in
  if no_bits s req req_bits then Ret (0, s, work_list)
  else
    let queue := queue_of s q in
    r ← compat_loop (length queue) queue s req req_bits queue 1 work_list;
    Ret (compat_result r).

(** ** Plain locks: conflicts *)

(** [ldlm_add_ast_work_item] of the locks that have a blocking callback. *)
Fixpoint plain_add_asts (ids : list Z) (s : sl_resource) (req : Z) (wl : list Z) : run (sl_resource * list Z) :=
  match ids with
  | [] => Ret (s, wl)
  | i :: ids' =>
      lock ← sl_get s i;
      if l_blocking_ast lock then
        rw ← ldlm_add_ast_work_item (sl_res s) i (Some req) wl;
        plain_add_asts ids' (with_res s rw.1) req rw.2
      else plain_add_asts ids' s req wl
  end.

Fixpoint plain_loop (fuel : nat) (queue : list Z) (s : sl_resource) (req : Z) (cur : list Z) (compat : Z)
    (wl : option (list Z)) : run compat_step :=
  match cur with
  | [] => Ret (CompatGoes compat s wl)
  | i :: _ =>
      match fuel with
      | O => LBUG
      | S fuel' =>
          if i =? req then Ret (CompatGoes compat s wl)
          else
            lock ← sl_get s i;
            rl ← sl_get s req;
            rest ← list_after queue (list_prev (sl_mode s) i);
            if lockmode_compat (l_req_mode lock) (l_req_mode rl)
            then plain_loop fuel' queue s req rest compat wl
            else
              match wl with
              | None => Ret (CompatDone s wl)
              | Some w =>
                  group ← ring_entries (length queue) (sl_mode s) i (list_next (sl_mode s) i);
                  rw ← plain_add_asts (i :: group) s req w;
                  plain_loop fuel' queue rw.1 req rest 0 (Some rw.2)
              end
      end
  end.

Definition ldlm_plain_compat_queue (s : sl_resource) (q : queue) (req : Z) (work_list : option (list Z))
    : run (Z * sl_resource * option (list Z)) :=
  rl ← sl_get s req;
  lassert lockmode_verify (l_req_mode rl);
  let queue := queue_of s q in
  r ← plain_loop (length queue) queue s req queue 1 work_list;
  Ret (compat_result r).

(** ** Decisions *)

Definition ELDLM_LOCK_ABORTED : Z := 301.
Definition ELDLM_NO_LOCK_DATA : Z := 303.
Definition ELDLM_LOCK_WOULDBLOCK : Z := 304.

(** The bits that are still tried are granted with the others. *)
Definition grant_try_bits (s : sl_resource) (i flags : Z) : sl_resource * Z :=
  let p := l_inodebits s i in
  if negb (try_bits p =? 0)
  then (with_bits s i (Inodebits (Z.lor (bits p) (try_bits p)) 0), Z.lor flags LDLM_FL_LOCK_CHANGED)
  else (s, flags).

Definition process_ibits_rescan (s : sl_resource) (i flags : Z) (work_list : list Z)
    : run (Z * Z * Z * sl_resource * list Z) :=
  let nowait := LDLM_TEST_FLAG flags LDLM_FL_BLOCK_NOWAIT in
  let bl_list := if nowait then None else Some work_list in
  let err := if nowait then ELDLM_LOCK_WOULDBLOCK else ELDLM_LOCK_ABORTED in
  lassert negb (bits (l_inodebits s i) =? 0);
  r ← ldlm_inodebits_compat_queue s Granted i bl_list;
  let '(rc, s, wl) := r in
  let work_list := default work_list wl in
  if rc =? 0 then Ret (LDLM_ITER_STOP, err, flags, s, work_list)
  else
    r ← ldlm_inodebits_compat_queue s Waiting i None;
    let '(rc, s, _) := r in
    if rc =? 0 then Ret (LDLM_ITER_STOP, err, flags, s, work_list)
    else
      let '(s, flags) := grant_try_bits s i flags in
      rw ← sl_grant_lock (sl_unlink_lock s i) i (Some work_list);
      Ret (LDLM_ITER_CONTINUE, ELDLM_OK, flags, rw.1, default work_list rw.2).

Definition process_ibits_enqueue (s : sl_resource) (i flags : Z) (grant_work : bool) (work_list : list Z)
    : run (Z * Z * Z * sl_resource * list Z) :=
  r ← ldlm_inodebits_compat_queue s Granted i (Some work_list);
  let '(rc, s, wl) := r in
  r ← ldlm_inodebits_compat_queue s Waiting i wl;
  let '(rc2, s, wl) := r in
  let work_list := default [] wl in
  if negb (rc + rc2 =? 2) then
    let p := l_inodebits s i in
    Ret (LDLM_ITER_CONTINUE,
         if Z.lor (bits p) (try_bits p) =? 0 then ELDLM_LOCK_WOULDBLOCK else ELDLM_OK, flags, s, work_list)
  else
    let '(s, flags) := grant_try_bits s i flags in
    lassert negb (bits (l_inodebits s i) =? 0);
    rw ← sl_grant_lock (sl_unlink_lock s i) i (if grant_work then Some work_list else None);
    Ret (LDLM_ITER_CONTINUE, ELDLM_OK, flags, rw.1, default work_list rw.2).

(** The result, [*err], [*flags], the resource and the work list. *)
Definition ldlm_process_inodebits_lock (s : sl_resource) (i flags : Z) (intention : ldlm_process_intention)
    (work_list : list Z) : run (Z * Z * Z * sl_resource * list Z) :=
  lock ← sl_get s i;
  lassert negb (l_granted_mode lock =? l_req_mode lock);
  match intention with
  | LDLM_PROCESS_RESCAN => process_ibits_rescan s i flags work_list
  | LDLM_PROCESS_RECOVERY => process_ibits_enqueue s i flags true work_list
  | LDLM_PROCESS_ENQUEUE => process_ibits_enqueue s i flags false work_list
  end.

Definition ldlm_process_plain_lock (s : sl_resource) (i flags : Z) (intention : ldlm_process_intention)
    (work_list : list Z) : run (Z * Z * Z * sl_resource * list Z) :=
  lock ← sl_get s i;
  lassert negb (l_granted_mode lock =? l_req_mode lock);
  let grant_work wl := match intention with LDLM_PROCESS_ENQUEUE => None | _ => Some wl end in
  let grant s wl :=
    rw ← sl_grant_lock (sl_unlink_lock s i) i (grant_work wl);
    Ret (LDLM_ITER_CONTINUE, ELDLM_OK, flags, rw.1, default wl rw.2) in
  match intention with
  | LDLM_PROCESS_RESCAN =>
      r ← ldlm_plain_compat_queue s Granted i None;
      let '(rc, s, _) := r in
      if rc =? 0 then Ret (LDLM_ITER_STOP, ELDLM_OK, flags, s, work_list)
      else
        r ← ldlm_plain_compat_queue s Waiting i None;
        let '(rc, s, _) := r in
        if rc =? 0 then Ret (LDLM_ITER_STOP, ELDLM_OK, flags, s, work_list) else grant s work_list
  | _ =>
      r ← ldlm_plain_compat_queue s Granted i (Some work_list);
      let '(rc, s, wl) := r in
      r ← ldlm_plain_compat_queue s Waiting i wl;
      let '(rc2, s, wl) := r in
      let work_list := default [] wl in
      if rc + rc2 =? 2 then grant s work_list
      else Ret (LDLM_ITER_CONTINUE, ELDLM_OK, flags, s, work_list)
  end.

(** [ldlm_processing_policy_table]. *)
Definition ldlm_processing_policy (s : sl_resource) :=
  match sl_type_of s with
  | LDLM_PLAIN => ldlm_process_plain_lock s
  | LDLM_IBITS => ldlm_process_inodebits_lock s
  end.

(** ** Changes of granted locks *)

Definition ldlm_inodebits_drop (s : sl_resource) (i to_drop : Z) : run sl_resource :=
  let p := l_inodebits s i in
  if Z.land (bits p) to_drop =? 0 then Ret s
  else
    let s := sl_unlink_lock s i in
    ldlm_grant_lock_with_skiplist (with_bits s i (Inodebits (Z.ldiff (bits p) to_drop) (try_bits p))) i.

Definition set_req_mode (l : ldlm_lock) (m : Z) : ldlm_lock :=
  LdlmLock m (l_granted_mode l) (l_req_extent l) (l_extent l) (l_export l) (l_flags l) (l_blocking_ast l)
    (l_completion_ast l) (l_blocking_lock l) (l_bl_ast l) (l_cp_ast l) (l_tree_node l) (l_bl_ast_run l).

(** [ldlm_lock_mode_downgrade] under the resource lock. *)
Definition ldlm_lock_mode_downgrade (s : sl_resource) (i new_mode : Z) : run sl_resource :=
  lassert new_mode =? LCK_COS;
  lock ← sl_get s i;
  if Z.land (l_granted_mode lock) (Z.lor LCK_PW LCK_EX) =? 0 then
    lassert l_granted_mode lock =? LCK_MINMODE;
    Ret s
  else
    let s := sl_unlink_lock s i in
    rw ← sl_grant_lock (sl_put s i (set_req_mode lock new_mode)) i None;
    Ret rw.1.

(** [ldlm_handle_convert0]: what it decides on without the resource lock, a result or the
    bits to drop... *)
Definition convert_check (s : sl_resource) (i mode new : Z) : run (Z + Z) :=
  lock ← sl_get s i;
  let b := bits (l_inodebits s i) in
  if ldlm_is_cancel lock then Ret (inl ELDLM_NO_LOCK_DATA)
  else if negb (mode =? l_granted_mode lock) then Ret (inl ELDLM_NO_LOCK_DATA)
  else if b =? new then Ret (inl ELDLM_OK)
  else Ret (inr (Z.ldiff b new)).

(** ... and what it does under the lock, but for the timer of the lock and its flag
    [CBPENDING].  [cancel_bits] and [try_bits] are one field. *)
Definition convert_drop (s : sl_resource) (i to_drop : Z) : run sl_resource :=
  let s := with_bits s i (Inodebits (bits (l_inodebits s i)) 0) in
  s ← ldlm_inodebits_drop s i to_drop;
  lock ← sl_get s i;
  let lock := set_bl_ast_run lock 0 in
  Ret (sl_put s i (set_flags lock (LDLM_CLEAR_FLAG (l_flags lock) LDLM_FL_AST_SENT))).

(** [ldlm_lock_cancel]: the cancel flag, and behind the callback the rest. *)
Definition cancel_start (s : sl_resource) (i : Z) : run sl_resource :=
  lock ← sl_get s i;
  Ret (sl_put s i (set_flags lock (LDLM_SET_FLAG (l_flags lock) LDLM_FL_CANCEL))).

Definition cancel_finish (s : sl_resource) (i : Z) : run sl_resource :=
  let s := sl_unlink_lock s i in
  res ← ldlm_lock_destroy_nolock (sl_res s) i;
  lock ← get_lock res i;
  Ret (with_res s (put_lock res i (set_granted_mode lock LCK_MINMODE))).

(** ** Enqueueing and reprocessing *)

(** The end of [ldlm_lock_enqueue_helper]. *)
Definition sl_enqueue_done (rc flags : Z) (rpc_list : list Z) (s : sl_resource)
    : run (enqueue_state * Z * sl_resource) :=
  res ← ldlm_discard_bl_list rpc_list (sl_res s);
  Ret (EnqDone rc, flags, with_res s res).

(** One turn of [ldlm_lock_enqueue_helper], with the first part of
    [ldlm_handle_conflict_lock]. *)
Definition sl_enqueue_helper (s : sl_resource) (i flags : Z) (rpc_list : list Z)
    : run (enqueue_state * Z * sl_resource) :=
  r ← ldlm_processing_policy s i flags LDLM_PROCESS_ENQUEUE rpc_list;
  let '(_, rc, flags, s, rpc_list) := r in
  lock ← sl_get s i;
  if (rc =? ELDLM_OK) && negb (l_granted_mode lock =? l_req_mode lock) then
    res ← (if on_resource (sl_res s) i then Ret (sl_res s) else ldlm_resource_add_lock (sl_res s) Waiting i);
    Ret (EnqConflict rpc_list, flags, with_res s res)
  else sl_enqueue_done rc flags rpc_list s.

(** [ldlm_handle_conflict_lock] behind the callbacks, whose result is [ast_rc], and
    what its caller does; [rpc_list] has the callbacks that were not run. *)
Definition sl_handle_conflict (s : sl_resource) (i flags ast_rc : Z) (rpc_list : list Z)
    : run (enqueue_state * Z * sl_resource) :=
  lock ← sl_get s i;
  if ast_rc =? - ERESTART then
    if ldlm_is_destroyed lock then sl_enqueue_done (- EAGAIN) flags rpc_list s
    else if l_granted_mode lock =? l_req_mode lock
    then sl_enqueue_done ELDLM_OK (Z.ldiff flags LDLM_FL_BLOCKED_MASK) rpc_list s
    else sl_enqueue_helper s i flags rpc_list
  else sl_enqueue_done ELDLM_OK (Z.lor flags LDLM_FL_BLOCK_GRANTED) rpc_list s.

(** [ldlm_lock_enqueue] in a server namespace, of a lock that is neither resent nor
    replayed, and without an intent. *)
Definition sl_lock_enqueue (s : sl_resource) (i flags : Z) : run (enqueue_state * Z * sl_resource) :=
  let s := sl_unlink_lock s i in
  lock ← sl_get s i;
  sl_enqueue_helper (sl_put s i (set_flags lock (enqueue_lock_flags flags (l_flags lock)))) i flags [].

(** A new lock, of an export or of the server itself. *)
Definition sl_lock_create (s : sl_resource) (i mode lock_flags : Z) (export : option Z) (p : ldlm_inodebits)
    (cookie : Z) (blocking completion : bool) : sl_resource :=
  let l := ldlm_lock_create mode blocking completion in
  let l := LdlmLock (l_req_mode l) (l_granted_mode l) (l_req_extent l) (l_extent l) export
             (Z.lor (l_flags l) lock_flags) (l_blocking_ast l) (l_completion_ast l) (l_blocking_lock l)
             (l_bl_ast l) (l_cp_ast l) (l_tree_node l) (l_bl_ast_run l) in
  SlResource (sl_type_of s) (put_lock (sl_res s) i l) (<[i := p]> (sl_policy_data s))
    (<[i := cookie]> (sl_cookie s)) (sl_mode s) (sl_policy s).

Fixpoint sl_reprocess_loop (intention : ldlm_process_intention) (queue : list Z) (s : sl_resource)
    (rc : Z) (work_list bl_ast_list : list Z) : run (Z * sl_resource * list Z * list Z) :=
  match queue with
  | [] => Ret (rc, s, work_list, bl_ast_list)
  | i :: queue' =>
      r ← ldlm_processing_policy s i 0 intention [];
      let '(rc, _, _, s, rpc_list) := r in
      pending ← sl_get s i;
      let granted := l_granted_mode pending =? l_req_mode pending in
      let work_list := if granted then rpc_list ++ work_list else work_list in
      let bl_ast_list := if granted then bl_ast_list else rpc_list ++ bl_ast_list in
      match intention with
      | LDLM_PROCESS_RESCAN =>
          if negb (rc =? LDLM_ITER_CONTINUE) then Ret (rc, s, work_list, bl_ast_list)
          else sl_reprocess_loop intention queue' s rc work_list bl_ast_list
      | _ => sl_reprocess_loop intention queue' s rc work_list bl_ast_list
      end
  end.

(** [ldlm_reprocess_queue] of the waiting list, up to the blocking callbacks it sends. *)
Definition sl_reprocess_queue (s : sl_resource) (work_list : list Z) (intention : ldlm_process_intention)
    : run (Z * sl_resource * list Z * list Z) :=
  lassert (match intention with LDLM_PROCESS_ENQUEUE => false | _ => true end);
  sl_reprocess_loop intention (lr_waiting (sl_res s)) s LDLM_ITER_CONTINUE work_list [].
