(* ===== verification/SkipRing.v ===== *)
(** The rings of the skip lists (lustre/ldlm/ldlm_lock.c): adding behind an entry and
    taking an entry out keep a ring a ring, and do not touch the others. *)

From stdpp Require Import gmap.
From S2P Require Import Prelude IntervalTree LdlmLock LdlmExtent LdlmServer SkipLock.

Implicit Types (r : links) (l : list Z).

(** ** Links *)

Lemma next_add r new h x :
  list_next (list_add r new h) x
  = if decide (x = h) then new else if decide (x = new) then list_next r h else list_next r x.
Proof.
  unfold list_next at 1, list_add. cbn. repeat case_decide; subst.
  - by rewrite lookup_insert_eq.
  - by rewrite lookup_insert_ne, lookup_insert_eq.
  - by rewrite !lookup_insert_ne.
Qed.

Lemma prev_add r new h x :
  list_prev (list_add r new h) x
  = if decide (x = new) then h else if decide (x = list_next r h) then new else list_prev r x.
Proof.
  unfold list_prev at 1, list_add. cbn. repeat case_decide; subst.
  - by rewrite lookup_insert_eq.
  - by rewrite lookup_insert_ne, lookup_insert_eq.
  - by rewrite !lookup_insert_ne.
Qed.

Lemma next_del r i x :
  list_next (list_del_init r i) x
  = if decide (x = i) then i else if decide (x = list_prev r i) then list_next r i else list_next r x.
Proof.
  unfold list_next at 1, list_del_init. cbn. repeat case_decide; subst.
  - by rewrite lookup_insert_eq.
  - by rewrite lookup_insert_ne, lookup_insert_eq.
  - by rewrite !lookup_insert_ne.
Qed.

Lemma prev_del r i x :
  list_prev (list_del_init r i) x
  = if decide (x = i) then i else if decide (x = list_next r i) then list_prev r i else list_prev r x.
Proof.
  unfold list_prev at 1, list_del_init. cbn. repeat case_decide; subst.
  - by rewrite lookup_insert_eq.
  - by rewrite lookup_insert_ne, lookup_insert_eq.
  - by rewrite !lookup_insert_ne.
Qed.

(** ** Paths and rings *)

Definition linked r (x y : Z) : Prop := list_next r x = y /\ list_prev r y = x.

(** From [x] over [l] to [y]. *)
Fixpoint path r (x : Z) l (y : Z) : Prop :=
  match l with
  | [] => linked r x y
  | a :: l' => linked r x a /\ path r a l' y
  end.

Definition ring r l : Prop := match l with [] => False | a :: l' => path r a l' a end.

Lemma path_app r l1 h l2 : forall x y, path r x (l1 ++ h :: l2) y <-> path r x l1 h /\ path r h l2 y.
Proof. induction l1 as [|a l1 IH]; intros x y; cbn; [done|]. rewrite IH. tauto. Qed.

Lemma path_frame r r' l : forall x y,
  (forall z, z ∈ x :: l -> list_next r' z = list_next r z) ->
  (forall z, z ∈ l ++ [y] -> list_prev r' z = list_prev r z) ->
  path r x l y -> path r' x l y.
Proof.
  induction l as [|a l IH]; intros x y Hn Hp; cbn.
  - intros [H1 H2]. split; [rewrite Hn by (by left)|rewrite Hp by (by left)]; done.
  - intros [[H1 H2] Hr]. split.
    + split; [rewrite Hn by (by left)|rewrite Hp by (by left)]; done.
    + apply IH; [intros z Hz; apply Hn; by right|intros z Hz; apply Hp; by right|done].
Qed.

Lemma ring_rotate r l1 l2 : ring r (l1 ++ l2) -> ring r (l2 ++ l1).
Proof.
  destruct l1 as [|a l1], l2 as [|b l2]; cbn; rewrite ?app_nil_r; try done.
  rewrite !path_app. tauto.
Qed.

Lemma ring_frame r r' l :
  (forall z, z ∈ l -> list_next r' z = list_next r z /\ list_prev r' z = list_prev r z) -> ring r l -> ring r' l.
Proof.
  destruct l as [|a l]; [done|]. intros Hf. apply path_frame.
  - intros z Hz. by apply Hf.
  - intros z [Hz|Hz%list_elem_of_singleton]%elem_of_app; [|subst z]; apply Hf; [by right|by left].
Qed.

(** Neighbours in a ring are in it. *)
Lemma path_next r l : forall x y z, path r x l y -> z ∈ x :: l -> list_next r z ∈ l ++ [y].
Proof.
  induction l as [|a l IH]; intros x y z; cbn.
  - intros [<- _] Hz%list_elem_of_singleton. subst z. by left.
  - intros [[H1 H2] Hp] [->|Hz]%elem_of_cons; [rewrite H1; by left|]. right. by apply (IH a).
Qed.
Lemma path_prev r l : forall x y z, path r x l y -> z ∈ l ++ [y] -> list_prev r z ∈ x :: l.
Proof.
  induction l as [|a l IH]; intros x y z; cbn.
  - intros [_ <-] Hz%list_elem_of_singleton. subst z. by left.
  - intros [[H1 H2] Hp] [->|Hz]%elem_of_cons; [rewrite H2; by left|]. right. by apply (IH a y).
Qed.

Lemma ring_next r l z : ring r l -> z ∈ l -> list_next r z ∈ l.
Proof.
  destruct l as [|a l]; [done|]. intros Hr Hz. apply (path_next r l a a z Hr) in Hz.
  apply elem_of_app in Hz as [?|?%list_elem_of_singleton]; [by right|]. apply elem_of_cons. by left.
Qed.
Lemma ring_prev r l z : ring r l -> z ∈ l -> list_prev r z ∈ l.
Proof.
  destruct l as [|a l]; [done|]. intros Hr Hz. apply (path_prev r l a a z Hr). apply elem_of_app.
  apply elem_of_cons in Hz as [->|?]; [right; by left|by left].
Qed.

(** The lock before the first one is the last one. *)
Lemma path_last r l : forall x y, path r x l y -> Some (list_prev r y) = last (x :: l).
Proof.
  induction l as [|a l IH]; intros x y; [by intros [_ ->]|]. intros [_ Hp]. rewrite last_cons_cons. by apply IH.
Qed.
Lemma ring_last r a l : ring r (a :: l) -> last (a :: l) = Some (list_prev r a).
Proof. intros Hr. symmetry. by apply path_last. Qed.

Lemma path_entries r l : forall x y fuel, path r x l y -> y ∉ l -> (length l <= fuel)%nat ->
  ring_entries fuel r y (list_next r x) = Ret l.
Proof.
  induction l as [|a l IH]; intros x y fuel; cbn.
  - intros [-> _] _ _. destruct fuel; cbn; by rewrite Z.eqb_refl.
  - intros [[-> _] Hp] Hy Hf. apply not_elem_of_cons in Hy as [Hne Hy]. destruct fuel as [|fuel]; [lia|].
    cbn. rewrite (proj2 (Z.eqb_neq a y)) by congruence. by rewrite (IH a y fuel) by (done || lia).
Qed.
Lemma ring_entries_spec r a l fuel :
  ring r (a :: l) -> NoDup (a :: l) -> (length l <= fuel)%nat -> ring_entries fuel r a (list_next r a) = Ret l.
Proof. intros Hr [Ha _]%NoDup_cons Hf. by apply path_entries. Qed.

(** ** Adding and taking out *)

Lemma path_add_first r new x l y :
  path r x l y -> new ∉ x :: l ++ [y] -> NoDup (x :: l) -> (y ∉ l) -> path (list_add r new x) x (new :: l) y.
Proof.
  intros Hp Hn [Hx Hl]%NoDup_cons Hy. rewrite not_elem_of_cons, not_elem_of_app in Hn. destruct Hn as (Hnx & Hnl & Hny).
  assert (new <> y) by (intros ->; apply Hny; by left).
  cbn [path]. split; [split; [rewrite next_add, decide_True by done|rewrite prev_add, decide_True by done]; done|].
  destruct l as [|a l]; cbn in *.
  - destruct Hp as [H1 H2]. split.
    + by rewrite next_add, decide_False, decide_True.
    + rewrite prev_add, decide_False by done. by rewrite decide_True.
  - destruct Hp as [[H1 H2] Hp]. rewrite not_elem_of_cons in Hx, Hnl, Hy. apply NoDup_cons in Hl as [Ha Hl]. split; [split|].
    + by rewrite next_add, decide_False, decide_True.
    + rewrite prev_add, decide_False by (intros ->; tauto). by rewrite decide_True.
    + eapply path_frame; [| |exact Hp]; intros z Hz.
      * rewrite next_add, !decide_False; [done|intros ->; apply elem_of_cons in Hz; tauto..].
      * rewrite prev_add, H1. apply elem_of_app in Hz as [Hz|Hz%list_elem_of_singleton]; [|subst z];
          rewrite !decide_False; try done; try (intros ->; tauto).
Qed.

Lemma ring_add r new l1 h l2 :
  ring r (l1 ++ h :: l2) -> NoDup (l1 ++ h :: l2) -> (new ∉ l1 ++ h :: l2) ->
  ring (list_add r new h) (l1 ++ h :: new :: l2).
Proof.
  intros Hr Hnd Hn. apply (ring_rotate _ (h :: new :: l2) l1). apply ring_rotate in Hr. cbn in Hr |- *.
  assert (Hp : h :: l2 ++ l1 ≡ₚ l1 ++ h :: l2) by (by rewrite <-Permutation_middle, (Permutation_app_comm l1)).
  assert (Hnd' : NoDup (h :: l2 ++ l1)) by (by rewrite Hp). assert (Hn' : new ∉ h :: l2 ++ l1) by (by rewrite Hp).
  apply path_add_first; [done| |done|by apply NoDup_cons in Hnd' as [? _]].
  rewrite app_comm_cons, not_elem_of_app. split; [done|]. intros ->%list_elem_of_singleton. apply Hn'. by left.
Qed.

(** A path that comes back to the entry taken out goes to the one behind it instead. *)
Lemma path_del r e b l :
  path r b l e -> linked r e b -> NoDup (e :: b :: l) -> path (list_del_init r e) b l b.
Proof.
  intros Hp [H1 H2] Hnd. pose proof (path_last r l b e Hp) as Hlast.
  destruct (exists_last (l := b :: l)) as (l0 & z & El); [done|]. rewrite El, last_snoc in Hlast. injection Hlast as Hz.
  apply NoDup_cons in Hnd as [He Hnd]. rewrite El in He. pose proof Hnd as Hnd0. rewrite El in Hnd0.
  assert (Hez : e <> z) by (intros ->; apply He, elem_of_app; right; by left).
  assert (Hl : path (list_del_init r e) b l b <-> match l0 with [] => linked (list_del_init r e) z b
    | a :: l1 => path (list_del_init r e) a l1 z /\ linked (list_del_init r e) z b end).
  { destruct l0 as [|a l1]; injection El as -> ->; [done|]. apply path_app. }
  apply Hl. assert (Hzb : linked (list_del_init r e) z b).
  { split.
    - rewrite next_del, decide_False, decide_True by congruence. done.
    - rewrite prev_del, decide_False, decide_True; [done..|]. intros ->. apply He. rewrite <-El. by left. }
  destruct l0 as [|a l1]; [done|]. split; [|done]. injection El as -> ->. apply path_app in Hp as [Hp _].
  apply list.NoDup_app in Hnd0 as (Hnd1 & Hd & _). eapply path_frame; [| |exact Hp]; intros x Hx.
  - rewrite next_del, !decide_False; [done| |].
    + intros ->. rewrite Hz in Hx. apply (Hd z Hx). by left.
    + intros ->. apply He, elem_of_app. by left.
  - assert (x <> e) by (intros ->; apply He; apply (elem_of_cons (l1 ++ [z]) e a); by right).
    rewrite prev_del, !decide_False; [done| |done]. rewrite H1. intros ->. apply NoDup_cons in Hnd as [Hnd _]. done.
Qed.

Lemma ring_del r e l1 l2 :
  ring r (l1 ++ e :: l2) -> NoDup (l1 ++ e :: l2) -> l1 ++ l2 <> [] -> ring (list_del_init r e) (l1 ++ l2).
Proof.
  intros Hr Hnd Hne. apply ring_rotate. apply ring_rotate in Hr.
  assert (Hpm : l1 ++ e :: l2 ≡ₚ e :: l2 ++ l1) by (by rewrite <-Permutation_middle, (Permutation_app_comm l1)).
  assert (Hnd' : NoDup (e :: l2 ++ l1)) by (by rewrite <-Hpm).
  cbn in Hr. destruct (l2 ++ l1) as [|b m] eqn:E; [apply app_eq_nil in E as [-> ->]; done|].
  destruct Hr as [Hb Hp]. by apply path_del.
Qed.

Lemma del_self r e : list_next (list_del_init r e) e = e /\ list_prev (list_del_init r e) e = e.
Proof. by rewrite next_del, prev_del, !decide_True. Qed.

(** Rings elsewhere stay as they are. *)
Lemma ring_add_other r new h l l' :
  ring r l -> ring r l' -> h ∈ l -> (forall z, z ∈ l' -> (z ∉ l) /\ z <> new) -> ring (list_add r new h) l'.
Proof.
  intros Hl Hl' Hh Hd. apply (ring_frame r); [|done]. intros z Hz. destruct (Hd z Hz) as [Hzl Hzn].
  pose proof (ring_next r l h Hl Hh). rewrite next_add, prev_add, !decide_False; [done|intros ->; done..].
Qed.

Lemma ring_del_other r e l l' :
  ring r l -> ring r l' -> e ∈ l -> (forall z, z ∈ l' -> z ∉ l) -> ring (list_del_init r e) l'.
Proof.
  intros Hl Hl' He Hd. apply (ring_frame r); [|done]. intros z Hz. specialize (Hd z Hz).
  pose proof (ring_next r l e Hl He). pose proof (ring_prev r l e Hl He).
  rewrite next_del, prev_del, !decide_False; [done|intros ->; done..].
Qed.

Lemma ring_single r i : list_next r i = i -> list_prev r i = i -> ring r [i].
Proof. by split. Qed.
