(* ===== verification/SkipShape.v ===== *)
(** The shape of the skip lists (lustre/ldlm/ldlm_lock.c): the granted list is made of mode
    groups that are made of policy groups, each a ring, and finding the place of a lock,
    adding it there and taking a lock out keep this shape. *)

From stdpp Require Import gmap.
From S2P Require Import Prelude IntervalTree LdlmLock LdlmExtent LdlmSafe LdlmServer SkipLock SkipRing.

(** ** Groups *)

(** Mode groups of policy groups of locks. *)
Abbreviation groups := (list (list (list Z))).
Implicit Types (s : sl_resource) (gs : groups) (g : list (list Z)).

Definition flat gs : list Z := concat (map (@concat Z) gs).

Definition mode_of s (i : Z) : Z := match lr_locks (sl_res s) !! i with Some l => l_req_mode l | None => 0 end.

(** What the locks of a policy group have in common; plain locks have nothing. *)
Definition key_of s (i : Z) : Z :=
  match sl_type_of s with LDLM_PLAIN => i | LDLM_IBITS => bits (l_inodebits s i) end.

Definition group_key s (pg : list Z) (k : Z) : Prop := Forall (fun i => key_of s i = k) pg.
Definition group_mode s g (m : Z) : Prop := Forall (fun i => mode_of s i = m) (concat g).

(** One mode, one group, and within it one policy, one group. *)
Definition mode_group_ok s g : Prop :=
  ring (sl_mode s) (concat g) /\ Forall (ring (sl_policy s)) g
  /\ exists ks, Forall2 (group_key s) g ks /\ NoDup ks.

Record shape s gs : Prop := {
  sh_granted : lr_granted (sl_res s) = flat gs;
  sh_nodup : NoDup (flat gs);
  sh_groups : Forall (mode_group_ok s) gs;
  sh_modes : exists ms, Forall2 (group_mode s) gs ms /\ NoDup ms;
  sh_single : forall i, i ∉ flat gs ->
    (list_next (sl_mode s) i = i /\ list_prev (sl_mode s) i = i)
    /\ (list_next (sl_policy s) i = i /\ list_prev (sl_policy s) i = i)
}.

Lemma flat_app gs1 gs2 : flat (gs1 ++ gs2) = flat gs1 ++ flat gs2.
Proof. unfold flat. by rewrite map_app, concat_app. Qed.
Lemma flat_cons g gs : flat (g :: gs) = concat g ++ flat gs.
Proof. done. Qed.

Lemma ring_nonempty r (l : list Z) : ring r l -> exists a l', l = a :: l'.
Proof. destruct l as [|a l]; [done|]. by exists a, l. Qed.

Lemma group_head s g : mode_group_ok s g -> exists a pg g', g = (a :: pg) :: g'.
Proof.
  intros (Hr & Hp & _). destruct g as [|[|a pg] g']; [done| |by exists a, pg, g'].
  apply Forall_cons in Hp as [Hp _]. done.
Qed.

(** ** Places in the granted list *)

Lemma list_after_split (A : list Z) x B : x ∉ A -> list_after (A ++ x :: B) x = Ret B.
Proof.
  induction A as [|a A IH]; cbn; [by rewrite Z.eqb_refl|]. intros [Ha HA]%not_elem_of_cons.
  rewrite (proj2 (Z.eqb_neq a x)) by congruence. by apply IH.
Qed.

(** The last lock of a stretch of the granted list. *)
Lemma list_after_last (A l B : list Z) x : NoDup (A ++ l ++ B) -> last l = Some x -> list_after (A ++ l ++ B) x = Ret B.
Proof.
  intros Hnd (l' & ->)%last_Some. rewrite <-app_assoc in *. rewrite (app_assoc A l') in *. cbn in *.
  apply list_after_split. apply list.NoDup_app in Hnd as (_ & Hd & _). intros Hx. apply (Hd x Hx). by left.
Qed.

Lemma add_after_last (A l B : list Z) x i :
  NoDup (A ++ l ++ B) -> last l = Some x -> list_add_after x i (A ++ l ++ B) = A ++ (l ++ [i]) ++ B.
Proof.
  intros Hnd (l' & ->)%last_Some. rewrite <-!app_assoc in *. rewrite !(app_assoc A l') in *. cbn in *.
  apply list_add_after_split. apply list.NoDup_app in Hnd as (_ & Hd & _). intros Hx. apply (Hd x Hx). by left.
Qed.

Section Search.
Context s gs (req : Z) (rl : ldlm_lock).
Hypothesis Hsh : shape s gs.
Hypothesis Hreq : lr_locks (sl_res s) !! req = Some rl.
Hypothesis Hknown : forall i, i ∈ flat gs -> is_Some (lr_locks (sl_res s) !! i).
Hypothesis Hnew : req ∉ flat gs.

(** The first lock of a mode group and what follows its last one. *)
Lemma mode_end_after gs1 g gs2 a pg g' :
  gs = gs1 ++ g :: gs2 -> g = (a :: pg) :: g' ->
  last (concat g) = Some (list_prev (sl_mode s) a)
  /\ list_after (lr_granted (sl_res s)) (list_prev (sl_mode s) a) = Ret (flat gs2).
Proof.
  intros Egs Eg. pose proof (sh_groups _ _ Hsh) as Hg. rewrite Egs in Hg. apply Forall_app in Hg as [_ Hg].
  apply Forall_cons in Hg as [(Hr & _) _].
  assert (Hl : last (concat g) = Some (list_prev (sl_mode s) a)) by (subst g; by apply (ring_last (sl_mode s))).
  split; [done|]. pose proof (sh_nodup _ _ Hsh) as Hnd. rewrite (sh_granted _ _ Hsh). rewrite Egs, flat_app, flat_cons in *.
  by apply list_after_last.
Qed.

Lemma policy_end_after gs1 g1 pg g2 gs2 a pg' :
  gs = gs1 ++ (g1 ++ pg :: g2) :: gs2 -> pg = a :: pg' ->
  last pg = Some (list_prev (sl_policy s) a)
  /\ list_after (lr_granted (sl_res s)) (list_prev (sl_policy s) a) = Ret (concat g2 ++ flat gs2).
Proof.
  intros Egs Eg. pose proof (sh_groups _ _ Hsh) as Hg. rewrite Egs in Hg. apply Forall_app in Hg as [_ Hg].
  apply Forall_cons in Hg as [(_ & Hr & _) _]. apply Forall_app in Hr as [_ Hr]. apply Forall_cons in Hr as [Hr _].
  assert (Hl : last pg = Some (list_prev (sl_policy s) a)) by (subst pg; by apply (ring_last (sl_policy s))).
  split; [done|]. pose proof (sh_nodup _ _ Hsh) as Hnd. rewrite (sh_granted _ _ Hsh). rewrite Egs, flat_app, flat_cons in *.
  rewrite concat_app, concat_cons in *. rewrite <-!app_assoc in *. rewrite (app_assoc (flat gs1)) in *. by apply list_after_last.
Qed.

(** Where the search ends: behind a policy group of the key, behind a mode group that has
    none, or behind all groups. *)
Inductive place : sl_insert_point -> Prop :=
  | place_policy gs1 g1 pg g2 gs2 x :
      gs = gs1 ++ (g1 ++ pg :: g2) :: gs2 -> last pg = Some x ->
      group_key s pg (key_of s req) -> group_mode s (g1 ++ pg :: g2) (mode_of s req) ->
      place (SlInsertPoint (Some x) (Some x) (Some x))
  | place_mode gs1 g gs2 x :
      gs = gs1 ++ g :: gs2 -> last (concat g) = Some x -> group_mode s g (mode_of s req) ->
      Forall (fun pg => ~ group_key s pg (key_of s req)) g ->
      place (SlInsertPoint (Some x) (Some x) None)
  | place_end :
      Forall (fun g => ~ group_mode s g (mode_of s req)) gs ->
      place (SlInsertPoint (last (flat gs)) None None).

Lemma group_keys gs1 g gs2 : gs = gs1 ++ g :: gs2 -> exists ks, Forall2 (group_key s) g ks /\ NoDup ks.
Proof.
  intros E. pose proof (sh_groups _ _ Hsh) as Hg. rewrite E in Hg. apply Forall_app in Hg as [_ Hg].
  by apply Forall_cons in Hg as [(_ & _ & Hk) _].
Qed.

(** The first lock of a group tells about all of it. *)
Lemma head_key g ks a pg k :
  Forall2 (group_key s) g ks -> (a :: pg) ∈ g -> (key_of s a = k <-> group_key s (a :: pg) k).
Proof.
  intros Hf Hin. split; [|by intros [? _]%Forall_cons]. intros <-.
  apply list_elem_of_lookup in Hin as [n Hn]. destruct (Forall2_lookup_l _ _ _ _ _ Hf Hn) as (k & _ & Hk).
  pose proof Hk as [-> _]%Forall_cons. done.
Qed.

Lemma group_nonempty gs1 g gs2 pg : gs = gs1 ++ g :: gs2 -> pg ∈ g -> exists a pg', pg = a :: pg'.
Proof.
  intros E Hin. pose proof (sh_groups _ _ Hsh) as Hg. rewrite E in Hg. apply Forall_app in Hg as [_ Hg].
  apply Forall_cons in Hg as [(_ & Hp & _) _]. rewrite Forall_forall in Hp. by eapply ring_nonempty, Hp.
Qed.

Lemma last_app_some (l1 l2 : list Z) x : last (l1 ++ l2) = Some x -> l2 <> [] -> last l2 = Some x.
Proof. rewrite last_app. intros Hl Hne. destruct (last l2) eqn:E; [done|]. by apply last_None in E. Qed.

(** A policy group that is not the last of its mode group ends before it. *)
Lemma policy_end_inside gs1 g1 a pg b pg2 g2 gs2 x y :
  gs = gs1 ++ (g1 ++ (a :: pg) :: (b :: pg2) :: g2) :: gs2 ->
  last (a :: pg) = Some x -> last (concat (g1 ++ (a :: pg) :: (b :: pg2) :: g2)) = Some y -> x <> y.
Proof.
  intros Egs Hx Hy Exy. subst y. pose proof (sh_nodup _ _ Hsh) as Hnd. rewrite Egs, flat_app, flat_cons in Hnd.
  apply list.NoDup_app in Hnd as (_ & _ & Hnd). apply list.NoDup_app in Hnd as (Hnd & _). rewrite concat_app, concat_cons in *.
  apply list.NoDup_app in Hnd as (_ & _ & Hnd). apply list.NoDup_app in Hnd as (_ & Hd & _).
  rewrite app_assoc in Hy. apply last_app_some in Hy; [|done].
  apply (Hd x); [by apply last_Some_elem_of|by apply last_Some_elem_of].
Qed.

Lemma search_policy_spec g2 : forall g1 gs1 gs2 a pg fuel mode_end,
  sl_type_of s = LDLM_IBITS -> gs = gs1 ++ (g1 ++ (a :: pg) :: g2) :: gs2 ->
  group_mode s (g1 ++ (a :: pg) :: g2) (mode_of s req) ->
  Forall (fun pg => ~ group_key s pg (key_of s req)) g1 -> (length g2 < fuel)%nat ->
  last (concat (g1 ++ (a :: pg) :: g2)) = Some mode_end ->
  exists p, search_policy fuel s req a mode_end = Ret p /\ place p.
Proof.
  induction g2 as [|pg2 g2 IH]; intros g1 gs1 gs2 a pg fuel me Ht Egs Hm Hk Hf Hme; (destruct fuel as [|fuel]; [lia|]);
    destruct (policy_end_after gs1 g1 (a :: pg) _ gs2 a pg Egs eq_refl) as [Hl Ha];
    destruct (group_keys _ _ _ Egs) as (ks & Hks & _);
    pose proof (head_key _ _ a pg (key_of s req) Hks ltac:(apply elem_of_app; right; by left)) as Hh;
    unfold key_of in Hh at 1 2; rewrite Ht in Hh;
    cbn [search_policy]; (destruct (Z.eqb_spec (bits (l_inodebits s a)) (bits (l_inodebits s req))) as [E|E];
      [eexists; split; [done|]; eapply place_policy; [exact Egs|done|by apply Hh|done]|]).
  - rewrite concat_app in Hme. cbn in Hme. rewrite app_nil_r in Hme. apply last_app_some in Hme; [|done].
    assert (me = list_prev (sl_policy s) a) as -> by congruence. rewrite Z.eqb_refl. eexists. split; [done|].
    eapply place_mode; [exact Egs| |done|].
    + rewrite concat_app. cbn. by rewrite app_nil_r, last_app, Hme.
    + apply Forall_app. split; [done|]. apply Forall_singleton. by intros H%Hh.
  - destruct (group_nonempty gs1 _ gs2 pg2 Egs) as (b & pg2' & ->); [apply elem_of_app; right; right; by left|].
    assert (Eg : g1 ++ (a :: pg) :: (b :: pg2') :: g2 = (g1 ++ [a :: pg]) ++ (b :: pg2') :: g2) by (by rewrite <-app_assoc).
    rewrite (proj2 (Z.eqb_neq _ _)) by (by eapply policy_end_inside). rewrite Ha. cbn [mbind run_bind concat app].
    cbn [length] in Hf. rewrite Eg in *.
    apply (IH (g1 ++ [a :: pg]) gs1 gs2 b pg2'); try done; [|lia].
    apply Forall_app. split; [done|]. apply Forall_singleton. by intros H%Hh.
Qed.

Lemma concat_length (g : list (list Z)) : Forall (fun pg => pg <> []) g -> (length g <= length (concat g))%nat.
Proof.
  induction 1 as [|pg g Hpg _ IH]; cbn; [lia|]. rewrite length_app. destruct pg; [done|]. cbn. lia.
Qed.

Lemma group_mode_head gs1 g gs2 a pg g' m :
  gs = gs1 ++ g :: gs2 -> g = (a :: pg) :: g' -> (mode_of s a = m <-> group_mode s g m).
Proof.
  intros Egs Eg. destruct (sh_modes _ _ Hsh) as (ms & Hms & _). rewrite Egs in Hms.
  apply Forall2_app_inv_l in Hms as (ms1 & ms2 & _ & Hms & _). apply Forall2_cons_inv_l in Hms as (m0 & ms3 & Hm0 & _).
  subst g. pose proof Hm0 as [Ha _]%Forall_cons. split; [by intros <-; rewrite Ha|by intros [? _]%Forall_cons].
Qed.

Lemma search_mode_spec gs2 : forall gs1 fuel,
  gs = gs1 ++ gs2 -> Forall (fun g => ~ group_mode s g (mode_of s req)) gs1 -> (length (flat gs2) <= fuel)%nat ->
  exists p, search_mode fuel s req (flat gs2) = Ret p /\ place p.
Proof.
  induction gs2 as [|g gs2 IH]; intros gs1 fuel Egs Hno Hf.
  { rewrite app_nil_r in Egs. subst gs1. eexists. split; [by destruct fuel|]. rewrite (sh_granted _ _ Hsh). by apply place_end. }
  pose proof (sh_groups _ _ Hsh) as Hg. rewrite Egs in Hg. apply Forall_app in Hg as [_ Hg]. apply Forall_cons in Hg as [Hg _].
  destruct (group_head s g Hg) as (a & pg & g' & Eg). destruct (mode_end_after gs1 g gs2 a pg g' Egs Eg) as [Hl Ha].
  assert (Hflat : flat (g :: gs2) = a :: pg ++ concat g' ++ flat gs2) by (rewrite flat_cons, Eg; cbn; by rewrite <-app_assoc).
  destruct (Hknown a) as [la Hla]; [rewrite Egs, flat_app, Hflat; apply elem_of_app; right; by left|].
  pose proof (group_mode_head gs1 g gs2 a pg g' (mode_of s req) Egs Eg) as Hh.
  assert (Hma : mode_of s a = l_req_mode la) by (unfold mode_of; by rewrite Hla).
  assert (Hmr : mode_of s req = l_req_mode rl) by (unfold mode_of; by rewrite Hreq).
  destruct fuel as [|fuel]; [rewrite Hflat in Hf; cbn in Hf; lia|]. rewrite Hflat. cbn [search_mode].
  unfold sl_get, get_lock. rewrite Hla. cbn [mbind run_bind]. rewrite Hreq. cbn [mbind run_bind].
  destruct (Z.eqb_spec (l_req_mode la) (l_req_mode rl)) as [E|E]; cbn [negb].
  - assert (Hgm : group_mode s g (mode_of s req)) by (apply Hh; congruence). destruct (sl_type_of s) eqn:Ht.
    + eexists. split; [done|]. eapply place_mode; [exact Egs|done|done|]. apply Forall_forall. intros pg0 Hin Hk.
      destruct (group_nonempty gs1 g gs2 pg0 Egs Hin) as (b & pg1 & ->). apply Forall_cons in Hk as [Hk _].
      unfold key_of in Hk. rewrite Ht in Hk. subst b. apply Hnew. rewrite Egs, flat_app, flat_cons.
      apply elem_of_app. right. apply elem_of_app. left. apply list_elem_of_In, in_concat.
      exists (req :: pg1). split; [by apply list_elem_of_In|by left].
    + rewrite Eg in *. apply (search_policy_spec g' [] gs1 gs2 a pg); try done.
      rewrite flat_cons, length_app in Hf. cbn in Hf. rewrite length_app in Hf.
      enough (length g' <= length (concat g'))%nat by lia. apply concat_length.
      apply Forall_forall. intros pg0 Hin ->. destruct (group_nonempty gs1 _ gs2 [] Egs) as (? & ? & ?); [by right|done].
  - rewrite Ha. cbn [mbind run_bind]. apply (IH (gs1 ++ [g])); [by rewrite <-app_assoc| |].
    + apply Forall_app. split; [done|]. apply Forall_singleton. intros H%Hh. congruence.
    + rewrite Hflat in Hf. cbn in Hf. rewrite !length_app in Hf. lia.
Qed.

Lemma search_spec : exists p, search_granted_lock s req = Ret p /\ place p.
Proof.
  unfold search_granted_lock. rewrite (sh_granted _ _ Hsh). by apply (search_mode_spec gs []).
Qed.
End Search.

(** ** Changes of the lists *)

(** Where a group is not touched. *)
Definition untouched s s' (i : Z) : Prop :=
  mode_of s' i = mode_of s i /\ key_of s' i = key_of s i
  /\ (list_next (sl_mode s') i = list_next (sl_mode s) i /\ list_prev (sl_mode s') i = list_prev (sl_mode s) i)
  /\ (list_next (sl_policy s') i = list_next (sl_policy s) i /\ list_prev (sl_policy s') i = list_prev (sl_policy s) i).

Lemma elem_of_concat (g : list (list Z)) pg i : pg ∈ g -> i ∈ pg -> i ∈ concat g.
Proof. intros Hp Hi. apply list_elem_of_In, in_concat. exists pg. split; by apply list_elem_of_In. Qed.

Lemma elem_of_concat_inv (g : list (list Z)) i : i ∈ concat g -> exists pg, pg ∈ g /\ i ∈ pg.
Proof.
  intros Hi%list_elem_of_In. apply in_concat in Hi as (pg & Hp & Hi). exists pg. split; by apply list_elem_of_In.
Qed.

Lemma elem_of_flat gs g i : g ∈ gs -> i ∈ concat g -> i ∈ flat gs.
Proof.
  intros Hg Hi. apply list_elem_of_In, in_concat. exists (concat g). split; [|by apply list_elem_of_In].
  apply in_map. by apply list_elem_of_In.
Qed.

Lemma group_untouched s s' g :
  (forall i, i ∈ concat g -> untouched s s' i) -> mode_group_ok s g -> mode_group_ok s' g.
Proof.
  intros Hu (Hr & Hp & ks & Hk & Hnd). split; [|split].
  - eapply ring_frame; [|exact Hr]. intros i Hi. apply (Hu i Hi).
  - rewrite Forall_forall in Hp |- *. intros pg Hpg. eapply ring_frame; [|by apply Hp]. intros i Hi.
    by apply (Hu i), (elem_of_concat g pg).
  - exists ks. split; [|done]. apply Forall2_same_length_lookup. pose proof (Forall2_length _ _ _ Hk) as Hlen. split; [done|].
    intros n pg k Hn Hkn. pose proof (Forall2_lookup_lr _ _ _ _ _ _ Hk Hn Hkn) as Hg. unfold group_key in *.
    rewrite Forall_forall in Hg |- *. intros i Hi. rewrite (proj1 (proj2 (Hu i (elem_of_concat g pg i ltac:(by eapply list_elem_of_lookup_2) Hi)))).
    by apply Hg.
Qed.

Lemma group_mode_untouched s s' g m :
  (forall i, i ∈ concat g -> untouched s s' i) -> group_mode s g m -> group_mode s' g m.
Proof.
  unfold group_mode. intros Hu. rewrite !Forall_forall. intros Hg i Hi. rewrite (proj1 (Hu i Hi)). by apply Hg.
Qed.

Lemma modes_untouched s s' gs ms :
  (forall i, i ∈ flat gs -> untouched s s' i) -> Forall2 (group_mode s) gs ms -> Forall2 (group_mode s') gs ms.
Proof.
  intros Hu. induction 1 as [|g m gs ms Hg _ IH]; [constructor|]. constructor.
  - eapply group_mode_untouched; [|exact Hg]. intros i Hi. apply Hu, elem_of_app. by left.
  - apply IH. intros i Hi. apply Hu, elem_of_app. by right.
Qed.

Definition singles s gs : Prop := forall i, i ∉ flat gs ->
  (list_next (sl_mode s) i = i /\ list_prev (sl_mode s) i = i)
  /\ (list_next (sl_policy s) i = i /\ list_prev (sl_policy s) i = i).

Lemma shape_replace s s' gs1 g gs2 g' :
  shape s (gs1 ++ g :: gs2) -> lr_granted (sl_res s') = flat (gs1 ++ g' :: gs2) -> NoDup (flat (gs1 ++ g' :: gs2)) ->
  (forall i, i ∈ flat gs1 ++ flat gs2 -> untouched s s' i) -> mode_group_ok s' g' ->
  (forall m, group_mode s g m -> group_mode s' g' m) -> singles s' (gs1 ++ g' :: gs2) ->
  shape s' (gs1 ++ g' :: gs2).
Proof.
  intros [_ _ Hg (ms & Hms & Hnd) _] Hgr Hn Hu Hok Hm Hs. split; try done.
  - apply Forall_app in Hg as [Hg1 Hg2]. apply Forall_cons in Hg2 as [_ Hg2]. apply Forall_app. split; [|constructor; [done|]].
    + rewrite Forall_forall in Hg1 |- *. intros x Hx. apply (group_untouched s); [|by apply Hg1]. intros i Hi.
      apply Hu, elem_of_app. left. by eapply elem_of_flat.
    + rewrite Forall_forall in Hg2 |- *. intros x Hx. apply (group_untouched s); [|by apply Hg2]. intros i Hi.
      apply Hu, elem_of_app. right. by eapply elem_of_flat.
  - exists ms. split; [|done]. apply Forall2_app_inv_l in Hms as (ms1 & ms2 & Hm1 & Hm2 & ->).
    apply Forall2_cons_inv_l in Hm2 as (m & ms3 & Hm0 & Hm2 & ->). apply Forall2_app; [|constructor; [by apply Hm|]].
    + eapply modes_untouched; [|exact Hm1]. intros i Hi. apply Hu, elem_of_app. by left.
    + eapply modes_untouched; [|exact Hm2]. intros i Hi. apply Hu, elem_of_app. by right.
Qed.

(** The resource with other lists. *)
Definition relinked s granted mode policy : sl_resource :=
  with_links (with_res s (set_granted (sl_res s) granted)) mode policy.

Lemma relinked_data s granted mode policy i :
  mode_of (relinked s granted mode policy) i = mode_of s i /\ key_of (relinked s granted mode policy) i = key_of s i.
Proof. done. Qed.

(** An entry outside a ring is not touched by adding to the ring. *)
Lemma add_outside r new h l i :
  ring r l -> h ∈ l -> (i ∉ l) -> i <> new ->
  list_next (list_add r new h) i = list_next r i /\ list_prev (list_add r new h) i = list_prev r i.
Proof.
  intros Hr Hh Hi Hn. pose proof (ring_next r l h Hr Hh). rewrite next_add, prev_add, !decide_False; [done|by intros ->..].
Qed.

Lemma key_group_new s g ks req :
  Forall2 (group_key s) g ks -> Forall (fun pg => ~ group_key s pg (key_of s req)) g -> key_of s req ∉ ks.
Proof.
  intros Hf Hn Hin. apply list_elem_of_lookup in Hin as [n Hk]. destruct (Forall2_lookup_r _ _ _ _ _ Hf Hk) as (pg & Hpg & Hgk).
  rewrite Forall_forall in Hn. apply (Hn pg); [by eapply list_elem_of_lookup_2|done].
Qed.

Lemma mode_group_new s gs ms m :
  Forall2 (group_mode s) gs ms -> Forall (fun g => ~ group_mode s g m) gs -> m ∉ ms.
Proof.
  intros Hf Hn Hin. apply list_elem_of_lookup in Hin as [n Hk]. destruct (Forall2_lookup_r _ _ _ _ _ Hf Hk) as (g & Hg & Hgm).
  rewrite Forall_forall in Hn. apply (Hn g); [by eapply list_elem_of_lookup_2|done].
Qed.

Lemma concat_mid (g1 : list (list Z)) pg g2 : concat (g1 ++ pg :: g2) = concat g1 ++ pg ++ concat g2.
Proof. by rewrite concat_app. Qed.

Lemma in_mid_group (g1 g2 : list (list Z)) pg i : i ∈ pg -> i ∈ concat (g1 ++ pg :: g2).
Proof. intros H. apply (elem_of_concat _ pg); [apply elem_of_app; right; by left|done]. Qed.

(** Policy groups of one mode group share nothing. *)
Lemma mid_group_apart (g1 g2 : list (list Z)) pg r i :
  NoDup (concat (g1 ++ pg :: g2)) -> r ∉ concat (g1 ++ pg :: g2) -> i ∈ concat g1 \/ i ∈ concat g2 -> (i ∉ pg) /\ i <> r.
Proof.
  intros Hnd Hr Hi. rewrite concat_mid in Hnd, Hr. apply list.NoDup_app in Hnd as (_ & Hd1 & Hnd).
  apply list.NoDup_app in Hnd as (_ & Hd2 & _). rewrite !not_elem_of_app in Hr. split.
  - intros H. destruct Hi as [Hi|Hi]; [apply (Hd1 i Hi), elem_of_app; by left|by apply (Hd2 i H)].
  - intros ->. tauto.
Qed.

Section Add.
Context s gs (req : Z).
Hypothesis Hsh : shape s gs.
Hypothesis Hnew : req ∉ flat gs.

Lemma add_at_end :
  Forall (fun g => ~ group_mode s g (mode_of s req)) gs ->
  shape (relinked s (flat gs ++ [req]) (sl_mode s) (sl_policy s)) (gs ++ [[[req]]]).
Proof.
  intros Hn. destruct Hsh as [Hgr Hnd Hg (ms & Hms & Hmsd) Hs]. destruct (Hs req Hnew) as [[Hs1 Hs2] [Hs3 Hs4]].
  assert (Hu : forall i, untouched s (relinked s (flat gs ++ [req]) (sl_mode s) (sl_policy s)) i) by done.
  assert (Ef : flat (gs ++ [[[req]]]) = flat gs ++ [req]) by (by rewrite flat_app). split; rewrite ?Ef.
  - done.
  - apply list.NoDup_app. split; [done|]. split; [|apply NoDup_singleton]. intros x Hx Hx1%list_elem_of_singleton. by subst.
  - apply Forall_app. split; [done|]. apply Forall_singleton. split; [by apply ring_single|]. split.
    + apply Forall_singleton. by apply ring_single.
    + exists [key_of s req]. split; [|apply NoDup_singleton]. constructor; [|constructor]. by apply Forall_singleton.
  - exists (ms ++ [mode_of s req]). split.
    + apply Forall2_app; [done|]. constructor; [|constructor]. by apply Forall_singleton.
    + apply list.NoDup_app. split; [done|]. split; [|apply NoDup_singleton]. intros x Hx Hx1%list_elem_of_singleton. subst x.
      by apply (mode_group_new s gs ms (mode_of s req)).
  - intros i Hi. apply Hs. intros Hin. apply Hi, elem_of_app. by left.
Qed.

Lemma flat_group gs1 g gs2 i : i ∈ concat g -> i ∈ flat (gs1 ++ g :: gs2).
Proof. intros Hi. rewrite flat_app, flat_cons. apply elem_of_app. right. apply elem_of_app. by left. Qed.

Lemma flat_disjoint gs1 g gs2 i : gs = gs1 ++ g :: gs2 -> i ∈ flat gs1 ++ flat gs2 -> i ∉ concat g.
Proof.
  intros E Hi Hc. pose proof (sh_nodup _ _ Hsh) as Hnd. rewrite E, flat_app, flat_cons in Hnd.
  apply list.NoDup_app in Hnd as (_ & Hd1 & Hnd). apply list.NoDup_app in Hnd as (_ & Hd2 & _).
  apply elem_of_app in Hi as [Hi|Hi]; [apply (Hd1 i Hi), elem_of_app; by left|by apply (Hd2 i)].
Qed.

Lemma flat_outer gs1 g gs2 i : gs = gs1 ++ g :: gs2 -> i ∈ flat gs1 ++ flat gs2 -> i ∈ flat gs.
Proof.
  intros -> Hi. rewrite flat_app, flat_cons. apply elem_of_app in Hi as [Hi|Hi]; apply elem_of_app; [by left|right].
  apply elem_of_app. by right.
Qed.

Lemma flat_insert gs1 g gs2 g' : gs = gs1 ++ g :: gs2 -> concat g' ≡ₚ req :: concat g ->
  flat (gs1 ++ g' :: gs2) ≡ₚ req :: flat gs.
Proof. intros -> Hp. rewrite !flat_app, !flat_cons, Hp. cbn. by rewrite <-Permutation_middle. Qed.

Lemma add_in_mode gs1 g gs2 x :
  gs = gs1 ++ g :: gs2 -> last (concat g) = Some x -> group_mode s g (mode_of s req) ->
  Forall (fun pg => ~ group_key s pg (key_of s req)) g ->
  let gs' := gs1 ++ (g ++ [[req]]) :: gs2 in
  shape (relinked s (flat gs') (list_add (sl_mode s) req x) (sl_policy s)) gs' /\ flat gs' ≡ₚ req :: flat gs.
Proof.
  intros Egs Hl Hgm Hnk gs'. set (s' := relinked _ _ _ _).
  assert (Ec : concat (g ++ [[req]]) = concat g ++ [req]) by (by rewrite concat_app).
  assert (Hp : flat gs' ≡ₚ req :: flat gs) by (eapply flat_insert; [exact Egs|]; rewrite Ec, Permutation_app_comm; done).
  assert (Hx : x ∈ concat g) by (by apply last_Some_elem_of).
  pose proof (sh_groups _ _ Hsh) as Hg. rewrite Egs in Hg. apply Forall_app in Hg as [_ Hg]. apply Forall_cons in Hg as [(Hr & Hpr & ks & Hks & Hnd) _].
  assert (Hreq : req ∉ concat g) by (intros H; apply Hnew; rewrite Egs; by apply flat_group).
  split; [|done]. subst gs'. apply (shape_replace s s' gs1 g gs2); try done.
  - by rewrite <-Egs.
  - rewrite Hp. apply NoDup_cons. split; [done|apply (sh_nodup _ _ Hsh)].
  - intros i Hi. split; [done|]. split; [done|]. split; [|done]. apply (add_outside _ _ _ (concat g)); try done; [by eapply flat_disjoint|].
    intros ->. by apply Hnew, (flat_outer gs1 g gs2).
  - split; [|split].
    + rewrite Ec. apply last_Some in Hl as (l & El). rewrite El in Hr, Hreq |- *. rewrite <-app_assoc. cbn.
      apply (ring_add (sl_mode s)); [done| |done]. rewrite <-El. pose proof (sh_nodup _ _ Hsh) as Hf.
      rewrite Egs, flat_app, flat_cons in Hf. apply list.NoDup_app in Hf as (_ & _ & Hf). by apply list.NoDup_app in Hf as (Hf & _).
    + apply Forall_app. split; [done|]. apply Forall_singleton. destruct (sh_single _ _ Hsh req Hnew) as [_ [? ?]]. by apply ring_single.
    + exists (ks ++ [key_of s req]). split.
      * apply Forall2_app; [done|]. constructor; [|constructor]. by apply Forall_singleton.
      * apply list.NoDup_app. split; [done|]. split; [|apply NoDup_singleton]. intros k Hk Hk1%list_elem_of_singleton. subst k.
        by apply (key_group_new s g ks req).
  - intros m Hm. unfold group_mode. rewrite Ec. apply Forall_app. split; [done|]. apply Forall_singleton.
    unfold group_mode in Hm, Hgm. rewrite Forall_forall in Hm, Hgm. by rewrite <-(Hm x Hx), (Hgm x Hx).
  - intros i Hi. rewrite Hp, not_elem_of_cons in Hi. destruct Hi as [Hir Hif]. destruct (sh_single _ _ Hsh i Hif) as [[H1 H2] H3].
    split; [|done]. cbn [sl_mode relinked with_links s'].
    destruct (add_outside (sl_mode s) req x (concat g) i) as [-> ->]; try done. intros Hc. apply Hif. rewrite Egs. by apply flat_group.
Qed.

Lemma nodup_group gs1 g gs2 : gs = gs1 ++ g :: gs2 -> NoDup (concat g).
Proof.
  intros Egs. pose proof (sh_nodup _ _ Hsh) as Hf. rewrite Egs, flat_app, flat_cons in Hf.
  apply list.NoDup_app in Hf as (_ & _ & Hf). by apply list.NoDup_app in Hf as (Hf & _).
Qed.

Lemma add_in_policy gs1 g1 pg g2 gs2 x :
  gs = gs1 ++ (g1 ++ pg :: g2) :: gs2 -> last pg = Some x ->
  group_key s pg (key_of s req) -> group_mode s (g1 ++ pg :: g2) (mode_of s req) ->
  let gs' := gs1 ++ (g1 ++ (pg ++ [req]) :: g2) :: gs2 in
  shape (relinked s (flat gs') (list_add (sl_mode s) req x) (list_add (sl_policy s) req x)) gs'
  /\ flat gs' ≡ₚ req :: flat gs.
Proof.
  intros Egs Hl Hgk Hgm gs'. set (s' := relinked _ _ _ _). set (g := g1 ++ pg :: g2) in *.
  assert (Hp : flat gs' ≡ₚ req :: flat gs).
  { eapply flat_insert; [exact Egs|]. unfold g. rewrite !concat_mid. rewrite <-app_assoc. cbn. by rewrite <-!Permutation_middle. }
  assert (Hxp : x ∈ pg) by (by apply last_Some_elem_of).
  assert (Hx : x ∈ concat g) by (by apply in_mid_group).
  pose proof (sh_groups _ _ Hsh) as Hg. rewrite Egs in Hg. apply Forall_app in Hg as [_ Hg]. apply Forall_cons in Hg as [(Hr & Hpr & ks & Hks & Hnd) _].
  assert (Hreq : req ∉ concat g) by (intros H; apply Hnew; rewrite Egs; by apply flat_group).
  pose proof (nodup_group gs1 g gs2 Egs) as Hndg.
  pose proof Hpr as [Hpr1 [Hprp Hpr2]%Forall_cons]%Forall_app.
  assert (Hout : forall i, i ∉ flat gs -> i <> req -> (i ∉ concat g) /\ (i ∉ pg)).
  { intros i Hi _. assert (Hic : i ∉ concat g) by (intros H; apply Hi; rewrite Egs; by apply flat_group). split; [done|].
    intros H. apply Hic. by apply in_mid_group. }
  assert (Hin : forall i, i ∈ concat g1 \/ i ∈ concat g2 -> (i ∉ pg) /\ i <> req).
  { intros i. by apply mid_group_apart. }
  split; [|done]. subst gs'. apply (shape_replace s s' gs1 g gs2); try done.
  - by rewrite <-Egs.
  - rewrite Hp. apply NoDup_cons. split; [done|apply (sh_nodup _ _ Hsh)].
  - intros i Hi. assert (i <> req) by (intros ->; by apply Hnew, (flat_outer gs1 g gs2)).
    pose proof (flat_disjoint gs1 g gs2 i Egs Hi) as Hig.
    split; [done|]. split; [done|]. split; [by apply (add_outside _ _ _ (concat g))|]. apply (add_outside _ _ _ pg); try done.
    intros H2. apply Hig. by apply in_mid_group.
  - apply last_Some in Hl as (l & El). split; [|split].
    + unfold g in Hr, Hreq, Hndg. rewrite concat_mid, El, <-!app_assoc, (app_assoc (concat g1)) in Hr, Hreq, Hndg.
      rewrite concat_mid, El, <-!app_assoc, (app_assoc (concat g1)). by apply (ring_add (sl_mode s)).
    + apply Forall_app. split; [|constructor].
      * rewrite Forall_forall in Hpr1 |- *. intros q Hq. apply (ring_add_other _ _ _ pg); [done|by apply Hpr1|done|].
        intros z Hz. apply Hin. left. by apply (elem_of_concat _ q).
      * rewrite El in Hprp |- *. rewrite <-app_assoc. cbn. apply ring_add; [done| |].
        -- unfold g in Hndg. rewrite concat_mid, El in Hndg. apply list.NoDup_app in Hndg as (_ & _ & Hndg).
           by apply list.NoDup_app in Hndg as (Hndg & _).
        -- rewrite <-El. intros H2. apply Hreq. by apply in_mid_group.
      * rewrite Forall_forall in Hpr2 |- *. intros q Hq. apply (ring_add_other _ _ _ pg); [done|by apply Hpr2|done|].
        intros z Hz. apply Hin. right. by apply (elem_of_concat _ q).
    + exists ks. split; [|done]. apply Forall2_app_inv_l in Hks as (ks1 & ks2 & Hk1 & Hk2 & ->).
      apply Forall2_cons_inv_l in Hk2 as (k & ks3 & Hk0 & Hk2 & ->). apply Forall2_app; [done|]. constructor; [|done].
      apply Forall_app. split; [done|]. apply Forall_singleton. unfold group_key in *. rewrite Forall_forall in Hk0, Hgk.
      change (key_of s req = k). by rewrite <-(Hk0 x Hxp), (Hgk x Hxp).
  - intros m Hm. unfold group_mode in *. unfold g in Hm, Hgm, Hx. rewrite Forall_forall in Hm, Hgm |- *.
    intros i Hi. rewrite concat_mid in Hi. rewrite !elem_of_app, list_elem_of_singleton in Hi.
    destruct Hi as [Hi|[[Hi| ->]|Hi]]; [| |change (mode_of s req = m); by rewrite <-(Hm x Hx), (Hgm x Hx)|];
      apply Hm; rewrite concat_mid, !elem_of_app; tauto.
  - intros i Hi. rewrite Hp, not_elem_of_cons in Hi. destruct Hi as [Hir Hif].
    destruct (sh_single _ _ Hsh i Hif) as [[H1 H2] [H3 H4]], (Hout i Hif Hir) as [Ho1 Ho2].
    cbn [sl_mode sl_policy relinked with_links s'].
    destruct (add_outside (sl_mode s) req x (concat g) i) as [-> ->]; try done.
    destruct (add_outside (sl_policy s) req x pg i) as [-> ->]; done.
Qed.
End Add.

(** [ldlm_grant_lock_with_skiplist] puts the lock into its group. *)
Lemma grant_skiplist_spec s gs i l :
  shape s gs -> lr_locks (sl_res s) !! i = Some l -> (forall j, j ∈ flat gs -> is_Some (lr_locks (sl_res s) !! j)) ->
  (i ∉ flat gs) -> (i ∉ lr_waiting (sl_res s)) -> ldlm_is_destroyed l = false -> l_req_mode l = l_granted_mode l ->
  exists gs' mode policy, let s' := relinked s (flat gs') mode policy in
    ldlm_grant_lock_with_skiplist s i = Ret s' /\ shape s' gs' /\ flat gs' ≡ₚ i :: flat gs.
Proof.
  intros Hsh Hl Hk Hnew Hw Hd Hm. destruct (search_spec s gs i l Hsh Hl Hk Hnew) as (p & Hp & Hpl).
  destruct (sh_single _ _ Hsh i Hnew) as [[Hs1 _] [Hs2 _]].
  unfold ldlm_grant_lock_with_skiplist, sl_get, get_lock. rewrite Hl. cbn [mbind run_bind]. rewrite Hm, Z.eqb_refl. cbn [LASSERT].
  rewrite Hp. cbn [mbind run_bind]. unfold ldlm_granted_list_add_lock, sl_get, get_lock. rewrite Hl. cbn [mbind run_bind]. rewrite Hd.
  assert (Hon : on_resource (sl_res s) i = false) by (apply on_resource_false; rewrite (sh_granted _ _ Hsh); done).
  rewrite Hon. unfold list_unlinked. rewrite Hs1, Hs2, Z.eqb_refl. cbn [negb LASSERT]. rewrite (sh_granted _ _ Hsh).
  pose proof (sh_nodup _ _ Hsh) as Hnd. destruct Hpl as [gs1 g1 pg g2 gs2 x Egs Hx Hgk Hgm|gs1 g gs2 x Egs Hx Hgm Hnk|Hno];
    cbn [ip_res_link ip_mode_link ip_policy_link].
  - destruct (add_in_policy s gs i Hsh Hnew gs1 g1 pg g2 gs2 x Egs Hx Hgk Hgm) as [Hsh' Hp'].
    eexists _, _, _. split; [|by split]. unfold relinked. do 3 f_equal. f_equal.
    rewrite Egs, !flat_app, !flat_cons, !concat_mid, <-!app_assoc in *. rewrite (app_assoc (flat gs1)) in *.
    rewrite (add_after_last _ pg _ x i Hnd Hx). by rewrite <-!app_assoc.
  - destruct (add_in_mode s gs i Hsh Hnew gs1 g gs2 x Egs Hx Hgm Hnk) as [Hsh' Hp'].
    eexists _, _, _. split; [|by split]. unfold relinked. do 3 f_equal. f_equal.
    rewrite Egs, !flat_app, !flat_cons in *. rewrite (add_after_last _ (concat g) _ x i Hnd Hx). by rewrite concat_app.
  - pose proof (add_at_end s gs i Hsh Hnew Hno) as Hsh'. eexists (gs ++ [[[i]]]), _, _.
    assert (Ef : flat (gs ++ [[[i]]]) = flat gs ++ [i]) by (by rewrite flat_app). rewrite Ef.
    split; [|split; [done|by rewrite Permutation_app_comm]]. unfold relinked. do 3 f_equal. f_equal.
    destruct (last (flat gs)) as [x|] eqn:E; [|by apply last_None in E as ->].
    pose proof (add_after_last [] (flat gs) [] x i) as Ha. cbn in Ha. rewrite !app_nil_r in Ha. by apply Ha.
Qed.

(** ** Taking locks out *)

Lemma del_outside r e l i :
  ring r l -> e ∈ l -> (i ∉ l) ->
  list_next (list_del_init r e) i = list_next r i /\ list_prev (list_del_init r e) i = list_prev r i.
Proof.
  intros Hr He Hi. pose proof (ring_next r l e Hr He). pose proof (ring_prev r l e Hr He).
  rewrite next_del, prev_del, !decide_False; [done|by intros ->..].
Qed.

(** A group less. *)
Lemma shape_remove s s' gs1 g gs2 :
  shape s (gs1 ++ g :: gs2) -> lr_granted (sl_res s') = flat (gs1 ++ gs2) ->
  (forall i, i ∈ flat gs1 ++ flat gs2 -> untouched s s' i) -> singles s' (gs1 ++ gs2) -> shape s' (gs1 ++ gs2).
Proof.
  intros [_ Hn Hg (ms & Hms & Hnd) _] Hgr Hu Hs. split; try done.
  - rewrite flat_app, flat_cons in Hn. rewrite flat_app. apply list.NoDup_app in Hn as (H1 & H2 & H3).
    apply list.NoDup_app in H3 as (_ & _ & H3). apply list.NoDup_app. split_and!; [done| |done].
    intros x Hx Hx2. apply (H2 x Hx), elem_of_app. by right.
  - apply Forall_app in Hg as [Hg1 Hg2]. apply Forall_cons in Hg2 as [_ Hg2]. pose proof (Forall_app_2 _ _ _ Hg1 Hg2) as Hg.
    rewrite Forall_forall in Hg |- *. intros x Hx. apply (group_untouched s); [|by apply Hg]. intros i Hi.
    apply Hu. rewrite <-flat_app. by eapply elem_of_flat.
  - apply Forall2_app_inv_l in Hms as (ms1 & ms2 & Hm1 & Hm2 & ->).
    apply Forall2_cons_inv_l in Hm2 as (m & ms3 & _ & Hm2 & ->). exists (ms1 ++ ms3). split.
    + eapply modes_untouched; [|by apply Forall2_app]. intros i Hi. apply Hu. by rewrite <-flat_app.
    + eapply sublist_NoDup; [exact Hnd|]. apply sublist_app; [done|]. by apply sublist_cons.
Qed.

Lemma filter_ne_split (X Y : list Z) i :
  NoDup (X ++ i :: Y) -> base.filter (fun j => j <> i) (X ++ i :: Y) = X ++ Y.
Proof.
  intros (_ & Hd & Hn)%list.NoDup_app. apply NoDup_cons in Hn as [Hy _].
  rewrite filter_app, filter_cons_False by tauto. rewrite !filter_ne_id; [done|done|]. intros Hx. apply (Hd i Hx). by left.
Qed.

(** A policy group without the lock: gone when it was alone. *)
Definition without (p1 p2 : list Z) : list (list Z) := match p1 ++ p2 with [] => [] | pg => [pg] end.

Lemma concat_without p1 p2 : concat (without p1 p2) = p1 ++ p2.
Proof. unfold without. destruct (p1 ++ p2) eqn:E; cbn; by rewrite ?app_nil_r. Qed.

Section Remove.
Context s gs (i : Z).
Hypothesis Hsh : shape s gs.

Lemma unlink_free : (i ∉ flat gs) -> shape (sl_unlink_lock s i) gs.
Proof.
  intros Hi. destruct (sh_single _ _ Hsh i Hi) as [[H1 H2] [H3 H4]].
  assert (Hl : forall r x, list_next r i = i -> list_prev r i = i ->
    list_next (list_del_init r i) x = list_next r x /\ list_prev (list_del_init r i) x = list_prev r x).
  { intros r x E1 E2. rewrite next_del, prev_del, E1, E2. by repeat case_decide; subst. }
  assert (Hu : forall x, untouched s (sl_unlink_lock s i) x) by (intros x; split_and!; try done; by apply Hl).
  destruct Hsh as [Hgr Hnd Hg (ms & Hms & Hmsd) Hs]. split; try done.
  - cbn. rewrite Hgr. by apply filter_ne_id.
  - eapply Forall_impl; [exact Hg|]. intros g. by apply group_untouched.
  - exists ms. split; [|done]. by eapply modes_untouched.
  - intros x Hx. destruct (Hs x Hx) as [[? ?] [? ?]]. destruct (Hu x) as (_ & _ & [-> ->] & [-> ->]). done.
Qed.

Context (gs1 : groups) (g1 : list (list Z)) (p1 p2 : list Z) (g2 : list (list Z)) (gs2 : groups).
Let g := g1 ++ (p1 ++ i :: p2) :: g2.
Hypothesis Egs : gs = gs1 ++ g :: gs2.
Let g' := g1 ++ without p1 p2 ++ g2.
Let s' := sl_unlink_lock s i.

Lemma removed_group_ok : mode_group_ok s g -> concat g' <> [] -> mode_group_ok s' g'.
Proof.
  intros (Hr & Hpr & ks & Hks & Hnd) Hne. pose proof (nodup_group s gs Hsh gs1 g gs2 Egs) as Hndg.
  assert (Ec : concat g' = (concat g1 ++ p1) ++ (p2 ++ concat g2)).
  { unfold g'. by rewrite !concat_app, concat_without, <-!app_assoc. }
  assert (Eg : concat g = (concat g1 ++ p1) ++ i :: (p2 ++ concat g2)).
  { unfold g. by rewrite concat_mid, <-!app_assoc. }
  pose proof Hpr as [Hpr1 [Hprp Hpr2]%Forall_cons]%Forall_app.
  assert (Hip : i ∈ p1 ++ i :: p2) by (apply elem_of_app; right; by left).
  assert (Hin : forall x, x ∈ concat g1 \/ x ∈ concat g2 -> x ∉ p1 ++ i :: p2).
  { unfold g in Hndg. rewrite concat_mid in Hndg. apply list.NoDup_app in Hndg as (_ & Hd1 & Hn2).
    apply list.NoDup_app in Hn2 as (_ & Hd2 & _). intros x [Hx|Hx] H.
    - apply (Hd1 x Hx), elem_of_app. by left.
    - by apply (Hd2 x H). }
  split; [|split].
  - rewrite Ec. rewrite Ec in Hne. apply ring_del; [by rewrite <-Eg|by rewrite <-Eg|done].
  - unfold g'. rewrite !Forall_app. split_and!.
    + rewrite Forall_forall in Hpr1 |- *. intros q Hq. apply (ring_del_other _ _ (p1 ++ i :: p2)); [done|by apply Hpr1|done|].
      intros z Hz. apply Hin. left. by apply (elem_of_concat _ q).
    + unfold without. destruct (p1 ++ p2) as [|a q] eqn:E; [constructor|]. apply Forall_singleton. rewrite <-E.
      apply ring_del; [done| |by rewrite E]. unfold g in Hndg. rewrite concat_mid in Hndg.
      apply list.NoDup_app in Hndg as (_ & _ & Hn2). by apply list.NoDup_app in Hn2 as (Hn2 & _).
    + rewrite Forall_forall in Hpr2 |- *. intros q Hq. apply (ring_del_other _ _ (p1 ++ i :: p2)); [done|by apply Hpr2|done|].
      intros z Hz. apply Hin. right. by apply (elem_of_concat _ q).
  - unfold g in Hks. apply Forall2_app_inv_l in Hks as (ks1 & ks2 & Hk1 & Hk2 & ->).
    apply Forall2_cons_inv_l in Hk2 as (k & ks3 & Hk0 & Hk2 & ->). unfold g', without.
    destruct (p1 ++ p2) as [|a q] eqn:E.
    + exists (ks1 ++ ks3). split; [by apply Forall2_app|]. eapply sublist_NoDup; [exact Hnd|].
      apply sublist_app; [done|]. by apply sublist_cons.
    + exists (ks1 ++ k :: ks3). split; [|done]. apply Forall2_app; [done|]. constructor; [|done]. rewrite <-E.
      unfold group_key in *. rewrite Forall_app in Hk0 |- *. rewrite Forall_cons in Hk0. tauto.
Qed.

Lemma unlink_member :
  exists gs', shape s' gs' /\ flat gs' = base.filter (fun j => j <> i) (flat gs).
Proof.
  pose proof (sh_groups _ _ Hsh) as Hg. rewrite Egs in Hg. apply Forall_app in Hg as [_ Hg]. apply Forall_cons in Hg as [Hg _].
  pose proof Hg as (Hr & Hpr & _). assert (Hipg : i ∈ p1 ++ i :: p2) by (apply elem_of_app; right; by left).
  assert (Hpg : (p1 ++ i :: p2) ∈ g) by (apply elem_of_app; right; by left).
  assert (Hig : i ∈ concat g) by (by apply (elem_of_concat g (p1 ++ i :: p2))).
  rewrite Forall_forall in Hpr. specialize (Hpr _ Hpg). pose proof (sh_nodup _ _ Hsh) as Hnd.
  assert (Ec : concat g' = (concat g1 ++ p1) ++ (p2 ++ concat g2)).
  { unfold g'. by rewrite !concat_app, concat_without, <-!app_assoc. }
  assert (Ef : base.filter (fun j => j <> i) (flat gs) = flat gs1 ++ concat g' ++ flat gs2).
  { rewrite Egs, flat_app, flat_cons in Hnd |- *. unfold g in *. rewrite concat_mid, <-!app_assoc in *.
    rewrite !(app_assoc (flat gs1)), (app_assoc (flat gs1 ++ concat g1)) in *. cbn in *. rewrite filter_ne_split by done.
    by rewrite Ec, <-!app_assoc. }
  assert (Hu : forall x, (x ∉ concat g) -> untouched s s' x).
  { intros x Hx. split; [done|]. split; [done|]. split; [by apply (del_outside _ _ (concat g))|].
    apply (del_outside _ _ (p1 ++ i :: p2)); try done. intros H. by apply Hx, (elem_of_concat g (p1 ++ i :: p2)). }
  assert (Hu' : forall x, x ∈ flat gs1 ++ flat gs2 -> untouched s s' x).
  { intros x Hx. by apply Hu, (flat_disjoint s gs Hsh gs1 g gs2). }
  assert (Hs : forall x, x ∉ base.filter (fun j => j <> i) (flat gs) ->
    (list_next (sl_mode s') x = x /\ list_prev (sl_mode s') x = x)
    /\ (list_next (sl_policy s') x = x /\ list_prev (sl_policy s') x = x)).
  { intros x Hx. destruct (decide (x = i)) as [->|Hxi]; [split; apply del_self|].
    assert (Hxf : x ∉ flat gs) by (intros H; apply Hx, list_elem_of_filter; done).
    destruct (sh_single _ _ Hsh x Hxf) as [[? ?] [? ?]].
    destruct (Hu x) as (_ & _ & [-> ->] & [-> ->]); [|done]. intros Hx2. apply Hxf. rewrite Egs. by apply flat_group. }
  assert (Hgr : lr_granted (sl_res s') = base.filter (fun j => j <> i) (flat gs)) by (cbn; by rewrite (sh_granted _ _ Hsh)).
  pose proof Hsh as Hsh1. rewrite Egs in Hsh1. destruct (concat g') as [|a q] eqn:E.
  - exists (gs1 ++ gs2). assert (Ef2 : flat (gs1 ++ gs2) = base.filter (fun j => j <> i) (flat gs)) by (by rewrite flat_app, Ef).
    split; [|done]. apply (shape_remove s s' gs1 g gs2); try done; [by rewrite Ef2|]. intros x Hx. apply Hs. by rewrite <-Ef2.
  - exists (gs1 ++ g' :: gs2).
    assert (Ef2 : flat (gs1 ++ g' :: gs2) = base.filter (fun j => j <> i) (flat gs)) by (by rewrite flat_app, flat_cons, E, Ef).
    split; [|done]. apply (shape_replace s s' gs1 g gs2); try done.
    + by rewrite Ef2.
    + rewrite Ef2. by apply NoDup_filter.
    + apply removed_group_ok; [done|by rewrite E].
    + intros m. unfold group_mode. rewrite !Forall_forall. intros Hm x Hx. change (mode_of s x = m). apply Hm.
      rewrite E, Ec, !elem_of_app in Hx. unfold g. rewrite concat_mid, !elem_of_app, elem_of_cons. tauto.
    + intros x Hx. apply Hs. by rewrite <-Ef2.
Qed.
End Remove.

Lemma unlink_shape s gs i :
  shape s gs -> exists gs', shape (sl_unlink_lock s i) gs' /\ flat gs' = base.filter (fun j => j <> i) (flat gs).
Proof.
  intros Hsh. destruct (decide (i ∈ flat gs)) as [Hi|Hi].
  - unfold flat in Hi. apply elem_of_concat_inv in Hi as (l & Hl & Hi). apply list_elem_of_In, in_map_iff in Hl as (g & <- & Hg%list_elem_of_In).
    apply elem_of_concat_inv in Hi as (pg & Hpg & Hi).
    apply list_elem_of_split in Hg as (gs1 & gs2 & Egs), Hpg as (g1 & g2 & ->), Hi as (p1 & p2 & ->).
    by apply (unlink_member s gs i Hsh gs1 g1 p1 p2 g2 gs2).
  - exists gs. split; [by apply unlink_free|]. by rewrite filter_ne_id.
Qed.
