(* ===== verification/SkipScan.v ===== *)
(** The walks over the skip lists (lustre/ldlm/ldlm_inodebits.c, ldlm_plain.c) do what a
    look at one lock after the other would do. *)

From stdpp Require Import gmap.
From S2P Require Import Prelude IntervalTree LdlmLock LdlmExtent LdlmSafe LdlmServer SkipLock SkipRing SkipShape.

(** ** One lock after the other *)

Section Scan.

(** The lock whose client stands for that of a lock in COS mode: in a walk that takes a
    policy group at once it is the first one of the group. *)
Context (rep : Z -> Z).

(** Modes that do not conflict, whatever the bits. *)
Definition modes_pass (lock rl : ldlm_lock) : bool :=
  ((l_req_mode lock =? LCK_COS) && negb (ldlm_is_cos_incompat rl) && negb (ldlm_is_cos_enabled rl))
  || lockmode_compat (l_req_mode lock) (l_req_mode rl).

Definition scan_lock (s : sl_resource) (req req_bits i : Z) (compat : Z) (wl : option (list Z)) : run compat_step :=
  lock ← sl_get s i;
  rl ← sl_get s req;
  if modes_pass lock rl then Ret (CompatGoes compat s wl)
  else
    let s := filter_try_bits s i req in
    if no_bits s req req_bits then Ret (CompatDone s wl)
    else
      let s := drop_try_bits s i req_bits in
      if negb (Z.land (bits (l_inodebits s i)) req_bits =? 0) && negb (cos_compatible s (rep i) req lock rl) then
        match wl with
        | None => Ret (CompatDone s wl)
        | Some w => rw ← add_bl_ast s i req w; Ret (CompatGoes 0 rw.1 (Some rw.2))
        end
      else Ret (CompatGoes compat s wl).

Fixpoint scan (s : sl_resource) (req req_bits : Z) (q : list Z) (compat : Z) (wl : option (list Z)) : run compat_step :=
  match q with
  | [] => Ret (CompatGoes compat s wl)
  | i :: q' =>
      if i =? req then Ret (CompatGoes compat s wl)
      else
        r ← scan_lock s req req_bits i compat wl;
        match r with
        | CompatDone _ _ => Ret r
        | CompatGoes compat s wl => scan s req req_bits q' compat wl
        end
  end.

(** [ldlm_inodebits_compat_queue] without the skip lists. *)
Definition inodebits_scan (s : sl_resource) (q : queue) (req : Z) (work_list : option (list Z))
    : run (Z * sl_resource * option (list Z)) :=
  let req_bits := bits (l_inodebits s req) in
  if no_bits s req req_bits then Ret (0, s, work_list)
  else r ← scan s req req_bits (queue_of s q) 1 work_list; Ret (compat_result r).

(** ** What a check may change *)

(** Callback flags of the locks but the request, and bits that are tried. *)
Record evolves (req : Z) (s s' : sl_resource) : Prop := {
  ev_type : sl_type_of s' = sl_type_of s;
  ev_lists : lr_granted (sl_res s') = lr_granted (sl_res s) /\ lr_waiting (sl_res s') = lr_waiting (sl_res s);
  ev_links : sl_mode s' = sl_mode s /\ sl_policy s' = sl_policy s;
  ev_cookie : sl_cookie s' = sl_cookie s;
  ev_req : lr_locks (sl_res s') !! req = lr_locks (sl_res s) !! req;
  ev_locks : forall j, option_Forall2 (fun l l' => l_req_mode l' = l_req_mode l) (lr_locks (sl_res s) !! j) (lr_locks (sl_res s') !! j);
  ev_bits : forall j, option_Forall2 (fun p p' => bits p' = bits p /\ (try_bits p = 0 -> try_bits p' = 0))
              (sl_policy_data s !! j) (sl_policy_data s' !! j)
}.

#[export] Instance evolves_preorder req : PreOrder (evolves req).
Proof.
  split.
  - intros s. split; try done; intros j; [by destruct (lr_locks _ !! j); constructor|by destruct (sl_policy_data s !! j); constructor].
  - intros s1 s2 s3 [H1 [H2 H2'] [H3 H3'] H4 H5 H6 H7] [G1 [G2 G2'] [G3 G3'] G4 G5 G6 G7]. split; try congruence.
    + split; congruence.
    + split; congruence.
    + intros j. specialize (H6 j). specialize (G6 j). destruct H6; inversion G6; subst; constructor. congruence.
    + intros j. specialize (H7 j). specialize (G7 j). destruct H7 as [p p' [E1 E2]|]; inversion G7 as [? p2 [F1 F2]|]; subst; constructor.
      split; [congruence|auto].
Qed.

Lemma evolves_mode req s s' j : evolves req s s' -> mode_of s' j = mode_of s j.
Proof. intros H. unfold mode_of. destruct (ev_locks _ _ _ H j); [done|done]. Qed.

Lemma evolves_bits req s s' j : evolves req s s' -> bits (l_inodebits s' j) = bits (l_inodebits s j).
Proof. intros H. unfold l_inodebits. destruct (ev_bits _ _ _ H j) as [? ? [? _]|]; [done|done]. Qed.

Lemma evolves_try req s s' j : evolves req s s' -> try_bits (l_inodebits s j) = 0 -> try_bits (l_inodebits s' j) = 0.
Proof. intros H. unfold l_inodebits. destruct (ev_bits _ _ _ H j) as [? ? [_ ?]|]; [done|done]. Qed.

Lemma evolves_known req s s' j : evolves req s s' -> is_Some (lr_locks (sl_res s) !! j) -> is_Some (lr_locks (sl_res s') !! j).
Proof. intros H [l Hl]. pose proof (ev_locks _ _ _ H j) as Hj. rewrite Hl in Hj. inversion Hj. by eexists. Qed.

Lemma evolves_data req s s' j : evolves req s s' -> is_Some (sl_policy_data s !! j) -> is_Some (sl_policy_data s' !! j).
Proof. intros H [p Hp]. pose proof (ev_bits _ _ _ H j) as Hj. rewrite Hp in Hj. inversion Hj. by eexists. Qed.

(** Other bits to be tried. *)
Lemma with_try_evolves req s j t :
  (try_bits (l_inodebits s j) = 0 -> t = 0) -> is_Some (sl_policy_data s !! j) ->
  evolves req s (with_bits s j (Inodebits (bits (l_inodebits s j)) t)).
Proof.
  intros Ht [p Hp]. split; try done.
  - intros k. cbn. by destruct (lr_locks _ !! k); constructor.
  - intros k. cbn. destruct (decide (j = k)) as [->|Hne].
    + rewrite lookup_insert_eq, Hp. constructor. unfold l_inodebits in *. rewrite Hp in *. done.
    + rewrite lookup_insert_ne by done. by destruct (sl_policy_data s !! k); constructor.
Qed.

Lemma ldiff_0 a : Z.ldiff 0 a = 0.
Proof. apply Z.ldiff_0_l. Qed.

Lemma filter_evolves req s i : is_Some (sl_policy_data s !! req) -> evolves req s (filter_try_bits s i req).
Proof. intros Hp. apply with_try_evolves; [|done]. intros ->. apply ldiff_0. Qed.

Lemma drop_evolves req s i rb : is_Some (sl_policy_data s !! i) -> evolves req s (drop_try_bits s i rb).
Proof. intros Hp. apply with_try_evolves; [|done]. intros ->. apply ldiff_0. Qed.

(** A lock on the work list, or not. *)
Lemma add_bl_ast_evolves s i req w s' w' : i <> req -> add_bl_ast s i req w = Ret (s', w') ->
  evolves req s s' /\ sl_policy_data s' = sl_policy_data s
  /\ forall j, j <> i -> lr_locks (sl_res s') !! j = lr_locks (sl_res s) !! j.
Proof.
  intros Hne. unfold add_bl_ast. destruct (ldlm_should_run_bl_ast s i req) as [b|]; [|done]. cbn [mbind run_bind].
  destruct b; [|by intros [= <- <-]]. unfold ldlm_add_ast_work_item, ldlm_add_bl_work_item, get_lock.
  destruct (lr_locks (sl_res s) !! i) as [l|] eqn:Hl; [|done]. cbn [mbind run_bind].
  destruct (ldlm_is_ast_sent l); [cbn [mbind run_bind fst snd]; intros [= <- <-]; by destruct s|].
  destruct (lr_locks (sl_res s) !! req); [|done]. cbn [mbind run_bind]. unfold LASSERT.
  destruct (negb (l_bl_ast l)); [|done]. destruct (bool_decide _); [|done]. cbn [mbind run_bind fst snd]. intros [= <- <-].
  split; [|split; [done|intros j Hj; cbn; by rewrite lookup_insert_ne]]. split; try done.
  - cbn. by rewrite lookup_insert_ne.
  - intros j. cbn. destruct (decide (i = j)) as [->|Hj]; [rewrite lookup_insert_eq, Hl; by constructor|].
    rewrite lookup_insert_ne by done. by destruct (lr_locks _ !! j); constructor.
  - intros j. cbn. by destruct (sl_policy_data s !! j); constructor.
Qed.

(** ** Groups that a walk can skip *)

(** The lock [b] is like the first one of its policy group. *)
Record alike (s : sl_resource) (a b : Z) : Prop := {
  al_bits : bits (l_inodebits s b) = bits (l_inodebits s a);
  al_try : try_bits (l_inodebits s b) = 0;
  al_mode : mode_of s b = mode_of s a;
  al_rep : rep b = rep a
}.

Definition known (s : sl_resource) (i : Z) : Prop :=
  is_Some (lr_locks (sl_res s) !! i) /\ is_Some (sl_policy_data s !! i).

Lemma evolves_alike req s s' a b : evolves req s s' -> alike s a b -> alike s' a b.
Proof.
  intros He [H1 H2 H3 H4]. split.
  - by rewrite !(evolves_bits _ _ _ _ He).
  - by apply (evolves_try _ _ _ _ He).
  - by rewrite !(evolves_mode _ _ _ _ He).
  - done.
Qed.

Lemma evolves_knows req s s' i : evolves req s s' -> known s i -> known s' i.
Proof. intros He [? ?]. split; [by eapply evolves_known|by eapply evolves_data]. Qed.

Lemma with_bits_same s j p : sl_policy_data s !! j = Some p -> with_bits s j p = s.
Proof. intros Hp. unfold with_bits. rewrite insert_id by done. by destruct s. Qed.

Lemma l_inodebits_some s j p : sl_policy_data s !! j = Some p -> l_inodebits s j = p.
Proof. unfold l_inodebits. by intros ->. Qed.

Lemma with_bits_eq s j p : l_inodebits (with_bits s j p) j = p.
Proof. unfold l_inodebits. cbn. by rewrite lookup_insert_eq. Qed.

Lemma with_bits_ne s j p k : k <> j -> l_inodebits (with_bits s j p) k = l_inodebits s k.
Proof. intros Hk. unfold l_inodebits. cbn. by rewrite lookup_insert_ne. Qed.

(** Once the request has given up trying the bits of a lock, it is done with them. *)
Definition given_up (s : sl_resource) (req i : Z) : Prop :=
  Z.ldiff (try_bits (l_inodebits s req)) (bits (l_inodebits s i)) = try_bits (l_inodebits s req).

Lemma filter_idle s req i :
  is_Some (sl_policy_data s !! req) -> try_bits (l_inodebits s i) = 0 -> given_up s req i -> filter_try_bits s i req = s.
Proof.
  intros [p Hp] Ht Hg. unfold filter_try_bits. rewrite Ht, Z.lor_0_r, Hg. apply with_bits_same.
  rewrite (l_inodebits_some _ _ _ Hp). by destruct p.
Qed.

Lemma drop_idle s i rb : is_Some (sl_policy_data s !! i) -> try_bits (l_inodebits s i) = 0 -> drop_try_bits s i rb = s.
Proof.
  intros [p Hp] Ht. unfold drop_try_bits. rewrite Ht, ldiff_0. apply with_bits_same.
  rewrite (l_inodebits_some _ _ _ Hp) in *. destruct p. cbn in *. by subst.
Qed.

Lemma ldiff_idemp t a b : Z.ldiff (Z.ldiff t (Z.lor a b)) a = Z.ldiff t (Z.lor a b).
Proof.
  apply Z.bits_inj'. intros n Hn. rewrite !Z.ldiff_spec, Z.lor_spec.
  destruct (Z.testbit t n), (Z.testbit a n), (Z.testbit b n); done.
Qed.

(** What a scan of a lock decides, given that it has nothing to give up. *)
Definition conflicts (s : sl_resource) (req req_bits i : Z) : bool :=
  match lr_locks (sl_res s) !! i, lr_locks (sl_res s) !! req with
  | Some lock, Some rl =>
      negb (Z.land (bits (l_inodebits s i)) req_bits =? 0) && negb (cos_compatible s (rep i) req lock rl)
  | _, _ => false
  end.

Definition passes (s : sl_resource) (req i : Z) : bool :=
  match lr_locks (sl_res s) !! i, lr_locks (sl_res s) !! req with
  | Some lock, Some rl => modes_pass lock rl
  | _, _ => false
  end.

Lemma scan_idle s req rb i compat wl :
  known s i -> known s req -> passes s req i = false -> try_bits (l_inodebits s i) = 0 -> given_up s req i ->
  no_bits s req rb = false ->
  scan_lock s req rb i compat wl
  = if conflicts s req rb i then
      match wl with
      | None => Ret (CompatDone s wl)
      | Some w => rw ← add_bl_ast s i req w; Ret (CompatGoes 0 rw.1 (Some rw.2))
      end
    else Ret (CompatGoes compat s wl).
Proof.
  intros [[l Hl] Hd] [[rl Hrl] Hrd] Hp Ht Hg Hn. unfold passes, conflicts in *. rewrite Hl, Hrl in *.
  unfold scan_lock, sl_get, get_lock. rewrite Hl. cbn [mbind run_bind]. rewrite Hrl. cbn [mbind run_bind].
  rewrite Hp, filter_idle, Hn, drop_idle by done. done.
Qed.

Lemma alike_passes s req a b : known s a -> known s b -> alike s a b -> passes s req b = passes s req a.
Proof.
  intros [[la Ha] _] [[lb Hb] _] [_ _ Hm _]. unfold passes, modes_pass. unfold mode_of in Hm. rewrite Ha, Hb in *. by rewrite Hm.
Qed.

Lemma alike_conflicts s req rb a b :
  known s a -> known s b -> alike s a b -> conflicts s req rb b = conflicts s req rb a.
Proof.
  intros [[la Ha] _] [[lb Hb] _] [Hbits _ Hm Hc]. unfold conflicts, cos_compatible. unfold mode_of in Hm. rewrite Ha, Hb in *.
  destruct (lr_locks (sl_res s) !! req) as [rl|]; [|done]. by rewrite Hbits, Hm, Hc.
Qed.

Lemma passes_evolves req s s' i : evolves req s s' -> passes s' req i = passes s req i.
Proof.
  intros He. unfold passes, modes_pass. rewrite (ev_req _ _ _ He). destruct (ev_locks _ _ _ He i) as [l l' ->|]; done.
Qed.

Lemma conflicts_evolves req s s' rb i : evolves req s s' -> conflicts s' req rb i = conflicts s req rb i.
Proof.
  intros He. unfold conflicts, cos_compatible, l_client_cookie. rewrite (ev_req _ _ _ He), (evolves_bits _ _ _ _ He), (ev_cookie _ _ _ He).
  destruct (ev_locks _ _ _ He i) as [l l' ->|]; done.
Qed.

Lemma same_data_idle s s' req rb i :
  sl_policy_data s' = sl_policy_data s ->
  (given_up s req i -> given_up s' req i) /\ no_bits s' req rb = no_bits s req rb.
Proof. intros E. unfold given_up, no_bits, l_inodebits. by rewrite E. Qed.

Section Rest.
Context (req rb a : Z).

(** The state behind the first lock of a policy group. *)
Record begun (s : sl_resource) (rest : list Z) : Prop := {
  bg_a : known s a;
  bg_req : known s req;
  bg_passes : passes s req a = false;
  bg_up : given_up s req a;
  bg_bits : no_bits s req rb = false;
  bg_rest : Forall (fun b => known s b /\ alike s a b /\ b <> req) rest
}.

Lemma begun_evolves s s' rest : evolves req s s' -> sl_policy_data s' = sl_policy_data s -> begun s rest -> begun s' rest.
Proof.
  intros He Ed [H1 H2 H3 H4 H5 H6]. destruct (same_data_idle s s' req rb a Ed) as [Hg Hn]. split.
  - by eapply evolves_knows.
  - by eapply evolves_knows.
  - by rewrite (passes_evolves _ _ _ _ He).
  - by apply Hg.
  - by rewrite Hn.
  - eapply Forall_impl; [exact H6|]. cbn. intros b (? & ? & ?). split_and!; [by eapply evolves_knows|by eapply evolves_alike|done].
Qed.

Lemma begun_scan s b rest compat wl :
  begun s (b :: rest) ->
  b <> req /\ scan_lock s req rb b compat wl
  = if conflicts s req rb a then
      match wl with
      | None => Ret (CompatDone s wl)
      | Some w => rw ← add_bl_ast s b req w; Ret (CompatGoes 0 rw.1 (Some rw.2))
      end
    else Ret (CompatGoes compat s wl).
Proof.
  intros [H1 H2 H3 H4 H5 ((Hk & Hal & Hne) & _)%Forall_cons]. split; [done|].
  rewrite <-(alike_conflicts s req rb a b) by done. apply scan_idle; try done.
  - by rewrite (alike_passes s req a b).
  - apply Hal.
  - unfold given_up. by rewrite (al_bits _ _ _ Hal).
Qed.

Lemma scan_rest_free rest s q compat wl :
  begun s rest -> conflicts s req rb a = false -> scan s req rb (rest ++ q) compat wl = scan s req rb q compat wl.
Proof.
  induction rest as [|b rest IH]; intros Hb Hc; [done|]. destruct (begun_scan s b rest compat wl Hb) as [Hne Hs].
  cbn [app scan]. rewrite (proj2 (Z.eqb_neq _ _) Hne), Hs, Hc. cbn [mbind run_bind]. apply IH; [|done].
  destruct Hb as [? ? ? ? ? [_ ?]%Forall_cons]. by split.
Qed.

Lemma scan_rest_conflict rest : forall s q w,
  begun s rest -> conflicts s req rb a = true ->
  scan s req rb (rest ++ q) 0 (Some w)
  = rw ← add_bl_asts rest s req w; scan rw.1 req rb q 0 (Some rw.2).
Proof.
  induction rest as [|b rest IH]; intros s q w Hb Hc; [done|]. destruct (begun_scan s b rest 0 (Some w) Hb) as [Hne Hs].
  cbn [app scan add_bl_asts]. rewrite (proj2 (Z.eqb_neq _ _) Hne), Hs, Hc.
  destruct (add_bl_ast s b req w) as [[s' w']|] eqn:E; [|done]. cbn [mbind run_bind fst snd].
  destruct (add_bl_ast_evolves _ _ _ _ _ _ Hne E) as (He & Ed & _). apply IH; [|by rewrite (conflicts_evolves _ _ _ _ _ He)].
  destruct (begun_evolves s s' (b :: rest) He Ed Hb) as [? ? ? ? ? [_ ?]%Forall_cons]. by split.
Qed.
End Rest.

Definition step_then (r : run compat_step) (k : Z -> sl_resource -> option (list Z) -> run compat_step) : run compat_step :=
  x ← r; match x with CompatDone _ _ => Ret x | CompatGoes compat s wl => k compat s wl end.

Lemma step_then_assoc r k k' :
  step_then (step_then r k) k' = step_then r (fun c s w => step_then (k c s w) k').
Proof. destruct r as [[]|]; done. Qed.

(** A policy group at once is a policy group one by one. *)
Lemma policy_group_scan s req rb a rest q compat wl :
  known s req -> known s a -> rep a = a -> passes s req a = false -> a <> req -> NoDup (a :: rest) ->
  Forall (fun b => known s b /\ alike s a b /\ b <> req) rest -> ring (sl_policy s) (a :: rest) ->
  (length rest <= length (lr_granted (sl_res s)))%nat ->
  step_then (compat_policy_group s req rb a compat wl) (fun c s w => scan s req rb q c w)
  = scan s req rb (a :: rest ++ q) compat wl.
Proof.
  intros Hr Ha Hrep Hp Hne Hnd Hrest Hring Hlen. pose proof Ha as [[la Hla] Hda]. pose proof Hr as [[rl Hrl] Hdr].
  cbn [scan]. rewrite (proj2 (Z.eqb_neq _ _) Hne).
  unfold passes in Hp. rewrite Hla, Hrl in Hp. unfold compat_policy_group, scan_lock, sl_get, get_lock. rewrite Hla.
  cbn [mbind run_bind]. rewrite Hrl. cbn [mbind run_bind]. rewrite Hp, Hrep.
  set (s1 := filter_try_bits s a req). destruct (no_bits s1 req rb) eqn:Hn; [done|].
  set (s2 := drop_try_bits s1 a rb).
  assert (He1 : evolves req s s1) by (by apply filter_evolves).
  assert (He : evolves req s s2) by (etransitivity; [exact He1|apply drop_evolves; by eapply evolves_data]).
  assert (Hreq2 : l_inodebits s2 req = l_inodebits s1 req).
  { by apply with_bits_ne. }
  assert (Hb : begun req rb a s2 rest).
  { split.
    - by eapply evolves_knows.
    - by eapply evolves_knows.
    - rewrite (passes_evolves _ _ _ _ He). unfold passes. by rewrite Hla, Hrl.
    - unfold given_up. rewrite Hreq2, (evolves_bits _ _ _ _ He). unfold s1, filter_try_bits.
      rewrite with_bits_eq. apply ldiff_idemp.
    - unfold no_bits in *. by rewrite Hreq2.
    - eapply Forall_impl; [exact Hrest|]. cbn. intros b (? & ? & ?). split_and!; [by eapply evolves_knows|by eapply evolves_alike|done]. }
  assert (Hc : conflicts s2 req rb a
    = negb (Z.land (bits (l_inodebits s2 a)) rb =? 0) && negb (cos_compatible s2 a req la rl)).
  { unfold conflicts. change (sl_res s2) with (sl_res s). by rewrite Hla, Hrl, Hrep. }
  rewrite <-Hc. destruct (conflicts s2 req rb a) eqn:Hcf; [|by cbn; rewrite (scan_rest_free req rb a)].
  destruct wl as [w|]; [|done]. rewrite (ring_entries_spec _ a rest); [|done|done|done]. cbn [mbind run_bind add_bl_asts].
  destruct (add_bl_ast s2 a req w) as [[s3 w3]|] eqn:E; [|done]. cbn [mbind run_bind fst snd].
  destruct (add_bl_ast_evolves _ _ _ _ _ _ Hne E) as (He3 & Ed3 & _).
  rewrite (scan_rest_conflict req rb a); [|by eapply begun_evolves|by rewrite (conflicts_evolves _ _ _ _ _ He3)].
  by destruct (add_bl_asts rest s3 req w3) as [[s4 w4]|].
Qed.

(** ** The walk *)

Definition step_state (r : compat_step) : sl_resource :=
  match r with CompatDone s _ => s | CompatGoes _ s _ => s end.

Lemma scan_lock_evolves s req rb i compat wl r :
  known s i -> known s req -> i <> req -> scan_lock s req rb i compat wl = Ret r -> evolves req s (step_state r).
Proof.
  intros [[l Hl] Hd] [[rl Hrl] Hrd] Hne. unfold scan_lock, sl_get, get_lock. rewrite Hl. cbn [mbind run_bind]. rewrite Hrl.
  cbn [mbind run_bind]. assert (He1 : evolves req s (filter_try_bits s i req)) by (by apply filter_evolves).
  destruct (modes_pass l rl); [by intros [= <-]|]. destruct (no_bits _ req rb); [by intros [= <-]|].
  set (s2 := drop_try_bits _ i rb).
  assert (He : evolves req s s2) by (etransitivity; [exact He1|apply drop_evolves; by eapply evolves_data]).
  destruct (_ && _); [|by intros [= <-]]. destruct wl as [w|]; [|by intros [= <-]].
  destruct (add_bl_ast s2 i req w) as [[s3 w3]|] eqn:E; [|done]. cbn [mbind run_bind fst snd]. intros [= <-].
  etransitivity; [exact He|]. by eapply add_bl_ast_evolves.
Qed.

Lemma scan_evolves q : forall s req rb compat wl r,
  Forall (known s) q -> known s req -> scan s req rb q compat wl = Ret r -> evolves req s (step_state r).
Proof.
  induction q as [|i q IH]; intros s req rb compat wl r Hk Hr; cbn [scan]; [by intros [= <-]|].
  apply Forall_cons in Hk as [Hi Hk]. destruct (Z.eqb_spec i req) as [|Hne]; [by intros [= <-]|].
  destruct (scan_lock s req rb i compat wl) as [r1|] eqn:E; [|done]. cbn [mbind run_bind].
  pose proof (scan_lock_evolves s req rb i compat wl r1 Hi Hr Hne E) as He.
  destruct r1 as [s1 w1|c1 s1 w1]; [by intros [= <-]|]. intros Hs. etransitivity; [exact He|]. eapply IH; [|by eapply evolves_knows|exact Hs].
  eapply Forall_impl; [exact Hk|]. intros j. by apply (evolves_knows req).
Qed.

(** A policy group the walk can take at once. *)
Definition policy_walk (s : sl_resource) (req : Z) (pg : list Z) : Prop :=
  exists a rest, pg = a :: rest /\ known s a /\ rep a = a /\ a <> req
    /\ Forall (fun b => known s b /\ alike s a b /\ b <> req) rest /\ ring (sl_policy s) pg
    /\ (length rest <= length (lr_granted (sl_res s)))%nat.

Definition mode_walk (s : sl_resource) (req : Z) (g : list (list Z)) : Prop :=
  g = [[req]] \/ (ring (sl_mode s) (concat g) /\ (exists m, group_mode s g m) /\ Forall (policy_walk s req) g).

Lemma policy_walk_evolves req s s' pg : evolves req s s' -> policy_walk s req pg -> policy_walk s' req pg.
Proof.
  intros He (a & rest & -> & Hk & Hrep & Hne & Hf & Hr & Hlen). exists a, rest. split; [done|]. split; [by eapply evolves_knows|].
  split; [done|]. split; [done|]. split; [|split].
  - eapply Forall_impl; [exact Hf|]. cbn. intros b (? & ? & ?). split_and!; [by eapply evolves_knows|by eapply evolves_alike|done].
  - by rewrite (proj2 (ev_links _ _ _ He)).
  - by rewrite (proj1 (ev_lists _ _ _ He)).
Qed.

Lemma mode_walk_evolves req s s' g : evolves req s s' -> mode_walk s req g -> mode_walk s' req g.
Proof.
  intros He [?|(Hr & (m & Hm) & Hp)]; [by left|]. right. split; [by rewrite (proj1 (ev_links _ _ _ He))|]. split.
  - exists m. unfold group_mode in *. eapply Forall_impl; [exact Hm|]. cbn. intros i. by rewrite (evolves_mode _ _ _ _ He).
  - eapply Forall_impl; [exact Hp|]. intros pg. by apply policy_walk_evolves.
Qed.

Lemma policy_walk_known s req pg i : policy_walk s req pg -> i ∈ pg -> known s i /\ i <> req.
Proof.
  intros (a & rest & -> & Hk & _ & Hne & Hf & _) [->|Hi]%elem_of_cons; [done|]. rewrite Forall_forall in Hf. by destruct (Hf i Hi) as (? & _ & ?).
Qed.

Lemma mode_walk_known s req g i : Forall (policy_walk s req) g -> i ∈ concat g -> known s i /\ i <> req.
Proof. intros Hp (pg & Hpg & Hi)%elem_of_concat_inv. rewrite Forall_forall in Hp. by apply (policy_walk_known s req pg); [apply Hp|]. Qed.

(** Whether the modes pass is the same for all locks of a mode group. *)
Lemma passes_mode s req a b : known s a -> known s b -> mode_of s a = mode_of s b -> passes s req a = passes s req b.
Proof.
  intros [[la Ha] _] [[lb Hb] _]. unfold mode_of, passes, modes_pass. rewrite Ha, Hb. by intros ->.
Qed.

Lemma scan_pass l s req rb q compat wl :
  known s req -> Forall (fun i => known s i /\ i <> req /\ passes s req i = true) l ->
  scan s req rb (l ++ q) compat wl = scan s req rb q compat wl.
Proof.
  intros [[rl Hrl] _]. induction 1 as [|i l (Hk & Hne & Hp) _ IH]; [done|]. cbn [app scan]. rewrite (proj2 (Z.eqb_neq _ _) Hne).
  destruct Hk as [[li Hli] _]. unfold passes in Hp. rewrite Hli, Hrl in Hp. unfold scan_lock, sl_get, get_lock. rewrite Hli.
  cbn [mbind run_bind]. rewrite Hrl. cbn [mbind run_bind]. rewrite Hp. cbn [mbind run_bind]. done.
Qed.

(** A policy group at once keeps what the walk needs. *)
Lemma policy_group_step s req rb a rest compat wl r :
  known s req -> known s a -> rep a = a -> passes s req a = false -> a <> req -> NoDup (a :: rest) ->
  Forall (fun b => known s b /\ alike s a b /\ b <> req) rest -> ring (sl_policy s) (a :: rest) ->
  (length rest <= length (lr_granted (sl_res s)))%nat ->
  compat_policy_group s req rb a compat wl = Ret r -> evolves req s (step_state r).
Proof.
  intros Hr Ha Hrep Hp Hne Hnd Hrest Hring Hlen E.
  pose proof (policy_group_scan s req rb a rest [] compat wl Hr Ha Hrep Hp Hne Hnd Hrest Hring Hlen) as Hs.
  rewrite E in Hs. rewrite app_nil_r in Hs. apply (scan_evolves (a :: rest) s req rb compat wl r); [|done|].
  - constructor; [done|]. eapply Forall_impl; [exact Hrest|]. by intros b (? & _).
  - rewrite <-Hs. by destruct r.
Qed.

Section Walk.
Context (queue : list Z) (req rb : Z).
Hypothesis Hnd : NoDup queue.

(** The policy groups of a mode group. *)
Lemma mode_group_scan g2 : forall s X a pg Y fuel mode_tail compat wl q,
  queue = X ++ ((a :: pg) ++ concat g2) ++ Y -> known s req ->
  Forall (policy_walk s req) ((a :: pg) :: g2) -> Forall (fun i => passes s req i = false) (concat ((a :: pg) :: g2)) ->
  last ((a :: pg) ++ concat g2) = Some mode_tail -> (length g2 < fuel)%nat ->
  step_then (compat_mode_group fuel queue s req rb a mode_tail compat wl) (fun c s w => scan s req rb q c w)
  = scan s req rb (((a :: pg) ++ concat g2) ++ q) compat wl.
Proof.
  induction g2 as [|pg2 g2 IH]; intros s X a pg Y fuel mt compat wl q Eq Hreq Hw Hpass Hl Hf;
    (destruct fuel as [|fuel]; [lia|]); pose proof Hw as [(a0 & rest & [= <- <-] & Hka & Hrep & Hne & Hal & Hring & Hlen) Hw2]%Forall_cons;
    pose proof Hpass as [Hpa _]%Forall_cons; pose proof (ring_last _ _ _ Hring) as Hlast.
  - assert (Hndp : NoDup (a :: pg)).
    { rewrite Eq in Hnd. apply list.NoDup_app in Hnd as (_ & _ & H). apply list.NoDup_app in H as (H & _). by rewrite app_nil_r in H. }
    cbn [concat] in *. rewrite app_nil_r in *. cbn [compat_mode_group].
    assert (list_prev (sl_policy s) a = mt) as -> by congruence. rewrite <-(policy_group_scan s req rb a pg q) by done.
    destruct (compat_policy_group s req rb a compat wl) as [[s1 w1|c1 s1 w1]|]; try done. cbn [mbind run_bind step_then]. by rewrite Z.eqb_refl.
  - assert (Hndp : NoDup ((a :: pg) ++ concat (pg2 :: g2))).
    { rewrite Eq in Hnd. apply list.NoDup_app in Hnd as (_ & _ & H). by apply list.NoDup_app in H as (H & _). }
    pose proof Hw2 as [(b & rest2 & -> & _) _]%Forall_cons.
    pose proof Hndp as (Hndp1 & Hd & _)%list.NoDup_app.
    assert (Hmt : list_prev (sl_policy s) a <> mt).
    { intros E. apply last_app_some in Hl; [|done]. apply (Hd mt); [by rewrite <-E; apply last_Some_elem_of|by apply last_Some_elem_of]. }
    assert (Hafter : list_after queue (list_prev (sl_policy s) a) = Ret ((b :: rest2) ++ concat g2 ++ Y)).
    { rewrite Eq. rewrite Eq in Hnd. cbn [concat] in *. rewrite <-!app_assoc in *. by apply list_after_last. }
    cbn [compat_mode_group]. rewrite <-app_assoc, <-(policy_group_scan s req rb a pg (concat ((b :: rest2) :: g2) ++ q)) by done.
    destruct (compat_policy_group s req rb a compat wl) as [[s1 w1|c1 s1 w1]|] eqn:E; try done. cbn [mbind run_bind step_then].
    rewrite (proj2 (Z.eqb_neq _ _) Hmt), Hafter. cbn [mbind run_bind app].
    pose proof (policy_group_step s req rb a pg compat wl _ Hreq Hka Hrep Hpa Hne Hndp1 Hal Hring Hlen E) as He. cbn [step_state] in He.
    cbn [length] in Hf. apply (IH s1 (X ++ a :: pg) b rest2 Y fuel); [|by eapply evolves_knows| | | |lia].
    + rewrite Eq. cbn [concat]. by rewrite <-!app_assoc.
    + eapply Forall_impl; [exact Hw2|]. intros ?. by apply policy_walk_evolves.
    + cbn [concat] in Hpass. apply Forall_app in Hpass as [_ Hpass]. eapply Forall_impl; [exact Hpass|]. intros i.
      by rewrite (passes_evolves _ _ _ _ He).
    + by apply last_app_some in Hl.
Qed.

Lemma mode_group_step g2 s X a pg Y fuel mode_tail compat wl r :
  queue = X ++ ((a :: pg) ++ concat g2) ++ Y -> known s req ->
  Forall (policy_walk s req) ((a :: pg) :: g2) -> Forall (fun i => passes s req i = false) (concat ((a :: pg) :: g2)) ->
  last ((a :: pg) ++ concat g2) = Some mode_tail -> (length g2 < fuel)%nat ->
  compat_mode_group fuel queue s req rb a mode_tail compat wl = Ret r -> evolves req s (step_state r).
Proof.
  intros Eq Hreq Hw Hpass Hl Hf E.
  pose proof (mode_group_scan g2 s X a pg Y fuel mode_tail compat wl [] Eq Hreq Hw Hpass Hl Hf) as Hs. rewrite E, app_nil_r in Hs.
  apply (scan_evolves ((a :: pg) ++ concat g2) s req rb compat wl r); [|done|].
  - apply Forall_forall. intros i Hi. by apply (mode_walk_known s req ((a :: pg) :: g2)).
  - rewrite <-Hs. by destruct r.
Qed.

Lemma compat_loop_scan gs : forall s X fuel compat wl,
  queue = X ++ flat gs -> known s req -> Forall (mode_walk s req) gs -> (length (flat gs) <= fuel)%nat ->
  compat_loop fuel queue s req rb (flat gs) compat wl = scan s req rb (flat gs) compat wl.
Proof.
  induction gs as [|g gs IH]; intros s X fuel compat wl Eq Hreq Hw Hf; [by destruct fuel|].
  apply Forall_cons in Hw as [[->|(Hring & (m & Hm) & Hp)] Hw].
  { destruct fuel as [|fuel]; [cbn in Hf; lia|]. cbn. by rewrite Z.eqb_refl. }
  destruct g as [|[|a pg] g2]; [done|by apply Forall_cons in Hp as [(? & ? & ? & _) _]|].
  rewrite flat_cons in *. cbn [concat] in Hring, Hm |- *.
  assert (Hkn : Forall (fun i => known s i /\ i <> req /\ passes s req i = passes s req a) ((a :: pg) ++ concat g2)).
  { apply Forall_forall. intros i Hi. destruct (mode_walk_known s req ((a :: pg) :: g2) i Hp Hi) as [Hk Hne]. split_and!; try done.
    destruct (mode_walk_known s req ((a :: pg) :: g2) a Hp) as [Hka _]; [by left|].
    apply passes_mode; try done. unfold group_mode in Hm. rewrite Forall_forall in Hm. rewrite (Hm i Hi), (Hm a); [done|by left]. }
  pose proof Hkn as [(Hka & Hne & _) _]%Forall_cons. pose proof Hka as [[la Hla] _]. pose proof Hreq as [[rl Hrl] _].
  pose proof (ring_last _ _ _ Hring) as Hlast.
  assert (Hafter : list_after queue (list_prev (sl_mode s) a) = Ret (flat gs)).
  { rewrite Eq. rewrite Eq in Hnd. by apply list_after_last. }
  destruct fuel as [|fuel]; [cbn in Hf; lia|]. cbn [compat_loop app]. rewrite (proj2 (Z.eqb_neq _ _) Hne).
  unfold sl_get, get_lock. rewrite Hla. cbn [mbind run_bind]. rewrite Hrl. cbn [mbind run_bind].
  change (((l_req_mode la =? LCK_COS) && negb (ldlm_is_cos_incompat rl) && negb (ldlm_is_cos_enabled rl))
    || lockmode_compat (l_req_mode la) (l_req_mode rl)) with (modes_pass la rl).
  assert (Hpa : passes s req a = modes_pass la rl) by (unfold passes; by rewrite Hla, Hrl). rewrite <-Hpa.
  rewrite length_app in Hf. cbn [concat] in Hf. rewrite length_app in Hf. cbn [length] in Hf.
  assert (Hgo : forall s1 c1 w1, evolves req s s1 ->
    compat_loop fuel queue s1 req rb (flat gs) c1 w1 = scan s1 req rb (flat gs) c1 w1).
  { intros s1 c1 w1 He. apply (IH s1 (X ++ (a :: pg) ++ concat g2)); [rewrite Eq; cbn [concat]; by rewrite <-!app_assoc|by eapply evolves_knows| |lia].
    eapply Forall_impl; [exact Hw|]. intros ?. by apply mode_walk_evolves. }
  destruct (passes s req a) eqn:Hpass.
  - rewrite Hafter. cbn [mbind run_bind]. rewrite (Hgo s) by done. symmetry.
    apply (scan_pass ((a :: pg) ++ concat g2)); [done|]. eapply Forall_impl; [exact Hkn|]. intros i (H1 & H2 & H3). split_and!; congruence.
  - assert (Hlen : (length g2 < S fuel)%nat).
    { enough (length g2 <= length (concat g2))%nat by lia. apply concat_length.
      apply Forall_cons in Hp as [_ Hp]. eapply Forall_impl; [exact Hp|]. by intros ? (? & ? & -> & _). }
    assert (Hnp : Forall (fun i => passes s req i = false) (concat ((a :: pg) :: g2)))
      by (eapply Forall_impl; [exact Hkn|]; intros i (H1 & H2 & H3); congruence).
    etransitivity; [|exact (mode_group_scan g2 s X a pg (flat gs) (S fuel) _ compat wl (flat gs) Eq Hreq Hp Hnp Hlast Hlen)].
    destruct (compat_mode_group (S fuel) queue s req rb a (list_prev (sl_mode s) a) compat wl) as [[s1 w1|c1 s1 w1]|] eqn:E; try done.
    unfold step_then. cbn [mbind run_bind]. rewrite Hafter. cbn [mbind run_bind]. apply Hgo.
    by apply (mode_group_step g2 s X a pg (flat gs) (S fuel) (list_prev (sl_mode s) a) compat wl (CompatGoes c1 s1 w1)).
Qed.
End Walk.
End Scan.
