(* ===== verification/SkipPlain.v ===== *)
(** Plain locks (lustre/ldlm/ldlm_plain.c): the walk over the mode groups does what a look
    at one lock after the other would do. *)

From stdpp Require Import gmap.
From S2P Require Import Prelude IntervalTree LdlmLock LdlmExtent LdlmSafe LdlmServer SkipLock SkipRing SkipShape SkipScan.

Definition plain_scan_lock (s : sl_resource) (req i : Z) (compat : Z) (wl : option (list Z)) : run compat_step :=
  lock ← sl_get s i;
  rl ← sl_get s req;
  if lockmode_compat (l_req_mode lock) (l_req_mode rl) then Ret (CompatGoes compat s wl)
  else
    match wl with
    | None => Ret (CompatDone s wl)
    | Some w => rw ← plain_add_asts [i] s req w; Ret (CompatGoes 0 rw.1 (Some rw.2))
    end.

Fixpoint plain_scan (s : sl_resource) (req : Z) (q : list Z) (compat : Z) (wl : option (list Z)) : run compat_step :=
  match q with
  | [] => Ret (CompatGoes compat s wl)
  | i :: q' =>
      if i =? req then Ret (CompatGoes compat s wl)
      else
        r ← plain_scan_lock s req i compat wl;
        match r with
        | CompatDone _ _ => Ret r
        | CompatGoes compat s wl => plain_scan s req q' compat wl
        end
  end.

(** [ldlm_plain_compat_queue] without the skip lists. *)
Definition plain_queue_scan (s : sl_resource) (q : queue) (req : Z) (work_list : option (list Z))
    : run (Z * sl_resource * option (list Z)) :=
  rl ← sl_get s req;
  lassert lockmode_verify (l_req_mode rl);
  r ← plain_scan s req (queue_of s q) 1 work_list;
  Ret (compat_result r).

(** The modes of a lock and of the request do not conflict. *)
Definition plain_passes (s : sl_resource) (req i : Z) : bool := lockmode_compat (mode_of s i) (mode_of s req).

Lemma plain_passes_evolves req s s' i : evolves req s s' -> plain_passes s' req i = plain_passes s req i.
Proof. intros He. unfold plain_passes. by rewrite !(evolves_mode _ _ _ _ He). Qed.

Lemma plain_add_evolves s i req w s' w' : i <> req -> plain_add_asts [i] s req w = Ret (s', w') -> evolves req s s'.
Proof.
  intros Hne. cbn [plain_add_asts]. unfold sl_get. destruct (get_lock (sl_res s) i) as [l|] eqn:Hl; [|done]. cbn [mbind run_bind].
  destruct (l_blocking_ast l); [|by intros [= <- <-]]. unfold ldlm_add_ast_work_item, ldlm_add_bl_work_item. rewrite Hl. cbn [mbind run_bind].
  unfold get_lock in *. destruct (lr_locks (sl_res s) !! i) as [l0|] eqn:Hl0; [|done]. injection Hl as ->.
  destruct (ldlm_is_ast_sent l); [cbn [mbind run_bind fst snd]; intros [= <- <-]; by destruct s|].
  destruct (lr_locks (sl_res s) !! req); [|done]. cbn [mbind run_bind]. unfold LASSERT.
  destruct (negb (l_bl_ast l)); [|done]. destruct (bool_decide _); [|done]. cbn [mbind run_bind fst snd]. intros [= <- <-]. split; try done.
  - cbn. by rewrite lookup_insert_ne.
  - intros j. cbn. destruct (decide (i = j)) as [->|Hj]; [rewrite lookup_insert_eq, Hl0; by constructor|].
    rewrite lookup_insert_ne by done. by destruct (lr_locks _ !! j); constructor.
  - intros j. cbn. by destruct (sl_policy_data s !! j); constructor.
Qed.

Lemma plain_add_cons i ids s req w :
  plain_add_asts (i :: ids) s req w = rw ← plain_add_asts [i] s req w; plain_add_asts ids rw.1 req rw.2.
Proof.
  cbn [plain_add_asts]. unfold sl_get. destruct (get_lock (sl_res s) i) as [l|]; [|done]. cbn [mbind run_bind].
  destruct (l_blocking_ast l); [|done]. by destruct (ldlm_add_ast_work_item _ _ _ _) as [[]|].
Qed.

Definition has_lock (s : sl_resource) (i : Z) : Prop := is_Some (lr_locks (sl_res s) !! i).

Lemma plain_scan_step s req i compat wl :
  has_lock s i -> has_lock s req ->
  plain_scan_lock s req i compat wl
  = if plain_passes s req i then Ret (CompatGoes compat s wl)
    else match wl with
         | None => Ret (CompatDone s wl)
         | Some w => rw ← plain_add_asts [i] s req w; Ret (CompatGoes 0 rw.1 (Some rw.2))
         end.
Proof.
  intros [l Hl] [rl Hrl]. unfold plain_scan_lock, plain_passes, mode_of, sl_get, get_lock. by rewrite Hl, Hrl.
Qed.

Lemma plain_scan_pass l s req q compat wl :
  has_lock s req -> Forall (fun i => has_lock s i /\ i <> req /\ plain_passes s req i = true) l ->
  plain_scan s req (l ++ q) compat wl = plain_scan s req q compat wl.
Proof.
  intros Hreq. induction 1 as [|i l (Hk & Hne & Hp) _ IH]; [done|]. cbn [app plain_scan].
  rewrite (proj2 (Z.eqb_neq _ _) Hne), plain_scan_step, Hp by done. cbn [mbind run_bind]. done.
Qed.

Lemma plain_scan_conflict l : forall s req q w,
  has_lock s req -> Forall (fun i => has_lock s i /\ i <> req /\ plain_passes s req i = false) l ->
  plain_scan s req (l ++ q) 0 (Some w) = rw ← plain_add_asts l s req w; plain_scan rw.1 req q 0 (Some rw.2).
Proof.
  induction l as [|i l IH]; intros s req q w Hreq Hf; [done|]. apply Forall_cons in Hf as [(Hk & Hne & Hp) Hf].
  cbn [app plain_scan]. rewrite (proj2 (Z.eqb_neq _ _) Hne), plain_scan_step, Hp by done. rewrite (plain_add_cons i l).
  destruct (plain_add_asts [i] s req w) as [[s1 w1]|] eqn:E; [|done]. cbn [mbind run_bind fst snd].
  pose proof (plain_add_evolves _ _ _ _ _ _ Hne E) as He. apply IH; [by eapply evolves_known|].
  eapply Forall_impl; [exact Hf|]. cbn. intros j (? & ? & ?). split_and!; [by eapply evolves_known|done|by rewrite (plain_passes_evolves _ _ _ _ He)].
Qed.

Lemma plain_asts_evolves l : forall s req w s' w', (req ∉ l) -> plain_add_asts l s req w = Ret (s', w') -> evolves req s s'.
Proof.
  induction l as [|i l IH]; intros s req w s' w' Hn; [by intros [= <- <-]|]. apply not_elem_of_cons in Hn as [Hne Hn].
  rewrite (plain_add_cons i l). destruct (plain_add_asts [i] s req w) as [[s1 w1]|] eqn:E; [|done]. cbn [mbind run_bind fst snd]. intros Hr.
  etransitivity; [by eapply plain_add_evolves|by eapply IH].
Qed.

(** A mode group the walk can take at once. *)
Definition plain_walk (s : sl_resource) (req : Z) (l : list Z) : Prop :=
  l = [req] \/ (ring (sl_mode s) l /\ Forall (fun i => has_lock s i /\ i <> req) l /\ exists m, Forall (fun i => mode_of s i = m) l).

Lemma plain_walk_evolves req s s' l : evolves req s s' -> plain_walk s req l -> plain_walk s' req l.
Proof.
  intros He [?|(Hr & Hf & m & Hm)]; [by left|]. right. split; [by rewrite (proj1 (ev_links _ _ _ He))|]. split.
  - eapply Forall_impl; [exact Hf|]. cbn. intros i [? ?]. split; [by eapply evolves_known|done].
  - exists m. eapply Forall_impl; [exact Hm|]. cbn. intros i. by rewrite (evolves_mode _ _ _ _ He).
Qed.

Lemma plain_loop_scan queue req (ls : list (list Z)) : NoDup queue -> forall s X fuel compat wl,
  queue = X ++ concat ls -> has_lock s req -> Forall (plain_walk s req) ls -> (length (concat ls) <= fuel)%nat ->
  plain_loop fuel queue s req (concat ls) compat wl = plain_scan s req (concat ls) compat wl.
Proof.
  intros Hnd. induction ls as [|l ls IH]; intros s X fuel compat wl Eq Hreq Hw Hf; [by destruct fuel|].
  apply Forall_cons in Hw as [[->|(Hring & Hk & m & Hm)] Hw].
  { destruct fuel as [|fuel]; [cbn in Hf; lia|]. cbn. by rewrite Z.eqb_refl. }
  destruct l as [|a rest]; [done|]. pose proof (ring_last _ _ _ Hring) as Hlast.
  pose proof Hk as [[Hka Hne] _]%Forall_cons. pose proof Hm as [Hma _]%Forall_cons.
  assert (Hall : Forall (fun i => has_lock s i /\ i <> req /\ plain_passes s req i = plain_passes s req a) (a :: rest)).
  { rewrite Forall_forall in Hk, Hm |- *. intros i Hi. destruct (Hk i Hi). split_and!; try done. unfold plain_passes. by rewrite (Hm i Hi), Hma. }
  cbn [concat] in *. assert (Hafter : list_after queue (list_prev (sl_mode s) a) = Ret (concat ls)).
  { rewrite Eq. rewrite Eq in Hnd. by apply list_after_last. }
  pose proof Hka as [la Hla]. pose proof Hreq as [rl Hrl].
  destruct fuel as [|fuel]; [cbn in Hf; lia|]. cbn [plain_loop app]. rewrite (proj2 (Z.eqb_neq _ _) Hne). unfold sl_get, get_lock.
  rewrite Hla. cbn [mbind run_bind]. rewrite Hrl. cbn [mbind run_bind]. rewrite Hafter. cbn [mbind run_bind].
  assert (Hpa : plain_passes s req a = lockmode_compat (l_req_mode la) (l_req_mode rl)) by (unfold plain_passes, mode_of; by rewrite Hla, Hrl).
  rewrite <-Hpa. cbn [app length] in Hf. rewrite length_app in Hf.
  assert (Hgo : forall s1 c1 w1, evolves req s s1 ->
    plain_loop fuel queue s1 req (concat ls) c1 w1 = plain_scan s1 req (concat ls) c1 w1).
  { intros s1 c1 w1 He. apply (IH s1 (X ++ a :: rest)); [by rewrite Eq, <-!app_assoc|by eapply evolves_known| |lia].
    eapply Forall_impl; [exact Hw|]. intros ?. by apply plain_walk_evolves. }
  destruct (plain_passes s req a) eqn:Hp.
  - rewrite (Hgo s) by done. symmetry. apply (plain_scan_pass (a :: rest)); [done|].
    eapply Forall_impl; [exact Hall|]. intros i (? & ? & ?). split_and!; congruence.
  - assert (Hcf : Forall (fun i => has_lock s i /\ i <> req /\ plain_passes s req i = false) (a :: rest))
      by (eapply Forall_impl; [exact Hall|]; intros i (? & ? & ?); split_and!; congruence).
    destruct wl as [w|]; [|cbn [plain_scan]; rewrite (proj2 (Z.eqb_neq _ _) Hne), plain_scan_step, Hp by done; done].
    assert (Hndl : NoDup (a :: rest)).
    { rewrite Eq in Hnd. apply list.NoDup_app in Hnd as (_ & _ & H). by apply list.NoDup_app in H as (H & _). }
    rewrite (ring_entries_spec _ a rest) by (done || (rewrite Eq, !length_app; cbn; lia)). cbn [mbind run_bind].
    assert (Hc : plain_scan s req (a :: rest ++ concat ls) compat (Some w) = plain_scan s req (a :: rest ++ concat ls) 0 (Some w)).
    { cbn [plain_scan]. rewrite (proj2 (Z.eqb_neq _ _) Hne), !plain_scan_step, Hp by done. done. }
    rewrite Hc. etransitivity; [|symmetry; exact (plain_scan_conflict (a :: rest) s req (concat ls) w Hreq Hcf)].
    destruct (plain_add_asts (a :: rest) s req w) as [[s1 w1]|] eqn:E; [|done]. cbn [mbind run_bind fst snd]. apply Hgo.
    eapply plain_asts_evolves; [|exact E]. intros Hin. rewrite Forall_forall in Hk. by destruct (Hk req Hin).
Qed.
