(* ===== verification/SkipSystem.v ===== *)
(** What holds of a resource of plain or inodebits locks: the skip lists have their shape,
    granted locks do not clash, and the checks, granting and taking locks out keep it that
    way (lustre/ldlm/ldlm_inodebits.c, ldlm_plain.c, ldlm_lock.c). *)

From stdpp Require Import gmap.
From S2P Require Import Prelude IntervalTree LdlmLock LdlmExtent LdlmSafe LdlmServer SkipLock SkipRing SkipShape SkipScan SkipPlain.

Implicit Types (s : sl_resource).

(** ** The invariant *)

(** Locks that must not be granted together: modes that conflict, and for inodebits a bit
    in common.  A lock in COS mode clashes with none here: it is kept for the order of
    transactions only, and what it conflicts with depends on the client. *)
Definition clash s (i j : Z) : Prop :=
  mode_of s i <> LCK_COS /\ mode_of s j <> LCK_COS /\ lockmode_compat (mode_of s i) (mode_of s j) = false
  /\ (sl_type_of s = LDLM_IBITS -> Z.land (bits (l_inodebits s i)) (bits (l_inodebits s j)) <> 0).

Record lock_fine (l : ldlm_lock) : Prop := {
  lf_mode : l_req_mode l ∈ modes;
  lf_ast : ast_ok l;
  lf_cp : cp_ok l
}.

(** All is well, but for the lock [x] that is on no list. *)
Record sl_ok_but (x : option Z) s : Prop := {
  so_shape : exists gs, shape s gs;
  so_fine : forall j l, lr_locks (sl_res s) !! j = Some l -> lock_fine l /\ is_Some (sl_policy_data s !! j);
  so_mode : forall j l, Some j <> x -> lr_locks (sl_res s) !! j = Some l ->
    (j ∈ lr_granted (sl_res s) -> l_granted_mode l = l_req_mode l /\ ldlm_is_destroyed l = false)
    /\ (j ∉ lr_granted (sl_res s) -> l_granted_mode l = LCK_MINMODE);
  so_granted : forall j, j ∈ lr_granted (sl_res s) -> has_lock s j /\ (sl_type_of s = LDLM_IBITS -> try_bits (l_inodebits s j) = 0);
  so_waiting : forall j, j ∈ lr_waiting (sl_res s) -> (j ∉ lr_granted (sl_res s))
    /\ (exists l, lr_locks (sl_res s) !! j = Some l /\ ldlm_is_destroyed l = false)
    /\ (sl_type_of s = LDLM_IBITS -> bits (l_inodebits s j) <> 0);
  so_nodup : NoDup (lr_waiting (sl_res s));
  so_clash : forall i j, i ∈ lr_granted (sl_res s) -> j ∈ lr_granted (sl_res s) -> i <> j -> ~ clash s i j;
  so_loose : forall j, x = Some j -> (j ∉ lr_granted (sl_res s)) /\ (j ∉ lr_waiting (sl_res s))
}.

Definition sl_ok s : Prop := sl_ok_but None s.

Lemma clash_sym s i j :
  mode_of s i ∈ modes -> mode_of s j ∈ modes -> clash s i j -> clash s j i.
Proof.
  intros Hi Hj (H1 & H2 & H3 & H4). split_and!; try done; [by rewrite lockmode_compat_sym|]. intros Ht. rewrite Z.land_comm. by apply H4.
Qed.

Lemma ok_mode x s j l : sl_ok_but x s -> lr_locks (sl_res s) !! j = Some l -> mode_of s j = l_req_mode l /\ mode_of s j ∈ modes.
Proof. intros Hok Hl. unfold mode_of. rewrite Hl. split; [done|]. apply (so_fine _ _ Hok _ _ Hl). Qed.

Lemma ok_known x s j : sl_ok_but x s -> has_lock s j -> known s j.
Proof. intros Hok [l Hl]. split; [by exists l|]. by apply (so_fine _ _ Hok j l). Qed.

Lemma ok_asts x s : sl_ok_but x s -> asts_ok (sl_res s).
Proof. intros Hok j l Hl. by apply (so_fine _ _ Hok j l). Qed.

(** ** Checks leave it as it is *)

(** What checks change. *)
Record calmed (req : Z) s s' : Prop := {
  cd_evolves : evolves req s s';
  cd_quiet : quiet (sl_res s) (sl_res s')
}.

#[export] Instance calmed_preorder req : PreOrder (calmed req).
Proof. split; [by split|]. intros s1 s2 s3 [? ?] [? ?]. split; by etransitivity. Qed.

Lemma calmed_untouched req s s' i : calmed req s s' -> untouched s s' i.
Proof.
  intros [He _]. destruct (ev_links _ _ _ He) as [E1 E2]. unfold untouched. rewrite E1, E2. split_and!; try done.
  - by apply (evolves_mode req).
  - unfold key_of. by rewrite (ev_type _ _ _ He), (evolves_bits _ _ _ _ He).
Qed.

Lemma shape_untouched s s' gs :
  (forall i, i ∈ flat gs -> untouched s s' i) -> lr_granted (sl_res s') = lr_granted (sl_res s) ->
  sl_mode s' = sl_mode s -> sl_policy s' = sl_policy s -> shape s gs -> shape s' gs.
Proof.
  intros Hu Eg E1 E2 [Hgr Hnd Hg (ms & Hms & Hmd) Hs]. split; try done.
  - by rewrite Eg.
  - rewrite Forall_forall in Hg |- *. intros g Hin. apply (group_untouched s); [|by apply Hg]. intros i Hi. apply Hu. by eapply elem_of_flat.
  - exists ms. split; [|done]. by eapply modes_untouched.
  - by rewrite E1, E2.
Qed.

Lemma calmed_shape req s s' gs : calmed req s s' -> shape s gs -> shape s' gs.
Proof.
  intros Hc. pose proof Hc as [He _]. destruct (ev_links _ _ _ He), (ev_lists _ _ _ He). apply shape_untouched; try done.
  intros i _. by eapply calmed_untouched.
Qed.

Lemma same_lock_fine l l' : same_lock l l' -> lock_fine l -> lock_fine l'.
Proof.
  intros [Hc Ha] [H1 H2 H3]. unfold core in Hc. injection Hc as E1 _ _ _ _ _ _ E8 _ E10. split.
  - by rewrite E1.
  - auto.
  - unfold cp_ok in *. by rewrite E8, E10.
Qed.

Lemma calmed_clash req s s' i j : calmed req s s' -> clash s' i j -> clash s i j.
Proof.
  intros [He _] (H1 & H2 & H3 & H4). rewrite !(evolves_mode _ _ _ _ He) in *. rewrite (ev_type _ _ _ He), !(evolves_bits _ _ _ _ He) in H4. done.
Qed.

Lemma calmed_ok x req s s' : calmed req s s' -> sl_ok_but x s -> sl_ok_but x s'.
Proof.
  intros Hc Hok. pose proof Hc as [He Hq]. destruct (ev_lists _ _ _ He) as [Eg Ew].
  destruct Hok as [(gs & Hsh) H2 H3 H4 H5 H6 H7 H8]. split.
  - exists gs. by eapply calmed_shape.
  - intros j l' Hl'. destruct (quiet_lookup_back _ _ _ _ Hq Hl') as (l & Hl & Hs). destruct (H2 j l Hl) as [Hf Hd].
    split; [by eapply same_lock_fine|by eapply evolves_data].
  - intros j l' Hx Hl'. destruct (quiet_lookup_back _ _ _ _ Hq Hl') as (l & Hl & [Hcr _]). unfold core in Hcr.
    injection Hcr as E1 E2 _ _ _ _ _ _ E9 _. rewrite Eg, E1, E2, E9. by apply H3.
  - intros j. rewrite Eg. intros Hj. destruct (H4 j Hj) as [Hk Ht]. split; [by eapply evolves_known|].
    rewrite (ev_type _ _ _ He). intros Hty. eapply evolves_try; [exact He|auto].
  - intros j. rewrite Eg, Ew. intros Hj. destruct (H5 j Hj) as (Hn & (l & Hl & Hd) & Hb). split; [done|]. split.
    + destruct (quiet_lookup _ _ _ _ Hq Hl) as (l' & Hl' & [Hcr _]). exists l'. split; [done|]. unfold core in Hcr. congruence.
    + rewrite (ev_type _ _ _ He), (evolves_bits _ _ _ _ He). done.
  - by rewrite Ew.
  - intros i j. rewrite Eg. intros Hi Hj Hne Hcl. by apply (H7 i j Hi Hj Hne), (calmed_clash req s s').
  - intros j. rewrite Eg, Ew. apply H8.
Qed.

(** ** What the checks find *)

Lemma quiet_with_bits s j p : quiet (sl_res s) (sl_res (with_bits s j p)).
Proof. done. Qed.

Definition listed_opt s (wl : option (list Z)) : Prop := forall w, wl = Some w -> listed (sl_res s) w.

Lemma should_run_returns s i req : has_lock s i -> has_lock s req -> exists b, ldlm_should_run_bl_ast s i req = Ret b.
Proof.
  intros [l Hl] [rl Hrl]. unfold ldlm_should_run_bl_ast, sl_get, get_lock. rewrite Hl, Hrl. cbn [mbind run_bind].
  repeat case_match; by eexists.
Qed.

Lemma add_bl_ast_spec s i req w :
  asts_ok (sl_res s) -> has_lock s i -> has_lock s req -> i <> req ->
  exists s' w', add_bl_ast s i req w = Ret (s', w') /\ calmed req s s' /\ sl_policy_data s' = sl_policy_data s
    /\ (listed (sl_res s) w -> listed (sl_res s') w').
Proof.
  intros Ha Hi Hr Hne.
  enough (exists s' w', add_bl_ast s i req w = Ret (s', w') /\ quiet (sl_res s) (sl_res s') /\ (listed (sl_res s) w -> listed (sl_res s') w'))
    as (s' & w' & E & Hq & Hl).
  { destruct (add_bl_ast_evolves _ _ _ _ _ _ Hne E) as (He & Ed & _). exists s', w'. split_and!; try done. }
  unfold add_bl_ast. destruct (should_run_returns s i req Hi Hr) as [b ->]. cbn [mbind run_bind].
  destruct b; [|by eexists _, _]. destruct (add_bl_spec (sl_res s) i req w Ha Hi Hr) as (res' & w' & E & Hq & Hl).
  unfold ldlm_add_ast_work_item. rewrite E. cbn [mbind run_bind fst snd]. by eexists _, _.
Qed.

Lemma plain_add_spec s i req w :
  asts_ok (sl_res s) -> has_lock s i -> has_lock s req -> i <> req ->
  exists s' w', plain_add_asts [i] s req w = Ret (s', w') /\ calmed req s s'
    /\ (listed (sl_res s) w -> listed (sl_res s') w').
Proof.
  intros Ha Hi Hr Hne.
  enough (exists s' w', plain_add_asts [i] s req w = Ret (s', w') /\ quiet (sl_res s) (sl_res s') /\ (listed (sl_res s) w -> listed (sl_res s') w'))
    as (s' & w' & E & Hq & Hl).
  { pose proof (plain_add_evolves _ _ _ _ _ _ Hne E) as He. by exists s', w'. }
  cbn [plain_add_asts]. destruct Hi as [l Hl]. unfold sl_get, get_lock. rewrite Hl. cbn [mbind run_bind].
  destruct (l_blocking_ast l); [|by eexists _, _].
  destruct (add_bl_spec (sl_res s) i req w Ha ltac:(by exists l) Hr) as (res' & w' & E & Hq & Hls).
  unfold ldlm_add_ast_work_item. rewrite E. cbn [mbind run_bind fst snd]. by eexists _, _.
Qed.

(** The bits the request tries only get fewer. *)
Definition shrinks (req : Z) s s' : Prop :=
  forall x, Z.land x (try_bits (l_inodebits s req)) = 0 -> Z.land x (try_bits (l_inodebits s' req)) = 0.

(** A lock that does not keep the request from being granted. *)
Definition cleared (req rb : Z) s s' (i : Z) : Prop :=
  passes s req i = true \/ mode_of s i = LCK_COS
  \/ (Z.land (bits (l_inodebits s i)) rb = 0 /\ Z.land (bits (l_inodebits s i)) (try_bits (l_inodebits s' req)) = 0).

Definition step_list (r : compat_step) : option (list Z) := match r with CompatDone _ wl => wl | CompatGoes _ _ wl => wl end.
Definition step_rc (r : compat_step) : Z := match r with CompatDone _ _ => 0 | CompatGoes c _ _ => c end.

(** What a scan of the locks [q] ends with. *)
Record scanned (req rb : Z) s (q : list Z) (compat : Z) (wl : option (list Z)) (r : compat_step) : Prop := {
  sn_calm : calmed req s (step_state r);
  sn_some : is_Some wl -> is_Some (step_list r);
  sn_list : listed_opt s wl -> listed_opt (step_state r) (step_list r);
  sn_try : shrinks req s (step_state r);
  sn_rc : step_rc r = 0 \/ step_rc r = compat;
  sn_zero : step_rc r = 0 -> compat = 0 \/ rb <> 0 \/ no_bits (step_state r) req rb = true;
  sn_left : step_rc r = 1 -> no_bits s req rb = false -> no_bits (step_state r) req rb = false;
  sn_one : step_rc r = 1 -> Forall (cleared req rb s (step_state r)) q
}.

Lemma land_ldiff_lor x a b t : Z.land x (Z.ldiff t (Z.lor a b)) = 0 -> Z.land a (Z.ldiff t (Z.lor a b)) = 0.
Proof.
  intros _. apply Z.bits_inj'. intros n Hn. rewrite Z.land_spec, Z.ldiff_spec, Z.lor_spec, Z.bits_0.
  destruct (Z.testbit t n), (Z.testbit a n), (Z.testbit b n); done.
Qed.

Lemma land_ldiff_mono x t d : Z.land x t = 0 -> Z.land x (Z.ldiff t d) = 0.
Proof.
  intros H. apply Z.bits_inj'. intros n Hn. apply (f_equal (fun z => Z.testbit z n)) in H.
  rewrite Z.land_spec, Z.bits_0 in *. rewrite Z.ldiff_spec. destruct (Z.testbit x n), (Z.testbit t n), (Z.testbit d n); done.
Qed.

Lemma shrinks_same req s s' : try_bits (l_inodebits s' req) = try_bits (l_inodebits s req) -> shrinks req s s'.
Proof. by intros E x; rewrite E. Qed.

Lemma scan_lock_spec rep req rb s i compat wl :
  asts_ok (sl_res s) -> known s i -> known s req -> i <> req ->
  exists r, scan_lock rep s req rb i compat wl = Ret r /\ scanned req rb s [i] compat wl r.
Proof.
  intros Ha Hi Hr Hne. pose proof Hi as [[l Hl] Hd]. pose proof Hr as [[rl Hrl] Hrd].
  unfold scan_lock, sl_get, get_lock. rewrite Hl. cbn [mbind run_bind]. rewrite Hrl. cbn [mbind run_bind].
  destruct (modes_pass l rl) eqn:Hp.
  { eexists. split; [done|]. split; cbn; [reflexivity|done|done|by intros x|by right|tauto|done|]. intros _. apply Forall_singleton. left. unfold passes. by rewrite Hl, Hrl. }
  set (s1 := filter_try_bits s i req). set (s2 := drop_try_bits s1 i rb).
  assert (He1 : evolves req s s1) by (by apply filter_evolves).
  assert (Hc1 : calmed req s s1) by (by split).
  assert (Hc2 : calmed req s s2) by (split; [etransitivity; [exact He1|apply drop_evolves; by eapply evolves_data]|done]).
  assert (Ht1 : try_bits (l_inodebits s1 req)
    = Z.ldiff (try_bits (l_inodebits s req)) (Z.lor (bits (l_inodebits s i)) (try_bits (l_inodebits s i)))) by (unfold s1, filter_try_bits; by rewrite with_bits_eq).
  assert (Ht2 : l_inodebits s2 req = l_inodebits s1 req) by (by apply with_bits_ne).
  assert (Hs1 : shrinks req s s1) by (intros x Hx; rewrite Ht1; by apply land_ldiff_mono).
  assert (Hs2 : shrinks req s s2) by (intros x Hx; rewrite Ht2; by apply Hs1).
  destruct (no_bits s1 req rb) eqn:Hn.
  { eexists. split; [done|]. split; cbn; [done|done|done|done|by left|by right; right|done|done]. }
  destruct (negb (Z.land (bits (l_inodebits s2 i)) rb =? 0) && negb (cos_compatible s2 (rep i) req l rl)) eqn:Hcf.
  - apply andb_true_iff in Hcf as [Hb _]. assert (Hrb : rb <> 0) by (intros ->; by rewrite Z.land_0_r in Hb).
    destruct wl as [w|]; [|eexists; split; [done|]; split; cbn; [done|done|done|done|by left|by right; left|done|done]].
    destruct (add_bl_ast_spec s2 i req w) as (s3 & w3 & -> & Hc3 & Ed3 & Hl3); try done;
      [by eapply evolves_known; [apply Hc2|exists l]|by eapply evolves_known; [apply Hc2|exists rl]|].
    cbn [mbind run_bind fst snd]. eexists. split; [done|]. split; cbn.
    + by etransitivity.
    + done.
    + intros Hls w' [= <-]. apply Hl3. by apply Hls.
    + intros x Hx. unfold l_inodebits. rewrite Ed3. by apply Hs2.
    + by left.
    + intros _. by right; left.
    + done.
    + done.
  - eexists. split; [done|]. split; cbn; [done|done|done|done|by right|tauto|intros _ _; unfold no_bits; by rewrite Ht2|]. intros _. apply Forall_singleton. right.
    rewrite (evolves_bits _ _ _ i (cd_evolves _ _ _ Hc2)) in Hcf. apply andb_false_iff in Hcf as [Hb|Hb]; apply negb_false_iff in Hb.
    + right. apply Z.eqb_eq in Hb. split; [done|]. rewrite Ht2, Ht1. by apply (land_ldiff_lor 0).
    + left. unfold cos_compatible in Hb. unfold mode_of. rewrite Hl. destruct (Z.eqb_spec (l_req_mode l) LCK_COS); done.
Qed.

Lemma scan_spec rep req rb q : forall s compat wl,
  asts_ok (sl_res s) -> Forall (known s) q -> known s req -> (req ∉ q) ->
  exists r, scan rep s req rb q compat wl = Ret r /\ scanned req rb s q compat wl r.
Proof.
  induction q as [|i q IH]; intros s compat wl Ha Hk Hr Hn.
  { eexists. split; [done|]. split; cbn; [reflexivity|done|done|by intros x|by right|tauto|done|constructor]. }
  apply Forall_cons in Hk as [Hi Hk]. apply not_elem_of_cons in Hn as [Hne Hn]. cbn [scan].
  rewrite (proj2 (Z.eqb_neq i req)) by congruence.
  destruct (scan_lock_spec rep req rb s i compat wl) as (r1 & -> & Hs1); try done. cbn [mbind run_bind].
  destruct r1 as [s1 w1|c1 s1 w1].
  { eexists. split; [done|]. destruct Hs1. split; try done. }
  destruct Hs1 as [G1 G2 G3 G4 G5 G6 G8 G7]; cbn in *. pose proof (cd_evolves _ _ _ G1) as He.
  destruct (IH s1 c1 w1) as (r & -> & [F1 F2 F3 F4 F5 F6 F8 F7]); try done.
  - eapply quiet_asts_ok; [apply G1|done].
  - eapply Forall_impl; [exact Hk|]. intros j. by apply (evolves_knows req).
  - by eapply evolves_knows.
  - exists r. split; [done|]. split.
    + by etransitivity.
    + auto.
    + auto.
    + intros x Hx. by apply F4, G4.
    + destruct F5 as [?| ->]; [by left|]. destruct G5; auto.
    + intros Hz. destruct (F6 Hz) as [Hc|[?|?]]; [|by right; left|by right; right]. destruct (G6 Hc) as [?|[?|Hnb]]; [by left|by right; left|].
      right; right. unfold no_bits in *. apply Z.eqb_eq in Hnb. apply Z.eqb_eq. apply Z.lor_eq_0_iff in Hnb as [-> Ht].
      rewrite Z.lor_0_l. specialize (F4 (-1)). rewrite Ht, !Z.land_m1_l in F4. by apply F4.
    + intros Ho Hz. apply F8; [done|]. apply G8; [|done]. destruct F5; [lia|congruence].
    + intros Ho. specialize (F7 Ho). constructor.
      * assert (Hc1 : c1 = 1) by (destruct F5; [lia|congruence]). specialize (G7 Hc1). apply Forall_inv in G7.
        destruct G7 as [?|[?|[? Ht]]]; [by left|by right; left|right; right]. split; [done|by apply F4].
      * eapply Forall_impl; [exact F7|]. intros j. unfold cleared.
        by rewrite (passes_evolves _ _ _ _ He), (evolves_mode _ _ _ _ He), (evolves_bits _ _ _ _ He).
Qed.
