(* ===== verification/SkipCheck.v ===== *)
(** The conflict checks of plain and inodebits locks on a resource whose skip lists have
    their shape (lustre/ldlm/ldlm_inodebits.c, ldlm_plain.c): the walks are scans, they
    return, and what they found out. *)

From stdpp Require Import gmap.
From S2P Require Import Prelude IntervalTree LdlmLock LdlmExtent LdlmSafe LdlmServer SkipLock SkipRing SkipShape SkipScan SkipPlain SkipSystem.

Implicit Types (s : sl_resource) (gs : groups).

(** ** Up to the request *)

(** The locks in front of the request. *)
Fixpoint before (req : Z) (q : list Z) : list Z :=
  match q with
  | [] => []
  | i :: q' => if i =? req then [] else i :: before req q'
  end.

Lemma before_not req q : req ∉ before req q.
Proof.
  induction q as [|i q IH]; cbn; [apply not_elem_of_nil|]. destruct (Z.eqb_spec i req); [apply not_elem_of_nil|].
  by apply not_elem_of_cons.
Qed.

Lemma before_sub req q i : i ∈ before req q -> i ∈ q.
Proof.
  induction q as [|j q IH]; cbn; [done|]. destruct (j =? req); [by intros ?%not_elem_of_nil|].
  intros [->|Hi]%elem_of_cons; [by left|right; auto].
Qed.

Lemma before_all req q : (req ∉ q) -> before req q = q.
Proof.
  induction q as [|i q IH]; cbn; [done|]. intros [Hne Hn]%not_elem_of_cons. rewrite (proj2 (Z.eqb_neq i req)) by congruence.
  f_equal. auto.
Qed.

Lemma scan_before rep req rb q : forall s compat wl, scan rep s req rb q compat wl = scan rep s req rb (before req q) compat wl.
Proof.
  induction q as [|i q IH]; intros s compat wl; [done|]. cbn [scan before]. destruct (i =? req) eqn:E; [done|].
  cbn [scan]. rewrite E. destruct (scan_lock _ _ _ _ _ _ _) as [[]|]; cbn [mbind run_bind]; [done|apply IH|done].
Qed.

Lemma plain_scan_before req q : forall s compat wl, plain_scan s req q compat wl = plain_scan s req (before req q) compat wl.
Proof.
  induction q as [|i q IH]; intros s compat wl; [done|]. cbn [plain_scan before]. destruct (i =? req) eqn:E; [done|].
  cbn [plain_scan]. rewrite E. destruct (plain_scan_lock _ _ _ _ _) as [[]|]; cbn [mbind run_bind]; [done|apply IH|done].
Qed.

(** ** The walk over the granted locks *)

(** The first lock of the policy group of the lock [i]. *)
Definition rep_of gs (i : Z) : Z :=
  match base.filter (fun pg => i ∈ pg) (concat gs) with
  | (a :: _) :: _ => a
  | _ => i
  end.

Lemma concat_once (L : list (list Z)) p p' x : NoDup (concat L) -> p ∈ L -> p' ∈ L -> x ∈ p -> x ∈ p' -> p = p'.
Proof.
  induction L as [|q L IH]; [by intros _ ?%not_elem_of_nil|]. cbn. intros (_ & Hd & Hn)%list.NoDup_app Hp Hp' Hx Hx'.
  apply elem_of_cons in Hp as [->|Hp], Hp' as [->|Hp']; [done|..|auto]; exfalso; apply (Hd x); try done; by eapply elem_of_concat.
Qed.

Lemma flat_concat gs : concat (concat gs) = flat gs.
Proof. unfold flat. induction gs as [|g gs IH]; [done|]. cbn. by rewrite concat_app, IH. Qed.

Lemma rep_head gs a rest b : NoDup (flat gs) -> a :: rest ∈ concat gs -> b ∈ a :: rest -> rep_of gs b = a.
Proof.
  intros Hn Hin Hb. rewrite <-flat_concat in Hn. unfold rep_of. destruct (base.filter _ _) as [|p ps] eqn:E.
  - exfalso. apply (not_elem_of_nil (a :: rest)). rewrite <-E. by apply list_elem_of_filter.
  - assert (Hp : p ∈ base.filter (fun pg => b ∈ pg) (concat gs)) by (rewrite E; by left).
    apply list_elem_of_filter in Hp as [Hbp Hp]. by rewrite (concat_once _ _ _ _ Hn Hp Hin Hbp Hb).
Qed.

Lemma flat_policy gs g pg i : g ∈ gs -> pg ∈ g -> i ∈ pg -> i ∈ flat gs.
Proof. intros Hg Hp Hi. eapply elem_of_flat; [exact Hg|]. by eapply elem_of_concat. Qed.

Lemma concat_policy gs g pg : g ∈ gs -> pg ∈ g -> pg ∈ concat gs.
Proof. intros Hg Hp. apply list_elem_of_In, in_concat. exists g. split; by apply list_elem_of_In. Qed.

Section Ok.
Context (x : option Z) s (req : Z).
Hypothesis Hok : sl_ok_but x s.
Hypothesis Hreq : has_lock s req.
Hypothesis Hng : req ∉ lr_granted (sl_res s).

Lemma granted_known i : i ∈ lr_granted (sl_res s) -> known s i.
Proof. intros Hi. eapply ok_known; [exact Hok|]. by apply (so_granted _ _ Hok). Qed.

Lemma waiting_known i : i ∈ lr_waiting (sl_res s) -> known s i.
Proof. intros Hi. eapply ok_known; [exact Hok|]. destruct (so_waiting _ _ Hok i Hi) as (_ & (l & Hl & _) & _). by exists l. Qed.

Lemma queue_known q i : i ∈ queue_of s q -> known s i.
Proof. destruct q; [apply granted_known|apply waiting_known]. Qed.

Lemma queue_nodup q : NoDup (queue_of s q).
Proof. destruct q; [|apply Hok]. destruct (so_shape _ _ Hok) as (gs & Hsh). cbn. rewrite (sh_granted _ _ Hsh). apply Hsh. Qed.

Lemma group_mode_of gs g : shape s gs -> g ∈ gs -> exists m, group_mode s g m.
Proof.
  intros Hsh Hg. destruct (sh_modes _ _ Hsh) as (ms & Hms & _). apply list_elem_of_lookup in Hg as [n Hn].
  destruct (Forall2_lookup_l _ _ _ _ _ Hms Hn) as (m & _ & Hm). by exists m.
Qed.

Lemma policy_key_of gs g pg : shape s gs -> g ∈ gs -> pg ∈ g -> exists k, group_key s pg k.
Proof.
  intros Hsh Hg Hp. pose proof (sh_groups _ _ Hsh) as Hgr. rewrite Forall_forall in Hgr. destruct (Hgr g Hg) as (_ & _ & ks & Hks & _).
  apply list_elem_of_lookup in Hp as [n Hn]. destruct (Forall2_lookup_l _ _ _ _ _ Hks Hn) as (k & _ & Hk). by exists k.
Qed.

Lemma flat_length gs g pg : g ∈ gs -> pg ∈ g -> (length pg <= length (flat gs))%nat.
Proof.
  intros Hg Hp. apply list_elem_of_split in Hg as (gs1 & gs2 & ->), Hp as (g1 & g2 & ->).
  rewrite flat_app, flat_cons, concat_mid, !length_app. lia.
Qed.

Lemma policy_walkable gs g pg :
  shape s gs -> sl_type_of s = LDLM_IBITS -> g ∈ gs -> pg ∈ g -> policy_walk (rep_of gs) s req pg.
Proof.
  intros Hsh Ht Hg Hp. pose proof (sh_groups _ _ Hsh) as Hgr. rewrite Forall_forall in Hgr. destruct (Hgr g Hg) as (_ & Hrp & _).
  rewrite Forall_forall in Hrp. specialize (Hrp pg Hp). destruct (ring_nonempty _ _ Hrp) as (a & rest & ->).
  pose proof (sh_granted _ _ Hsh) as Hgl. pose proof (sh_nodup _ _ Hsh) as Hnd. pose proof (concat_policy _ _ _ Hg Hp) as Hc.
  assert (Hin : forall b, b ∈ a :: rest -> b ∈ lr_granted (sl_res s) /\ b <> req).
  { intros b Hb. assert (b ∈ lr_granted (sl_res s)) by (rewrite Hgl; by eapply flat_policy). split; [done|]. by intros ->. }
  destruct (group_mode_of gs g Hsh Hg) as (m & Hm). destruct (policy_key_of gs g _ Hsh Hg Hp) as (k & Hk).
  unfold group_mode in Hm. unfold group_key, key_of in Hk. rewrite Ht in Hk. rewrite Forall_forall in Hm, Hk.
  assert (Ha : a ∈ a :: rest) by (by left).
  exists a, rest. split; [done|]. split; [by apply granted_known, Hin|]. split; [by eapply rep_head|]. split; [by apply Hin|]. split; [|split].
  - apply Forall_forall. intros b Hb. assert (Hb' : b ∈ a :: rest) by (by right). split_and!; [by apply granted_known, Hin| |by apply Hin].
    split.
    + by rewrite (Hk b Hb'), (Hk a Ha).
    + destruct (Hin b Hb') as [Hbg _]. by apply (so_granted _ _ Hok).
    + by rewrite (Hm b), (Hm a) by (by eapply elem_of_concat).
    + by rewrite !(rep_head gs a rest) by done.
  - done.
  - pose proof (flat_length gs g _ Hg Hp) as Hl. cbn in Hl. rewrite Hgl. lia.
Qed.

Lemma granted_walkable gs : shape s gs -> sl_type_of s = LDLM_IBITS -> Forall (mode_walk (rep_of gs) s req) gs.
Proof.
  intros Hsh Ht. apply Forall_forall. intros g Hg. right. pose proof (sh_groups _ _ Hsh) as Hgr. rewrite Forall_forall in Hgr.
  split; [by apply Hgr|]. split; [by eapply group_mode_of|]. apply Forall_forall. intros pg Hp. by eapply policy_walkable.
Qed.

(** A waiting lock is a group of its own. *)
Lemma waiting_single i : i ∈ lr_waiting (sl_res s) -> ring (sl_mode s) [i] /\ ring (sl_policy s) [i].
Proof.
  intros Hi. destruct (so_shape _ _ Hok) as (gs & Hsh). destruct (so_waiting _ _ Hok i Hi) as (Hn & _).
  rewrite (sh_granted _ _ Hsh) in Hn. destruct (sh_single _ _ Hsh i Hn) as [[? ?] [? ?]]. split; by apply ring_single.
Qed.

Definition singletons (q : list Z) : groups := map (fun i => [[i]]) q.

Lemma flat_singletons q : flat (singletons q) = q.
Proof. unfold flat, singletons. induction q as [|i q IH]; [done|]. cbn in *. by rewrite IH. Qed.

Lemma waiting_walkable : Forall (mode_walk id s req) (singletons (lr_waiting (sl_res s))).
Proof.
  apply Forall_forall. intros g Hg. unfold singletons in Hg. apply list_elem_of_fmap in Hg as (i & -> & Hi).
  destruct (decide (i = req)) as [->|Hne]; [by left|]. right. destruct (waiting_single i Hi). cbn [concat app]. split; [done|]. split.
  - exists (mode_of s i). by apply Forall_singleton.
  - constructor; [|constructor]. exists i, []. split; [done|]. split; [by apply waiting_known|]. split; [done|]. split; [done|]. split; [constructor|]. split; [done|].
    cbn; lia.
Qed.

(** ** The checks are scans *)

Definition rep_for gs (q : queue) : Z -> Z := match q with Granted => rep_of gs | Waiting => id end.

Lemma inodebits_queue_scan gs q wl :
  shape s gs -> sl_type_of s = LDLM_IBITS ->
  ldlm_inodebits_compat_queue s q req wl = inodebits_scan (rep_for gs q) s q req wl.
Proof.
  intros Hsh Ht. unfold ldlm_inodebits_compat_queue, inodebits_scan. destruct (no_bits s req _); [done|]. pose proof (queue_nodup q) as Hnd.
  assert (Hk : known s req) by (by eapply ok_known). f_equal. destruct q; cbn [queue_of rep_for] in *.
  - rewrite (sh_granted _ _ Hsh) in Hnd |- *. apply (compat_loop_scan (rep_of gs) (flat gs) req _ Hnd gs s []); [done|done|by apply granted_walkable|done].
  - rewrite <-(flat_singletons (lr_waiting (sl_res s))) in Hnd |- *.
    apply (compat_loop_scan id _ req _ Hnd (singletons (lr_waiting (sl_res s))) s []); [done|done| |done].
    apply waiting_walkable.
Qed.

Lemma plain_granted_walkable gs : shape s gs -> Forall (plain_walk s req) (map (@concat Z) gs).
Proof.
  intros Hsh. apply Forall_forall. intros l Hl. apply list_elem_of_fmap in Hl as (g & -> & Hg). right.
  pose proof (sh_groups _ _ Hsh) as Hgr. rewrite Forall_forall in Hgr. split; [by apply Hgr|]. split; [|by eapply group_mode_of].
  apply Forall_forall. intros i Hi. assert (Hin : i ∈ lr_granted (sl_res s)) by (rewrite (sh_granted _ _ Hsh); by eapply elem_of_flat).
  split; [by apply (so_granted _ _ Hok)|by intros ->].
Qed.

Lemma plain_waiting_walkable : Forall (plain_walk s req) (map (fun i => [i]) (lr_waiting (sl_res s))).
Proof.
  apply Forall_forall. intros l Hl. apply list_elem_of_fmap in Hl as (i & -> & Hi).
  destruct (decide (i = req)) as [->|Hne]; [by left|]. right. destruct (waiting_single i Hi). split; [done|]. split.
  - apply Forall_singleton. split; [by apply waiting_known|done].
  - exists (mode_of s i). by apply Forall_singleton.
Qed.

Lemma concat_singles (q : list Z) : concat (map (fun i => [i]) q) = q.
Proof. induction q as [|i q IH]; [done|]. cbn. by rewrite IH. Qed.

Lemma plain_queue_scans q wl : ldlm_plain_compat_queue s q req wl = plain_queue_scan s q req wl.
Proof.
  unfold ldlm_plain_compat_queue, plain_queue_scan. destruct (sl_get s req) as [rl|]; [|done]. cbn [mbind run_bind].
  unfold LASSERT. destruct (lockmode_verify (l_req_mode rl)); [|done]. pose proof (queue_nodup q) as Hnd. f_equal.
  destruct (so_shape _ _ Hok) as (gs & Hsh). destruct q; cbn [queue_of] in *.
  - rewrite (sh_granted _ _ Hsh) in Hnd |- *. apply (plain_loop_scan _ req (map (@concat Z) gs) Hnd s []); [done|done|by apply plain_granted_walkable|done].
  - rewrite <-(concat_singles (lr_waiting (sl_res s))) in Hnd |- *.
    apply (plain_loop_scan _ req (map (fun i => [i]) (lr_waiting (sl_res s))) Hnd s []); [done|done|apply plain_waiting_walkable|done].
Qed.

(** ** What a check found out *)

(** A lock that still stands in the way of the request with the bits it tries. *)
Definition stands s s' (r i : Z) : Prop :=
  mode_of s i <> LCK_COS /\ lockmode_compat (mode_of s i) (mode_of s r) = false
  /\ (sl_type_of s = LDLM_IBITS ->
      Z.land (bits (l_inodebits s i)) (Z.lor (bits (l_inodebits s r)) (try_bits (l_inodebits s' r))) <> 0).

Record checked (r : Z) s (q : queue) (wl : option (list Z)) (rc : Z) s' (wl' : option (list Z)) : Prop := {
  ck_calm : calmed r s s';
  ck_some : is_Some wl -> is_Some wl';
  ck_list : listed_opt s wl -> listed_opt s' wl';
  ck_try : sl_type_of s = LDLM_IBITS -> shrinks r s s';
  ck_rc : rc = 0 \/ rc = 1;
  ck_zero : rc = 0 -> sl_type_of s = LDLM_IBITS -> bits (l_inodebits s r) <> 0 \/ no_bits s' r (bits (l_inodebits s r)) = true;
  ck_left : rc = 1 -> sl_type_of s = LDLM_IBITS -> no_bits s' r (bits (l_inodebits s r)) = false;
  ck_one : rc = 1 -> forall i, i ∈ before r (queue_of s q) -> ~ stands s s' r i
}.

Lemma compat_result_step r : compat_result r = (step_rc r, step_state r, step_list r).
Proof. by destruct r. Qed.

Lemma cleared_stands s' i : sl_type_of s = LDLM_IBITS -> known s i -> cleared req (bits (l_inodebits s req)) s s' i -> ~ stands s s' req i.
Proof.
  intros Ht [[l Hl] _] Hc (H1 & H2 & H3). destruct Hc as [Hp|[Hp|[Hb Hb']]]; [|done|].
  - destruct Hreq as [rl Hrl]. unfold passes, modes_pass in Hp. unfold mode_of in H1, H2. rewrite Hl, Hrl in *.
    apply Z.eqb_neq in H1. by rewrite H1, H2 in Hp.
  - apply (H3 Ht). by rewrite Z.land_lor_distr_r, Hb, Hb'.
Qed.

Lemma inodebits_check q wl :
  sl_type_of s = LDLM_IBITS ->
  exists rc s' wl', ldlm_inodebits_compat_queue s q req wl = Ret (rc, s', wl') /\ checked req s q wl rc s' wl'.
Proof.
  intros Ht. destruct (so_shape _ _ Hok) as (gs & Hsh). rewrite (inodebits_queue_scan gs) by done. unfold inodebits_scan.
  destruct (no_bits s req _) eqn:Hn.
  { eexists _, _, _. split; [done|]. split; [reflexivity|done|done|by intros _ ?|by left|by right|done|done]. }
  rewrite scan_before. destruct (scan_spec (rep_for gs q) req (bits (l_inodebits s req)) (before req (queue_of s q)) s 1 wl)
    as (r & -> & [F1 F2 F3 F4 F5 F6 F8 F7]).
  - by eapply ok_asts.
  - apply Forall_forall. intros i Hi%before_sub. by eapply queue_known.
  - by eapply ok_known.
  - apply before_not.
  - cbn [mbind run_bind]. rewrite compat_result_step. eexists _, _, _. split; [done|]. split; try done.
    + intros Hz _. destruct (F6 Hz) as [?|[?|?]]; [lia|by left|by right].
    + intros Ho _. by apply F8.
    + intros Ho i Hi. apply cleared_stands; [done|by eapply queue_known, before_sub|]. specialize (F7 Ho). rewrite Forall_forall in F7. auto.
Qed.

Lemma plain_scan_spec q : forall s0 compat wl,
  asts_ok (sl_res s0) -> Forall (has_lock s0) q -> has_lock s0 req -> (req ∉ q) ->
  exists r, plain_scan s0 req q compat wl = Ret r /\ calmed req s0 (step_state r)
    /\ (is_Some wl -> is_Some (step_list r)) /\ (listed_opt s0 wl -> listed_opt (step_state r) (step_list r))
    /\ (step_rc r = 0 \/ step_rc r = compat /\ Forall (fun i => plain_passes s0 req i = true) q).
Proof.
  induction q as [|i q IH]; intros s0 compat wl Ha Hk Hr Hn.
  { eexists. split; [done|]. split_and!; try done. right. split; [done|constructor]. }
  apply Forall_cons in Hk as [Hi Hk]. apply not_elem_of_cons in Hn as [Hne Hn]. cbn [plain_scan].
  rewrite (proj2 (Z.eqb_neq i req)), plain_scan_step by (done || congruence).
  destruct (plain_passes s0 req i) eqn:Hp; cbn [mbind run_bind].
  { destruct (IH s0 compat wl) as (r & -> & H1 & H2 & H3 & H4); try done. exists r. split_and!; try done.
    destruct H4 as [?|[? ?]]; [by left|right]. split; [done|]. by constructor. }
  destruct wl as [w|]; cbn [mbind run_bind]; [|by eexists; split_and!; [done..|left]].
  destruct (plain_add_spec s0 i req w) as (s1 & w1 & -> & Hc & Hl); [done|done|done|congruence|]. cbn [mbind run_bind fst snd].
  destruct (IH s1 0 (Some w1)) as (r & -> & H1 & H2 & H3 & H4).
  - eapply quiet_asts_ok; [apply Hc|done].
  - eapply Forall_impl; [exact Hk|]. intros j. eapply evolves_known. apply Hc.
  - by eapply evolves_known; [apply Hc|].
  - done.
  - exists r. split_and!; [done|by etransitivity|auto| |].
    + intros Hls. apply H3. intros w' [= <-]. apply Hl. by apply Hls.
    + left. by destruct H4 as [?|[? _]].
Qed.

Lemma plain_check q wl :
  sl_type_of s = LDLM_PLAIN ->
  exists rc s' wl', ldlm_plain_compat_queue s q req wl = Ret (rc, s', wl') /\ checked req s q wl rc s' wl'.
Proof.
  intros Ht. rewrite plain_queue_scans. unfold plain_queue_scan, sl_get, get_lock. pose proof Hreq as [rl Hrl]. rewrite Hrl. cbn [mbind run_bind].
  destruct (ok_mode _ _ _ _ Hok Hrl) as [Em Hm]. unfold LASSERT. rewrite lockmode_verify_modes by (by rewrite <-Em).
  rewrite plain_scan_before. destruct (plain_scan_spec (before req (queue_of s q)) s 1 wl) as (r & -> & H1 & H2 & H3 & H4).
  - by eapply ok_asts.
  - apply Forall_forall. intros i Hi%before_sub. by eapply queue_known.
  - done.
  - apply before_not.
  - cbn [mbind run_bind]. rewrite compat_result_step. eexists _, _, _. split; [done|]. split; try done.
    + congruence.
    + destruct H4 as [?|[? _]]; [by left|by right].
    + intros _. congruence.
    + intros _. congruence.
    + intros Ho i Hi (_ & Hc & _). destruct H4 as [?|[_ Hf]]; [lia|]. rewrite Forall_forall in Hf. specialize (Hf i Hi).
      unfold plain_passes in Hf. congruence.
Qed.

End Ok.
