(* ===== verification/SkipGrant.v ===== *)
(** Granting plain and inodebits locks, taking them off the lists and deciding on them
    keep a resource well (lustre/ldlm/ldlm_lock.c, ldlm_inodebits.c, ldlm_plain.c). *)

From stdpp Require Import gmap.
From S2P Require Import Prelude IntervalTree LdlmLock LdlmExtent LdlmSafe LdlmServer SkipLock SkipRing SkipShape SkipScan SkipPlain SkipSystem SkipCheck.

Implicit Types (s : sl_resource) (gs : groups).

(** ** A lock on no list *)

Lemma elem_of_filter_ne (l : list Z) i j : j ∈ base.filter (fun k => k <> i) l <-> j <> i /\ j ∈ l.
Proof. by rewrite list_elem_of_filter. Qed.

Lemma sl_unlink_ok s i : sl_ok s -> sl_ok_but (Some i) (sl_unlink_lock s i).
Proof.
  intros [(gs & Hsh) H2 H3 H4 H5 H6 H7 _]. split.
  - destruct (unlink_shape s gs i Hsh) as (gs' & Hsh' & _). by exists gs'.
  - done.
  - intros j l Hne Hl. destruct (H3 j l) as [Ha Hb]; [done|done|]. cbn. rewrite elem_of_filter_ne. split; [tauto|].
    intros Hn. apply Hb. intros Hj. apply Hn. split; [congruence|done].
  - intros j. cbn. rewrite elem_of_filter_ne. intros [_ Hj]. by apply H4.
  - intros j. cbn. rewrite !elem_of_filter_ne. intros [_ Hj]. destruct (H5 j Hj) as (Hn & Hr). split; [tauto|done].
  - cbn. by apply NoDup_filter.
  - intros a b. cbn. rewrite !elem_of_filter_ne. intros [_ Ha] [_ Hb]. by apply H7.
  - intros j [= <-]. cbn. rewrite !elem_of_filter_ne. tauto.
Qed.

(** Changes of the lock that is on no list. *)
Record loosely (i : Z) s s' : Prop := {
  lo_type : sl_type_of s' = sl_type_of s;
  lo_lists : lr_granted (sl_res s') = lr_granted (sl_res s) /\ lr_waiting (sl_res s') = lr_waiting (sl_res s);
  lo_links : sl_mode s' = sl_mode s /\ sl_policy s' = sl_policy s;
  lo_locks : forall j, j <> i -> lr_locks (sl_res s') !! j = lr_locks (sl_res s) !! j;
  lo_data : forall j, j <> i -> sl_policy_data s' !! j = sl_policy_data s !! j
}.

Lemma loosely_bits i s s' j : loosely i s s' -> j <> i -> l_inodebits s' j = l_inodebits s j.
Proof. intros H Hne. unfold l_inodebits. by rewrite (lo_data _ _ _ H). Qed.

Lemma loosely_mode i s s' j : loosely i s s' -> j <> i -> mode_of s' j = mode_of s j.
Proof. intros H Hne. unfold mode_of. by rewrite (lo_locks _ _ _ H). Qed.

Lemma loosely_clash i s s' a b : loosely i s s' -> a <> i -> b <> i -> clash s' a b -> clash s a b.
Proof.
  intros H Ha Hb. unfold clash. by rewrite !(loosely_mode _ _ _ _ H), !(loosely_bits _ _ _ _ H), (lo_type _ _ _ H) by done.
Qed.

Lemma loosely_ok i s s' :
  loosely i s s' -> sl_ok_but (Some i) s ->
  (forall l, lr_locks (sl_res s') !! i = Some l -> lock_fine l /\ is_Some (sl_policy_data s' !! i)) -> sl_ok_but (Some i) s'.
Proof.
  intros Hlo [(gs & Hsh) H2 H3 H4 H5 H6 H7 H8] Hf. pose proof Hlo as [Ht [Eg Ew] [El1 El2] El Ed].
  destruct (H8 i eq_refl) as [Hg Hw].
  assert (Hne : forall j, j ∈ lr_granted (sl_res s) \/ j ∈ lr_waiting (sl_res s) -> j <> i) by (intros j [?|?] ->; done).
  split; rewrite ?Eg, ?Ew.
  - exists gs. apply (shape_untouched s); try done. intros j Hj. rewrite <-(sh_granted _ _ Hsh) in Hj.
    unfold untouched, key_of. rewrite El1, El2, Ht, (loosely_mode _ _ _ _ Hlo), (loosely_bits _ _ _ _ Hlo) by auto. done.
  - intros j l Hl. destruct (decide (j = i)) as [->|Hji]; [by apply Hf|]. rewrite El in Hl by done. rewrite Ed by done. by apply H2.
  - intros j l Hji Hl. rewrite El in Hl by congruence. by apply H3.
  - intros j Hj. unfold has_lock. rewrite El, Ht, (loosely_bits _ _ _ _ Hlo) by auto. by apply H4.
  - intros j Hj. rewrite El, Ht, (loosely_bits _ _ _ _ Hlo) by auto. by apply H5.
  - done.
  - intros a b Ha Hb Hab Hc. apply (H7 a b Ha Hb Hab). eapply loosely_clash; eauto.
  - intros j [= <-]. done.
Qed.

Lemma put_loosely s i l : loosely i s (sl_put s i l).
Proof. split; try done. intros j Hj. cbn. by rewrite lookup_insert_ne. Qed.

Lemma bits_loosely s i p : loosely i s (with_bits s i p).
Proof. split; try done. intros j Hj. cbn. by rewrite lookup_insert_ne. Qed.

Lemma put_ok s i l : sl_ok_but (Some i) s -> lock_fine l -> is_Some (sl_policy_data s !! i) -> sl_ok_but (Some i) (sl_put s i l).
Proof.
  intros Hok Hf Hd. eapply loosely_ok; [apply put_loosely|done|]. intros l'. cbn. rewrite lookup_insert_eq. by intros [= <-].
Qed.

Lemma bits_ok s i p : sl_ok_but (Some i) s -> sl_ok_but (Some i) (with_bits s i p).
Proof.
  intros Hok. eapply loosely_ok; [apply bits_loosely|done|]. cbn. intros l Hl. rewrite lookup_insert_eq.
  split; [by apply (so_fine _ _ Hok i l)|done].
Qed.

(** A lock that is not granted may stay on no list. *)
Lemma loose_done s i l :
  sl_ok_but (Some i) s -> lr_locks (sl_res s) !! i = Some l -> l_granted_mode l = LCK_MINMODE -> sl_ok s.
Proof.
  intros [H1 H2 H3 H4 H5 H6 H7 H8] Hl Hm. destruct (H8 i eq_refl) as [Hg _]. split; try done.
  intros j lj _ Hlj. destruct (decide (j = i)) as [->|Hne]; [|apply H3; [congruence|done]].
  assert (lj = l) as -> by congruence. done.
Qed.

Lemma make_loose s i : sl_ok s -> (i ∉ lr_granted (sl_res s)) -> (i ∉ lr_waiting (sl_res s)) -> sl_ok_but (Some i) s.
Proof.
  intros [H1 H2 H3 H4 H5 H6 H7 H8] Hg Hw. split; try done; [|by intros j [= <-]]. intros j l _. by apply H3.
Qed.

(** ** Granting *)

(** The lock [i] is on the granted list, and nothing else is different. *)
Record placed (i : Z) s s' : Prop := {
  pl_type : sl_type_of s' = sl_type_of s;
  pl_granted : lr_granted (sl_res s') ≡ₚ i :: lr_granted (sl_res s);
  pl_waiting : lr_waiting (sl_res s') = lr_waiting (sl_res s);
  pl_locks : lr_locks (sl_res s') = lr_locks (sl_res s);
  pl_data : sl_policy_data s' = sl_policy_data s;
  pl_cookie : sl_cookie s' = sl_cookie s
}.

Lemma placed_clash i s s' a b : placed i s s' -> clash s' a b -> clash s a b.
Proof. intros [H1 _ _ H2 H3 _]. unfold clash, mode_of, l_inodebits. by rewrite H1, H2, H3. Qed.

Lemma placed_ok i s s' l :
  sl_ok_but (Some i) s -> placed i s s' -> (exists gs, shape s' gs) ->
  lr_locks (sl_res s) !! i = Some l -> l_granted_mode l = l_req_mode l -> ldlm_is_destroyed l = false ->
  (sl_type_of s = LDLM_IBITS -> try_bits (l_inodebits s i) = 0) ->
  (forall j, j ∈ lr_granted (sl_res s) -> ~ clash s i j) -> sl_ok s'.
Proof.
  intros [_ H2 H3 H4 H5 H6 H7 H8] Hp Hsh Hl Hm Hd Ht Hc. pose proof Hp as [E1 Eg E2 E3 E4 _].
  destruct (H8 i eq_refl) as [Hg Hw]. assert (Hin : forall j, j ∈ lr_granted (sl_res s') <-> j = i \/ j ∈ lr_granted (sl_res s))
    by (intros j; by rewrite Eg, elem_of_cons).
  split; unfold has_lock; rewrite ?E1, ?E2, ?E3, ?E4; try done.
  - intros j lj _ Hlj. rewrite Hin. destruct (decide (j = i)) as [->|Hne].
    + assert (lj = l) as -> by congruence. split; [done|tauto].
    + destruct (H3 j lj) as [Ha Hb]; [congruence|done|]. split; [intros [?|?]; [done|auto]|]. intros Hn. apply Hb. tauto.
  - intros j [->|Hj]%Hin; unfold l_inodebits; rewrite E4; [split; [by eexists|done]|by apply H4].
  - intros j Hj. rewrite Hin. destruct (H5 j Hj) as (Hn & Hr & Hb). split; [intros [->|?]; done|]. split; [done|]. unfold l_inodebits. by rewrite E4.
  - intros a b Ha Hb Hab Hcl%(placed_clash i s s'); [|done]. apply Hin in Ha, Hb. destruct Ha as [->|Ha], Hb as [->|Hb]; [done|by apply (Hc b)| |by apply (H7 a b)].
    apply (Hc a Ha). destruct (H4 a Ha) as [[la Hla] _]. apply clash_sym; [| |done]; unfold mode_of; rewrite ?Hla, ?Hl;
      [apply (H2 _ _ Hla)|apply (H2 _ _ Hl)].
Qed.

Lemma skiplist_ok s i l :
  sl_ok_but (Some i) s -> lr_locks (sl_res s) !! i = Some l -> l_granted_mode l = l_req_mode l -> ldlm_is_destroyed l = false ->
  (sl_type_of s = LDLM_IBITS -> try_bits (l_inodebits s i) = 0) ->
  (forall j, j ∈ lr_granted (sl_res s) -> ~ clash s i j) ->
  exists s', ldlm_grant_lock_with_skiplist s i = Ret s' /\ sl_ok s' /\ placed i s s'.
Proof.
  intros Hok Hl Hm Hd Ht Hc. destruct (so_shape _ _ Hok) as (gs & Hsh). destruct (so_loose _ _ Hok i eq_refl) as [Hg Hw].
  destruct (grant_skiplist_spec s gs i l Hsh Hl) as (gs' & mode & policy & E & Hsh' & Hp); try done.
  - intros j Hj. rewrite <-(sh_granted _ _ Hsh) in Hj. by apply (so_granted _ _ Hok).
  - by rewrite <-(sh_granted _ _ Hsh).
  - assert (Hpl : placed i s (relinked s (flat gs') mode policy)) by (split; try done; cbn; by rewrite (sh_granted _ _ Hsh)).
    eexists. split; [exact E|]. split; [|done]. eapply placed_ok; try done. by eexists.
Qed.

(** [ldlm_grant_lock]: the lock is granted, and its completion callback is on the work
    list if there is one. *)
Record granted_now (i : Z) s s' : Prop := {
  gn_granted : lr_granted (sl_res s') ≡ₚ i :: lr_granted (sl_res s);
  gn_waiting : lr_waiting (sl_res s') = lr_waiting (sl_res s);
  gn_lock : exists l, lr_locks (sl_res s') !! i = Some l /\ l_granted_mode l = l_req_mode l;
  gn_locks : forall j, j <> i -> lr_locks (sl_res s') !! j = lr_locks (sl_res s) !! j;
  gn_type : sl_type_of s' = sl_type_of s
}.

(** A lock that was given a completion callback. *)
Record like (l l' : ldlm_lock) : Prop := {
  lk_req : l_req_mode l' = l_req_mode l;
  lk_grant : l_granted_mode l' = l_granted_mode l;
  lk_destroyed : ldlm_is_destroyed l' = ldlm_is_destroyed l;
  lk_bl : l_bl_ast l' = l_bl_ast l;
  lk_fine : lock_fine l -> lock_fine l'
}.

Lemma grant_item s i l wl :
  lr_locks (sl_res s) !! i = Some l -> cp_ok l ->
  exists l' wl',
    match wl with
    | Some w => if l_completion_ast l then
          rw ← ldlm_add_ast_work_item (sl_res s) i None w; Ret (with_res s rw.1, Some rw.2) else Ret (s, wl)
    | None => Ret (s, wl)
    end = Ret (sl_put s i l', wl')
    /\ like l l' /\ (wl = None -> wl' = None).
Proof.
  intros Hl Hcp. assert (Hsame : sl_put s i l = s).
  { unfold sl_put, with_res, put_lock. destruct s as [t [g w lo it] d c m p]; cbn in *. by rewrite insert_id. }
  assert (Hno : exists l' wl', Ret (s, wl) = Ret (sl_put s i l', wl') /\ like l l' /\ (wl = None -> wl' = None))
    by (by exists l, wl; rewrite Hsame).
  destruct wl as [w|]; [|exact Hno]. destruct (l_completion_ast l) eqn:Hca; [|exact Hno].
  cbn [ldlm_add_ast_work_item]. unfold ldlm_add_cp_work_item, get_lock. rewrite Hl. cbn [mbind run_bind].
  destruct (ldlm_is_cp_reqd l) eqn:Hr; cbn [mbind run_bind fst snd].
  { exists l, (Some w). rewrite Hsame. by destruct s. }
  specialize (Hcp Hr). unfold LASSERT. cbn [l_cp_ast set_flags]. rewrite Hcp. cbn [negb mbind run_bind fst snd].
  eexists _, _. split; [done|]. split; [|done]. split; try done.
  - unfold ldlm_is_destroyed. cbn. by rewrite test_set_flag.
  - intros [F1 [A1 A2] F3]. split; [done| |].
    + split; cbn; [|done]. unfold ldlm_is_ast_sent. cbn. rewrite test_set_flag by done. exact A1.
    + unfold cp_ok, ldlm_is_cp_reqd. cbn. by rewrite (test_set_flag_same _ 43).
Qed.

Lemma clash_bits_mode s s' i j :
  sl_type_of s' = sl_type_of s -> mode_of s' i = mode_of s i -> mode_of s' j = mode_of s j ->
  l_inodebits s' i = l_inodebits s i -> l_inodebits s' j = l_inodebits s j -> clash s' i j -> clash s i j.
Proof. unfold clash. by intros -> -> -> -> ->. Qed.

Lemma grant_ok s i l wl :
  sl_ok_but (Some i) s -> lr_locks (sl_res s) !! i = Some l -> ldlm_is_destroyed l = false ->
  (sl_type_of s = LDLM_IBITS -> try_bits (l_inodebits s i) = 0) ->
  (forall j, j ∈ lr_granted (sl_res s) -> ~ clash s i j) ->
  exists s' wl', sl_grant_lock s i wl = Ret (s', wl') /\ sl_ok s' /\ granted_now i s s' /\ (wl = None -> wl' = None)
    /\ (forall w, listed (sl_res s) w -> listed (sl_res s') w).
Proof.
  intros Hok Hl Hd Ht Hc. destruct (so_fine _ _ Hok i l Hl) as [[F1 F2 F3] Hdata]. unfold sl_grant_lock, sl_get, get_lock. rewrite Hl. cbn [mbind run_bind].
  set (l1 := set_granted_mode l (l_req_mode l)).
  destruct (grant_item (sl_put s i l1) i l1 wl) as (l' & wl' & Hi & [K1 K2 K3 K4 K5] & Hwl); [cbn; apply lookup_insert_eq|done|].
  cbn [l_completion_ast set_granted_mode] in Hi |- *. rewrite Hi. cbn [mbind run_bind fst snd]. set (s1 := sl_put _ i l') in *.
  assert (Hlo : loosely i s s1).
  { split; try done. intros j Hj. cbn. by rewrite !lookup_insert_ne. }
  assert (Hl1 : lr_locks (sl_res s1) !! i = Some l') by (cbn; apply lookup_insert_eq).
  assert (Hmi : mode_of s1 i = mode_of s i) by (unfold mode_of; by rewrite Hl1, Hl, K1).
  assert (Hbi : l_inodebits s1 i = l_inodebits s i) by done.
  destruct (skiplist_ok s1 i l') as (s' & -> & Hok' & Hpl).
  - eapply loosely_ok; [exact Hlo|done|]. intros l'' E. rewrite Hl1 in E. injection E as <-. split; [by apply K5|done].
  - done.
  - by rewrite K1, K2.
  - by rewrite K3.
  - done.
  - intros j Hj Hcl. apply (Hc j Hj). assert (j <> i) by (intros ->; by destruct (so_loose _ _ Hok i eq_refl)).
    apply (clash_bits_mode s s1); try done. by eapply loosely_mode.
  - cbn [mbind run_bind]. exists s', wl'. split; [done|]. destruct Hpl as [P1 P2 P3 P4 P5 P6].
    split; [done|]. split; [split; try done|split; [done|]].
    + exists l'. rewrite P4. split; [done|]. by rewrite K1, K2.
    + intros j Hj. rewrite P4. by apply (lo_locks _ _ _ Hlo).
    + intros w [Hn Hf]. split; [done|]. eapply Forall_impl; [exact Hf|]. intros j (lj & Hlj & Hbj).
      rewrite P4. destruct (decide (j = i)) as [->|Hne]; [exists l'; split; [done|]; rewrite K4; cbn; congruence|].
      exists lj. by rewrite (lo_locks _ _ _ Hlo).
Qed.

(** ** Decisions *)

(** The lock [i] was granted. *)
Record granted_by (i : Z) s s' : Prop := {
  gb_lock : exists l, lr_locks (sl_res s') !! i = Some l /\ l_granted_mode l = l_req_mode l;
  gb_granted : i ∈ lr_granted (sl_res s');
  gb_old : forall j, j ∈ lr_granted (sl_res s') -> j = i \/ j ∈ lr_granted (sl_res s);
  gb_waiting : lr_waiting (sl_res s') = base.filter (fun j => j <> i) (lr_waiting (sl_res s));
  gb_type : sl_type_of s' = sl_type_of s
}.

(** What a decision on the lock [i] does: it is granted, or it stays where it is. *)
Definition decided (i : Z) s s' : Prop := calmed i s s' \/ granted_by i s s'.

Lemma no_stands_later s s1 s2 i j :
  (sl_type_of s = LDLM_IBITS -> shrinks i s1 s2) -> ~ stands s s1 i j -> ~ stands s s2 i j.
Proof.
  intros Hs Hn (H1 & H2 & H3). apply Hn. split_and!; try done. intros Ht Hz. apply (H3 Ht).
  rewrite Z.land_lor_distr_r in *. apply Z.lor_eq_0_iff in Hz as [-> Hz]. by rewrite (Hs Ht _ Hz).
Qed.

(** The request with the bits that are left to be tried. *)
Definition tried (i : Z) s s' : Prop :=
  loosely i s s' /\ lr_locks (sl_res s') = lr_locks (sl_res s) /\ sl_policy_data s' !! i <> None
  /\ (sl_type_of s = LDLM_IBITS -> bits (l_inodebits s' i) = Z.lor (bits (l_inodebits s i)) (try_bits (l_inodebits s i))
                                   /\ try_bits (l_inodebits s' i) = 0).

Lemma grant_try_tried s i flags :
  is_Some (sl_policy_data s !! i) -> tried i s (grant_try_bits s i flags).1.
Proof.
  intros [p Hp]. unfold grant_try_bits. destruct (try_bits (l_inodebits s i) =? 0) eqn:E; cbn [negb fst].
  - apply Z.eqb_eq in E. split; [done|]. split; [done|]. rewrite Hp. split; [done|]. intros _. by rewrite E, Z.lor_0_r.
  - split; [apply bits_loosely|]. split; [done|]. cbn. rewrite lookup_insert_eq. split; [done|]. intros _. by rewrite with_bits_eq.
Qed.

Lemma unlink_try_bits s i flags : sl_unlink_lock (grant_try_bits s i flags).1 i = (grant_try_bits (sl_unlink_lock s i) i flags).1.
Proof.
  unfold grant_try_bits. change (l_inodebits (sl_unlink_lock s i) i) with (l_inodebits s i). by destruct (negb _).
Qed.

Lemma stands_calmed s s' i j : calmed i s s' -> stands s' s' i j -> stands s s' i j.
Proof.
  intros [He _] (H1 & H2 & H3). rewrite !(evolves_mode _ _ _ _ He) in *. rewrite (ev_type _ _ _ He), !(evolves_bits _ _ _ _ He) in H3. done.
Qed.

(** A lock that nothing stands in the way of is granted. *)
Lemma tried_grant s i l t wl :
  sl_ok s -> lr_locks (sl_res s) !! i = Some l -> ldlm_is_destroyed l = false ->
  (forall j, j ∈ lr_granted (sl_res s) -> ~ stands s s i j) -> tried i (sl_unlink_lock s i) t ->
  exists s' wl', sl_grant_lock t i wl = Ret (s', wl') /\ sl_ok s' /\ granted_by i s s' /\ (forall j, has_lock s j -> has_lock s' j)
    /\ (wl = None -> wl' = None /\ forall w, listed (sl_res s) w -> listed (sl_res s') w).
Proof.
  intros Hok Hl Hd Hn (Hlo & El & Hp & Hb). assert (Hlt : lr_locks (sl_res t) !! i = Some l) by (by rewrite El).
  pose proof (lo_lists _ _ _ Hlo) as [Eg Ew]. cbn in Eg, Ew. change (sl_type_of (sl_unlink_lock s i)) with (sl_type_of s) in Hb.
  destruct (grant_ok t i l wl) as (s' & wl' & E & Hok' & Hg & Hw & Hls).
  - eapply loosely_ok; [exact Hlo|by apply sl_unlink_ok|]. intros l' Hl'. assert (l' = l) as -> by congruence.
    split; [by apply (so_fine _ _ Hok i l)|by apply not_eq_None_Some].
  - done.
  - done.
  - intros Ht. apply Hb. by rewrite (lo_type _ _ _ Hlo) in Ht.
  - intros j Hj (C1 & C2 & C3 & C4). rewrite Eg in Hj. apply elem_of_filter_ne in Hj as [Hne Hj].
    pose proof (loosely_mode _ _ _ j Hlo Hne) as Emj. pose proof (loosely_bits _ _ _ j Hlo Hne) as Ebj.
    assert (Emi : mode_of t i = mode_of s i) by (unfold mode_of; by rewrite Hlt, Hl).
    change (mode_of (sl_unlink_lock s i) j) with (mode_of s j) in Emj. change (l_inodebits (sl_unlink_lock s i) j) with (l_inodebits s j) in Ebj.
    change (l_inodebits (sl_unlink_lock s i) i) with (l_inodebits s i) in Hb. rewrite Emi, Emj, Ebj, (lo_type _ _ _ Hlo) in *. cbn in C4.
    apply (Hn j Hj). destruct (so_granted _ _ Hok j Hj) as [[lj Hlj] _]. split_and!; [done| |].
    + rewrite lockmode_compat_sym; [done|by apply (ok_mode _ _ _ _ Hok Hlj)|by apply (ok_mode _ _ _ _ Hok Hl)].
    + intros Ht. specialize (C4 Ht). rewrite (proj1 (Hb Ht)), Z.land_comm in C4. done.
  - exists s', wl'. split; [done|]. split; [done|]. destruct Hg as [G1 G2 G3 G4 G5]. split; [|split].
    + split; [done| | |by rewrite G2, Ew|by rewrite G5, (lo_type _ _ _ Hlo)].
      * rewrite G1. by left.
      * intros j. rewrite G1, Eg. intros [->|[_ ?]%elem_of_filter_ne]%elem_of_cons; [by left|by right].
    + intros j Hj. destruct (decide (j = i)) as [->|Hne]; [destruct G3 as (l' & ? & _); by exists l'|]. unfold has_lock. by rewrite G4, El.
    + intros ->. split; [auto|]. intros w Hw'. apply Hls. unfold listed in *. by rewrite El.
Qed.
