(* ===== verification/SkipDecide.v ===== *)
(** The processing policies of plain and inodebits locks (lustre/ldlm/ldlm_plain.c,
    ldlm_inodebits.c) on a resource that is well: they return, and keep it well. *)

From stdpp Require Import gmap.
From S2P Require Import Prelude IntervalTree LdlmLock LdlmExtent LdlmSafe LdlmServer SkipLock SkipRing SkipShape SkipScan SkipPlain SkipSystem SkipCheck SkipGrant.

Implicit Types (s : sl_resource) (gs : groups).

(** A lock that can be processed. *)
Record pending (i : Z) s : Prop := {
  pe_lock : exists l, lr_locks (sl_res s) !! i = Some l /\ ldlm_is_destroyed l = false;
  pe_granted : i ∉ lr_granted (sl_res s)
}.

Record processed (i : Z) (intention : ldlm_process_intention) (wl : list Z) s (err : Z) s' (wl' : list Z) : Prop := {
  pr_ok : sl_ok s';
  pr_decided : decided i s s';
  pr_known : forall j, has_lock s j -> has_lock s' j;
  pr_listed : intention = LDLM_PROCESS_ENQUEUE -> listed (sl_res s) wl -> listed (sl_res s') wl';
  pr_bits : intention = LDLM_PROCESS_ENQUEUE -> err = ELDLM_OK -> sl_type_of s = LDLM_IBITS ->
            i ∈ lr_granted (sl_res s') \/ bits (l_inodebits s' i) <> 0
}.

Lemma pending_unlocked i s l : sl_ok s -> pending i s -> lr_locks (sl_res s) !! i = Some l ->
  negb (l_granted_mode l =? l_req_mode l) = true.
Proof.
  intros Hok [_ Hg] Hl. destruct (so_mode _ _ Hok i l) as [_ Hm]; [done|done|]. rewrite (Hm Hg).
  destruct (so_fine _ _ Hok i l Hl) as [[Hr _ _] _]. by mode_cases Hr.
Qed.

Lemma pending_calmed i s s' : calmed i s s' -> pending i s -> pending i s'.
Proof.
  intros [He _] [(l & Hl & Hd) Hg]. split.
  - exists l. by rewrite (ev_req _ _ _ He).
  - by rewrite (proj1 (ev_lists _ _ _ He)).
Qed.

Lemma checks_pass s s1 s2 i wl wl1 wl' wl2 :
  sl_ok s -> pending i s -> checked i s Granted wl 1 s1 wl1 -> checked i s1 Waiting wl' 1 s2 wl2 ->
  forall j, j ∈ lr_granted (sl_res s2) -> ~ stands s2 s2 i j.
Proof.
  intros Hok [_ Hg] H1 H2 j Hj Hst. pose proof (ck_calm _ _ _ _ _ _ _ H1) as C1. pose proof (ck_calm _ _ _ _ _ _ _ H2) as C2.
  apply (stands_calmed s) in Hst; [|by etransitivity]. revert Hst. apply (no_stands_later s s1).
  - intros Ht. apply (ck_try _ _ _ _ _ _ _ H2). by rewrite (ev_type _ _ _ (cd_evolves _ _ _ C1)).
  - apply (ck_one _ _ _ _ _ _ _ H1); [done|]. cbn. rewrite before_all by done.
    by rewrite (proj1 (ev_lists _ _ _ (cd_evolves _ _ _ C2))), (proj1 (ev_lists _ _ _ (cd_evolves _ _ _ C1))) in Hj.
Qed.

(** The lock stays where it is. *)
Lemma stays_processed i intention wl s err s' wl' :
  sl_ok s -> calmed i s s' -> (intention = LDLM_PROCESS_ENQUEUE -> listed (sl_res s) wl -> listed (sl_res s') wl') ->
  (intention = LDLM_PROCESS_ENQUEUE -> err = ELDLM_OK -> sl_type_of s = LDLM_IBITS -> bits (l_inodebits s' i) <> 0) ->
  processed i intention wl s err s' wl'.
Proof.
  intros Hok Hc Hl Hb. split.
  - by eapply calmed_ok.
  - by left.
  - intros j. eapply evolves_known. apply Hc.
  - auto.
  - intros E1 E2 E3. right. auto.
Qed.

(** The lock is granted. *)
Lemma grant_processed i intention wl s s2 t w g :
  sl_ok s -> pending i s -> calmed i s s2 -> (forall j, j ∈ lr_granted (sl_res s2) -> ~ stands s2 s2 i j) ->
  tried i (sl_unlink_lock s2 i) t ->
  (intention = LDLM_PROCESS_ENQUEUE -> g = None) ->
  (intention = LDLM_PROCESS_ENQUEUE -> listed (sl_res s) wl -> listed (sl_res s2) w) ->
  exists s' g', sl_grant_lock t i g = Ret (s', g') /\ processed i intention wl s ELDLM_OK s' (default w g').
Proof.
  intros Hok Hpe Hc Hn Ht Hg Hl. pose proof (pending_calmed _ _ _ Hc Hpe) as [(l & Hlk & Hd) _].
  destruct (tried_grant s2 i l t g) as (s' & g' & E & Hok' & Hdc & Hk & Hw); try done; [by eapply calmed_ok|].
  exists s', g'. split; [done|]. destruct (ev_lists _ _ _ (cd_evolves _ _ _ Hc)) as [Eg Ew].
  destruct Hdc as [D1 D2 D3 D4 D5]. split.
  - done.
  - right. split; [done|done| |by rewrite D4, Ew|by rewrite D5, (ev_type _ _ _ (cd_evolves _ _ _ Hc))]. by rewrite <-Eg.
  - intros j Hj. apply Hk. eapply evolves_known; [apply Hc|done].
  - intros ->. destruct (Hw (Hg eq_refl)) as [-> Hls]. cbn. auto.
  - intros _ _ _. by left.
Qed.

(** ** Inodebits locks *)

Section Inodebits.
Context s (i : Z).
Hypothesis Hok : sl_ok s.
Hypothesis Hpe : pending i s.
Hypothesis Hty : sl_type_of s = LDLM_IBITS.

Lemma pending_has s0 : pending i s0 -> has_lock s0 i.
Proof. intros [(l & Hl & _) _]. by exists l. Qed.

(** A check, and what is left for the next one. *)
Lemma ibits_check_next q wl :
  exists rc s1 wl1, ldlm_inodebits_compat_queue s q i wl = Ret (rc, s1, wl1) /\ checked i s q wl rc s1 wl1
    /\ sl_ok s1 /\ pending i s1 /\ sl_type_of s1 = LDLM_IBITS.
Proof.
  destruct (inodebits_check None s i Hok (pending_has _ Hpe) (pe_granted _ _ Hpe) q wl Hty) as (rc & s1 & wl1 & E & Hc).
  pose proof (ck_calm _ _ _ _ _ _ _ Hc) as C. exists rc, s1, wl1. split_and!; try done; [by eapply calmed_ok|by eapply pending_calmed|].
  by rewrite (ev_type _ _ _ (cd_evolves _ _ _ C)).
Qed.

Lemma grant_try_processed intention wl s2 flags w g :
  calmed i s s2 -> (forall j, j ∈ lr_granted (sl_res s2) -> ~ stands s2 s2 i j) ->
  (intention = LDLM_PROCESS_ENQUEUE -> g = None) -> (intention = LDLM_PROCESS_ENQUEUE -> listed (sl_res s) wl -> listed (sl_res s2) w) ->
  exists s' g', sl_grant_lock (sl_unlink_lock (grant_try_bits s2 i flags).1 i) i g = Ret (s', g')
    /\ processed i intention wl s ELDLM_OK s' (default w g').
Proof.
  intros Hc Hn Hg Hl. rewrite unlink_try_bits. apply (grant_processed i intention wl s s2); try done.
  apply grant_try_tried. cbn. eapply evolves_data; [apply Hc|]. by apply (ok_known None s), (pending_has s).
Qed.

(** The lock cannot be granted, and has bits or is refused. *)
Lemma blocked_bits s1 s2 wl wl1 wl2 rc rc2 :
  checked i s Granted wl rc s1 wl1 -> checked i s1 Waiting wl1 rc2 s2 wl2 -> rc + rc2 <> 2 ->
  Z.lor (bits (l_inodebits s2 i)) (try_bits (l_inodebits s2 i)) <> 0 -> bits (l_inodebits s2 i) <> 0.
Proof.
  intros H1 H2 Hrc Hz Hb. pose proof (cd_evolves _ _ _ (ck_calm _ _ _ _ _ _ _ H1)) as E1. pose proof (cd_evolves _ _ _ (ck_calm _ _ _ _ _ _ _ H2)) as E2.
  assert (Ht1 : sl_type_of s1 = LDLM_IBITS) by (by rewrite (ev_type _ _ _ E1)).
  assert (Hs1 : bits (l_inodebits s1 i) = 0) by (by rewrite <-(evolves_bits _ _ _ _ E2)).
  assert (Hs0 : bits (l_inodebits s i) = 0) by (by rewrite <-(evolves_bits _ _ _ _ E1)).
  assert (Ht : try_bits (l_inodebits s2 i) = 0); [|by rewrite Hb, Ht in Hz].
  destruct (ck_rc _ _ _ _ _ _ _ H1) as [->| ->].
  - destruct (ck_zero _ _ _ _ _ _ _ H1 eq_refl Hty) as [?|Hn]; [done|]. apply (evolves_try _ _ _ _ E2).
    unfold no_bits in Hn. rewrite Hs0 in Hn. by apply Z.eqb_eq in Hn.
  - destruct (ck_rc _ _ _ _ _ _ _ H2) as [->| ->]; [|lia]. destruct (ck_zero _ _ _ _ _ _ _ H2 eq_refl Ht1) as [?|Hn]; [done|].
    unfold no_bits in Hn. rewrite Hs1 in Hn. by apply Z.eqb_eq in Hn.
Qed.

Lemma ibits_enqueue_ok intention flags g wl :
  (intention = LDLM_PROCESS_ENQUEUE -> g = false) ->
  exists rc err fl s' wl', process_ibits_enqueue s i flags g wl = Ret (rc, err, fl, s', wl') /\ processed i intention wl s err s' wl'.
Proof.
  intros Hg. unfold process_ibits_enqueue. destruct (ibits_check_next Granted (Some wl)) as (rc & s1 & wl1 & -> & H1 & Hok1 & Hp1 & Ht1).
  cbn [mbind run_bind]. destruct (inodebits_check None s1 i Hok1 (pending_has _ Hp1) (pe_granted _ _ Hp1) Waiting wl1 Ht1) as (rc2 & s2 & wl2 & -> & H2).
  cbn [mbind run_bind]. pose proof (ck_calm _ _ _ _ _ _ _ H1) as C1. pose proof (ck_calm _ _ _ _ _ _ _ H2) as C2.
  assert (C : calmed i s s2) by (by etransitivity).
  assert (Hls : listed (sl_res s) wl -> listed (sl_res s2) (default [] wl2)).
  { intros Hl. destruct (ck_some _ _ _ _ _ _ _ H2) as [w2 Ew]; [by apply (ck_some _ _ _ _ _ _ _ H1)|]. rewrite Ew. cbn.
    apply (ck_list _ _ _ _ _ _ _ H2); [|done]. apply (ck_list _ _ _ _ _ _ _ H1). by intros ? [= <-]. }
  destruct (rc + rc2 =? 2) eqn:E2; cbn [negb]; [apply Z.eqb_eq in E2|apply Z.eqb_neq in E2].
  - destruct (ck_rc _ _ _ _ _ _ _ H1) as [->| ->], (ck_rc _ _ _ _ _ _ _ H2) as [->| ->]; try lia.
    destruct (grant_try_bits s2 i flags) as [s3 fl] eqn:E3. assert (Et : s3 = (grant_try_bits s2 i flags).1) by (by rewrite E3).
    destruct (grant_try_tried s2 i flags) as (_ & _ & _ & Hb).
    { eapply evolves_data; [apply C|]. by apply (ok_known None s), (pending_has s). }
    assert (Ht2 : sl_type_of s2 = LDLM_IBITS) by (by rewrite (ev_type _ _ _ (cd_evolves _ _ _ C))). rewrite <-Et in Hb. destruct (Hb Ht2) as [Hb2 _].
    pose proof (ck_left _ _ _ _ _ _ _ H2 eq_refl Ht1) as Hz. unfold no_bits in Hz. rewrite <-(evolves_bits _ _ _ _ (cd_evolves _ _ _ C2)), <-Hb2 in Hz.
    unfold LASSERT. rewrite Hz. cbn [negb]. rewrite Et.
    destruct (grant_try_processed intention wl s2 flags (default [] wl2) (if g then Some (default [] wl2) else None)) as (s' & g' & -> & Hp); try done.
    { exact (checks_pass _ _ _ _ _ _ _ _ Hok Hpe H1 H2). }
    { intros Hi. by rewrite (Hg Hi). }
    cbn [mbind run_bind fst snd]. by eexists _, _, _, _, _.
  - eexists _, _, _, _, _. split; [done|]. apply stays_processed; try done. intros _ He _. apply (blocked_bits s1 s2 (Some wl) wl1 wl2 rc rc2); try done.
    by destruct (Z.eqb_spec (Z.lor (bits (l_inodebits s2 i)) (try_bits (l_inodebits s2 i))) 0).
Qed.

Lemma ibits_rescan_ok flags wl :
  bits (l_inodebits s i) <> 0 ->
  exists rc err fl s' wl', process_ibits_rescan s i flags wl = Ret (rc, err, fl, s', wl') /\ processed i LDLM_PROCESS_RESCAN wl s err s' wl'.
Proof.
  intros Hb. unfold process_ibits_rescan, LASSERT. rewrite (proj2 (Z.eqb_neq _ _) Hb). cbn [negb].
  match goal with |- context [ldlm_inodebits_compat_queue s Granted i ?x] => destruct (ibits_check_next Granted x) as (rc & s1 & wl1 & -> & H1 & Hok1 & Hp1 & Ht1) end.
  cbn [mbind run_bind]. pose proof (ck_calm _ _ _ _ _ _ _ H1) as C1. destruct (rc =? 0) eqn:E1.
  { eexists _, _, _, _, _. split; [done|]. by apply stays_processed. }
  destruct (inodebits_check None s1 i Hok1 (pending_has _ Hp1) (pe_granted _ _ Hp1) Waiting None Ht1) as (rc2 & s2 & wl2 & -> & H2).
  cbn [mbind run_bind]. pose proof (ck_calm _ _ _ _ _ _ _ H2) as C2. assert (C : calmed i s s2) by (by etransitivity). destruct (rc2 =? 0) eqn:E2.
  { eexists _, _, _, _, _. split; [done|]. by apply stays_processed. }
  apply Z.eqb_neq in E1, E2. destruct (ck_rc _ _ _ _ _ _ _ H1) as [->| ->], (ck_rc _ _ _ _ _ _ _ H2) as [->| ->]; try done.
  destruct (grant_try_bits s2 i flags) as [s3 fl] eqn:E3. assert (Et : s3 = (grant_try_bits s2 i flags).1) by (by rewrite E3). rewrite Et.
  match goal with |- context [sl_grant_lock _ i (Some ?x)] => destruct (grant_try_processed LDLM_PROCESS_RESCAN wl s2 flags x (Some x)) as (s' & g' & -> & Hp); try done end.
  { exact (checks_pass _ _ _ _ _ _ _ _ Hok Hpe H1 H2). }
  cbn [mbind run_bind fst snd]. by eexists _, _, _, _, _.
Qed.

End Inodebits.

(** ** Plain locks *)

Section Plain.
Context s (i : Z).
Hypothesis Hok : sl_ok s.
Hypothesis Hpe : pending i s.
Hypothesis Hty : sl_type_of s = LDLM_PLAIN.

Lemma plain_grant_processed intention wl s2 w g :
  calmed i s s2 -> (forall j, j ∈ lr_granted (sl_res s2) -> ~ stands s2 s2 i j) ->
  (intention = LDLM_PROCESS_ENQUEUE -> g = None) -> (intention = LDLM_PROCESS_ENQUEUE -> listed (sl_res s) wl -> listed (sl_res s2) w) ->
  exists s' g', sl_grant_lock (sl_unlink_lock s2 i) i g = Ret (s', g') /\ processed i intention wl s ELDLM_OK s' (default w g').
Proof.
  intros Hc Hn Hg Hl. apply (grant_processed i intention wl s s2); try done. split; [done|]. split; [done|]. split.
  - apply not_eq_None_Some. cbn. eapply evolves_data; [apply Hc|]. by apply (ok_known None s), (pending_has i s).
  - cbn. rewrite (ev_type _ _ _ (cd_evolves _ _ _ Hc)), Hty. done.
Qed.

Lemma plain_next s1 q w :
  calmed i s s1 ->
  exists rc s2 w2, ldlm_plain_compat_queue s1 q i w = Ret (rc, s2, w2) /\ checked i s1 q w rc s2 w2 /\ calmed i s s2.
Proof.
  intros Hc. destruct (plain_check None s1 i) with (q := q) (wl := w) as (rc & s2 & w2 & E & Hck).
  - by eapply calmed_ok.
  - by apply (pending_has i), (pending_calmed i s).
  - by apply (pending_calmed i s).
  - by rewrite (ev_type _ _ _ (cd_evolves _ _ _ Hc)).
  - exists rc, s2, w2. split_and!; try done. etransitivity; [exact Hc|by eapply ck_calm].
Qed.

Lemma plain_stays intention wl s' err wl' :
  calmed i s s' -> (intention = LDLM_PROCESS_ENQUEUE -> listed (sl_res s) wl -> listed (sl_res s') wl') -> processed i intention wl s err s' wl'.
Proof. intros Hc Hls. apply stays_processed; try done. intros _ _. by rewrite Hty. Qed.

Lemma plain_enqueue_ok intention (flags : Z) wl (gw : list Z -> option (list Z)) :
  (intention = LDLM_PROCESS_ENQUEUE -> forall w, gw w = None) ->
  exists rc err fl s' wl',
    (r ← ldlm_plain_compat_queue s Granted i (Some wl);
     let '(rc, s, wl) := r in
     r ← ldlm_plain_compat_queue s Waiting i wl;
     let '(rc2, s, wl) := r in
     let work_list := default [] wl in
     if rc + rc2 =? 2 then
       rw ← sl_grant_lock (sl_unlink_lock s i) i (gw work_list);
       Ret (LDLM_ITER_CONTINUE, ELDLM_OK, flags, rw.1, default work_list rw.2)
     else Ret (LDLM_ITER_CONTINUE, ELDLM_OK, flags, s, work_list)) = Ret (rc, err, fl, s', wl')
    /\ processed i intention wl s err s' wl'.
Proof.
  intros Hg. destruct (plain_next s Granted (Some wl)) as (rc & s1 & w1 & -> & H1 & C1); [done|]. cbn [mbind run_bind].
  destruct (plain_next s1 Waiting w1) as (rc2 & s2 & w2 & -> & H2 & C2); [done|]. cbn [mbind run_bind].
  assert (Hls : listed (sl_res s) wl -> listed (sl_res s2) (default [] w2)).
  { intros Hls. destruct (ck_some _ _ _ _ _ _ _ H2) as [w3 Ew]; [by apply (ck_some _ _ _ _ _ _ _ H1)|]. rewrite Ew. cbn.
    apply (ck_list _ _ _ _ _ _ _ H2); [|done]. apply (ck_list _ _ _ _ _ _ _ H1). by intros ? [= <-]. }
  destruct (rc + rc2 =? 2) eqn:E2; [|eexists _, _, _, _, _; split; [done|]; by apply plain_stays].
  apply Z.eqb_eq in E2. destruct (ck_rc _ _ _ _ _ _ _ H1) as [->| ->], (ck_rc _ _ _ _ _ _ _ H2) as [->| ->]; try lia.
  destruct (plain_grant_processed intention wl s2 (default [] w2) (gw (default [] w2))) as (s' & g' & -> & Hp); try done.
  { exact (checks_pass _ _ _ _ _ _ _ _ Hok Hpe H1 H2). }
  { auto. }
  cbn [mbind run_bind fst snd]. by eexists _, _, _, _, _.
Qed.

Lemma process_plain_ok intention flags wl :
  exists rc err fl s' wl', ldlm_process_plain_lock s i flags intention wl = Ret (rc, err, fl, s', wl') /\ processed i intention wl s err s' wl'.
Proof.
  unfold ldlm_process_plain_lock. pose proof Hpe as [(l & Hl & _) _]. unfold sl_get, get_lock. rewrite Hl. cbn [mbind run_bind].
  unfold LASSERT. rewrite (pending_unlocked i s l Hok Hpe Hl). destruct intention.
  - destruct (plain_next s Granted None) as (rc & s1 & w1 & -> & H1 & C1); [done|]. cbn [mbind run_bind].
    destruct (rc =? 0) eqn:E1; [eexists _, _, _, _, _; split; [done|]; by apply plain_stays|].
    destruct (plain_next s1 Waiting None) as (rc2 & s2 & w2 & -> & H2 & C2); [done|]. cbn [mbind run_bind].
    destruct (rc2 =? 0) eqn:E2; [eexists _, _, _, _, _; split; [done|]; by apply plain_stays|].
    apply Z.eqb_neq in E1, E2. destruct (ck_rc _ _ _ _ _ _ _ H1) as [->| ->], (ck_rc _ _ _ _ _ _ _ H2) as [->| ->]; try done.
    destruct (plain_grant_processed LDLM_PROCESS_RESCAN wl s2 wl (Some wl)) as (s' & g' & -> & Hp); try done;
      [exact (checks_pass _ _ _ _ _ _ _ _ Hok Hpe H1 H2)|]. cbn [mbind run_bind fst snd]. by eexists _, _, _, _, _.
  - by apply (plain_enqueue_ok LDLM_PROCESS_ENQUEUE flags wl (fun _ => None)).
  - by apply (plain_enqueue_ok LDLM_PROCESS_RECOVERY flags wl Some).
Qed.
End Plain.

(** ** The processing policy *)

Lemma process_ok s i flags intention wl :
  sl_ok s -> pending i s ->
  (intention = LDLM_PROCESS_RESCAN -> sl_type_of s = LDLM_IBITS -> bits (l_inodebits s i) <> 0) ->
  exists rc err fl s' wl', ldlm_processing_policy s i flags intention wl = Ret (rc, err, fl, s', wl') /\ processed i intention wl s err s' wl'.
Proof.
  intros Hok Hpe Hb. unfold ldlm_processing_policy. destruct (sl_type_of s) eqn:Hty; [by apply process_plain_ok|].
  unfold ldlm_process_inodebits_lock. pose proof Hpe as [(l & Hl & _) _]. unfold sl_get, get_lock. rewrite Hl. cbn [mbind run_bind].
  unfold LASSERT. rewrite (pending_unlocked i s l Hok Hpe Hl). destruct intention.
  - apply ibits_rescan_ok; auto.
  - by apply ibits_enqueue_ok.
  - by apply ibits_enqueue_ok.
Qed.
