(* ===== verification/SkipServer.v ===== *)
(** The operations on plain and inodebits locks of a server (lustre/ldlm/ldlm_lock.c,
    ldlm_lockd.c, ldlm_inodebits.c) keep a resource well, and return. *)

From stdpp Require Import gmap.
From S2P Require Import Prelude IntervalTree LdlmLock LdlmExtent LdlmSafe LdlmSystem LdlmServer LdlmReach LdlmProps.
From S2P Require Import SkipLock SkipRing SkipShape SkipScan SkipPlain SkipSystem SkipCheck SkipGrant SkipDecide.

Implicit Types (s : sl_resource) (gs : groups).

(** ** Changes that keep modes and lists *)

Lemma quiet_calmed s res' : quiet (sl_res s) res' -> exists r, calmed r s (with_res s res').
Proof.
  intros Hq. set (r := fresh (dom (lr_locks (sl_res s)))).
  assert (Hr : lr_locks (sl_res s) !! r = None) by (apply not_elem_of_dom, is_fresh).
  exists r. split; [|done]. split; try done.
  - cbn. by rewrite (q_granted _ _ Hq), (q_waiting _ _ Hq).
  - cbn. pose proof (q_locks _ _ Hq r) as Hl. rewrite Hr in Hl. inversion Hl. by rewrite Hr.
  - intros j. cbn. pose proof (q_locks _ _ Hq j) as Hl. destruct Hl as [l l' [Hc _]|]; constructor. unfold core in Hc. congruence.
  - intros j. cbn. destruct (sl_policy_data s !! j); by constructor.
Qed.

Lemma quiet_ok s res' : sl_ok s -> quiet (sl_res s) res' -> sl_ok (with_res s res').
Proof. intros Hok Hq. destruct (quiet_calmed s res' Hq) as (r & Hc). by eapply calmed_ok. Qed.

Lemma relock_sl s i l l' :
  sl_ok s -> lr_locks (sl_res s) !! i = Some l -> l_req_mode l' = l_req_mode l -> l_granted_mode l' = l_granted_mode l ->
  ldlm_is_destroyed l' = ldlm_is_destroyed l -> lock_fine l' -> sl_ok (sl_put s i l').
Proof.
  intros [(gs & Hsh) H2 H3 H4 H5 H6 H7 H8] Hl Hr Hg Hd Hf.
  assert (Hm : forall j, mode_of (sl_put s i l') j = mode_of s j).
  { intros j. unfold mode_of. cbn. destruct (decide (j = i)) as [->|Hne]; [by rewrite lookup_insert_eq, Hl|by rewrite lookup_insert_ne]. }
  assert (Hlk : forall j lj, lr_locks (sl_res (sl_put s i l')) !! j = Some lj -> exists lj0, lr_locks (sl_res s) !! j = Some lj0
    /\ l_req_mode lj = l_req_mode lj0 /\ l_granted_mode lj = l_granted_mode lj0 /\ ldlm_is_destroyed lj = ldlm_is_destroyed lj0 /\ (lock_fine lj0 -> lock_fine lj)).
  { intros j lj. cbn. destruct (decide (j = i)) as [->|Hne]; [rewrite lookup_insert_eq; intros [= <-]; by exists l|].
    rewrite lookup_insert_ne by done. intros Hlj. by exists lj. }
  split; cbn [sl_res sl_put with_res put_lock lr_granted lr_waiting].
  - exists gs. by apply (shape_untouched s).
  - intros j lj Hlj. destruct (Hlk j lj Hlj) as (l0 & E & _ & _ & _ & Hf0). destruct (H2 j l0 E). split; [auto|done].
  - intros j lj Hne Hlj. destruct (Hlk j lj Hlj) as (l0 & E & -> & -> & -> & _). by apply H3.
  - intros j Hj. destruct (H4 j Hj) as [Hk Ht]. split; [|done]. unfold has_lock. cbn.
    destruct (decide (j = i)) as [->|Hne]; [rewrite lookup_insert_eq; by eexists|by rewrite lookup_insert_ne].
  - intros j Hj. destruct (H5 j Hj) as (Hn & (lj & Hlj & Hdj) & Hb). split; [done|]. split; [|done]. cbn.
    destruct (decide (j = i)) as [->|Hne]; [rewrite lookup_insert_eq; exists l'; split; [done|congruence]|]. rewrite lookup_insert_ne by done. by exists lj.
  - done.
  - intros a b Ha Hb Hab. unfold clash. rewrite !Hm. by apply H7.
  - done.
Qed.

(** A lock that begins to wait. *)
Lemma wait_ok s i l :
  sl_ok s -> lr_locks (sl_res s) !! i = Some l -> ldlm_is_destroyed l = false -> (i ∉ lr_granted (sl_res s)) -> (i ∉ lr_waiting (sl_res s)) ->
  (sl_type_of s = LDLM_IBITS -> bits (l_inodebits s i) <> 0) -> sl_ok (with_res s (set_waiting (sl_res s) (lr_waiting (sl_res s) ++ [i]))).
Proof.
  intros [(gs & Hsh) H2 H3 H4 H5 H6 H7 H8] Hl Hd Hg Hw Hb. split; try done.
  - exists gs. by apply (shape_untouched s).
  - intros j. cbn. intros [Hj|Hj%list_elem_of_singleton]%elem_of_app; [by apply H5|subst j]. split_and!; [done|by exists l|done].
  - cbn. apply list.NoDup_app. split_and!; [done| |apply NoDup_singleton]. intros j Hj Hi%list_elem_of_singleton. by subst.
Qed.

(** ** New locks *)

Lemma sl_create_ok s i mode f export p cookie b c :
  sl_ok s -> lr_locks (sl_res s) !! i = None -> mode ∈ modes -> sl_ok (sl_lock_create s i mode f export p cookie b c).
Proof.
  intros Hok Hn Hm. assert (Hg : i ∉ lr_granted (sl_res s)).
  { intros Hi. destruct (so_granted _ _ Hok i Hi) as [[l Hl] _]. congruence. }
  assert (Hw : i ∉ lr_waiting (sl_res s)).
  { intros Hi. destruct (so_waiting _ _ Hok i Hi) as (_ & (l & Hl & _) & _). congruence. }
  eapply (loose_done _ i); [|cbn; apply lookup_insert_eq|done]. eapply (loosely_ok i s); [|by apply make_loose|].
  - split; try done; intros j Hj; cbn; by rewrite lookup_insert_ne.
  - intros l. cbn. rewrite !lookup_insert_eq. intros [= <-]. split; [|done]. split; [done|by split|by intros _].
Qed.

(** ** Enqueueing *)

Lemma done_ok s rc flags wl :
  sl_ok s -> listed (sl_res s) wl -> exists s', sl_enqueue_done rc flags wl s = Ret (EnqDone rc, flags, s') /\ sl_ok s'.
Proof.
  intros Hok Hl. destruct (discard_asts wl (sl_res s) (ok_asts _ _ Hok) Hl) as (res' & E & Hq).
  unfold sl_enqueue_done. rewrite E. cbn [mbind run_bind]. eexists. split; [done|]. by apply quiet_ok.
Qed.

Lemma helper_ok s i flags wl :
  sl_ok s -> pending i s -> listed (sl_res s) wl -> exists st fl s', sl_enqueue_helper s i flags wl = Ret (st, fl, s') /\ sl_ok s'.
Proof.
  intros Hok Hpe Hl. unfold sl_enqueue_helper.
  destruct (process_ok s i flags LDLM_PROCESS_ENQUEUE wl Hok Hpe) as (rc & err & fl & s1 & wl1 & -> & [P1 P2 P3 P4 P5]); [done|].
  cbn [mbind run_bind]. destruct (P3 i (pending_has i s Hpe)) as [l Hl1]. unfold sl_get, get_lock. rewrite Hl1. cbn [mbind run_bind].
  specialize (P4 eq_refl Hl). destruct ((err =? ELDLM_OK) && negb (l_granted_mode l =? l_req_mode l)) eqn:E.
  2: { destruct (done_ok s1 err fl wl1 P1 P4) as (s' & -> & Hok'). by eexists _, _, _. }
  apply andb_true_iff in E as [Herr%Z.eqb_eq Hng%negb_true_iff%Z.eqb_neq].
  assert (Hg1 : i ∉ lr_granted (sl_res s1)).
  { intros Hi. destruct (so_mode _ _ P1 i l) as [Hm _]; [done|done|]. by destruct (Hm Hi). }
  destruct P2 as [Hc|Hgb]; [|by apply gb_granted in Hgb]. destruct (pending_calmed i s s1 Hc Hpe) as [(l' & Hl' & Hd) _].
  assert (l' = l) as -> by congruence. destruct (on_resource (sl_res s1) i) eqn:Hon.
  { cbn [mbind run_bind]. eexists _, _, _. split; [done|]. by destruct s1. }
  pose proof Hon as [_ Hw]%on_resource_false. unfold ldlm_resource_add_lock, get_lock. rewrite Hl1. cbn [mbind run_bind].
  rewrite Hd, Hon. cbn [negb LASSERT mbind run_bind]. eexists _, _, _. split; [done|]. apply (wait_ok s1 i l); try done.
  intros Ht. destruct (P5 eq_refl Herr) as [?|?]; [by rewrite <-(ev_type _ _ _ (cd_evolves _ _ _ Hc))|done|done].
Qed.

Lemma flags_fine l flags : lock_fine l -> lock_fine (set_flags l (enqueue_lock_flags flags (l_flags l))).
Proof.
  intros [H1 [A1 A2] H3]. split; [done| |].
  - split; [|done]. cbn. unfold ldlm_is_ast_sent. cbn. rewrite enqueue_flags_test by done. exact A1.
  - unfold cp_ok, ldlm_is_cp_reqd in *. cbn. by rewrite enqueue_flags_test.
Qed.

Lemma enqueue_ok s i l flags :
  sl_ok s -> lr_locks (sl_res s) !! i = Some l -> ldlm_is_destroyed l = false -> (i ∉ lr_granted (sl_res s)) ->
  exists st fl s', sl_lock_enqueue s i flags = Ret (st, fl, s') /\ sl_ok s'.
Proof.
  intros Hok Hl Hd Hg. unfold sl_lock_enqueue, sl_get, get_lock. cbn [sl_unlink_lock sl_res with_res list_del_res_link set_waiting lr_locks set_granted].
  replace (lr_locks (sl_res (ldlm_unlink_lock_skiplist s i)) !! i) with (Some l) by (symmetry; exact Hl). cbn [mbind run_bind].
  destruct (so_fine _ _ Hok i l Hl) as [Hf Hdata]. destruct (so_mode _ _ Hok i l) as [_ Hm]; [done|done|].
  set (s1 := sl_put _ i _). assert (Hok1 : sl_ok s1).
  { eapply (loose_done s1 i); [|cbn; apply lookup_insert_eq|by apply Hm]. apply put_ok; [by apply sl_unlink_ok|by apply flags_fine|done]. }
  apply helper_ok; [done| |by split; [apply NoDup_nil|]]. split.
  - eexists. split; [cbn; apply lookup_insert_eq|]. unfold ldlm_is_destroyed in *. cbn. by rewrite enqueue_flags_test.
  - cbn. rewrite elem_of_filter_ne. tauto.
Qed.

Lemma conflict_ok s i flags ast_rc wl :
  sl_ok s -> has_lock s i -> listed (sl_res s) wl -> exists st fl s', sl_handle_conflict s i flags ast_rc wl = Ret (st, fl, s') /\ sl_ok s'.
Proof.
  intros Hok [l Hl] Hw. unfold sl_handle_conflict, sl_get, get_lock. rewrite Hl. cbn [mbind run_bind].
  assert (Hdone : forall rc fl0, exists st fl s', sl_enqueue_done rc fl0 wl s = Ret (st, fl, s') /\ sl_ok s').
  { intros rc fl0. destruct (done_ok s rc fl0 wl Hok Hw) as (s' & -> & ?). by eexists _, _, _. }
  destruct (ast_rc =? - ERESTART); [|apply Hdone]. destruct (ldlm_is_destroyed l) eqn:Hd; [apply Hdone|].
  destruct (l_granted_mode l =? l_req_mode l) eqn:Hg; [apply Hdone|]. apply helper_ok; [done| |done].
  split; [by exists l|]. intros Hi. destruct (so_mode _ _ Hok i l) as [Hm _]; [done|done|]. destruct (Hm Hi). by apply Z.eqb_neq in Hg.
Qed.

(** ** Reprocessing *)

Lemma reprocess_loop_ok intention q : intention <> LDLM_PROCESS_ENQUEUE -> forall s rc wl bl,
  sl_ok s -> NoDup q -> (forall i, i ∈ q -> i ∈ lr_waiting (sl_res s)) ->
  exists rc' s' wl' bl', sl_reprocess_loop intention q s rc wl bl = Ret (rc', s', wl', bl') /\ sl_ok s'.
Proof.
  intros Hint. induction q as [|i q IH]; intros s rc wl bl Hok Hnd Hq; [by eexists _, _, _, _|].
  apply NoDup_cons in Hnd as [Hi Hnd]. destruct (so_waiting _ _ Hok i (Hq i ltac:(by left))) as (Hg & Hl & Hb).
  cbn [sl_reprocess_loop]. destruct (process_ok s i 0 intention []) as (rc1 & err & fl & s1 & wl1 & -> & [P1 P2 P3 _ _]); [done|by split|auto|].
  cbn [mbind run_bind]. destruct (P3 i) as [l Hl1]; [by destruct Hl as (l & ? & _); exists l|]. unfold sl_get, get_lock. rewrite Hl1. cbn [mbind run_bind].
  assert (Hrest : forall j, j ∈ q -> j ∈ lr_waiting (sl_res s1)).
  { intros j Hj. assert (Hjw : j ∈ lr_waiting (sl_res s)) by (apply Hq; by right). destruct P2 as [Hc|Hgb].
    - by rewrite (proj2 (ev_lists _ _ _ (cd_evolves _ _ _ Hc))).
    - rewrite (gb_waiting _ _ _ Hgb). apply elem_of_filter_ne. split; [congruence|done]. }
  destruct intention; [|done|by apply IH]. destruct (negb (rc1 =? LDLM_ITER_CONTINUE)); [by eexists _, _, _, _|by apply IH].
Qed.

Lemma sl_reprocess_ok s intention wl :
  sl_ok s -> intention <> LDLM_PROCESS_ENQUEUE ->
  exists rc s' wl' bl, sl_reprocess_queue s wl intention = Ret (rc, s', wl', bl) /\ sl_ok s'.
Proof.
  intros Hok Hi. unfold sl_reprocess_queue, LASSERT. destruct intention; [|done|]; apply reprocess_loop_ok; try done; apply Hok.
Qed.

(** ** Changes of granted locks *)

Lemma granted_lock s i : sl_ok s -> i ∈ lr_granted (sl_res s) ->
  exists l, lr_locks (sl_res s) !! i = Some l /\ l_granted_mode l = l_req_mode l /\ ldlm_is_destroyed l = false /\ lock_fine l
    /\ is_Some (sl_policy_data s !! i).
Proof.
  intros Hok Hi. destruct (so_granted _ _ Hok i Hi) as [[l Hl] _]. exists l. destruct (so_mode _ _ Hok i l) as [Hm _]; [done|done|].
  destruct (Hm Hi), (so_fine _ _ Hok i l Hl). done.
Qed.

Lemma land_ldiff_sub a b c : Z.land (Z.ldiff a c) b <> 0 -> Z.land a b <> 0.
Proof.
  intros H Hz. apply H. apply Z.bits_inj'. intros n Hn. apply (f_equal (fun z => Z.testbit z n)) in Hz.
  rewrite Z.land_spec, Z.bits_0 in *. rewrite Z.ldiff_spec. by destruct (Z.testbit a n), (Z.testbit b n), (Z.testbit c n).
Qed.

Lemma drop_ok s i to_drop :
  sl_ok s -> i ∈ lr_granted (sl_res s) -> sl_type_of s = LDLM_IBITS ->
  exists s', ldlm_inodebits_drop s i to_drop = Ret s' /\ sl_ok s' /\ lr_locks (sl_res s') = lr_locks (sl_res s)
    /\ bits (l_inodebits s' i) = Z.ldiff (bits (l_inodebits s i)) to_drop /\ i ∈ lr_granted (sl_res s').
Proof.
  intros Hok Hi Hty. destruct (granted_lock s i Hok Hi) as (l & Hl & Hm & Hd & Hf & Hp). unfold ldlm_inodebits_drop.
  destruct (Z.land (bits (l_inodebits s i)) to_drop =? 0) eqn:E.
  { exists s. split_and!; try done. apply Z.eqb_eq in E. clear Hp. symmetry. apply Z.bits_inj'. intros n Hn. apply (f_equal (fun z => Z.testbit z n)) in E.
    rewrite Z.land_spec, Z.bits_0 in E. rewrite Z.ldiff_spec. by destruct (Z.testbit (bits _) n), (Z.testbit to_drop n). }
  set (s1 := with_bits _ i _). assert (Hok1 : sl_ok_but (Some i) s1) by (apply bits_ok; by apply sl_unlink_ok).
  destruct (skiplist_ok s1 i l) as (s' & -> & Hok' & [P1 P2 P3 P4 P5 P6]); try done.
  - intros _. unfold s1. rewrite with_bits_eq. by apply (so_granted _ _ Hok).
  - intros j Hj (C1 & C2 & C3 & C4). cbn in Hj. apply elem_of_filter_ne in Hj as [Hne Hj]. apply (so_clash _ _ Hok i j); try done.
    split; [done|]. split; [done|]. split; [done|]. intros _. specialize (C4 Hty). unfold s1 in C4. rewrite with_bits_eq, with_bits_ne in C4 by done.
    cbn [bits] in C4. by eapply land_ldiff_sub.
  - exists s'. split_and!; [done|done|done| |rewrite P2; by left]. unfold l_inodebits. rewrite P5. fold (l_inodebits s1 i). unfold s1. by rewrite with_bits_eq.
Qed.

Lemma downgrade_ok s i l :
  sl_ok s -> lr_locks (sl_res s) !! i = Some l ->
  Z.land (l_granted_mode l) (Z.lor LCK_PW LCK_EX) <> 0 \/ l_granted_mode l = LCK_MINMODE ->
  exists s', ldlm_lock_mode_downgrade s i LCK_COS = Ret s' /\ sl_ok s'.
Proof.
  intros Hok Hl Hg. unfold ldlm_lock_mode_downgrade, LASSERT, sl_get, get_lock. rewrite Z.eqb_refl, Hl. cbn [mbind run_bind].
  destruct (Z.land (l_granted_mode l) (Z.lor LCK_PW LCK_EX) =? 0) eqn:E.
  { apply Z.eqb_eq in E. destruct Hg as [?| ->]; [done|]. exists s. done. }
  assert (Hi : i ∈ lr_granted (sl_res s)).
  { destruct (decide (i ∈ lr_granted (sl_res s))) as [|Hn]; [done|]. destruct (so_mode _ _ Hok i l) as [_ Hm]; [done|done|]. by rewrite (Hm Hn) in E. }
  destruct (granted_lock s i Hok Hi) as (l' & Hl' & Hm & Hd & [F1 F2 F3] & Hp). assert (l' = l) as -> by congruence.
  set (s1 := sl_put _ i _). assert (Hl1 : lr_locks (sl_res s1) !! i = Some (set_req_mode l LCK_COS)) by (cbn; apply lookup_insert_eq).
  destruct (grant_ok s1 i (set_req_mode l LCK_COS) None) as (s' & wl' & -> & Hok' & _); try done.
  - apply put_ok; [by apply sl_unlink_ok| |done]. split; [|done|done]. cbn. unfold modes. rewrite !elem_of_cons. tauto.
  - intros Ht. by apply (so_granted _ _ Hok).
  - intros j _ (C1 & _). unfold mode_of in C1. by rewrite Hl1 in C1.
  - cbn [mbind run_bind fst]. by exists s'.
Qed.

Lemma convert_ok s i l to_drop :
  sl_ok s -> i ∈ lr_granted (sl_res s) -> sl_type_of s = LDLM_IBITS ->
  lr_locks (sl_res s) !! i = Some l -> l_bl_ast l = false -> l_blocking_lock l = None ->
  exists s', convert_drop s i to_drop = Ret s' /\ sl_ok s' /\ bits (l_inodebits s' i) = Z.ldiff (bits (l_inodebits s i)) to_drop
    /\ i ∈ lr_granted (sl_res s').
Proof.
  intros Hok Hi Hty Hl Hb Hbl. unfold convert_drop. destruct (so_fine _ _ Hok i l Hl) as [_ [p Hp]].
  assert (Hsame : with_bits s i (Inodebits (bits (l_inodebits s i)) 0) = s).
  { apply with_bits_same. destruct (so_granted _ _ Hok i Hi) as [_ Ht]. specialize (Ht Hty). unfold l_inodebits in *. rewrite Hp in *.
    destruct p as [b tr]. cbn in *. by rewrite Ht. }
  rewrite Hsame. destruct (drop_ok s i to_drop Hok Hi Hty) as (s1 & -> & Hok1 & El & Eb & Hin).
  cbn [mbind run_bind]. unfold sl_get, get_lock. rewrite El, Hl. cbn [mbind run_bind]. eexists. split; [done|]. split; [|done].
  destruct (so_fine _ _ Hok i l Hl) as [[F1 F2 F3] _]. eapply relock_sl; [done|by rewrite El|done|done| |].
  - unfold ldlm_is_destroyed. cbn. by rewrite test_clear_flag.
  - split; [done| |].
    + split; cbn; [done|]. by rewrite Hb.
    + unfold cp_ok, ldlm_is_cp_reqd in *. cbn. by rewrite test_clear_flag.
Qed.

(** ** Cancels and callbacks *)

Lemma cancel_start_ok s i : sl_ok s -> has_lock s i -> exists s', cancel_start s i = Ret s' /\ sl_ok s'.
Proof.
  intros Hok [l Hl]. unfold cancel_start, sl_get, get_lock. rewrite Hl. cbn [mbind run_bind]. eexists. split; [done|].
  destruct (so_fine _ _ Hok i l Hl) as [[F1 [A1 A2] F3] _]. eapply relock_sl; try done.
  - unfold ldlm_is_destroyed. cbn. by rewrite test_set_flag.
  - split; [done| |].
    + split; [|done]. cbn. unfold ldlm_is_ast_sent. cbn. by rewrite test_set_flag.
    + unfold cp_ok, ldlm_is_cp_reqd in *. cbn. by rewrite test_set_flag.
Qed.

Lemma cancel_finish_ok s i : sl_ok s -> has_lock s i -> exists s', cancel_finish s i = Ret s' /\ sl_ok s'.
Proof.
  intros Hok [l Hl]. pose proof (sl_unlink_ok s i Hok) as Hok1. unfold cancel_finish, ldlm_lock_destroy_nolock. set (s1 := sl_unlink_lock s i) in *.
  unfold get_lock. assert (Hl1 : lr_locks (sl_res s1) !! i = Some l) by exact Hl. rewrite Hl1. cbn [mbind run_bind].
  assert (Hon : on_resource (sl_res s1) i = false) by (apply on_resource_false; by apply (so_loose _ _ Hok1)). rewrite Hon. cbn [negb LASSERT].
  destruct (so_fine _ _ Hok i l Hl) as [[F1 [A1 A2] F3] Hp]. destruct (ldlm_is_destroyed l); cbn [mbind run_bind].
  - rewrite Hl1. cbn [mbind run_bind]. eexists. split; [done|]. apply (loose_done _ i (set_granted_mode l LCK_MINMODE)); [|cbn; apply lookup_insert_eq|done].
    by apply (put_ok s1).
  - match goal with |- context [put_lock (sl_res s1) i ?x] => replace (lr_locks (put_lock (sl_res s1) i x) !! i) with (Some x) by (cbn; by rewrite lookup_insert_eq) end.
    cbn [mbind run_bind]. eexists. split; [done|].
    eapply (loose_done _ i); [|cbn; apply lookup_insert_eq|done]. eapply (loosely_ok i s1); [|done|].
    + split; try done. intros j Hj. cbn. by rewrite !lookup_insert_ne.
    + intros l'. cbn. rewrite lookup_insert_eq. intros [= <-]. split; [|done]. split; [done| |].
      * split; [|done]. cbn. unfold ldlm_is_ast_sent. cbn. by rewrite test_set_flag.
      * unfold cp_ok, ldlm_is_cp_reqd in *. cbn. by rewrite test_set_flag.
Qed.

Lemma sl_cp_ok s i l : sl_ok s -> lr_locks (sl_res s) !! i = Some l -> l_cp_ast l = true ->
  exists called res', ldlm_work_cp_ast_lock (sl_res s) i = Ret (called, res') /\ sl_ok (with_res s res').
Proof.
  intros Hok Hl Hc. destruct (so_fine _ _ Hok i l Hl) as [[F1 [A1 A2] F3] _]. unfold ldlm_work_cp_ast_lock, get_lock. rewrite Hl. cbn [mbind run_bind].
  destruct (ldlm_is_cp_reqd (set_cp l false)) eqn:Hr; [|by rewrite (F3 Hr) in Hc].
  cbn [LASSERT]. eexists _, _. split; [done|]. eapply (relock_sl s i); try done.
  - unfold ldlm_is_destroyed. cbn. by rewrite test_clear_flag.
  - split; [done| |by intros _]. split; [|done]. cbn. unfold ldlm_is_ast_sent. cbn. by rewrite test_clear_flag.
Qed.
