(* ===== verification/SkipProps.v ===== *)
(** A server's resource of plain or inodebits locks as a whole: its operations in any
    order, and what holds in every state they lead to. *)

From stdpp Require Import gmap.
From S2P Require Import Prelude IntervalTree LdlmLock LdlmExtent LdlmSafe LdlmSystem LdlmServer LdlmReach LdlmProps.
From S2P Require Import SkipLock SkipRing SkipShape SkipScan SkipPlain SkipSystem SkipCheck SkipGrant SkipDecide SkipServer.

Implicit Types (s : sl_resource).

(** ** Operations *)

Inductive sl_op :=
  | SlCreate (i mode lock_flags : Z) (export : option Z) (p : ldlm_inodebits) (cookie : Z) (blocking completion : bool)
  | SlEnqueue (i flags : Z)
  | SlConflict (i flags ast_rc : Z) (rpc_list : list Z)
  | SlReprocess (intention : ldlm_process_intention) (work_list : list Z)
  | SlDowngrade (i : Z)
  | SlConvert (i to_drop : Z)
  | SlCancelStart (i : Z)
  | SlCancelFinish (i : Z)
  | SlBlStart (i : Z)
  | SlBlFinish (i : Z)
  | SlCpAst (i : Z).

Definition sl_new (t : sl_type) : sl_resource :=
  SlResource t ldlm_resource_new ∅ ∅ (Links ∅ ∅) (Links ∅ ∅).

Definition sl_do (op : sl_op) s : run sl_resource :=
  match op with
  | SlCreate i mode f export p cookie blocking completion =>
      if enqueue_mode_ok mode then Ret (sl_lock_create s i mode f export p cookie blocking completion) else Ret s
  | SlEnqueue i flags => r ← sl_lock_enqueue s i flags; Ret r.2
  | SlConflict i flags ast_rc rpc_list => r ← sl_handle_conflict s i flags ast_rc rpc_list; Ret r.2
  | SlReprocess intention work_list => r ← sl_reprocess_queue s work_list intention; Ret r.1.1.2
  | SlDowngrade i => ldlm_lock_mode_downgrade s i LCK_COS
  | SlConvert i to_drop => convert_drop s i to_drop
  | SlCancelStart i => cancel_start s i
  | SlCancelFinish i => cancel_finish s i
  | SlBlStart i => res ← bl_ast_start (sl_res s) i; Ret (with_res s res)
  | SlBlFinish i => res ← bl_ast_finish (sl_res s) i; Ret (with_res s res)
  | SlCpAst i => r ← ldlm_work_cp_ast_lock (sl_res s) i; Ret (with_res s r.2)
  end.

(** When an operation may happen: a new lock has a handle of its own; a request is enqueued
    once; the list of callbacks that were not run is a list of linked locks; a callback that
    runs was linked; a write lock is downgraded, or one that was cancelled; and a lock is
    converted while it is granted, with no blocking callback under way.  The code checks
    that before it takes the resource lock, and not again; a cancel in between is treated
    below. *)
Definition sl_can s (op : sl_op) : Prop :=
  match op with
  | SlCreate i _ _ _ _ _ _ _ => lr_locks (sl_res s) !! i = None
  | SlEnqueue i _ =>
      exists l, lr_locks (sl_res s) !! i = Some l /\ on_resource (sl_res s) i = false /\ ldlm_is_destroyed l = false
  | SlConflict i _ _ rpc_list => has_lock s i /\ listed (sl_res s) rpc_list
  | SlReprocess intention _ => intention <> LDLM_PROCESS_ENQUEUE
  | SlDowngrade i =>
      exists l, lr_locks (sl_res s) !! i = Some l
        /\ (Z.land (l_granted_mode l) (Z.lor LCK_PW LCK_EX) <> 0 \/ l_granted_mode l = LCK_MINMODE)
  | SlConvert i _ =>
      sl_type_of s = LDLM_IBITS /\ i ∈ lr_granted (sl_res s)
      /\ exists l, lr_locks (sl_res s) !! i = Some l /\ l_bl_ast l = false /\ l_blocking_lock l = None
  | SlCancelStart i | SlCancelFinish i => has_lock s i
  | SlBlStart i => exists l, lr_locks (sl_res s) !! i = Some l /\ l_bl_ast l = true
  | SlBlFinish i => exists l, lr_locks (sl_res s) !! i = Some l /\ l_bl_ast_run l <> 0 /\ l_blocking_lock l <> None
  | SlCpAst i => exists l, lr_locks (sl_res s) !! i = Some l /\ l_cp_ast l = true
  end.

(** Operations one after the other. *)
Fixpoint sl_run (ops : list sl_op) s : run sl_resource :=
  match ops with
  | [] => Ret s
  | op :: ops' => s ← sl_do op s; sl_run ops' s
  end.

Inductive sl_reachable (t : sl_type) : sl_resource -> Prop :=
  | sl_reach_new : sl_reachable t (sl_new t)
  | sl_reach_step s op s' : sl_reachable t s -> sl_can s op -> sl_do op s = Ret s' -> sl_reachable t s'.

(** ** Each operation keeps the resource well *)

Lemma new_ok t : sl_ok (sl_new t).
Proof.
  split; try (by intros ? ?%not_elem_of_nil || by intros ? ? ?%not_elem_of_nil); try done; [|constructor].
  exists []. split; try done; [apply NoDup_nil_2|]. exists []. split; [constructor|apply NoDup_nil_2].
Qed.

Lemma do_ok s op : sl_ok s -> sl_can s op -> exists s', sl_do op s = Ret s' /\ sl_ok s'.
Proof.
  intros Hok Hcan. destruct op as [i mode f e p ck b c|i fl|i fl a w|it w|i|i d|i|i|i|i|i]; cbn [sl_do sl_can] in *.
  - destruct (enqueue_mode_ok mode) eqn:Hm; [|by exists s]. eexists. split; [done|]. apply sl_create_ok; [done|done|by apply enqueue_mode_ok_modes].
  - destruct Hcan as (l & Hl & [Hg _]%on_resource_false & Hd). destruct (enqueue_ok s i l fl Hok Hl Hd Hg) as (st & f & s' & -> & ?). by exists s'.
  - destruct Hcan as [Hl Hw]. destruct (conflict_ok s i fl a w Hok Hl Hw) as (st & f & s' & -> & ?). by exists s'.
  - destruct (sl_reprocess_ok s it w Hok Hcan) as (rc & s' & w' & bl & -> & ?). by exists s'.
  - destruct Hcan as (l & Hl & Hg). by apply (downgrade_ok s i l).
  - destruct Hcan as (Ht & Hi & l & Hl & Hb & Hbl). destruct (convert_ok s i l d) as (s' & E & ? & _); try done. by exists s'.
  - by apply cancel_start_ok.
  - by apply cancel_finish_ok.
  - destruct Hcan as (l & Hl & Hb). destruct (bl_start_ast (sl_res s) i l) as (res' & -> & Hq); [by apply (so_fine _ _ Hok i l)|done|done|].
    eexists. split; [done|by apply quiet_ok].
  - destruct Hcan as (l & Hl & Hr & Hb). destruct (bl_finish_ast (sl_res s) i l Hl Hr Hb) as (res' & -> & Hq).
    eexists. split; [done|by apply quiet_ok].
  - destruct Hcan as (l & Hl & Hc). destruct (sl_cp_ok s i l Hok Hl Hc) as (called & res' & -> & ?). by eexists.
Qed.

Lemma sl_reachable_ok t s : sl_reachable t s -> sl_ok s.
Proof.
  induction 1 as [|s op s' _ IH Hcan Hdo]; [apply new_ok|]. destruct (do_ok s op IH Hcan) as (s1 & E & ?). congruence.
Qed.

(** C4: On a resource of plain or inodebits locks that a server's operations lead to,
    every operation returns: no assertion fails and no walk of the skip lists leaves the
    granted list.  Afterwards the granted list is again made of mode groups, and these of
    policy groups of the same bits, each linked as a ring and each mode and each bits of a
    mode there once, and no two granted locks have conflicting modes and common bits (locks
    kept in COS mode aside). *)
Theorem skiplist_server_safe t s op :
  sl_reachable t s -> sl_can s op ->
  exists s', sl_do op s = Ret s' /\ (exists gs, shape s' gs)
    /\ forall i j, i ∈ lr_granted (sl_res s') -> j ∈ lr_granted (sl_res s') -> i <> j -> ~ clash s' i j.
Proof.
  intros Hr Hcan. destruct (do_ok s op (sl_reachable_ok t s Hr) Hcan) as (s' & E & Hok'). exists s'.
  split; [done|]. split; [apply Hok'|]. apply (so_clash _ _ Hok').
Qed.

(** ** The walks *)

(** Whether the client of a lock in COS mode matters to the request. *)
Definition cos_sensitive s (req : Z) : bool :=
  match lr_locks (sl_res s) !! req with
  | Some rl => negb (ldlm_is_cos_incompat rl) && ldlm_is_cos_enabled rl
  | None => false
  end.

(** Granted locks in COS mode of the same bits are of one client. *)
Definition cos_uniform s : Prop :=
  forall i j, i ∈ lr_granted (sl_res s) -> j ∈ lr_granted (sl_res s) -> mode_of s i = LCK_COS -> mode_of s j = LCK_COS ->
    bits (l_inodebits s i) = bits (l_inodebits s j) -> l_client_cookie s i = l_client_cookie s j.

Definition stands_for (rep : Z -> Z) s (req i : Z) : Prop :=
  cos_sensitive s req = true -> mode_of s i = LCK_COS -> l_client_cookie s (rep i) = l_client_cookie s i.

Lemma stands_for_evolves rep req s s' i : evolves req s s' -> stands_for rep s req i -> stands_for rep s' req i.
Proof.
  intros He. unfold stands_for, cos_sensitive, l_client_cookie. by rewrite (ev_req _ _ _ He), (ev_cookie _ _ _ He), (evolves_mode _ _ _ _ He).
Qed.

Lemma scan_lock_rep rep s req rb i compat wl :
  stands_for rep s req i -> scan_lock rep s req rb i compat wl = scan_lock id s req rb i compat wl.
Proof.
  intros Hst. unfold scan_lock, sl_get, get_lock. destruct (lr_locks (sl_res s) !! i) as [l|] eqn:Hl; [|done].
  destruct (lr_locks (sl_res s) !! req) as [rl|] eqn:Hrl; [|done]. cbn [mbind run_bind].
  assert (Ec : forall s1, sl_cookie s1 = sl_cookie s -> cos_compatible s1 (rep i) req l rl = cos_compatible s1 (id i) req l rl); [|by rewrite Ec].
  intros s1 E1. unfold cos_compatible, l_client_cookie. rewrite E1. fold (l_client_cookie s (rep i)) (l_client_cookie s (id i)).
  unfold stands_for, cos_sensitive, mode_of in Hst. rewrite Hl, Hrl in Hst.
  destruct (Z.eqb_spec (l_req_mode l) LCK_COS) as [Em|]; [|done]. destruct (negb (ldlm_is_cos_incompat rl)), (ldlm_is_cos_enabled rl); try done.
  by rewrite (Hst eq_refl Em).
Qed.

Lemma scan_rep rep req rb q : forall s compat wl,
  Forall (known s) q -> known s req -> Forall (stands_for rep s req) q ->
  scan rep s req rb q compat wl = scan id s req rb q compat wl.
Proof.
  induction q as [|i q IH]; intros s compat wl Hk Hr Hst; [done|]. apply Forall_cons in Hk as [Hi Hk], Hst as [Hsi Hst].
  cbn [scan]. destruct (Z.eqb_spec i req) as [|Hne]; [done|]. rewrite scan_lock_rep by done.
  destruct (scan_lock id s req rb i compat wl) as [[s1 w1|c1 s1 w1]|] eqn:E; try done. cbn [mbind run_bind].
  pose proof (scan_lock_evolves id s req rb i compat wl _ Hi Hr Hne E) as He. cbn [step_state] in He. apply IH.
  - eapply Forall_impl; [exact Hk|]. intros j. by apply (evolves_knows req).
  - by eapply evolves_knows.
  - eapply Forall_impl; [exact Hst|]. intros j. by apply stands_for_evolves.
Qed.

(** The first lock of a policy group has the bits and the mode of the others. *)
Lemma rep_alike s gs i :
  shape s gs -> sl_type_of s = LDLM_IBITS -> i ∈ lr_granted (sl_res s) ->
  rep_of gs i ∈ lr_granted (sl_res s) /\ mode_of s (rep_of gs i) = mode_of s i /\ bits (l_inodebits s (rep_of gs i)) = bits (l_inodebits s i).
Proof.
  intros Hsh Ht Hi. rewrite (sh_granted _ _ Hsh) in Hi |- *. pose proof Hi as Hi'. unfold flat in Hi'.
  apply elem_of_concat_inv in Hi' as (l & Hl & Hil). apply list_elem_of_fmap in Hl as (g & -> & Hg).
  apply elem_of_concat_inv in Hil as (pg & Hpg & Hipg). pose proof (sh_groups _ _ Hsh) as Hgr. rewrite Forall_forall in Hgr.
  destruct (Hgr g Hg) as (_ & Hrp & _). rewrite Forall_forall in Hrp. destruct (ring_nonempty _ _ (Hrp pg Hpg)) as (a & rest & ->).
  rewrite (rep_head gs a rest i (sh_nodup _ _ Hsh) (concat_policy _ _ _ Hg Hpg) Hipg). assert (Ha : a ∈ a :: rest) by (by left).
  destruct (group_mode_of s gs g Hsh Hg) as (m & Hm). destruct (policy_key_of s gs g _ Hsh Hg Hpg) as (k & Hk).
  unfold group_mode in Hm. unfold group_key, key_of in Hk. rewrite Ht in Hk. rewrite Forall_forall in Hm, Hk. split_and!.
  - by eapply flat_policy.
  - by rewrite (Hm a), (Hm i) by (by eapply elem_of_concat).
  - by rewrite (Hk a), (Hk i).
Qed.

(** C16: The walks over the skip lists, which skip mode groups and policy groups, give the
    same result, the same work list and the same resource as a look at one lock after the
    other, for the granted and for the waiting locks.  For inodebits this is so if the
    client of a lock in COS mode does not matter to the request, or if such locks of the
    same bits are of one client: a walk looks at the first lock of a policy group only. *)
Theorem skiplist_walk_equiv t s q req wl :
  sl_reachable t s -> has_lock s req -> (req ∉ lr_granted (sl_res s)) ->
  (sl_type_of s = LDLM_PLAIN -> ldlm_plain_compat_queue s q req wl = plain_queue_scan s q req wl)
  /\ (sl_type_of s = LDLM_IBITS -> cos_sensitive s req = false \/ cos_uniform s ->
      ldlm_inodebits_compat_queue s q req wl = inodebits_scan id s q req wl).
Proof.
  intros Hr Hl Hg. pose proof (sl_reachable_ok t s Hr) as Hok. split; [intros _; by eapply plain_queue_scans|].
  intros Ht Hcos. destruct (so_shape _ _ Hok) as (gs & Hsh). rewrite (inodebits_queue_scan None s req Hok Hl Hg gs) by done.
  unfold inodebits_scan. destruct (no_bits s req _); [done|]. f_equal. apply scan_rep.
  - apply Forall_forall. intros i Hi. by eapply queue_known.
  - by eapply ok_known.
  - apply Forall_forall. intros i Hi Hs Hm. destruct Hcos as [Hcos|Hcos]; [congruence|]. destruct q; cbn in *; [|done].
    destruct (rep_alike s gs i Hsh Ht Hi) as (H1 & H2 & H3). by apply Hcos; rewrite ?H2.
Qed.

(** ** Converting *)

Lemma ldiff_ldiff a b : Z.ldiff a (Z.ldiff a b) = Z.land a b.
Proof. apply Z.bits_inj'. intros n Hn. rewrite !Z.ldiff_spec, Z.land_spec. by destruct (Z.testbit a n), (Z.testbit b n). Qed.

Lemma convert_check_drop s i mode new d :
  convert_check s i mode new = Ret (inr d) -> d = Z.ldiff (bits (l_inodebits s i)) new.
Proof. unfold convert_check, sl_get. destruct (get_lock _ _); [|done]. cbn [mbind run_bind]. repeat case_match; try done. by intros [= <-]. Qed.

(** A lock that was cancelled is not granted any more. *)
Lemma cancelled_lock s i s1 s2 :
  has_lock s i -> cancel_start s i = Ret s1 -> cancel_finish s1 i = Ret s2 ->
  sl_policy_data s2 = sl_policy_data s
  /\ exists l l2, lr_locks (sl_res s) !! i = Some l /\ lr_locks (sl_res s2) !! i = Some l2
       /\ l_req_mode l2 = l_req_mode l /\ l_granted_mode l2 = LCK_MINMODE.
Proof.
  intros [l Hl]. unfold cancel_start, sl_get, get_lock. rewrite Hl. cbn [mbind run_bind]. intros [= <-].
  unfold cancel_finish, ldlm_lock_destroy_nolock, get_lock, LASSERT. cbn -[on_resource ldlm_is_destroyed lookup insert].
  rewrite lookup_insert_eq. cbn [mbind run_bind]. destruct (negb (on_resource _ i)); [|done].
  destruct (ldlm_is_destroyed _); cbn -[lookup insert]; rewrite lookup_insert_eq; cbn -[lookup insert]; intros [= <-];
    (split; [done|]); cbn -[lookup insert]; exists l; rewrite lookup_insert_eq; by eexists.
Qed.

(** C37: The server converts an inodebits lock to the bits the client keeps: if the lock is
    still granted and no blocking callback is under way when the resource lock is taken, the
    lock stays granted with just these bits.  What is decided before that, without the
    resource lock, does not rule out that the lock is cancelled in between; then an
    assertion fails. *)
Theorem convert_granted_or_bug t s i mode new d :
  sl_reachable t s -> i ∈ lr_granted (sl_res s) -> sl_type_of s = LDLM_IBITS -> convert_check s i mode new = Ret (inr d) -> d <> 0 ->
  (sl_can s (SlConvert i d) ->
   exists s', convert_drop s i d = Ret s' /\ i ∈ lr_granted (sl_res s')
     /\ bits (l_inodebits s' i) = Z.land (bits (l_inodebits s i)) new)
  /\ exists s1 s2, cancel_start s i = Ret s1 /\ cancel_finish s1 i = Ret s2 /\ convert_drop s2 i d = LBUG.
Proof.
  intros Hr Hi Ht Hc Hd. pose proof (sl_reachable_ok t s Hr) as Hok. apply convert_check_drop in Hc as Ed. split.
  - intros (_ & _ & l & Hl & Hb & Hbl). destruct (convert_ok s i l d) as (s' & E & _ & Eb & Hin); try done.
    exists s'. split; [done|]. split; [done|]. by rewrite Eb, Ed, ldiff_ldiff.
  - destruct (granted_lock s i Hok Hi) as (l & Hl & Hm & _ & [Hmd _ _] & _). assert (Hk : has_lock s i) by (by exists l).
    destruct (cancel_start_ok s i Hok Hk) as (s1 & E1 & Hok1). assert (Hk1 : has_lock s1 i).
    { revert E1. unfold cancel_start, sl_get, get_lock. rewrite Hl. cbn [mbind run_bind]. intros [= <-]. unfold has_lock. cbn. rewrite lookup_insert_eq. by eexists. }
    destruct (cancel_finish_ok s1 i Hok1 Hk1) as (s2 & E2 & Hok2). exists s1, s2. split; [done|]. split; [done|].
    destruct (cancelled_lock s i s1 s2 Hk E1 E2) as (Ep & l0 & l2 & Hl0 & Hl2 & Er & Eg). assert (l0 = l) as -> by congruence.
    assert (Eb : l_inodebits s2 i = l_inodebits s i) by (unfold l_inodebits; by rewrite Ep).
    unfold convert_drop, ldlm_inodebits_drop. rewrite with_bits_eq, Eb. cbn [bits try_bits].
    assert (Hz : Z.land (bits (l_inodebits s i)) d <> 0).
    { intros Hz. apply Hd. rewrite Ed. rewrite Ed in Hz. apply Z.bits_inj'. intros n Hn. apply (f_equal (fun z => Z.testbit z n)) in Hz.
      rewrite Z.land_spec, Z.ldiff_spec, Z.bits_0 in Hz. rewrite Z.ldiff_spec, Z.bits_0. by destruct (Z.testbit (bits (l_inodebits s i)) n). }
    rewrite (proj2 (Z.eqb_neq _ _) Hz). unfold ldlm_grant_lock_with_skiplist, sl_get, get_lock, LASSERT. cbn -[lookup insert Z.eqb].
    rewrite Hl2. cbn [mbind run_bind]. rewrite Er, Eg. clear -Hmd. by mode_cases Hmd.
Qed.

(** ** Runs *)

(** [sl_can] as a test, for runs that are evaluated. *)
Definition sl_lock_test s (i : Z) (f : ldlm_lock -> bool) : bool :=
  match lr_locks (sl_res s) !! i with Some l => f l | None => false end.

Definition sl_canb s (op : sl_op) : bool :=
  match op with
  | SlCreate i _ _ _ _ _ _ _ => negb (sl_lock_test s i (fun _ => true))
  | SlEnqueue i _ => sl_lock_test s i (fun l => negb (on_resource (sl_res s) i) && negb (ldlm_is_destroyed l))
  | SlConflict i _ _ rpc_list =>
      sl_lock_test s i (fun _ => true) && bool_decide (NoDup rpc_list) && forallb (fun j => sl_lock_test s j l_bl_ast) rpc_list
  | SlReprocess intention _ => match intention with LDLM_PROCESS_ENQUEUE => false | _ => true end
  | SlDowngrade i =>
      sl_lock_test s i (fun l => negb (Z.land (l_granted_mode l) (Z.lor LCK_PW LCK_EX) =? 0) || (l_granted_mode l =? LCK_MINMODE))
  | SlConvert i _ =>
      match sl_type_of s with LDLM_PLAIN => false | LDLM_IBITS => true end && bool_decide (i ∈ lr_granted (sl_res s))
      && sl_lock_test s i (fun l => negb (l_bl_ast l) && bool_decide (l_blocking_lock l = None))
  | SlCancelStart i | SlCancelFinish i => sl_lock_test s i (fun _ => true)
  | SlBlStart i => sl_lock_test s i l_bl_ast
  | SlBlFinish i => sl_lock_test s i (fun l => negb (l_bl_ast_run l =? 0) && negb (bool_decide (l_blocking_lock l = None)))
  | SlCpAst i => sl_lock_test s i l_cp_ast
  end.

Lemma lock_test_true s i f : sl_lock_test s i f = true <-> exists l, lr_locks (sl_res s) !! i = Some l /\ f l = true.
Proof.
  unfold sl_lock_test. destruct (lr_locks (sl_res s) !! i) as [l|]; [|split; [done|by intros (? & ? & _)]].
  split; [by exists l|by intros (? & [= <-] & ?)].
Qed.

Lemma canb_can s op : sl_canb s op = true -> sl_can s op.
Proof.
  destruct op; cbn [sl_canb sl_can]; rewrite ?negb_true_iff, ?andb_true_iff, ?lock_test_true; try (by intros (l & Hl & _); exists l); try done.
  - unfold sl_lock_test. by destruct (lr_locks (sl_res s) !! i).
  - intros (l & Hl & [?%negb_true_iff ?%negb_true_iff]%andb_true_iff). by exists l.
  - intros [[(l & Hl & _) Hn%bool_decide_eq_true] Hf]. split; [by exists l|]. split; [done|]. rewrite forallb_forall in Hf. apply Forall_forall.
    intros j Hj%list_elem_of_In. by apply lock_test_true, Hf.
  - by destruct intention.
  - intros (l & Hl & [?%negb_true_iff%Z.eqb_neq|?%Z.eqb_eq]%orb_true_iff); exists l; auto.
  - intros [[Ht Hi%bool_decide_eq_true] (l & Hl & [?%negb_true_iff ?%bool_decide_eq_true]%andb_true_iff)].
    split; [by destruct (sl_type_of s)|]. split; [done|]. by exists l.
  - intros (l & Hl & [?%negb_true_iff%Z.eqb_neq ?%negb_true_iff%bool_decide_eq_false]%andb_true_iff). by exists l.
Qed.

Fixpoint sl_trace (ops : list sl_op) s : option sl_resource :=
  match ops with
  | [] => Some s
  | op :: ops' => if sl_canb s op then match sl_do op s with Ret s' => sl_trace ops' s' | LBUG => None end else None
  end.

Lemma trace_reachable t ops : forall s s', sl_reachable t s -> sl_trace ops s = Some s' -> sl_reachable t s'.
Proof.
  induction ops as [|op ops IH]; cbn [sl_trace]; intros s s' Hr; [by intros [= <-]|].
  destruct (sl_canb s op) eqn:Hc; [|done]. destruct (sl_do op s) as [s1|] eqn:E; [|done]. apply IH.
  eapply sl_reach_step; [exact Hr|by apply canb_can|done].
Qed.

Module SkipRun.
Definition create (i mode b : Z) : sl_op := SlCreate i mode 0 (Some i) (Inodebits b 0) i true true.
Definition traced (t : sl_type) (ops : list sl_op) : sl_resource := default (sl_new t) (sl_trace ops (sl_new t)).

(** Readers of two policies, a lock that tries a bit, and a writer that waits. *)
Definition readers : list sl_op :=
  [create 1 LCK_PR 3; SlEnqueue 1 0; create 2 LCK_CR 3; SlEnqueue 2 0; create 3 LCK_PR 8; SlEnqueue 3 0;
   create 4 LCK_PR 3; SlEnqueue 4 0; SlCreate 5 LCK_PR 0 (Some 5) (Inodebits 1 6) 5 true true; SlEnqueue 5 0;
   create 6 LCK_EX 2; SlEnqueue 6 0; SlBlStart 1; SlBlFinish 1; SlCancelStart 1; SlCancelFinish 1].
Definition s1 := Eval vm_compute in traced LDLM_IBITS readers.

Lemma readers_trace : sl_trace readers (sl_new LDLM_IBITS) = Some s1.
Proof. by vm_compute. Qed.

(** The writer is granted when the other locks on its bit are gone. *)
Definition gone : list sl_op := flat_map (fun i => [SlCancelStart i; SlCancelFinish i]) [2; 4; 5] ++ [SlReprocess LDLM_PROCESS_RESCAN []].

Lemma writer_granted : (s ← sl_run gone s1; Ret (lr_granted (sl_res s), lr_waiting (sl_res s))) = Ret ([3; 6], []).
Proof. by vm_compute. Qed.

Lemma skiplist_server_safe_witness :
  exists s', sl_do (SlCancelStart 4) s1 = Ret s' /\ (exists gs, shape s' gs)
    /\ forall i j, i ∈ lr_granted (sl_res s') -> j ∈ lr_granted (sl_res s') -> i <> j -> ~ clash s' i j.
Proof.
  apply (skiplist_server_safe LDLM_IBITS s1 (SlCancelStart 4)).
  - apply (trace_reachable LDLM_IBITS readers (sl_new LDLM_IBITS)); [constructor|exact readers_trace].
  - apply canb_can. by vm_compute.
Defined.

Lemma skiplist_walk_equiv_witness :
  ldlm_inodebits_compat_queue s1 Granted 6 (Some []) = inodebits_scan id s1 Granted 6 (Some [])
  /\ (r ← ldlm_inodebits_compat_queue s1 Granted 6 None; Ret r.1.1) = Ret 0.
Proof.
  split; [|by vm_compute]. apply (skiplist_walk_equiv LDLM_IBITS s1 Granted 6 (Some [])).
  - apply (trace_reachable LDLM_IBITS readers (sl_new LDLM_IBITS)); [constructor|exact readers_trace].
  - apply (bool_decide_unpack _). by vm_compute.
  - apply (bool_decide_unpack _). by vm_compute.
  - by vm_compute.
  - left. by vm_compute.
Defined.

Lemma convert_granted_or_bug_witness :
  (exists s', convert_drop s1 3 8 = Ret s' /\ 3 ∈ lr_granted (sl_res s') /\ bits (l_inodebits s' 3) = Z.land 8 1)
  /\ exists s2 s3, cancel_start s1 3 = Ret s2 /\ cancel_finish s2 3 = Ret s3 /\ convert_drop s3 3 8 = LBUG.
Proof.
  destruct (convert_granted_or_bug LDLM_IBITS s1 3 LCK_PR 1 8) as [H1 H2].
  - apply (trace_reachable LDLM_IBITS readers (sl_new LDLM_IBITS)); [constructor|exact readers_trace].
  - apply (bool_decide_unpack _). by vm_compute.
  - by vm_compute.
  - by vm_compute.
  - done.
  - split; [apply H1, canb_can; by vm_compute|exact H2].
Defined.

(** Two locks of different clients in COS mode with the same bits, and a request of the
    first one's client that has commit on sharing. *)
Definition cos_clients : list sl_op :=
  [SlCreate 1 LCK_EX 0 None (Inodebits 2 0) 11 true true; SlEnqueue 1 LDLM_FL_COS_ENABLED; SlDowngrade 1;
   SlCreate 2 LCK_EX 0 None (Inodebits 2 0) 22 true true; SlEnqueue 2 0; SlDowngrade 2;
   SlCreate 3 LCK_EX LDLM_FL_COS_ENABLED None (Inodebits 2 0) 11 true true].

(** The walk looks at the client of the first lock of the policy group only: it finds no
    conflict where a look at each lock finds the lock of the other client. *)
Lemma cos_first_cookie :
  match sl_trace cos_clients (sl_new LDLM_IBITS) with
  | Some s =>
      (r ← ldlm_inodebits_compat_queue s Granted 3 (Some []); Ret (r.1.1, r.2)) = Ret (1, Some [])
      /\ (r ← inodebits_scan id s Granted 3 (Some []); Ret (r.1.1, r.2)) = Ret (0, Some [2])
  | None => False
  end.
Proof. by vm_compute. Qed.
End SkipRun.
