(* ===== verification/LinkEa.v ===== *)
(** * The link attribute

    [lustre/obdclass/linkea.c] and [lustre_linkea.h]: the names of a file, each with the FID
    of its parent directory, packed into one extended attribute: a header in the byte order
    of the host that wrote it, and behind it entries of varying length in big endian.

    The header is
    at the start of the buffer, so [ld_leh] tells only if the pointer is set, and [ld_lee] is
    an offset into the buffer. *)

From stdpp Require Import list.
From S2P Require Import Prelude Memory Fid.

Definition LINK_EA_MAGIC : Z := 0x11EAF1DF.
Definition MAX_LINKEA_SIZE : Z := 4096.

(** [sizeof(struct link_ea_header)] and [sizeof(struct link_ea_entry)]. *)
Definition LEH_SIZE : Z := 24.
Definition LEE_SIZE : Z := 18.

(** ** Buffers *)

Record lu_buf := LuBuf { lb_buf : option (list Z); lb_len : Z }.

Definition LU_BUF_NULL : lu_buf := LuBuf None 0.

Definition lu_buf_free (buf : lu_buf) : run lu_buf :=
  match lb_buf buf with
  | Some _ => lassert 0 <? lb_len buf; Ret LU_BUF_NULL
  | None => Ret buf
  end.

(** [alloc] tells if there is memory, which comes zeroed. *)
Definition lu_buf_alloc (alloc : bool) (buf : lu_buf) (size : Z) : run lu_buf :=
  lassert (match lb_buf buf with None => true | Some _ => false end);
  lassert lb_len buf =? 0;
  Ret (if alloc then LuBuf (Some (replicate (Z.to_nat size) 0)) size else buf).

Definition lu_buf_realloc (alloc : bool) (buf : lu_buf) (size : Z) : run lu_buf :=
  buf ← lu_buf_free buf; lu_buf_alloc alloc buf size.

Definition lu_buf_check_and_alloc (alloc : bool) (buf : lu_buf) (len : Z) : run lu_buf :=
  buf ← (match lb_buf buf with
         | None => if lb_len buf =? 0 then lu_buf_alloc alloc buf len else Ret buf
         | Some _ => Ret buf
         end);
  match lb_buf buf with
  | Some _ => if lb_len buf <? len then lu_buf_realloc alloc buf len else Ret buf
  | None => Ret buf
  end.

Definition lu_buf_check_and_grow (alloc : bool) (buf : lu_buf) (len : Z) : run (Z * lu_buf) :=
  if len <=? lb_len buf then Ret (0, buf)
  else if negb alloc then Ret (- ENOMEM, buf)
  else
    let ptr := replicate (Z.to_nat len) 0 in
    ptr ← (match lb_buf buf with
           | Some mem => bs ← load mem 0 (lb_len buf); store ptr 0 bs
           | None => Ret ptr
           end);
    Ret (0, LuBuf (Some ptr) len).

(** ** The header *)

Record link_ea_header := LinkEaHeader {
  leh_magic : Z;
  leh_reccount : Z;
  leh_len : Z;
  leh_overflow_time : Z;
  leh_padding : Z
}.

Record linkea_data := LinkeaData {
  ld_buf : lu_buf;
  ld_leh : bool;
  ld_lee : option Z;
  ld_reclen : Z
}.

Definition set_buf (ld : linkea_data) (buf : lu_buf) : linkea_data := LinkeaData buf (ld_leh ld) (ld_lee ld) (ld_reclen ld).
Definition set_leh (ld : linkea_data) : linkea_data := LinkeaData (ld_buf ld) true (ld_lee ld) (ld_reclen ld).
Definition set_lee (ld : linkea_data) (lee : option Z) (reclen : Z) : linkea_data :=
  LinkeaData (ld_buf ld) (ld_leh ld) lee reclen.

Section Host.
Context {bo : byte_order}.

Definition header_bytes (h : link_ea_header) : list Z :=
  host_bytes 4 (leh_magic h) ++ host_bytes 4 (leh_reccount h) ++ host_bytes 8 (leh_len h)
  ++ host_bytes 4 (leh_overflow_time h) ++ host_bytes 4 (leh_padding h).

(** The memory of the buffer, which [ld_leh] points to. *)
Definition ld_mem (ld : linkea_data) : run (list Z) :=
  match lb_buf (ld_buf ld) with Some mem => Ret mem | None => LBUG end.

Definition get_leh (ld : linkea_data) : run link_ea_header :=
  mem ← ld_mem ld;
  m ← load mem 0 4; c ← load mem 4 4; n ← load mem 8 8; t ← load mem 16 4; p ← load mem 20 4;
  Ret (LinkEaHeader (host_int m) (host_int c) (host_int n) (host_int t) (host_int p)).

Definition put_mem (ld : linkea_data) (mem : list Z) : linkea_data := set_buf ld (LuBuf (Some mem) (lb_len (ld_buf ld))).

Definition put_leh (ld : linkea_data) (h : link_ea_header) : run linkea_data :=
  mem ← ld_mem ld;
  mem ← store mem 0 (header_bytes h);
  Ret (put_mem ld mem).

Definition linkea_data_new (PAGE_SIZE : Z) (alloc : bool) (ld : linkea_data) (buf : lu_buf) : run (Z * linkea_data) :=
  buf ← lu_buf_check_and_alloc alloc buf PAGE_SIZE;
  let ld := set_buf ld buf in
  match lb_buf buf with
  | None => Ret (- ENOMEM, ld)
  | Some _ =>
      ld ← put_leh (set_leh ld) (LinkEaHeader LINK_EA_MAGIC 0 LEH_SIZE 0 0);
      Ret (0, ld)
  end.

Definition linkea_init (ld : linkea_data) : run (Z * linkea_data) :=
  leh ← get_leh ld;
  r ← (if leh_magic leh =? swab 4 LINK_EA_MAGIC then
         let leh := LinkEaHeader LINK_EA_MAGIC (swab 4 (leh_reccount leh)) (swab 8 (leh_len leh))
                      (swab 4 (leh_overflow_time leh)) (swab 4 (leh_padding leh)) in
         ld ← put_leh ld leh; Ret (leh, ld)
       else Ret (leh, ld));
  let '(leh, ld) := r in
  if negb (leh_magic leh =? LINK_EA_MAGIC) then Ret (- EINVAL, ld)
  else if (leh_reccount leh =? 0) && (leh_overflow_time leh =? 0) then Ret (- ENODATA, ld)
  else Ret (0, set_leh ld).

Definition linkea_init_with_rec (ld : linkea_data) : run (Z * linkea_data) :=
  r ← linkea_init ld;
  let '(rc, ld) := r in
  if rc =? 0 then
    leh ← get_leh ld;
    Ret (if leh_reccount leh =? 0 then - ENODATA else rc, ld)
  else Ret (rc, ld).

(** ** Entries *)

(** A name is its bytes; [ln_namelen] is how many. *)
Definition fid_bytes (f : lu_fid) : list Z := host_bytes 8 (f_seq f) ++ host_bytes 4 (f_oid f) ++ host_bytes 4 (f_ver f).
Definition fid_of_bytes (bs : list Z) : lu_fid :=
  LuFid (host_int (take 8 bs)) (host_int (take 4 (drop 8 bs))) (host_int (take 4 (drop 12 bs))).

Definition linkea_entry_pack (mem : list Z) (lee : Z) (lname : list Z) (pfid : lu_fid) : run (Z * list Z) :=
  let tmpfid := fid_cpu_to_be pfid in
  mem ← store mem (lee + 2) (fid_bytes tmpfid);
  mem ← store mem (lee + LEE_SIZE) lname;
  let reclen := LEE_SIZE + Z.of_nat (length lname) in
  mem ← store mem lee [Z.land (Z.shiftr reclen 8) 0xff; Z.land reclen 0xff];
  Ret (reclen, mem).

(** The record length, and the place and the length of the name. *)
Definition linkea_entry_unpack (mem : list Z) (lee : Z) : run (Z * (Z * Z) * lu_fid) :=
  rl ← load mem lee 2;
  let reclen := Z.lor (Z.shiftl (nth 0 rl 0) 8) (nth 1 rl 0) in
  fid ← load mem (lee + 2) 16;
  Ret (reclen, (lee + LEE_SIZE, reclen - LEE_SIZE), fid_be_to_cpu (fid_of_bytes fid)).

(** [now] is the time, [alloc] whether there is memory. *)
Definition linkea_add_buf (now : Z) (alloc : bool) (ld : linkea_data) (lname : option (list Z)) (pfid : option lu_fid)
    : run (Z * linkea_data) :=
  lassert ld_leh ld;
  match lname, pfid with
  | Some lname, Some pfid =>
      leh ← get_leh ld;
      let reclen := Z.of_nat (length lname) + LEE_SIZE in
      if MAX_LINKEA_SIZE <? u64 (leh_len leh + reclen) then
        let t := u32 now in
        let t := if t =? 0 then t + 1 else t in
        ld ← put_leh ld (LinkEaHeader (leh_magic leh) (leh_reccount leh) (leh_len leh) t (leh_padding leh));
        Ret (0, ld)
      else
        rb ← (if lb_len (ld_buf ld) <? u64 (leh_len leh + reclen)
              then lu_buf_check_and_grow alloc (ld_buf ld) (u64 (leh_len leh + reclen)) else Ret (0, ld_buf ld));
        if rb.1 <? 0 then Ret (- ENOMEM, ld)
        else
          let ld := set_buf ld rb.2 in
          mem ← ld_mem ld;
          rm ← linkea_entry_pack mem (leh_len leh) lname pfid;
          let ld := set_lee (put_mem ld rm.2) (Some (leh_len leh)) rm.1 in
          ld ← put_leh ld (LinkEaHeader (leh_magic leh) (u32 (leh_reccount leh + 1)) (u64 (leh_len leh + rm.1))
                             (leh_overflow_time leh) (leh_padding leh));
          Ret (0, ld)
  | _, _ => Ret (- EINVAL, ld)
  end.

Definition linkea_del_buf (ld : linkea_data) : run linkea_data :=
  lassert ld_leh ld;
  match ld_lee ld with
  | None => LBUG
  | Some lee =>
      leh ← get_leh ld;
      lassert 0 <? leh_reccount leh;
      let len := u64 (leh_len leh - ld_reclen ld) in
      ld ← put_leh ld (LinkEaHeader (leh_magic leh) (leh_reccount leh - 1) len (leh_overflow_time leh) (leh_padding leh));
      mem ← ld_mem ld;
      bs ← load mem (lee + ld_reclen ld) (len - lee);
      mem ← store mem lee bs;
      let ld := put_mem ld mem in
      Ret (if len <=? lee then set_lee ld None (ld_reclen ld) else ld)
  end.

Definition linkea_links_new (PAGE_SIZE now : Z) (alloc : bool) (ld : linkea_data) (buf : lu_buf) (cname : list Z)
    (pfid : lu_fid) : run (Z * linkea_data) :=
  r ← linkea_data_new PAGE_SIZE alloc ld buf;
  if r.1 =? 0 then linkea_add_buf now alloc r.2 (Some cname) (Some pfid) else Ret r.

(** The loop of [linkea_overflow_shrink] over the records that stay. *)
Fixpoint linkea_shrink_loop (count : nat) (mem : list Z) (lee reclen len : Z) : run (Z * Z * Z) :=
  match count with
  | O => Ret (lee, reclen, len)
  | S count' =>
      e ← linkea_entry_unpack mem lee;
      let reclen := e.1.1 in
      linkea_shrink_loop count' mem (lee + reclen) reclen (u64 (len + reclen))
  end.

Definition linkea_overflow_shrink (now : Z) (ld : linkea_data) : run (Z * linkea_data) :=
  leh ← get_leh ld;
  let leh := if leh_magic leh =? swab 4 LINK_EA_MAGIC
             then LinkEaHeader LINK_EA_MAGIC (swab 4 (leh_reccount leh)) (leh_len leh)
                    (swab 4 (leh_overflow_time leh)) (swab 4 (leh_padding leh)) else leh in
  let ld := set_leh ld in
  lassert 0 <? leh_reccount leh;
  let count := leh_reccount leh - 1 in
  if count =? 0 then
    ld ← put_leh ld (LinkEaHeader (leh_magic leh) count LEH_SIZE (leh_overflow_time leh) (leh_padding leh));
    Ret (0, ld)
  else
    let t := u32 now in
    let t := if t =? 0 then t + 1 else t in
    mem ← ld_mem ld;
    r ← linkea_shrink_loop (Z.to_nat count) mem LEH_SIZE 0 LEH_SIZE;
    let '(lee, _, len) := r in
    e ← linkea_entry_unpack mem lee;
    ld ← put_leh (set_lee ld (Some lee) e.1.1) (LinkEaHeader (leh_magic leh) count len t (leh_padding leh));
    Ret (len, ld).

(** [strncmp] of bytes, whether it is 0. *)
Fixpoint strncmp_eq (a b : list Z) : bool :=
  match a, b with
  | x :: a', y :: b' => if x =? y then (if x =? 0 then true else strncmp_eq a' b') else false
  | _, _ => true
  end.

Fixpoint find_loop (count : nat) (mem : list Z) (lee reclen : Z) (lname : list Z) (pfid : lu_fid)
    : run (option (Z * Z)) :=
  match count with
  | O => Ret None
  | S count' =>
      e ← linkea_entry_unpack mem lee;
      let '(reclen, (name, namelen), fid) := e in
      same ← (if (namelen =? Z.of_nat (length lname)) && lu_fid_eq fid pfid
              then bs ← load mem name namelen; Ret (strncmp_eq bs lname) else Ret false);
      if (same : bool) then Ret (Some (lee, reclen))
      else find_loop count' mem (lee + reclen) reclen lname pfid
  end.

Definition linkea_links_find (ld : linkea_data) (lname : list Z) (pfid : lu_fid) : run (Z * linkea_data) :=
  lassert ld_leh ld;
  leh ← get_leh ld;
  mem ← ld_mem ld;
  r ← find_loop (Z.to_nat (leh_reccount leh)) mem LEH_SIZE (ld_reclen ld) lname pfid;
  match r with
  | Some (lee, reclen) => Ret (0, set_lee ld (Some lee) reclen)
  | None => Ret (- ENOENT, set_lee ld None 0)
  end.

Definition linkea_first_entry (ld : linkea_data) : run linkea_data :=
  lassert ld_leh ld;
  leh ← get_leh ld;
  Ret (set_lee ld (if leh_reccount leh =? 0 then None else Some LEH_SIZE) (ld_reclen ld)).

Definition linkea_next_entry (ld : linkea_data) : run linkea_data :=
  lassert ld_leh ld;
  match ld_lee ld with
  | None => Ret ld
  | Some lee =>
      leh ← get_leh ld;
      let lee := lee + ld_reclen ld in
      Ret (set_lee ld (if leh_len leh <=? lee then None else Some lee) (ld_reclen ld))
  end.

(** What a user does with the current entry: its name and FID are read, and its length is
    kept in [ld_reclen]. *)
Definition current_entry (ld : linkea_data) : run (list Z * lu_fid * linkea_data) :=
  match ld_lee ld with
  | None => LBUG
  | Some lee =>
      mem ← ld_mem ld;
      e ← linkea_entry_unpack mem lee;
      let '(reclen, (name, namelen), fid) := e in
      bs ← load mem name namelen;
      Ret (bs, fid, set_lee ld (ld_lee ld) reclen)
  end.
End Host.
