(* ===== verification/LinkEaProps.v ===== *)
(** The link attribute ([lustre/obdclass/linkea.c]) is a list of names with FIDs: every
    operation does on the packed bytes what it should do on the list, on hosts of either
    byte order. *)

From Stdlib Require Import String Ascii.
From stdpp Require Import list.
From S2P Require Import Prelude Memory Fid LinkEa.

Lemma length_header {bo : byte_order} h : length (header_bytes h) = 24%nat.
Proof. unfold header_bytes. by rewrite !length_app, !length_host. Qed.

(** ** What an attribute holds *)

Abbreviation link := (list Z * lu_fid)%type.

Definition entry_bytes (l : link) : list Z :=
  rev (bytes_of 2 (LEE_SIZE + zlen l.1))
  ++ (rev (bytes_of 8 (f_seq l.2)) ++ rev (bytes_of 4 (f_oid l.2)) ++ rev (bytes_of 4 (f_ver l.2))) ++ l.1.

Definition links_bytes (ls : list link) : list Z := concat (map entry_bytes ls).
Definition links_size (ls : list link) : Z := LEH_SIZE + zlen (links_bytes ls).

(** A name has no NUL. *)
Definition link_ok (l : link) : Prop := Forall (fun b => 0 < b < 256) l.1 /\ lu_fid_wf l.2.

Definition header_of (ls : list link) (t pad : Z) : link_ea_header :=
  LinkEaHeader LINK_EA_MAGIC (zlen ls) (links_size ls) t pad.

Record attr {bo : byte_order} (mem : list Z) (ls : list link) (t : Z) : Prop := {
  at_bytes : exists pad rest, mem = header_bytes (header_of ls t pad) ++ links_bytes ls ++ rest /\ in_u32 pad;
  at_size : links_size ls <= MAX_LINKEA_SIZE;
  at_links : Forall link_ok ls;
  at_time : in_u32 t
}.

Lemma length_entry l : zlen (entry_bytes l) = LEE_SIZE + zlen l.1.
Proof. unfold entry_bytes. rewrite !length_app, !length_rev, !length_bytes_of. unfold LEE_SIZE. lia. Qed.

Lemma links_bytes_app l1 l2 : links_bytes (l1 ++ l2) = links_bytes l1 ++ links_bytes l2.
Proof. unfold links_bytes. by rewrite map_app, concat_app. Qed.

Lemma links_size_app l1 l2 : links_size (l1 ++ l2) = links_size l1 + zlen (links_bytes l2).
Proof. unfold links_size. rewrite links_bytes_app, length_app. lia. Qed.

Lemma links_count ls : LEE_SIZE * zlen ls <= zlen (links_bytes ls).
Proof.
  induction ls as [|l ls IH]; [done|]. change (l :: ls) with ([l] ++ ls). rewrite links_bytes_app, !length_app.
  unfold links_bytes at 1. cbn [map concat]. rewrite app_nil_r. pose proof (length_entry l). unfold LEE_SIZE in *. cbn [length]. lia.
Qed.

Lemma links_single l : links_bytes [l] = entry_bytes l.
Proof. unfold links_bytes. cbn [map concat]. apply app_nil_r. Qed.

Lemma reclen_be x : 0 <= x < 65536 -> rev (bytes_of 2 x) = [Z.land (Z.shiftr x 8) 0xff; Z.land x 0xff].
Proof.
  intros H. cbn. change 255 with (Z.ones 8). rewrite !Z.land_ones, Z.shiftr_div_pow2 by lia.
  change (2 ^ 8) with 256. done.
Qed.

Lemma reclen_read x : 0 <= x < 65536 ->
  Z.lor (Z.shiftl (nth 0 (rev (bytes_of 2 x)) 0) 8) (nth 1 (rev (bytes_of 2 x)) 0) = x.
Proof.
  intros H. cbn. rewrite (Z.mod_small (x / 256)) by (split; [apply Z.div_pos|apply Z.div_lt_upper_bound]; lia).
  change 256 with (2 ^ 8). by apply join_split_field.
Qed.

Section Entries.
Context {bo : byte_order}.

Lemma fid_bytes_be f : lu_fid_wf f ->
  fid_bytes (fid_cpu_to_be f) = rev (bytes_of 8 (f_seq f)) ++ rev (bytes_of 4 (f_oid f)) ++ rev (bytes_of 4 (f_ver f)).
Proof.
  intros (H1 & H2 & H3). unfold fid_bytes, fid_cpu_to_be, fid_seq, fid_oid, fid_ver. cbn [f_seq f_oid f_ver]. by rewrite !host_bytes_be.
Qed.

Lemma fid_of_be f : lu_fid_wf f ->
  fid_be_to_cpu (fid_of_bytes (rev (bytes_of 8 (f_seq f)) ++ rev (bytes_of 4 (f_oid f)) ++ rev (bytes_of 4 (f_ver f)))) = f.
Proof.
  intros Hf. rewrite <-fid_bytes_be by done. pose proof Hf as (H1 & H2 & H3). unfold fid_bytes, fid_of_bytes.
  set (g := fid_cpu_to_be f). assert (Hg : lu_fid_wf g).
  { unfold g, fid_cpu_to_be, cpu_to_be, fid_seq, fid_oid, fid_ver. destruct bo; [|done]. split_and!; apply swab_bound. }
  destruct Hg as (G1 & G2 & G3).
  assert (E1 : take 8 (host_bytes 8 (f_seq g) ++ host_bytes 4 (f_oid g) ++ host_bytes 4 (f_ver g)) = host_bytes 8 (f_seq g))
    by (apply take_app_length'; by rewrite length_host).
  assert (E2 : drop 8 (host_bytes 8 (f_seq g) ++ host_bytes 4 (f_oid g) ++ host_bytes 4 (f_ver g)) = host_bytes 4 (f_oid g) ++ host_bytes 4 (f_ver g))
    by (apply drop_app_length'; by rewrite length_host).
  assert (E3 : drop 12 (host_bytes 8 (f_seq g) ++ host_bytes 4 (f_oid g) ++ host_bytes 4 (f_ver g)) = host_bytes 4 (f_ver g)).
  { rewrite app_assoc. apply drop_app_length'. by rewrite length_app, !length_host. }
  rewrite E1, E2, E3, (take_app_length' (host_bytes 4 (f_oid g))) by (by rewrite length_host).
  rewrite take_ge by (by rewrite length_host). rewrite !host_int_bytes by done.
  destruct f as [a b c]. unfold g, fid_be_to_cpu, fid_cpu_to_be, fid_seq, fid_oid, fid_ver in *. cbn [f_seq f_oid f_ver] in *.
  by autorewrite with byteorder.
Qed.

(** Packing writes the bytes of the entry. *)
Lemma pack_spec A B C l lee :
  link_ok l -> LEE_SIZE + zlen l.1 < 65536 -> lee = zlen A -> length B = length (entry_bytes l) ->
  linkea_entry_pack (A ++ B ++ C) lee l.1 l.2 = Ret (LEE_SIZE + zlen l.1, A ++ entry_bytes l ++ C).
Proof.
  intros [_ Hf] Hn -> HB. destruct l as [n f]; cbn [fst snd] in *. pose proof (length_entry (n, f)) as Hl. cbn [fst] in Hl.
  unfold LEE_SIZE in *. assert (HB' : length B = (18 + length n)%nat) by lia.
  rewrite <-(take_drop 2 B). set (b1 := take 2 B). rewrite <-(take_drop 16 (drop 2 B)). set (b2 := take 16 (drop 2 B)). set (b3 := drop 16 (drop 2 B)).
  assert (L1 : length b1 = 2%nat) by (unfold b1; rewrite length_take; lia).
  assert (L2 : length b2 = 16%nat) by (unfold b2; rewrite length_take, length_drop; lia).
  assert (L3 : length b3 = length n) by (unfold b3; rewrite !length_drop; lia).
  unfold linkea_entry_pack. set (fb := rev (bytes_of 8 (f_seq f)) ++ rev (bytes_of 4 (f_oid f)) ++ rev (bytes_of 4 (f_ver f))).
  assert (Lf : length fb = 16%nat) by (unfold fb; by rewrite !length_app, !length_rev, !length_bytes_of).
  rewrite fid_bytes_be by done. fold fb.
  replace (A ++ (b1 ++ b2 ++ b3) ++ C) with ((A ++ b1) ++ b2 ++ (b3 ++ C)) by (by rewrite <-!app_assoc).
  rewrite store_mid by (rewrite ?length_app; lia). cbn [mbind run_bind].
  replace ((A ++ b1) ++ fb ++ b3 ++ C) with ((A ++ b1 ++ fb) ++ b3 ++ C) by (by rewrite <-!app_assoc).
  rewrite store_mid by (rewrite ?length_app; unfold LEE_SIZE; lia). cbn [mbind run_bind].
  replace ((A ++ b1 ++ fb) ++ n ++ C) with (A ++ b1 ++ (fb ++ n ++ C)) by (by rewrite <-!app_assoc).
  rewrite store_mid by done. cbn [mbind run_bind]. rewrite <-reclen_be by (unfold LEE_SIZE; lia).
  unfold entry_bytes. cbn [fst snd]. fold fb. by rewrite <-!app_assoc.
Qed.

Lemma unpack_spec A l C lee :
  link_ok l -> LEE_SIZE + zlen l.1 < 65536 -> lee = zlen A ->
  linkea_entry_unpack (A ++ entry_bytes l ++ C) lee = Ret (LEE_SIZE + zlen l.1, (lee + LEE_SIZE, zlen l.1), l.2)
  /\ load (A ++ entry_bytes l ++ C) (lee + LEE_SIZE) (zlen l.1) = Ret l.1.
Proof.
  intros [_ Hf] Hn ->. destruct l as [n f]; cbn [fst snd] in *. unfold entry_bytes. cbn [fst snd].
  set (rb := rev (bytes_of 2 (LEE_SIZE + zlen n))).
  set (fb := rev (bytes_of 8 (f_seq f)) ++ rev (bytes_of 4 (f_oid f)) ++ rev (bytes_of 4 (f_ver f))).
  assert (Lr : length rb = 2%nat) by (unfold rb; by rewrite length_rev, length_bytes_of).
  assert (Lf : length fb = 16%nat) by (unfold fb; by rewrite !length_app, !length_rev, !length_bytes_of).
  unfold LEE_SIZE in *. split.
  - unfold linkea_entry_unpack. rewrite <-!app_assoc. rewrite (load_mid A rb (fb ++ n ++ C) (zlen A) 2) by lia. cbn [mbind run_bind].
    replace (A ++ rb ++ fb ++ n ++ C) with ((A ++ rb) ++ fb ++ (n ++ C)) by (by rewrite <-!app_assoc).
    rewrite load_mid by (rewrite ?length_app; lia). cbn [mbind run_bind]. unfold rb, fb. rewrite reclen_read, fid_of_be by (done || lia).
    unfold LEE_SIZE. repeat f_equal. lia.
  - replace (A ++ (rb ++ fb ++ n) ++ C) with ((A ++ rb ++ fb) ++ n ++ C) by (by rewrite <-!app_assoc).
    apply load_mid; [rewrite !length_app; lia|done].
Qed.
End Entries.

(** ** The header *)

Record header_wf (h : link_ea_header) : Prop := {
  hw_magic : in_u32 (leh_magic h);
  hw_reccount : in_u32 (leh_reccount h);
  hw_len : in_u64 (leh_len h);
  hw_time : in_u32 (leh_overflow_time h);
  hw_padding : in_u32 (leh_padding h)
}.

Definition swab_header (h : link_ea_header) : link_ea_header :=
  LinkEaHeader (swab 4 (leh_magic h)) (swab 4 (leh_reccount h)) (swab 8 (leh_len h)) (swab 4 (leh_overflow_time h)) (swab 4 (leh_padding h)).

(** The header as a host reads it that another host wrote. *)
Lemma get_leh_other b1 b2 ld h body :
  lb_buf (ld_buf ld) = Some (@header_bytes b1 h ++ body) -> header_wf h ->
  @get_leh b2 ld = Ret (if decide (b1 = b2) then h else swab_header h).
Proof.
  intros Hm [W1 W2 W3 W4 W5]. unfold get_leh, ld_mem. rewrite Hm. cbn [mbind run_bind]. unfold header_bytes.
  set (m := host_bytes 4 (leh_magic h)). set (c := host_bytes 4 (leh_reccount h)). set (n := host_bytes 8 (leh_len h)).
  set (t := host_bytes 4 (leh_overflow_time h)). set (p := host_bytes 4 (leh_padding h)).
  assert (Lm : length m = 4%nat) by apply length_host. assert (Lc : length c = 4%nat) by apply length_host.
  assert (Ln : length n = 8%nat) by apply length_host. assert (Lt : length t = 4%nat) by apply length_host.
  assert (Lp : length p = 4%nat) by apply length_host. rewrite <-!app_assoc.
  rewrite (load_head m (c ++ n ++ t ++ p ++ body) 4) by lia. cbn [mbind run_bind].
  rewrite (load_mid m c (n ++ t ++ p ++ body) 4 4) by lia. cbn [mbind run_bind].
  replace (m ++ c ++ n ++ t ++ p ++ body) with ((m ++ c) ++ n ++ (t ++ p ++ body)) by (by rewrite <-!app_assoc).
  rewrite (load_mid (m ++ c) n _ 8 8) by (rewrite ?length_app; lia). cbn [mbind run_bind].
  replace ((m ++ c) ++ n ++ (t ++ p ++ body)) with ((m ++ c ++ n) ++ t ++ (p ++ body)) by (by rewrite <-!app_assoc).
  rewrite (load_mid (m ++ c ++ n) t _ 16 4) by (rewrite ?length_app; lia). cbn [mbind run_bind].
  replace ((m ++ c ++ n) ++ t ++ (p ++ body)) with ((m ++ c ++ n ++ t) ++ p ++ body) by (by rewrite <-!app_assoc).
  rewrite (load_mid (m ++ c ++ n ++ t) p _ 20 4) by (rewrite ?length_app; lia). cbn [mbind run_bind].
  unfold m, c, n, t, p. rewrite !(host_int_other b1 b2) by done. destruct (decide (b1 = b2)); [by destruct h|done].
Qed.

Lemma get_leh_spec {bo : byte_order} ld h body :
  lb_buf (ld_buf ld) = Some (header_bytes h ++ body) -> header_wf h -> get_leh ld = Ret h.
Proof. intros Hm Hw. rewrite (get_leh_other bo bo ld h body) by done. by rewrite decide_True. Qed.

Lemma put_leh_spec {bo : byte_order} ld hb h body :
  lb_buf (ld_buf ld) = Some (hb ++ body) -> length hb = 24%nat -> put_leh ld h = Ret (put_mem ld (header_bytes h ++ body)).
Proof.
  intros Hm Hl. unfold put_leh, ld_mem. rewrite Hm. cbn [mbind run_bind].
  by rewrite (store_head hb (header_bytes h) body) by (by rewrite length_header).
Qed.

Lemma header_of_wf ls t pad : links_size ls <= MAX_LINKEA_SIZE -> in_u32 t -> in_u32 pad -> header_wf (header_of ls t pad).
Proof.
  intros Hs Ht Hp. pose proof (links_count ls) as Hc. unfold links_size, MAX_LINKEA_SIZE, LEH_SIZE, LEE_SIZE in *. split; cbn; try done.
  - split; lia.
  - unfold links_size, LEH_SIZE. split; lia.
Qed.

(** ** The attribute as a list *)

(** Where the user is: at no entry, at the [k]th one, whose length [ld_reclen] may be known
    or not, or at a place that is not to be used. *)
Inductive cursor := NoEntry | AtEntry (k : nat) (known : bool) | Unset.

Record links := Links { ls_links : list link; ls_time : Z; ls_cur : cursor }.

Definition cursor_at (ld : linkea_data) (ls : list link) (c : cursor) : Prop :=
  match c with
  | NoEntry => ld_lee ld = None
  | AtEntry k known =>
      exists l, ls !! k = Some l /\ ld_lee ld = Some (links_size (take k ls)) /\ (known = true -> ld_reclen ld = LEE_SIZE + zlen l.1)
  | Unset => True
  end.

Record models (bo : byte_order) (ld : linkea_data) (a : links) : Prop := {
  mo_mem : exists mem, ld_buf ld = LuBuf (Some mem) (zlen mem) /\ attr mem (ls_links a) (ls_time a);
  mo_leh : ld_leh ld = true;
  mo_cur : cursor_at ld (ls_links a) (ls_cur a)
}.

Section Ops.
Context {bo : byte_order}.

(** A buffer in parts, and what is read of it. *)
Lemma models_parts ld a : models bo ld a -> exists pad rest,
  let h := header_of (ls_links a) (ls_time a) pad in
  lb_buf (ld_buf ld) = Some (header_bytes h ++ links_bytes (ls_links a) ++ rest)
  /\ ld_buf ld = LuBuf (Some (header_bytes h ++ links_bytes (ls_links a) ++ rest)) (zlen (header_bytes h ++ links_bytes (ls_links a) ++ rest))
  /\ get_leh ld = Ret h /\ in_u32 pad.
Proof.
  intros [(mem & Hb & [(pad & rest & -> & Hp) Hs Hl Ht]) _ _]. exists pad, rest. rewrite Hb. split_and!; try done.
  eapply get_leh_spec; [by rewrite Hb|by apply header_of_wf].
Qed.

Lemma link_small ls k l : links_size ls <= MAX_LINKEA_SIZE -> ls !! k = Some l -> LEE_SIZE + zlen l.1 < 65536.
Proof.
  intros Hs Hk. apply list_elem_of_split_length in Hk as (l1 & l2 & -> & _). rewrite links_size_app in Hs.
  change (l :: l2) with ([l] ++ l2) in Hs. rewrite links_bytes_app, links_single, length_app in Hs. pose proof (length_entry l).
  unfold links_size, MAX_LINKEA_SIZE, LEH_SIZE in *. lia.
Qed.

(** The bytes around the [k]th entry. *)
Lemma links_split ls k l rest (hb : list Z) :
  ls !! k = Some l -> length hb = 24%nat ->
  hb ++ links_bytes ls ++ rest = (hb ++ links_bytes (take k ls)) ++ entry_bytes l ++ (links_bytes (drop (S k) ls) ++ rest)
  /\ links_size (take k ls) = zlen (hb ++ links_bytes (take k ls)).
Proof.
  intros Hk Hl. split.
  - rewrite <-(take_drop_middle ls k l Hk) at 1. change (l :: drop (S k) ls) with ([l] ++ drop (S k) ls).
    by rewrite !links_bytes_app, links_single, <-!app_assoc.
  - unfold links_size. rewrite length_app, Hl. unfold LEH_SIZE. lia.
Qed.

Lemma unpack_at mem ls t k l :
  attr mem ls t -> ls !! k = Some l ->
  linkea_entry_unpack mem (links_size (take k ls)) = Ret (LEE_SIZE + zlen l.1, (links_size (take k ls) + LEE_SIZE, zlen l.1), l.2)
  /\ load mem (links_size (take k ls) + LEE_SIZE) (zlen l.1) = Ret l.1.
Proof.
  intros [(pad & rest & -> & _) Hs Hl _] Hk. destruct (links_split ls k l rest _ Hk (length_header (header_of ls t pad))) as [-> E].
  apply unpack_spec; [|by eapply link_small|done]. rewrite Forall_lookup in Hl. by eapply Hl.
Qed.

Lemma size_next ls k l : ls !! k = Some l -> links_size (take k ls) + (LEE_SIZE + zlen l.1) = links_size (take (S k) ls).
Proof. intros Hk. by rewrite (take_S_r _ _ _ Hk), links_size_app, links_single, length_entry. Qed.

(** *** Walks *)

Lemma strncmp_same (a b : list Z) : length a = length b -> Forall (fun x => 0 < x < 256) a -> strncmp_eq a b = bool_decide (a = b).
Proof.
  intros Hl Ha. revert b Hl. induction Ha as [|x a Hx _ IH]; intros [|y b] Hl; try done. cbn. destruct (Z.eqb_spec x y) as [->|Hne].
  - rewrite (proj2 (Z.eqb_neq y 0)) by lia. rewrite IH by (by injection Hl). apply bool_decide_ext. split; [by intros ->|by intros [= ->]].
  - symmetry. apply bool_decide_eq_false. by intros [= ? _].
Qed.

Lemma lu_fid_eq_bool f g : lu_fid_eq f g = bool_decide (f = g).
Proof.
  destruct f as [a b c], g as [a' b' c']. unfold lu_fid_eq. cbn. destruct (Z.eqb_spec a a'), (Z.eqb_spec b b'), (Z.eqb_spec c c'); cbn; subst;
    symmetry; first [apply bool_decide_eq_true; done|apply bool_decide_eq_false; congruence].
Qed.

(** A turn of the search. *)
Lemma same_link mem ls t k l n f :
  attr mem ls t -> ls !! k = Some l ->
  (if (zlen l.1 =? zlen n) && lu_fid_eq l.2 f
   then bs ← load mem (links_size (take k ls) + LEE_SIZE) (zlen l.1); Ret (strncmp_eq bs n) else Ret false) = Ret (bool_decide (l = (n, f))).
Proof.
  intros Ha Hk. destruct (unpack_at mem ls t k l Ha Hk) as [_ ->]. rewrite lu_fid_eq_bool. destruct l as [ln lf]; cbn [fst snd mbind run_bind].
  destruct Ha as [_ _ Hl _]. rewrite Forall_lookup in Hl. destruct (Hl _ _ Hk) as [Hn _]. cbn in Hn.
  destruct (Z.eqb_spec (zlen ln) (zlen n)) as [E|E]; cbn [andb]; [|f_equal; symmetry; apply bool_decide_eq_false; congruence].
  destruct (bool_decide (lf = f)) eqn:Ef; [apply bool_decide_eq_true in Ef as ->|apply bool_decide_eq_false in Ef].
  - rewrite strncmp_same by (done || lia). f_equal. apply bool_decide_ext. split; [by intros ->|by intros [= ->]].
  - f_equal. symmetry. apply bool_decide_eq_false. congruence.
Qed.

Lemma find_loop_spec mem ls t n f m : forall j rl, attr mem ls t -> (j + m = length ls)%nat ->
  find_loop m mem (links_size (take j ls)) rl n f
  = Ret (match list_find (fun l => l = (n, f)) (drop j ls) with
         | Some (k, l) => Some (links_size (take (j + k) ls), LEE_SIZE + zlen l.1)
         | None => None
         end).
Proof.
  induction m as [|m IH]; intros j rl Ha Hj; [rewrite drop_ge by lia; done|].
  destruct (lookup_lt_is_Some_2 ls j) as [l Hk]; [lia|]. destruct (unpack_at mem ls t j l Ha Hk) as [Hu _].
  cbn [find_loop]. rewrite Hu. cbn [mbind run_bind]. rewrite (same_link mem ls t j l n f Ha Hk). cbn [mbind run_bind].
  rewrite (drop_S _ _ _ Hk). cbn [list_find]. destruct (decide (l = (n, f))) as [->|Hne].
  - rewrite bool_decide_eq_true_2 by done. by rewrite Nat.add_0_r.
  - rewrite bool_decide_eq_false_2 by done. rewrite (size_next ls j l Hk), IH by (done || lia).
    destruct (list_find _ (drop (S j) ls)) as [[k l']|]; [|done]. cbn. by rewrite Nat.add_succ_r.
Qed.

Lemma linkea_shrink_loop_spec mem ls t m : forall j rl, attr mem ls t -> (j + m <= length ls)%nat ->
  exists rl', linkea_shrink_loop m mem (links_size (take j ls)) rl (links_size (take j ls))
    = Ret (links_size (take (j + m) ls), rl', links_size (take (j + m) ls)).
Proof.
  induction m as [|m IH]; intros j rl Ha Hj; [rewrite Nat.add_0_r; by exists rl|].
  destruct (lookup_lt_is_Some_2 ls j) as [l Hk]; [lia|]. destruct (unpack_at mem ls t j l Ha Hk) as [Hu _].
  cbn [linkea_shrink_loop]. rewrite Hu. cbn [mbind run_bind fst]. rewrite (size_next ls j l Hk). rewrite wrap_small.
  - destruct (IH (S j) (LEE_SIZE + zlen l.1) Ha ltac:(lia)) as [rl' ->]. exists rl'. by rewrite Nat.add_succ_r.
  - destruct Ha as [_ Hs _ _]. rewrite <-(take_drop (S j) ls), links_size_app in Hs.
    unfold in_u, links_size, LEH_SIZE, MAX_LINKEA_SIZE in *. lia.
Qed.

Lemma models_lee ld a lee rl c :
  models bo ld a -> cursor_at (set_lee ld lee rl) (ls_links a) c -> models bo (set_lee ld lee rl) (Links (ls_links a) (ls_time a) c).
Proof. intros [Hm Hl _] Hc. by split. Qed.

Definition found (ls : list link) (l : link) : cursor :=
  match list_find (fun l' => l' = l) ls with Some (k, _) => AtEntry k true | None => NoEntry end.

Lemma find_ok ld a n f :
  models bo ld a -> exists ld', linkea_links_find ld n f = Ret (match found (ls_links a) (n, f) with NoEntry => - ENOENT | _ => 0 end, ld')
    /\ models bo ld' (Links (ls_links a) (ls_time a) (found (ls_links a) (n, f))).
Proof.
  intros Hm. destruct (models_parts ld a Hm) as (pad & rest & Hb & _ & Hh & _). pose proof Hm as [(mem & Hb' & Ha) Hl _].
  unfold linkea_links_find. rewrite Hl. cbn [LASSERT]. rewrite Hh. cbn [mbind run_bind]. unfold ld_mem. rewrite Hb'. cbn [lb_buf mbind run_bind].
  cbn [header_of leh_reccount]. rewrite Nat2Z.id. change LEH_SIZE with (links_size (take 0 (ls_links a))).
  rewrite (find_loop_spec mem (ls_links a) (ls_time a) n f (length (ls_links a)) 0 (ld_reclen ld) Ha eq_refl).
  cbn [mbind run_bind]. rewrite drop_0. unfold found. destruct (list_find _ (ls_links a)) as [[k l]|] eqn:E.
  - eexists. split; [done|]. apply models_lee; [done|]. apply list_find_Some in E as (Hk & -> & _). by exists (n, f).
  - eexists. split; [done|]. by apply models_lee.
Qed.

Lemma first_ok ld a :
  models bo ld a -> exists ld', linkea_first_entry ld = Ret ld'
    /\ models bo ld' (Links (ls_links a) (ls_time a) (match ls_links a with [] => NoEntry | _ => AtEntry 0 false end)).
Proof.
  intros Hm. destruct (models_parts ld a Hm) as (pad & rest & _ & _ & Hh & _). unfold linkea_first_entry. rewrite (mo_leh _ _ _ Hm). cbn [LASSERT].
  rewrite Hh. cbn [mbind run_bind header_of leh_reccount]. eexists. split; [done|]. apply models_lee; [done|]. destruct (ls_links a) as [|l ls]; [done|].
  exists l. split_and!; done.
Qed.

Lemma next_ok ld a k :
  models bo ld a -> ls_cur a = AtEntry k true -> exists ld', linkea_next_entry ld = Ret ld'
    /\ models bo ld' (Links (ls_links a) (ls_time a) (if decide (S k < length (ls_links a))%nat then AtEntry (S k) false else NoEntry)).
Proof.
  intros Hm Hc. destruct (models_parts ld a Hm) as (pad & rest & _ & _ & Hh & _). unfold linkea_next_entry. rewrite (mo_leh _ _ _ Hm). cbn [LASSERT].
  pose proof (mo_cur _ _ _ Hm) as Hcur. rewrite Hc in Hcur. destruct Hcur as (l & Hk & Hlee & Hrl). rewrite Hlee, Hh. cbn [mbind run_bind header_of leh_len].
  rewrite (Hrl eq_refl), (size_next _ _ _ Hk). eexists. split; [done|]. apply models_lee; [done|].
  assert (Hd : links_size (ls_links a) = links_size (take (S k) (ls_links a)) + zlen (links_bytes (drop (S k) (ls_links a)))).
  { rewrite <-(take_drop (S k) (ls_links a)) at 1. apply links_size_app. }
  destruct (decide (S k < length (ls_links a))%nat) as [Hlt|Hge].
  - destruct (lookup_lt_is_Some_2 _ _ Hlt) as [l' Hk']. rewrite (proj2 (Z.leb_gt _ _)); [by exists l'|].
    rewrite Hd, (drop_S _ _ _ Hk'). change (l' :: drop (S (S k)) (ls_links a)) with ([l'] ++ drop (S (S k)) (ls_links a)).
    rewrite links_bytes_app, links_single, length_app. pose proof (length_entry l'). unfold LEE_SIZE in *. lia.
  - rewrite (proj2 (Z.leb_le _ _)); [done|]. rewrite Hd, (drop_ge _ (S k)) by lia. cbn. lia.
Qed.

Lemma current_ok ld a k b :
  models bo ld a -> ls_cur a = AtEntry k b -> exists l ld', ls_links a !! k = Some l /\ current_entry ld = Ret (l.1, l.2, ld')
    /\ models bo ld' (Links (ls_links a) (ls_time a) (AtEntry k true)).
Proof.
  intros Hm Hc. pose proof (mo_cur _ _ _ Hm) as Hcur. rewrite Hc in Hcur. destruct Hcur as (l & Hk & Hlee & _).
  destruct (mo_mem _ _ _ Hm) as (mem & Hb & Ha). destruct (unpack_at mem _ _ k l Ha Hk) as [Hu Hn].
  unfold current_entry, ld_mem. rewrite Hlee, Hb. cbn [lb_buf mbind run_bind]. rewrite Hu. cbn [mbind run_bind]. rewrite Hn. cbn [mbind run_bind].
  eexists l, _. split; [done|]. split; [done|]. apply models_lee; [done|]. exists l. by split_and!.
Qed.

(** *** Changes *)

(** The buffer after a change: the same size, and the header that belongs to the links. *)
Lemma models_put ld hb body ls t pad c :
  lb_buf (ld_buf ld) = Some (hb ++ body) -> lb_len (ld_buf ld) = zlen (hb ++ body) -> length hb = 24%nat -> ld_leh ld = true ->
  (exists rest, body = links_bytes ls ++ rest) -> links_size ls <= MAX_LINKEA_SIZE -> Forall link_ok ls -> in_u32 t -> in_u32 pad ->
  cursor_at ld ls c ->
  exists ld', put_leh ld (header_of ls t pad) = Ret ld' /\ models bo ld' (Links ls t c)
    /\ lb_buf (ld_buf ld') = Some (header_bytes (header_of ls t pad) ++ body).
Proof.
  intros Hb Hl Hh Hle (rest & ->) Hs Hf Ht Hp Hc. rewrite (put_leh_spec ld hb _ _ Hb Hh). eexists. split; [done|]. split; [|done].
  split; [|done|done]. eexists. split; [cbn; rewrite Hl; do 2 f_equal; by rewrite !length_app, length_header, Hh|]. split; try done.
  exists pad, rest. done.
Qed.

Lemma store_over (A X bs : list Z) off :
  off = zlen A -> (length bs <= length X)%nat -> store (A ++ X) off bs = Ret (A ++ bs ++ drop (length bs) X).
Proof.
  intros -> Hl. rewrite <-(take_drop (length bs) X) at 1. apply store_mid; [done|]. rewrite length_take. lia.
Qed.

Lemma delete_links (ls : list link) k : delete k ls = take k ls ++ drop (S k) ls.
Proof. apply delete_take_drop. Qed.

Lemma del_ok ld a k :
  models bo ld a -> ls_cur a = AtEntry k true -> exists ld', linkea_del_buf ld = Ret ld'
    /\ models bo ld' (Links (delete k (ls_links a)) (ls_time a)
                       (if decide (k < length (delete k (ls_links a)))%nat then AtEntry k false else NoEntry)).
Proof.
  intros Hm Hc. destruct (models_parts ld a Hm) as (pad & rest & Hb & Hbuf & Hh & Hpad). pose proof Hm as [(mem & Hmb & [_ Hs Hf Ht]) Hleh Hcur].
  rewrite Hc in Hcur. destruct Hcur as (l & Hk & Hlee & Hrl). specialize (Hrl eq_refl). destruct a as [ls t c]; cbn [ls_links ls_time ls_cur] in *.
  set (h := header_of ls t pad) in *. destruct (links_split ls k l rest (header_bytes h) Hk (length_header h)) as [Esp Esz].
  assert (Hsz : links_size ls = links_size (take k ls) + (LEE_SIZE + zlen l.1) + zlen (links_bytes (drop (S k) ls))).
  { rewrite <-(take_drop (S k) ls) at 1. by rewrite links_size_app, (size_next ls k l Hk). }
  assert (Hdel : links_size (delete k ls) = links_size ls - (LEE_SIZE + zlen l.1)).
  { rewrite delete_links, links_size_app. lia. }
  assert (Hpos : 0 <= links_size (take k ls)) by (unfold links_size, LEH_SIZE; lia).
  unfold linkea_del_buf. rewrite Hleh, Hlee, Hh. cbn [LASSERT mbind run_bind header_of leh_reccount leh_len leh_magic leh_overflow_time leh_padding h].
  rewrite (proj2 (Z.ltb_lt 0 (zlen ls))) by (apply lookup_lt_Some in Hk; lia). cbn [LASSERT].
  rewrite Hrl, wrap_small, <-Hdel by (unfold in_u, MAX_LINKEA_SIZE, LEE_SIZE in *; lia).
  replace (LinkEaHeader LINK_EA_MAGIC (zlen ls - 1) (links_size (delete k ls)) t pad) with (header_of (delete k ls) t pad).
  2: { unfold header_of. f_equal. rewrite length_delete by (by eexists). apply lookup_lt_Some in Hk. lia. }
  rewrite (put_leh_spec ld (header_bytes h) _ _ Hb (length_header h)). cbn [mbind run_bind ld_mem put_mem set_buf ld_buf lb_buf].
  set (h' := header_of (delete k ls) t pad).
  assert (Emem : header_bytes h' ++ links_bytes ls ++ rest
    = (header_bytes h' ++ links_bytes (take k ls)) ++ entry_bytes l ++ links_bytes (drop (S k) ls) ++ rest)
    by apply (links_split ls k l rest _ Hk (length_header h')).
  assert (El : links_size (take k ls) = zlen (header_bytes h' ++ links_bytes (take k ls)))
    by apply (links_split ls k l rest _ Hk (length_header h')).
  rewrite Emem. rewrite (app_assoc _ (entry_bytes l)). rewrite (load_mid _ (links_bytes (drop (S k) ls)) rest).
  2: { rewrite length_app, Nat2Z.inj_add, <-El, length_entry. cbn [ld_reclen put_mem set_buf]. lia. }
  2: { lia. }
  cbn [mbind run_bind]. rewrite <-(app_assoc _ (entry_bytes l)), (store_over _ _ _ _ El) by (rewrite !length_app; lia). cbn [mbind run_bind].
  eexists. split; [done|]. set (B := links_bytes (drop (S k) ls)) in *.
  set (rest' := drop (length B) (entry_bytes l ++ B ++ rest)).
  assert (Hm' : forall ld' c', ld_buf ld' = LuBuf (Some ((header_bytes h' ++ links_bytes (take k ls)) ++ B ++ rest')) (lb_len (ld_buf ld)) ->
    ld_leh ld' = true -> cursor_at ld' (delete k ls) c' -> models bo ld' (Links (delete k ls) t c')).
  { intros ld' c' Eb El' Hc'. split; [|done|done]. eexists. rewrite Eb, Hbuf. cbn [lb_len]. split.
    - f_equal. rewrite Esp. unfold rest'. rewrite !length_app, !length_header, length_drop, !length_app. unfold B. lia.
    - split; try done; cbn [ls_links ls_time]; [|rewrite Hdel; unfold LEE_SIZE; lia|by apply Forall_delete]. exists pad, rest'. split; [|done]. cbn [ls_links ls_time].
      unfold h', B. by rewrite !delete_links, links_bytes_app, <-!app_assoc. }
  assert (Ht' : take k (delete k ls) = take k ls) by (rewrite delete_links; apply take_app_length'; rewrite length_take; apply lookup_lt_Some in Hk; lia).
  destruct (decide (k < length (delete k ls))%nat) as [Hlt|Hge].
  - rewrite (proj2 (Z.leb_gt _ _)).
    + apply Hm'; [done|done|]. destruct (lookup_lt_is_Some_2 _ _ Hlt) as [l' Hl']. exists l'. rewrite Ht'. done.
    + rewrite Hdel, Hsz. fold B. destruct (lookup_lt_is_Some_2 _ _ Hlt) as [l' Hl']. rewrite list_lookup_delete_ge in Hl' by lia.
      unfold B. rewrite (drop_S _ _ _ Hl'). change (l' :: drop (S (S k)) ls) with ([l'] ++ drop (S (S k)) ls).
      rewrite links_bytes_app, links_single, length_app. pose proof (length_entry l'). unfold LEE_SIZE in *. lia.
  - rewrite (proj2 (Z.leb_le _ _)); [by apply Hm'|]. rewrite Hdel, Hsz. fold B. unfold B. rewrite drop_ge; [cbn; lia|].
    rewrite length_delete in Hge by (by eexists). lia.
Qed.

(** The time of an overflow is never 0. *)
Definition stamp (now : Z) : Z := if u32 now =? 0 then u32 now + 1 else u32 now.

Lemma stamp_ok now : in_u32 (stamp now) /\ stamp now <> 0.
Proof.
  unfold stamp, in_u. assert (0 <= u32 now < 2 ^ 32) by (apply Z.mod_pos_bound; lia). destruct (Z.eqb_spec (u32 now) 0) as [->|]; lia.
Qed.

(** There is room for an entry behind the links, or there is no memory. *)
Lemma grow_room ld hb body n alloc :
  ld_buf ld = LuBuf (Some (hb ++ body)) (zlen (hb ++ body)) -> zlen hb <= n ->
  exists r buf, (if lb_len (ld_buf ld) <? n then lu_buf_check_and_grow alloc (ld_buf ld) n else Ret (0, ld_buf ld)) = Ret (r, buf)
    /\ (r = 0 /\ (exists extra, buf = LuBuf (Some (hb ++ body ++ extra)) (zlen (hb ++ body ++ extra)) /\ n <= zlen (hb ++ body ++ extra))
        \/ r < 0 /\ alloc = false).
Proof.
  intros -> Hn. cbn [lb_len]. destruct (Z.ltb_spec (zlen (hb ++ body)) n) as [Hlt|Hge].
  - unfold lu_buf_check_and_grow. cbn [lb_len lb_buf]. rewrite (proj2 (Z.leb_gt _ _)) by lia. destruct alloc; cbn [negb]; [|by eexists _, _; split; [done|right]].
    rewrite load_all. cbn [mbind run_bind].
    set (e := (Z.to_nat n - length (hb ++ body))%nat).
    replace (replicate (Z.to_nat n) 0) with (replicate (length (hb ++ body)) 0 ++ replicate e 0) by (rewrite <-replicate_add; f_equal; unfold e; lia).
    rewrite store_head by (by rewrite length_replicate). cbn [mbind run_bind]. eexists _, _. split; [done|]. left. split; [done|].
    exists (replicate e 0). rewrite <-app_assoc. assert (Ez : n = zlen (hb ++ body ++ replicate e 0)).
    { rewrite app_assoc, (length_app (hb ++ body)), length_replicate. unfold e. lia. }
    split; [by rewrite Ez at 1|lia].
  - eexists _, _. split; [done|]. left. split; [done|]. exists []. rewrite app_nil_r. by split.
Qed.

Lemma add_ok ld a now alloc n f :
  models bo ld a -> link_ok (n, f) -> zlen n < 2 ^ 31 ->
  exists r ld', linkea_add_buf now alloc ld (Some n) (Some f) = Ret (r, ld')
    /\ if MAX_LINKEA_SIZE <? links_size (ls_links a ++ [(n, f)])
       then r = 0 /\ models bo ld' (Links (ls_links a) (stamp now) (ls_cur a))
       else r = 0 /\ models bo ld' (Links (ls_links a ++ [(n, f)]) (ls_time a) (AtEntry (length (ls_links a)) true))
            \/ alloc = false /\ r = - ENOMEM /\ models bo ld' a.
Proof.
  intros Hm Hlk Hn. destruct (models_parts ld a Hm) as (pad & rest & Hb & Hbuf & Hh & Hpad). pose proof Hm as [(mem & Hmb & [_ Hs Hf Ht]) Hleh Hcur].
  destruct a as [ls t c]; cbn [ls_links ls_time ls_cur] in *. set (h := header_of ls t pad) in *.
  assert (Esz : links_size (ls ++ [(n, f)]) = links_size ls + (zlen n + LEE_SIZE)).
  { rewrite links_size_app, links_single, length_entry. cbn [fst]. lia. }
  assert (Hlo : LEH_SIZE <= links_size ls) by (unfold links_size; lia). unfold LEE_SIZE, LEH_SIZE, MAX_LINKEA_SIZE in *.
  unfold linkea_add_buf. rewrite Hleh, Hh. cbn [LASSERT mbind run_bind header_of leh_len leh_magic leh_reccount leh_overflow_time leh_padding h].
  unfold LEE_SIZE, MAX_LINKEA_SIZE. rewrite wrap_small by (unfold in_u; lia). rewrite <-Esz. fold (stamp now).
  destruct (4096 <? links_size (ls ++ [(n, f)])) eqn:Eo.
  { destruct (stamp_ok now) as [Hst _].
    destruct (models_put ld (header_bytes h) (links_bytes ls ++ rest) ls (stamp now) pad c) as (ld' & E & Hm' & _);
      [done|by rewrite Hbuf|apply length_header|done|by exists rest|done|done|done|done|done|].
    unfold header_of in E. rewrite E. cbn [mbind run_bind]. by eexists _, _. }
  apply Z.ltb_ge in Eo.
  destruct (grow_room ld (header_bytes h ++ links_bytes ls) rest (links_size (ls ++ [(n, f)])) alloc) as (r & buf & -> & Hr).
  { by rewrite <-app_assoc. }
  { rewrite Esz. rewrite length_app, length_header. unfold links_size, LEH_SIZE. lia. }
  cbn [mbind run_bind fst snd]. destruct Hr as [(-> & extra & -> & Hroom)|[Hr ->]].
  2: { rewrite (proj2 (Z.ltb_lt r 0) Hr). eexists _, _. split; [done|]. by right. }
  cbn [Z.ltb Z.compare]. cbn [ld_mem set_buf ld_buf lb_buf mbind run_bind].
  set (free := rest ++ extra) in *. set (e := entry_bytes (n, f)).
  assert (He : zlen e = 18 + zlen n) by apply (length_entry (n, f)).
  assert (Hfree : (length e <= length free)%nat).
  { rewrite Esz in Hroom. rewrite !length_app, length_header in Hroom. unfold links_size, LEH_SIZE in *. lia. }
  rewrite <-(take_drop (length e) free).
  rewrite (pack_spec (header_bytes h ++ links_bytes ls) (take (length e) free) (drop (length e) free) (n, f) (links_size ls) Hlk).
  2: { cbn [fst]. unfold LEE_SIZE. lia. }
  2: { rewrite length_app, length_header. unfold links_size, LEH_SIZE. lia. }
  2: { fold e. rewrite length_take. lia. }
  cbn [mbind run_bind fst snd]. fold e. set (ld1 := set_lee _ _ _).
  destruct (models_put ld1 (header_bytes h) (links_bytes ls ++ e ++ drop (length e) free) (ls ++ [(n, f)]) t pad (AtEntry (length ls) true))
    as (ld' & E & Hm' & _).
  - unfold ld1. cbn [set_lee put_mem set_buf ld_buf lb_buf]. by rewrite <-!app_assoc.
  - unfold ld1. cbn [set_lee put_mem set_buf ld_buf lb_len]. rewrite <-!app_assoc, !length_app, !length_header, length_take, length_drop. lia.
  - apply length_header.
  - done.
  - exists (drop (length e) free). by rewrite links_bytes_app, links_single, <-app_assoc.
  - unfold MAX_LINKEA_SIZE. lia.
  - apply Forall_app. split; [done|]. by constructor.
  - done.
  - done.
  - exists (n, f). split; [by rewrite lookup_app_r, Nat.sub_diag|]. split; [|done]. cbn. by rewrite take_app_length.
  - pose proof (links_count ls) as Hc. unfold links_size, LEH_SIZE, LEE_SIZE in Hs, Hc. unfold header_of in E. rewrite length_app in E. cbn [length] in E.
    rewrite wrap_small by (unfold in_u; lia). unfold LEE_SIZE. rewrite wrap_small by (unfold in_u, links_size, LEH_SIZE in *; lia).
    replace (links_size ls + (18 + zlen n)) with (links_size (ls ++ [(n, f)])) by lia. rewrite Nat2Z.inj_add in E. change (Z.of_nat 1) with 1 in E.
    rewrite E. cbn [mbind run_bind]. eexists _, _. split; [done|]. by left.
Qed.

Lemma shrink_ok ld a now l :
  models bo ld a -> last (ls_links a) = Some l ->
  let ls' := take (length (ls_links a) - 1) (ls_links a) in
  exists r ld', linkea_overflow_shrink now ld = Ret (r, ld')
    /\ match ls' with
       | [] => r = 0 /\ models bo ld' (Links ls' (ls_time a) Unset)
       | _ => r = links_size ls' /\ models bo ld' (Links ls' (stamp now) Unset)
       end.
Proof.
  intros Hm Hlast ls'. destruct (models_parts ld a Hm) as (pad & rest & Hb & Hbuf & Hh & Hpad). pose proof Hm as [(mem & Hmb & Ha) Hleh _].
  pose proof Ha as [_ Hs Hf Ht]. destruct a as [ls t c]; cbn [ls_links ls_time ls_cur] in *. set (h := header_of ls t pad) in *.
  apply last_Some in Hlast as [l0 El]. assert (Els : ls' = l0) by (unfold ls'; subst ls; rewrite length_app; cbn; rewrite Nat.add_sub; apply take_app_length).
  assert (Hlen : zlen ls - 1 = zlen l0) by (subst ls; rewrite length_app; cbn; lia).
  assert (Hpre : exists rest', links_bytes ls ++ rest = links_bytes l0 ++ rest').
  { exists (entry_bytes l ++ rest). by rewrite El, links_bytes_app, links_single, <-app_assoc. }
  assert (Hsz : links_size l0 <= MAX_LINKEA_SIZE) by (rewrite El, links_size_app in Hs; lia).
  assert (Hf0 : Forall link_ok l0) by (rewrite El in Hf; by apply Forall_app in Hf as [? _]).
  unfold linkea_overflow_shrink. rewrite Hh. cbn [mbind run_bind h header_of leh_magic leh_reccount leh_len leh_overflow_time leh_padding].
  change (LINK_EA_MAGIC =? swab 4 LINK_EA_MAGIC) with false. cbn match. change (leh_magic h) with LINK_EA_MAGIC.
  change (leh_reccount h) with (zlen ls). change (leh_overflow_time h) with t. change (leh_padding h) with pad.
  rewrite (proj2 (Z.ltb_lt 0 (zlen ls))) by (subst ls; rewrite length_app; cbn; lia). cbn [LASSERT]. rewrite Hlen.
  assert (Hput : forall ld1 t', ld_buf ld1 = ld_buf ld -> ld_leh ld1 = true -> in_u32 t' ->
    exists ld', put_leh ld1 (header_of l0 t' pad) = Ret ld' /\ models bo ld' (Links l0 t' Unset)).
  { intros ld1 t' E1 E2 Ht'. destruct (models_put ld1 (header_bytes h) (links_bytes ls ++ rest) l0 t' pad Unset) as (ld' & E & Hm' & _); try done;
      [by rewrite E1|by rewrite E1, Hbuf|apply length_header|by exists ld']. }
  rewrite Els. destruct l0 as [|l1 l0'].
  - cbn [length]. change (Z.of_nat 0 =? 0) with true. cbn [Z.of_nat].
    destruct (Hput (set_leh ld) t) as (ld' & E & Hm'); [done|done|done|]. unfold header_of in E. cbn [length Z.of_nat] in E.
    change (links_size []) with LEH_SIZE in E. rewrite E. cbn [mbind run_bind]. by eexists _, _.
  - set (l0 := l1 :: l0') in *. rewrite (proj2 (Z.eqb_neq (zlen l0) 0)) by (cbn; lia). fold (stamp now).
    change (ld_mem (set_leh ld)) with (ld_mem ld). unfold ld_mem. rewrite Hmb. cbn [lb_buf mbind run_bind]. rewrite Nat2Z.id. change LEH_SIZE with (links_size (take 0 ls)).
    destruct (linkea_shrink_loop_spec mem ls t (length l0) 0 0 Ha) as [rl ->]; [rewrite El, length_app; lia|]. cbn [mbind run_bind Nat.add].
    assert (Etk : take (length l0) ls = l0) by (rewrite El; apply take_app_length).
    destruct (unpack_at mem ls t (length l0) l Ha) as [-> _]; [by rewrite El, lookup_app_r, Nat.sub_diag|]. cbn [mbind run_bind fst]. rewrite Etk.
    destruct (Hput (set_lee (set_leh ld) (Some (links_size l0)) (LEE_SIZE + zlen l.1)) (stamp now)) as (ld' & E & Hm'); [done|done|by apply stamp_ok|].
    unfold header_of in E. rewrite E. cbn [mbind run_bind]. by eexists _, _.
Qed.
End Ops.

(** ** Storing and reading back *)

(** The value of the attribute that is stored. *)
Definition ea_value (bo : byte_order) (ld : linkea_data) : run (list Z) :=
  leh ← get_leh ld; mem ← ld_mem ld; load mem 0 (leh_len leh).

(** A host reads the value into a buffer that may be larger. *)
Definition ea_buffer (value extra : list Z) : linkea_data :=
  LinkeaData (LuBuf (Some (value ++ extra)) (zlen (value ++ extra))) false None 0.

Lemma value_ok bo ld a : models bo ld a -> exists pad,
  ea_value bo ld = Ret (@header_bytes bo (header_of (ls_links a) (ls_time a) pad) ++ links_bytes (ls_links a)) /\ in_u32 pad.
Proof.
  intros Hm. destruct (models_parts ld a Hm) as (pad & rest & Hb & _ & Hh & Hp). exists pad. split; [|done]. unfold ea_value. rewrite Hh.
  cbn [mbind run_bind]. unfold ld_mem. rewrite Hb. cbn [mbind run_bind header_of leh_len]. rewrite app_assoc. apply load_head.
  rewrite length_app, length_header. unfold links_size, LEH_SIZE. lia.
Qed.

Lemma swab_header_back h : header_wf h -> swab_header (swab_header h) = h.
Proof. intros [W1 W2 W3 W4 W5]. destruct h as [m c n t p]. unfold swab_header. cbn [leh_magic leh_reccount leh_len leh_overflow_time leh_padding] in *. by rewrite !swab_swab. Qed.

Lemma reload_ok bo bo' ld a value extra :
  models bo ld a -> ea_value bo ld = Ret value -> ls_links a <> [] \/ ls_time a <> 0 ->
  exists ld', @linkea_init bo' (ea_buffer value extra) = Ret (0, ld') /\ models bo' ld' (Links (ls_links a) (ls_time a) NoEntry).
Proof.
  intros Hm Ev Hne. destruct (value_ok bo ld a Hm) as (pad & E & Hpad). assert (value = @header_bytes bo (header_of (ls_links a) (ls_time a) pad) ++ links_bytes (ls_links a)) as -> by congruence.
  clear E Ev. destruct Hm as [(mem & _ & [_ Hs Hf Ht]) _ _]. destruct a as [ls t c]; cbn [ls_links ls_time] in *. set (h := header_of ls t pad).
  assert (Hw : header_wf h) by (by apply header_of_wf). set (ld0 := ea_buffer _ extra).
  assert (Hb : lb_buf (ld_buf ld0) = Some (@header_bytes bo h ++ links_bytes ls ++ extra)) by (cbn; by rewrite <-app_assoc).
  assert (Hdone : forall ld1, ld_buf ld1 = LuBuf (Some (@header_bytes bo' h ++ links_bytes ls ++ extra)) (zlen (@header_bytes bo' h ++ links_bytes ls ++ extra)) ->
    ld_lee ld1 = None -> models bo' (set_leh ld1) (Links ls t NoEntry)).
  { intros ld1 E1 E2. split; [|done|done]. eexists. split; [exact E1|]. split; try done. exists pad, extra. done. }
  assert (Hend : (if (zlen ls =? 0) && (t =? 0) then true else false) = false).
  { destruct Hne as [Hne|Hne]; [destruct ls; [done|]; by rewrite (proj2 (Z.eqb_neq _ _)) by (cbn; lia)|]. rewrite (proj2 (Z.eqb_neq t 0)) by done. by rewrite andb_false_r. }
  unfold linkea_init. rewrite (get_leh_other bo bo' ld0 h _ Hb Hw). cbn [mbind run_bind].
  destruct (decide (bo = bo')) as [<-|Hd].
  - change (leh_magic h =? swab 4 LINK_EA_MAGIC) with false. cbn [mbind run_bind negb]. change (leh_magic h =? LINK_EA_MAGIC) with true. cbn [negb].
    cbn [h header_of leh_reccount leh_overflow_time]. destruct ((zlen ls =? 0) && (t =? 0)); [done|]. eexists. split; [done|].
    apply Hdone; [|done]. cbn. by rewrite <-app_assoc.
  - change (leh_magic (swab_header h) =? swab 4 LINK_EA_MAGIC) with true. cbn match.
    replace (LinkEaHeader LINK_EA_MAGIC (swab 4 (leh_reccount (swab_header h))) (swab 8 (leh_len (swab_header h))) (swab 4 (leh_overflow_time (swab_header h)))
      (swab 4 (leh_padding (swab_header h)))) with h.
    2: { pose proof (swab_header_back h Hw) as Hsb. unfold swab_header in Hsb at 1. rewrite <-Hsb at 1. f_equal. }
    rewrite (put_leh_spec ld0 _ h _ Hb (length_header h)). cbn [mbind run_bind]. change (leh_magic h =? LINK_EA_MAGIC) with true. cbn [negb].
    cbn [h header_of leh_reccount leh_overflow_time]. destruct ((zlen ls =? 0) && (t =? 0)); [done|]. eexists. split; [done|].
    apply Hdone; [|done]. unfold put_mem, ld0, ea_buffer. cbn [ld_buf lb_len set_buf]. do 2 f_equal. by rewrite <-app_assoc, !length_app, !length_header.
Qed.

(** A new attribute. *)
Definition buf_ok (buf : lu_buf) : Prop :=
  match lb_buf buf with Some mem => lb_len buf = zlen mem /\ 0 < lb_len buf | None => True end.

Lemma new_attr_ok bo PAGE_SIZE alloc ld buf :
  LEH_SIZE <= PAGE_SIZE -> buf_ok buf ->
  exists r ld', @linkea_data_new bo PAGE_SIZE alloc ld buf = Ret (r, ld') /\ (r = 0 /\ models bo ld' (Links [] 0 Unset) \/ r = - ENOMEM).
Proof.
  intros Hp Hb. unfold linkea_data_new.
  assert (Halloc : exists buf', lu_buf_check_and_alloc alloc buf PAGE_SIZE = Ret buf'
    /\ (lb_buf buf' = None \/ exists mem, buf' = LuBuf (Some mem) (zlen mem) /\ LEH_SIZE <= zlen mem)).
  { unfold lu_buf_check_and_alloc, lu_buf_realloc, lu_buf_free, lu_buf_alloc, buf_ok, LEH_SIZE in *. destruct buf as [[mem|] n]; cbn [lb_buf lb_len] in *.
    - cbn [mbind run_bind lb_buf lb_len]. destruct (Z.ltb_spec n PAGE_SIZE) as [Hlt|Hge].
      + rewrite (proj2 (Z.ltb_lt 0 n)) by lia. cbn [LASSERT mbind run_bind lb_buf lb_len LU_BUF_NULL Z.eqb]. eexists. split; [done|].
        destruct alloc; [right|by left]. exists (replicate (Z.to_nat PAGE_SIZE) 0). rewrite length_replicate, Z2Nat.id by lia. done.
      + eexists. split; [done|]. right. exists mem. split; [f_equal; lia|lia].
    - destruct (Z.eqb_spec n 0) as [->|Hn]; cbn [LASSERT mbind run_bind lb_buf lb_len]; [|eexists; split; [done|by left]].
      destruct alloc; cbn [lb_buf lb_len]; [|eexists; split; [done|by left]]. rewrite Z.ltb_irrefl. eexists. split; [done|]. right.
      exists (replicate (Z.to_nat PAGE_SIZE) 0). rewrite length_replicate, Z2Nat.id by lia. done. }
  destruct Halloc as (buf' & -> & [Hn|(mem & -> & Hl)]); cbn [mbind run_bind lb_buf].
  { rewrite Hn. eexists _, _. split; [done|by right]. }
  unfold LEH_SIZE in *. destruct (models_put (set_leh (set_buf ld (LuBuf (Some mem) (zlen mem)))) (take 24 mem) (drop 24 mem) [] 0 0 Unset) as (ld' & E & Hm & _); try done.
  - cbn. by rewrite take_drop.
  - cbn. by rewrite take_drop.
  - rewrite length_take. lia.
  - by exists (drop 24 mem).
  - change (LinkEaHeader LINK_EA_MAGIC 0 24 0 0) with (header_of [] 0 0). rewrite E. cbn [mbind run_bind]. eexists _, _. split; [done|]. by left.
Qed.

(** ** Attributes in use *)

Inductive lk_op :=
  | LkAdd (now : Z) (alloc : bool) (name : list Z) (fid : lu_fid)
  | LkFind (name : list Z) (fid : lu_fid)
  | LkDel
  | LkFirst
  | LkNext
  | LkCurrent
  | LkShrink (now : Z)
  | LkReload (host : byte_order) (extra : list Z).

(** What an operation gives: a return code, an entry or nothing. *)
Inductive lk_result := LkRc (rc : Z) | LkEntry (l : link) | LkVoid.

Definition lk_do (op : lk_op) (s : byte_order * linkea_data) : run (lk_result * (byte_order * linkea_data)) :=
  let '(bo, ld) := s in
  match op with
  | LkAdd now alloc name fid => r ← linkea_add_buf now alloc ld (Some name) (Some fid); Ret (LkRc r.1, (bo, r.2))
  | LkFind name fid => r ← linkea_links_find ld name fid; Ret (LkRc r.1, (bo, r.2))
  | LkDel => ld ← linkea_del_buf ld; Ret (LkVoid, (bo, ld))
  | LkFirst => ld ← linkea_first_entry ld; Ret (LkVoid, (bo, ld))
  | LkNext => ld ← linkea_next_entry ld; Ret (LkVoid, (bo, ld))
  | LkCurrent => r ← current_entry ld; Ret (LkEntry r.1, (bo, r.2))
  | LkShrink now => r ← linkea_overflow_shrink now ld; Ret (LkRc r.1, (bo, r.2))
  | LkReload host extra =>
      value ← ea_value bo ld; r ← @linkea_init host (ea_buffer value extra); Ret (LkRc r.1, (host, r.2))
  end.

(** When an operation may be used. *)
Definition lk_can (a : links) (op : lk_op) : Prop :=
  match op with
  | LkAdd _ _ name fid => link_ok (name, fid) /\ zlen name < 2 ^ 31
  | LkFind _ _ | LkFirst => True
  | LkDel | LkNext => exists k, ls_cur a = AtEntry k true
  | LkCurrent => exists k b, ls_cur a = AtEntry k b
  | LkShrink _ => ls_links a <> []
  | LkReload _ _ => ls_links a <> [] \/ ls_time a <> 0
  end.

(** What the operations do on the list.  Shrinking marks an overflow only if links are left:
    with a single link the code returns 0 before it sets the time. *)
Definition lk_spec (op : lk_op) (a : links) (r : lk_result) (a' : links) : Prop :=
  let 'Links ls t c := a in
  match op with
  | LkAdd now alloc name fid =>
      if MAX_LINKEA_SIZE <? links_size (ls ++ [(name, fid)]) then r = LkRc 0 /\ a' = Links ls (stamp now) c
      else r = LkRc 0 /\ a' = Links (ls ++ [(name, fid)]) t (AtEntry (length ls) true)
           \/ alloc = false /\ r = LkRc (- ENOMEM) /\ a' = a
  | LkFind name fid =>
      a' = Links ls t (found ls (name, fid)) /\ r = LkRc (if decide ((name, fid) ∈ ls) then 0 else - ENOENT)
  | LkDel => exists k, c = AtEntry k true
      /\ a' = Links (delete k ls) t (if decide (k < length (delete k ls))%nat then AtEntry k false else NoEntry)
  | LkFirst => a' = Links ls t (match ls with [] => NoEntry | _ => AtEntry 0 false end)
  | LkNext => exists k, c = AtEntry k true
      /\ a' = Links ls t (if decide (S k < length ls)%nat then AtEntry (S k) false else NoEntry)
  | LkCurrent => exists k b l, c = AtEntry k b /\ ls !! k = Some l /\ r = LkEntry l /\ a' = Links ls t (AtEntry k true)
  | LkShrink now =>
      let ls' := take (length ls - 1) ls in
      match ls' with
      | [] => r = LkRc 0 /\ a' = Links ls' t Unset
      | _ => r = LkRc (links_size ls') /\ a' = Links ls' (stamp now) Unset
      end
  | LkReload _ _ => r = LkRc 0 /\ a' = Links ls t NoEntry
  end.

(** Attributes that were made new and then used, with the list each one stands for. *)
Inductive lk_reachable : byte_order * linkea_data -> links -> Prop :=
  | lk_new bo PAGE_SIZE alloc ld buf ld' :
      LEH_SIZE <= PAGE_SIZE -> buf_ok buf -> @linkea_data_new bo PAGE_SIZE alloc ld buf = Ret (0, ld') ->
      lk_reachable (bo, ld') (Links [] 0 Unset)
  | lk_step s a op r s' a' :
      lk_reachable s a -> lk_can a op -> lk_do op s = Ret (r, s') -> lk_spec op a r a' -> lk_reachable s' a'.

Lemma found_spec ls l : match found ls l with NoEntry => l ∉ ls | AtEntry k _ => l ∈ ls | Unset => False end.
Proof.
  unfold found. destruct (list_find _ ls) as [[k l']|] eqn:E.
  - apply list_find_Some in E as (Hk & -> & _). by eapply list_elem_of_lookup_2.
  - apply list_find_None in E. rewrite Forall_forall in E. intros Hl. by apply (E l).
Qed.

Lemma lk_do_ok bo ld a op :
  models bo ld a -> lk_can a op -> exists r bo' ld' a', lk_do op (bo, ld) = Ret (r, (bo', ld')) /\ lk_spec op a r a' /\ models bo' ld' a'.
Proof.
  intros Hm Hcan. destruct op as [now alloc n f|n f| | | | |now|bo' extra]; cbn [lk_do lk_can] in *.
  - destruct Hcan as [Hl Hn]. destruct (add_ok ld a now alloc n f Hm Hl Hn) as (r & ld' & -> & Hs). cbn [mbind run_bind fst snd]. destruct a as [ls t c].
    cbn [ls_links ls_time ls_cur lk_spec] in *. destruct (MAX_LINKEA_SIZE <? _); [|destruct Hs as [Hs|Hs]]; destruct_and?; subst; eexists _, _, _, _; (split; [done|]); eauto 7.
  - destruct (find_ok ld a n f Hm) as (ld' & -> & Hm'). cbn [mbind run_bind fst snd]. destruct a as [ls t c]; cbn [ls_links ls_time] in *.
    eexists _, _, _, _. split; [done|]. split; [|done]. split; [done|]. f_equal. pose proof (found_spec ls (n, f)) as Hfs.
    destruct (found ls (n, f)); [by rewrite decide_False|by rewrite decide_True|done].
  - destruct Hcan as [k Hc]. destruct (del_ok ld a k Hm Hc) as (ld' & -> & Hm'). destruct a as [ls t c]; cbn [ls_links ls_time ls_cur] in *. cbn [mbind run_bind].
    eexists _, _, _, _. split; [done|]. split; [|done]. by exists k.
  - destruct (first_ok ld a Hm) as (ld' & -> & Hm'). destruct a as [ls t c]. cbn [mbind run_bind]. by eexists _, _, _, _.
  - destruct Hcan as [k Hc]. destruct (next_ok ld a k Hm Hc) as (ld' & -> & Hm'). destruct a as [ls t c]; cbn [ls_links ls_time ls_cur] in *. cbn [mbind run_bind].
    eexists _, _, _, _. split; [done|]. split; [|done]. by exists k.
  - destruct Hcan as (k & b & Hc). destruct (current_ok ld a k b Hm Hc) as (l & ld' & Hk & -> & Hm'). destruct a as [ls t c]; cbn [ls_links ls_time ls_cur] in *.
    cbn [mbind run_bind fst snd]. eexists _, _, _, _. split; [done|]. split; [|done]. exists k, b, l. by destruct l.
  - destruct (last (ls_links a)) as [l|] eqn:El; [|by apply last_None in El]. destruct (shrink_ok ld a now l Hm El) as (r & ld' & -> & Hs).
    destruct a as [ls t c]; cbn [ls_links ls_time lk_spec mbind run_bind fst snd] in *. destruct (take (length ls - 1) ls); destruct Hs as [-> Hm']; by eexists _, _, _, _.
  - destruct (value_ok bo ld a Hm) as (pad & Ev & _). rewrite Ev. cbn [mbind run_bind].
    destruct (reload_ok bo bo' ld a _ extra Hm Ev Hcan) as (ld' & -> & Hm'). destruct a as [ls t c]. cbn [mbind run_bind fst snd]. by eexists _, _, _, _.
Qed.

Lemma lk_spec_one op a r a1 a2 : lk_spec op a r a1 -> lk_spec op a r a2 -> a1 = a2.
Proof.
  destruct a as [ls t c]. destruct op as [now alloc n f|n f| | | | |now|bo' extra]; cbn [lk_spec].
  - destruct (MAX_LINKEA_SIZE <? _); [by intros [_ ->] [_ ->]|].
    intros [[-> ->]|(_ & -> & ->)] [[E ->]|(_ & E & ->)]; done.
  - by intros [-> _] [-> _].
  - intros (k & -> & ->) (k' & [= <-] & ->). done.
  - by intros -> ->.
  - intros (k & -> & ->) (k' & [= <-] & ->). done.
  - intros (k & b & l & -> & _ & _ & ->) (k' & b' & l' & [= <- <-] & _ & _ & ->). done.
  - destruct (take (length ls - 1) ls); by intros [_ ->] [_ ->].
  - by intros [_ ->] [_ ->].
Qed.

Lemma lk_reachable_models s a : lk_reachable s a -> models s.1 s.2 a.
Proof.
  induction 1 as [bo P alloc ld buf ld' HP Hb E|s a op r s' a' _ IH Hcan Hdo Hs].
  - destruct (new_attr_ok bo P alloc ld buf HP Hb) as (r & ld1 & E1 & Hr). rewrite E in E1. injection E1 as <- <-. cbn. by destruct Hr as [[_ ?]|?].
  - destruct s as [bo ld]. destruct (lk_do_ok bo ld a op IH Hcan) as (r1 & bo1 & ld1 & a1 & E & Hs1 & Hm1). rewrite Hdo in E. injection E as <- ->. cbn.
    by rewrite (lk_spec_one _ _ _ _ _ Hs Hs1).
Qed.

(** C12: The link attribute is a list of names with the FIDs of their parents.  Whatever is
    done with an attribute, every operation returns without a failed assertion or an access
    outside its buffer, and does to the packed bytes what it should do to the list: a link
    is added at the end, or the overflow is noted if the attribute would be longer than
    4096 bytes; searches find the first equal link, or that there is none; the current link
    is taken out; a walk gives the links one after the other; and the last link is dropped
    on an overflow.  A host of either byte order reads the same list out of the bytes a host
    of the other one stored, and these are never more than 4096. *)
Theorem linkea_refines_list s a op :
  lk_reachable s a -> lk_can a op ->
  exists r s' a', lk_do op s = Ret (r, s') /\ lk_spec op a r a' /\ lk_reachable s' a'
    /\ exists value, ea_value s'.1 s'.2 = Ret value /\ zlen value <= MAX_LINKEA_SIZE.
Proof.
  intros Hr Hcan. pose proof (lk_reachable_models s a Hr) as Hm. destruct s as [bo ld].
  destruct (lk_do_ok bo ld a op Hm Hcan) as (r & bo' & ld' & a' & E & Hs & Hm'). exists r, (bo', ld'), a'. split; [done|]. split; [done|].
  split; [by eapply lk_step|]. destruct (value_ok bo' ld' a' Hm') as (pad & Ev & _). eexists. split; [exact Ev|].
  destruct (mo_mem _ _ _ Hm') as (mem & _ & [_ Hsz _ _]). rewrite length_app, length_header. unfold links_size, LEH_SIZE in Hsz. lia.
Qed.

(** ** A run *)

Module LinkRun.
Definition name (x : string) : list Z := map (fun c => Z.of_N (Ascii.N_of_ascii c)) (list_ascii_of_string x).
Definition dir (n : Z) : lu_fid := LuFid 0x200000400 n 0.

Definition no_data : linkea_data := LinkeaData LU_BUF_NULL false None 0.
Definition after (r : run (lk_result * (byte_order * linkea_data))) : byte_order * linkea_data :=
  match r with Ret x => x.2 | LBUG => (LittleEndian, no_data) end.

(** Two links, made by a big endian host; the second one needs a larger buffer. *)
Definition s0 := Eval vm_compute in (BigEndian, match @linkea_data_new BigEndian 64 true no_data LU_BUF_NULL with Ret r => r.2 | LBUG => no_data end).
Definition op1 : lk_op := LkAdd 7 true (name "passwd") (dir 1).
Definition op2 : lk_op := LkAdd 8 true (name "shadow copy") (dir 2).
Definition s1 := Eval vm_compute in after (lk_do op1 s0).
Definition s2 := Eval vm_compute in after (lk_do op2 s1).
Definition a1 : links := Links [(name "passwd", dir 1)] 0 (AtEntry 0 true).
Definition a2 : links := Links [(name "passwd", dir 1); (name "shadow copy", dir 2)] 0 (AtEntry 1 true).

Lemma name_ok n k : Forall (fun b => 0 < b < 256) n -> in_u32 k -> link_ok (n, dir k).
Proof. intros Hn Hk. split; [done|]. split_and!; done. Qed.

Lemma s2_reachable : lk_reachable s2 a2.
Proof.
  apply (lk_step s1 a1 op2 (LkRc 0)); [apply (lk_step s0 (Links [] 0 Unset) op1 (LkRc 0))|..].
  - apply (lk_new BigEndian 64 true no_data LU_BUF_NULL); [done|done|by vm_compute].
  - split; [|done]. apply name_ok; [|done]. by repeat constructor.
  - by vm_compute.
  - vm_compute. left. done.
  - split; [|done]. apply name_ok; [|done]. by repeat constructor.
  - by vm_compute.
  - vm_compute. left. done.
Qed.

Lemma linkea_refines_list_witness :
  exists r s' a', lk_do (LkReload LittleEndian [1; 2; 3]) s2 = Ret (r, s') /\ lk_spec (LkReload LittleEndian [1; 2; 3]) a2 r a' /\ lk_reachable s' a'
    /\ exists value, ea_value s'.1 s'.2 = Ret value /\ zlen value <= MAX_LINKEA_SIZE.
Proof. apply (linkea_refines_list s2 a2 (LkReload LittleEndian [1; 2; 3])); [exact s2_reachable|by left]. Defined.

(** The other host finds the second link, takes it out, and walks over what is left. *)
Lemma other_host_walk :
  (r ← lk_do (LkReload LittleEndian [1; 2; 3]) s2;
   r ← lk_do (LkFind (name "shadow copy") (dir 2)) r.2;
   r ← lk_do LkDel r.2;
   r ← lk_do LkFirst r.2;
   r ← lk_do LkCurrent r.2;
   q ← lk_do LkNext r.2;
   Ret (r.1, ld_lee q.2.2)) = Ret (LkEntry (name "passwd", dir 1), None).
Proof. by vm_compute. Qed.
End LinkRun.
