(* ===== verification/PtlMsg.v ===== *)
(** * Messages

    [lustre/ptlrpc/pack_generic.c]: a message is a header, the lengths of its buffers, and
    the buffers one after the other, each at a multiple of 8 bytes.  The header and the
    lengths are in the byte order of the sender.

    A message is its bytes; a pointer into it is an offset.  What is read or written outside
    is LBUG, as a failed assertion is. *)

From stdpp Require Import list.
From S2P Require Import Prelude Memory.

Definition LUSTRE_MSG_MAGIC_V1 : Z := 0x0BD00BD0.
Definition LUSTRE_MSG_MAGIC_V2 : Z := 0x0BD00BD3.
Definition LUSTRE_MSG_MAGIC_V2_SWABBED : Z := 0xD30BD00B.
Definition MSG_PTLRPC_BODY_OFF : Z := 0.

(** [sizeof(struct ptlrpc_body_v2)] and [sizeof(struct ptlrpc_body)]. *)
Definition PTLRPC_BODY_V2_SIZE : Z := 152.
Definition PTLRPC_BODY_SIZE : Z := 184.

(** [struct lustre_msg_v2]: where its fields of 32 bits are. *)
Definition lm_bufcount : Z := 0.
Definition lm_secflvr : Z := 4.
Definition lm_magic : Z := 8.
Definition lm_repsize : Z := 12.
Definition lm_cksum : Z := 16.
Definition lm_flags : Z := 20.
Definition lm_buflens (i : Z) : Z := 32 + 4 * i.

Definition cfs_size_round (val : Z) : Z := Z.land (u64 (val + 7)) (u64 (Z.lnot 7)).

Definition lustre_msg_hdr_size_v2 (count : Z) : Z := u32 (cfs_size_round (lm_buflens count)).

Definition lustre_msg_hdr_size (magic count : Z) : run Z :=
  if magic =? LUSTRE_MSG_MAGIC_V2 then Ret (lustre_msg_hdr_size_v2 count) else LBUG.

(** An element of an array. *)
Definition arr {A} (l : list A) (i : Z) : run A :=
  if i <? 0 then LBUG else match l !! Z.to_nat i with Some x => Ret x | None => LBUG end.

(** The loops that add up rounded lengths, from the [i]th on. *)
Fixpoint size_loop (n : nat) (i : Z) (lengths : Z -> run Z) (size : Z) : run Z :=
  match n with
  | O => Ret size
  | S n' => l ← lengths i; size_loop n' (i + 1) lengths (u32 (size + cfs_size_round l))
  end.

Definition lustre_msg_size_v2 (count : Z) (lengths : Z -> run Z) : run Z :=
  size_loop (Z.to_nat count) 0 lengths (lustre_msg_hdr_size_v2 (u32 count)).

Definition lustre_msg_size (magic count : Z) (lens : option (list Z)) : run Z :=
  lens ← match lens with None => lassert count =? 1; Ret [PTLRPC_BODY_SIZE] | Some lens => Ret lens end;
  lassert 0 <? count;
  len ← arr lens MSG_PTLRPC_BODY_OFF;
  lassert PTLRPC_BODY_V2_SIZE <=? len;
  if magic =? LUSTRE_MSG_MAGIC_V2 then lustre_msg_size_v2 count (arr lens) else LBUG.

(** The first call computes the size, the others give the same. *)
Definition lustre_msg_early_size : run Z := lustre_msg_size LUSTRE_MSG_MAGIC_V2 1 (Some [PTLRPC_BODY_V2_SIZE]).

Section Host.
Context {bo : byte_order}.

Definition get32 (msg : list Z) (off : Z) : run Z := get_int 4 msg off.
Definition put32 (msg : list Z) (off x : Z) : run (list Z) := put_int 4 msg off x.
Definition buflens (msg : list Z) (i : Z) : run Z := get32 msg (lm_buflens i).

Definition __swab32s (msg : list Z) (off : Z) : run (list Z) := swab_int 4 msg off.

Definition lustre_packed_msg_size (msg : list Z) : run Z :=
  magic ← get32 msg lm_magic;
  if magic =? LUSTRE_MSG_MAGIC_V2 then
    count ← get32 msg lm_bufcount;
    lustre_msg_size_v2 (s32 count) (buflens msg)
  else Ret 0.

(** ** Packing *)

Fixpoint init_lens (n : nat) (i : Z) (lens : list Z) (msg : list Z) : run (list Z) :=
  match n with
  | O => Ret msg
  | S n' => l ← arr lens i; msg ← put32 msg (lm_buflens i) l; init_lens n' (i + 1) lens msg
  end.

Fixpoint init_bufs (n : nat) (i ptr : Z) (lens : list Z) (bufs : list (option (list Z))) (msg : list Z) : run (list Z) :=
  match n with
  | O => Ret msg
  | S n' =>
      tmp ← arr bufs i;
      l ← arr lens i;
      msg ← match tmp with Some tmp => bs ← load tmp 0 l; store msg ptr bs | None => Ret msg end;
      init_bufs n' (i + 1) (ptr + cfs_size_round l) lens bufs msg
  end.

Definition lustre_init_msg_v2 (msg : list Z) (count : Z) (lens : list Z) (bufs : option (list (option (list Z))))
    : run (list Z) :=
  msg ← put32 msg lm_bufcount (u32 count);
  msg ← put32 msg lm_magic LUSTRE_MSG_MAGIC_V2;
  msg ← init_lens (Z.to_nat count) 0 lens msg;
  match bufs with
  | None => Ret msg
  | Some bufs => init_bufs (Z.to_nat count) 0 (lustre_msg_hdr_size_v2 (u32 count)) lens bufs msg
  end.

(** ** Buffers *)

Definition lustre_msg_buf_v2 (m : list Z) (n min_size : Z) : run (option Z) :=
  bufcount ← get32 m lm_bufcount;
  if bufcount <=? n then Ret None
  else
    buflen ← buflens m n;
    if buflen <? min_size then Ret None
    else
      offset ← size_loop (Z.to_nat n) 0 (buflens m) (lustre_msg_hdr_size_v2 bufcount);
      Ret (Some offset).

Definition lustre_msg_buf (m : list Z) (n min_size : Z) : run (option Z) :=
  magic ← get32 m lm_magic;
  if magic =? LUSTRE_MSG_MAGIC_V2 then lustre_msg_buf_v2 m n min_size else LBUG.

Definition lustre_msg_buflen_v2 (m : list Z) (n : Z) : run Z :=
  bufcount ← get32 m lm_bufcount;
  if bufcount <=? n then Ret 0 else buflens m n.

Definition lustre_msg_buflen (m : list Z) (n : Z) : run Z :=
  magic ← get32 m lm_magic;
  if magic =? LUSTRE_MSG_MAGIC_V2 then lustre_msg_buflen_v2 m n else Ret 0.

Definition lustre_msg_set_buflen_v2 (m : list Z) (n len : Z) : run (list Z) :=
  bufcount ← get32 m lm_bufcount;
  if bufcount <=? n then LBUG else put32 m (lm_buflens n) len.

Definition lustre_msg_set_buflen (m : list Z) (n len : Z) : run (list Z) :=
  magic ← get32 m lm_magic;
  if magic =? LUSTRE_MSG_MAGIC_V2 then lustre_msg_set_buflen_v2 m n len else LBUG.

Definition lustre_msg_bufcount (m : list Z) : run Z :=
  magic ← get32 m lm_magic;
  if magic =? LUSTRE_MSG_MAGIC_V2 then get32 m lm_bufcount else Ret 0.

(** The loop over the buffers behind the one that shrinks; [n] is an [int]. *)
Fixpoint tail_loop (k : nat) (n : Z) (msg : list Z) (tail_len : Z) : run Z :=
  match k with
  | O => Ret tail_len
  | S k' => l ← buflens msg (s32 n); tail_loop k' (n + 1) msg (s32 (tail_len + cfs_size_round l))
  end.

(** Where the buffers behind it are, if they are to be moved, and how long they are. *)
Definition shrink_tail (msg : list Z) (bufcount segment : Z) (move_data : bool) : run (option Z * Z) :=
  if move_data && (u32 (segment + 1) <? bufcount) then
    tail ← lustre_msg_buf_v2 msg (u32 (segment + 1)) 0;
    tail_len ← tail_loop (Z.to_nat (bufcount - u32 (segment + 1))) (u32 (segment + 1)) msg 0;
    Ret (tail, tail_len)
  else Ret (None, 0).

Definition shrink_move (msg : list Z) (segment : Z) (t : option Z * Z) : run (list Z) :=
  match t with
  | (Some tail, tail_len) =>
      if tail_len =? 0 then Ret msg
      else
        newpos ← lustre_msg_buf_v2 msg (u32 (segment + 1)) 0;
        match newpos with
        | None => LBUG
        | Some newpos =>
            lassert newpos <=? tail;
            if newpos =? tail then Ret msg
            else bs ← load msg tail tail_len; store msg newpos bs
        end
  | (None, _) => Ret msg
  end.

Definition lustre_shrink_msg_v2 (msg : list Z) (segment newlen : Z) (move_data : bool) : run (Z * list Z) :=
  bufcount ← get32 msg lm_bufcount;
  lassert segment <? bufcount;
  len ← buflens msg segment;
  lassert newlen <=? len;
  msg ← (if len =? newlen then Ret msg
         else
           t ← shrink_tail msg bufcount segment move_data;
           msg ← put32 msg (lm_buflens segment) newlen;
           shrink_move msg segment t);
  size ← lustre_msg_size_v2 (s32 bufcount) (buflens msg);
  Ret (s32 size, msg).

Definition lustre_shrink_msg (msg : list Z) (segment newlen : Z) (move_data : bool) : run (Z * list Z) :=
  magic ← get32 msg lm_magic;
  if magic =? LUSTRE_MSG_MAGIC_V2 then lustre_shrink_msg_v2 msg (u32 segment) newlen move_data else LBUG.

(** [strnlen] of the bytes of a buffer. *)
Fixpoint strnlen (s : list Z) : Z :=
  match s with [] => 0 | c :: s' => if c =? 0 then 0 else 1 + strnlen s' end.

Definition lustre_msg_string (m : list Z) (index max_len : Z) : run (option Z) :=
  magic ← get32 m lm_magic;
  if negb (magic =? LUSTRE_MSG_MAGIC_V2) then LBUG
  else
    str ← lustre_msg_buf_v2 m index 0;
    blen ← lustre_msg_buflen_v2 m index;
    match str with
    | None => Ret None
    | Some str =>
        bs ← load m str blen;
        let slen := strnlen bs in
        if slen =? blen then Ret None
        else if max_len =? 0 then (if slen =? blen - 1 then Ret (Some str) else Ret None)
        else if max_len <? slen then Ret None
        else Ret (Some str)
    end.

(** ** Unpacking *)

Fixpoint unpack_loop (n : nat) (i : Z) (swabbed : bool) (m : list Z) (required_len : Z) : run (Z * list Z) :=
  match n with
  | O => Ret (required_len, m)
  | S n' =>
      m ← (if swabbed then __swab32s m (lm_buflens i) else Ret m);
      l ← buflens m i;
      unpack_loop n' (i + 1) swabbed m (s32 (required_len + cfs_size_round l))
  end.

Definition lustre_unpack_msg_v2 (m : list Z) (len : Z) : run (Z * list Z) :=
  if len <? s32 (lustre_msg_hdr_size_v2 0) then Ret (- EINVAL, m)
  else
    magic ← get32 m lm_magic;
    let swabbed := magic =? LUSTRE_MSG_MAGIC_V2_SWABBED in
    m ← (if swabbed
         then swab_fields m 0 [(lm_magic, 4%nat); (lm_bufcount, 4%nat); (lm_secflvr, 4%nat); (lm_repsize, 4%nat);
                               (lm_cksum, 4%nat); (lm_flags, 4%nat)]
         else Ret m);
    bufcount ← get32 m lm_bufcount;
    let required_len := s32 (lustre_msg_hdr_size_v2 bufcount) in
    if len <? required_len then Ret (- EINVAL, m)
    else
      r ← unpack_loop (Z.to_nat bufcount) 0 swabbed m required_len;
      if len <? r.1 then Ret (- EINVAL, r.2) else Ret (Z.b2z swabbed, r.2).

(** The length of the fields up to [lm_magic]. *)
Definition __lustre_unpack_msg (m : list Z) (len : Z) : run (Z * list Z) :=
  if len <? lm_magic + 4 then Ret (- EINVAL, m) else lustre_unpack_msg_v2 m len.
End Host.
