(* ===== verification/PtlMsgInv.v ===== *)
(** What a message ([lustre/ptlrpc/pack_generic.c]) holds: a list of buffers.  The sizes and
    offsets the code computes, and the operations that read. *)

From stdpp Require Import list.
From S2P Require Import Prelude Memory PtlMsg.

(** ** Sizes *)

Definition round8 (n : Z) : Z := (n + 7) / 8 * 8.

Definition sum_round (lens : list Z) : Z := foldr (fun l s => round8 l + s) 0 lens.

Definition hdr_size (count : Z) : Z := round8 (lm_buflens count).

(** Where the [i]th buffer is, and where the last one ends. *)
Definition offset (lens : list Z) (i : nat) : Z := hdr_size (zlen lens) + sum_round (take i lens).
Definition msg_size (lens : list Z) : Z := hdr_size (zlen lens) + sum_round lens.

Lemma round8_bounds n : n <= round8 n <= n + 7.
Proof. unfold round8. int_lia. Qed.

Lemma round8_mono n m : n <= m -> round8 n <= round8 m.
Proof. unfold round8. int_lia. Qed.

Lemma size_round_val v : 0 <= v < 2 ^ 64 - 7 -> cfs_size_round v = round8 v.
Proof.
  intros H. unfold cfs_size_round. rewrite (wrap_small 64 (v + 7)) by (unfold in_u; lia).
  change 7 with (2 ^ 3 - 1) at 2. rewrite (land_high_mask _ 3 64) by lia. done.
Qed.

Lemma hdr_size_bounds count : 0 <= count -> 32 + 4 * count <= hdr_size count <= 39 + 4 * count.
Proof. intros H. unfold hdr_size, lm_buflens. pose proof (round8_bounds (32 + 4 * count)). lia. Qed.

Lemma hdr_size_val count : 0 <= count < 2 ^ 32 -> lustre_msg_hdr_size_v2 count = u32 (hdr_size count).
Proof. intros H. unfold lustre_msg_hdr_size_v2, hdr_size. rewrite size_round_val by (unfold lm_buflens; lia). done. Qed.

Lemma sum_round_app l1 l2 : sum_round (l1 ++ l2) = sum_round l1 + sum_round l2.
Proof. induction l1 as [|l l1 IH]; [done|]. cbn [app sum_round foldr]. fold (sum_round (l1 ++ l2)) (sum_round l1). lia. Qed.

Lemma sum_round_nonneg lens : Forall (fun l => 0 <= l) lens -> 0 <= sum_round lens.
Proof. induction 1 as [|l lens Hl _ IH]; [done|]. cbn. fold (sum_round lens). pose proof (round8_bounds l). lia. Qed.

Lemma sum_round_take lens i : Forall (fun l => 0 <= l) lens -> 0 <= sum_round (take i lens) <= sum_round lens.
Proof.
  intros H. rewrite <-(take_drop i lens) at 3. rewrite sum_round_app.
  pose proof (sum_round_nonneg _ (Forall_take _ i _ H)). pose proof (sum_round_nonneg _ (Forall_drop _ i _ H)). lia.
Qed.

Lemma sum_round_S lens i l : lens !! i = Some l -> sum_round (take (S i) lens) = sum_round (take i lens) + round8 l.
Proof. intros H. rewrite (take_S_r _ _ _ H), sum_round_app. cbn. lia. Qed.

Lemma offset_S lens i l : lens !! i = Some l -> offset lens (S i) = offset lens i + round8 l.
Proof. intros H. unfold offset. rewrite (sum_round_S _ _ _ H). lia. Qed.

Lemma offset_all lens : offset lens (length lens) = msg_size lens.
Proof. unfold offset. by rewrite firstn_all. Qed.

Lemma offset_mod lens i : offset lens i mod 8 = 0.
Proof.
  unfold offset, hdr_size. generalize (take i lens). intros ls.
  assert (H : exists k, sum_round ls = 8 * k).
  { induction ls as [|l ls [k IH]]; [by exists 0|]. cbn. fold (sum_round ls). exists ((l + 7) / 8 + k). unfold round8. lia. }
  destruct H as [k ->]. unfold round8. int_lia.
Qed.

Lemma sum_round_mono lens i j : Forall (fun l => 0 <= l) lens -> (i <= j)%nat -> sum_round (take i lens) <= sum_round (take j lens).
Proof. intros H Hij. replace (take i lens) with (take i (take j lens)) by (rewrite take_take; f_equal; lia). by apply sum_round_take, Forall_take. Qed.

Lemma offset_mono lens i j : Forall (fun l => 0 <= l) lens -> (i <= j)%nat -> offset lens i <= offset lens j.
Proof. intros H Hij. pose proof (sum_round_mono lens i j H Hij). unfold offset. lia. Qed.

Lemma offset_bounds lens i l :
  Forall (fun l => 0 <= l) lens -> lens !! i = Some l -> hdr_size (zlen lens) <= offset lens i /\ offset lens i + l <= msg_size lens.
Proof.
  intros H Hi. pose proof (offset_S _ _ _ Hi). pose proof (round8_bounds l). pose proof (sum_round_take lens i H).
  pose proof (lookup_lt_Some _ _ _ Hi). pose proof (offset_mono lens (S i) (length lens) H ltac:(lia)). rewrite offset_all in *.
  split; [unfold offset; lia|lia].
Qed.

(** A loop over lengths that are not too many adds them up. *)
Lemma size_loop_ok lens : forall i get size,
  (forall j l, lens !! j = Some l -> get (i + Z.of_nat j) = Ret l) -> Forall (fun l => 0 <= l < 2 ^ 32) lens ->
  0 <= size -> size + sum_round lens < 2 ^ 32 ->
  size_loop (length lens) i get size = Ret (size + sum_round lens).
Proof.
  induction lens as [|l lens IH]; intros i get size Hg Hf H0 Hs; cbn [length size_loop]; [cbn; f_equal; lia|].
  apply Forall_cons in Hf as [Hl Hf]. pose proof (Hg 0%nat l eq_refl) as G0. rewrite Z.add_0_r in G0. rewrite G0. cbn [mbind run_bind].
  cbn [sum_round foldr] in Hs |- *. fold (sum_round lens) in Hs |- *. pose proof (round8_bounds l).
  assert (0 <= sum_round lens) by (apply sum_round_nonneg; eapply Forall_impl; [done|]; cbn; lia).
  rewrite size_round_val, wrap_small by (unfold in_u; lia). rewrite IH; [f_equal; lia| |done|lia|lia].
  intros j x Hj. replace (i + 1 + Z.of_nat j) with (i + Z.of_nat (S j)) by lia. by apply Hg.
Qed.

(** ** Messages *)

Abbreviation lens_of bufs := (map (fun b : list Z => zlen b) bufs).

Lemma lens_nonneg (bufs : list (list Z)) : Forall (fun l => 0 <= l) (lens_of bufs).
Proof. apply Forall_map, Forall_true. intros b. cbn. lia. Qed.

Lemma lens_length (bufs : list (list Z)) : zlen (lens_of bufs) = zlen bufs.
Proof. by rewrite length_map. Qed.

(** The header of a message with these lengths. *)
Record lengths {bo : byte_order} (mem : list Z) (lens : list Z) : Prop := {
  ln_count : get32 mem lm_bufcount = Ret (zlen lens);
  ln_lens : forall i l, lens !! i = Some l -> buflens mem (Z.of_nat i) = Ret l
}.

Record header {bo : byte_order} (mem : list Z) (lens : list Z) : Prop := {
  hd_magic : get32 mem lm_magic = Ret LUSTRE_MSG_MAGIC_V2;
  hd_lengths : lengths mem lens;
  hd_bytes : Forall is_byte mem
}.

Record message {bo : byte_order} (mem : list Z) (bufs : list (list Z)) : Prop := {
  mg_header : header mem (lens_of bufs);
  mg_data : forall i b, bufs !! i = Some b -> load mem (offset (lens_of bufs) i) (zlen b) = Ret b;
  mg_fits : msg_size (lens_of bufs) <= zlen mem;
  mg_small : msg_size (lens_of bufs) < 2 ^ 31
}.

Lemma msg_size_count lens : Forall (fun l => 0 <= l) lens -> 32 + 4 * zlen lens <= msg_size lens.
Proof. intros H. pose proof (hdr_size_bounds (zlen lens) ltac:(lia)). pose proof (sum_round_nonneg lens H). unfold msg_size. lia. Qed.

Lemma lens_small lens : Forall (fun l => 0 <= l) lens -> msg_size lens < 2 ^ 32 -> Forall (fun l => 0 <= l < 2 ^ 32) lens.
Proof.
  intros H Hs. apply Forall_lookup. intros i l Hi. destruct (offset_bounds _ _ _ H Hi). pose proof (hdr_size_bounds (zlen lens) ltac:(lia)).
  rewrite Forall_lookup in H. pose proof (H _ _ Hi). lia.
Qed.

Section Reads.
Context {bo : byte_order}.

Lemma lengths_offset mem lens n :
  lengths mem lens -> Forall (fun l => 0 <= l) lens -> msg_size lens < 2 ^ 31 -> (n <= length lens)%nat ->
  size_loop n 0 (buflens mem) (lustre_msg_hdr_size_v2 (zlen lens)) = Ret (offset lens n).
Proof.
  intros Hh Hn Hs Hl. pose proof (hdr_size_bounds (zlen lens) ltac:(lia)). pose proof (msg_size_count lens Hn).
  pose proof (sum_round_take lens n Hn). unfold msg_size in Hs. rewrite hdr_size_val, wrap_small by (unfold in_u; lia).
  assert (En : n = length (take n lens)) by (rewrite length_take; lia). rewrite En at 1. apply size_loop_ok; [| |lia|lia].
  - intros j l Hj. apply lookup_take_Some in Hj as [Hj _]. by apply (ln_lens _ _ Hh).
  - apply Forall_take, lens_small; [done|unfold msg_size; lia].
Qed.

Lemma lengths_buf mem lens n min :
  lengths mem lens -> Forall (fun l => 0 <= l) lens -> msg_size lens < 2 ^ 31 -> 0 <= n ->
  lustre_msg_buf_v2 mem n min =
    Ret (match lens !! Z.to_nat n with
         | Some l => if l <? min then None else Some (offset lens (Z.to_nat n))
         | None => None
         end).
Proof.
  intros Hh Hn Hs H0. unfold lustre_msg_buf_v2. rewrite (ln_count _ _ Hh). cbn [mbind run_bind]. destruct (Z.leb_spec (zlen lens) n).
  - by rewrite lookup_ge_None_2 by lia.
  - destruct (lookup_lt_is_Some_2 lens (Z.to_nat n)) as [l Hl]; [lia|]. rewrite Hl.
    pose proof (ln_lens _ _ Hh _ _ Hl) as El. rewrite Z2Nat.id in El by done. rewrite El. cbn [mbind run_bind].
    destruct (l <? min); [done|]. rewrite lengths_offset by (done || lia). done.
Qed.

Lemma lengths_buflen mem lens n :
  lengths mem lens -> 0 <= n ->
  lustre_msg_buflen_v2 mem n = Ret (match lens !! Z.to_nat n with Some l => l | None => 0 end).
Proof.
  intros Hh H0. unfold lustre_msg_buflen_v2. rewrite (ln_count _ _ Hh). cbn [mbind run_bind]. destruct (Z.leb_spec (zlen lens) n).
  - by rewrite lookup_ge_None_2 by lia.
  - destruct (lookup_lt_is_Some_2 lens (Z.to_nat n)) as [l Hl]; [lia|]. rewrite Hl.
    pose proof (ln_lens _ _ Hh _ _ Hl) as El. by rewrite Z2Nat.id in El.
Qed.

Lemma lengths_size mem lens :
  lengths mem lens -> Forall (fun l => 0 <= l) lens -> msg_size lens < 2 ^ 31 ->
  lustre_msg_size_v2 (s32 (zlen lens)) (buflens mem) = Ret (msg_size lens).
Proof.
  intros Hh Hn Hs. pose proof (msg_size_count lens Hn). unfold lustre_msg_size_v2. rewrite swrap_small by lia.
  rewrite (wrap_small 32) by (unfold in_u; lia). rewrite Nat2Z.id, <-offset_all. by apply lengths_offset.
Qed.

Lemma magic_switch {A} mem lens (k e : run A) :
  header mem lens -> (magic ← get32 mem lm_magic; if magic =? LUSTRE_MSG_MAGIC_V2 then k else e) = k.
Proof. intros Hh. rewrite (hd_magic _ _ Hh). done. Qed.
End Reads.
