(* ===== verification/PtlMsgOps.v ===== *)
(** The operations that change a message ([lustre/ptlrpc/pack_generic.c]): packing, shrinking,
    and unpacking what another host has sent. *)

From stdpp Require Import list.
From S2P Require Import Prelude Memory PtlMsg PtlMsgInv.

(** ** Changes within a range *)

Record frame (a b : Z) (mem mem' : list Z) : Prop := {
  fr_length : length mem' = length mem;
  fr_load : forall o n, o + n <= a \/ b <= o -> load mem' o n = load mem o n;
  fr_bytes : Forall is_byte mem -> Forall is_byte mem'
}.

Lemma mem_frame_refl a b mem : frame a b mem mem.
Proof. by split. Qed.

Lemma mem_frame_trans a b mem1 mem2 mem3 : frame a b mem1 mem2 -> frame a b mem2 mem3 -> frame a b mem1 mem3.
Proof. intros [L1 F1 B1] [L2 F2 B2]. split; [congruence| |auto]. intros o n H. by rewrite F2, F1. Qed.

Lemma frame_wide a b a' b' mem mem' : frame a b mem mem' -> a' <= a -> b <= b' -> frame a' b' mem mem'.
Proof. intros [L F B] Ha Hb. split; [done| |done]. intros o n H. apply F. lia. Qed.

Lemma frame_get {bo : byte_order} a b mem mem' n o :
  frame a b mem mem' -> o + Z.of_nat n <= a \/ b <= o -> get_int n mem' o = get_int n mem o.
Proof. intros [_ F _] H. unfold get_int. by rewrite F. Qed.

Lemma store_frame mem off bs mem' : store mem off bs = Ret mem' -> Forall is_byte bs -> frame off (off + zlen bs) mem mem'.
Proof.
  intros H Hb. split; [by eapply store_length| |intros; by eapply store_bytes]. intros o n Hd. by eapply load_store_other.
Qed.

Lemma put_frame {bo : byte_order} n mem off x mem' : put_int n mem off x = Ret mem' -> frame off (off + Z.of_nat n) mem mem'.
Proof. intros H. rewrite <-(length_host n x). apply store_frame; [done|apply host_is_byte]. Qed.

Section Host.
Context {bo : byte_order}.

Lemma header_frame mem lens a b mem' : header mem lens -> frame a b mem mem' -> hdr_size (zlen lens) <= a -> header mem' lens.
Proof.
  intros [H1 [H2 H3] H4] Hf Ha. pose proof (hdr_size_bounds (zlen lens) ltac:(lia)). unfold get32, buflens, get32, lm_magic, lm_bufcount, lm_buflens in *.
  split; [|split|]; unfold get32, buflens, get32, lm_magic, lm_bufcount, lm_buflens.
  - by rewrite (frame_get _ _ _ _ _ _ Hf) by lia.
  - by rewrite (frame_get _ _ _ _ _ _ Hf) by lia.
  - intros i l Hi. pose proof (lookup_lt_Some _ _ _ Hi). rewrite (frame_get _ _ _ _ _ _ Hf) by lia. by apply H3.
  - by apply (fr_bytes _ _ _ _ Hf).
Qed.

(** Setting a length. *)
Lemma header_set_len mem lens i len :
  header mem lens -> (i < length lens)%nat -> 0 <= len < 2 ^ 32 -> hdr_size (zlen lens) <= zlen mem ->
  exists mem', put32 mem (lm_buflens (Z.of_nat i)) len = Ret mem' /\ header mem' (<[i:=len]> lens)
    /\ frame (lm_buflens (Z.of_nat i)) (lm_buflens (Z.of_nat i) + 4) mem mem'.
Proof.
  intros [H1 [H2 H3] H4] Hi Hl Hm. pose proof (hdr_size_bounds (zlen lens) ltac:(lia)).
  destruct (put_Ret 4 mem (lm_buflens (Z.of_nat i)) len) as [mem' E]; [unfold lm_buflens; lia..|].
  pose proof (put_frame _ _ _ _ _ E) as Hf. exists mem'. split_and!; [done| |done].
  unfold get32, buflens, get32, lm_magic, lm_bufcount in *. split; [|split|]; unfold get32, buflens, get32, lm_magic, lm_bufcount.
  - rewrite (frame_get _ _ _ _ _ _ Hf); [done|]. unfold lm_buflens. lia.
  - rewrite (frame_get _ _ _ _ _ _ Hf); [by rewrite length_insert|]. unfold lm_buflens. lia.
  - intros j l Hj. destruct (decide (j = i)) as [->|Hne].
    + rewrite list_lookup_insert_eq in Hj by done. injection Hj as <-. by eapply get_put_same.
    + rewrite list_lookup_insert_ne in Hj by done. rewrite (frame_get _ _ _ _ _ _ Hf); [by apply H3|]. unfold lm_buflens. lia.
  - by apply (fr_bytes _ _ _ _ Hf).
Qed.

(** The buffers a header tells of. *)
Definition read_bufs (mem lens : list Z) : list (list Z) :=
  imap (fun i l => take (Z.to_nat l) (drop (Z.to_nat (offset lens i)) mem)) lens.

Lemma read_bufs_lookup mem lens i l :
  Forall (fun l => 0 <= l) lens -> msg_size lens <= zlen mem -> lens !! i = Some l ->
  exists b, read_bufs mem lens !! i = Some b /\ load mem (offset lens i) l = Ret b /\ zlen b = l.
Proof.
  intros Hn Hs Hi. unfold read_bufs. rewrite list_lookup_imap, Hi. cbn. pose proof (offset_bounds _ _ _ Hn Hi).
  pose proof (hdr_size_bounds (zlen lens) ltac:(lia)). rewrite Forall_lookup in Hn. pose proof (Hn _ _ Hi).
  eexists. split_and!; [done|by apply load_Ret; lia|]. rewrite length_take, length_drop. lia.
Qed.

Lemma read_bufs_lens mem lens : Forall (fun l => 0 <= l) lens -> msg_size lens <= zlen mem -> lens_of (read_bufs mem lens) = lens.
Proof.
  intros Hn Hs. apply list_eq. intros i. rewrite list_lookup_fmap. destruct (lens !! i) as [l|] eqn:Hi.
  - destruct (read_bufs_lookup mem lens i l Hn Hs Hi) as (b & -> & _ & <-). done.
  - rewrite lookup_ge_None_2; [done|]. unfold read_bufs. rewrite length_imap. by apply lookup_ge_None_1.
Qed.

Lemma message_of_header mem lens :
  header mem lens -> Forall (fun l => 0 <= l) lens -> msg_size lens <= zlen mem -> msg_size lens < 2 ^ 31 ->
  message mem (read_bufs mem lens).
Proof.
  intros Hh Hn Hs Hb. pose proof (read_bufs_lens mem lens Hn Hs) as El. split; rewrite ?El; [done| |done|done].
  intros i b Hi. destruct (lens !! i) as [l|] eqn:Hl.
  - destruct (read_bufs_lookup mem lens i l Hn Hs Hl) as (b' & Hb' & E & <-). by simplify_eq.
  - apply lookup_ge_None_1 in Hl. apply lookup_lt_Some in Hi. unfold read_bufs in Hi. rewrite length_imap in Hi. lia.
Qed.

Lemma lens_lookup (bufs : list (list Z)) i b : bufs !! i = Some b -> lens_of bufs !! i = Some (zlen b).
Proof. intros H. by rewrite list_lookup_fmap, H. Qed.

(** A message whose buffers are known is told by its loads. *)
Lemma message_bytes mem bufs i b : message mem bufs -> bufs !! i = Some b -> Forall is_byte b.
Proof. intros Hm Hi. eapply load_bytes; [by apply (mg_data _ _ Hm)|apply (hd_bytes _ _ (mg_header _ _ Hm))]. Qed.

(** ** Writing into a buffer *)

(** A change within one buffer. *)
Lemma message_frame mem mem' bufs n b b' a e :
  message mem bufs -> bufs !! n = Some b -> frame a e mem mem' -> offset (lens_of bufs) n <= a -> e <= offset (lens_of bufs) n + zlen b ->
  load mem' (offset (lens_of bufs) n) (zlen b) = Ret b' -> message mem' (<[n:=b']> bufs).
Proof.
  intros [Hh Hd Hf Hsm] Hn Hfr Ha He El. assert (Hlb : length b' = length b) by (apply load_inv in El as (_ & _ & ? & _); lia).
  pose proof (lens_lookup _ _ _ Hn) as Hln. pose proof (offset_bounds _ _ _ (lens_nonneg bufs) Hln) as [B1 B2].
  assert (Hlens : lens_of (<[n:=b']> bufs) = lens_of bufs).
  { apply list_eq. intros i. rewrite !list_lookup_fmap. destruct (decide (i = n)) as [->|].
    - rewrite list_lookup_insert_eq by (by eapply lookup_lt_Some). rewrite Hn. cbn. by rewrite Hlb.
    - by rewrite list_lookup_insert_ne. }
  split; rewrite ?Hlens; [apply (header_frame _ _ _ _ _ Hh Hfr); lia| |by rewrite (fr_length _ _ _ _ Hfr)|done].
  intros i x Hi. destruct (decide (i = n)) as [->|Hne].
  - rewrite list_lookup_insert_eq in Hi by (by eapply lookup_lt_Some). injection Hi as <-. by rewrite Hlb.
  - rewrite list_lookup_insert_ne in Hi by done. rewrite (fr_load _ _ _ _ Hfr); [by apply Hd|].
    pose proof (lens_lookup _ _ _ Hi) as Hli. pose proof (offset_S _ _ _ Hli). pose proof (offset_S _ _ _ Hln).
    pose proof (round8_bounds (zlen b)). pose proof (round8_bounds (zlen x)). destruct (decide (i < n)%nat).
    + pose proof (offset_mono (lens_of bufs) (S i) n (lens_nonneg bufs) ltac:(lia)). lia.
    + pose proof (offset_mono (lens_of bufs) (S n) i (lens_nonneg bufs) ltac:(lia)). lia.
Qed.

Lemma message_write mem bufs n b o cs b' :
  message mem bufs -> bufs !! n = Some b -> store b o cs = Ret b' -> Forall is_byte cs ->
  exists mem', store mem (offset (lens_of bufs) n + o) cs = Ret mem' /\ message mem' (<[n:=b']> bufs).
Proof.
  intros Hm Hn Hs Hc. destruct (store_sub _ _ _ _ _ _ _ (mg_data _ _ Hm _ _ Hn) Hs) as (mem' & E & El). exists mem'. split; [done|].
  apply store_inv in Hs as (S1 & S2 & _). eapply message_frame; [done|done|by apply store_frame|lia|lia|done].
Qed.

(** ** Packing *)

Lemma arr_lookup {A} (l : list A) i x : l !! i = Some x -> arr l (Z.of_nat i) = Ret x.
Proof. intros H. unfold arr. rewrite (proj2 (Z.ltb_ge _ 0)) by lia. by rewrite Nat2Z.id, H. Qed.

Lemma init_lens_ok ls : forall pre mem,
  Forall (fun l => 0 <= l < 2 ^ 32) ls -> lm_buflens (zlen (pre ++ ls)) <= zlen mem ->
  exists mem', init_lens (length ls) (zlen pre) (pre ++ ls) mem = Ret mem'
    /\ (forall j l, ls !! j = Some l -> buflens mem' (zlen pre + Z.of_nat j) = Ret l)
    /\ frame (lm_buflens (zlen pre)) (lm_buflens (zlen (pre ++ ls))) mem mem'.
Proof.
  induction ls as [|l ls IH]; intros pre mem Hf Hm; cbn [length init_lens].
  { exists mem. split_and!; [done|done|apply mem_frame_refl]. }
  apply Forall_cons in Hf as [Hl Hf]. rewrite (arr_lookup _ _ l) by (by rewrite lookup_app_r, Nat.sub_diag). cbn [mbind run_bind].
  rewrite length_app in Hm. cbn [length] in Hm. unfold lm_buflens in Hm.
  destruct (put_Ret 4 mem (lm_buflens (zlen pre)) l) as [mem1 E1]; [unfold lm_buflens; lia..|]. unfold put32. rewrite E1. cbn [mbind run_bind].
  pose proof (put_frame _ _ _ _ _ E1) as F1. destruct (IH (pre ++ [l]) mem1 Hf) as (mem' & E & Hg & F).
  { rewrite (fr_length _ _ _ _ F1), !length_app. cbn [length]. unfold lm_buflens. lia. }
  rewrite zlen_snoc, <-app_assoc in E, F. rewrite zlen_snoc in Hg. cbn [app] in E, F. rewrite E.
  exists mem'. split_and!; [done| |].
  - intros [|j] x Hj.
    + injection Hj as <-. unfold buflens, get32. rewrite (frame_get _ _ _ _ _ _ F) by (unfold lm_buflens; lia).
      rewrite Z.add_0_r. by eapply get_put_same.
    + rewrite <-(Hg j x Hj). f_equal. lia.
  - eapply mem_frame_trans; eapply frame_wide; [exact F1| | |exact F| |]; rewrite ?length_app; cbn [length]; unfold lm_buflens; lia.
Qed.

(** A source that is given has as many bytes as are copied. *)
Definition source_ok (len : Z) (src : option (list Z)) : Prop :=
  match src with Some tmp => len <= zlen tmp /\ Forall is_byte tmp | None => True end.

Lemma init_bufs_ok ls : forall pre srcs ss ptr mem,
  Forall (fun l => 0 <= l < 2 ^ 32) ls -> Forall2 source_ok ls ss -> length pre = length srcs ->
  0 <= ptr -> ptr + sum_round ls <= zlen mem ->
  exists mem', init_bufs (length ls) (zlen pre) ptr (pre ++ ls) (srcs ++ ss) mem = Ret mem'
    /\ (forall j l tmp, ls !! j = Some l -> ss !! j = Some (Some tmp) ->
         load mem' (ptr + sum_round (take j ls)) l = Ret (take (Z.to_nat l) tmp))
    /\ frame ptr (ptr + sum_round ls) mem mem'.
Proof.
  induction ls as [|l ls IH]; intros pre srcs ss ptr mem Hf Hss Hps Hp Hm; cbn [length init_bufs].
  { exists mem. split_and!; [done|done|apply mem_frame_refl]. }
  apply Forall_cons in Hf as [Hl Hf]. apply Forall2_cons_inv_l in Hss as (src & ss' & Hsrc & Hss & ->).
  rewrite (arr_lookup (srcs ++ _) _ src) by (by rewrite Hps, lookup_app_r, Nat.sub_diag).
  cbn [mbind run_bind]. rewrite (arr_lookup _ _ l) by (by rewrite lookup_app_r, Nat.sub_diag). cbn [mbind run_bind].
  cbn [sum_round foldr] in Hm |- *. fold (sum_round ls) in Hm |- *. pose proof (round8_bounds l).
  assert (0 <= sum_round ls) by (apply sum_round_nonneg; eapply Forall_impl; [done|]; cbn; lia).
  rewrite size_round_val by lia.
  assert (exists mem1, match src with Some tmp => bs ← load tmp 0 l; store mem ptr bs | None => Ret mem end = Ret mem1
    /\ (forall tmp, src = Some tmp -> load mem1 ptr l = Ret (take (Z.to_nat l) tmp)) /\ frame ptr (ptr + l) mem mem1) as (mem1 & -> & H1 & F1).
  { destruct src as [tmp|]; [|exists mem; split_and!; [done|done|apply mem_frame_refl]]. destruct Hsrc as [Ht Hb].
    rewrite load_Ret by lia. cbn [mbind run_bind]. change (drop (Z.to_nat 0) tmp) with tmp.
    assert (Lt : zlen (take (Z.to_nat l) tmp) = l) by (rewrite length_take; lia).
    destruct (store_Ret mem ptr (take (Z.to_nat l) tmp)) as [mem1 E1]; [lia..|]. exists mem1. split_and!; [done| |].
    - intros ? [= <-]. apply load_store_same in E1. by rewrite Lt in E1.
    - rewrite <-Lt at 1. apply store_frame; [done|by apply Forall_take]. }
  cbn [mbind run_bind]. destruct (IH (pre ++ [l]) (srcs ++ [src]) ss' (ptr + round8 l) mem1 Hf Hss) as (mem' & E & Hg & F).
  { rewrite !length_app. cbn. lia. }
  { lia. }
  { rewrite (fr_length _ _ _ _ F1). lia. }
  rewrite zlen_snoc, <-!app_assoc in E. cbn [app] in E. rewrite E.
  exists mem'. split_and!; [done| |eapply mem_frame_trans; eapply frame_wide; [exact F1| | |exact F| |]; lia].
  intros [|j] x tmp Hj Hs; cbn in Hj, Hs.
  - simplify_eq. cbn. rewrite Z.add_0_r, (fr_load _ _ _ _ F) by lia. by apply H1.
  - cbn [take sum_round foldr]. fold (sum_round (take j ls)). rewrite Z.add_assoc. by apply Hg.
Qed.

Definition sources_ok (lens : list Z) (bufs : option (list (option (list Z)))) : Prop :=
  match bufs with Some ss => Forall2 source_ok lens ss | None => True end.

(** A message with the lengths, and with the bytes of the sources that are given. *)
Definition packed (lens : list Z) (bufs : option (list (option (list Z)))) (bs : list (list Z)) : Prop :=
  lens_of bs = lens
  /\ forall ss i l tmp, bufs = Some ss -> lens !! i = Some l -> ss !! i = Some (Some tmp) -> bs !! i = Some (take (Z.to_nat l) tmp).

Lemma init_header room lens :
  Forall (fun l => 0 <= l < 2 ^ 32) lens -> zlen lens < 2 ^ 32 -> hdr_size (zlen lens) <= zlen room -> Forall is_byte room ->
  exists mem, (msg ← put32 room lm_bufcount (u32 (zlen lens)); msg ← put32 msg lm_magic LUSTRE_MSG_MAGIC_V2;
               init_lens (Z.to_nat (zlen lens)) 0 lens msg) = Ret mem
    /\ header mem lens /\ length mem = length room.
Proof.
  intros Hl Hn Hr Hb. pose proof (hdr_size_bounds (zlen lens) ltac:(lia)). rewrite (wrap_small 32) by (unfold in_u; lia).
  destruct (put_Ret 4 room lm_bufcount (zlen lens)) as [m1 E1]; [unfold lm_bufcount; lia..|]. pose proof (put_frame _ _ _ _ _ E1) as F1.
  destruct (put_Ret 4 m1 lm_magic LUSTRE_MSG_MAGIC_V2) as [m2 E2]; [|rewrite (fr_length _ _ _ _ F1)|]; [unfold lm_magic; lia..|].
  pose proof (put_frame _ _ _ _ _ E2) as F2. destruct (init_lens_ok lens [] m2 Hl) as (m3 & E3 & Hg & F3).
  { rewrite (fr_length _ _ _ _ F2), (fr_length _ _ _ _ F1). cbn [app]. unfold lm_buflens. lia. }
  unfold put32. rewrite E1. cbn [mbind run_bind]. rewrite E2. cbn [mbind run_bind]. rewrite Nat2Z.id. cbn [app length] in E3, Hg, F3. change (Z.of_nat 0) with 0 in E3, Hg, F3. rewrite E3.
  exists m3. split_and!; [done| |by rewrite (fr_length _ _ _ _ F3), (fr_length _ _ _ _ F2), (fr_length _ _ _ _ F1)].
  unfold lm_buflens, lm_magic, lm_bufcount in *. split; [|split|]; unfold get32, lm_magic, lm_bufcount.
  - rewrite (frame_get _ _ _ _ _ _ F3) by lia. by eapply get_put_same.
  - rewrite (frame_get _ _ _ _ _ _ F3), (frame_get _ _ _ _ _ _ F2) by lia. eapply get_put_same; [done|]. cbn. lia.
  - exact Hg.
  - by apply (fr_bytes _ _ _ _ F3), (fr_bytes _ _ _ _ F2), (fr_bytes _ _ _ _ F1).
Qed.

Lemma init_ok room lens bufs :
  Forall (fun l => 0 <= l) lens -> msg_size lens < 2 ^ 31 -> msg_size lens <= zlen room -> Forall is_byte room -> sources_ok lens bufs ->
  exists mem bs, lustre_init_msg_v2 room (zlen lens) lens bufs = Ret mem /\ message mem bs /\ packed lens bufs bs /\ length mem = length room.
Proof.
  intros Hn Hs Hr Hb Hss. pose proof (msg_size_count lens Hn). pose proof (hdr_size_bounds (zlen lens) ltac:(lia)).
  pose proof (sum_round_nonneg lens Hn). pose proof (lens_small lens Hn ltac:(lia)) as Hl. pose proof Hs as Hs'. pose proof Hr as Hr'. unfold msg_size in Hs', Hr'.
  destruct (init_header room lens Hl ltac:(lia) ltac:(lia) Hb) as (m1 & E1 & Hh & L1).
  assert (exists mem, lustre_init_msg_v2 room (zlen lens) lens bufs = Ret mem /\ header mem lens /\ length mem = length room
    /\ forall ss i l tmp, bufs = Some ss -> lens !! i = Some l -> ss !! i = Some (Some tmp) ->
         load mem (offset lens i) l = Ret (take (Z.to_nat l) tmp)) as (mem & E & Hh' & Lm & Hd).
  { unfold lustre_init_msg_v2. destruct (put32 room lm_bufcount _) as [m2|]; [|done]. cbn [mbind run_bind] in E1 |- *.
    destruct (put32 m2 _ _) as [m3|]; [|done]. cbn [mbind run_bind] in E1 |- *. rewrite E1. cbn [mbind run_bind].
    destruct bufs as [ss|]; [|by exists m1]. rewrite Nat2Z.id, (wrap_small 32), hdr_size_val, wrap_small by (unfold in_u; lia).
    destruct (init_bufs_ok lens [] [] ss (hdr_size (zlen lens)) m1 Hl Hss eq_refl) as (mem & E & Hd & F); [lia|rewrite L1; lia|].
    exists mem. split_and!; [exact E|by eapply header_frame|by rewrite (fr_length _ _ _ _ F)|].
    intros ? i l tmp [= <-] Hi Ht. by apply Hd. }
  exists mem, (read_bufs mem lens). rewrite <-Lm in Hr. split_and!; [done|by apply message_of_header| |done]. split; [by apply read_bufs_lens|].
  intros ss i l tmp Hb' Hi Ht. destruct (read_bufs_lookup mem lens i l Hn Hr Hi) as (b & -> & E' & _).
  rewrite (Hd _ _ _ _ Hb' Hi Ht) in E'. by injection E' as <-.
Qed.

(** ** Shrinking *)

(** The buffer is cut; the buffers behind it have the bytes they had if they are moved, or
    if there is no need to. *)
Definition shrunk (seg : nat) (newlen : Z) (move_data : bool) (bufs bufs' : list (list Z)) : Prop :=
  length bufs' = length bufs
  /\ exists b, bufs !! seg = Some b /\ bufs' !! seg = Some (take (Z.to_nat newlen) b)
  /\ (forall i, (i < seg)%nat -> bufs' !! i = bufs !! i)
  /\ forall i x, (seg < i)%nat -> bufs !! i = Some x ->
       exists x', bufs' !! i = Some x' /\ length x' = length x /\ (move_data = true \/ round8 newlen = round8 (zlen b) -> x' = x).

Lemma sum_round_insert lens s l n : lens !! s = Some l -> sum_round (<[s:=n]> lens) = sum_round lens - round8 l + round8 n.
Proof.
  revert s. induction lens as [|x lens IH]; intros [|s] H; try done.
  - injection H as ->. cbn. fold (sum_round lens). lia.
  - change (<[S s:=n]> (x :: lens)) with (x :: <[s:=n]> lens). cbn [sum_round foldr]. fold (sum_round (<[s:=n]> lens)) (sum_round lens).
    rewrite (IH s H). lia.
Qed.

Lemma offset_insert lens s l n i :
  lens !! s = Some l -> offset (<[s:=n]> lens) i = if decide (i <= s)%nat then offset lens i else offset lens i - round8 l + round8 n.
Proof.
  intros Hs. unfold offset. rewrite length_insert. case_decide.
  - by rewrite take_insert_ge.
  - rewrite take_insert_lt, (sum_round_insert _ _ l) by (rewrite ?lookup_take_lt by lia; done || lia). lia.
Qed.

Lemma msg_size_insert lens s l n : lens !! s = Some l -> msg_size (<[s:=n]> lens) = msg_size lens - round8 l + round8 n.
Proof. intros Hs. unfold msg_size. rewrite length_insert, (sum_round_insert _ _ _ _ Hs). lia. Qed.

Lemma tail_loop_ok msg lens ls : forall i acc,
  header msg lens -> (forall j l, ls !! j = Some l -> lens !! (i + j)%nat = Some l) -> Forall (fun l => 0 <= l) ls ->
  0 <= acc -> acc + sum_round ls < 2 ^ 31 -> zlen lens < 2 ^ 31 ->
  tail_loop (length ls) (Z.of_nat i) msg acc = Ret (acc + sum_round ls).
Proof.
  induction ls as [|l ls IH]; intros i acc Hh Hg Hf H0 Hs Hb; cbn [length tail_loop]; [cbn; f_equal; lia|].
  apply Forall_cons in Hf as [Hl Hf]. pose proof (Hg 0%nat l eq_refl) as G0. rewrite Nat.add_0_r in G0.
  pose proof (lookup_lt_Some _ _ _ G0). rewrite swrap_small by lia. rewrite (ln_lens _ _ (hd_lengths _ _ Hh) _ _ G0). cbn [mbind run_bind].
  cbn [sum_round foldr] in Hs |- *. fold (sum_round ls) in Hs |- *. pose proof (round8_bounds l). pose proof (sum_round_nonneg ls Hf).
  rewrite size_round_val, swrap_small by lia. replace (Z.of_nat i + 1) with (Z.of_nat (S i)) by lia.
  rewrite IH; [f_equal; lia|done| |done|lia|lia|done]. intros j x Hj. replace (S i + j)%nat with (i + S j)%nat by lia. by apply Hg.
Qed.

(** What is left to show of a change of the memory. *)
Lemma shrunk_message mem mem' bufs seg newlen move b (lens := lens_of bufs) :
  message mem bufs -> bufs !! seg = Some b -> 0 <= newlen <= zlen b -> header mem' (<[seg:=newlen]> lens) -> length mem' = length mem ->
  (forall o n, hdr_size (zlen lens) <= o -> o + n <= offset lens seg + newlen -> load mem' o n = load mem o n) ->
  (forall i x, (seg < i)%nat -> bufs !! i = Some x -> move = true \/ round8 newlen = round8 (zlen b) ->
     load mem' (offset (<[seg:=newlen]> lens) i) (zlen x) = load mem (offset lens i) (zlen x)) ->
  exists bufs', message mem' bufs' /\ shrunk seg newlen move bufs bufs' /\ lens_of bufs' = <[seg:=newlen]> lens.
Proof.
  intros Hm Hb Hn Hh Hl Hlow Hhigh. pose proof (lens_lookup _ _ _ Hb) as Hlb. fold lens in Hlb. pose proof (lookup_lt_Some _ _ _ Hlb) as Hlt.
  set (lens' := <[seg:=newlen]> lens) in *. pose proof (round8_mono newlen (zlen b) ltac:(lia)).
  assert (Hn' : Forall (fun l => 0 <= l) lens') by (apply Forall_insert; [apply lens_nonneg|lia]).
  pose proof Hm as [_ Hd Hf Hs]. fold lens in Hd, Hf, Hs.
  assert (Hsz : msg_size lens' = msg_size lens - round8 (zlen b) + round8 newlen) by (by apply msg_size_insert).
  assert (Hfit : msg_size lens' <= zlen mem') by (rewrite Hl; lia).
  exists (read_bufs mem' lens'). split_and!; [apply message_of_header; done || lia| |by apply read_bufs_lens].
  split. { unfold read_bufs. rewrite length_imap. unfold lens', lens. by rewrite length_insert, length_map. }
  exists b. split_and!; [done| | |].
  - destruct (read_bufs_lookup mem' lens' seg newlen Hn' Hfit) as (x & -> & E & _); [by apply list_lookup_insert_eq|].
    unfold lens' in E. rewrite (offset_insert _ _ _ _ _ Hlb), decide_True in E by lia.
    pose proof (offset_bounds lens seg _ (lens_nonneg bufs) Hlb). rewrite Hlow in E by lia.
    pose proof (load_sub _ _ _ _ 0 newlen (Hd _ _ Hb) ltac:(lia) ltac:(lia)) as E0. rewrite Z.add_0_r, E in E0.
    rewrite load_Ret in E0 by lia. injection E0 as ->. done.
  - intros i Hi. destruct (lookup_lt_is_Some_2 bufs i) as [x Hx]; [apply lookup_lt_Some in Hb; lia|]. pose proof (lens_lookup _ _ _ Hx) as Hlx. fold lens in Hlx.
    destruct (read_bufs_lookup mem' lens' i (zlen x) Hn' Hfit) as (x' & -> & E & _); [unfold lens'; by rewrite list_lookup_insert_ne by lia|].
    unfold lens' in E. rewrite (offset_insert _ _ _ _ _ Hlb), decide_True in E by lia. pose proof (offset_bounds lens i _ (lens_nonneg bufs) Hlx).
    pose proof (offset_S _ _ _ Hlx). pose proof (round8_bounds (zlen x)). pose proof (offset_mono lens (S i) seg (lens_nonneg bufs) ltac:(lia)).
    rewrite Hlow, (Hd _ _ Hx) in E by lia. injection E as <-. done.
  - intros i x Hi Hx. pose proof (lens_lookup _ _ _ Hx) as Hlx. fold lens in Hlx.
    destruct (read_bufs_lookup mem' lens' i (zlen x) Hn' Hfit) as (x' & -> & E & Lx); [unfold lens'; by rewrite list_lookup_insert_ne by lia|].
    exists x'. split_and!; [done|lia|]. intros Hmv. rewrite (Hhigh _ _ Hi Hx Hmv), (Hd _ _ Hx) in E. by injection E as <-.
Qed.

(** The bytes behind the buffer, moved by the difference of the rounded lengths. *)
Lemma move_tail mem m1 bufs seg newlen b (lens := lens_of bufs) (tail := offset lens (S seg)) (newpos := offset (<[seg:=newlen]> lens) (S seg)) :
  message mem bufs -> bufs !! seg = Some b -> 0 <= newlen <= zlen b ->
  header m1 (<[seg:=newlen]> lens) -> frame (lm_buflens (Z.of_nat seg)) (lm_buflens (Z.of_nat seg) + 4) mem m1 ->
  exists bs mem', load m1 tail (sum_round (drop (S seg) lens)) = Ret bs /\ store m1 newpos bs = Ret mem'
    /\ header mem' (<[seg:=newlen]> lens) /\ length mem' = length mem
    /\ (forall o n, hdr_size (zlen lens) <= o -> o + n <= newpos -> load mem' o n = load mem o n)
    /\ (forall i x, (seg < i)%nat -> bufs !! i = Some x ->
         load mem' (offset (<[seg:=newlen]> lens) i) (zlen x) = load mem (offset lens i) (zlen x)).
Proof.
  intros Hm Hb Hn Hh F1. pose proof (lens_lookup _ _ _ Hb) as Hlb. fold lens in Hlb. pose proof (lookup_lt_Some _ _ _ Hlb) as Hlt.
  pose proof (lens_nonneg bufs) as Hnn. fold lens in Hnn. pose proof (round8_mono newlen (zlen b) ltac:(lia)). pose proof (round8_bounds newlen).
  pose proof (hdr_size_bounds (zlen lens) ltac:(lia)). pose proof (offset_S _ _ _ Hlb) as HS. fold tail in HS.
  pose proof (offset_bounds lens seg _ Hnn Hlb) as [Hlo _].
  assert (Hnp : newpos = offset lens seg + round8 newlen).
  { unfold newpos. rewrite (offset_insert _ _ _ _ _ Hlb), decide_False by lia. fold tail. lia. }
  set (T := sum_round (drop (S seg) lens)). assert (HT : tail + T = msg_size lens).
  { unfold tail, T, offset, msg_size. rewrite <-Z.add_assoc, <-sum_round_app, take_drop. done. }
  assert (0 <= T) by (by apply sum_round_nonneg, Forall_drop). pose proof (mg_fits _ _ Hm) as Hf. fold lens in Hf.
  assert (Hup : forall o n, hdr_size (zlen lens) <= o -> load m1 o n = load mem o n).
  { intros o n Ho. apply (fr_load _ _ _ _ F1). unfold lm_buflens. lia. }
  destruct (load_bound m1 tail T) as (bs & Ebs & Lbs); [lia|done|rewrite (fr_length _ _ _ _ F1); lia|].
  destruct (store_Ret m1 newpos bs) as [mem' E]; [lia|rewrite (fr_length _ _ _ _ F1); lia|].
  assert (F2 : frame newpos (newpos + zlen bs) m1 mem') by (apply store_frame; [done|]; eapply load_bytes; [exact Ebs|apply (hd_bytes _ _ Hh)]).
  exists bs, mem'. split_and!; [done|done| |by rewrite (fr_length _ _ _ _ F2), (fr_length _ _ _ _ F1)| |].
  - apply (header_frame _ _ _ _ _ Hh F2). rewrite length_insert. lia.
  - intros o n Ho Hon. rewrite (fr_load _ _ _ _ F2) by lia. by apply Hup.
  - intros i x Hi Hx. pose proof (lens_lookup _ _ _ Hx) as Hlx. fold lens in Hlx. pose proof (offset_bounds lens i _ Hnn Hlx) as [_ Hhi].
    pose proof (offset_mono lens (S seg) i Hnn ltac:(lia)) as Hge. fold tail in Hge.
    rewrite (offset_insert _ _ _ _ _ Hlb), decide_False by lia. set (d := offset lens i - tail).
    replace (offset lens i - round8 (zlen b) + round8 newlen) with (newpos + d) by (unfold d; lia).
    pose proof (load_store_same _ _ _ _ E) as El. rewrite (load_sub _ _ _ _ d (zlen x) El) by (unfold d; lia).
    rewrite <-(load_sub _ _ _ _ d (zlen x) Ebs) by (unfold d; lia). rewrite Hup by (unfold d; lia). f_equal. unfold d. lia.
Qed.

Lemma sum_round_zero ls l : Forall (fun l => 0 <= l) ls -> sum_round ls = 0 -> l ∈ ls -> l = 0.
Proof.
  induction 1 as [|x ls Hx Hls IH]; [intros _ H; by apply not_elem_of_nil in H|]. cbn. fold (sum_round ls). pose proof (round8_bounds x).
  pose proof (sum_round_nonneg ls Hls). intros Hz [->|Hin]%elem_of_cons; [lia|]. apply IH; [lia|done].
Qed.

(** The last length and the memory behind the header that a buffer cut short may rely on. *)
Definition cut_ok (mem mem' : list Z) (bufs : list (list Z)) (seg : nat) (newlen : Z) (move : bool) (b : list Z) : Prop :=
  header mem' (<[seg:=newlen]> (lens_of bufs)) /\ length mem' = length mem
  /\ (forall o n, hdr_size (zlen (lens_of bufs)) <= o -> o + n <= offset (lens_of bufs) seg + newlen -> load mem' o n = load mem o n)
  /\ (forall i x, (seg < i)%nat -> bufs !! i = Some x -> move = true \/ round8 newlen = round8 (zlen b) ->
       load mem' (offset (<[seg:=newlen]> (lens_of bufs)) i) (zlen x) = load mem (offset (lens_of bufs) i) (zlen x)).

Section Shrink.
Context (mem : list Z) (bufs : list (list Z)) (seg : nat) (newlen : Z) (b : list Z).
Let lens := lens_of bufs.
Context (Hm : message mem bufs) (Hb : bufs !! seg = Some b) (Hn : 0 <= newlen <= zlen b).

Lemma shrink_facts :
  lens !! seg = Some (zlen b) /\ (seg < length lens)%nat /\ 32 + 4 * zlen lens <= hdr_size (zlen lens) <= offset lens seg
  /\ offset lens (S seg) = offset lens seg + round8 (zlen b) /\ offset lens (S seg) + sum_round (drop (S seg) lens) = msg_size lens
  /\ 0 <= sum_round (drop (S seg) lens) /\ msg_size lens <= zlen mem /\ msg_size lens < 2 ^ 31
  /\ newlen <= round8 newlen <= round8 (zlen b) /\ zlen b <= round8 (zlen b).
Proof.
  pose proof (lens_lookup _ _ _ Hb) as Hlb. fold lens in Hlb. pose proof (lens_nonneg bufs) as Hnn. fold lens in Hnn.
  pose proof (hdr_size_bounds (zlen lens) ltac:(lia)). pose proof (offset_bounds lens seg _ Hnn Hlb). pose proof (lookup_lt_Some _ _ _ Hlb).
  split_and!; try done; try lia; try apply round8_bounds; try apply Hm; [by apply offset_S| | |apply round8_mono; lia].
  - unfold offset, msg_size. by rewrite <-Z.add_assoc, <-sum_round_app, take_drop.
  - by apply sum_round_nonneg, Forall_drop.
Qed.

Context (m1 : list Z) (Hh1 : header m1 (<[seg:=newlen]> lens))
  (F1 : frame (lm_buflens (Z.of_nat seg)) (lm_buflens (Z.of_nat seg) + 4) mem m1).

Lemma set_len_above o n : hdr_size (zlen lens) <= o -> load m1 o n = load mem o n.
Proof. pose proof shrink_facts as (_ & ? & ? & _). intros Ho. apply (fr_load _ _ _ _ F1). unfold lm_buflens. lia. Qed.

(** Nothing is moved. *)
Lemma cut_stays move :
  (forall i x, (seg < i)%nat -> bufs !! i = Some x -> move = true -> zlen x = 0 \/ round8 newlen = round8 (zlen b)) ->
  cut_ok mem m1 bufs seg newlen move b.
Proof.
  intros Hz. pose proof shrink_facts as (Hlb & Hlt & Hh & HS & HT & HT0 & Hf & Hs & Hr & Hrb). fold lens. split_and!; [done|apply F1| |].
  - intros o n Ho _. by apply set_len_above.
  - intros i x Hi Hx Hmv. pose proof (offset_bounds lens i _ (lens_nonneg bufs) (lens_lookup _ _ _ Hx)) as Hox.
    pose proof (offset_mono lens (S seg) i (lens_nonneg bufs) ltac:(lia)). fold lens. rewrite (offset_insert _ _ _ _ _ Hlb), decide_False by lia.
    rewrite set_len_above by lia. assert (zlen x = 0 \/ round8 newlen = round8 (zlen b)) as [->| ->]; [destruct Hmv; eauto| |f_equal; lia].
    by rewrite !load_Ret by lia.
Qed.

Lemma shrink_move_ok move :
  exists mem', (t ← shrink_tail mem (zlen lens) (Z.of_nat seg) move; shrink_move m1 (Z.of_nat seg) t) = Ret mem'
    /\ cut_ok mem mem' bufs seg newlen move b.
Proof.
  pose proof shrink_facts as (Hlb & Hlt & Hh & HS & HT & HT0 & Hf & Hs & Hr & Hrb). pose proof (lens_nonneg bufs) as Hnn. fold lens in Hnn.
  unfold shrink_tail, shrink_move. rewrite (wrap_small 32) by (unfold in_u; lia).
  destruct (move && (Z.of_nat seg + 1 <? zlen lens)) eqn:Hmv; cbn [mbind run_bind].
  2: { exists m1. split; [done|]. apply cut_stays. intros i x Hi Hx ->. apply Z.ltb_ge in Hmv.
       pose proof (lookup_lt_Some _ _ _ (lens_lookup _ _ _ Hx)) as Hlx. fold lens in Hlx. lia. }
  apply andb_true_iff in Hmv as [-> Hmv%Z.ltb_lt]. destruct (lookup_lt_is_Some_2 lens (S seg)) as [l2 Hl2]; [lia|].
  assert (Hl2' : 0 <= l2) by (rewrite Forall_lookup in Hnn; by eapply Hnn).
  replace (Z.of_nat seg + 1) with (Z.of_nat (S seg)) by lia. pose proof (mg_header _ _ Hm) as Hh0. fold lens in Hh0.
  rewrite (lengths_buf mem lens) by (done || lia || apply Hh0). rewrite Nat2Z.id, Hl2, (proj2 (Z.ltb_ge _ 0)) by lia. cbn [mbind run_bind].
  replace (Z.to_nat (zlen lens - Z.of_nat (S seg))) with (length (drop (S seg) lens)) by (rewrite length_drop; lia).
  rewrite (tail_loop_ok mem lens) by (done || lia || (intros j l Hj; by rewrite lookup_drop in Hj) || (by apply Forall_drop)).
  cbn [mbind run_bind]. rewrite Z.add_0_l. destruct (Z.eqb_spec (sum_round (drop (S seg) lens)) 0) as [Hz|Hz].
  { exists m1. split; [done|]. apply cut_stays. intros i x Hi Hx _. left. eapply sum_round_zero; [by apply (Forall_drop _ (S seg))|done|].
    apply list_elem_of_lookup. exists (i - S seg)%nat. rewrite lookup_drop. replace (S seg + (i - S seg))%nat with i by lia. by apply lens_lookup. }
  rewrite (lengths_buf m1 (<[seg:=newlen]> lens)); [|apply Hh1|apply Forall_insert; [done|lia]|rewrite (msg_size_insert _ _ _ _ Hlb); lia|lia].
  rewrite Nat2Z.id, list_lookup_insert_ne, Hl2, (proj2 (Z.ltb_ge _ 0)) by lia. cbn [mbind run_bind].
  destruct (move_tail mem m1 bufs seg newlen b Hm Hb Hn Hh1 F1) as (bs & mem' & E2 & E3 & Hh' & Hl' & Hlow & Hhigh). fold lens in E2, E3, Hh', Hlow, Hhigh.
  rewrite (offset_insert _ _ _ _ _ Hlb) in E3, Hlow |- *. rewrite decide_False in E3, Hlow |- * by lia.
  rewrite (proj2 (Z.leb_le _ _)) by lia. cbn [LASSERT]. case_match eqn:Heq.
  - apply Z.eqb_eq in Heq. exists m1. split; [done|]. apply cut_stays. intros i x Hi Hx _. right. lia.
  - rewrite E2. cbn [mbind run_bind]. exists mem'. split; [done|]. split_and!; [done|done| |auto]. intros o n Ho Hon. fold lens in Hon. apply Hlow; [done|lia].
Qed.
End Shrink.

Lemma shrink_msg_ok mem bufs seg newlen move b :
  message mem bufs -> bufs !! seg = Some b -> 0 <= newlen <= zlen b ->
  exists mem' bufs', lustre_shrink_msg mem (Z.of_nat seg) newlen move = Ret (msg_size (lens_of bufs'), mem')
    /\ message mem' bufs' /\ shrunk seg newlen move bufs bufs' /\ length mem' = length mem.
Proof.
  intros Hm Hb Hn. destruct (shrink_facts mem bufs seg newlen b Hm Hb Hn) as (Hlb & Hlt & Hh & HS & HT & HT0 & Hf & Hs & Hr & Hrb).
  pose proof (mg_header _ _ Hm) as Hh0. unfold lustre_shrink_msg. rewrite (magic_switch _ _ _ _ Hh0). unfold lustre_shrink_msg_v2.
  rewrite (wrap_small 32 (Z.of_nat seg)), (ln_count _ _ (hd_lengths _ _ Hh0)) by (unfold in_u; lia). cbn [mbind run_bind]. rewrite (proj2 (Z.ltb_lt _ _)) by lia.
  rewrite (ln_lens _ _ (hd_lengths _ _ Hh0) _ _ Hlb). cbn [LASSERT mbind run_bind]. rewrite (proj2 (Z.leb_le newlen _)) by lia. cbn [LASSERT].
  assert (exists mem', (if zlen b =? newlen then Ret mem
      else t ← shrink_tail mem (zlen (lens_of bufs)) (Z.of_nat seg) move; msg ← put32 mem (lm_buflens (Z.of_nat seg)) newlen;
           shrink_move msg (Z.of_nat seg) t) = Ret mem' /\ cut_ok mem mem' bufs seg newlen move b) as (mem' & -> & H1 & H2 & H3 & H4).
  { destruct (Z.eqb_spec (zlen b) newlen) as [<-|Hne].
    - exists mem. split; [done|]. rewrite <-(list_insert_id _ _ _ Hlb) in Hh0. split_and!; [done|done|done|]. intros. by rewrite list_insert_id.
    - destruct (header_set_len mem _ seg newlen Hh0 Hlt) as (m1 & E1 & Hh1 & F1); [lia|lia|].
      destruct (shrink_move_ok mem bufs seg newlen b Hm Hb Hn m1 Hh1 F1 move) as (mem' & E & Hc). exists mem'. split; [|done].
      destruct (shrink_tail _ _ _ _); [|done]. cbn [mbind run_bind] in E |- *. by rewrite E1. }
  destruct (shrunk_message mem mem' bufs seg newlen move b) as (bufs' & M1 & M2 & M3); try done. cbn [mbind run_bind].
  exists mem', bufs'. split_and!; try done. replace (zlen (lens_of bufs)) with (zlen (lens_of bufs')) by (by rewrite M3, length_insert).
  pose proof (mg_small _ _ M1). pose proof (msg_size_count _ (lens_nonneg bufs')).
  rewrite (lengths_size _ _ (hd_lengths _ _ (mg_header _ _ M1)) (lens_nonneg _) (mg_small _ _ M1)). cbn [mbind run_bind]. by rewrite swrap_small by lia.
Qed.
End Host.
