(* ===== verification/PtlMsgWire.v ===== *)
(** Unpacking ([lustre_unpack_msg_v2] of [lustre/ptlrpc/pack_generic.c]) what a host of the
    same or of the other byte order has sent: messages that are packed, and bytes of any
    kind. *)

From stdpp Require Import list.
From S2P Require Import Prelude Memory PtlMsg PtlMsgInv PtlMsgOps.

(** ** Integers of another host *)

Lemma get_int_other b1 b2 n mem off x :
  @get_int b1 n mem off = Ret x -> Forall is_byte mem ->
  @get_int b2 n mem off = Ret (if decide (b1 = b2) then x else swab n x) /\ 0 <= x < 256 ^ Z.of_nat n.
Proof.
  unfold get_int. destruct (load mem off (Z.of_nat n)) as [bs|] eqn:E; [|done]. cbn. intros [= <-] Hb.
  pose proof (load_bytes _ _ _ _ E Hb) as Hbs. apply load_inv in E as (_ & _ & Hl & _).
  pose proof (@host_int_bound b1 bs Hbs) as Hx. rewrite Hl in Hx. split; [|done]. f_equal.
  rewrite <-(@host_bytes_int b1 bs Hbs) at 1. rewrite (Nat2Z.inj _ _ Hl). by apply host_int_other.
Qed.

Lemma swab_int_other b1 b2 n mem off x :
  b1 <> b2 -> Forall is_byte mem -> @get_int b1 n mem off = Ret x ->
  exists mem', @swab_int b2 n mem off = Ret mem' /\ @get_int b2 n mem' off = Ret x /\ frame off (off + Z.of_nat n) mem mem'.
Proof.
  intros Hne Hb Hx. destruct (get_int_other b1 b2 _ _ _ _ Hx Hb) as [Hx2 Hbd]. rewrite decide_False in Hx2 by done.
  unfold swab_int. rewrite Hx2. cbn [mbind run_bind]. rewrite swab_swab by done.
  assert (0 <= off /\ off + Z.of_nat n <= zlen mem) as [H1 H2].
  { unfold get_int in Hx. destruct (load mem off (Z.of_nat n)) eqn:E; [|done]. apply load_inv in E. lia. }
  destruct (@put_Ret b2 n mem off x H1 H2) as [mem' E]. exists mem'. split_and!; [done|by eapply get_put_same|by eapply put_frame].
Qed.

(** ** The lengths *)

(** What [required_len] is after the loop. *)
Definition required (len : Z) (lens : list Z) : Z := foldl (fun r l => s32 (r + cfs_size_round l)) len lens.

Lemma required_small lens : forall len,
  Forall (fun l => 0 <= l) lens -> 0 <= len -> len + sum_round lens < 2 ^ 31 -> required len lens = len + sum_round lens.
Proof.
  induction lens as [|l lens IH]; intros len Hf H0 Hs; [cbn; lia|]. apply Forall_cons in Hf as [Hl Hf].
  cbn [sum_round foldr required foldl] in *. fold (sum_round lens) in *. fold (required (s32 (len + cfs_size_round l)) lens).
  pose proof (round8_bounds l). pose proof (sum_round_nonneg lens Hf). rewrite size_round_val, swrap_small by lia. rewrite IH; lia || done.
Qed.

Section Hosts.
Context (b1 b2 : byte_order).

Lemma unpack_loop_ok ls : forall i mem len,
  Forall is_byte mem -> 0 <= i -> (forall j l, ls !! j = Some l -> @buflens b1 mem (i + Z.of_nat j) = Ret l) ->
  exists mem', @unpack_loop b2 (length ls) i (bool_decide (b1 <> b2)) mem len = Ret (required len ls, mem')
    /\ (forall j l, ls !! j = Some l -> @buflens b2 mem' (i + Z.of_nat j) = Ret l)
    /\ frame (lm_buflens i) (lm_buflens (i + zlen ls)) mem mem'.
Proof.
  induction ls as [|l ls IH]; intros i mem len Hb Hi Hg; cbn [length unpack_loop].
  { exists mem. split_and!; [done|done|apply mem_frame_refl]. }
  pose proof (Hg 0%nat l eq_refl) as G0. change (Z.of_nat 0) with 0 in G0. rewrite Z.add_0_r in G0.
  assert (exists m1, (if bool_decide (b1 <> b2) then @__swab32s b2 mem (lm_buflens i) else Ret mem) = Ret m1
    /\ @buflens b2 m1 i = Ret l /\ frame (lm_buflens i) (lm_buflens i + 4) mem m1) as (m1 & -> & E1 & F1).
  { case_bool_decide as Hne; [by apply (swab_int_other b1)|]. exists mem. split_and!; [done| |apply mem_frame_refl].
    by destruct b1, b2; try (exfalso; apply Hne; done). }
  cbn [mbind run_bind]. rewrite E1. cbn [mbind run_bind]. destruct (IH (i + 1) m1 (s32 (len + cfs_size_round l))) as (m2 & -> & Hg2 & F2).
  - by apply (fr_bytes _ _ _ _ F1).
  - lia.
  - intros j x Hj. unfold buflens, get32. rewrite (frame_get _ _ _ _ _ _ F1) by (unfold lm_buflens; lia).
    replace (i + 1 + Z.of_nat j) with (i + Z.of_nat (S j)) by lia. by apply Hg.
  - exists m2. split_and!; [done| |eapply mem_frame_trans; eapply frame_wide; [exact F1| | |exact F2| |]; unfold lm_buflens; cbn [length]; lia].
    intros [|j] x Hj.
    + injection Hj as <-. unfold buflens, get32. rewrite (frame_get _ _ _ _ _ _ F2) by (unfold lm_buflens; lia). by rewrite Z.add_0_r.
    + replace (i + Z.of_nat (S j)) with (i + 1 + Z.of_nat j) by lia. by apply Hg2.
Qed.

(** ** Fields *)

Definition separate (f g : Z * nat) : bool := (f.1 + Z.of_nat f.2 <=? g.1) || (g.1 + Z.of_nat g.2 <=? f.1).
Fixpoint all_separate (fs : list (Z * nat)) : bool :=
  match fs with [] => true | f :: fs' => forallb (separate f) fs' && all_separate fs' end.

(** Swapping the fields of a structure gives them the values they have on the other host. *)
Lemma swab_fields_ok base fs : forall mem,
  b1 <> b2 -> Forall is_byte mem -> all_separate fs = true -> Forall (fun f => 0 <= base + f.1 /\ base + f.1 + Z.of_nat f.2 <= zlen mem) fs ->
  exists mem', @swab_fields b2 mem base fs = Ret mem'
    /\ (forall o n, (o, n) ∈ fs -> @get_int b2 n mem' (base + o) = @get_int b1 n mem (base + o))
    /\ length mem' = length mem /\ Forall is_byte mem'
    /\ forall o n, (forall f, f ∈ fs -> o + n <= base + f.1 \/ base + f.1 + Z.of_nat f.2 <= o) -> load mem' o n = load mem o n.
Proof.
  induction fs as [|[f k] fs IH]; intros mem Hne Hb Hsep Hf; cbn [swab_fields].
  { exists mem. split_and!; try done. intros o n H. by apply not_elem_of_nil in H. }
  cbn [all_separate] in Hsep. apply andb_true_iff in Hsep as [Hsf Hsep]. apply Forall_cons in Hf as [[F0 Fl] Hf]. cbn [fst snd] in F0, Fl.
  destruct (@get_bound b1 k mem (base + f) F0 Fl Hb) as (x & Hx & _).
  destruct (swab_int_other b1 b2 k mem (base + f) x Hne Hb Hx) as (m1 & -> & E1 & F1). cbn [mbind run_bind].
  destruct (IH m1 Hne (fr_bytes _ _ _ _ F1 Hb) Hsep) as (m2 & -> & E2 & L2 & B2 & Hl2); [by rewrite (fr_length _ _ _ _ F1)|].
  assert (Hdis : forall g, g ∈ fs -> f + Z.of_nat k <= g.1 \/ g.1 + Z.of_nat g.2 <= f).
  { intros g Hg. rewrite forallb_forall in Hsf. apply list_elem_of_In in Hg. specialize (Hsf g Hg). unfold separate in Hsf.
    apply orb_true_iff in Hsf as [H%Z.leb_le|H%Z.leb_le]; cbn [fst snd] in H; lia. }
  exists m2. split_and!; [done| |by rewrite L2, (fr_length _ _ _ _ F1)|done|].
  - intros o n [[= -> ->]|Ho]%elem_of_cons.
    + rewrite <-Hx in E1. rewrite <-E1. unfold get_int. rewrite Hl2; [done|]. intros g Hg. destruct (Hdis _ Hg); lia.
    + rewrite (E2 _ _ Ho). eapply frame_get; [exact F1|]. destruct (Hdis _ Ho); cbn [fst snd] in *; lia.
  - intros o n Ho. rewrite Hl2 by (intros g Hg; apply Ho, elem_of_cons; by right). apply (fr_load _ _ _ _ F1).
    destruct (Ho (f, k)); [apply elem_of_cons; by left|cbn [fst snd] in *; lia..].
Qed.

(** ** The header *)

Definition header_fields : list (Z * nat) :=
  [(lm_magic, 4%nat); (lm_bufcount, 4%nat); (lm_secflvr, 4%nat); (lm_repsize, 4%nat); (lm_cksum, 4%nat); (lm_flags, 4%nat)].

Lemma header_fields_spec f : f ∈ header_fields <-> bool_decide (f ∈ header_fields) = true.
Proof. symmetry. apply bool_decide_eq_true. Qed.

(** The order of the host a message is from, as the magic tells. *)
Definition sent_by (mem : list Z) : Prop :=
  if bool_decide (b1 <> b2) then @get32 b1 mem lm_magic = Ret LUSTRE_MSG_MAGIC_V2
  else @get32 b1 mem lm_magic <> Ret LUSTRE_MSG_MAGIC_V2_SWABBED.

Lemma unpack_header mem :
  Forall is_byte mem -> 32 <= zlen mem -> sent_by mem ->
  exists magic mem', @get32 b2 mem lm_magic = Ret magic /\ (magic =? LUSTRE_MSG_MAGIC_V2_SWABBED) = bool_decide (b1 <> b2)
    /\ (if bool_decide (b1 <> b2) then @swab_fields b2 mem 0 header_fields else Ret mem) = Ret mem'
    /\ (forall o, (o, 4%nat) ∈ header_fields -> @get32 b2 mem' o = @get32 b1 mem o) /\ frame 0 24 mem mem'.
Proof.
  intros Hb Hl Hmag. destruct (@get_bound b1 4 mem lm_magic) as (x & Hx & _); [unfold lm_magic; cbn; lia..|done|].
  unfold sent_by, get32 in *. rewrite Hx in Hmag. destruct (get_int_other b1 b2 _ _ _ _ Hx Hb) as [Hx2 _]. rewrite Hx2.
  case_bool_decide as Hne.
  - injection Hmag as ->. rewrite decide_False by done. destruct (swab_fields_ok 0 header_fields mem Hne Hb) as (m' & E & Hg & L & B & Hld).
    + done.
    + unfold header_fields, lm_magic, lm_bufcount, lm_secflvr, lm_repsize, lm_cksum, lm_flags. repeat constructor; cbn; lia.
    + eexists _, m'. split_and!; [done|done|done|intros o Ho; by apply (Hg o 4%nat)|]. split; [done| |done]. intros o n Ho. apply Hld. intros f Hf.
      assert (0 <= f.1 <= 20 /\ f.2 = 4%nat) as [? ->]; [|lia].
      assert (Hall : Forall (fun f : Z * nat => 0 <= f.1 <= 20 /\ f.2 = 4%nat) header_fields) by (repeat constructor; done).
      by apply (proj1 (Forall_forall _ _) Hall).
  - assert (b1 = b2) as Hbb by (destruct b1, b2; done || (exfalso; by apply Hne)). rewrite decide_True by done.
    eexists _, mem. split_and!; [done|apply Z.eqb_neq; congruence|done|by rewrite Hbb|apply mem_frame_refl].
Qed.

(** ** Unpacking *)

Lemma lens_exist mem (count : nat) :
  Forall is_byte mem -> lm_buflens (Z.of_nat count) <= zlen mem ->
  exists lens, length lens = count /\ Forall (fun l => 0 <= l < 2 ^ 32) lens
    /\ forall i l, lens !! i = Some l -> @buflens b1 mem (Z.of_nat i) = Ret l.
Proof.
  intros Hb. unfold lm_buflens. induction count as [|count IH]; intros Hl; [by exists []|].
  destruct IH as (lens & El & Hf & Hg); [lia|]. destruct (@get_bound b1 4 mem (lm_buflens (Z.of_nat count))) as (x & Hx & Hbx); [unfold lm_buflens; lia..|done|].
  exists (lens ++ [x]). split_and!.
  - rewrite length_app. cbn. lia.
  - apply Forall_app. split; [done|]. by constructor.
  - intros i l [Hi|[Hi Hn]]%lookup_app_Some; [by apply Hg|]. apply list_lookup_singleton_Some in Hn as [Hn <-].
    replace i with count by lia. done.
Qed.

Lemma unpack_cases mem len count :
  Forall is_byte mem -> 32 <= len <= zlen mem -> len < 2 ^ 31 -> sent_by mem -> @get32 b1 mem lm_bufcount = Ret count -> hdr_size count < 2 ^ 31 ->
  exists rc mem', @__lustre_unpack_msg b2 mem len = Ret (rc, mem') /\ frame 0 (hdr_size count) mem mem'
    /\ (forall o, (o, 4%nat) ∈ header_fields -> @get32 b2 mem' o = @get32 b1 mem o)
    /\ (rc = - EINVAL /\ len < hdr_size count
        \/ exists lens, zlen lens = count /\ Forall (fun l => 0 <= l < 2 ^ 32) lens
             /\ (forall i l, lens !! i = Some l -> @buflens b1 mem (Z.of_nat i) = Ret l) /\ @lengths b2 mem' lens
             /\ rc = if len <? required (hdr_size count) lens then - EINVAL else Z.b2z (bool_decide (b1 <> b2))).
Proof.
  intros Hb Hl Hlen Hs Hc Hh. destruct (get_int_other b1 b1 _ _ _ _ Hc Hb) as [_ Hc0]. pose proof (hdr_size_bounds count ltac:(lia)).
  destruct (unpack_header mem Hb ltac:(lia) Hs) as (magic & m1 & Em & Esw & E1 & Hg1 & F1).
  unfold __lustre_unpack_msg. rewrite (proj2 (Z.ltb_ge len (lm_magic + 4))) by (unfold lm_magic; lia).
  unfold lustre_unpack_msg_v2. change (s32 (lustre_msg_hdr_size_v2 0)) with 32. rewrite (proj2 (Z.ltb_ge len 32)) by lia.
  rewrite Em. cbn [mbind run_bind]. rewrite Esw. fold header_fields. rewrite E1. cbn [mbind run_bind].
  assert (Hc1 : @get32 b2 m1 lm_bufcount = Ret count) by (rewrite Hg1; [done|]; by apply header_fields_spec).
  rewrite Hc1. cbn [mbind run_bind]. rewrite hdr_size_val, wrap_small, swrap_small by (unfold in_u; lia).
  destruct (Z.ltb_spec len (hdr_size count)).
  { exists (- EINVAL), m1. split_and!; [done|eapply frame_wide; [done|lia..]|done|by left]. }
  destruct (lens_exist mem (Z.to_nat count) Hb) as (lens & Ln & Hf & Hg); [rewrite Z2Nat.id by lia; unfold lm_buflens; lia|].
  destruct (unpack_loop_ok lens 0 m1 (hdr_size count)) as (m2 & E2 & Hg2 & F2).
  { by apply (fr_bytes _ _ _ _ F1). }
  { done. }
  { intros j l Hj. unfold buflens, get32. rewrite (frame_get _ _ _ _ _ _ F1) by (unfold lm_buflens; lia). by apply Hg. }
  rewrite <-Ln, E2. cbn [mbind run_bind fst snd].
  exists (if len <? required (hdr_size count) lens then - EINVAL else Z.b2z (bool_decide (b1 <> b2))), m2.
  assert (Hfr : frame 24 (hdr_size count) m1 m2) by (eapply frame_wide; [exact F2|unfold lm_buflens; lia..]).
  split_and!; [by destruct (len <? required (hdr_size count) lens)| | |right; exists lens].
  - eapply mem_frame_trans; eapply frame_wide; [exact F1| | |exact Hfr| |]; lia.
  - intros o Ho. rewrite <-Hg1 by done. assert (Hall : Forall (fun f : Z * nat => f.1 <= 20 /\ f.2 = 4%nat) header_fields) by (repeat constructor; done).
    rewrite Forall_forall in Hall. destruct (Hall _ Ho) as [Ho' _]. cbn in Ho'. eapply frame_get; [exact Hfr|]. left. cbn. lia.
  - split_and!; [lia|done|done| |done]. split; [|exact Hg2]. unfold get32. rewrite (frame_get _ _ _ _ _ _ Hfr) by (unfold lm_bufcount; lia).
    replace (zlen lens) with count by lia. done.
Qed.

(** The loop reads lengths from behind the bytes when there are more of them than bytes. *)
Lemma unpack_loop_fails n : forall i swabbed mem req,
  (0 < n)%nat -> zlen mem < lm_buflens (i + Z.of_nat n) -> @unpack_loop b2 n i swabbed mem req = LBUG.
Proof.
  induction n as [|n IH]; intros i swabbed mem req Hn Hlt; [lia|]. cbn [unpack_loop].
  assert (Hm : (if swabbed then @__swab32s b2 mem (lm_buflens i) else Ret mem) = LBUG
               \/ exists m1, (if swabbed then @__swab32s b2 mem (lm_buflens i) else Ret mem) = Ret m1 /\ length m1 = length mem).
  { destruct swabbed; [|right; by exists mem]. unfold __swab32s, swab_int.
    destruct (get_int 4 mem (lm_buflens i)) as [x|]; [|by left]. cbn [mbind run_bind].
    destruct (put_int 4 mem (lm_buflens i) (swab 4 x)) as [m1|] eqn:E; [right|by left]. exists m1. split; [done|].
    unfold put_int in E. by eapply store_length. }
  destruct Hm as [->|(m1 & -> & L1)]; [done|]. cbn [mbind run_bind].
  destruct (Z.lt_ge_cases (zlen m1) (lm_buflens i + 4)) as [Hs|Hs].
  { unfold buflens, get32. by rewrite get_fails. }
  destruct (@buflens b2 m1 i) as [l|]; [|done]. cbn [mbind run_bind].
  unfold lm_buflens in *. apply IH; [destruct n; [lia|lia]|rewrite L1; lia].
Qed.

(** A number of buffers that makes the size of the header wrap around. *)
Lemma unpack_wrapped mem len count :
  Forall is_byte mem -> 32 <= len -> zlen mem = len -> len < 2 ^ 31 - 8 -> sent_by mem ->
  @get32 b1 mem lm_bufcount = Ret count -> 2 ^ 31 <= hdr_size count ->
  if len <? s32 (hdr_size count)
  then exists mem', @__lustre_unpack_msg b2 mem len = Ret (- EINVAL, mem') /\ length mem' = length mem
  else @__lustre_unpack_msg b2 mem len = LBUG.
Proof.
  intros Hb Hl Hz Hlen Hs Hc Hh. destruct (get_int_other b1 b1 _ _ _ _ Hc Hb) as [_ Hc0].
  pose proof (hdr_size_bounds count ltac:(lia)).
  destruct (unpack_header mem Hb ltac:(lia) Hs) as (magic & m1 & Em & Esw & E1 & Hg1 & F1).
  unfold __lustre_unpack_msg. rewrite (proj2 (Z.ltb_ge len (lm_magic + 4))) by (unfold lm_magic; lia).
  unfold lustre_unpack_msg_v2. change (s32 (lustre_msg_hdr_size_v2 0)) with 32. rewrite (proj2 (Z.ltb_ge len 32)) by lia.
  rewrite Em. cbn [mbind run_bind]. rewrite Esw. fold header_fields. rewrite E1. cbn [mbind run_bind].
  assert (Hc1 : @get32 b2 m1 lm_bufcount = Ret count) by (rewrite Hg1; [done|]; by apply header_fields_spec).
  rewrite Hc1. cbn [mbind run_bind]. rewrite hdr_size_val by lia.
  replace (s32 (u32 (hdr_size count))) with (s32 (hdr_size count)) by int_lia.
  destruct (len <? s32 (hdr_size count)); [exists m1; split; [done|apply F1]|].
  rewrite unpack_loop_fails; [done|lia|]. rewrite (fr_length _ _ _ _ F1). rewrite Z2Nat.id by lia.
  unfold lm_buflens. unfold hdr_size, round8, lm_buflens in *. Z.to_euclidean_division_equations. lia.
Qed.

(** A message that was packed is taken as it is. *)
Lemma unpack_message mem bufs len :
  @message b1 mem bufs -> msg_size (lens_of bufs) <= len <= zlen mem -> len < 2 ^ 31 ->
  exists mem', @__lustre_unpack_msg b2 mem len = Ret (Z.b2z (bool_decide (b1 <> b2)), mem') /\ @message b2 mem' bufs /\ length mem' = length mem.
Proof.
  intros [[Hmag [Hc Hg] Hb] Hd Hf Hs] Hl Hlen. set (lens := lens_of bufs) in *. pose proof (lens_nonneg bufs) as Hn. fold lens in Hn.
  pose proof (msg_size_count lens Hn). pose proof (hdr_size_bounds (zlen lens) ltac:(lia)). pose proof (sum_round_nonneg lens Hn).
  assert (msg_size lens = hdr_size (zlen lens) + sum_round lens) by done.
  destruct (unpack_cases mem len (zlen lens) Hb) as (rc & mem' & E & F & Hg' & Hrc); [lia|done| |done|lia|].
  { unfold sent_by. rewrite Hmag. by case_bool_decide. }
  destruct Hrc as [[_ ?]|(lens' & Ln & Hl' & Hg2 & Hlen' & ->)]; [lia|].
  assert (lens' = lens) as ->.
  { apply list_eq_same_length with (length lens); [done|lia|]. intros i x y _ Hx Hy. specialize (Hg _ _ Hy). rewrite (Hg2 _ _ Hx) in Hg. by injection Hg. }
  rewrite required_small, (proj2 (Z.ltb_ge _ _)) in E by (done || lia). exists mem'. split_and!; [done| |by rewrite (fr_length _ _ _ _ F)].
  split; [split; [|done|by apply (fr_bytes _ _ _ _ F)]| | |done].
  - rewrite Hg'; [done|]. by apply header_fields_spec.
  - intros i b Hi. fold lens. rewrite (fr_load _ _ _ _ F); [by apply Hd|]. pose proof (offset_bounds lens i _ Hn (lens_lookup _ _ _ Hi)). lia.
  - by rewrite (fr_length _ _ _ _ F).
Qed.
End Hosts.
