(* ===== verification/PtlMsgProps.v ===== *)
(** A message ([lustre/ptlrpc/pack_generic.c]) is a list of buffers, whoever packs, fills,
    shrinks, sends and reads it; and of bytes that come over the network, what passes the
    checks of [lustre_unpack_msg_v2] lies within what was received. *)

From stdpp Require Import list.
From S2P Require Import Prelude Memory PtlMsg PtlMsgInv PtlMsgOps PtlMsgWire.

(** ** Strings *)

(** A buffer holds a string if it has a NUL, at its end if [max_len] is 0, and otherwise
    behind at most [max_len] bytes. *)
Definition string_ok (b : list Z) (max_len : Z) : Prop :=
  exists s rest, b = s ++ 0 :: rest /\ (0 ∉ s) /\ if max_len =? 0 then rest = [] else zlen s <= max_len.

Lemma strnlen_cases b :
  (exists s rest, b = s ++ 0 :: rest /\ (0 ∉ s) /\ strnlen b = zlen s) \/ (0 ∉ b) /\ strnlen b = zlen b.
Proof.
  induction b as [|c b IH]; [right; split; [apply not_elem_of_nil|done]|]. cbn [strnlen]. destruct (Z.eqb_spec c 0) as [->|Hc].
  - left. exists [], b. split_and!; [done|apply not_elem_of_nil|done].
  - destruct IH as [(s & rest & -> & Hs & ->)|[Hb ->]].
    + left. exists (c :: s), rest. split_and!; [done|rewrite not_elem_of_cons; by split|cbn [length]; lia].
    + right. split; [rewrite not_elem_of_cons; by split|cbn [length]; lia].
Qed.

Lemma first_nul_unique s1 r1 s2 r2 : s1 ++ 0 :: r1 = s2 ++ 0 :: r2 -> 0 ∉ s1 -> 0 ∉ s2 -> s1 = s2 /\ r1 = r2.
Proof.
  revert s2. induction s1 as [|x s1 IH]; intros [|y s2] E H1 H2; cbn in E.
  - by injection E as ->.
  - injection E as <- _. by apply not_elem_of_cons in H2 as [? _].
  - injection E as -> _. by apply not_elem_of_cons in H1 as [? _].
  - injection E as -> E. apply not_elem_of_cons in H1 as [_ H1], H2 as [_ H2]. by destruct (IH s2 E H1 H2) as [-> ->].
Qed.

(** ** Operations *)

Inductive msg_op :=
| MsgPack (bo : byte_order) (room lens : list Z) (bufs : option (list (option (list Z))))
| MsgBuf (n min_size : Z)
| MsgString (n max_len : Z)
| MsgBuflen (n : Z)
| MsgBufcount
| MsgSize
| MsgShrink (segment : nat) (newlen : Z) (move_data : bool)
| MsgWrite (n off : Z) (bs : list Z)
| MsgSend (bo : byte_order).

Inductive msg_ret := MrDone | MrNum (x : Z) | MrBuf (b : option (list Z)).

(** The bytes of a buffer that a pointer was got for. *)
Definition read_buffer {bo : byte_order} (m : list Z) (n : Z) (ptr : option Z) : run msg_ret :=
  match ptr with
  | None => Ret (MrBuf None)
  | Some off => l ← lustre_msg_buflen m n; bs ← load m off l; Ret (MrBuf (Some bs))
  end.

(** A message is packed into as much room as [lustre_msg_size_v2] asks for; as much as
    [lustre_packed_msg_size] tells of is sent. *)
Definition msg_do (op : msg_op) (s : byte_order * list Z) : run (msg_ret * (byte_order * list Z)) :=
  let '(bo, m) := s in
  match op with
  | MsgPack bo' room lens bufs =>
      size ← lustre_msg_size_v2 (zlen lens) (arr lens);
      room ← load room 0 size;
      m ← @lustre_init_msg_v2 bo' room (zlen lens) lens bufs;
      Ret (MrDone, (bo', m))
  | MsgBuf n min_size => ptr ← lustre_msg_buf m n min_size; r ← read_buffer m n ptr; Ret (r, s)
  | MsgString n max_len => ptr ← lustre_msg_string m n max_len; r ← read_buffer m n ptr; Ret (r, s)
  | MsgBuflen n => l ← lustre_msg_buflen m n; Ret (MrNum l, s)
  | MsgBufcount => c ← lustre_msg_bufcount m; Ret (MrNum c, s)
  | MsgSize => l ← lustre_packed_msg_size m; Ret (MrNum l, s)
  | MsgShrink segment newlen move_data =>
      r ← lustre_shrink_msg m (Z.of_nat segment) newlen move_data; Ret (MrNum r.1, (bo, r.2))
  | MsgWrite n off bs =>
      ptr ← lustre_msg_buf m n 0;
      match ptr with None => LBUG | Some p => m ← store m (p + off) bs; Ret (MrDone, (bo, m)) end
  | MsgSend bo' =>
      size ← @lustre_packed_msg_size bo m;
      m ← load m 0 size;
      r ← @__lustre_unpack_msg bo' m size;
      Ret (MrNum r.1, (bo', r.2))
  end.

(** What may be asked for. *)
Definition msg_can (bufs : list (list Z)) (op : msg_op) : Prop :=
  match op with
  | MsgPack _ room lens srcs =>
      Forall (fun l => 0 <= l) lens /\ msg_size lens < 2 ^ 31 /\ msg_size lens <= zlen room /\ Forall is_byte room /\ sources_ok lens srcs
  | MsgBuf n _ | MsgString n _ | MsgBuflen n => 0 <= n
  | MsgBufcount | MsgSize | MsgSend _ => True
  | MsgShrink segment newlen _ => exists b, bufs !! segment = Some b /\ 0 <= newlen <= zlen b
  | MsgWrite n off bs => 0 <= n /\ Forall is_byte bs /\ exists b, bufs !! Z.to_nat n = Some b /\ 0 <= off /\ off + zlen bs <= zlen b
  end.

(** What is asked of it, for a list of buffers. *)
Definition msg_spec (bo : byte_order) (op : msg_op) (bufs : list (list Z)) (r : msg_ret) (bufs' : list (list Z)) : Prop :=
  match op with
  | MsgPack _ _ lens srcs => packed lens srcs bufs'
  | MsgBuf n min_size =>
      bufs' = bufs /\ r = MrBuf (match bufs !! Z.to_nat n with Some b => if zlen b <? min_size then None else Some b | None => None end)
  | MsgString n max_len =>
      bufs' = bufs /\ ((exists b, bufs !! Z.to_nat n = Some b /\ string_ok b max_len /\ r = MrBuf (Some b))
                       \/ (forall b, bufs !! Z.to_nat n = Some b -> ~ string_ok b max_len) /\ r = MrBuf None)
  | MsgBuflen n => bufs' = bufs /\ r = MrNum (match bufs !! Z.to_nat n with Some b => zlen b | None => 0 end)
  | MsgBufcount => bufs' = bufs /\ r = MrNum (zlen bufs)
  | MsgSize => bufs' = bufs /\ r = MrNum (msg_size (lens_of bufs))
  | MsgShrink segment newlen move_data => shrunk segment newlen move_data bufs bufs' /\ r = MrNum (msg_size (lens_of bufs'))
  | MsgWrite n off bs => exists b b', bufs !! Z.to_nat n = Some b /\ store b off bs = Ret b' /\ bufs' = <[Z.to_nat n:=b']> bufs
  | MsgSend bo' => bufs' = bufs /\ r = MrNum (Z.b2z (bool_decide (bo <> bo')))
  end.

Definition msg_models (s : byte_order * list Z) (bufs : list (list Z)) : Prop := @message s.1 s.2 bufs.

Section Host.
Context {bo : byte_order}.

Lemma message_buf m bufs n min :
  message m bufs -> 0 <= n ->
  lustre_msg_buf m n min =
    Ret (match bufs !! Z.to_nat n with Some b => if zlen b <? min then None else Some (offset (lens_of bufs) (Z.to_nat n)) | None => None end)
  /\ lustre_msg_buf_v2 m n min = lustre_msg_buf m n min.
Proof.
  intros [Hh Hd Hf Hs] Hn. unfold lustre_msg_buf. rewrite (magic_switch _ _ _ _ Hh).
  rewrite (lengths_buf _ _ _ _ (hd_lengths _ _ Hh) (lens_nonneg bufs) Hs Hn), list_lookup_fmap. by destruct (bufs !! Z.to_nat n).
Qed.

Lemma message_buflen m bufs n :
  message m bufs -> 0 <= n ->
  lustre_msg_buflen m n = Ret (match bufs !! Z.to_nat n with Some b => zlen b | None => 0 end)
  /\ lustre_msg_buflen_v2 m n = lustre_msg_buflen m n.
Proof.
  intros [Hh Hd Hf Hs] Hn. unfold lustre_msg_buflen. rewrite (magic_switch _ _ _ _ Hh).
  rewrite (lengths_buflen _ _ _ (hd_lengths _ _ Hh) Hn), list_lookup_fmap. by destruct (bufs !! Z.to_nat n).
Qed.

Lemma read_buffer_ok m bufs n b :
  message m bufs -> 0 <= n -> bufs !! Z.to_nat n = Some b -> read_buffer m n (Some (offset (lens_of bufs) (Z.to_nat n))) = Ret (MrBuf (Some b)).
Proof.
  intros Hm Hn Hb. unfold read_buffer. rewrite (proj1 (message_buflen _ _ _ Hm Hn)), Hb. cbn [mbind run_bind].
  by rewrite (mg_data _ _ Hm _ _ Hb).
Qed.

Lemma message_size m bufs : message m bufs -> lustre_packed_msg_size m = Ret (msg_size (lens_of bufs)).
Proof.
  intros [Hh Hd Hf Hs]. unfold lustre_packed_msg_size. rewrite (magic_switch _ _ _ _ Hh), (ln_count _ _ (hd_lengths _ _ Hh)). cbn [mbind run_bind].
  apply lengths_size; [apply Hh|apply lens_nonneg|done].
Qed.

(** What is sent is a message. *)
Lemma message_prefix m bufs m' : message m bufs -> load m 0 (msg_size (lens_of bufs)) = Ret m' -> message m' bufs /\ zlen m' = msg_size (lens_of bufs).
Proof.
  intros [[Hmag [Hc Hg] Hb] Hd Hf Hs] E. pose proof (load_inv _ _ _ _ E) as (_ & _ & Hl & _). split; [|done].
  pose proof (msg_size_count _ (lens_nonneg bufs)) as Hcnt. rewrite lens_length in Hcnt.
  assert (Hsub : forall o k, 0 <= o -> o + k <= msg_size (lens_of bufs) -> load m' o k = load m o k)
    by (intros o k Ho Hk; by rewrite <-(load_sub _ _ _ _ _ _ E) by done).
  unfold get32, buflens, get32, get_int in *. split; [split; [|split|]| | |]; unfold get32, buflens, get32, get_int; try done.
  - rewrite Hsub; [done|unfold lm_magic; cbn; lia..].
  - rewrite Hsub; [done|unfold lm_bufcount; cbn; lia..].
  - intros i l Hi. pose proof (lookup_lt_Some _ _ _ Hi) as Hlt. rewrite length_map in Hlt. rewrite Hsub; [by apply Hg|unfold lm_buflens; cbn; lia..].
  - by eapply load_bytes.
  - intros i b Hi. pose proof (offset_bounds _ _ _ (lens_nonneg bufs) (lens_lookup _ _ _ Hi)). pose proof (hdr_size_bounds (zlen (lens_of bufs)) ltac:(lia)).
    rewrite Hsub by lia. by apply Hd.
  - lia.
Qed.

Lemma message_string m bufs n max :
  message m bufs -> 0 <= n -> exists ptr, lustre_msg_string m n max = Ret ptr
  /\ ((exists b, bufs !! Z.to_nat n = Some b /\ string_ok b max /\ ptr = Some (offset (lens_of bufs) (Z.to_nat n)))
      \/ (forall b, bufs !! Z.to_nat n = Some b -> ~ string_ok b max) /\ ptr = None).
Proof.
  intros Hm Hn. unfold lustre_msg_string. rewrite (hd_magic _ _ (mg_header _ _ Hm)). cbn [mbind run_bind]. rewrite Z.eqb_refl. cbn [negb].
  rewrite (proj2 (message_buf _ _ _ _ Hm Hn)), (proj1 (message_buf _ _ _ _ Hm Hn)), (proj2 (message_buflen _ _ _ Hm Hn)), (proj1 (message_buflen _ _ _ Hm Hn)).
  destruct (bufs !! Z.to_nat n) as [b|] eqn:Hb; cbn [mbind run_bind]; [|exists None; split; [done|by right]].
  rewrite (proj2 (Z.ltb_ge _ 0)) by lia. cbn [mbind run_bind]. rewrite (mg_data _ _ Hm _ _ Hb). cbn [mbind run_bind].
  destruct (strnlen_cases b) as [(s & rest & -> & Hs & ->)|[Hnz ->]].
  2: { rewrite Z.eqb_refl. exists None. split; [done|]. right. split; [|done]. intros ? [= <-] (s & rest & -> & _). apply Hnz. set_solver. }
  rewrite length_app. cbn [length]. rewrite (proj2 (Z.eqb_neq _ _)) by lia.
  assert (Hiff : string_ok (s ++ 0 :: rest) max <-> if max =? 0 then rest = [] else zlen s <= max).
  { split; [|intros; by exists s, rest]. intros (s' & rest' & E & Hs' & H). by destruct (first_nul_unique _ _ _ _ E Hs Hs') as [-> ->]. }
  destruct (max =? 0); [destruct (Z.eqb_spec (zlen s) (Z.of_nat (length s + S (length rest)) - 1))|destruct (Z.ltb_spec max (zlen s))]; eexists; (split; [done|]).
  - left. eexists. split_and!; [done| |done]. apply Hiff, length_zero_iff_nil. lia.
  - right. split; [|done]. intros ? [= <-] Hk%Hiff. subst rest. cbn in *. lia.
  - right. split; [|done]. intros ? [= <-] Hk%Hiff. lia.
  - left. eexists. split_and!; [done| |done]. by apply Hiff.
Qed.
End Host.

Lemma arr_sizes lens :
  Forall (fun l => 0 <= l) lens -> msg_size lens < 2 ^ 31 -> lustre_msg_size_v2 (zlen lens) (arr lens) = Ret (msg_size lens).
Proof.
  intros Hn Hs. pose proof (msg_size_count lens Hn). pose proof (hdr_size_bounds (zlen lens) ltac:(lia)). unfold lustre_msg_size_v2.
  pose proof (sum_round_nonneg lens Hn). unfold msg_size in Hs. rewrite Nat2Z.id, (wrap_small 32), hdr_size_val, wrap_small by (unfold in_u; lia).
  apply size_loop_ok; [|apply lens_small; [done|unfold msg_size; lia]|lia|lia]. intros j l Hj. by apply arr_lookup.
Qed.

(** Every operation returns, and is the one on the list. *)
Lemma msg_do_ok op bo m bufs :
  (forall bo' room lens srcs, op = MsgPack bo' room lens srcs -> msg_can bufs op) ->
  ((forall bo' room lens srcs, op <> MsgPack bo' room lens srcs) -> @message bo m bufs /\ msg_can bufs op) ->
  exists r bo' m' bufs', msg_do op (bo, m) = Ret (r, (bo', m')) /\ msg_spec bo op bufs r bufs' /\ @message bo' m' bufs'.
Proof.
  destruct op as [bo' room lens srcs|n min|n max|n| | |seg newlen move|n off bs|bo']; intros Hp Hm; cbn [msg_do msg_can msg_spec] in *;
    try (destruct Hm as [Hm Hc]; [done|]).
  - destruct (Hp _ _ _ _ eq_refl) as (Hn & Hs & Hr & Hb & Hss). rewrite arr_sizes by done. cbn [mbind run_bind].
    pose proof (msg_size_count lens Hn). destruct (load_bound room 0 (msg_size lens)) as (room' & Er & Lr); [lia..|]. rewrite Er. cbn [mbind run_bind].
    pose proof (load_bytes _ _ _ _ Er Hb) as Hb'.
    destruct (@init_ok bo' room' lens srcs) as (m' & bs & -> & Hm' & Hpk & _); [done|done|lia|done|done|]. by eexists _, bo', _, bs.
  - rewrite (proj1 (message_buf _ _ _ _ Hm Hc)). cbn [mbind run_bind]. destruct (bufs !! Z.to_nat n) as [b|] eqn:Hb; [|by eexists _, _, _, bufs].
    destruct (zlen b <? min); [by eexists _, _, _, bufs|]. rewrite (read_buffer_ok _ _ _ _ Hm Hc Hb). by eexists _, _, _, bufs.
  - destruct (message_string _ _ n max Hm Hc) as (ptr & -> & [(b & Hb & Hs & ->)|[Hs ->]]); cbn [mbind run_bind].
    + rewrite (read_buffer_ok _ _ _ _ Hm Hc Hb). eexists _, _, _, bufs. split_and!; [done|done| |done]. left. by exists b.
    + eexists _, _, _, bufs. split_and!; [done|done| |done]. by right.
  - rewrite (proj1 (message_buflen _ _ _ Hm Hc)). by eexists _, _, _, bufs.
  - unfold lustre_msg_bufcount. pose proof (mg_header _ _ Hm) as Hh. rewrite (magic_switch _ _ _ _ Hh), (ln_count _ _ (hd_lengths _ _ Hh)), lens_length.
    by eexists _, _, _, bufs.
  - rewrite (message_size _ _ Hm). by eexists _, _, _, bufs.
  - destruct Hc as (b & Hb & Hn). destruct (shrink_msg_ok m bufs seg newlen move b Hm Hb Hn) as (m' & bufs' & -> & Hm' & Hs & _). by eexists _, _, _, bufs'.
  - destruct Hc as (Hn & Hbs & b & Hb & Ho & Hl). rewrite (proj1 (message_buf _ _ _ _ Hm Hn)), Hb. cbn [mbind run_bind].
    rewrite (proj2 (Z.ltb_ge _ 0)) by lia. destruct (store_Ret b off bs Ho Hl) as [b' Es].
    destruct (message_write m bufs _ b off bs b' Hm Hb Es Hbs) as (m' & -> & Hm'). eexists _, _, _, _. split_and!; [done| |done]. by exists b, b'.
  - rewrite (message_size _ _ Hm). cbn [mbind run_bind]. pose proof (msg_size_count _ (lens_nonneg bufs)).
    destruct (load_bound m 0 (msg_size (lens_of bufs))) as (m1 & E1 & L1); [lia|lia|apply (mg_fits _ _ Hm)|]. rewrite E1. cbn [mbind run_bind].
    destruct (message_prefix _ _ _ Hm E1) as [Hm1 _]. destruct (unpack_message bo bo' m1 bufs (msg_size (lens_of bufs)) Hm1) as (m' & -> & Hm' & _);
      [lia|apply (mg_small _ _ Hm)|]. by eexists _, bo', _, bufs.
Qed.

(** ** What a message is taken for *)

(** What is read out of it. *)
Definition holds (s : byte_order * list Z) (bufs : list (list Z)) : Prop :=
  forall n, 0 <= n -> msg_do (MsgBuf n 0) s = Ret (MrBuf (bufs !! Z.to_nat n), s).

(** Messages that are packed, and what becomes of them. *)
Inductive msg_reachable : byte_order * list Z -> list (list Z) -> Prop :=
| mr_pack s0 bo room lens srcs r s bufs :
    msg_can [] (MsgPack bo room lens srcs) -> msg_do (MsgPack bo room lens srcs) s0 = Ret (r, s) ->
    packed lens srcs bufs -> holds s bufs -> msg_reachable s bufs
| mr_step s bufs op r s' bufs' :
    msg_reachable s bufs -> msg_can bufs op -> msg_do op s = Ret (r, s') -> msg_spec s.1 op bufs r bufs' -> holds s' bufs' ->
    msg_reachable s' bufs'.

Lemma message_holds bo m bufs : @message bo m bufs -> holds (bo, m) bufs.
Proof.
  intros Hm n Hn. cbn. rewrite (proj1 (message_buf _ _ _ _ Hm Hn)). cbn [mbind run_bind].
  destruct (bufs !! Z.to_nat n) as [b|] eqn:Hb; [|done]. rewrite (proj2 (Z.ltb_ge _ 0)) by lia. by rewrite (read_buffer_ok _ _ _ _ Hm Hn Hb).
Qed.

Lemma holds_unique s bufs bufs' : holds s bufs -> holds s bufs' -> bufs = bufs'.
Proof.
  intros H1 H2. apply list_eq. intros i. specialize (H1 (Z.of_nat i) ltac:(lia)). specialize (H2 (Z.of_nat i) ltac:(lia)).
  rewrite H1 in H2. injection H2 as H2. by rewrite Nat2Z.id in H2.
Qed.

Lemma reachable_message s bufs : msg_reachable s bufs -> @message s.1 s.2 bufs.
Proof.
  assert (Hstep : forall op bo m bufs r s' bufs',
    (exists r bo' m' bufs', msg_do op (bo, m) = Ret (r, (bo', m')) /\ msg_spec bo op bufs r bufs' /\ @message bo' m' bufs') ->
    msg_do op (bo, m) = Ret (r, s') -> holds s' bufs' -> @message s'.1 s'.2 bufs').
  { intros op bo m bs r s' bs' (r1 & bo1 & m1 & bs1 & E & _ & Hm) E' Hh. rewrite E in E'. injection E' as <- <-.
    by rewrite (holds_unique _ _ _ Hh (message_holds _ _ _ Hm)). }
  induction 1 as [[bo0 m0] bo room lens srcs r s bufs Hc Hdo Hpk Hh|[bo m] bufs op r s' bufs' Hr IH Hc Hdo Hs Hh].
  - apply (Hstep (MsgPack bo room lens srcs) bo0 m0 [] r s); [|done|done]. apply msg_do_ok; [done|].
    intros H. by destruct (H bo room lens srcs).
  - apply (Hstep op bo m bufs r s'); [|done|done]. by apply msg_do_ok.
Qed.

(** C10: A message is a list of buffers.  Whatever is done with it on hosts of either byte
    order, every operation returns, without a failed assertion or an access outside of the
    memory, and does with the bytes what it should do with the list: a message is packed
    into the room that was computed for it; a buffer is found if there is one and it is long
    enough, and a string if its NUL is where it should be; writes into a buffer leave the
    others as they are; shrinking cuts one buffer, and moves those behind it when asked to;
    and a host that unpacks what another one has sent accepts it and finds the same
    buffers. *)
Theorem message_refines_buffers s bufs op :
  msg_reachable s bufs -> msg_can bufs op ->
  exists r s' bufs', msg_do op s = Ret (r, s') /\ msg_spec s.1 op bufs r bufs' /\ msg_reachable s' bufs' /\ holds s' bufs'.
Proof.
  intros Hr Hc. destruct s as [bo m]. pose proof (reachable_message _ _ Hr) as Hm.
  destruct (msg_do_ok op bo m bufs) as (r & bo' & m' & bufs' & E & Hs & Hm'); [done|done|].
  pose proof (message_holds _ _ _ Hm') as Hh. exists r, (bo', m'), bufs'. split_and!; try done. by eapply mr_step.
Qed.

(** ** Bytes of any kind *)





