(* ===== verification/PtlBody.v ===== *)
(** * The body of a message

    [lustre/ptlrpc/pack_generic.c]: the first buffer of a message is [struct ptlrpc_body],
    or its older form without a job id.  Its fields are in the byte order of the sender; a
    request notes which of its buffers were swapped. *)

From stdpp Require Import list.
From S2P Require Import Prelude Memory PtlMsg.

Definition PTLRPC_MSG_VERSION : Z := 3.
Definition LUSTRE_VERSION_MASK : Z := 0xffff0000.
Definition PTL_RPC_MSG_ERR : Z := 4712.
Definition MSG_PTLRPC_HEADER_OFF : Z := 31.
Definition LDLM_BL_CALLBACK : Z := 104.
Definition LDLM_CP_CALLBACK : Z := 105.
Definition LDLM_GL_CALLBACK : Z := 106.
Definition LUSTRE_JOBID_SIZE : Z := 32.

(** ** Fields

    Where they are in the body, and how many bytes they have. *)

Definition pb_handle : Z := 0.
Definition pb_type : Z * nat := (8, 4%nat).
Definition pb_version : Z * nat := (12, 4%nat).
Definition pb_opc : Z * nat := (16, 4%nat).
Definition pb_status : Z * nat := (20, 4%nat).
Definition pb_last_xid : Z * nat := (24, 8%nat).
Definition pb_tag : Z * nat := (32, 2%nat).
Definition pb_last_committed : Z * nat := (40, 8%nat).
Definition pb_transno : Z * nat := (48, 8%nat).
Definition pb_flags : Z * nat := (56, 4%nat).
Definition pb_op_flags : Z * nat := (60, 4%nat).
Definition pb_conn_cnt : Z * nat := (64, 4%nat).
Definition pb_timeout : Z * nat := (68, 4%nat).
Definition pb_service_time : Z * nat := (72, 4%nat).
Definition pb_limit : Z * nat := (76, 4%nat).
Definition pb_slv : Z * nat := (80, 8%nat).
Definition pb_pre_versions (i : Z) : Z * nat := (88 + 8 * i, 8%nat).
Definition pb_mbits : Z * nat := (120, 8%nat).
Definition pb_jobid : Z := 152.

(** The fields that are swapped, in the order of [lustre_swab_ptlrpc_body]. *)
Definition swabbed_fields : list (Z * nat) :=
  [pb_type; pb_version; pb_opc; pb_status; pb_last_xid; pb_tag; pb_last_committed; pb_transno; pb_flags; pb_op_flags;
   pb_conn_cnt; pb_timeout; pb_service_time; pb_limit; pb_slv;
   pb_pre_versions 0; pb_pre_versions 1; pb_pre_versions 2; pb_pre_versions 3; pb_mbits].

Section Host.
Context {bo : byte_order}.

Definition lustre_swab_ptlrpc_body (msg : list Z) (body : Z) : run (list Z) := swab_fields msg body swabbed_fields.

Definition lustre_msg_ptlrpc_body (msg : list Z) : run (option Z) :=
  lustre_msg_buf_v2 msg MSG_PTLRPC_BODY_OFF PTLRPC_BODY_V2_SIZE.

(** The switch over the magic and the test for a body, which the functions below have. *)
Definition with_body {A} (msg : list Z) (e : run A) (k : Z -> run A) : run A :=
  magic ← get32 msg lm_magic;
  if magic =? LUSTRE_MSG_MAGIC_V2 then
    pb ← lustre_msg_ptlrpc_body msg;
    match pb with None => e | Some pb => k pb end
  else e.

Definition read_field (msg : list Z) (pb : Z) (f : Z * nat) : run Z := get_int f.2 msg (pb + f.1).
Definition write_field (msg : list Z) (pb : Z) (f : Z * nat) (x : Z) : run (list Z) := put_int f.2 msg (pb + f.1) x.

Definition get_field (f : Z * nat) (default : Z) (msg : list Z) : run Z :=
  with_body msg (Ret default) (fun pb => read_field msg pb f).
Definition set_field (f : Z * nat) (x : Z) (msg : list Z) : run (list Z) :=
  with_body msg LBUG (fun pb => write_field msg pb f x).
Definition update_field (f : Z * nat) (g : Z -> Z) (msg : list Z) : run (list Z) :=
  with_body msg LBUG (fun pb => x ← read_field msg pb f; write_field msg pb f (g x)).

(** ** Reading *)

Definition lustre_msg_get_flags := get_field pb_flags 0.
Definition lustre_msg_get_op_flags := get_field pb_op_flags 0.
Definition lustre_msg_get_type := get_field pb_type PTL_RPC_MSG_ERR.
Definition lustre_msg_get_version := get_field pb_version 0.
Definition lustre_msg_get_opc := get_field pb_opc 0.
Definition lustre_msg_get_last_xid := get_field pb_last_xid 0.
Definition lustre_msg_get_tag := get_field pb_tag 0.
Definition lustre_msg_get_last_committed := get_field pb_last_committed 0.
Definition lustre_msg_get_transno := get_field pb_transno 0.
Definition lustre_msg_get_status (msg : list Z) : run Z := x ← get_field pb_status (- EINVAL) msg; Ret (s32 x).
Definition lustre_msg_get_slv := get_field pb_slv (u64 (- EINVAL)).
Definition lustre_msg_get_limit := get_field pb_limit (u32 (- EINVAL)).
Definition lustre_msg_get_conn_cnt := get_field pb_conn_cnt 0.
Definition lustre_msg_get_timeout := get_field pb_timeout 0.
Definition lustre_msg_get_service_time := get_field pb_service_time 0.
Definition lustre_msg_get_mbits := get_field pb_mbits 0.

(** These give pointers. *)
Definition lustre_msg_get_handle (msg : list Z) : run (option Z) :=
  with_body msg (Ret None) (fun pb => Ret (Some (pb + pb_handle))).
Definition lustre_msg_get_versions (msg : list Z) : run (option Z) :=
  with_body msg (Ret None) (fun pb => Ret (Some (pb + (pb_pre_versions 0).1))).
Definition lustre_msg_get_jobid (msg : list Z) : run (option Z) :=
  magic ← get32 msg lm_magic;
  if magic =? LUSTRE_MSG_MAGIC_V2 then
    pb ← lustre_msg_buf_v2 msg MSG_PTLRPC_BODY_OFF PTLRPC_BODY_SIZE;
    match pb with None => Ret None | Some pb => Ret (Some (pb + pb_jobid)) end
  else Ret None.

Definition lustre_msghdr_get_flags (msg : list Z) : run Z :=
  magic ← get32 msg lm_magic; if magic =? LUSTRE_MSG_MAGIC_V2 then get32 msg lm_flags else Ret 0.
Definition lustre_msg_get_magic (msg : list Z) : run Z :=
  magic ← get32 msg lm_magic; Ret (if magic =? LUSTRE_MSG_MAGIC_V2 then magic else 0).
Definition lustre_msg_get_cksum (msg : list Z) : run Z :=
  magic ← get32 msg lm_magic; if magic =? LUSTRE_MSG_MAGIC_V2 then get32 msg lm_cksum else Ret 0.

(** [crc32] is [cfs_crypto_hash_digest] with [CFS_HASH_ALG_CRC32]. *)
Definition lustre_msg_calc_cksum (crc32 : list Z -> Z) (msg : list Z) : run Z :=
  magic ← get32 msg lm_magic;
  if magic =? LUSTRE_MSG_MAGIC_V2 then
    pb ← lustre_msg_ptlrpc_body msg;
    len ← lustre_msg_buflen msg MSG_PTLRPC_BODY_OFF;
    match pb with None => LBUG | Some pb => bs ← load msg pb len; Ret (crc32 bs) end
  else Ret 0.

(** ** Writing *)

Definition lustre_msg_add_flags (msg : list Z) (flags : Z) := update_field pb_flags (fun x => Z.lor x flags) msg.
Definition lustre_msg_set_flags (msg : list Z) (flags : Z) := set_field pb_flags flags msg.
Definition lustre_msg_clear_flags (msg : list Z) (flags : Z) := update_field pb_flags (fun x => Z.land x (Z.lnot flags)) msg.
Definition lustre_msg_add_op_flags (msg : list Z) (flags : Z) := update_field pb_op_flags (fun x => Z.lor x flags) msg.
Definition lustre_msg_add_version (msg : list Z) (version : Z) := update_field pb_version (fun x => Z.lor x version) msg.
Definition lustre_msg_set_type (msg : list Z) (type : Z) := set_field pb_type type msg.
Definition lustre_msg_set_opc (msg : list Z) (opc : Z) := set_field pb_opc opc msg.
Definition lustre_msg_set_last_xid (msg : list Z) (last_xid : Z) := set_field pb_last_xid last_xid msg.
Definition lustre_msg_set_tag (msg : list Z) (tag : Z) := set_field pb_tag tag msg.
Definition lustre_msg_set_last_committed (msg : list Z) (last_committed : Z) := set_field pb_last_committed last_committed msg.
Definition lustre_msg_set_transno (msg : list Z) (transno : Z) := set_field pb_transno transno msg.
Definition lustre_msg_set_status (msg : list Z) (status : Z) := set_field pb_status status msg.
Definition lustre_msg_set_conn_cnt (msg : list Z) (conn_cnt : Z) := set_field pb_conn_cnt conn_cnt msg.
Definition lustre_msg_set_timeout (msg : list Z) (timeout : Z) := set_field pb_timeout timeout msg.
Definition lustre_msg_set_service_time (msg : list Z) (service_time : Z) := set_field pb_service_time service_time msg.
Definition lustre_msg_set_mbits (msg : list Z) (mbits : Z) := set_field pb_mbits mbits msg.

(** These do nothing when there is no body. *)
Definition lustre_msg_set_slv (msg : list Z) (slv : Z) : run (list Z) :=
  with_body msg (Ret msg) (fun pb => write_field msg pb pb_slv slv).
Definition lustre_msg_set_limit (msg : list Z) (limit : Z) : run (list Z) :=
  with_body msg (Ret msg) (fun pb => write_field msg pb pb_limit limit).

Definition lustre_msg_set_handle (msg : list Z) (handle : list Z) : run (list Z) :=
  with_body msg LBUG (fun pb => store msg (pb + pb_handle) handle).

Definition lustre_msg_set_versions (msg : list Z) (versions : list Z) : run (list Z) :=
  with_body msg LBUG (fun pb =>
    v0 ← arr versions 0; msg ← write_field msg pb (pb_pre_versions 0) v0;
    v1 ← arr versions 1; msg ← write_field msg pb (pb_pre_versions 1) v1;
    v2 ← arr versions 2; msg ← write_field msg pb (pb_pre_versions 2) v2;
    v3 ← arr versions 3; write_field msg pb (pb_pre_versions 3) v3).

(** [current] is what [lustre_get_jobid] makes of the job id of the process. *)
Definition lustre_msg_set_jobid (current : list Z) (msg : list Z) (jobid : option (list Z)) : run (list Z) :=
  magic ← get32 msg lm_magic;
  if magic =? LUSTRE_MSG_MAGIC_V2 then
    opc ← lustre_msg_get_opc msg;
    if (opc =? 0) || (opc =? LDLM_BL_CALLBACK) || (opc =? LDLM_CP_CALLBACK) || (opc =? LDLM_GL_CALLBACK) then Ret msg
    else
      pb ← lustre_msg_buf_v2 msg MSG_PTLRPC_BODY_OFF PTLRPC_BODY_SIZE;
      match pb with
      | None => LBUG
      | Some pb =>
          match jobid with
          | Some jobid => bs ← load jobid 0 LUSTRE_JOBID_SIZE; store msg (pb + pb_jobid) bs
          | None =>
              c ← load msg (pb + pb_jobid) 1;
              if nth 0 c 0 =? 0 then bs ← load current 0 LUSTRE_JOBID_SIZE; store msg (pb + pb_jobid) bs else Ret msg
          end
      end
  else LBUG.

Definition lustre_msghdr_set_flags (msg : list Z) (flags : Z) : run (list Z) :=
  magic ← get32 msg lm_magic; if magic =? LUSTRE_MSG_MAGIC_V2 then put32 msg lm_flags flags else LBUG.
Definition lustre_msg_set_cksum (msg : list Z) (cksum : Z) : run (list Z) :=
  magic ← get32 msg lm_magic; if magic =? LUSTRE_MSG_MAGIC_V2 then put32 msg lm_cksum cksum else LBUG.

Definition lustre_msg_check_version_v2 (msg : list Z) (version : Z) : run Z :=
  ver ← lustre_msg_get_version msg;
  Ret (Z.b2z (negb (Z.land ver LUSTRE_VERSION_MASK =? version))).

Definition lustre_msg_check_version (msg : list Z) (version : Z) : run Z :=
  magic ← get32 msg lm_magic;
  if magic =? LUSTRE_MSG_MAGIC_V1 then Ret (- EINVAL)
  else if magic =? LUSTRE_MSG_MAGIC_V2 then lustre_msg_check_version_v2 msg version
  else Ret (- EPROTO).
End Host.

(** ** Requests *)

(** [rq_reqmsg] and [rq_repmsg] are the messages they point to. *)
Record ptlrpc_request := PtlrpcRequest {
  rq_reqmsg : list Z;
  rq_repmsg : list Z;
  rq_req_swab_mask : Z;
  rq_rep_swab_mask : Z
}.

(** The message and the mask of a request, or of its reply. *)
Definition rq_msg (inout : bool) (req : ptlrpc_request) : list Z := if inout then rq_reqmsg req else rq_repmsg req.
Definition rq_mask (inout : bool) (req : ptlrpc_request) : Z := if inout then rq_req_swab_mask req else rq_rep_swab_mask req.
Definition set_msg (inout : bool) (req : ptlrpc_request) (m : list Z) : ptlrpc_request :=
  if inout then PtlrpcRequest m (rq_repmsg req) (rq_req_swab_mask req) (rq_rep_swab_mask req)
  else PtlrpcRequest (rq_reqmsg req) m (rq_req_swab_mask req) (rq_rep_swab_mask req).
Definition set_mask (inout : bool) (req : ptlrpc_request) (mask : Z) : ptlrpc_request :=
  if inout then PtlrpcRequest (rq_reqmsg req) (rq_repmsg req) mask (rq_rep_swab_mask req)
  else PtlrpcRequest (rq_reqmsg req) (rq_repmsg req) (rq_req_swab_mask req) mask.

(** [lustre_req_swabbed] and [lustre_rep_swabbed]. *)
Definition lustre_swabbed (inout : bool) (req : ptlrpc_request) (index : Z) : run bool :=
  lassert index <? 32;
  Ret (negb (Z.land (rq_mask inout req) (Z.shiftl 1 index) =? 0)).

(** [lustre_set_req_swabbed] and [lustre_set_rep_swabbed]. *)
Definition lustre_set_swabbed (inout : bool) (req : ptlrpc_request) (index : Z) : run ptlrpc_request :=
  lassert index <? 32;
  lassert Z.land (rq_mask inout req) (Z.shiftl 1 index) =? 0;
  Ret (set_mask inout req (Z.lor (rq_mask inout req) (Z.shiftl 1 index))).

Definition ptlrpc_buf_set_swabbed (req : ptlrpc_request) (inout : bool) (index : Z) : run ptlrpc_request :=
  lustre_set_swabbed inout req index.

Definition ptlrpc_buf_need_swab (req : ptlrpc_request) (inout : bool) (index : Z) : run bool :=
  need ← lustre_swabbed inout req MSG_PTLRPC_HEADER_OFF;
  if (need : bool) then done ← lustre_swabbed inout req index; Ret (negb done) else Ret false.

Section Host.
Context {bo : byte_order}.

(** [ptlrpc_unpack_req_msg] and [ptlrpc_unpack_rep_msg]. *)
Definition ptlrpc_unpack_msg (inout : bool) (req : ptlrpc_request) (len : Z) : run (Z * ptlrpc_request) :=
  r ← __lustre_unpack_msg (rq_msg inout req) len;
  let req := set_msg inout req r.2 in
  if r.1 =? 1 then req ← lustre_set_swabbed inout req MSG_PTLRPC_HEADER_OFF; Ret (0, req) else Ret (r.1, req).

(** [ntoh] is [ptlrpc_status_ntoh]. *)
Definition lustre_unpack_ptlrpc_body_v2 (ntoh : Z -> Z) (req : ptlrpc_request) (inout : bool) (offset : Z)
    : run (Z * ptlrpc_request) :=
  pb ← lustre_msg_buf_v2 (rq_msg inout req) offset PTLRPC_BODY_V2_SIZE;
  match pb with
  | None => Ret (- EFAULT, req)
  | Some pb =>
      need ← ptlrpc_buf_need_swab req inout offset;
      req ← (if (need : bool) then
               m ← lustre_swab_ptlrpc_body (rq_msg inout req) pb;
               ptlrpc_buf_set_swabbed (set_msg inout req m) inout offset
             else Ret req);
      ver ← read_field (rq_msg inout req) pb pb_version;
      if negb (Z.land ver (Z.lnot LUSTRE_VERSION_MASK) =? PTLRPC_MSG_VERSION) then Ret (- EINVAL, req)
      else if inout then Ret (0, req)
      else
        st ← read_field (rq_msg inout req) pb pb_status;
        m ← write_field (rq_msg inout req) pb pb_status (ntoh (s32 st));
        Ret (0, set_msg inout req m)
  end.

(** [lustre_unpack_req_ptlrpc_body] and [lustre_unpack_rep_ptlrpc_body]. *)
Definition lustre_unpack_ptlrpc_body (ntoh : Z -> Z) (inout : bool) (req : ptlrpc_request) (offset : Z) : run (Z * ptlrpc_request) :=
  magic ← get32 (rq_msg inout req) lm_magic;
  if magic =? LUSTRE_MSG_MAGIC_V2 then lustre_unpack_ptlrpc_body_v2 ntoh req inout offset else Ret (- EINVAL, req).

(** [alloc] is [sptlrpc_cli_alloc_reqbuf]: 0 and a buffer, or an error. *)
Definition lustre_pack_request_v2 (alloc : Z -> Z * list Z) (count : Z) (lens : list Z) (bufs : option (list (option (list Z))))
    : run (Z * list Z) :=
  reqlen ← lustre_msg_size_v2 count (arr lens);
  let '(rc, reqmsg) := alloc (s32 reqlen) in
  if negb (rc =? 0) then Ret (rc, reqmsg)
  else
    reqmsg ← lustre_init_msg_v2 reqmsg count lens bufs;
    reqmsg ← lustre_msg_add_version reqmsg PTLRPC_MSG_VERSION;
    Ret (0, reqmsg).

Definition lustre_pack_request (alloc : Z -> Z * list Z) (count : Z) (lens : option (list Z)) (bufs : option (list (option (list Z))))
    : run (Z * list Z) :=
  lens ← match lens with None => lassert count =? 1; Ret [PTLRPC_BODY_SIZE] | Some lens => Ret lens end;
  lassert 0 <? count;
  len ← arr lens MSG_PTLRPC_BODY_OFF;
  lassert len =? PTLRPC_BODY_SIZE;
  lustre_pack_request_v2 alloc count lens bufs.
End Host.
