(* ===== verification/PtlBodyProps.v ===== *)
(** The fields of the body of a message ([lustre/ptlrpc/pack_generic.c]): what is set is what
    is read, on the host that sets it and on one of another byte order that unpacks it. *)

From stdpp Require Import list.
From S2P Require Import Prelude Memory PtlMsg PtlMsgInv PtlMsgOps PtlMsgWire PtlMsgProps PtlBody.

(** ** Fields of a buffer *)

Record body_msg {bo : byte_order} (m : list Z) (bufs : list (list Z)) (b : list Z) : Prop := {
  bm_msg : message m bufs;
  bm_first : bufs !! 0%nat = Some b;
  bm_size : PTLRPC_BODY_V2_SIZE <= zlen b
}.

(** Where the body is. *)
Definition body_off (bufs : list (list Z)) : Z := hdr_size (zlen (lens_of bufs)).

Definition field_in (size : Z) (f : Z * nat) : Prop := 0 <= f.1 /\ f.1 + Z.of_nat f.2 <= size.

Section Host.
Context {bo : byte_order}.

Lemma body_at m bufs b : body_msg m bufs b -> load m (body_off bufs) (zlen b) = Ret b /\ offset (lens_of bufs) 0 = body_off bufs.
Proof.
  intros [Hm Hb _]. assert (E : offset (lens_of bufs) 0 = body_off bufs) by (unfold offset, body_off; rewrite take_0; cbn [sum_round foldr]; lia).
  split; [|done]. rewrite <-E. by apply (mg_data _ _ Hm).
Qed.

Lemma first_buf m bufs b size : body_msg m bufs b -> lustre_msg_buf_v2 m MSG_PTLRPC_BODY_OFF size = Ret (if zlen b <? size then None else Some (body_off bufs)).
Proof.
  intros Hm. rewrite (proj2 (message_buf _ _ _ _ (bm_msg _ _ _ Hm) ltac:(done))), (proj1 (message_buf _ _ _ _ (bm_msg _ _ _ Hm) ltac:(done))).
  change (Z.to_nat 0) with 0%nat. by rewrite (bm_first _ _ _ Hm), (proj2 (body_at _ _ _ Hm)).
Qed.

Lemma with_body_ok {A} m bufs b (e : run A) k : body_msg m bufs b -> with_body m e k = k (body_off bufs).
Proof.
  intros Hm. unfold with_body, lustre_msg_ptlrpc_body. rewrite (magic_switch _ _ _ _ (mg_header _ _ (bm_msg _ _ _ Hm))), (first_buf _ _ _ _ Hm).
  pose proof (bm_size _ _ _ Hm). by rewrite (proj2 (Z.ltb_ge _ _)).
Qed.

Lemma field_size f : field_in PTLRPC_BODY_V2_SIZE f -> forall m bufs b, body_msg m bufs b -> field_in (zlen b) f.
Proof. intros [H1 H2] m bufs b Hm. pose proof (bm_size _ _ _ Hm). split; lia. Qed.

Lemma read_field_ok m bufs b f : body_msg m bufs b -> field_in (zlen b) f -> read_field m (body_off bufs) f = get_int f.2 b f.1.
Proof. intros Hm [H1 H2]. unfold read_field, get_int. by rewrite (load_sub _ _ _ _ f.1 (Z.of_nat f.2) (proj1 (body_at _ _ _ Hm))). Qed.

(** Writing into the body. *)
Lemma store_body m bufs b o cs :
  body_msg m bufs b -> 0 <= o -> o + zlen cs <= zlen b -> Forall is_byte cs ->
  exists m' b', store m (body_off bufs + o) cs = Ret m' /\ store b o cs = Ret b' /\ body_msg m' (<[0%nat:=b']> bufs) b'
    /\ body_off (<[0%nat:=b']> bufs) = body_off bufs.
Proof.
  intros Hm H1 H2 Hc. destruct (store_Ret b o cs H1 H2) as [b' Eb].
  destruct (message_write m bufs 0 b o cs b' (bm_msg _ _ _ Hm) (bm_first _ _ _ Hm) Eb Hc) as (m' & Em & Hm').
  rewrite (proj2 (body_at _ _ _ Hm)) in Em. exists m', b'. pose proof (lookup_lt_Some _ _ _ (bm_first _ _ _ Hm)). split_and!; [done|done| |].
  - split; [done|by apply list_lookup_insert_eq|]. rewrite (store_length _ _ _ _ Eb). apply (bm_size _ _ _ Hm).
  - unfold body_off. by rewrite !lens_length, length_insert.
Qed.

Lemma write_field_ok m bufs b f x :
  body_msg m bufs b -> field_in (zlen b) f ->
  exists m' b', write_field m (body_off bufs) f x = Ret m' /\ put_int f.2 b f.1 x = Ret b' /\ body_msg m' (<[0%nat:=b']> bufs) b'
    /\ body_off (<[0%nat:=b']> bufs) = body_off bufs.
Proof.
  intros Hm [H1 H2]. unfold write_field, put_int. apply (store_body m bufs b f.1 _ Hm H1); [by rewrite length_host|apply host_is_byte].
Qed.
End Host.

(** ** What is read and what is set *)

Inductive pb_get :=
| GetFlags | GetOpFlags | GetType | GetVersion | GetOpc | GetLastXid | GetTag | GetLastCommitted | GetTransno | GetStatus | GetSlv
| GetLimit | GetConnCnt | GetTimeout | GetServiceTime | GetMbits | GetHandle | GetVersions | GetJobid.

#[export] Instance pb_get_eq_dec : EqDecision pb_get.
Proof. solve_decision. Defined.

Inductive pb_set :=
| AddFlags (x : Z) | SetFlags (x : Z) | ClearFlags (x : Z) | AddOpFlags (x : Z) | AddVersion (x : Z) | SetType (x : Z) | SetOpc (x : Z)
| SetLastXid (x : Z) | SetTag (x : Z) | SetLastCommitted (x : Z) | SetTransno (x : Z) | SetStatus (x : Z) | SetConnCnt (x : Z)
| SetTimeout (x : Z) | SetServiceTime (x : Z) | SetMbits (x : Z) | SetSlv (x : Z) | SetLimit (x : Z)
| SetHandle (h : list Z) | SetVersions (v : list Z) | SetJobid (current : list Z) (jobid : option (list Z)).

(** What a pointer into the body is used for. *)
Definition read_ptr {bo : byte_order} (m : list Z) (ptr : option Z) (fields : list (Z * nat)) : run (list Z) :=
  match ptr with
  | None => Ret []
  | Some p => foldr (fun f r => x ← get_int f.2 m (p + f.1); l ← r; Ret (x :: l)) (Ret []) fields
  end.

Definition byte_fields (n : nat) : list (Z * nat) := map (fun i => (Z.of_nat i, 1%nat)) (seq 0 n).
Definition version_fields : list (Z * nat) := [(0, 8%nat); (8, 8%nat); (16, 8%nat); (24, 8%nat)].

Definition do_get {bo : byte_order} (g : pb_get) (m : list Z) : run (list Z) :=
  let num (r : run Z) := x ← r; Ret [x] in
  match g with
  | GetFlags => num (lustre_msg_get_flags m)
  | GetOpFlags => num (lustre_msg_get_op_flags m)
  | GetType => num (lustre_msg_get_type m)
  | GetVersion => num (lustre_msg_get_version m)
  | GetOpc => num (lustre_msg_get_opc m)
  | GetLastXid => num (lustre_msg_get_last_xid m)
  | GetTag => num (lustre_msg_get_tag m)
  | GetLastCommitted => num (lustre_msg_get_last_committed m)
  | GetTransno => num (lustre_msg_get_transno m)
  | GetStatus => num (lustre_msg_get_status m)
  | GetSlv => num (lustre_msg_get_slv m)
  | GetLimit => num (lustre_msg_get_limit m)
  | GetConnCnt => num (lustre_msg_get_conn_cnt m)
  | GetTimeout => num (lustre_msg_get_timeout m)
  | GetServiceTime => num (lustre_msg_get_service_time m)
  | GetMbits => num (lustre_msg_get_mbits m)
  | GetHandle => p ← lustre_msg_get_handle m; read_ptr m p (byte_fields 8)
  | GetVersions => p ← lustre_msg_get_versions m; read_ptr m p version_fields
  | GetJobid => p ← lustre_msg_get_jobid m; read_ptr m p (byte_fields 32)
  end.

Definition do_set {bo : byte_order} (s : pb_set) (m : list Z) : run (list Z) :=
  match s with
  | AddFlags x => lustre_msg_add_flags m x
  | SetFlags x => lustre_msg_set_flags m x
  | ClearFlags x => lustre_msg_clear_flags m x
  | AddOpFlags x => lustre_msg_add_op_flags m x
  | AddVersion x => lustre_msg_add_version m x
  | SetType x => lustre_msg_set_type m x
  | SetOpc x => lustre_msg_set_opc m x
  | SetLastXid x => lustre_msg_set_last_xid m x
  | SetTag x => lustre_msg_set_tag m x
  | SetLastCommitted x => lustre_msg_set_last_committed m x
  | SetTransno x => lustre_msg_set_transno m x
  | SetStatus x => lustre_msg_set_status m x
  | SetConnCnt x => lustre_msg_set_conn_cnt m x
  | SetTimeout x => lustre_msg_set_timeout m x
  | SetServiceTime x => lustre_msg_set_service_time m x
  | SetMbits x => lustre_msg_set_mbits m x
  | SetSlv x => lustre_msg_set_slv m x
  | SetLimit x => lustre_msg_set_limit m x
  | SetHandle h => lustre_msg_set_handle m h
  | SetVersions v => lustre_msg_set_versions m v
  | SetJobid current jobid => lustre_msg_set_jobid current m jobid
  end.

(** ** The body as fields *)

(** The fields of the body that are read. *)
Definition get_fields (g : pb_get) : list (Z * nat) :=
  match g with
  | GetFlags => [pb_flags] | GetOpFlags => [pb_op_flags] | GetType => [pb_type] | GetVersion => [pb_version] | GetOpc => [pb_opc]
  | GetLastXid => [pb_last_xid] | GetTag => [pb_tag] | GetLastCommitted => [pb_last_committed] | GetTransno => [pb_transno]
  | GetStatus => [pb_status] | GetSlv => [pb_slv] | GetLimit => [pb_limit] | GetConnCnt => [pb_conn_cnt] | GetTimeout => [pb_timeout]
  | GetServiceTime => [pb_service_time] | GetMbits => [pb_mbits]
  | GetHandle => byte_fields 8
  | GetVersions => [pb_pre_versions 0; pb_pre_versions 1; pb_pre_versions 2; pb_pre_versions 3]
  | GetJobid => map (fun f : Z * nat => (pb_jobid + f.1, f.2)) (byte_fields 32)
  end.

Definition read_fields {bo : byte_order} (b : list Z) (fs : list (Z * nat)) : run (list Z) :=
  foldr (fun f r => x ← get_int f.2 b f.1; l ← r; Ret (x :: l)) (Ret []) fs.

(** The status is signed; there is no job id in the older body. *)
Definition view {bo : byte_order} (g : pb_get) (b : list Z) : run (list Z) :=
  match g with
  | GetStatus => l ← read_fields b (get_fields g); Ret (map s32 l)
  | GetJobid => if zlen b <? PTLRPC_BODY_SIZE then Ret [] else read_fields b (get_fields g)
  | _ => read_fields b (get_fields g)
  end.

Section View.
Context {bo : byte_order}.

Lemma read_fields_msg m bufs b fs :
  body_msg m bufs b -> Forall (field_in (zlen b)) fs ->
  foldr (fun f r => x ← get_int f.2 m (body_off bufs + f.1); l ← r; Ret (x :: l)) (Ret []) fs = read_fields b fs.
Proof.
  intros Hm. induction 1 as [|f fs Hf _ IH]; [done|]. cbn [foldr read_fields]. fold (read_fields b fs). rewrite IH.
  by rewrite <-(read_field_ok _ _ _ _ Hm Hf).
Qed.

Lemma read_ptr_shift m base o fs :
  read_ptr m (Some (base + o)) fs =
  foldr (fun f r => x ← get_int f.2 m (base + f.1); l ← r; Ret (x :: l)) (Ret []) (map (fun f : Z * nat => (o + f.1, f.2)) fs).
Proof. unfold read_ptr. induction fs as [|f fs IH]; [done|]. cbn [foldr map fst snd]. rewrite IH. by rewrite Z.add_assoc. Qed.

Lemma fields_fit size fs : forallb (fun f : Z * nat => (0 <=? f.1) && (f.1 + Z.of_nat f.2 <=? size)) fs = true -> forall n, size <= n -> Forall (field_in n) fs.
Proof.
  intros H n Hn. apply Forall_forall. intros f Hf. rewrite forallb_forall in H. apply list_elem_of_In in Hf. specialize (H f Hf).
  apply andb_true_iff in H as [H1%Z.leb_le H2%Z.leb_le]. split; lia.
Qed.

(** Every function that reads gives its fields. *)
Lemma do_get_view m bufs b g : body_msg m bufs b -> do_get g m = view g b.
Proof.
  intros Hm. pose proof (bm_size _ _ _ Hm) as Hs.
  assert (Hnum : forall f d, field_in PTLRPC_BODY_V2_SIZE f -> (x ← get_field f d m; Ret [x]) = read_fields b [f]).
  { intros f d Hf. unfold get_field. rewrite (with_body_ok _ _ _ _ _ Hm), (read_field_ok _ _ _ _ Hm (field_size f Hf _ _ _ Hm)). done. }
  destruct g; cbn [do_get view get_fields]; try (apply Hnum; unfold PTLRPC_BODY_V2_SIZE; split; cbn; lia).
  - rewrite <-(Hnum pb_status (- EINVAL)) by (unfold PTLRPC_BODY_V2_SIZE; split; cbn; lia). unfold lustre_msg_get_status.
    by destruct (get_field pb_status _ m).
  - unfold lustre_msg_get_handle. rewrite (with_body_ok _ _ _ _ _ Hm). cbn [mbind run_bind]. rewrite read_ptr_shift.
    apply (read_fields_msg _ _ _ _ Hm). by apply (fields_fit 8); [|unfold PTLRPC_BODY_V2_SIZE in Hs; lia].
  - unfold lustre_msg_get_versions. rewrite (with_body_ok _ _ _ _ _ Hm). cbn [mbind run_bind]. rewrite read_ptr_shift.
    apply (read_fields_msg _ _ _ _ Hm). by apply (fields_fit PTLRPC_BODY_V2_SIZE).
  - unfold lustre_msg_get_jobid. rewrite (magic_switch _ _ _ _ (mg_header _ _ (bm_msg _ _ _ Hm))), (first_buf _ _ _ _ Hm).
    destruct (Z.ltb_spec (zlen b) PTLRPC_BODY_SIZE); [done|]. cbn [mbind run_bind]. rewrite read_ptr_shift.
    apply (read_fields_msg _ _ _ _ Hm). by apply (fields_fit PTLRPC_BODY_SIZE).
Qed.

(** Fields that are not written stay. *)
Lemma read_fields_store b o cs b' fs :
  store b o cs = Ret b' -> forallb (separate (o, length cs)) fs = true -> read_fields b' fs = read_fields b fs.
Proof.
  intros E. induction fs as [|f fs IH]; [done|]. cbn [forallb]. intros [Hf Hfs]%andb_true_iff. cbn [read_fields foldr].
  fold (read_fields b' fs) (read_fields b fs). rewrite (IH Hfs). unfold get_int. rewrite (load_store_other _ _ _ _ f.1 (Z.of_nat f.2) E); [done|].
  unfold separate in Hf. apply orb_true_iff in Hf as [Hf%Z.leb_le|Hf%Z.leb_le]; cbn [fst snd] in Hf; lia.
Qed.
End View.

(** ** Setting fields *)

Definition no_jobid (opc : list Z) : bool :=
  match opc with
  | [opc] => (opc =? 0) || (opc =? LDLM_BL_CALLBACK) || (opc =? LDLM_CP_CALLBACK) || (opc =? LDLM_GL_CALLBACK)
  | _ => false
  end.

(** What is read after a function has set something, when [old] was read before. *)
Definition after_set (s : pb_set) (old : pb_get -> list Z) (g : pb_get) : list Z :=
  match s, g with
  | AddFlags x, GetFlags => map (fun y => Z.lor y x) (old g)
  | SetFlags x, GetFlags => [x]
  | ClearFlags x, GetFlags => map (fun y => Z.land y (Z.lnot x)) (old g)
  | AddOpFlags x, GetOpFlags => map (fun y => Z.lor y x) (old g)
  | AddVersion x, GetVersion => map (fun y => Z.lor y x) (old g)
  | SetType x, GetType | SetOpc x, GetOpc | SetLastXid x, GetLastXid | SetTag x, GetTag | SetLastCommitted x, GetLastCommitted
  | SetTransno x, GetTransno | SetConnCnt x, GetConnCnt | SetTimeout x, GetTimeout | SetServiceTime x, GetServiceTime
  | SetMbits x, GetMbits | SetSlv x, GetSlv => [x]
  | SetStatus x, GetStatus => [s32 x]
  | SetLimit x, GetLimit => [u32 x]
  | SetHandle h, GetHandle => h
  | SetVersions v, GetVersions => take 4 v
  | SetJobid current jobid, GetJobid =>
      if no_jobid (old GetOpc) then old g
      else match jobid with
           | Some j => take 32 j
           | None => if nth 0 (old g) 0 =? 0 then take 32 current else old g
           end
  | _, _ => old g
  end.

(** What the functions are called with. *)
Definition set_ok (size : Z) (s : pb_set) : Prop :=
  match s with
  | SetLastXid x | SetLastCommitted x | SetTransno x | SetMbits x | SetSlv x | SetLimit x => in_u64 x
  | SetTag x => in_u 16 x
  | SetHandle h => length h = 8%nat /\ Forall is_byte h
  | SetVersions v => (4 <= length v)%nat /\ Forall in_u64 v
  | SetJobid current jobid =>
      PTLRPC_BODY_SIZE <= size /\ 32 <= zlen current /\ Forall is_byte current
      /\ match jobid with Some j => 32 <= zlen j /\ Forall is_byte j | None => True end
  | AddFlags x | SetFlags x | ClearFlags x | AddOpFlags x | AddVersion x | SetType x | SetOpc x | SetStatus x | SetConnCnt x
  | SetTimeout x | SetServiceTime x => in_u32 x
  end.

Ltac field_fits := unfold PTLRPC_BODY_V2_SIZE; split; cbn; lia.

Section Set_.
Context {bo : byte_order}.

Lemma view_separate b o cs b' g : store b o cs = Ret b' -> forallb (separate (o, length cs)) (get_fields g) = true -> view g b' = view g b.
Proof.
  intros E H. pose proof (read_fields_store _ _ _ _ _ E H) as Hr. unfold view. rewrite (store_length _ _ _ _ E). destruct g; by rewrite ?Hr.
Qed.

Lemma view_put b f x b' g : put_int f.2 b f.1 x = Ret b' -> forallb (separate f) (get_fields g) = true -> view g b' = view g b.
Proof. intros E H. apply (view_separate b f.1 (host_bytes f.2 x)); [done|]. rewrite length_host. by destruct f. Qed.

Lemma read_put b f x b' : put_int f.2 b f.1 x = Ret b' -> 0 <= x < 256 ^ Z.of_nat f.2 -> read_fields b' [f] = Ret [x].
Proof. intros E Hx. cbn. by rewrite (get_put_same _ _ _ _ _ E Hx). Qed.

Definition written (m : list Z) (bufs : list (list Z)) (b m' b' : list Z) : Prop :=
  body_msg m' (<[0%nat:=b']> bufs) b' /\ body_off (<[0%nat:=b']> bufs) = body_off bufs.

Lemma set_field_ok m bufs b f x :
  body_msg m bufs b -> field_in PTLRPC_BODY_V2_SIZE f ->
  exists m' b', set_field f x m = Ret m' /\ put_int f.2 b f.1 x = Ret b' /\ written m bufs b m' b'.
Proof. intros Hm Hf. unfold set_field. rewrite (with_body_ok _ _ _ _ _ Hm). by apply write_field_ok; [|eapply field_size]. Qed.

Lemma update_field_ok m bufs b f h x :
  body_msg m bufs b -> field_in PTLRPC_BODY_V2_SIZE f -> read_fields b [f] = Ret [x] ->
  exists m' b', update_field f h m = Ret m' /\ put_int f.2 b f.1 (h x) = Ret b' /\ written m bufs b m' b'.
Proof.
  intros Hm Hf Hx. unfold update_field. rewrite (with_body_ok _ _ _ _ _ Hm), (read_field_ok _ _ _ _ Hm (field_size _ Hf _ _ _ Hm)).
  cbn in Hx. destruct (get_int f.2 b f.1) as [y|]; [|done]. injection Hx as ->. cbn [mbind run_bind]. by apply write_field_ok; [|eapply field_size].
Qed.

Lemma body_bytes m bufs b : body_msg m bufs b -> Forall is_byte b.
Proof. intros Hm. eapply message_bytes; [apply (bm_msg _ _ _ Hm)|apply (bm_first _ _ _ Hm)]. Qed.

Lemma read_fields_total b fs : Forall is_byte b -> Forall (field_in (zlen b)) fs -> exists l, read_fields b fs = Ret l /\ length l = length fs.
Proof.
  intros Hb. induction 1 as [|f fs [H1 H2] _ (l & IH & Hl)]; [by exists []|]. cbn [read_fields foldr]. fold (read_fields b fs). rewrite IH.
  destruct (get_bound f.2 b f.1 H1 H2 Hb) as (x & -> & _). exists (x :: l). split; [done|]. cbn. by rewrite Hl.
Qed.

Lemma read_one_bound b f x : Forall is_byte b -> read_fields b [f] = Ret [x] -> 0 <= x < 256 ^ Z.of_nat f.2.
Proof.
  intros Hb Hx. cbn in Hx. destruct (get_int f.2 b f.1) as [y|] eqn:E; [|done]. injection Hx as ->. by destruct (get_int_other bo bo _ _ _ _ E Hb).
Qed.

(** Bytes that are stored are read one by one. *)
Lemma read_bytes_range b o cs :
  load b o (zlen cs) = Ret cs -> Forall is_byte cs ->
  read_fields b (map (fun f : Z * nat => (o + f.1, f.2)) (byte_fields (length cs))) = Ret cs.
Proof.
  intros El Hc. assert (H : forall k (l : list Z), drop k cs = l ->
    read_fields b (map (fun f : Z * nat => (o + f.1, f.2)) (map (fun i => (Z.of_nat i, 1%nat)) (seq k (length l)))) = Ret l).
  { intros k l. revert k. induction l as [|c l IH]; intros k Hd; [done|]. cbn [length seq map read_fields foldr fst snd].
    assert (Hk : cs !! k = Some c) by (by rewrite <-(Nat.add_0_r k), <-lookup_drop, Hd). pose proof (lookup_lt_Some _ _ _ Hk).
    match goal with |- context [foldr _ _ ?fs] => change (foldr _ _ fs) with (read_fields b fs) end.
    rewrite (IH (S k)) by (by rewrite (drop_S _ _ _ Hk) in Hd; injection Hd).
    unfold get_int. change (Z.of_nat 1) with 1. rewrite (load_sub _ _ _ _ (Z.of_nat k) 1 El) by lia. rewrite load_Ret by lia. rewrite Nat2Z.id, Hd.
    change (take (Z.to_nat 1) (c :: l)) with [c]. cbn [mbind run_bind].
    replace (host_int [c]) with c by (unfold host_int; destruct bo; cbn; lia). done. }
  apply (H 0%nat cs). done.
Qed.

(** One field is set to [x], and the others are as before. *)
Ltac one_field Hold Ep Hx :=
  let g := fresh "g" in
  intros g; destruct g;
  first [ rewrite (view_put _ _ _ _ _ Ep) by reflexivity; by apply Hold
        | cbn [view get_fields after_set]; rewrite (read_put _ _ _ _ Ep) by exact Hx; done ].

Section Cases.
Context (m : list Z) (bufs : list (list Z)) (b : list Z) (old : pb_get -> list Z).
Context (Hm : body_msg m bufs b) (Hold : forall g, view g b = Ret (old g)).

Definition set_result (s : pb_set) : Prop :=
  exists m' b', do_set s m = Ret m' /\ written m bufs b m' b' /\ forall g, view g b' = Ret (after_set s old g).

Lemma set_versions_ok v : set_ok (zlen b) (SetVersions v) -> set_result (SetVersions v).
Proof.
  intros [Hl Hv]. destruct v as [|v0 [|v1 [|v2 [|v3 v]]]]; cbn in Hl; try lia.
  apply Forall_cons in Hv as [V0 Hv]. apply Forall_cons in Hv as [V1 Hv]. apply Forall_cons in Hv as [V2 Hv]. apply Forall_cons in Hv as [V3 _].
  unfold set_result. cbn [do_set]. unfold lustre_msg_set_versions. rewrite (with_body_ok _ _ _ _ _ Hm). cbn [arr Z.ltb Z.to_nat mbind run_bind].
  assert (F : forall i, 0 <= i <= 3 -> field_in PTLRPC_BODY_V2_SIZE (pb_pre_versions i)) by (intros i Hi; unfold PTLRPC_BODY_V2_SIZE; split; cbn; lia).
  destruct (write_field_ok m bufs b (pb_pre_versions 0) v0 Hm (field_size _ (F 0 ltac:(lia)) _ _ _ Hm)) as (m1 & b1 & E1 & P1 & W1 & O1).
  destruct (write_field_ok m1 _ b1 (pb_pre_versions 1) v1 W1 (field_size _ (F 1 ltac:(lia)) _ _ _ W1)) as (m2 & b2 & E2 & P2 & W2 & O2).
  destruct (write_field_ok m2 _ b2 (pb_pre_versions 2) v2 W2 (field_size _ (F 2 ltac:(lia)) _ _ _ W2)) as (m3 & b3 & E3 & P3 & W3 & O3).
  destruct (write_field_ok m3 _ b3 (pb_pre_versions 3) v3 W3 (field_size _ (F 3 ltac:(lia)) _ _ _ W3)) as (m4 & b4 & E4 & P4 & W4 & O4).
  rewrite O3 in O4, E4. rewrite O2 in O4, E4, E3. rewrite O1 in O4, E4, E3, E2. rewrite !list_insert_insert_eq in W4, O4.
  change (arr (v0 :: v1 :: v2 :: v3 :: v) 0) with (Ret v0). change (arr (v0 :: v1 :: v2 :: v3 :: v) 1) with (Ret v1).
  change (arr (v0 :: v1 :: v2 :: v3 :: v) 2) with (Ret v2). change (arr (v0 :: v1 :: v2 :: v3 :: v) 3) with (Ret v3).
  cbn [mbind run_bind]. rewrite E1. cbn [mbind run_bind]. rewrite E2. cbn [mbind run_bind]. rewrite E3. cbn [mbind run_bind].
  exists m4, b4. split_and!; [exact E4|by split|]. intros g.
  destruct g; try (rewrite (view_put _ _ _ _ _ P4), (view_put _ _ _ _ _ P3), (view_put _ _ _ _ _ P2), (view_put _ _ _ _ _ P1) by reflexivity; by apply Hold).
  cbn [view get_fields after_set read_fields foldr].
  rewrite (get_put_same _ _ _ _ _ P4 V3), (get_put_other _ _ _ _ _ _ _ P4), (get_put_same _ _ _ _ _ P3 V2) by (cbn; lia).
  rewrite (get_put_other _ _ _ _ _ _ _ P4), (get_put_other _ _ _ _ _ _ _ P3), (get_put_same _ _ _ _ _ P2 V1) by (cbn; lia).
  by rewrite (get_put_other _ _ _ _ _ _ _ P4), (get_put_other _ _ _ _ _ _ _ P3), (get_put_other _ _ _ _ _ _ _ P2), (get_put_same _ _ _ _ _ P1 V0) by (cbn; lia).
Qed.

Lemma store_view o cs g0 :
  0 <= o -> o + zlen cs <= zlen b -> Forall is_byte cs ->
  get_fields g0 = map (fun f : Z * nat => (o + f.1, f.2)) (byte_fields (length cs)) ->
  (forall g, g <> g0 -> forallb (separate (o, length cs)) (get_fields g) = true) ->
  exists m' b', store m (body_off bufs + o) cs = Ret m' /\ written m bufs b m' b' /\ zlen b' = zlen b
    /\ read_fields b' (get_fields g0) = Ret cs /\ forall g, g <> g0 -> view g b' = view g b.
Proof.
  intros H1 H2 Hc Hg0 Hsep. destruct (store_body m bufs b o cs Hm H1 H2 Hc) as (m' & b' & Em & Eb & Hm' & Ho). exists m', b'.
  split_and!; [done|by split|by rewrite (store_length _ _ _ _ Eb)| |].
  - rewrite Hg0. apply read_bytes_range; [by eapply load_store_same|done].
  - intros g Hg. eapply view_separate; [done|by apply Hsep].
Qed.

Lemma set_handle_ok h : set_ok (zlen b) (SetHandle h) -> set_result (SetHandle h).
Proof.
  intros [Hl Hh]. pose proof (bm_size _ _ _ Hm) as Hs. unfold PTLRPC_BODY_V2_SIZE in Hs. destruct (store_view 0 h GetHandle) as (m' & b' & E & W & _ & Hr & Hg); [lia|lia|done|by rewrite Hl|by rewrite Hl; intros []|].
  exists m', b'. split_and!; [|done|].
  - cbn [do_set]. unfold lustre_msg_set_handle. by rewrite (with_body_ok _ _ _ _ _ Hm).
  - intros g. destruct g; try (rewrite Hg by done; by apply Hold). exact Hr.
Qed.

Lemma written_refl : written m bufs b m b.
Proof. split; rewrite (list_insert_id bufs 0 b (bm_first _ _ _ Hm)); done. Qed.

Lemma jobid_store bs :
  PTLRPC_BODY_SIZE <= zlen b -> 32 <= zlen bs -> Forall is_byte bs ->
  exists m' b', (cs ← load bs 0 LUSTRE_JOBID_SIZE; store m (body_off bufs + pb_jobid) cs) = Ret m' /\ written m bufs b m' b'
    /\ forall g, view g b' = Ret (match g with GetJobid => take 32 bs | _ => old g end).
Proof.
  intros Hs Hl Hb. unfold PTLRPC_BODY_SIZE, LUSTRE_JOBID_SIZE, pb_jobid in *. rewrite load_Ret by lia. cbn [mbind run_bind]. change (drop (Z.to_nat 0) bs) with bs.
  change (Z.to_nat 32) with 32%nat. assert (Lt : length (take 32 bs) = 32%nat) by (rewrite length_take; lia).
  destruct (store_view 152 (take 32 bs) GetJobid) as (m' & b' & -> & W & Lb & Hr & Hg); [lia|lia|by apply Forall_take|by rewrite Lt|by rewrite Lt; intros []|].
  exists m', b'. split_and!; [done|done|]. intros g. destruct g; try (rewrite Hg by done; by apply Hold).
  unfold view. rewrite Lb, (proj2 (Z.ltb_ge _ _)) by (unfold PTLRPC_BODY_SIZE; lia). exact Hr.
Qed.

Lemma jobid_first : PTLRPC_BODY_SIZE <= zlen b -> exists c, load m (body_off bufs + pb_jobid) 1 = Ret c /\ nth 0 c 0 = nth 0 (old GetJobid) 0.
Proof.
  intros Hs. unfold PTLRPC_BODY_SIZE, pb_jobid in *. rewrite (load_sub _ _ _ _ 152 1 (proj1 (body_at _ _ _ Hm))) by lia.
  pose proof (Hold GetJobid) as Ho. unfold view in Ho. rewrite (proj2 (Z.ltb_ge _ _)) in Ho by (unfold PTLRPC_BODY_SIZE; lia).
  destruct (load_bound b 152 1) as (c & E & Lc); [lia..|]. exists c. split; [done|].
  cbn [get_fields byte_fields seq map read_fields foldr fst snd] in Ho. change (pb_jobid + Z.of_nat 0) with 152 in Ho.
  assert (G : get_int 1 b 152 = Ret (host_int c)) by (unfold get_int; change (Z.of_nat 1) with 1; by rewrite E).
  rewrite G in Ho. cbn [mbind run_bind] in Ho.
  match type of Ho with (?r ≫= _) = _ => destruct r; [|done] end. injection Ho as <-. destruct c as [|x [|]]; cbn in Lc; try lia.
  unfold host_int. destruct bo; cbn; lia.
Qed.

Lemma set_jobid_ok current jobid : set_ok (zlen b) (SetJobid current jobid) -> set_result (SetJobid current jobid).
Proof.
  intros (Hs & Hcl & Hcb & Hj). unfold set_result. cbn [do_set]. unfold lustre_msg_set_jobid.
  rewrite (magic_switch _ _ _ _ (mg_header _ _ (bm_msg _ _ _ Hm))). pose proof (do_get_view m bufs b GetOpc Hm) as Ho. rewrite Hold in Ho. cbn [do_get] in Ho.
  destruct (lustre_msg_get_opc m) as [opc|]; [|done]. injection Ho as Ho. cbn [mbind run_bind].
  change ((opc =? 0) || (opc =? LDLM_BL_CALLBACK) || (opc =? LDLM_CP_CALLBACK) || (opc =? LDLM_GL_CALLBACK)) with (no_jobid [opc]). rewrite Ho.
  assert (Hafter : forall m' b' l, written m bufs b m' b' -> (forall g, view g b' = Ret (match g with GetJobid => l | _ => old g end)) ->
    (no_jobid (old GetOpc) = false -> l = match jobid with Some j => take 32 j | None => if nth 0 (old GetJobid) 0 =? 0 then take 32 current else old GetJobid end) ->
    (no_jobid (old GetOpc) = true -> l = old GetJobid) ->
    forall g, view g b' = Ret (after_set (SetJobid current jobid) old g)).
  { intros m' b' l _ Hv Hn Hy g. rewrite Hv. destruct g; try done. cbn [after_set]. destruct (no_jobid (old GetOpc)); [by rewrite Hy|by rewrite Hn]. }
  assert (Hid : forall g, view g b = Ret (match g with GetJobid => old GetJobid | _ => old g end)) by (intros g; rewrite Hold; by destruct g).
  destruct (no_jobid (old GetOpc)) eqn:Hno.
  { exists m, b. split_and!; [done|apply written_refl|]. by apply (Hafter m b (old GetJobid) written_refl). }
  rewrite (first_buf _ _ _ _ Hm), (proj2 (Z.ltb_ge _ _)) by done. cbn [mbind run_bind]. destruct jobid as [j|].
  - destruct Hj as [Hjl Hjb]. destruct (jobid_store j Hs Hjl Hjb) as (m' & b' & -> & W & Hv). exists m', b'. split_and!; [done|done|]. by apply (Hafter m' b' (take 32 j)).
  - destruct (jobid_first Hs) as (c & -> & Hc). cbn [mbind run_bind]. rewrite Hc. destruct (nth 0 (old GetJobid) 0 =? 0) eqn:Hz.
    + destruct (jobid_store current Hs Hcl Hcb) as (m' & b' & -> & W & Hv). exists m', b'. split_and!; [done|done|]. by apply (Hafter m' b' (take 32 current)).
    + exists m, b. split_and!; [done|apply written_refl|]. by apply (Hafter m b (old GetJobid) written_refl).
Qed.

Lemma land_lnot_bound x y n : 0 <= x < n -> 0 <= Z.land x (Z.lnot y) < n.
Proof.
  intros Hx. split; [apply Z.land_nonneg; lia|]. set (z := Z.land x (Z.lnot y)).
  assert (Hd : Z.ldiff z x = 0).
  { apply Z.bits_inj'. intros i _. unfold z. rewrite Z.ldiff_spec, Z.land_spec, Z.bits_0. by destruct (Z.testbit x i), (Z.testbit (Z.lnot y) i). }
  apply Z.sub_nocarry_ldiff in Hd. assert (0 <= Z.ldiff x z) by (apply Z.ldiff_nonneg; lia). lia.
Qed.

Ltac set_one f x Hx :=
  destruct (set_field_ok m bufs b f x Hm) as (m' & b' & E & Ep & W); [field_fits|];
  exists m', b'; split_and!; [exact E|exact W|one_field Hold Ep Hx].

Lemma update_ok f g0 h s :
  field_in PTLRPC_BODY_V2_SIZE f -> get_fields g0 = [f] -> view g0 b = read_fields b [f] -> (forall b', view g0 b' = read_fields b' [f]) ->
  do_set s m = update_field f h m -> (forall x, 0 <= x < 256 ^ Z.of_nat f.2 -> 0 <= h x < 256 ^ Z.of_nat f.2) ->
  (forall g, g <> g0 -> forallb (separate f) (get_fields g) = true) ->
  (forall g, after_set s old g = match decide (forallb (separate f) (get_fields g) = true) with left _ => old g | right _ => map h (old g) end) ->
  set_result s.
Proof.
  intros Hf Hg0 Hv Hv' Hdo Hh Hsep Haft. pose proof (Hold g0) as Ho. rewrite Hv in Ho.
  destruct (read_fields_total b [f] (body_bytes _ _ _ Hm)) as (l & El & Ll); [constructor; [by eapply field_size|done]|].
  destruct l as [|x [|]]; try done. rewrite El in Ho. injection Ho as Ho. pose proof (read_one_bound _ _ _ (body_bytes _ _ _ Hm) El) as Hx.
  destruct (update_field_ok m bufs b f h x Hm Hf El) as (m' & b' & E & Ep & W). exists m', b'. rewrite Hdo. split_and!; [done|done|].
  intros g. rewrite Haft. case_decide as Hd; [by rewrite (view_put _ _ _ _ _ Ep Hd)|].
  destruct (decide (g = g0)) as [->|Hne]; [|by destruct Hd; apply Hsep].
  rewrite Hv', (read_put _ _ _ _ Ep (Hh _ Hx)), <-Ho. done.
Qed.

Ltac update_one f g0 := eapply (update_ok f g0); [field_fits|done|done|done|reflexivity| |by intros []|by intros []].

Lemma do_set_ok s : set_ok (zlen b) s -> set_result s.
Proof.
  intros Hs. destruct s as [x|x|x|x|x|x|x|x|x|x|x|x|x|x|x|x|x|x|h|v|current jobid].
  - update_one pb_flags GetFlags. intros y Hy. by apply (lor_bound 32).
  - set_one pb_flags x Hs.
  - update_one pb_flags GetFlags. intros y Hy. by apply land_lnot_bound.
  - update_one pb_op_flags GetOpFlags. intros y Hy. by apply (lor_bound 32).
  - update_one pb_version GetVersion. intros y Hy. by apply (lor_bound 32).
  - set_one pb_type x Hs.
  - set_one pb_opc x Hs.
  - set_one pb_last_xid x Hs.
  - set_one pb_tag x Hs.
  - set_one pb_last_committed x Hs.
  - set_one pb_transno x Hs.
  - set_one pb_status x Hs.
  - set_one pb_conn_cnt x Hs.
  - set_one pb_timeout x Hs.
  - set_one pb_service_time x Hs.
  - set_one pb_mbits x Hs.
  - assert (Hdo : do_set (SetSlv x) m = set_field pb_slv x m)
      by (cbn [do_set]; unfold lustre_msg_set_slv, set_field; by rewrite !(with_body_ok _ _ _ _ _ Hm)).
    unfold set_result. rewrite Hdo. set_one pb_slv x Hs.
  - assert (Hdo : do_set (SetLimit x) m = set_field pb_limit (u32 x) m).
    { cbn [do_set]. unfold lustre_msg_set_limit, set_field. rewrite !(with_body_ok _ _ _ _ _ Hm). symmetry. apply put_int_mod. }
    unfold set_result. rewrite Hdo. pose proof (wrap_in_u 32 x ltac:(lia)) as Hx. set_one pb_limit (u32 x) Hx.
  - by apply set_handle_ok.
  - by apply set_versions_ok.
  - by apply set_jobid_ok.
Qed.
End Cases.
End Set_.

(** ** The body on another host *)

Lemma get_byte_other b1 b2 mem off : @get_int b2 1 mem off = @get_int b1 1 mem off.
Proof.
  unfold get_int. destruct (load mem off (Z.of_nat 1)) as [bs|] eqn:E; [|done]. apply load_inv in E as (_ & _ & Hl & _).
  destruct bs as [|x [|]]; cbn in Hl; try lia. cbn. f_equal. unfold host_int. by destruct b1, b2.
Qed.

(** Fields that are swapped, and bytes next to them. *)
Definition crosses (f : Z * nat) : bool :=
  bool_decide (f ∈ swabbed_fields) || (f.2 =? 1)%nat && forallb (separate f) swabbed_fields.

Lemma get_crosses g : forallb crosses (get_fields g) = true.
Proof. by destruct g. Qed.

Section Hosts.
Context (b1 b2 : byte_order).

Lemma swab_body m bufs b :
  b1 <> b2 -> @body_msg b2 m bufs b ->
  exists m' b', @lustre_swab_ptlrpc_body b2 m (body_off bufs) = Ret m' /\ @body_msg b2 m' (<[0%nat:=b']> bufs) b'
    /\ body_off (<[0%nat:=b']> bufs) = body_off bufs /\ forall g, @view b2 g b' = @view b1 g b.
Proof.
  intros Hne Hm. pose proof (bm_msg _ _ _ Hm) as Hmsg. pose proof (body_at _ _ _ Hm) as [Hat Hoff]. pose proof (load_inv _ _ _ _ Hat) as (A1 & A2 & _ & _).
  pose proof (bm_size _ _ _ Hm) as Hs. unfold PTLRPC_BODY_V2_SIZE in Hs. pose proof (lookup_lt_Some _ _ _ (bm_first _ _ _ Hm)) as Hlt.
  assert (Hin : Forall (fun f : Z * nat => 0 <= f.1 /\ f.1 + Z.of_nat f.2 <= 128) swabbed_fields) by (repeat constructor; cbn; lia).
  destruct (swab_fields_ok b1 b2 (body_off bufs) swabbed_fields m Hne (hd_bytes _ _ (mg_header _ _ Hmsg))) as (m' & E & Hg & L & B & Hld).
  { done. }
  { eapply Forall_impl; [exact Hin|]. cbn. lia. }
  assert (Hfr : frame (body_off bufs) (body_off bufs + 152) m m').
  { split; [done| |done]. intros o n Ho. apply Hld. intros f Hf. rewrite Forall_forall in Hin. specialize (Hin _ Hf). lia. }
  destruct (load_bound m' (body_off bufs) (zlen b)) as (b' & Eb & Lb); [done|lia|lia|]. exists m', b'.
  pose proof Hoff as Hoff'. rewrite <-Hoff' in Hfr, Eb. split_and!; [done| | |].
  - split; [eapply message_frame; [done|apply (bm_first _ _ _ Hm)|exact Hfr|lia|lia|done]|by apply list_lookup_insert_eq|unfold PTLRPC_BODY_V2_SIZE; lia].
  - unfold body_off. by rewrite !lens_length, length_insert.
  - rewrite Hoff in Eb. assert (Hrd : forall fs, Forall (field_in (zlen b)) fs -> forallb crosses fs = true -> @read_fields b2 b' fs = @read_fields b1 b fs).
    { intros fs. induction 1 as [|[o n] fs [F1 F2] _ IH]; [done|]. cbn [forallb fst snd] in *. intros [Hc Hcs]%andb_true_iff.
      cbn [read_fields foldr fst snd]. fold (@read_fields b2 b' fs) (@read_fields b1 b fs). rewrite (IH Hcs).
      assert (@get_int b2 n b' o = @get_int b1 n b o) as ->; [|done].
      assert (Hb' : @get_int b2 n b' o = @get_int b2 n m' (body_off bufs + o)) by (unfold get_int; by rewrite (load_sub _ _ _ _ o (Z.of_nat n) Eb)).
      assert (Hb : @get_int b1 n b o = @get_int b1 n m (body_off bufs + o)) by (unfold get_int; by rewrite (load_sub _ _ _ _ o (Z.of_nat n) Hat)).
      rewrite Hb', Hb. unfold crosses in Hc. apply orb_true_iff in Hc as [Hc%bool_decide_eq_true|[Hn%Nat.eqb_eq Hc]%andb_true_iff]; [by apply Hg|].
      cbn in Hn. subst n. rewrite (get_byte_other b1 b2). unfold get_int. rewrite Hld; [done|]. intros f Hf. rewrite forallb_forall in Hc.
      apply list_elem_of_In in Hf. specialize (Hc f Hf). unfold separate in Hc. cbn [fst snd] in Hc. apply orb_true_iff in Hc as [Hc%Z.leb_le|Hc%Z.leb_le]; lia. }
    intros g. unfold view. replace (zlen b') with (zlen b).
    assert (Hfit : g <> GetJobid \/ PTLRPC_BODY_SIZE <= zlen b -> @read_fields b2 b' (get_fields g) = @read_fields b1 b (get_fields g)).
    { intros Hc. apply Hrd; [|apply get_crosses]. destruct Hc as [Hj|Hj]; [apply (fields_fit 152); [by destruct g|lia]|apply (fields_fit 184); [by destruct g|exact Hj]]. }
    destruct g; try (by rewrite Hfit by (by left)). destruct (Z.ltb_spec (zlen b) PTLRPC_BODY_SIZE); [done|]. apply Hfit. by right.
Qed.

(** ** Requests and replies *)

Lemma rq_msg_set inout req m : rq_msg inout (set_msg inout req m) = m.
Proof. by destruct inout. Qed.
Lemma rq_mask_set inout req mask : rq_mask inout (set_mask inout req mask) = mask.
Proof. by destruct inout. Qed.
Lemma rq_msg_mask inout req mask : rq_msg inout (set_mask inout req mask) = rq_msg inout req.
Proof. by destruct inout. Qed.
Lemma rq_mask_msg inout req m : rq_mask inout (set_msg inout req m) = rq_mask inout req.
Proof. by destruct inout. Qed.

(** The bits of the header and of the body. *)
Definition swab_bits (swabbed body : bool) : Z := if swabbed then (if body then 2 ^ 31 + 1 else 2 ^ 31) else 0.

Lemma need_swab inout req swabbed body :
  rq_mask inout req = swab_bits swabbed body -> ptlrpc_buf_need_swab req inout 0 = Ret (swabbed && negb body).
Proof.
  intros H. unfold ptlrpc_buf_need_swab, lustre_swabbed, MSG_PTLRPC_HEADER_OFF. rewrite H. by destruct swabbed, body.
Qed.

Lemma unpack_request inout req m bufs :
  @message b1 m bufs -> rq_msg inout req = m -> zlen m = msg_size (lens_of bufs) -> rq_mask inout req = 0 ->
  exists req1, @ptlrpc_unpack_msg b2 inout req (msg_size (lens_of bufs)) = Ret (0, req1)
    /\ @message b2 (rq_msg inout req1) bufs /\ rq_mask inout req1 = swab_bits (bool_decide (b1 <> b2)) false.
Proof.
  intros Hm Hr Hl Hmask. unfold ptlrpc_unpack_msg. rewrite Hr. pose proof (mg_small _ _ Hm).
  destruct (unpack_message b1 b2 m bufs (msg_size (lens_of bufs)) Hm) as (m' & -> & Hm' & _); [lia|done|]. cbn [mbind run_bind fst snd].
  case_bool_decide; cbn [Z.b2z Z.eqb].
  - unfold lustre_set_swabbed. rewrite rq_mask_msg, Hmask. cbn. eexists. split; [done|]. by rewrite rq_msg_mask, rq_msg_set, rq_mask_set.
  - eexists. split; [done|]. by rewrite rq_msg_set, rq_mask_msg.
Qed.

(** The body is swapped once, if at all. *)
Lemma unpack_body_swab inout req bufs b body :
  @body_msg b2 (rq_msg inout req) bufs b -> rq_mask inout req = swab_bits (bool_decide (b1 <> b2)) body ->
  exists req' b', (need ← ptlrpc_buf_need_swab req inout 0;
      if (need : bool) then m ← @lustre_swab_ptlrpc_body b2 (rq_msg inout req) (body_off bufs); ptlrpc_buf_set_swabbed (set_msg inout req m) inout 0
      else Ret req) = Ret req'
    /\ @body_msg b2 (rq_msg inout req') (<[0%nat:=b']> bufs) b' /\ body_off (<[0%nat:=b']> bufs) = body_off bufs
    /\ rq_mask inout req' = swab_bits (bool_decide (b1 <> b2)) true
    /\ (body = true -> req' = req) /\ forall g, @view b2 g b' = if body then @view b2 g b else @view b1 g b.
Proof.
  intros Hm Hmask. rewrite (need_swab _ _ _ _ Hmask). cbn [mbind run_bind].
  assert (Hid : <[0%nat:=b]> bufs = bufs) by apply (list_insert_id bufs 0 b (bm_first _ _ _ Hm)). case_bool_decide as Hne.
  - destruct body; cbn [andb negb].
    + exists req, b. rewrite Hid. by split_and!.
    + destruct (swab_body _ _ _ Hne Hm) as (m' & b' & -> & Hm' & Ho & Hv). cbn [mbind run_bind]. unfold ptlrpc_buf_set_swabbed, lustre_set_swabbed.
      rewrite rq_mask_msg, Hmask. eexists _, b'. split; [done|]. rewrite rq_msg_mask, rq_msg_set, rq_mask_set. by split_and!.
  - cbn [andb]. exists req, b. rewrite Hid. split_and!; try done. assert (b1 = b2) as -> by (destruct b1, b2; done || (exfalso; by apply Hne)). by destruct body.
Qed.

(** What is done once the body is in the order of the host. *)
Definition check_body (ntoh : Z -> Z) (inout : bool) (req : ptlrpc_request) (pb : Z) : run (Z * ptlrpc_request) :=
  ver ← @read_field b2 (rq_msg inout req) pb pb_version;
  if negb (Z.land ver (Z.lnot LUSTRE_VERSION_MASK) =? PTLRPC_MSG_VERSION) then Ret (- EINVAL, req)
  else if inout then Ret (0, req)
  else st ← @read_field b2 (rq_msg inout req) pb pb_status;
       m ← @write_field b2 (rq_msg inout req) pb pb_status (ntoh (s32 st));
       Ret (0, set_msg inout req m).

Lemma unpack_body ntoh inout req bufs b body :
  @body_msg b2 (rq_msg inout req) bufs b -> rq_mask inout req = swab_bits (bool_decide (b1 <> b2)) body ->
  exists req' b', @body_msg b2 (rq_msg inout req') (<[0%nat:=b']> bufs) b' /\ rq_mask inout req' = swab_bits (bool_decide (b1 <> b2)) true
    /\ (body = true -> req' = req) /\ (forall g, @view b2 g b' = if body then @view b2 g b else @view b1 g b)
    /\ @lustre_unpack_ptlrpc_body b2 ntoh inout req 0 = check_body ntoh inout req' (body_off (<[0%nat:=b']> bufs)).
Proof.
  intros Hx Hk. destruct (unpack_body_swab inout req bufs b body Hx Hk) as (req' & b' & E & Hm' & Ho & Hk' & Hid & Hv).
  exists req', b'. split_and!; try done. unfold lustre_unpack_ptlrpc_body. rewrite (magic_switch _ _ _ _ (mg_header _ _ (bm_msg _ _ _ Hx))).
  unfold lustre_unpack_ptlrpc_body_v2. rewrite (first_buf _ _ _ _ Hx). pose proof (bm_size _ _ _ Hx). rewrite (proj2 (Z.ltb_ge _ _)) by done. cbn [mbind run_bind].
  destruct (ptlrpc_buf_need_swab req inout 0) as [need|]; [|done]. cbn [mbind run_bind] in E |- *. rewrite E, Ho. done.
Qed.

Lemma version_low v : 0 <= v < 2 ^ 32 -> Z.land v (Z.lnot LUSTRE_VERSION_MASK) = Z.land v 0xffff.
Proof.
  intros Hv. rewrite <-(Z.mod_small v (2 ^ 32)) by done. rewrite <-(land_mask v 32), <-!Z.land_assoc by lia. by f_equal.
Qed.

Lemma read_one (bo : byte_order) m bufs b g f x :
  body_msg m bufs b -> field_in PTLRPC_BODY_V2_SIZE f -> read_fields b (get_fields g) = Ret [x] -> get_fields g = [f] -> read_field m (body_off bufs) f = Ret x.
Proof.
  intros Hm Hf Hr Hg. rewrite (read_field_ok _ _ _ _ Hm (field_size _ Hf _ _ _ Hm)). rewrite Hg in Hr. cbn in Hr.
  destruct (get_int f.2 b f.1) as [y|]; [|done]. by injection Hr as ->.
Qed.

(** The status of a reply. *)
Lemma translate_status ntoh m bufs b st :
  @body_msg b2 m bufs b -> @view b2 GetStatus b = Ret [st] ->
  exists m' b' x, @read_field b2 m (body_off bufs) pb_status = Ret x /\ @write_field b2 m (body_off bufs) pb_status (ntoh (s32 x)) = Ret m'
    /\ @body_msg b2 m' (<[0%nat:=b']> bufs) b' /\ (forall g, g <> GetStatus -> @view b2 g b' = @view b2 g b)
    /\ @view b2 GetStatus b' = Ret [s32 (ntoh st)].
Proof.
  intros Hm Hst. assert (Fs : field_in PTLRPC_BODY_V2_SIZE pb_status) by field_fits. cbn [view get_fields] in Hst.
  destruct (@read_fields b2 b [pb_status]) as [l|] eqn:El; [|done]. cbn [mbind run_bind] in Hst. injection Hst as Hst.
  destruct l as [|x [|]]; try done. cbn in Hst. injection Hst as Hst. pose proof (read_one b2 m bufs b GetStatus pb_status x Hm Fs El eq_refl) as Hx.
  destruct (write_field_ok m bufs b pb_status (ntoh (s32 x)) Hm (field_size _ Fs _ _ _ Hm)) as (m' & b' & E & Ep & Hm' & _).
  exists m', b', x. split_and!; [done|done|done| |].
  - intros g Hg. apply (view_put _ _ _ _ _ Ep). by destruct g.
  - cbn [view get_fields]. rewrite <-put_int_mod in Ep. rewrite (read_put _ _ _ _ Ep) by (apply Z.mod_pos_bound; done). cbn. f_equal. f_equal.
    rewrite Hst. change (256 ^ Z.of_nat 4) with (2 ^ 32). int_lia.
Qed.
End Hosts.

(** ** Theorems *)

Lemma reachable_body (bo : byte_order) m bufs b :
  msg_reachable (bo, m) bufs -> bufs !! 0%nat = Some b -> PTLRPC_BODY_V2_SIZE <= zlen b -> body_msg m bufs b.
Proof. intros Hr Hb Hs. split; [apply (reachable_message _ _ Hr)|done|done]. Qed.

(** C30: The fields of the body.  On a message that has one, every function that sets
    something returns; what was set is read, bits that are added or cleared are so, and all
    else that can be read of the body is as before, and so are the other buffers.  A job id
    is left alone for the callbacks of the lock manager, and one that is there is not replaced
    by that of the process. *)
Theorem body_set_get (bo : byte_order) m bufs b s old :
  msg_reachable (bo, m) bufs -> bufs !! 0%nat = Some b -> PTLRPC_BODY_V2_SIZE <= zlen b -> set_ok (zlen b) s ->
  (forall g, do_get g m = Ret (old g)) ->
  exists m' b', do_set s m = Ret m' /\ holds (bo, m') (<[0%nat:=b']> bufs) /\ forall g, do_get g m' = Ret (after_set s old g).
Proof.
  intros Hr Hb Hs Hok Hold. pose proof (reachable_body bo m bufs b Hr Hb Hs) as Hm.
  destruct (do_set_ok m bufs b old Hm) with (s := s) as (m' & b' & E & [Hm' _] & Hv); [intros g; by rewrite <-(do_get_view _ _ _ _ Hm)|done|].
  exists m', b'. split_and!; [done|apply message_holds, Hm'|]. intros g. by rewrite (do_get_view _ _ _ _ Hm').
Qed.

(** C15: From one host to another.  What a host packed and filled in, a host of the same or
    of the other byte order unpacks: the message is accepted, and its body if the low half of
    its version is that of the protocol.  Then whatever is read of the body is what the
    sender would read, except that the status of a reply is translated, and the other buffers
    have the same bytes.  Unpacking the body of a request again does nothing. *)
Theorem body_crosses_hosts (b1 b2 : byte_order) m bufs b ntoh inout req v :
  msg_reachable (b1, m) bufs -> bufs !! 0%nat = Some b -> PTLRPC_BODY_V2_SIZE <= zlen b ->
  load m 0 (msg_size (lens_of bufs)) = Ret (rq_msg inout req) -> rq_mask inout req = 0 -> @do_get b1 GetVersion m = Ret [v] ->
  exists req1 rc req2, @ptlrpc_unpack_msg b2 inout req (msg_size (lens_of bufs)) = Ret (0, req1)
    /\ @lustre_unpack_ptlrpc_body b2 ntoh inout req1 0 = Ret (rc, req2)
    /\ rc = (if Z.land v 0xffff =? PTLRPC_MSG_VERSION then 0 else - EINVAL)
    /\ (rc = 0 ->
        (forall g, g <> GetStatus \/ inout = true -> @do_get b2 g (rq_msg inout req2) = @do_get b1 g m)
        /\ (inout = false -> exists st, @do_get b1 GetStatus m = Ret [st] /\ @do_get b2 GetStatus (rq_msg inout req2) = Ret [s32 (ntoh st)])
        /\ (exists b', holds (b2, rq_msg inout req2) (<[0%nat:=b']> bufs))
        /\ (inout = true -> @lustre_unpack_ptlrpc_body b2 ntoh inout req2 0 = Ret (0, req2))).
Proof.
  intros Hr Hb Hs Hld Hmask Hver. pose proof (reachable_body b1 m bufs b Hr Hb Hs) as Hm0.
  destruct (message_prefix _ _ _ (bm_msg _ _ _ Hm0) Hld) as [Hm1 Hl1].
  destruct (unpack_request b1 b2 inout req _ bufs Hm1 eq_refl Hl1 Hmask) as (req1 & E1 & Hm & Hk1).
  assert (Hbm : @body_msg b2 (rq_msg inout req1) bufs b) by (by split). exists req1.
  destruct (unpack_body b1 b2 ntoh inout req1 bufs b false Hbm Hk1) as (req2 & b' & Hm2 & Hk2 & _ & Hv & E2).
  assert (Hv' : forall g, @view b2 g b' = @do_get b1 g m) by (intros g; by rewrite Hv, (do_get_view _ _ _ _ Hm0)).
  assert (Fv : field_in PTLRPC_BODY_V2_SIZE pb_version) by field_fits. pose proof (Hv' GetVersion) as Hvv. rewrite Hver in Hvv.
  pose proof (read_one_bound _ _ _ (body_bytes _ _ _ Hm2) Hvv) as Hvb.
  pose proof (read_one b2 _ _ _ GetVersion pb_version v Hm2 Fv Hvv eq_refl) as Hver2.
  unfold check_body in E2. rewrite Hver2 in E2. cbn [mbind run_bind] in E2. rewrite (version_low v Hvb) in E2.
  destruct (Z.land v 65535 =? PTLRPC_MSG_VERSION) eqn:Hvok; cbn [negb] in E2; [|by exists (- EINVAL), req2].
  destruct inout.
  - exists 0, req2. split_and!; [done|done|done|]. intros _. split_and!.
    + intros g _. by rewrite (do_get_view _ _ _ _ Hm2).
    + done.
    + exists b'. apply message_holds, Hm2.
    + intros _. destruct (unpack_body b1 b2 ntoh true req2 _ b' true Hm2 Hk2) as (req3 & b3 & Hm3 & _ & Hid & Hv3 & E3).
      rewrite (Hid eq_refl) in *. rewrite E3. unfold check_body. pose proof (Hv3 GetVersion) as Hvv3. rewrite Hvv in Hvv3.
      rewrite (read_one b2 _ _ _ GetVersion pb_version v Hm3 Fv Hvv3 eq_refl). cbn [mbind run_bind]. by rewrite (version_low v Hvb), Hvok.
  - destruct (read_fields_total b' (get_fields GetStatus) (body_bytes _ _ _ Hm2)) as (l & El & Ll).
    { apply (fields_fit PTLRPC_BODY_V2_SIZE); [done|apply (bm_size _ _ _ Hm2)]. }
    destruct l as [|x [|]]; try done. assert (Hst : @view b2 GetStatus b' = Ret [s32 x]) by (cbn [view]; by rewrite El).
    destruct (translate_status b2 ntoh _ _ _ _ Hm2 Hst) as (m' & b3 & y & Ey & Ew & Hm3 & Hg3 & Hs3). rewrite Ey in E2. cbn [mbind run_bind] in E2. rewrite Ew in E2.
    cbn [mbind run_bind] in E2. exists 0, (set_msg false req2 m'). rewrite list_insert_insert_eq in Hm3. rewrite rq_msg_set. split_and!; [done|done|done|].
    intros _. split_and!.
    + intros g [Hg|?]; [|done]. by rewrite (do_get_view _ _ _ _ Hm3), (Hg3 g Hg).
    + intros _. exists (s32 x). by rewrite (do_get_view _ _ _ _ Hm3), <-Hv'.
    + exists b3. apply message_holds, Hm3.
    + done.
Qed.
