(* ===== verification/LustreErrno.v ===== *)
(** * Error numbers on the wire

    [lustre/ptlrpc/errno.c]: hosts number errors in their own way; only the numbers of
    [lustre_errno.h] are sent.  The numbers of a host are a parameter, as they are those of
    its kernel. *)

From stdpp Require Import list.
From S2P Require Import Prelude.

Module Errno.

(** The errors that have a number on the wire, in the order of the tables. *)
Inductive errno :=
| EPERM | ENOENT | ESRCH | EINTR | EIO | ENXIO | E2BIG | ENOEXEC | EBADF | ECHILD | EAGAIN | ENOMEM | EACCES | EFAULT
| ENOTBLK | EBUSY | EEXIST | EXDEV | ENODEV | ENOTDIR | EISDIR | EINVAL | ENFILE | EMFILE | ENOTTY | ETXTBSY | EFBIG
| ENOSPC | ESPIPE | EROFS | EMLINK | EPIPE | EDOM | ERANGE | EDEADLK | ENAMETOOLONG | ENOLCK | ENOSYS | ENOTEMPTY
| ELOOP | ENOMSG | EIDRM | ECHRNG | EL2NSYNC | EL3HLT | EL3RST | ELNRNG | EUNATCH | ENOCSI | EL2HLT | EBADE | EBADR
| EXFULL | ENOANO | EBADRQC | EBADSLT | EBFONT | ENOSTR | ENODATA | ETIME | ENOSR | ENONET | ENOPKG | EREMOTE
| ENOLINK | EADV | ESRMNT | ECOMM | EPROTO | EMULTIHOP | EDOTDOT | EBADMSG | EOVERFLOW | ENOTUNIQ | EBADFD | EREMCHG
| ELIBACC | ELIBBAD | ELIBSCN | ELIBMAX | ELIBEXEC | EILSEQ | ERESTART | ESTRPIPE | EUSERS | ENOTSOCK | EDESTADDRREQ
| EMSGSIZE | EPROTOTYPE | ENOPROTOOPT | EPROTONOSUPPORT | ESOCKTNOSUPPORT | EOPNOTSUPP | EPFNOSUPPORT | EAFNOSUPPORT
| EADDRINUSE | EADDRNOTAVAIL | ENETDOWN | ENETUNREACH | ENETRESET | ECONNABORTED | ECONNRESET | ENOBUFS | EISCONN
| ENOTCONN | ESHUTDOWN | ETOOMANYREFS | ETIMEDOUT | ECONNREFUSED | EHOSTDOWN | EHOSTUNREACH | EALREADY | EINPROGRESS
| ESTALE | EUCLEAN | ENOTNAM | ENAVAIL | EISNAM | EREMOTEIO | EDQUOT | ENOMEDIUM | EMEDIUMTYPE | ECANCELED | ENOKEY
| EKEYEXPIRED | EKEYREVOKED | EKEYREJECTED | EOWNERDEAD | ENOTRECOVERABLE | ERESTARTSYS | ERESTARTNOINTR
| ERESTARTNOHAND | ENOIOCTLCMD | ERESTART_RESTARTBLOCK | EBADHANDLE | ENOTSYNC | EBADCOOKIE | ENOTSUPP | ETOOSMALL
| ESERVERFAULT | EBADTYPE | EJUKEBOX | EIOCBQUEUED.

Definition errnos : list errno :=
  [EPERM; ENOENT; ESRCH; EINTR; EIO; ENXIO; E2BIG; ENOEXEC; EBADF; ECHILD; EAGAIN; ENOMEM; EACCES; EFAULT; ENOTBLK;
   EBUSY; EEXIST; EXDEV; ENODEV; ENOTDIR; EISDIR; EINVAL; ENFILE; EMFILE; ENOTTY; ETXTBSY; EFBIG; ENOSPC; ESPIPE;
   EROFS; EMLINK; EPIPE; EDOM; ERANGE; EDEADLK; ENAMETOOLONG; ENOLCK; ENOSYS; ENOTEMPTY; ELOOP; ENOMSG; EIDRM;
   ECHRNG; EL2NSYNC; EL3HLT; EL3RST; ELNRNG; EUNATCH; ENOCSI; EL2HLT; EBADE; EBADR; EXFULL; ENOANO; EBADRQC; EBADSLT;
   EBFONT; ENOSTR; ENODATA; ETIME; ENOSR; ENONET; ENOPKG; EREMOTE; ENOLINK; EADV; ESRMNT; ECOMM; EPROTO; EMULTIHOP;
   EDOTDOT; EBADMSG; EOVERFLOW; ENOTUNIQ; EBADFD; EREMCHG; ELIBACC; ELIBBAD; ELIBSCN; ELIBMAX; ELIBEXEC; EILSEQ;
   ERESTART; ESTRPIPE; EUSERS; ENOTSOCK; EDESTADDRREQ; EMSGSIZE; EPROTOTYPE; ENOPROTOOPT; EPROTONOSUPPORT;
   ESOCKTNOSUPPORT; EOPNOTSUPP; EPFNOSUPPORT; EAFNOSUPPORT; EADDRINUSE; EADDRNOTAVAIL; ENETDOWN; ENETUNREACH;
   ENETRESET; ECONNABORTED; ECONNRESET; ENOBUFS; EISCONN; ENOTCONN; ESHUTDOWN; ETOOMANYREFS; ETIMEDOUT; ECONNREFUSED;
   EHOSTDOWN; EHOSTUNREACH; EALREADY; EINPROGRESS; ESTALE; EUCLEAN; ENOTNAM; ENAVAIL; EISNAM; EREMOTEIO; EDQUOT;
   ENOMEDIUM; EMEDIUMTYPE; ECANCELED; ENOKEY; EKEYEXPIRED; EKEYREVOKED; EKEYREJECTED; EOWNERDEAD; ENOTRECOVERABLE;
   ERESTARTSYS; ERESTARTNOINTR; ERESTARTNOHAND; ENOIOCTLCMD; ERESTART_RESTARTBLOCK; EBADHANDLE; ENOTSYNC; EBADCOOKIE;
   ENOTSUPP; ETOOSMALL; ESERVERFAULT; EBADTYPE; EJUKEBOX; EIOCBQUEUED].

(** [LUSTRE_EPERM] and so on. *)
Definition lustre_errno (e : errno) : Z :=
  match e with
  | EPERM => 1 | ENOENT => 2 | ESRCH => 3 | EINTR => 4 | EIO => 5 | ENXIO => 6 | E2BIG => 7 | ENOEXEC => 8
  | EBADF => 9 | ECHILD => 10 | EAGAIN => 11 | ENOMEM => 12 | EACCES => 13 | EFAULT => 14 | ENOTBLK => 15
  | EBUSY => 16 | EEXIST => 17 | EXDEV => 18 | ENODEV => 19 | ENOTDIR => 20 | EISDIR => 21 | EINVAL => 22
  | ENFILE => 23 | EMFILE => 24 | ENOTTY => 25 | ETXTBSY => 26 | EFBIG => 27 | ENOSPC => 28 | ESPIPE => 29
  | EROFS => 30 | EMLINK => 31 | EPIPE => 32 | EDOM => 33 | ERANGE => 34 | EDEADLK => 35 | ENAMETOOLONG => 36
  | ENOLCK => 37 | ENOSYS => 38 | ENOTEMPTY => 39 | ELOOP => 40 | ENOMSG => 42 | EIDRM => 43 | ECHRNG => 44
  | EL2NSYNC => 45 | EL3HLT => 46 | EL3RST => 47 | ELNRNG => 48 | EUNATCH => 49 | ENOCSI => 50 | EL2HLT => 51
  | EBADE => 52 | EBADR => 53 | EXFULL => 54 | ENOANO => 55 | EBADRQC => 56 | EBADSLT => 57 | EBFONT => 59
  | ENOSTR => 60 | ENODATA => 61 | ETIME => 62 | ENOSR => 63 | ENONET => 64 | ENOPKG => 65 | EREMOTE => 66
  | ENOLINK => 67 | EADV => 68 | ESRMNT => 69 | ECOMM => 70 | EPROTO => 71 | EMULTIHOP => 72 | EDOTDOT => 73
  | EBADMSG => 74 | EOVERFLOW => 75 | ENOTUNIQ => 76 | EBADFD => 77 | EREMCHG => 78 | ELIBACC => 79 | ELIBBAD => 80
  | ELIBSCN => 81 | ELIBMAX => 82 | ELIBEXEC => 83 | EILSEQ => 84 | ERESTART => 85 | ESTRPIPE => 86 | EUSERS => 87
  | ENOTSOCK => 88 | EDESTADDRREQ => 89 | EMSGSIZE => 90 | EPROTOTYPE => 91 | ENOPROTOOPT => 92
  | EPROTONOSUPPORT => 93 | ESOCKTNOSUPPORT => 94 | EOPNOTSUPP => 95 | EPFNOSUPPORT => 96 | EAFNOSUPPORT => 97
  | EADDRINUSE => 98 | EADDRNOTAVAIL => 99 | ENETDOWN => 100 | ENETUNREACH => 101 | ENETRESET => 102
  | ECONNABORTED => 103 | ECONNRESET => 104 | ENOBUFS => 105 | EISCONN => 106 | ENOTCONN => 107 | ESHUTDOWN => 108
  | ETOOMANYREFS => 109 | ETIMEDOUT => 110 | ECONNREFUSED => 111 | EHOSTDOWN => 112 | EHOSTUNREACH => 113
  | EALREADY => 114 | EINPROGRESS => 115 | ESTALE => 116 | EUCLEAN => 117 | ENOTNAM => 118 | ENAVAIL => 119
  | EISNAM => 120 | EREMOTEIO => 121 | EDQUOT => 122 | ENOMEDIUM => 123 | EMEDIUMTYPE => 124 | ECANCELED => 125
  | ENOKEY => 126 | EKEYEXPIRED => 127 | EKEYREVOKED => 128 | EKEYREJECTED => 129 | EOWNERDEAD => 130
  | ENOTRECOVERABLE => 131 | ERESTARTSYS => 512 | ERESTARTNOINTR => 513 | ERESTARTNOHAND => 514 | ENOIOCTLCMD => 515
  | ERESTART_RESTARTBLOCK => 516 | EBADHANDLE => 521 | ENOTSYNC => 522 | EBADCOOKIE => 523 | ENOTSUPP => 524
  | ETOOSMALL => 525 | ESERVERFAULT => 526 | EBADTYPE => 527 | EJUKEBOX => 528 | EIOCBQUEUED => 529
  end.

(** An array given by designated initialisers; what has none is 0. *)
Definition designated (l : list (Z * Z)) : list Z :=
  foldl (fun a p => <[Z.to_nat p.1 := p.2]> a) (replicate (S (foldr (fun p n => Nat.max (Z.to_nat p.1) n) 0%nat l)) 0) l.

Section Host.
Context (host : errno -> Z).

Definition lustre_errno_hton_mapping : list Z := designated (map (fun e => (host e, lustre_errno e)) errnos).
Definition lustre_errno_ntoh_mapping : list Z := designated (map (fun e => (lustre_errno e, host e)) errnos).

(** Numbers are unsigned. *)
Definition lustre_errno_hton (h : Z) : Z :=
  if h =? 0 then 0
  else match lustre_errno_hton_mapping !! Z.to_nat h with
       | Some n => if n =? 0 then lustre_errno EIO else n
       | None => lustre_errno EIO
       end.

Definition lustre_errno_ntoh (n : Z) : Z :=
  if n =? 0 then 0
  else match lustre_errno_ntoh_mapping !! Z.to_nat n with
       | Some h => if h =? 0 then host EIO else h
       | None => host EIO
       end.

Definition ptlrpc_status_hton (h : Z) : Z := if h <? 0 then - lustre_errno_hton (- h) else h.
Definition ptlrpc_status_ntoh (n : Z) : Z := if n <? 0 then - lustre_errno_ntoh (- n) else n.
End Host.

(** ** Tables *)

Lemma designated_length_max (l : list (Z * Z)) p :
  p ∈ l -> (Z.to_nat p.1 < S (foldr (fun p n => Nat.max (Z.to_nat p.1) n) 0 l))%nat.
Proof.
  induction l as [|q l IH]; [by intros H%not_elem_of_nil|]. intros [->|Hp]%elem_of_cons; cbn; [lia|]. specialize (IH Hp). lia.
Qed.

Lemma foldl_insert_length (l : list (Z * Z)) : forall a, length (foldl (fun (a : list Z) p => <[Z.to_nat p.1 := p.2]> a) a l) = length a.
Proof. induction l as [|p l IH]; intros a; [done|]. cbn. by rewrite IH, length_insert. Qed.

(** An index none of them has keeps what was there. *)
Lemma foldl_insert_other (l : list (Z * Z)) k : forall a,
  (forall p, p ∈ l -> Z.to_nat p.1 <> k) -> foldl (fun (a : list Z) p => <[Z.to_nat p.1 := p.2]> a) a l !! k = a !! k.
Proof.
  induction l as [|p l IH]; intros a Hk; [done|]. cbn. rewrite IH by (intros q Hq; apply Hk, elem_of_cons; by right).
  apply list_lookup_insert_ne. apply Hk, elem_of_cons. by left.
Qed.

Lemma foldl_insert_at (l : list (Z * Z)) p : forall a,
  NoDup (map (fun p => Z.to_nat p.1) l) -> p ∈ l -> (Z.to_nat p.1 < length a)%nat ->
  foldl (fun (a : list Z) p => <[Z.to_nat p.1 := p.2]> a) a l !! Z.to_nat p.1 = Some p.2.
Proof.
  induction l as [|q l IH]; intros a Hnd; [by intros H%not_elem_of_nil|]. cbn [map] in Hnd. apply NoDup_cons in Hnd as [Hq Hnd].
  intros [->|Hp]%elem_of_cons Hl; cbn [foldl].
  - rewrite foldl_insert_other; [by apply list_lookup_insert_eq|]. intros r Hr E. apply Hq. rewrite <-E. apply list_elem_of_fmap. by exists r.
  - apply IH; [done|done|by rewrite length_insert].
Qed.

Lemma designated_at l p : NoDup (map (fun p : Z * Z => Z.to_nat p.1) l) -> p ∈ l -> designated l !! Z.to_nat p.1 = Some p.2.
Proof. intros Hnd Hp. apply foldl_insert_at; [done|done|]. rewrite length_replicate. by apply designated_length_max. Qed.

Lemma designated_other l k : (forall p, p ∈ l -> Z.to_nat p.1 <> k) -> designated l !! k = None \/ designated l !! k = Some 0.
Proof.
  intros Hk. unfold designated. rewrite foldl_insert_other by done. destruct (replicate _ 0 !! k) as [x|] eqn:E; [|by left].
  apply lookup_replicate in E as [-> _]. by right.
Qed.

(** ** One numbering and the other *)

Lemma lustre_errno_pos e : 0 < lustre_errno e < 2 ^ 31.
Proof. by destruct e. Qed.

(** An error is found by its number. *)
Lemma errno_found e : find (fun x => lustre_errno x =? lustre_errno e) errnos = Some e.
Proof. by destruct e. Qed.

Lemma errnos_all e : e ∈ errnos.
Proof. apply list_elem_of_In. by apply (find_some _ _ (errno_found e)). Qed.

Lemma lustre_errno_inj e e' : lustre_errno e = lustre_errno e' -> e = e'.
Proof. intros E. pose proof (errno_found e) as H. rewrite E, errno_found in H. by injection H. Qed.

Lemma errnos_nodup : NoDup errnos.
Proof. apply (NoDup_fmap_1 lustre_errno). by apply (bool_decide_eq_true_1 (NoDup (lustre_errno <$> errnos))). Qed.

(** What the tables need: numbers that are positive and differ, as those of every kernel. *)
Class Numbering (host : errno -> Z) : Prop := {
  number_pos e : 0 < host e < 2 ^ 31;
  number_inj e e' : host e = host e' -> e = e'
}.

#[export] Instance lustre_numbering : Numbering lustre_errno.
Proof. split; [apply lustre_errno_pos|apply lustre_errno_inj]. Qed.

Section Tables.
Context (f g : errno -> Z) `{!Numbering f} `{!Numbering g}.

Definition table : list Z := designated (map (fun e => (f e, g e)) errnos).

Lemma table_at e : table !! Z.to_nat (f e) = Some (g e).
Proof.
  apply (designated_at _ (f e, g e)).
  - rewrite map_map. apply NoDup_fmap_2_strong; [|apply errnos_nodup]. cbn [fst]. intros x y _ _ E.
    apply (number_inj (host := f)). pose proof (number_pos (host := f) x). pose proof (number_pos (host := f) y). lia.
  - apply list_elem_of_fmap. exists e. split; [done|apply errnos_all].
Qed.

Lemma table_other n : 0 < n -> (forall e, f e <> n) -> table !! Z.to_nat n = None \/ table !! Z.to_nat n = Some 0.
Proof.
  intros Hn Hf. apply designated_other. intros p (e & -> & _)%list_elem_of_fmap. cbn. pose proof (number_pos (host := f) e). specialize (Hf e). lia.
Qed.
End Tables.

Section Host.
Context (host : errno -> Z) `{!Numbering host}.

Lemma hton_known e : ptlrpc_status_hton host (- host e) = - lustre_errno e.
Proof.
  pose proof (number_pos (host := host) e). pose proof (lustre_errno_pos e). unfold ptlrpc_status_hton. rewrite (proj2 (Z.ltb_lt _ 0)) by lia.
  unfold lustre_errno_hton. rewrite Z.opp_involutive, (proj2 (Z.eqb_neq _ 0)) by lia.
  change (lustre_errno_hton_mapping host) with (table host lustre_errno). rewrite (table_at host lustre_errno). by rewrite (proj2 (Z.eqb_neq _ 0)) by lia.
Qed.

Lemma hton_unknown h : h < 0 -> (forall e, h <> - host e) -> ptlrpc_status_hton host h = - lustre_errno EIO.
Proof.
  intros Hh Hn. unfold ptlrpc_status_hton. rewrite (proj2 (Z.ltb_lt _ 0)) by lia. unfold lustre_errno_hton. rewrite (proj2 (Z.eqb_neq _ 0)) by lia.
  change (lustre_errno_hton_mapping host) with (table host lustre_errno).
  destruct (table_other host lustre_errno (- h)) as [-> | ->]; [lia| |done|done]. intros e He. apply (Hn e). lia.
Qed.

Lemma ntoh_known e : ptlrpc_status_ntoh host (- lustre_errno e) = - host e.
Proof.
  pose proof (number_pos (host := host) e). pose proof (lustre_errno_pos e). unfold ptlrpc_status_ntoh. rewrite (proj2 (Z.ltb_lt _ 0)) by lia.
  unfold lustre_errno_ntoh. rewrite Z.opp_involutive, (proj2 (Z.eqb_neq _ 0)) by lia.
  change (lustre_errno_ntoh_mapping host) with (table lustre_errno host). rewrite (table_at lustre_errno host). by rewrite (proj2 (Z.eqb_neq _ 0)) by lia.
Qed.

Lemma ntoh_unknown n : n < 0 -> (forall e, n <> - lustre_errno e) -> ptlrpc_status_ntoh host n = - host EIO.
Proof.
  intros Hh Hn. unfold ptlrpc_status_ntoh. rewrite (proj2 (Z.ltb_lt _ 0)) by lia. unfold lustre_errno_ntoh. rewrite (proj2 (Z.eqb_neq _ 0)) by lia.
  change (lustre_errno_ntoh_mapping host) with (table lustre_errno host).
  destruct (table_other lustre_errno host (- n)) as [-> | ->]; [lia| |done|done]. intros e He. apply (Hn e). lia.
Qed.
End Host.
End Errno.
