(* ===== verification/PtlProps.v ===== *)
(** Messages that are not what they claim ([lustre/ptlrpc/pack_generic.c]), error numbers that
    go from one host to another ([lustre/ptlrpc/errno.c]), and runs of the theorems on
    messages. *)

From stdpp Require Import list.
From S2P Require Import Prelude Memory PtlMsg PtlMsgInv PtlMsgOps PtlMsgWire PtlMsgProps PtlBody PtlBodyProps LustreErrno.

(** ** Sizes that wrap around *)

(** A message that claims to have [count] buffers, followed by [rest]. *)
Definition forged {bo : byte_order} (count : Z) (rest : list Z) : list Z :=
  host_bytes 4 count ++ replicate 4 0 ++ host_bytes 4 LUSTRE_MSG_MAGIC_V2 ++ replicate 20 0 ++ rest.

(** With one buffer that claims to have [l] bytes, and no byte behind the header. *)
Definition forged_buffer {bo : byte_order} (l : Z) : list Z := forged 1 (host_bytes 4 l ++ replicate 4 0).

Section Forged.
Context {bo : byte_order}.

Lemma forged_length count rest : zlen (forged count rest) = 32 + zlen rest.
Proof. unfold forged. rewrite !length_app, !length_host, !length_replicate. lia. Qed.

Lemma get32_mid A x C off : off = zlen A -> 0 <= x < 2 ^ 32 -> get32 (A ++ host_bytes 4 x ++ C) off = Ret x.
Proof.
  intros -> Hx. unfold get32, get_int. rewrite (load_mid A (host_bytes 4 x) C) by (by rewrite ?length_host). cbn [mbind run_bind].
  by rewrite host_int_bytes.
Qed.

Lemma forged_count count rest : 0 <= count < 2 ^ 32 -> get32 (forged count rest) lm_bufcount = Ret count.
Proof. intros H. by apply (get32_mid []). Qed.

Lemma forged_magic count rest : get32 (forged count rest) lm_magic = Ret LUSTRE_MSG_MAGIC_V2.
Proof.
  unfold forged. rewrite app_assoc. apply get32_mid; [by rewrite length_app, length_host, length_replicate|]. by unfold LUSTRE_MSG_MAGIC_V2.
Qed.

Lemma forged_len l : 0 <= l < 2 ^ 32 -> buflens (forged_buffer l) 0 = Ret l.
Proof.
  intros H. unfold forged_buffer, forged, buflens. rewrite !app_assoc, <-(app_assoc _ (host_bytes 4 l)). apply get32_mid; [|done].
  by rewrite !length_app, !length_host, !length_replicate.
Qed.

(** Up to the lengths. *)
Lemma unpack_forged count rest :
  0 <= count < 2 ^ 32 -> 32 + zlen rest < 2 ^ 31 ->
  __lustre_unpack_msg (forged count rest) (32 + zlen rest) =
    let required_len := s32 (lustre_msg_hdr_size_v2 count) in
    if 32 + zlen rest <? required_len then Ret (- EINVAL, forged count rest)
    else r ← unpack_loop (Z.to_nat count) 0 false (forged count rest) required_len;
         if 32 + zlen rest <? r.1 then Ret (- EINVAL, r.2) else Ret (0, r.2).
Proof.
  intros Hc Hr. unfold __lustre_unpack_msg, lustre_unpack_msg_v2. rewrite (proj2 (Z.ltb_ge _ (lm_magic + 4))) by (unfold lm_magic; lia).
  change (s32 (lustre_msg_hdr_size_v2 0)) with 32. rewrite (proj2 (Z.ltb_ge _ 32)) by lia. rewrite forged_magic. cbn [mbind run_bind].
  change (LUSTRE_MSG_MAGIC_V2 =? LUSTRE_MSG_MAGIC_V2_SWABBED) with false. cbn [mbind run_bind]. by rewrite forged_count.
Qed.
End Forged.

(** C35: The sizes that are checked are 32 bits wide, and a peer can make them wrap around.
    A message of 40 bytes whose only buffer claims to have almost 2^32 bytes is accepted,
    [lustre_msg_buf] gives a pointer to its end for a body, and unpacking the body reads what
    is behind the message.  And a message of 32 bytes that claims to have 2^29 buffers or
    more passes the check of its header, so that already unpacking it reads lengths from
    behind it. *)
Theorem unpack_wraps_around (bo : byte_order) l count repmsg ntoh :
  2 ^ 32 - 7 <= l < 2 ^ 32 -> 2 ^ 29 <= count < 2 ^ 30 - 16 ->
  (let req := PtlrpcRequest (forged_buffer l) repmsg 0 0 in
   ptlrpc_unpack_msg true req 40 = Ret (0, req)
   /\ lustre_msg_buf (forged_buffer l) MSG_PTLRPC_BODY_OFF PTLRPC_BODY_SIZE = Ret (Some 40) /\ zlen (forged_buffer l) = 40
   /\ lustre_unpack_ptlrpc_body ntoh true req MSG_PTLRPC_BODY_OFF = LBUG)
  /\ __lustre_unpack_msg (forged count []) 32 = LBUG.
Proof.
  intros Hl Hc. split.
  - assert (Hsz : zlen (forged_buffer l) = 40) by (unfold forged_buffer; rewrite forged_length, length_app, length_host; done).
    assert (Hr : cfs_size_round l = 2 ^ 32) by (rewrite size_round_val by lia; unfold round8; int_lia).
    assert (Hu : __lustre_unpack_msg (forged_buffer l) 40 = Ret (0, forged_buffer l)).
    { unfold forged_buffer at 1. replace 40 with (32 + zlen (host_bytes 4 l ++ replicate 4 0)) by (rewrite length_app, length_host; done).
      rewrite unpack_forged by (rewrite ?length_app, ?length_host; cbn; lia). fold (forged_buffer l).
      replace (32 + zlen (host_bytes 4 l ++ replicate 4 0)) with 40 by (rewrite length_app, length_host; done).
      change (s32 (lustre_msg_hdr_size_v2 1)) with 40. cbn [Z.ltb Z.compare]. change (Z.to_nat 1) with 1%nat. cbn [unpack_loop mbind run_bind].
      rewrite forged_len by lia. cbn [mbind run_bind fst snd]. rewrite Hr. done. }
    assert (Hb : forall size, 0 <= size <= 184 -> lustre_msg_buf_v2 (forged_buffer l) 0 size = Ret (Some 40)).
    { intros size Hs. unfold lustre_msg_buf_v2. change (get32 (forged_buffer l) lm_bufcount) with (get32 (forged 1 (host_bytes 4 l ++ replicate 4 0)) lm_bufcount).
      rewrite forged_count by lia. cbn [mbind run_bind].
      change (1 <=? 0) with false. cbn iota. rewrite forged_len by lia. cbn [mbind run_bind]. rewrite (proj2 (Z.ltb_ge l size)) by lia. done. }
    assert (Hmag : get32 (forged_buffer l) lm_magic = Ret LUSTRE_MSG_MAGIC_V2) by apply forged_magic.
    cbn zeta. split_and!; [|by unfold lustre_msg_buf; rewrite Hmag; apply Hb|done|].
    + unfold ptlrpc_unpack_msg. cbn [rq_msg rq_reqmsg]. by rewrite Hu.
    + unfold lustre_unpack_ptlrpc_body. cbn [rq_msg rq_reqmsg]. rewrite Hmag. cbn [mbind run_bind]. rewrite Z.eqb_refl.
      unfold lustre_unpack_ptlrpc_body_v2. cbn [rq_msg rq_reqmsg]. rewrite Hb by (unfold PTLRPC_BODY_V2_SIZE; lia). cbn [mbind run_bind].
      change (ptlrpc_buf_need_swab _ true MSG_PTLRPC_BODY_OFF) with (Ret false). cbn [mbind run_bind rq_msg rq_reqmsg].
      unfold read_field. rewrite get_fails; [done|]. rewrite Hsz. done.
  - pose proof (unpack_forged count [] ltac:(lia) ltac:(done)) as Hu. change (32 + zlen (@nil Z)) with 32 in Hu. rewrite Hu. pose proof (hdr_size_bounds count ltac:(lia)).
    rewrite hdr_size_val, (wrap_small 32) by (unfold in_u; lia). assert (Hs : s32 (hdr_size count) < 0) by int_lia. cbv zeta.
    rewrite (proj2 (Z.ltb_ge 32 _)) by lia. destruct (Z.to_nat count) as [|n] eqn:En; [lia|]. cbn [unpack_loop mbind run_bind].
    unfold buflens, get32. rewrite get_fails; [done|]. rewrite forged_length. done.
Qed.

(** ** Error numbers *)

(** C31: Error numbers from host to host.  The status of a reply, translated and stored by a
    host and read and translated by another one that numbers errors differently, is the
    number of the same error there; an error that has no number on the wire becomes EIO; and
    0 and positive statuses stay what they are. *)
Theorem status_crosses_hosts (h1 h2 : Errno.errno -> Z) st :
  Errno.Numbering h1 -> Errno.Numbering h2 -> - 2 ^ 31 < st < 2 ^ 31 ->
  let read := s32 (Errno.ptlrpc_status_ntoh h2 (s32 (u32 (Errno.ptlrpc_status_hton h1 st)))) in
  (0 <= st -> read = st)
  /\ (forall e, st = - h1 e -> read = - h2 e)
  /\ (st < 0 -> (forall e, st <> - h1 e) -> read = - h2 Errno.EIO).
Proof.
  intros N1 N2 Hst read. assert (Hs : forall x, - 2 ^ 31 <= x < 2 ^ 31 -> s32 (u32 x) = x) by (intros; int_lia).
  assert (Hn : forall e, s32 (- h2 e) = - h2 e) by (intros e; pose proof (Errno.number_pos (host := h2) e); apply swrap_small; lia).
  assert (Hl : forall e, s32 (u32 (- Errno.lustre_errno e)) = - Errno.lustre_errno e) by (intros e; pose proof (Errno.lustre_errno_pos e); apply Hs; lia).
  split_and!.
  - intros H0. unfold read, Errno.ptlrpc_status_hton. rewrite (proj2 (Z.ltb_ge st 0)), Hs by lia. unfold Errno.ptlrpc_status_ntoh.
    rewrite (proj2 (Z.ltb_ge st 0)) by lia. apply swrap_small; lia.
  - intros e ->. unfold read. by rewrite Errno.hton_known, Hl, Errno.ntoh_known, Hn.
  - intros H0 Hu. unfold read. by rewrite Errno.hton_unknown, Hl, Errno.ntoh_known, Hn.
Qed.

(** ** Runs *)

Lemma holds_of_reads (bo : byte_order) m bufs :
  get32 m lm_magic = Ret LUSTRE_MSG_MAGIC_V2 -> get32 m lm_bufcount = Ret (zlen bufs) ->
  Forall (fun i => msg_do (MsgBuf (Z.of_nat i) 0) (bo, m) = Ret (MrBuf (bufs !! i), (bo, m))) (seq 0 (length bufs)) -> holds (bo, m) bufs.
Proof.
  intros Hm Hc Hf n Hn. rewrite Forall_forall in Hf. destruct (decide (Z.to_nat n < length bufs)%nat) as [Hlt|Hge].
  - rewrite <-(Hf (Z.to_nat n)) by (apply elem_of_seq; lia). by rewrite Z2Nat.id.
  - rewrite lookup_ge_None_2 by lia. cbn. unfold lustre_msg_buf. rewrite Hm. cbn [mbind run_bind]. rewrite Z.eqb_refl.
    unfold lustre_msg_buf_v2. rewrite Hc. cbn [mbind run_bind]. by rewrite (proj2 (Z.leb_le _ _)) by lia.
Qed.

Module PtlRun.
Definition room : list Z := replicate 300 0.
Definition lens : list Z := [184; 5; 16].
Definition srcs : option (list (option (list Z))) := Some [None; Some [104; 105; 0; 0; 0; 7]; None].
Definition bufs : list (list Z) := [replicate 184 0; [104; 105; 0; 0; 0]; replicate 16 0].

Definition memory (r : run (msg_ret * (byte_order * list Z))) : list Z := match r with Ret (_, (_, m)) => m | LBUG => [] end.

(** A host of big endian packs a message of three buffers. *)
Definition msg : list Z := memory (msg_do (MsgPack BigEndian room lens srcs) (LittleEndian, [])).

Lemma msg_packed : msg_reachable (BigEndian, msg) bufs.
Proof.
  apply (mr_pack (LittleEndian, []) BigEndian room lens srcs MrDone).
  - split_and!; [by repeat constructor|done|done|by repeat constructor|]. by repeat constructor.
  - by vm_compute.
  - split; [done|]. intros ss i l tmp [= <-] Hi Ht. destruct i as [|[|[|]]]; cbn in Hi, Ht; by simplify_eq.
  - apply holds_of_reads; [by vm_compute..|]. repeat constructor; by vm_compute.
Qed.

(** It sets the version. *)
Definition version : list Z := [0; 0; 0; 3].
Definition body : list Z := replicate 12 0 ++ version ++ replicate 168 0.
Definition msg3 : list Z := memory (msg_do (MsgWrite 0 12 version) (BigEndian, msg)).

Lemma msg3_written : msg_reachable (BigEndian, msg3) (<[0%nat:=body]> bufs).
Proof.
  apply (mr_step (BigEndian, msg) bufs (MsgWrite 0 12 version) MrDone); [apply msg_packed| |by vm_compute| |].
  - split_and!; [done|by repeat constructor|]. by exists (replicate 184 0).
  - exists (replicate 184 0), body. split_and!; [done|by vm_compute|done].
  - apply holds_of_reads; [by vm_compute..|]. repeat constructor; by vm_compute.
Qed.

Lemma message_refines_buffers_witness :
  exists r s' bufs', msg_do (MsgSend LittleEndian) (BigEndian, msg) = Ret (r, s')
    /\ msg_spec BigEndian (MsgSend LittleEndian) bufs r bufs' /\ msg_reachable s' bufs' /\ holds s' bufs'.
Proof. apply (message_refines_buffers (BigEndian, msg) bufs (MsgSend LittleEndian)); [exact msg_packed|done]. Defined.


Lemma unpack_wraps_around_witness :
  (let req := PtlrpcRequest (@forged_buffer LittleEndian (2 ^ 32 - 1)) [] 0 0 in
   @ptlrpc_unpack_msg LittleEndian true req 40 = Ret (0, req)
   /\ @lustre_msg_buf LittleEndian (@forged_buffer LittleEndian (2 ^ 32 - 1)) MSG_PTLRPC_BODY_OFF PTLRPC_BODY_SIZE = Ret (Some 40)
   /\ zlen (@forged_buffer LittleEndian (2 ^ 32 - 1)) = 40
   /\ @lustre_unpack_ptlrpc_body LittleEndian (fun n => n) true req MSG_PTLRPC_BODY_OFF = LBUG)
  /\ @__lustre_unpack_msg LittleEndian (@forged LittleEndian (2 ^ 29) []) 32 = LBUG.
Proof. apply (unpack_wraps_around LittleEndian (2 ^ 32 - 1) (2 ^ 29) [] (fun n => n)); lia. Defined.

Definition values (g : pb_get) : list Z := match @do_get BigEndian g msg with Ret l => l | LBUG => [] end.

Lemma body_set_get_witness :
  exists m' b', @do_set BigEndian (SetTransno 77) msg = Ret m' /\ holds (BigEndian, m') (<[0%nat:=b']> bufs)
    /\ forall g, @do_get BigEndian g m' = Ret (after_set (SetTransno 77) values g).
Proof. apply (body_set_get BigEndian msg bufs (replicate 184 0)); [exact msg_packed|done|done|done|]. intros []; by vm_compute. Defined.

Definition received : ptlrpc_request := PtlrpcRequest msg3 [] 0 0.

Lemma body_crosses_hosts_witness :
  exists req1 rc req2, @ptlrpc_unpack_msg LittleEndian true received (msg_size (lens_of (<[0%nat:=body]> bufs))) = Ret (0, req1)
    /\ @lustre_unpack_ptlrpc_body LittleEndian (fun n => n) true req1 0 = Ret (rc, req2)
    /\ rc = (if Z.land 3 0xffff =? PTLRPC_MSG_VERSION then 0 else - EINVAL)
    /\ (rc = 0 ->
        (forall g, g <> GetStatus \/ true = true -> @do_get LittleEndian g (rq_msg true req2) = @do_get BigEndian g msg3)
        /\ (true = false -> exists st, @do_get BigEndian GetStatus msg3 = Ret [st] /\ @do_get LittleEndian GetStatus (rq_msg true req2) = Ret [s32 ((fun n => n) st)])
        /\ (exists b', holds (LittleEndian, rq_msg true req2) (<[0%nat:=b']> (<[0%nat:=body]> bufs)))
        /\ (true = true -> @lustre_unpack_ptlrpc_body LittleEndian (fun n => n) true req2 0 = Ret (0, req2))).
Proof.
  apply (body_crosses_hosts BigEndian LittleEndian msg3 (<[0%nat:=body]> bufs) body (fun n => n) true received 3);
    [exact msg3_written|done|by vm_compute|by vm_compute|done|by vm_compute].
Defined.

(** On some machines EAGAIN and EDEADLK have each other's number. *)
Definition swapped (n : Z) : Z := if n =? 11 then 35 else if n =? 35 then 11 else n.
Definition other_numbers (e : Errno.errno) : Z := swapped (Errno.lustre_errno e).

Lemma other_numbering : Errno.Numbering other_numbers.
Proof.
  assert (Hs : forall n, swapped (swapped n) = n) by (intros n; unfold swapped; repeat case_match; lia). split.
  - intros e. pose proof (Errno.lustre_errno_pos e). unfold other_numbers, swapped. repeat case_match; lia.
  - intros e e' E. apply Errno.lustre_errno_inj. rewrite <-(Hs (Errno.lustre_errno e)), <-(Hs (Errno.lustre_errno e')). unfold other_numbers in E. by rewrite E.
Qed.

Lemma status_crosses_hosts_witness :
  let read := s32 (Errno.ptlrpc_status_ntoh other_numbers (s32 (u32 (Errno.ptlrpc_status_hton Errno.lustre_errno (-11))))) in
  (0 <= -11 -> read = -11) /\ (forall e, -11 = - Errno.lustre_errno e -> read = - other_numbers e)
  /\ (-11 < 0 -> (forall e, -11 <> - Errno.lustre_errno e) -> read = - other_numbers Errno.EIO).
Proof. apply (status_crosses_hosts Errno.lustre_errno other_numbers (-11)); [exact Errno.lustre_numbering|exact other_numbering|lia]. Defined.
End PtlRun.
