(* ===== verification/WireStructs.v ===== *)
(** * Declarations of structures that are sent

    The structures of [lustre_idl.h] and [lustre_user.h] that the functions of [WireSwab]
    convert.  Members that the code calls opaque, unused or padding, and bytes and characters,
    are [COpaque]; a union is given as the member the receiver is to use, with [CRest] for the
    bytes of longer members.  The declarations have no holes, as [lustre/ptlrpc/wiretest.c]
    asserts. *)

From stdpp Require Import list strings.
From S2P Require Import Prelude Memory Fid.

#[local] Open Scope string_scope.
#[local] Open Scope list_scope.

#[local] Set Warnings "-register-all".
Inductive ctype : Type :=
| CInt (n : nat)
| COpaque (n : Z)
| CRest (n : Z)
| CArray (count : nat) (t : ctype)
| CStruct (members : list (string * ctype)).

Fixpoint sizeof (t : ctype) : Z :=
  match t with
  | CInt n => Z.of_nat n
  | COpaque n | CRest n => n
  | CArray count t => Z.of_nat count * sizeof t
  | CStruct ms => (fix go ms := match ms with [] => 0 | (_, t) :: ms' => sizeof t + go ms' end) ms
  end.

(** A member of a structure, with its offset. *)
Fixpoint find_member (ms : list (string * ctype)) (off : Z) (name : string) : option (Z * ctype) :=
  match ms with
  | [] => None
  | (m, t) :: ms' => if bool_decide (m = name) then Some (off, t) else find_member ms' (off + sizeof t) name
  end.
Definition member (t : ctype) (name : string) : option (Z * ctype) :=
  match t with CStruct ms => find_member ms 0 name | _ => None end.
Definition offsetof (t : ctype) (name : string) : Z := default (-1) (fst <$> member t name).

(** The integers of a type, with their offsets. *)
Definition shift (off : Z) (fs : list (Z * nat)) : list (Z * nat) := map (fun f => (off + f.1, f.2)) fs.
Fixpoint ints (t : ctype) : list (Z * nat) :=
  match t with
  | CInt n => [(0, n)]
  | COpaque _ | CRest _ => []
  | CArray count t => flat_map (fun i => shift (Z.of_nat i * sizeof t) (ints t)) (seq 0 count)
  | CStruct ms =>
      (fix go off ms := match ms with [] => [] | (_, t) :: ms' => shift off (ints t) ++ go (off + sizeof t) ms' end) 0 ms
  end.

(** The bytes that are nobody's integers. *)
Fixpoint opaques (t : ctype) : list (Z * nat) :=
  match t with
  | CInt _ | CRest _ => []
  | COpaque n => [(0, Z.to_nat n)]
  | CArray count t => flat_map (fun i => shift (Z.of_nat i * sizeof t) (opaques t)) (seq 0 count)
  | CStruct ms =>
      (fix go off ms := match ms with [] => [] | (_, t) :: ms' => shift off (opaques t) ++ go (off + sizeof t) ms' end) 0 ms
  end.

Abbreviation __u16 := (CInt 2).
Abbreviation __u32 := (CInt 4).
Abbreviation __u64 := (CInt 8).

(** ** Identifiers *)

Definition lu_fid_t : ctype := CStruct [("f_seq", __u64); ("f_oid", __u32); ("f_ver", __u32)].
Definition oi_t : ctype := CStruct [("oi_id", __u64); ("oi_seq", __u64)].

(** An [ost_id] is a FID, unless its [oi_seq] is of the old kind. *)
Definition ost_id_t (seq : Z) : ctype := if fid_seq_is_mdt0 seq || fid_seq_is_default seq then oi_t else lu_fid_t.

(** ** Objects *)

Definition ost_layout_t : ctype :=
  CStruct [("ol_stripe_size", __u32); ("ol_stripe_count", __u32); ("ol_comp_start", __u64); ("ol_comp_end", __u64); ("ol_comp_id", __u32)].

Definition obdo_t (seq : Z) : ctype :=
  CStruct [("o_valid", __u64); ("o_oi", ost_id_t seq); ("o_parent_seq", __u64); ("o_size", __u64); ("o_mtime", __u64);
    ("o_atime", __u64); ("o_ctime", __u64); ("o_blocks", __u64); ("o_grant", __u64); ("o_blksize", __u32); ("o_mode", __u32);
    ("o_uid", __u32); ("o_gid", __u32); ("o_flags", __u32); ("o_nlink", __u32); ("o_parent_oid", __u32); ("o_misc", __u32);
    ("o_ioepoch", __u64); ("o_stripe_idx", __u32); ("o_parent_ver", __u32); ("o_handle", COpaque 8);
    ("o_layout", ost_layout_t); ("o_layout_version", __u32); ("o_uid_h", __u32); ("o_gid_h", __u32); ("o_data_version", __u64);
    ("o_projid", __u32); ("o_padding_4", COpaque 4); ("o_padding_5", COpaque 8); ("o_padding_6", COpaque 8)].
Definition ost_body_t (seq : Z) : ctype := CStruct [("oa", obdo_t seq)].

Definition obd_ioobj_t (seq : Z) : ctype :=
  CStruct [("ioo_oid", ost_id_t seq); ("ioo_max_brw", __u32); ("ioo_bufcnt", __u32)].
Definition niobuf_remote_t : ctype := CStruct [("rnb_offset", __u64); ("rnb_len", __u32); ("rnb_flags", __u32)].

Definition obd_statfs_t : ctype :=
  CStruct [("os_type", __u64); ("os_blocks", __u64); ("os_bfree", __u64); ("os_bavail", __u64); ("os_files", __u64);
    ("os_ffree", __u64); ("os_fsid", COpaque 40); ("os_bsize", __u32); ("os_namelen", __u32); ("os_maxbytes", __u64);
    ("os_state", __u32); ("os_fprecreated", __u32); ("os_granted", __u32); ("os_spare3", COpaque 4); ("os_spare4", COpaque 4);
    ("os_spare5", COpaque 4); ("os_spare6", COpaque 4); ("os_spare7", COpaque 4); ("os_spare8", COpaque 4); ("os_spare9", COpaque 4)].

Definition ost_lvb_v1_t : ctype :=
  CStruct [("lvb_size", __u64); ("lvb_mtime", __u64); ("lvb_atime", __u64); ("lvb_ctime", __u64); ("lvb_blocks", __u64)].
Definition ost_lvb_t : ctype :=
  CStruct [("lvb_size", __u64); ("lvb_mtime", __u64); ("lvb_atime", __u64); ("lvb_ctime", __u64); ("lvb_blocks", __u64);
    ("lvb_mtime_ns", __u32); ("lvb_atime_ns", __u32); ("lvb_ctime_ns", __u32); ("lvb_padding", __u32)].
Definition barrier_lvb_t : ctype := CStruct [("lvb_status", __u32); ("lvb_index", __u32); ("lvb_padding", COpaque 8)].
Definition ldlm_gl_barrier_desc_t : ctype :=
  CStruct [("lgbd_status", __u32); ("lgbd_timeout", __u32); ("lgbd_padding", COpaque 8)].

(** ** Metadata *)

Definition mdt_body_t : ctype :=
  CStruct [("mbo_fid1", lu_fid_t); ("mbo_fid2", lu_fid_t); ("mbo_handle", COpaque 8); ("mbo_valid", __u64); ("mbo_size", __u64);
    ("mbo_mtime", __u64); ("mbo_atime", __u64); ("mbo_ctime", __u64); ("mbo_blocks", __u64); ("mbo_version", __u64);
    ("mbo_t_state", __u64); ("mbo_fsuid", __u32); ("mbo_fsgid", __u32); ("mbo_capability", __u32); ("mbo_mode", __u32);
    ("mbo_uid", __u32); ("mbo_gid", __u32); ("mbo_flags", __u32); ("mbo_rdev", __u32); ("mbo_nlink", __u32);
    ("mbo_layout_gen", __u32); ("mbo_suppgid", __u32); ("mbo_eadatasize", __u32); ("mbo_aclsize", __u32);
    ("mbo_max_mdsize", __u32); ("mbo_unused3", COpaque 4); ("mbo_uid_h", __u32); ("mbo_gid_h", __u32); ("mbo_projid", __u32);
    ("mbo_dom_size", __u64); ("mbo_dom_blocks", __u64); ("mbo_padding_8", COpaque 8); ("mbo_padding_9", COpaque 8);
    ("mbo_padding_10", COpaque 8)].

Definition mdt_rec_reint_t : ctype :=
  CStruct [("rr_opcode", __u32); ("rr_cap", __u32); ("rr_fsuid", __u32); ("rr_fsuid_h", COpaque 4); ("rr_fsgid", __u32);
    ("rr_fsgid_h", COpaque 4); ("rr_suppgid1", __u32); ("rr_suppgid1_h", COpaque 4); ("rr_suppgid2", __u32);
    ("rr_suppgid2_h", COpaque 4); ("rr_fid1", lu_fid_t); ("rr_fid2", lu_fid_t); ("rr_mtime", __u64); ("rr_atime", __u64);
    ("rr_ctime", __u64); ("rr_size", __u64); ("rr_blocks", __u64); ("rr_bias", __u32); ("rr_mode", __u32); ("rr_flags", __u32);
    ("rr_flags_h", __u32); ("rr_umask", __u32); ("rr_padding_4", COpaque 4)].

Definition lov_desc_t : ctype :=
  CStruct [("ld_tgt_count", __u32); ("ld_active_tgt_count", __u32); ("ld_default_stripe_count", __u32); ("ld_pattern", __u32);
    ("ld_default_stripe_size", __u64); ("ld_default_stripe_offset", __u64); ("ld_padding_0", COpaque 4); ("ld_qos_maxage", __u32);
    ("ld_padding_1", COpaque 4); ("ld_padding_2", COpaque 4); ("ld_uuid", COpaque 40)].
Definition lmv_desc_t : ctype :=
  CStruct [("ld_tgt_count", __u32); ("ld_active_tgt_count", __u32); ("ld_default_stripe_count", __u32); ("ld_pattern", __u32);
    ("ld_default_hash_size", __u64); ("ld_padding_1", COpaque 8); ("ld_padding_2", COpaque 4); ("ld_qos_maxage", __u32);
    ("ld_padding_3", COpaque 4); ("ld_padding_4", COpaque 4); ("ld_uuid", COpaque 40)].

(** What is closed, with the number of the mirror to split off. *)
Definition close_data_t : ctype :=
  CStruct [("cd_handle", COpaque 8); ("cd_fid", lu_fid_t); ("cd_data_version", __u64); ("cd_mirror_id", __u16); ("rest", CRest 62)].

Definition getinfo_fid2path_t : ctype :=
  CStruct [("gf_fid", lu_fid_t); ("gf_recno", __u64); ("gf_linkno", __u32); ("gf_pathlen", __u32)].

Definition idx_info_t : ctype :=
  CStruct [("ii_magic", __u32); ("ii_flags", __u32); ("ii_count", __u16); ("ii_pad0", COpaque 2); ("ii_attrs", __u32);
    ("ii_fid", lu_fid_t); ("ii_version", __u64); ("ii_hash_start", __u64); ("ii_hash_end", __u64); ("ii_keysize", __u16);
    ("ii_recsize", __u16); ("ii_pad1", COpaque 4); ("ii_pad2", COpaque 8); ("ii_pad3", COpaque 8)].

(** ** Quota *)

(** [union lquota_id], as the FID that is its longest member: the other identifiers are its
    first eight bytes. *)
Definition ldlm_gl_lquota_desc_t : ctype :=
  CStruct [("gl_id", lu_fid_t); ("gl_flags", __u64); ("gl_ver", __u64); ("gl_hardlimit", __u64); ("gl_softlimit", __u64);
    ("gl_time", __u64); ("gl_pad2", COpaque 8)].
Definition lquota_lvb_t : ctype :=
  CStruct [("lvb_flags", __u64); ("lvb_id_may_rel", __u64); ("lvb_id_rel", __u64); ("lvb_id_qunit", __u64); ("lvb_pad1", __u64)].
Definition obd_dqinfo_t : ctype :=
  CStruct [("dqi_bgrace", __u64); ("dqi_igrace", __u64); ("dqi_flags", __u32); ("dqi_valid", __u32)].
Definition obd_dqblk_t : ctype :=
  CStruct [("dqb_bhardlimit", __u64); ("dqb_bsoftlimit", __u64); ("dqb_curspace", __u64); ("dqb_ihardlimit", __u64);
    ("dqb_isoftlimit", __u64); ("dqb_curinodes", __u64); ("dqb_btime", __u64); ("dqb_itime", __u64); ("dqb_valid", __u32);
    ("dqb_padding", COpaque 4)].
Definition obd_quotactl_t : ctype :=
  CStruct [("qc_cmd", __u32); ("qc_type", __u32); ("qc_id", __u32); ("qc_stat", __u32); ("qc_dqinfo", obd_dqinfo_t);
    ("qc_dqblk", obd_dqblk_t)].
Definition quota_body_t : ctype :=
  CStruct [("qb_fid", lu_fid_t); ("qb_id", lu_fid_t); ("qb_flags", __u32); ("qb_padding", COpaque 4); ("qb_count", __u64);
    ("qb_usage", __u64); ("qb_slv_ver", __u64); ("qb_lockh", COpaque 8); ("qb_glb_lockh", COpaque 8); ("qb_padding1", COpaque 32)].

(** ** Configuration *)

Definition mgs_config_body_t : ctype :=
  CStruct [("mcb_name", COpaque 64); ("mcb_offset", __u64); ("mcb_type", __u16); ("mcb_nm_cur_pass", COpaque 1);
    ("mcb_bits", COpaque 1); ("mcb_units", __u32)].
Definition mgs_config_res_t : ctype := CStruct [("mcr_offset", __u64); ("mcr_size", __u64)].

Definition OBD_CONNECT_MAX_EASIZE : Z := 0x800000000.
Definition OBD_CONNECT_MAXBYTES : Z := 0x8000000000.
Definition OBD_CONNECT_MULTIMODRPCS : Z := 0x200000000000000.
Definition OBD_CONNECT_FLAGS2 : Z := 0x8000000000000000.

(** Some members are there only with a flag. *)
Definition only_with (flags flag : Z) (n : nat) : ctype := if (Z.land flags flag =? 0)%Z then COpaque (Z.of_nat n) else CInt n.

Definition obd_connect_data_t (flags : Z) : ctype :=
  CStruct [("ocd_connect_flags", __u64); ("ocd_version", __u32); ("ocd_grant", __u32); ("ocd_index", __u32);
    ("ocd_brw_size", __u32); ("ocd_ibits_known", __u64); ("ocd_grant_blkbits", COpaque 1); ("ocd_grant_inobits", COpaque 1);
    ("ocd_grant_tax_kb", __u16); ("ocd_grant_max_blks", __u32); ("ocd_transno", __u64); ("ocd_group", __u32);
    ("ocd_cksum_types", __u32); ("ocd_max_easize", only_with flags OBD_CONNECT_MAX_EASIZE 4); ("ocd_instance", __u32);
    ("ocd_maxbytes", only_with flags OBD_CONNECT_MAXBYTES 8); ("ocd_maxmodrpcs", only_with flags OBD_CONNECT_MULTIMODRPCS 2);
    ("padding0", COpaque 2); ("padding1", COpaque 4); ("ocd_connect_flags2", only_with flags OBD_CONNECT_FLAGS2 8);
    ("padding3", COpaque 8); ("padding4", COpaque 8); ("padding5", COpaque 8); ("padding6", COpaque 8); ("padding7", COpaque 8);
    ("padding8", COpaque 8); ("padding9", COpaque 8); ("paddingA", COpaque 8); ("paddingB", COpaque 8); ("paddingC", COpaque 8);
    ("paddingD", COpaque 8); ("paddingE", COpaque 8); ("paddingF", COpaque 8)].

(** ** Archives, layouts, advice *)

Definition hsm_state_set_t : ctype :=
  CStruct [("hss_valid", __u32); ("hss_archive_id", __u32); ("hss_setmask", __u64); ("hss_clearmask", __u64)].
Definition hsm_extent_t : ctype := CStruct [("offset", __u64); ("length", __u64)].
Definition hsm_current_action_t : ctype :=
  CStruct [("hca_state", __u32); ("hca_action", __u32); ("hca_location", hsm_extent_t)].
Definition hsm_user_item_t : ctype := CStruct [("hui_fid", lu_fid_t); ("hui_extent", hsm_extent_t)].
Definition lu_extent_t : ctype := CStruct [("e_start", __u64); ("e_end", __u64)].
Definition layout_intent_t : ctype := CStruct [("li_opc", __u32); ("li_flags", __u32); ("li_extent", lu_extent_t)].
Definition hsm_progress_kernel_t : ctype :=
  CStruct [("hpk_fid", lu_fid_t); ("hpk_cookie", __u64); ("hpk_extent", hsm_extent_t); ("hpk_flags", __u16);
    ("hpk_errval", __u16); ("hpk_padding1", COpaque 4); ("hpk_data_version", __u64); ("hpk_padding2", COpaque 8)].
Definition hsm_request_t : ctype :=
  CStruct [("hr_action", __u32); ("hr_archive_id", __u32); ("hr_flags", __u64); ("hr_itemcount", __u32); ("hr_data_len", __u32)].
Definition lu_ladvise_t : ctype :=
  CStruct [("lla_advice", __u16); ("lla_value1", __u16); ("lla_value2", __u32); ("lla_start", __u64); ("lla_end", __u64);
    ("lla_value3", __u32); ("lla_value4", __u32)].
Definition ladvise_hdr_t : ctype :=
  CStruct [("lah_magic", __u32); ("lah_count", __u32); ("lah_flags", __u64); ("lah_value1", __u32); ("lah_value2", __u32);
    ("lah_value3", __u64)].

(** ** The file system check *)

Definition lfsck_request_t : ctype :=
  CStruct [("lr_event", __u32); ("lr_index", __u32); ("lr_flags", __u32); ("lr_valid", __u32); ("lr_speed", __u32);
    ("lr_version", __u16); ("lr_active", __u16); ("lr_param", __u16); ("lr_async_windows", __u16); ("lr_flags2", __u32);
    ("lr_fid", lu_fid_t); ("lr_fid2", lu_fid_t); ("lr_comp_id", __u32); ("lr_padding_0", COpaque 4); ("lr_padding_1", COpaque 8);
    ("lr_padding_2", COpaque 8); ("lr_padding_3", COpaque 8)].
Definition lfsck_reply_t : ctype := CStruct [("lr_status", __u32); ("lr_padding_1", COpaque 4); ("lr_repaired", __u64)].
Definition lu_orphan_rec_t : ctype := CStruct [("lor_fid", lu_fid_t); ("lor_uid", __u32); ("lor_gid", __u32)].
Definition lu_orphan_rec_v2_t : ctype :=
  CStruct [("lor_rec", lu_orphan_rec_t); ("lor_layout", ost_layout_t); ("lor_padding", COpaque 4)].
Definition lu_orphan_rec_v3_t : ctype :=
  CStruct [("lor_rec", lu_orphan_rec_t); ("lor_layout", ost_layout_t); ("lor_layout_version", __u32); ("lor_range", __u32);
    ("lor_padding_1", COpaque 4); ("lor_padding_2", COpaque 8)].
Definition lu_orphan_ent_t : ctype := CStruct [("loe_key", lu_fid_t); ("loe_rec", lu_orphan_rec_t)].
Definition lu_orphan_ent_v2_t : ctype := CStruct [("loe_key", lu_fid_t); ("loe_rec", lu_orphan_rec_v2_t)].
Definition lu_orphan_ent_v3_t : ctype := CStruct [("loe_key", lu_fid_t); ("loe_rec", lu_orphan_rec_v3_t)].

(** ** Locks *)

Definition ldlm_extent_t : ctype := CStruct [("start", __u64); ("end", __u64); ("gid", __u64)].
Definition ldlm_inodebits_t : ctype := CStruct [("bits", __u64); ("try_bits", __u64)].
Definition ldlm_flock_wire_t : ctype :=
  CStruct [("lfw_start", __u64); ("lfw_end", __u64); ("lfw_owner", __u64); ("lfw_padding", COpaque 4); ("lfw_pid", __u32)].

(** [union ldlm_wire_policy_data], as the type of the resource says.  Of the bytes behind a
    shorter member ([CRest]) nothing is said: the conversion goes by the longest member and
    swaps [lfw_pid] there, for every type. *)
Inductive policy_kind : Type := PolicyExtent | PolicyFlock | PolicyInodebits.
Definition policy_t (k : policy_kind) : ctype :=
  match k with
  | PolicyExtent => CStruct [("l_extent", ldlm_extent_t); ("rest", CRest 8)]
  | PolicyFlock => CStruct [("l_flock", ldlm_flock_wire_t)]
  | PolicyInodebits => CStruct [("l_inodebits", ldlm_inodebits_t); ("rest", CRest 16)]
  end.

Definition RES_NAME_SIZE : nat := 4.
Definition LDLM_LOCKREQ_HANDLES : nat := 2.

Definition ldlm_res_id_t : ctype := CStruct [("name", CArray RES_NAME_SIZE __u64)].
Definition ldlm_resource_desc_t : ctype :=
  CStruct [("lr_type", __u32); ("lr_pad", COpaque 4); ("lr_name", ldlm_res_id_t)].
Definition ldlm_lock_desc_t (k : policy_kind) : ctype :=
  CStruct [("l_resource", ldlm_resource_desc_t); ("l_req_mode", __u32); ("l_granted_mode", __u32); ("l_policy_data", policy_t k)].
Definition ldlm_request_t (k : policy_kind) : ctype :=
  CStruct [("lock_flags", __u32); ("lock_count", __u32); ("lock_desc", ldlm_lock_desc_t k);
    ("lock_handle", CArray LDLM_LOCKREQ_HANDLES (COpaque 8))].
Definition ldlm_reply_t (k : policy_kind) : ctype :=
  CStruct [("lock_flags", __u32); ("lock_padding", COpaque 4); ("lock_desc", ldlm_lock_desc_t k); ("lock_handle", COpaque 8);
    ("lock_policy_res1", __u64); ("lock_policy_res2", __u64)].
