(* ===== verification/WireSwab.v ===== *)
(** * The conversion of structures from hosts of the other byte order

    The [lustre_swab_*] functions of [lustre/ptlrpc/pack_generic.c] and
    [lustre/obdclass/llog_swab.c] on structures of a fixed size: each takes the memory and the
    address of a structure and swaps members in place, in the order of the code. *)

From stdpp Require Import list strings.
From S2P Require Import Prelude Memory Fid WireStructs.

#[local] Open Scope string_scope.
#[local] Open Scope list_scope.

Definition swabber : Type := list Z -> Z -> run (list Z).

Section Swab.
Context {bo : byte_order}.

(** [__swab64s(&p->m)] and its relatives, on members one after the other. *)
Definition field (t : ctype) (name : string) : Z * nat :=
  match member t name with Some (off, CInt n) => (off, n) | _ => (-1, 0%nat) end.
Definition swabs (t : ctype) (names : list string) : swabber := fun mem p => swab_fields mem p (map (field t) names).
(** A function called on the address of a member, and two functions in sequence. *)
Definition on (t : ctype) (name : string) (f : swabber) : swabber := fun mem p => f mem (p + offsetof t name)%Z.
Definition andthen (f g : swabber) : swabber := fun mem p => mem ← f mem p; g mem p.

#[local] Notation "f ;;; g" := (andthen f g) (at level 60, right associativity).

(** ** Identifiers *)

Definition lustre_swab_lu_fid : swabber := swabs lu_fid_t ["f_seq"; "f_oid"; "f_ver"].

Definition lustre_swab_ost_id : swabber := fun mem oid =>
  seq ← get_int 8 mem (oid + offsetof oi_t "oi_seq")%Z;
  if fid_seq_is_mdt0 seq || fid_seq_is_default seq then swabs oi_t ["oi_id"; "oi_seq"] mem oid
  else lustre_swab_lu_fid mem oid.

(** ** Connections *)

(** [if (ocd->ocd_connect_flags & flag)] *)
Definition if_connect_flag (flag : Z) (f : swabber) : swabber := fun mem ocd =>
  flags ← get_int 8 mem (ocd + offsetof (obd_connect_data_t 0) "ocd_connect_flags")%Z;
  if (Z.land flags flag =? 0)%Z then Ret mem else f mem ocd.

Definition lustre_swab_connect : swabber :=
  let ocd_t := obd_connect_data_t (Z.lor (Z.lor OBD_CONNECT_MAX_EASIZE OBD_CONNECT_MAXBYTES)
                                         (Z.lor OBD_CONNECT_MULTIMODRPCS OBD_CONNECT_FLAGS2)) in
  swabs ocd_t ["ocd_connect_flags"; "ocd_version"; "ocd_grant"; "ocd_ibits_known"; "ocd_index"; "ocd_brw_size";
    "ocd_grant_tax_kb"; "ocd_grant_max_blks"; "ocd_transno"; "ocd_group"; "ocd_cksum_types"; "ocd_instance"];;;
  if_connect_flag OBD_CONNECT_MAX_EASIZE (swabs ocd_t ["ocd_max_easize"]);;;
  if_connect_flag OBD_CONNECT_MAXBYTES (swabs ocd_t ["ocd_maxbytes"]);;;
  if_connect_flag OBD_CONNECT_MULTIMODRPCS (swabs ocd_t ["ocd_maxmodrpcs"]);;;
  if_connect_flag OBD_CONNECT_FLAGS2 (swabs ocd_t ["ocd_connect_flags2"]).

(** ** Objects *)

Definition lustre_swab_ost_layout : swabber :=
  swabs ost_layout_t ["ol_stripe_size"; "ol_stripe_count"; "ol_comp_start"; "ol_comp_end"; "ol_comp_id"].

Definition lustre_swab_obdo : swabber :=
  swabs (obdo_t 0) ["o_valid"];;;
  on (obdo_t 0) "o_oi" lustre_swab_ost_id;;;
  swabs (obdo_t 0) ["o_parent_seq"; "o_size"; "o_mtime"; "o_atime"; "o_ctime"; "o_blocks"; "o_grant"; "o_blksize"; "o_mode";
    "o_uid"; "o_gid"; "o_flags"; "o_nlink"; "o_parent_oid"; "o_misc"; "o_ioepoch"; "o_stripe_idx"; "o_parent_ver"];;;
  on (obdo_t 0) "o_layout" lustre_swab_ost_layout;;;
  swabs (obdo_t 0) ["o_layout_version"; "o_uid_h"; "o_gid_h"; "o_data_version"; "o_projid"].

Definition lustre_swab_obd_statfs : swabber :=
  swabs obd_statfs_t ["os_type"; "os_blocks"; "os_bfree"; "os_bavail"; "os_files"; "os_ffree"; "os_bsize"; "os_namelen";
    "os_maxbytes"; "os_state"; "os_fprecreated"; "os_granted"].

Definition lustre_swab_obd_ioobj : swabber :=
  on (obd_ioobj_t 0) "ioo_oid" lustre_swab_ost_id;;;
  swabs (obd_ioobj_t 0) ["ioo_max_brw"; "ioo_bufcnt"].

Definition lustre_swab_niobuf_remote : swabber := swabs niobuf_remote_t ["rnb_offset"; "rnb_len"; "rnb_flags"].
Definition lustre_swab_ost_body : swabber := on (ost_body_t 0) "oa" lustre_swab_obdo.

(** ** Values of locks *)

Definition lustre_swab_gl_lquota_desc : swabber :=
  on ldlm_gl_lquota_desc_t "gl_id" lustre_swab_lu_fid;;;
  swabs ldlm_gl_lquota_desc_t ["gl_flags"; "gl_ver"; "gl_hardlimit"; "gl_softlimit"; "gl_time"].
Definition lustre_swab_gl_barrier_desc : swabber := swabs ldlm_gl_barrier_desc_t ["lgbd_status"; "lgbd_timeout"].
Definition lustre_swab_ost_lvb_v1 : swabber :=
  swabs ost_lvb_v1_t ["lvb_size"; "lvb_mtime"; "lvb_atime"; "lvb_ctime"; "lvb_blocks"].
Definition lustre_swab_ost_lvb : swabber :=
  swabs ost_lvb_t ["lvb_size"; "lvb_mtime"; "lvb_atime"; "lvb_ctime"; "lvb_blocks"; "lvb_mtime_ns"; "lvb_atime_ns";
    "lvb_ctime_ns"; "lvb_padding"].
Definition lustre_swab_lquota_lvb : swabber :=
  swabs lquota_lvb_t ["lvb_flags"; "lvb_id_may_rel"; "lvb_id_rel"; "lvb_id_qunit"; "lvb_pad1"].
Definition lustre_swab_barrier_lvb : swabber := swabs barrier_lvb_t ["lvb_status"; "lvb_index"].

(** ** Metadata *)

Definition lustre_swab_mdt_body : swabber :=
  on mdt_body_t "mbo_fid1" lustre_swab_lu_fid;;;
  on mdt_body_t "mbo_fid2" lustre_swab_lu_fid;;;
  swabs mdt_body_t ["mbo_valid"; "mbo_size"; "mbo_mtime"; "mbo_atime"; "mbo_ctime"; "mbo_blocks"; "mbo_version"; "mbo_t_state";
    "mbo_fsuid"; "mbo_fsgid"; "mbo_capability"; "mbo_mode"; "mbo_uid"; "mbo_gid"; "mbo_flags"; "mbo_rdev"; "mbo_nlink";
    "mbo_layout_gen"; "mbo_suppgid"; "mbo_eadatasize"; "mbo_aclsize"; "mbo_max_mdsize"; "mbo_uid_h"; "mbo_gid_h"; "mbo_projid";
    "mbo_dom_size"; "mbo_dom_blocks"].

Definition lustre_swab_mgs_config_body : swabber := swabs mgs_config_body_t ["mcb_offset"; "mcb_units"; "mcb_type"].
Definition lustre_swab_mgs_config_res : swabber := swabs mgs_config_res_t ["mcr_offset"; "mcr_size"].

Definition lustre_swab_obd_dqinfo : swabber := swabs obd_dqinfo_t ["dqi_bgrace"; "dqi_igrace"; "dqi_flags"; "dqi_valid"].
Definition lustre_swab_obd_dqblk : swabber :=
  swabs obd_dqblk_t ["dqb_ihardlimit"; "dqb_isoftlimit"; "dqb_curinodes"; "dqb_bhardlimit"; "dqb_bsoftlimit"; "dqb_curspace";
    "dqb_btime"; "dqb_itime"; "dqb_valid"].
Definition lustre_swab_obd_quotactl : swabber :=
  swabs obd_quotactl_t ["qc_cmd"; "qc_type"; "qc_id"; "qc_stat"];;;
  on obd_quotactl_t "qc_dqinfo" lustre_swab_obd_dqinfo;;;
  on obd_quotactl_t "qc_dqblk" lustre_swab_obd_dqblk.

Definition lustre_swab_fid2path : swabber :=
  on getinfo_fid2path_t "gf_fid" lustre_swab_lu_fid;;;
  swabs getinfo_fid2path_t ["gf_recno"; "gf_linkno"; "gf_pathlen"].

Definition lustre_swab_idx_info : swabber :=
  swabs idx_info_t ["ii_magic"; "ii_flags"; "ii_count"; "ii_attrs"];;;
  on idx_info_t "ii_fid" lustre_swab_lu_fid;;;
  swabs idx_info_t ["ii_version"; "ii_hash_start"; "ii_hash_end"; "ii_keysize"; "ii_recsize"].

Definition lustre_swab_mdt_rec_reint : swabber :=
  swabs mdt_rec_reint_t ["rr_opcode"; "rr_cap"; "rr_fsuid"; "rr_fsgid"; "rr_suppgid1"; "rr_suppgid2"];;;
  on mdt_rec_reint_t "rr_fid1" lustre_swab_lu_fid;;;
  on mdt_rec_reint_t "rr_fid2" lustre_swab_lu_fid;;;
  swabs mdt_rec_reint_t ["rr_mtime"; "rr_atime"; "rr_ctime"; "rr_size"; "rr_blocks"; "rr_bias"; "rr_mode"; "rr_flags";
    "rr_flags_h"; "rr_umask"].

Definition lustre_swab_lov_desc : swabber :=
  swabs lov_desc_t ["ld_tgt_count"; "ld_active_tgt_count"; "ld_default_stripe_count"; "ld_pattern"; "ld_default_stripe_size";
    "ld_default_stripe_offset"; "ld_qos_maxage"].
Definition lustre_swab_lmv_desc : swabber :=
  swabs lmv_desc_t ["ld_tgt_count"; "ld_active_tgt_count"; "ld_default_stripe_count"; "ld_pattern"; "ld_default_hash_size";
    "ld_qos_maxage"].

(** ** Locks *)

(** The loop over [name]. *)
Definition lustre_swab_ldlm_res_id : swabber := fun mem id =>
  swab_fields mem (id + offsetof ldlm_res_id_t "name")%Z (map (fun i => (8 * Z.of_nat i, 8%nat)%Z) (seq 0 RES_NAME_SIZE)).

(** The members of a union: [gid] and [lfw_owner] share their address. *)
Definition lustre_swab_ldlm_policy_data : swabber :=
  swabs ldlm_extent_t ["start"; "end"; "gid"];;;
  swabs ldlm_flock_wire_t ["lfw_owner"; "lfw_pid"].

Definition lustre_swab_ldlm_resource_desc : swabber :=
  swabs ldlm_resource_desc_t ["lr_type"];;;
  on ldlm_resource_desc_t "lr_name" lustre_swab_ldlm_res_id.

Definition lustre_swab_ldlm_lock_desc : swabber :=
  on (ldlm_lock_desc_t PolicyExtent) "l_resource" lustre_swab_ldlm_resource_desc;;;
  swabs (ldlm_lock_desc_t PolicyExtent) ["l_req_mode"; "l_granted_mode"];;;
  on (ldlm_lock_desc_t PolicyExtent) "l_policy_data" lustre_swab_ldlm_policy_data.

Definition lustre_swab_ldlm_request : swabber :=
  swabs (ldlm_request_t PolicyExtent) ["lock_flags"];;;
  on (ldlm_request_t PolicyExtent) "lock_desc" lustre_swab_ldlm_lock_desc;;;
  swabs (ldlm_request_t PolicyExtent) ["lock_count"].

Definition lustre_swab_ldlm_reply : swabber :=
  swabs (ldlm_reply_t PolicyExtent) ["lock_flags"];;;
  on (ldlm_reply_t PolicyExtent) "lock_desc" lustre_swab_ldlm_lock_desc;;;
  swabs (ldlm_reply_t PolicyExtent) ["lock_policy_res1"; "lock_policy_res2"].

Definition lustre_swab_quota_body : swabber :=
  on quota_body_t "qb_fid" lustre_swab_lu_fid;;;
  on quota_body_t "qb_id" lustre_swab_lu_fid;;;
  swabs quota_body_t ["qb_flags"; "qb_count"; "qb_usage"; "qb_slv_ver"].

(** ** Archives, layouts, advice *)

Definition lustre_swab_hsm_state_set : swabber :=
  swabs hsm_state_set_t ["hss_valid"; "hss_setmask"; "hss_clearmask"; "hss_archive_id"].
Definition lustre_swab_hsm_extent : swabber := swabs hsm_extent_t ["offset"; "length"].
Definition lustre_swab_hsm_current_action : swabber :=
  swabs hsm_current_action_t ["hca_state"; "hca_action"];;;
  on hsm_current_action_t "hca_location" lustre_swab_hsm_extent.
Definition lustre_swab_hsm_user_item : swabber :=
  on hsm_user_item_t "hui_fid" lustre_swab_lu_fid;;;
  on hsm_user_item_t "hui_extent" lustre_swab_hsm_extent.
Definition lustre_swab_lu_extent : swabber := swabs lu_extent_t ["e_start"; "e_end"].
Definition lustre_swab_layout_intent : swabber :=
  swabs layout_intent_t ["li_opc"; "li_flags"];;;
  on layout_intent_t "li_extent" lustre_swab_lu_extent.
Definition lustre_swab_hsm_progress_kernel : swabber :=
  on hsm_progress_kernel_t "hpk_fid" lustre_swab_lu_fid;;;
  swabs hsm_progress_kernel_t ["hpk_cookie"];;;
  on hsm_progress_kernel_t "hpk_extent" (swabs hsm_extent_t ["offset"; "length"]);;;
  swabs hsm_progress_kernel_t ["hpk_flags"; "hpk_errval"].
Definition lustre_swab_hsm_request : swabber :=
  swabs hsm_request_t ["hr_action"; "hr_archive_id"; "hr_flags"; "hr_itemcount"; "hr_data_len"].
Definition lustre_swab_close_data : swabber :=
  on close_data_t "cd_fid" lustre_swab_lu_fid;;;
  swabs close_data_t ["cd_data_version"].
Definition lustre_swab_ladvise : swabber :=
  swabs lu_ladvise_t ["lla_advice"; "lla_value1"; "lla_value2"; "lla_start"; "lla_end"; "lla_value3"; "lla_value4"].
Definition lustre_swab_ladvise_hdr : swabber :=
  swabs ladvise_hdr_t ["lah_magic"; "lah_count"; "lah_flags"; "lah_value1"; "lah_value2"; "lah_value3"].

(** ** The file system check *)

(** [lr_flags] is swapped twice. *)
Definition lustre_swab_lfsck_request : swabber :=
  swabs lfsck_request_t ["lr_event"; "lr_index"; "lr_flags"; "lr_valid"; "lr_speed"; "lr_version"; "lr_active"; "lr_param";
    "lr_async_windows"; "lr_flags"];;;
  on lfsck_request_t "lr_fid" lustre_swab_lu_fid;;;
  on lfsck_request_t "lr_fid2" lustre_swab_lu_fid;;;
  swabs lfsck_request_t ["lr_comp_id"].
Definition lustre_swab_lfsck_reply : swabber := swabs lfsck_reply_t ["lr_status"; "lr_repaired"].
Definition lustre_swab_orphan_rec : swabber :=
  on lu_orphan_rec_t "lor_fid" lustre_swab_lu_fid;;;
  swabs lu_orphan_rec_t ["lor_uid"; "lor_gid"].
Definition lustre_swab_orphan_ent : swabber :=
  on lu_orphan_ent_t "loe_key" lustre_swab_lu_fid;;;
  on lu_orphan_ent_t "loe_rec" lustre_swab_orphan_rec.
Definition lustre_swab_orphan_ent_v2 : swabber :=
  on lu_orphan_ent_v2_t "loe_key" lustre_swab_lu_fid;;;
  on lu_orphan_ent_v2_t "loe_rec" (on lu_orphan_rec_v2_t "lor_rec" lustre_swab_orphan_rec);;;
  on lu_orphan_ent_v2_t "loe_rec" (on lu_orphan_rec_v2_t "lor_layout" lustre_swab_ost_layout).
Definition lustre_swab_orphan_ent_v3 : swabber :=
  on lu_orphan_ent_v3_t "loe_key" lustre_swab_lu_fid;;;
  on lu_orphan_ent_v3_t "loe_rec" (on lu_orphan_rec_v3_t "lor_rec" lustre_swab_orphan_rec);;;
  on lu_orphan_ent_v3_t "loe_rec" (on lu_orphan_rec_v3_t "lor_layout" lustre_swab_ost_layout);;;
  on lu_orphan_ent_v3_t "loe_rec" (swabs lu_orphan_rec_v3_t ["lor_layout_version"; "lor_range"]).
End Swab.
