(* ===== verification/WireSwabProps.v ===== *)
(** Structures from hosts of the other byte order: which of their members the functions of
    [WireSwab] convert. *)

From stdpp Require Import list strings.
From S2P Require Import Prelude Memory Fid PtlMsgOps PtlMsgWire WireStructs WireSwab.

(** ** Lists of swaps *)

Section Lists.
Context {bo : byte_order}.

Lemma swab_fields_app base A B : forall mem,
  swab_fields mem base (A ++ B) = (mem ← swab_fields mem base A; swab_fields mem base B).
Proof.
  induction A as [|[o n] A IH]; intros mem; [done|]. cbn [app swab_fields]. destruct (swab_int n mem (base + o)); [apply IH|done].
Qed.

Lemma swab_fields_shift base off L : forall mem, swab_fields mem (base + off) L = swab_fields mem base (shift off L).
Proof.
  induction L as [|[o n] L IH]; intros mem; [done|]. cbn. rewrite Z.add_assoc. destruct (swab_int n mem _); [apply IH|done].
Qed.

(** Functions that swap the members of a list, whatever the memory holds. *)
Class Flat (f : swabber) (L : list (Z * nat)) : Prop := flat : forall mem p, f mem p = swab_fields mem p L.

#[export] Instance flat_swabs t names : Flat (swabs t names) (map (field t) names).
Proof. done. Qed.

#[export] Instance flat_on t name f L : Flat f L -> Flat (on t name f) (shift (offsetof t name) L).
Proof. intros H mem p. unfold on. rewrite H. apply swab_fields_shift. Qed.

#[export] Instance flat_andthen f g A B : Flat f A -> Flat g B -> Flat (andthen f g) (A ++ B).
Proof.
  intros Hf Hg mem p. unfold andthen. rewrite swab_fields_app, Hf. destruct (swab_fields mem p A); [apply Hg|done].
Qed.

#[export] Instance flat_res_id : Flat lustre_swab_ldlm_res_id (shift 0 (map (fun i => (8 * Z.of_nat i, 8%nat)) (seq 0 RES_NAME_SIZE))).
Proof. intros mem p. apply swab_fields_shift. Qed.

(** What swapping one integer does. *)
Lemma swab_int_ok n mem off :
  0 <= off -> off + Z.of_nat n <= zlen mem -> Forall is_byte mem ->
  exists mem', swab_int n mem off = Ret mem' /\ frame off (off + Z.of_nat n) mem mem'
    /\ forall x, get_int n mem off = Ret x -> get_int n mem' off = Ret (swab n x).
Proof.
  intros H0 Hl Hb. destruct (get_bound n mem off H0 Hl Hb) as (x & Hx & Hxb). unfold swab_int. rewrite Hx. cbn [mbind run_bind].
  destruct (put_Ret n mem off (swab n x) H0 Hl) as [mem' E]. exists mem'. split_and!; [done|by eapply put_frame|].
  intros y [= <-]. eapply get_put_same; [exact E|apply swab_bound].
Qed.

Definition inside (size : Z) (f : Z * nat) : bool := (0 <=? f.1) && (f.1 + Z.of_nat f.2 <=? size).
Definition same_or_separate (f g : Z * nat) : bool := bool_decide (f = g) || separate f g.

(** How often a field is swapped, as far as that matters. *)
Fixpoint swapped (f : Z * nat) (L : list (Z * nat)) : bool :=
  match L with [] => false | g :: L' => xorb (bool_decide (f = g)) (swapped f L') end.

Lemma separate_spec f g : separate f g = true <-> f.1 + Z.of_nat f.2 <= g.1 \/ g.1 + Z.of_nat g.2 <= f.1.
Proof. unfold separate. by rewrite orb_true_iff, !Z.leb_le. Qed.

Lemma inside_spec size f : inside size f = true <-> 0 <= f.1 /\ f.1 + Z.of_nat f.2 <= size.
Proof. unfold inside. by rewrite andb_true_iff, !Z.leb_le. Qed.

(** Swaps of a list of fields, some of them more than once. *)
Lemma swab_fields_parity base size L : forall mem,
  0 <= base -> base + size <= zlen mem -> Forall is_byte mem -> forallb (inside size) L = true ->
  exists mem', swab_fields mem base L = Ret mem' /\ frame base (base + size) mem mem'
    /\ (forall f x, forallb (same_or_separate f) L = true -> get_int f.2 mem (base + f.1) = Ret x -> 0 <= x < 256 ^ Z.of_nat f.2 ->
          get_int f.2 mem' (base + f.1) = Ret (if swapped f L then swab f.2 x else x))
    /\ forall f, forallb (separate f) L = true -> load mem' (base + f.1) (Z.of_nat f.2) = load mem (base + f.1) (Z.of_nat f.2).
Proof.
  induction L as [|[o n] L IH]; intros mem H0 Hl Hb Hin; cbn [forallb swapped swab_fields] in *.
  { exists mem. by split_and!. }
  apply andb_true_iff in Hin as [Hi Hin]. apply inside_spec in Hi as [Hi1 Hi2]. cbn [fst snd] in *.
  destruct (swab_int_ok n mem (base + o)) as (m1 & -> & F1 & G1); [lia..|done|]. cbn [mbind run_bind].
  pose proof (fr_length _ _ _ _ F1) as L1.
  destruct (IH m1) as (m2 & E2 & F2 & G2 & O2); [done|by rewrite L1|by apply (fr_bytes _ _ _ _ F1)|done|].
  exists m2. split_and!; [done| | |].
  - eapply mem_frame_trans; [|exact F2]. eapply frame_wide; [exact F1|lia..].
  - intros f x [Hs Hss]%andb_true_iff Hx Hxb. unfold same_or_separate in Hs. case_bool_decide as Hf; cbn [orb xorb] in *.
    + subst f. rewrite (G2 (o, n) (swab n x) Hss (G1 x Hx) (swab_bound _ _)). cbn [fst snd].
      destruct (swapped (o, n) L); [by rewrite swab_swab|done].
    + apply G2; [done| |done]. rewrite <-Hx. eapply frame_get; [exact F1|]. apply separate_spec in Hs. cbn [fst snd] in Hs. lia.
  - intros f [Hs Hss]%andb_true_iff. rewrite (O2 f Hss). apply (fr_load _ _ _ _ F1). apply separate_spec in Hs. cbn [fst snd] in Hs. lia.
Qed.
End Lists.

(** ** Structures *)

Inductive wire : Type :=
| WFid | WOstId | WConnect | WOstLayout | WObdo | WStatfs | WIoobj | WNiobuf | WOstBody | WGlLquota | WGlBarrier | WOstLvbV1
| WOstLvb | WLquotaLvb | WBarrierLvb | WMdtBody | WConfigBody | WConfigRes | WQuotactl | WFid2path | WIdxInfo | WRecReint
| WLovDesc | WLmvDesc | WResourceDesc | WLockDesc (k : policy_kind) | WRequest (k : policy_kind) | WReply (k : policy_kind)
| WQuotaBody | WStateSet | WCurrentAction | WUserItem | WLayoutIntent | WProgress | WHsmRequest | WCloseData | WLadvise
| WLadviseHdr | WLfsckRequest | WLfsckReply | WOrphan | WOrphanV2 | WOrphanV3.

(** A member that decides on what the others are, and the declaration for a value of it. *)
Definition tag_at (w : wire) : option Z :=
  match w with WOstId | WIoobj => Some 8 | WObdo | WOstBody => Some 16 | WConnect => Some 0 | _ => None end.

Definition declared (w : wire) (tag : Z) : ctype :=
  match w with
  | WFid => lu_fid_t | WOstId => ost_id_t tag | WConnect => obd_connect_data_t tag | WOstLayout => ost_layout_t
  | WObdo => obdo_t tag | WStatfs => obd_statfs_t | WIoobj => obd_ioobj_t tag | WNiobuf => niobuf_remote_t
  | WOstBody => ost_body_t tag | WGlLquota => ldlm_gl_lquota_desc_t | WGlBarrier => ldlm_gl_barrier_desc_t
  | WOstLvbV1 => ost_lvb_v1_t | WOstLvb => ost_lvb_t | WLquotaLvb => lquota_lvb_t | WBarrierLvb => barrier_lvb_t
  | WMdtBody => mdt_body_t | WConfigBody => mgs_config_body_t | WConfigRes => mgs_config_res_t | WQuotactl => obd_quotactl_t
  | WFid2path => getinfo_fid2path_t | WIdxInfo => idx_info_t | WRecReint => mdt_rec_reint_t | WLovDesc => lov_desc_t
  | WLmvDesc => lmv_desc_t | WResourceDesc => ldlm_resource_desc_t | WLockDesc k => ldlm_lock_desc_t k
  | WRequest k => ldlm_request_t k | WReply k => ldlm_reply_t k | WQuotaBody => quota_body_t | WStateSet => hsm_state_set_t
  | WCurrentAction => hsm_current_action_t | WUserItem => hsm_user_item_t | WLayoutIntent => layout_intent_t
  | WProgress => hsm_progress_kernel_t | WHsmRequest => hsm_request_t | WCloseData => close_data_t | WLadvise => lu_ladvise_t
  | WLadviseHdr => ladvise_hdr_t | WLfsckRequest => lfsck_request_t | WLfsckReply => lfsck_reply_t | WOrphan => lu_orphan_ent_t
  | WOrphanV2 => lu_orphan_ent_v2_t | WOrphanV3 => lu_orphan_ent_v3_t
  end.

Definition swab_of {bo : byte_order} (w : wire) : swabber :=
  match w with
  | WFid => lustre_swab_lu_fid | WOstId => lustre_swab_ost_id | WConnect => lustre_swab_connect
  | WOstLayout => lustre_swab_ost_layout | WObdo => lustre_swab_obdo | WStatfs => lustre_swab_obd_statfs
  | WIoobj => lustre_swab_obd_ioobj | WNiobuf => lustre_swab_niobuf_remote | WOstBody => lustre_swab_ost_body
  | WGlLquota => lustre_swab_gl_lquota_desc | WGlBarrier => lustre_swab_gl_barrier_desc | WOstLvbV1 => lustre_swab_ost_lvb_v1
  | WOstLvb => lustre_swab_ost_lvb | WLquotaLvb => lustre_swab_lquota_lvb | WBarrierLvb => lustre_swab_barrier_lvb
  | WMdtBody => lustre_swab_mdt_body | WConfigBody => lustre_swab_mgs_config_body | WConfigRes => lustre_swab_mgs_config_res
  | WQuotactl => lustre_swab_obd_quotactl | WFid2path => lustre_swab_fid2path | WIdxInfo => lustre_swab_idx_info
  | WRecReint => lustre_swab_mdt_rec_reint | WLovDesc => lustre_swab_lov_desc | WLmvDesc => lustre_swab_lmv_desc
  | WResourceDesc => lustre_swab_ldlm_resource_desc | WLockDesc _ => lustre_swab_ldlm_lock_desc
  | WRequest _ => lustre_swab_ldlm_request | WReply _ => lustre_swab_ldlm_reply | WQuotaBody => lustre_swab_quota_body
  | WStateSet => lustre_swab_hsm_state_set | WCurrentAction => lustre_swab_hsm_current_action
  | WUserItem => lustre_swab_hsm_user_item | WLayoutIntent => lustre_swab_layout_intent
  | WProgress => lustre_swab_hsm_progress_kernel | WHsmRequest => lustre_swab_hsm_request | WCloseData => lustre_swab_close_data
  | WLadvise => lustre_swab_ladvise | WLadviseHdr => lustre_swab_ladvise_hdr | WLfsckRequest => lustre_swab_lfsck_request
  | WLfsckReply => lustre_swab_lfsck_reply | WOrphan => lustre_swab_orphan_ent | WOrphanV2 => lustre_swab_orphan_ent_v2
  | WOrphanV3 => lustre_swab_orphan_ent_v3
  end.

(** The members that stay in the order of the sender: [gid] and [lfw_owner] of a lock, swapped
    twice as they are one place; [lr_flags], swapped twice, and [lr_flags2]; [hpk_data_version];
    [cd_mirror_id]. *)
Definition missed_lock (k : policy_kind) : list (Z * nat) :=
  shift (offsetof (ldlm_lock_desc_t k) "l_policy_data")
    match k with
    | PolicyExtent => [field ldlm_extent_t "gid"]
    | PolicyFlock => [field ldlm_flock_wire_t "lfw_owner"]
    | PolicyInodebits => []
    end.
Definition missed (w : wire) : list (Z * nat) :=
  match w with
  | WLockDesc k => missed_lock k
  | WRequest k => shift (offsetof (ldlm_request_t k) "lock_desc") (missed_lock k)
  | WReply k => shift (offsetof (ldlm_reply_t k) "lock_desc") (missed_lock k)
  | WLfsckRequest => [field lfsck_request_t "lr_flags"; field lfsck_request_t "lr_flags2"]
  | WProgress => [field hsm_progress_kernel_t "hpk_data_version"]
  | WCloseData => [field close_data_t "cd_mirror_id"]
  | _ => []
  end.

(** What the swaps of a list come to. *)
Definition converts (w : wire) (t : ctype) (L : list (Z * nat)) : bool :=
  forallb (inside (sizeof t)) L
  && forallb (inside (sizeof t)) (ints t)
  && forallb (fun f => forallb (same_or_separate f) L && Bool.eqb (swapped f L) (bool_decide (f ∉ missed w))) (ints t)
  && forallb (fun f => bool_decide (f ∈ ints t)) (missed w)
  && forallb (fun f => forallb (separate f) L) (opaques t).

(** ** Functions that look at the structure *)

Section Tagged.
Context (b1 b2 : byte_order).
Hypothesis Hne : b1 <> b2.

(** The sequences that make an [ost_id] one of the old kind are the same in both orders. *)
Lemma old_seq_swab x : 0 <= x < 256 ^ 8 ->
  fid_seq_is_mdt0 (swab 8 x) || fid_seq_is_default (swab 8 x) = fid_seq_is_mdt0 x || fid_seq_is_default x.
Proof.
  intros Hx. unfold fid_seq_is_mdt0, fid_seq_is_default.
  assert (H : forall c, swab 8 c = c -> (swab 8 x =? c) = (x =? c)); [|by rewrite !H].
  intros c Hc. destruct (Z.eqb_spec x c) as [->|Hxc]; [rewrite Hc; apply Z.eqb_refl|]. apply Z.eqb_neq.
  intros E. apply Hxc. by rewrite <-(swab_swab 8 x Hx), E.
Qed.

Lemma ost_id_flat mem p seq : Forall is_byte mem -> @get_int b1 8 mem (p + 8) = Ret seq ->
  @lustre_swab_ost_id b2 mem p = @swab_fields b2 mem p (ints (ost_id_t seq)).
Proof.
  intros Hb Hs. destruct (get_int_other b1 b2 _ _ _ _ Hs Hb) as [Hs2 Hx]. rewrite decide_False in Hs2 by done.
  unfold lustre_swab_ost_id. change (offsetof oi_t "oi_seq") with 8. rewrite Hs2. cbn [mbind run_bind].
  rewrite old_seq_swab by done. unfold ost_id_t. by case_match.
Qed.

(** An [ost_id] after [A] and before [B]. *)
Lemma on_ost_id f g A B t name mem p seq size :
  Forall is_byte mem -> 0 <= p -> p + size <= zlen mem -> forallb (inside size) A = true ->
  @Flat b2 f A -> @Flat b2 g B -> forallb (separate (offsetof t name + 8, 8%nat)) A = true ->
  @get_int b1 8 mem (p + (offsetof t name + 8)) = Ret seq ->
  andthen f (andthen (on t name (@lustre_swab_ost_id b2)) g) mem p
  = @swab_fields b2 mem p (A ++ shift (offsetof t name) (ints (ost_id_t seq)) ++ B).
Proof.
  intros Hb H0 Hl HA Hf Hg Hsep Hs. destruct (@swab_fields_parity b2 p size A mem H0 Hl Hb HA) as (m1 & E1 & F1 & _ & O1).
  rewrite !swab_fields_app. unfold andthen, on. rewrite Hf, E1. cbn [mbind run_bind]. rewrite swab_fields_app, <-swab_fields_shift.
  rewrite <-(ost_id_flat m1 _ seq).
  - destruct (lustre_swab_ost_id m1 _); [apply Hg|done].
  - by apply (fr_bytes _ _ _ _ F1).
  - rewrite <-Z.add_assoc, <-Hs. specialize (O1 _ Hsep). cbn [fst snd] in O1. unfold get_int. by rewrite O1.
Qed.

(** [if (ocd->ocd_connect_flags & flag)], after the flags have been swapped. *)
Section Connect.
Context (mem : list Z) (p flags : Z).
Hypothesis (Hb : Forall is_byte mem) (H0 : 0 <= p) (Hl : p + 192 <= zlen mem) (Hfl : @get_int b1 8 mem p = Ret flags).

Definition flags_swapped (A : list (Z * nat)) : bool :=
  forallb (inside 192) A && forallb (same_or_separate (0, 8%nat)) A && swapped (0, 8%nat) A.

Lemma connect_flag_flat A flag f B : flags_swapped A = true -> @Flat b2 f B ->
  (mem ← @swab_fields b2 mem p A; @if_connect_flag b2 flag f mem p)
  = @swab_fields b2 mem p (A ++ if Z.land flags flag =? 0 then [] else B).
Proof.
  intros [[HA Hss]%andb_true_iff Hsw]%andb_true_iff Hf.
  destruct (@swab_fields_parity b2 p 192 A mem H0 Hl Hb HA) as (m1 & E1 & _ & G1 & _).
  destruct (get_int_other b1 b2 _ _ _ _ Hfl Hb) as [Hfl2 Hx]. rewrite decide_False in Hfl2 by done.
  specialize (G1 _ (swab 8 flags) Hss). cbn [fst snd] in G1. rewrite Hsw, Z.add_0_r in G1. specialize (G1 Hfl2 (swab_bound _ _)).
  rewrite swab_swab in G1 by done. rewrite swab_fields_app, E1. cbn [mbind run_bind]. unfold if_connect_flag.
  change (offsetof _ _) with 0. rewrite Z.add_0_r, G1. cbn [mbind run_bind]. case_match; [done|]. by rewrite Hf.
Qed.

Lemma connect_flag_then A flag f B g : flags_swapped A = true -> @Flat b2 f B ->
  (mem ← @swab_fields b2 mem p A; andthen (@if_connect_flag b2 flag f) g mem p)
  = (mem ← @swab_fields b2 mem p (A ++ if Z.land flags flag =? 0 then [] else B); g mem p).
Proof. intros HA Hf. rewrite <-(connect_flag_flat A flag f B HA Hf). by destruct (swab_fields mem p A). Qed.

Lemma connect_flat :
  exists L, converts WConnect (obd_connect_data_t flags) L = true /\ @lustre_swab_connect b2 mem p = @swab_fields b2 mem p L.
Proof.
  unfold lustre_swab_connect. unfold andthen at 1. rewrite (flat_swabs _ _ mem p).
  do 3 (erewrite connect_flag_then; [|repeat case_match; vm_compute; reflexivity|apply flat_swabs]).
  erewrite connect_flag_flat; [|repeat case_match; vm_compute; reflexivity|apply flat_swabs].
  eexists. split; [|reflexivity]. unfold obd_connect_data_t at 1, only_with.
  destruct (Z.land flags OBD_CONNECT_MAX_EASIZE =? 0), (Z.land flags OBD_CONNECT_MAXBYTES =? 0),
    (Z.land flags OBD_CONNECT_MULTIMODRPCS =? 0), (Z.land flags OBD_CONNECT_FLAGS2 =? 0); vm_compute; reflexivity.
Qed.
End Connect.

(** Each function is the swaps of a list, which depends on the structure only by its tag. *)
Lemma flat_converts f w t L mem p : @Flat b2 f L -> converts w t L = true ->
  exists L, converts w t L = true /\ f mem p = @swab_fields b2 mem p L.
Proof. intros Hf Hc. exists L. split; [done|apply Hf]. Qed.

(** There are two kinds of [ost_id]. *)
Lemma ost_id_kinds seq :
  exists k, ost_id_t seq = ost_id_t k /\ obdo_t seq = obdo_t k /\ obd_ioobj_t seq = obd_ioobj_t k
    /\ (k = 0 \/ k = 1).
Proof.
  assert (ost_id_t seq = ost_id_t 0 \/ ost_id_t seq = ost_id_t 1) as [E|E]
    by (unfold ost_id_t at 1 3; destruct (fid_seq_is_mdt0 seq || fid_seq_is_default seq); auto).
  - exists 0. unfold obdo_t, obd_ioobj_t. rewrite E. auto.
  - exists 1. unfold obdo_t, obd_ioobj_t. rewrite E. auto.
Qed.

Lemma obdo_flat mem p seq :
  Forall is_byte mem -> 0 <= p -> p + 208 <= zlen mem -> @get_int b1 8 mem (p + 16) = Ret seq ->
  exists L, converts WObdo (obdo_t seq) L = true /\ converts WOstBody (ost_body_t seq) L = true
    /\ @lustre_swab_obdo b2 mem p = @swab_fields b2 mem p L.
Proof.
  intros Hb H0 Hl Hs. eexists. split_and!;
    [..|unfold lustre_swab_obdo; eapply on_ost_id with (size := 208); [done..| |apply flat_swabs|apply _| |]; done];
    destruct (ost_id_kinds seq) as (k & Ek & Eo & _ & [-> | ->]); unfold ost_body_t; rewrite Ek, Eo; vm_compute; reflexivity.
Qed.

Lemma swab_of_flat w mem p tag :
  Forall is_byte mem -> 0 <= p -> p + sizeof (declared w tag) <= zlen mem ->
  (forall o, tag_at w = Some o -> @get_int b1 8 mem (p + o) = Ret tag) ->
  exists L, converts w (declared w tag) L = true /\ @swab_of b2 w mem p = @swab_fields b2 mem p L.
Proof.
  intros Hb H0 Hl Ht. destruct (ost_id_kinds tag) as (k & Ek & Eo & Ei & Hk).
  assert (Ho : sizeof (obdo_t tag) = 208) by (rewrite Eo; by destruct Hk as [-> | ->]).
  destruct w; try (match goal with policy : policy_kind |- _ => destruct policy end); cbn [swab_of declared tag_at] in *;
    try (eapply flat_converts; [apply _|vm_compute; reflexivity]).
  - exists (ints (ost_id_t tag)). split; [rewrite Ek; destruct Hk as [-> | ->]; vm_compute; reflexivity|]. apply ost_id_flat; auto.
  - apply connect_flat; [done..| |by rewrite <-(Z.add_0_r p), Ht]. unfold obd_connect_data_t, only_with in Hl.
    repeat case_match; cbn in Hl; lia.
  - destruct (obdo_flat mem p tag) as (L & ? & ? & ?); eauto. lia.
  - exists (ints (ost_id_t tag) ++ map (field (obd_ioobj_t 0)) ["ioo_max_brw"; "ioo_bufcnt"]%string).
    split; [|unfold lustre_swab_obd_ioobj, andthen, on; change (offsetof _ _) with 0; rewrite Z.add_0_r, swab_fields_app].
    2: { rewrite <-(ost_id_flat mem p tag Hb) by auto. by destruct (lustre_swab_ost_id mem p). }
    rewrite Ek, Ei. destruct Hk as [-> | ->]; vm_compute; reflexivity.
  - unfold lustre_swab_ost_body, on. change (offsetof _ _) with 0. rewrite Z.add_0_r.
    destruct (obdo_flat mem p tag) as (L & ? & ? & ?); eauto. cbn [sizeof ost_body_t] in Hl. lia.
Qed.
End Tagged.

(** ** What a receiver reads *)

Section Receive.
Context (b1 b2 : byte_order) (w : wire) (mem : list Z) (p tag : Z).
Hypothesis (Hne : b1 <> b2) (Hb : Forall is_byte mem) (H0 : 0 <= p) (Hl : p + sizeof (declared w tag) <= zlen mem).
Hypothesis (Ht : forall o, tag_at w = Some o -> @get_int b1 8 mem (p + o) = Ret tag).

Lemma received :
  exists mem', @swab_of b2 w mem p = Ret mem' /\ frame p (p + sizeof (declared w tag)) mem mem'
    /\ (forall o n x, (o, n) ∈ ints (declared w tag) -> @get_int b1 n mem (p + o) = Ret x ->
          @get_int b2 n mem' (p + o) = Ret (if decide ((o, n) ∈ missed w) then swab n x else x))
    /\ (forall o n, (o, n) ∈ opaques (declared w tag) -> load mem' (p + o) (Z.of_nat n) = load mem (p + o) (Z.of_nat n)).
Proof.
  destruct (swab_of_flat b1 b2 Hne w mem p tag Hb H0 Hl Ht) as (L & HL & ->). unfold converts in HL.
  rewrite !andb_true_iff in HL. destruct HL as [[[[Hin _] Hints] _] Hop].
  destruct (@swab_fields_parity b2 p _ L mem H0 Hl Hb Hin) as (mem' & E & F & G & O). exists mem'. split_and!; [done|done| |].
  - intros o n x Hf Hx. rewrite forallb_forall in Hints. specialize (Hints (o, n) (proj1 (list_elem_of_In _ _) Hf)).
    apply andb_true_iff in Hints as [Hss Hsw%Bool.eqb_prop]. destruct (get_int_other b1 b2 _ _ _ _ Hx Hb) as [Hx2 Hxb].
    rewrite decide_False in Hx2 by done. specialize (G (o, n) (swab n x) Hss Hx2 (swab_bound _ _)). cbn [fst snd] in G. rewrite G, Hsw.
    case_decide; [by rewrite bool_decide_eq_false_2 by auto|]. by rewrite bool_decide_eq_true_2, swab_swab.
  - intros o n Hf. rewrite forallb_forall in Hop. apply (O (o, n)), Hop. by apply list_elem_of_In.
Qed.

Lemma ints_inside f : f ∈ ints (declared w tag) -> inside (sizeof (declared w tag)) f = true.
Proof.
  intros Hf. destruct (swab_of_flat b1 b2 Hne w mem p tag Hb H0 Hl Ht) as (L & HL & _). unfold converts in HL.
  rewrite !andb_true_iff in HL. destruct HL as [[[[_ Hii] _] _] _]. rewrite forallb_forall in Hii. by apply Hii, list_elem_of_In.
Qed.

(** The members that are missed are members. *)
Lemma missed_ints f : f ∈ missed w -> f ∈ ints (declared w tag).
Proof.
  intros Hf. destruct (swab_of_flat b1 b2 Hne w mem p tag Hb H0 Hl Ht) as (L & HL & _). unfold converts in HL.
  rewrite !andb_true_iff in HL. destruct HL as [[_ Hm] _]. rewrite forallb_forall in Hm.
  specialize (Hm f (proj1 (list_elem_of_In _ _) Hf)). by apply bool_decide_eq_true in Hm.
Qed.
End Receive.

(** C13: A structure that comes from a host of the other byte order is, after the conversion of the
    receiver, the structure the sender wrote: each of its integers has the sender's value, apart
    from the members of [missed]; handles, names, padding and everything around it are
    untouched.  An [ost_id] keeps its value in the form its sequence says, and connect data the
    members its flags announce. *)
Theorem wire_structs_cross_hosts (b1 b2 : byte_order) (w : wire) (mem : list Z) (p tag : Z) :
  b1 <> b2 -> Forall is_byte mem -> 0 <= p -> p + sizeof (declared w tag) <= zlen mem ->
  (forall o, tag_at w = Some o -> @get_int b1 8 mem (p + o) = Ret tag) ->
  exists mem', @swab_of b2 w mem p = Ret mem' /\ length mem' = length mem
    /\ (forall o n, (o, n) ∈ ints (declared w tag) -> (o, n) ∉ missed w ->
          exists x, @get_int b1 n mem (p + o) = Ret x /\ @get_int b2 n mem' (p + o) = Ret x)
    /\ (forall o n, (o, n) ∈ opaques (declared w tag) -> load mem' (p + o) (Z.of_nat n) = load mem (p + o) (Z.of_nat n))
    /\ forall o n, o + n <= p \/ p + sizeof (declared w tag) <= o -> load mem' o n = load mem o n.
Proof.
  intros Hne Hb H0 Hl Ht. destruct (received b1 b2 w mem p tag Hne Hb H0 Hl Ht) as (mem' & E & F & G & O).
  exists mem'. split_and!; [done|apply F| |done|apply F]. intros o n Hi Hm.
  pose proof (ints_inside b1 b2 w mem p tag Hne Hb H0 Hl Ht _ Hi) as [Hi1 Hi2]%inside_spec. cbn [fst snd] in *.
  destruct (@get_bound b1 n mem (p + o)) as (x & Hx & _); [lia..|done|]. exists x. split; [done|].
  by rewrite (G o n x Hi Hx), decide_False.
Qed.

(** C36: The members of [missed] are not converted: of the group of an extent lock, the owner of a
    file lock, [lr_flags] and [lr_flags2] of a request of the file system check, the data
    version a copy tool reports and the mirror to split off on close, the receiver reads the
    bytes in the wrong order. *)
Theorem missed_members_stay_swapped (b1 b2 : byte_order) (w : wire) (mem : list Z) (p tag o : Z) (n : nat) :
  b1 <> b2 -> Forall is_byte mem -> 0 <= p -> p + sizeof (declared w tag) <= zlen mem ->
  (forall o, tag_at w = Some o -> @get_int b1 8 mem (p + o) = Ret tag) ->
  (o, n) ∈ missed w ->
  exists mem' x, @swab_of b2 w mem p = Ret mem'
    /\ @get_int b1 n mem (p + o) = Ret x /\ @get_int b2 n mem' (p + o) = Ret (swab n x).
Proof.
  intros Hne Hb H0 Hl Ht Hm. destruct (received b1 b2 w mem p tag Hne Hb H0 Hl Ht) as (mem' & E & F & G & O).
  pose proof (missed_ints b1 b2 w mem p tag Hne Hb H0 Hl Ht _ Hm) as Hi.
  pose proof (ints_inside b1 b2 w mem p tag Hne Hb H0 Hl Ht _ Hi) as [Hi1 Hi2]%inside_spec. cbn [fst snd] in *.
  destruct (@get_bound b1 n mem (p + o)) as (x & Hx & _); [lia..|done|]. exists mem', x. split_and!; [done..|].
  by rewrite (G o n x Hi Hx), decide_True.
Qed.

(** ** Structures in memory *)
Module WireRun.

(** The bytes 1, 2, 3 and so on. *)
Definition bytes_from_one (n : nat) : list Z := map (fun i => Z.of_nat i mod 256) (seq 1 n).

Lemma bytes_from_one_bytes n : Forall is_byte (bytes_from_one n).
Proof. apply Forall_map, Forall_true. intros i. unfold is_byte. cbn. apply Z.mod_pos_bound. lia. Qed.

(** An object of a little endian host, read by one that is big endian. *)
Definition obdo_bytes : list Z := bytes_from_one 220.
Definition obdo_seq : Z := of_bytes [21; 22; 23; 24; 25; 26; 27; 28].

Lemma wire_structs_cross_hosts_witness :
  exists mem', @swab_of BigEndian WObdo obdo_bytes 4 = Ret mem' /\ length mem' = length obdo_bytes
    /\ (forall o n, (o, n) ∈ ints (declared WObdo obdo_seq) -> (o, n) ∉ missed WObdo ->
          exists x, @get_int LittleEndian n obdo_bytes (4 + o) = Ret x /\ @get_int BigEndian n mem' (4 + o) = Ret x)
    /\ (forall o n, (o, n) ∈ opaques (declared WObdo obdo_seq) ->
          load mem' (4 + o) (Z.of_nat n) = load obdo_bytes (4 + o) (Z.of_nat n))
    /\ forall o n, o + n <= 4 \/ 4 + sizeof (declared WObdo obdo_seq) <= o -> load mem' o n = load obdo_bytes o n.
Proof.
  apply (wire_structs_cross_hosts LittleEndian BigEndian WObdo obdo_bytes 4 obdo_seq);
    [done|apply bytes_from_one_bytes|lia|vm_compute; discriminate|].
  intros o [= <-]. vm_compute. reflexivity.
Defined.

(** A request for a group lock. *)
Definition request_bytes : list Z := bytes_from_one 104.

Lemma missed_members_stay_swapped_witness :
  exists mem' x, @swab_of BigEndian (WRequest PolicyExtent) request_bytes 0 = Ret mem'
    /\ @get_int LittleEndian 8 request_bytes (0 + 72) = Ret x /\ @get_int BigEndian 8 mem' (0 + 72) = Ret (swab 8 x).
Proof.
  apply (missed_members_stay_swapped LittleEndian BigEndian (WRequest PolicyExtent) request_bytes 0 0 72 8);
    [done|apply bytes_from_one_bytes|lia|vm_compute; discriminate|done|].
  apply list_elem_of_here.
Defined.
End WireRun.
